(* ===== verification/_CoqProject ===== *)
-Q . S2P
Prelude.v
Format.v
Nom.v
NomCorrect.v
ParserCommon.v
BindLibrary.v
BindRules.v
CommonParser.v
RulesParser.v
LibraryParser.v
DeviceSpecification.v
ParserTotal.v
Grammar.v
ParserSound.v
ParserComplete.v
CompositeGrammar.v
LibraryGrammar.v
DependencyGraph.v
DependencyGraphCorrect.v
SymbolTable.v
ResolveCorrect.v
Instruction.v
Compiler.v
Bytecode.v
DecodeBindRules.v
MatchBind.v
InstructionEncoder.v
EncodeV2.v
Truncation.v
EncodeV1.v
Samples.v
DeclareCorrect.v
Semantics.v
CompilerCorrect.v
LabelBound.v
CompilerShapes.v
SymbolTableCorrect.v
InstructionCorrect.v
MatchCorrect.v
BytecodeCorrect.v
EncoderTotal.v
CompilerLabels.v
EndToEnd.v
DecodeCorrect.v
EncodeV1Correct.v
Determinism.v
Pipeline.v
Debugger.v
OfflineDebugger.v
OfflineDebuggerCorrect.v
DebuggerCorrect.v
StateError.v
InspectFormat.v
InspectBlock.v
InspectHeap.v
InspectState.v
InspectReader.v
InspectMemory.v
InspectBuddy.v
InspectHeapCorrect.v
InspectHeapSafety.v
InspectScan.v
InspectSnapshot.v
InspectObjects.v
InspectTyped.v
InspectExtents.v
InspectTree.v
InspectOwned.v
InspectValues.v
InspectOperations.v
InspectWriter.v
InspectCommands.v
InspectClient.v
InspectReadTree.v
InspectContract.v
InspectTypes.v
InspectHandles.v
InspectHistogram.v
Hierarchy.v
HierarchyCorrect.v
