(* ===== verification/Prelude.v ===== *)
(** * Verification of the Fuchsia driver bind library and of Inspect

    Two programs are modelled.  The library [src/devices/lib/bind/src] turns the bind rules
    of a driver into bytecode, and decides with the bytecode whether the driver binds to a
    device.  Inspect ([src/lib/diagnostics/inspect]) lets a component publish a tree of
    nodes and values in a VMO, a piece of memory that other processes read while the
    component changes it.

    ** The bind library

    Bind rules are statements over device properties whose keys and values are declared in
    bind libraries.  The parts of the program, in the order data flows through them, and
    the files that model them:

    - Parsing.  [parser/common.rs], [parser/bind_rules.rs],
      [parser/bind_library.rs], [parser/bind_composite.rs] and
      [debugger/device_specification.rs] are written with the vendored crates
      [nom] and [nom_locate].  [Nom.v] models the combinators, the located spans
      and the error values; [ParserCommon.v], [BindRules.v] and [BindLibrary.v]
      the syntax trees; [CommonParser.v], [RulesParser.v] (rules and composites),
      [LibraryParser.v] and [DeviceSpecification.v] the parsers, from the text
      ([rules_try_from] is [Ast::try_from] of the rules, and so on).
    - Symbols.  [DependencyGraph.v] models [compiler/dependency_graph.rs], the
      topological sort of the libraries, and [SymbolTable.v]
      [compiler/symbol_table.rs], which declares their keys and values.
    - Compiling.  [Instruction.v] models [compiler/instruction.rs] and the data
      of [compiler/compiler.rs]; [Compiler.v] its functions [compile],
      [compile_bind], [compile_bind_composite] and [compile_block].
    - Encoding.  [Bytecode.v] holds [bytecode_constants.rs] and the readers of
      [interpreter/common.rs]; [InstructionEncoder.v] (with the symbol table) and
      [EncodeV2.v] the current format of [bytecode_encoder/]; [EncodeV1.v]
      the old format of [bytecode_encoder/encode_v1.rs] with the bit fields of
      the vendored crate [bitfield].
    - Matching.  [DecodeBindRules.v] models [interpreter/decode_bind_rules.rs]
      and [MatchBind.v] [interpreter/match_bind.rs].
    - Debugging.  [Debugger.v] models [debugger/debugger.rs], which runs the old
      bytecode, and [OfflineDebugger.v] [debugger/offline_debugger.rs], which
      runs compiled rules; both with the report they print.

    ** Inspect

    The VMO is an array of 16-byte cells; a block is one or more cells with a header
    word and a payload.  The writer allocates blocks with a buddy allocator kept in the
    VMO itself, and the reader copies the VMO and rebuilds the tree from its blocks.

    - [InspectFormat.v] models [format/rust/src/]: [block_type.rs], [constants.rs],
      [utils.rs], [bitfields.rs], [container.rs] and the copies of the crate
      [shared-buffer]; [InspectBlock.v] models [block.rs], every reader over any container of
      bytes and every writer over a mapped VMO ([Mapping]).
    - [InspectHeap.v] models [rust/src/writer/heap.rs], the allocator ([Heap]).
    - [InspectState.v] models [rust/src/writer/state.rs] ([InnerState]): nodes, properties,
      string references, metrics, arrays, links, lazy nodes, the lock and transactions.
    - [InspectReader.v] models [rust/src/reader/snapshot.rs] and [reader/mod.rs], with the
      array contents of [src/lib/diagnostics/hierarchy/rust/src/lib.rs].
    - [InspectWriter.v] puts the calls that clients make on a locked state into one type
      ([command], [exec]); [InspectClient.v] models the creation of an inspector and
      programs of commands.
    - [InspectTypes.v] models the handles of [rust/src/writer/types/]: nodes, properties and
      arrays share a counted reference to a block ([InnerRef]) that is freed with the last
      strong handle; nodes keep recorded values.  A [program] calls their methods on
      variables that own handles, and [check] is the part of the Rust compiler that such
      a program relies on (types, moves and borrows).  [InspectHistogram.v] models the linear
      and exponential histograms.
    - [Hierarchy.v] models the hierarchies that readers hand out
      ([src/lib/diagnostics/hierarchy/rust/src/lib.rs]), the iterator over their properties
      ([trie.rs]) and the filter by selectors, whose regular expressions are parameters.

    ** Conventions

    A fallible function returns an [outcome]: [Ok], [Err] with the error of the
    source, or [Panic] where the source panics (an index out of range, an
    arithmetic underflow, [expect], [unreachable]).  Rust's [?] is the bind of
    the [outcome] monad.  A mutable object is passed and returned.  Integers are
    [Z] with [as_u8], [as_u32] and [try_u32] for casts and conversions; bytes
    are [Z], strings the list of their UTF-8 bytes ([rstring]).  A [HashMap] is a
    [gmap] and a [HashSet] a [gset]; where the source iterates over one, the
    order is a parameter, an instance of [HashMapOrder] or [HashSetOrder], of
    which only the permutation of the elements is known.  Arithmetic panics
    when it overflows, as in a build with overflow checks: the [u32] counters of labels
    and symbol keys, the [usize] size of an Inspect array, and, in the parsers, the [u32]
    line counter of [nom_locate] and the [i32] depth of nested comments.  The parsers take
    these two counters as an instance of [Counters] ([Nom.v]): the functions that read a
    text use [machine]; the grammars are proved with [unbounded], and [ParserTotal.v] shows
    that the two agree on texts shorter than 2^31 bytes, the bound of the theorems on
    parsers.

    Inspect changes its state through [&mut self] and returns errors from the middle of
    a change, so its operations are in the monad [st] of [StateError.v], in which the state
    survives an error; [wp] reads such an operation as totally correct: it does not
    panic, and one of two postconditions holds.  The build has debug assertions.  The size
    of a mapped VMO is a parameter of at most 2^28 bytes in the theorems, the range of a
    24-bit block index.  What the kernel answers (the size of a VMO, a mapping, a copy, the
    bytes at the time of a read) is a parameter.  So are the sign and the payload of a NaN
    that a sum or a difference of doubles gives, which Rust leaves open (the class
    [FloatNaN] of [InspectState.v]).

    Loops that are not structural take fuel and panic without it; the fuel is a
    bound computed from the input (the length of the remaining bytes or text, the
    number of nodes and edges of the graph, the number of orders of a heap, the number of
    references, of slots or of items), and the theorems that nothing panics show that it is always
    enough.

    ** Theorems

    - [EndToEnd.v]: matching the bytecode of compiled rules gives the meaning of
      the source ([Semantics.v]), for drivers and for composites.  The proof goes
      through the instructions ([CompilerCorrect.v]: running the compiled
      instructions computes the meaning of the statements), the bytes
      ([InstructionCorrect.v], [MatchCorrect.v]: the encoded bytes simulate the
      instructions, jumps included) and the layout ([SymbolTableCorrect.v],
      [BytecodeCorrect.v]: decoding gives back the sections and strings).
    - [Pipeline.v], [EncoderTotal.v], [CompilerShapes.v], [CompilerLabels.v]:
      compiling texts shorter than 2^31 bytes and encoding rules with fewer than
      2^32 - 1 strings never panic, and compiled rules of moderate size always encode.
    - [Grammar.v], [ParserSound.v], [ParserComplete.v], [CompositeGrammar.v],
      [LibraryGrammar.v]: the concrete syntax as relations between texts and syntax
      trees, and the proof that the parsers recognise exactly these texts, with the
      location of every span.
    - [NomCorrect.v], [ParserTotal.v]: every parser terminates on every text shorter than
      2^31 bytes, returns a suffix of its input and does not overflow its counters.
    - [LabelBound.v]: a text does not have more labels than bytes, so that their
      counter does not overflow.  [Truncation.v]: the numbers of the current bytecode
      are reduced modulo 2^32.
    - [DependencyGraphCorrect.v], [ResolveCorrect.v]: dependency resolution is a
      topological sort of the libraries the rules need; it fails exactly when a library
      is missing or some libraries, needed or not, form a cycle.  [DeclareCorrect.v]: what
      the symbol table holds.
    - [DecodeCorrect.v]: the decoder and the matcher are total, and the decoder
      accepts exactly the layouts of the encoder.
    - [EncodeV1Correct.v], [DebuggerCorrect.v], [OfflineDebuggerCorrect.v]: the
      old format round trips up to the width of its fields, and both debuggers
      agree with the meaning of the rules.
    - [Determinism.v]: what depends on the iteration order of hash tables.
    - [InspectMemory.v], [InspectBuddy.v], [InspectHeapCorrect.v],
      [InspectHeapSafety.v]: the allocator.  The blocks of a heap are
      a map from index to order and use ([layout]); it tiles the memory, is coalesced,
      and the free lists in the VMO hold exactly its free blocks.  Every operation of every
      reachable heap keeps this and does not panic; a block allocated is disjoint from the
      others, and no operation touches the bytes of the blocks in use.
    - [InspectScan.v]: the reader's scan of the bytes finds exactly the blocks of the layout.
    - [InspectSnapshot.v]: the generation count of the header as a lock.  The writer is a
      step relation, the reads of a reader fall at different moments, and a snapshot is
      the memory of one unlocked moment unless its first header read says frozen; frozen
      copies and what goes wrong around them.
    - [InspectObjects.v], [InspectTyped.v], [InspectExtents.v]: what the blocks hold, as
      values, and how the writers change them; chains of extents and shared strings.
      [InspectTree.v], [InspectOwned.v]: the tree of named values
      that the blocks of a heap represent, and its steps.  [InspectValues.v],
      [InspectOperations.v], [InspectCommands.v]: every command does to the tree what its
      specification [effect] says or is refused for the reason that [refused] gives, and
      does not panic; a command that fails leaves the tree as it was, but for the bytes of
      a buffer.  Links (lazy nodes) are not part of these trees.
    - [InspectReadTree.v], [InspectContract.v]: a program of
      commands on a new inspector refines the tree, a reader of the bytes finds exactly
      that tree or fails like its first malformed histogram ([shown]), and values keep
      their types.  Arithmetic at the bounds of the types.
    - [InspectHandles.v]: a program of calls on handles that [check] accepts does not panic,
      and a value is in the tree exactly while a handle refers to it.  This holds until the
      bytes of a buffer cannot be written ([w_failed]): then the block may keep the index
      of extents that have been freed.  [InspectHistogram.v]: after any sequence of
      insertions, the bucket that a reader computes has counted the values that belong
      to it.
    - [HierarchyCorrect.v]: the iterator ends and visits every node of a hierarchy whose
      siblings have different names, the filter keeps exactly what its selectors match, and
      the comparison of names is not an order.
    - [Samples.v] holds concrete rules, libraries and devices on which the
      theorems are instantiated.

    ** Not modelled

    [errors.rs] (messages for the terminal), [ffi.rs] (raw pointers of the C
    interface), [test.rs] (JSON test files), the text form of the bytecode
    ([encode_to_string_v1] and [encode_to_string_v2]), and the tools that read
    files and call the library.  The order in which strings are formatted by
    [format!] is modelled in [Format.v] for the formats that the debuggers use.

    Of Inspect: lazy nodes as handles ([types/lazy_node.rs]; the state keeps their links)
    and their asynchronous loading ([reader/tree_reader.rs], [readable_tree.rs]); moving
    values between inspectors; the mapping and duplication of VMOs; the parsing of selectors,
    regular expressions, and the serialization of hierarchies.  The theorem on histograms
    is about integers: the buckets of doubles are modelled, but their bounds are rounded.

    This file holds what the others share: the [outcome] monad and its lemmas,
    machine integers and little-endian bytes, strings, the classes of iteration
    orders, and lemmas on lists. *)
From Stdlib Require Import ZArith Lia.
From stdpp Require Import base gmap strings countable list.

(** * Outcomes of fallible Rust code *)

(** [outcome E A] is what a Rust function of type [Result<A, E>] can do: return
    [Ok], return [Err], or panic (out-of-range index, [unwrap] of [None],
    arithmetic underflow, an explicit [panic!]).  A function of type [A] that
    can panic is an [outcome E A] that never is [Err]. *)
Inductive outcome (E A : Type) : Type :=
| Ok (a : A)
| Err (e : E)
| Panic.
Arguments Ok {E A} a.
Arguments Err {E A} e.
Arguments Panic {E A}.

#[export] Instance outcome_eq_dec E A `{EqDecision E, EqDecision A} :
  EqDecision (outcome E A).
Proof. solve_decision. Defined.

(** The [?] operator. *)
#[export] Instance outcome_ret E : MRet (outcome E) := fun _ a => Ok a.
#[export] Instance outcome_bind E : MBind (outcome E) := fun A B f m =>
  match m with
  | Ok a => f a
  | Err e => Err e
  | Panic => Panic
  end.

Definition ok_or {E A} (o : option A) (e : E) : outcome E A :=
  match o with
  | Some a => Ok a
  | None => Err e
  end.

Definition map_err {E F A} (f : E → F) (m : outcome E A) : outcome F A :=
  match m with
  | Ok a => Ok a
  | Err e => Err (f e)
  | Panic => Panic
  end.

(** [iter.map(f).collect::<Result<Vec<_>, _>>()]: stops at the first error. *)
Fixpoint try_map {E A B} (f : A → outcome E B) (l : list A) : outcome E (list B) :=
  match l with
  | [] => Ok []
  | x :: r => y ← f x; ys ← try_map f r; Ok (y :: ys)
  end.

(** A [for] loop whose body may return early with an error. *)
Fixpoint try_fold {E A S} (f : S → A → outcome E S) (s : S) (l : list A) : outcome E S :=
  match l with
  | [] => Ok s
  | x :: r => s' ← f s x; try_fold f s' r
  end.

Definition no_panic {E A} (m : outcome E A) : Prop := m ≠ Panic.

Section outcome_lemmas.
Context {E : Type}.

Lemma bind_Ok_iff {A B} (m : outcome E A) (f : A → outcome E B) b :
  (x ← m; f x) = Ok b ↔ ∃ a, m = Ok a ∧ f a = Ok b.
Proof.
  destruct m as [a|e|]; cbn; split.
  - intros H. exists a. done.
  - intros (a' & [= ->] & H). done.
  - done.
  - by intros (a' & ? & _).
  - done.
  - by intros (a' & ? & _).
Qed.

(** Inversion without simplifying the components. *)
Lemma Ok_inj {A} (a b : A) : (Ok a : outcome E A) = Ok b → a = b.
Proof. by intros [= ->]. Qed.

Lemma Ok_pair_inj {A B} (a a' : A) (b b' : B) :
  (Ok (a, b) : outcome E _) = Ok (a', b') → a = a' ∧ b = b'.
Proof. by intros [= -> ->]. Qed.

Lemma bind_no_panic {A B} (m : outcome E A) (f : A → outcome E B) :
  no_panic m → (∀ a, m = Ok a → no_panic (f a)) → no_panic (x ← m; f x).
Proof. destruct m; cbn; unfold no_panic; naive_solver. Qed.

Lemma Ok_no_panic {A} (a : A) : no_panic (Ok a : outcome E A).
Proof. done. Qed.

Lemma Err_no_panic {A} (e : E) : no_panic (Err e : outcome E A).
Proof. done. Qed.

Lemma ok_or_Ok {A} (o : option A) (e : E) a : ok_or o e = Ok a ↔ o = Some a.
Proof. destruct o; cbn; naive_solver. Qed.

Lemma ok_or_no_panic {A} (o : option A) (e : E) : no_panic (ok_or o e).
Proof. by destruct o. Qed.

Lemma try_map_Ok {A B} (f : A → outcome E B) l l' :
  try_map f l = Ok l' ↔ Forall2 (λ x y, f x = Ok y) l l'.
Proof.
  revert l'. induction l as [|x l IH]; intros l'; cbn.
  - split; [intros [= <-]; constructor | by inversion 1].
  - setoid_rewrite bind_Ok_iff. setoid_rewrite bind_Ok_iff. split.
    + intros (y & Hy & ys & Hys & [= <-]). constructor; [done|by apply IH].
    + inversion 1 as [|? y ? ys Hy Hys]; subst.
      exists y. split; [done|]. exists ys. split; [by apply IH|done].
Qed.

Lemma try_fold_app {A S} (f : S → A → outcome E S) s l1 l2 :
  try_fold f s (l1 ++ l2) = (s' ← try_fold f s l1; try_fold f s' l2).
Proof.
  revert s. induction l1 as [|x l1 IH]; intros s; cbn; [done|].
  destruct (f s x); cbn; auto.
Qed.

Lemma try_fold_inv {A S} (P : S → Prop) (f : S → A → outcome E S) s l s' :
  P s → (∀ s x s', x ∈ l → P s → f s x = Ok s' → P s') →
  try_fold f s l = Ok s' → P s'.
Proof.
  revert s. induction l as [|x l IH]; intros s Hs Hstep; cbn.
  - by intros [= <-].
  - rewrite bind_Ok_iff. intros (s1 & H1 & H2).
    eapply IH; [| |exact H2].
    + eapply Hstep; [constructor|done|done].
    + intros. eapply Hstep; [by constructor|done|done].
Qed.

Lemma try_fold_no_panic {A S} (f : S → A → outcome E S) s l :
  (∀ s x, x ∈ l → no_panic (f s x)) → no_panic (try_fold f s l).
Proof.
  revert s. induction l as [|x l IH]; intros s Hf; cbn; [done|].
  apply bind_no_panic; [apply Hf; constructor|].
  intros a _. apply IH. intros. apply Hf. by constructor.
Qed.

Lemma try_map_no_panic {A B} (f : A → outcome E B) l :
  (∀ x, x ∈ l → no_panic (f x)) → no_panic (try_map f l).
Proof.
  induction l as [|x l IH]; intros Hf; cbn; [done|].
  apply bind_no_panic; [apply Hf; constructor|]. intros y _.
  apply bind_no_panic; [apply IH; intros; apply Hf; by constructor|]. by intros.
Qed.
End outcome_lemmas.

(** * Machine integers, kept as [Z] *)

Local Open Scope Z_scope.

Definition u8_size : Z := 2 ^ 8.
Definition u32_size : Z := 2 ^ 32.
Definition u64_size : Z := 2 ^ 64.

(** [x as u32]: truncation. *)
Definition as_u32 (x : Z) : Z := x mod u32_size.

(** [u32::try_from(x)]: the value, or [None] when it does not fit. *)
Definition try_u32 (x : Z) : option Z :=
  if (0 <=? x) && (x <? u32_size) then Some x else None.

Definition is_u8 (x : Z) : Prop := 0 <= x < u8_size.
Definition is_u32 (x : Z) : Prop := 0 <= x < u32_size.
Definition is_u64 (x : Z) : Prop := 0 <= x < u64_size.

Definition len {A} (l : list A) : Z := Z.of_nat (length l).

Lemma len_app {A} (l k : list A) : len (l ++ k) = len l + len k.
Proof. unfold len. rewrite length_app. lia. Qed.

Lemma len_cons {A} (x : A) l : len (x :: l) = len l + 1.
Proof. unfold len. cbn. lia. Qed.

Lemma len_nonneg {A} (l : list A) : 0 <= len l.
Proof. unfold len. lia. Qed.

(** ** Counters *)

(** [m] counts up a [u32], which [key] reads off its result, from [k] by at most
    [n]; it panics only when the counter overflows. *)
Definition spends {E A} (key : A → Z) (k n : Z) (m : outcome E A) : Prop :=
  match m with
  | Ok a => key a <= k + n
  | Err _ => True
  | Panic => u32_size <= k + n
  end.

Lemma spends_weaken {E A} (key : A → Z) k n n' (m : outcome E A) : spends key k n m → n <= n' → spends key k n' m.
Proof. destruct m; cbn; lia. Qed.

Lemma spends_bind {E A B} (key : A → Z) (key' : B → Z) k n n' (m : outcome E A) (f : A → outcome E B) :
  spends key k n m → 0 <= n' → (∀ a, m = Ok a → spends key' (key a) n' (f a)) →
  spends key' k (n + n') (m ≫= f).
Proof.
  destruct m as [a| |]; cbn; [|done|lia]. intros Hm Hn Hf. specialize (Hf a eq_refl).
  destruct (f a); cbn in *; lia.
Qed.

Lemma spends_after {E A B} (key : B → Z) k n (m : outcome E A) (f : A → outcome E B) :
  no_panic m → (∀ a, m = Ok a → spends key k n (f a)) → spends key k n (m ≫= f).
Proof. destruct m; [intros _ Hf; by apply Hf|done|done]. Qed.

Lemma spends_no_panic {E A} (key : A → Z) k n (m : outcome E A) : spends key k n m → k + n < u32_size → no_panic m.
Proof. intros Hs Hlt ->. cbn in Hs. lia. Qed.

Lemma as_u32_small x : is_u32 x → as_u32 x = x.
Proof. intros H. apply Z.mod_small, H. Qed.

Lemma as_u32_range x : is_u32 (as_u32 x).
Proof. apply Z.mod_pos_bound. reflexivity. Qed.

(** * Byte strings *)

(** [x.to_le_bytes()] for an [n]-byte unsigned integer, and its inverse. *)
Fixpoint to_le_bytes (n : nat) (x : Z) : list Z :=
  match n with
  | O => []
  | S n => x mod 256 :: to_le_bytes n (x / 256)
  end.

Fixpoint from_le_bytes (bs : list Z) : Z :=
  match bs with
  | [] => 0
  | b :: r => b + 256 * from_le_bytes r
  end.

Definition to_be_bytes (n : nat) (x : Z) : list Z := reverse (to_le_bytes n x).
Definition from_be_bytes (bs : list Z) : Z := from_le_bytes (reverse bs).

Definition all_u8 (bs : list Z) : Prop := Forall is_u8 bs.

#[export] Instance all_u8_dec l : Decision (all_u8 l).
Proof. unfold all_u8, is_u8. apply _. Defined.

Section bytes_lemmas.
Lemma length_to_le_bytes n x : length (to_le_bytes n x) = n.
Proof. revert x. induction n; intros; cbn; auto. Qed.

Lemma to_le_bytes_u8 n x : all_u8 (to_le_bytes n x).
Proof.
  revert x. induction n as [|n IH]; intros x; constructor; [|apply IH].
  unfold is_u8, u8_size. apply Z.mod_pos_bound. lia.
Qed.

Lemma from_to_le_bytes n x : from_le_bytes (to_le_bytes n x) = x mod 256 ^ Z.of_nat n.
Proof.
  revert x. induction n as [|n IH]; intros x; cbn [to_le_bytes from_le_bytes].
  - by rewrite Z.mod_1_r.
  - rewrite IH, Nat2Z.inj_succ, Z.pow_succ_r by lia.
    pose proof (Z.pow_pos_nonneg 256 (Z.of_nat n)). by rewrite Z.rem_mul_r by lia.
Qed.

Lemma from_to_le_bytes_u32 x : is_u32 x → from_le_bytes (to_le_bytes 4 x) = x.
Proof. intros H. rewrite from_to_le_bytes. by apply Z.mod_small. Qed.

Lemma from_le_bytes_range bs :
  all_u8 bs → 0 <= from_le_bytes bs < 256 ^ len bs.
Proof.
  induction 1 as [|b bs Hb Hbs IH]; [by split|].
  pose proof (len_nonneg bs). rewrite len_cons, Z.pow_add_r by lia.
  cbn [from_le_bytes]. unfold is_u8, u8_size in Hb. lia.
Qed.

Lemma to_from_le_bytes bs : all_u8 bs → to_le_bytes (length bs) (from_le_bytes bs) = bs.
Proof.
  induction 1 as [|b bs Hb Hbs IH]; [done|].
  cbn [from_le_bytes to_le_bytes length].
  unfold is_u8, u8_size in Hb.
  replace ((b + 256 * from_le_bytes bs) mod 256) with b.
  2:{ rewrite Z.mul_comm, Z.mod_add by lia. symmetry. apply Z.mod_small. lia. }
  replace ((b + 256 * from_le_bytes bs) / 256) with (from_le_bytes bs); [by rewrite IH|].
  rewrite Z.mul_comm, Z.div_add, Z.div_small by lia. lia.
Qed.

Lemma length_to_be_bytes n x : length (to_be_bytes n x) = n.
Proof. unfold to_be_bytes. by rewrite length_reverse, length_to_le_bytes. Qed.

Lemma to_be_bytes_u8 n x : all_u8 (to_be_bytes n x).
Proof. unfold to_be_bytes, all_u8. rewrite Forall_reverse. apply to_le_bytes_u8. Qed.

Lemma from_to_be_bytes_u32 x : is_u32 x → from_be_bytes (to_be_bytes 4 x) = x.
Proof.
  intros H. unfold from_be_bytes, to_be_bytes.
  rewrite reverse_involutive. by apply from_to_le_bytes_u32.
Qed.
End bytes_lemmas.

(** * Rust strings *)

(** A [String] is its UTF-8 bytes. *)
Definition rstring : Type := list Z.

(** String literals of the source. *)
Fixpoint str (s : string) : rstring :=
  match s with
  | EmptyString => []
  | String c r => Z.of_N (Ascii.N_of_ascii c) :: str r
  end.

Definition in_range (lo hi b : Z) : bool := (lo <=? b) && (b <=? hi).
Definition utf8_cont (b : Z) : bool := in_range 0x80 0xBF b.

(** The validation [String::from_utf8] performs (the well-formed byte sequences
    of the Unicode standard, table 3-7: no overlong forms, no surrogates,
    nothing above U+10FFFF). *)
Fixpoint utf8_valid (bs : list Z) : bool :=
  match bs with
  | [] => true
  | b0 :: r0 =>
    if b0 <? 0x80 then utf8_valid r0 else
    match r0 with
    | [] => false
    | b1 :: r1 =>
      if in_range 0xC2 0xDF b0 then utf8_cont b1 && utf8_valid r1 else
      match r1 with
      | [] => false
      | b2 :: r2 =>
        if b0 =? 0xE0 then in_range 0xA0 0xBF b1 && utf8_cont b2 && utf8_valid r2 else
        if b0 =? 0xED then in_range 0x80 0x9F b1 && utf8_cont b2 && utf8_valid r2 else
        if in_range 0xE1 0xEF b0 then utf8_cont b1 && utf8_cont b2 && utf8_valid r2 else
        match r2 with
        | [] => false
        | b3 :: r3 =>
          if b0 =? 0xF0 then
            in_range 0x90 0xBF b1 && utf8_cont b2 && utf8_cont b3 && utf8_valid r3
          else if b0 =? 0xF4 then
            in_range 0x80 0x8F b1 && utf8_cont b2 && utf8_cont b3 && utf8_valid r3
          else if in_range 0xF1 0xF3 b0 then
            utf8_cont b1 && utf8_cont b2 && utf8_cont b3 && utf8_valid r3
          else false
        end
      end
    end
  end.

(** [segments.join(sep)]. *)
Fixpoint join (sep : rstring) (segments : list rstring) : rstring :=
  match segments with
  | [] => []
  | [s] => s
  | s :: r => s ++ sep ++ join sep r
  end.

(** * Vectors *)

(** [v.split_off(at)]: the two halves; panics when [at] exceeds the length. *)
Definition split_off {E A} (l : list A) (at_ : Z) : outcome E (list A * list A) :=
  if at_ <=? len l then Ok (take (Z.to_nat at_) l, drop (Z.to_nat at_) l) else Panic.

(** [v[i]]. *)
Definition index {E A} (l : list A) (i : Z) : outcome E A :=
  if 0 <=? i then match l !! Z.to_nat i with Some x => Ok x | None => Panic end else Panic.

(** [v[i] = x]. *)
Definition index_set {E A} (l : list A) (i : Z) (x : A) : outcome E (list A) :=
  if (0 <=? i) && (i <? len l) then Ok (<[Z.to_nat i := x]> l) else Panic.

(** * Iteration order of hash maps and sets *)

(** [std::collections::HashMap] and [HashSet] iterate in an unspecified order:
    the definitions that iterate take the order as an instance of these
    classes, whose law is that every entry is visited exactly once. *)
Class HashMapOrder (K A : Type) `{Countable K} := {
  hash_map_iter : gmap K A → list (K * A);
  hash_map_iter_perm (m : gmap K A) : hash_map_iter m ≡ₚ map_to_list m;
}.

Class HashSetOrder (K : Type) `{Countable K} := {
  hash_set_iter : gset K → list K;
  hash_set_iter_perm (s : gset K) : hash_set_iter s ≡ₚ elements s;
}.

(** One possible order; used to evaluate the definitions. *)
Definition key_order_map K A `{Countable K} : HashMapOrder K A :=
  {| hash_map_iter := map_to_list; hash_map_iter_perm := λ m, reflexivity _ |}.
Definition key_order_set K `{Countable K} : HashSetOrder K :=
  {| hash_set_iter := elements; hash_set_iter_perm := λ s, reflexivity _ |}.

Section vector_lemmas.
Context {E : Type}.

Lemma split_off_app {A} (l k : list A) :
  split_off (E:=E) (l ++ k) (len l) = Ok (l, k).
Proof.
  unfold split_off. rewrite len_app. pose proof (len_nonneg k).
  rewrite (proj2 (Z.leb_le _ _)) by lia.
  unfold len. rewrite Nat2Z.id.
  by rewrite take_app_length, drop_app_length.
Qed.

Lemma split_off_Ok {A} (l a b : list A) n :
  0 <= n → split_off (E:=E) l n = Ok (a, b) → l = a ++ b ∧ len a = n.
Proof.
  unfold split_off. intros Hn. case_match eqn:Hle; [|done].
  apply Z.leb_le in Hle. intros [= <- <-]. unfold len in *.
  rewrite take_drop. split; [done|]. rewrite length_take. lia.
Qed.

Lemma split_off_no_panic {A} (l : list A) n :
  n <= len l → no_panic (split_off (E:=E) l n).
Proof. intros H. unfold split_off. by rewrite (proj2 (Z.leb_le _ _) H). Qed.
End vector_lemmas.

(** * Automation *)

Create HintDb outcomes.
#[export] Hint Resolve Ok_no_panic Err_no_panic ok_or_no_panic : outcomes.

(** Invert every hypothesis saying that a chain of [?]s returned [Ok]. *)
Ltac inv_ok :=
  repeat match goal with
  | H : mbind _ _ = Ok _ |- _ =>
      let a := fresh "a" in let H1 := fresh "Hok" in
      apply bind_Ok_iff in H as (a & H1 & H)
  | H : Ok _ = Ok _ |- _ => injection H as H; subst
  | H : Err _ = Ok _ |- _ => discriminate H
  | H : Panic = Ok _ |- _ => discriminate H
  | H : ok_or _ _ = Ok _ |- _ => apply ok_or_Ok in H
  | H : (let '(_, _) := ?p in _) = Ok _ |- _ => destruct p
  | H : (_, _) = (_, _) |- _ => injection H as H; subst
  end.

(** Case-split the tests of a hypothesis that returned [Ok], dropping the
    branches that returned an error. *)
Ltac split_ok H :=
  repeat (match type of H with
          | (if ?b then _ else _) = Ok _ => let E := fresh "Etest" in destruct b eqn:E
          end; try discriminate H).

(** Turn boolean comparisons into propositions. *)
Ltac bool_props :=
  repeat match goal with
  | H : (_ <? _)%Z = true |- _ => apply Z.ltb_lt in H
  | H : (_ <? _)%Z = false |- _ => apply Z.ltb_ge in H
  | H : (_ <=? _)%Z = true |- _ => apply Z.leb_le in H
  | H : (_ <=? _)%Z = false |- _ => apply Z.leb_gt in H
  | H : (_ =? _)%Z = true |- _ => apply Z.eqb_eq in H
  | H : (_ =? _)%Z = false |- _ => apply Z.eqb_neq in H
  | H : negb _ = true |- _ => apply negb_true_iff in H
  | H : negb _ = false |- _ => apply negb_false_iff in H
  | H : _ && _ = true |- _ => apply andb_true_iff in H as [? ?]
  end.

(** Prove that a chain of [?]s cannot panic. *)
Ltac step_no_panic :=
  repeat first
  [ progress eauto with outcomes
  | match goal with
    | |- no_panic (mbind _ _) => apply bind_no_panic; [|intros ? ?]
    | |- no_panic (if ?b then _ else _) => let E := fresh "Etest" in destruct b eqn:E
    | |- no_panic (let '(_, _) := ?p in _) => destruct p
    end ].
