(* ===== verification/Format.v ===== *)
(** Formatting of unsigned integers ([{}], [{:x}], [{:#x}], [{:#0Nx}]) and the
    inverse [u64::from_str_radix], which the literals of the bind grammar use. *)
From Stdlib Require Import ZArith Lia.
From stdpp Require Import base strings list.
From S2P Require Import Prelude.
Local Open Scope Z_scope.

(** ['0'..'9'], ['a'..'z']. *)
Definition digit (d : Z) : Z := if d <? 10 then 0x30 + d else 0x61 + (d - 10).

Fixpoint digits (base : Z) (fuel : nat) (n : Z) (acc : rstring) : rstring :=
  match fuel with
  | O => acc
  | S fuel =>
    let acc := digit (n mod base) :: acc in
    if n / base =? 0 then acc else digits base fuel (n / base) acc
  end.

(** A number has at most [log2 n + 1] digits in any base. *)
Definition fmt (base n : Z) : rstring := digits base (S (Z.to_nat (Z.log2 n))) n [].

Definition fmt_dec (n : Z) : rstring := fmt 10 n.
Definition fmt_hex (n : Z) : rstring := fmt 16 n.

(** [{:#x}]. *)
Definition fmt_hex_alt (n : Z) : rstring := str "0x" ++ fmt_hex n.

(** [{:#0Nx}]: zeros between the prefix and the digits, up to the width. *)
Definition fmt_hex_width (width : Z) (n : Z) : rstring :=
  let d := fmt_hex n in
  str "0x" ++ replicate (Z.to_nat (width - 2 - len d)) 0x30 ++ d.

(** The value of a digit in bases up to 16; [None] for another byte. *)
Definition to_digit (base b : Z) : option Z :=
  let d := if (0x30 <=? b) && (b <=? 0x39) then b - 0x30
           else if (0x61 <=? b) && (b <=? 0x66) then b - 0x61 + 10
           else if (0x41 <=? b) && (b <=? 0x46) then b - 0x41 + 10 else base in
  if d <? base then Some d else None.

(** The accumulating loop of [u64::from_str_radix]; [None] on an invalid digit
    or overflow. *)
Fixpoint from_digits (base : Z) (acc : Z) (s : rstring) : option Z :=
  match s with
  | [] => Some acc
  | b :: r =>
    d ← to_digit base b;
    let acc := acc * base + d in
    if acc <? u64_size then from_digits base acc r else None
  end.

(** [u64::from_str_radix(s, base)]; the empty string is an error.  (A leading
    ['+'] is accepted by the standard library; the callers pass digits only.) *)
Definition from_str_radix (base : Z) (s : rstring) : option Z :=
  match s with
  | [] => None
  | _ => from_digits base 0 s
  end.

(** ** The two are inverse *)

Lemma to_digit_digit base d : 2 <= base <= 16 → 0 <= d < base → to_digit base (digit d) = Some d.
Proof.
  intros Hb Hd. unfold to_digit, digit. destruct (Z.ltb_spec d 10).
  - replace ((48 <=? 48 + d) && (48 + d <=? 57)) with true by lia.
    replace (48 + d - 48 <? base) with true by lia. f_equal. lia.
  - replace ((48 <=? 97 + (d - 10)) && (97 + (d - 10) <=? 57)) with false by lia.
    replace ((97 <=? 97 + (d - 10)) && (97 + (d - 10) <=? 102)) with true by lia.
    replace (97 + (d - 10) - 97 + 10 <? base) with true by lia. f_equal. lia.
Qed.

(** Reading the digits of [n] continues from what was read before them. *)
Lemma from_digits_digits base fuel n acc pre :
  2 <= base <= 16 → 0 <= n → n < base ^ Z.of_nat fuel → 0 <= pre →
  ∃ k, 0 <= k ∧ (pre * base ^ k + n < u64_size →
    from_digits base pre (digits base fuel n acc) = from_digits base (pre * base ^ k + n) acc).
Proof.
  intros Hb. revert n acc. induction fuel as [|fuel IH]; intros n acc Hn Hf Hp.
  - exists 0. split; [lia|]. intros _. cbn. f_equal. cbn in Hf. lia.
  - cbn [digits]. pose proof (Z.div_mod n base ltac:(lia)) as Hdm.
    pose proof (Z.mod_pos_bound n base ltac:(lia)) as Hmod.
    assert (∀ q, 0 <= q → q * base + n mod base < u64_size →
      from_digits base q (digit (n mod base) :: acc) = from_digits base (q * base + n mod base) acc)
      as Hstep.
    { intros q Hq Hlt. cbn [from_digits]. rewrite to_digit_digit by lia. cbn.
      by rewrite (proj2 (Z.ltb_lt _ _) Hlt). }
    destruct (Z.eqb_spec (n / base) 0) as [Hz|Hnz].
    + exists 1. split; [lia|]. rewrite Z.pow_1_r. intros Hlt.
      replace n with (n mod base) in * by lia. rewrite Hstep; [f_equal; lia|lia|lia].
    + pose proof (Z.div_pos n base ltac:(lia) ltac:(lia)) as Hdp.
      destruct (IH (n / base) (digit (n mod base) :: acc)) as (k & Hk & Heq); [lia| |lia|].
      { rewrite Nat2Z.inj_succ, Z.pow_succ_r in Hf by lia.
        apply Z.div_lt_upper_bound; lia. }
      exists (k + 1). split; [lia|]. intros Hlt. rewrite Z.pow_add_r, Z.pow_1_r in * by lia.
      assert (0 <= pre * base ^ k) by (pose proof (Z.pow_nonneg base k); nia).
      rewrite Heq by nia. rewrite Hstep; [f_equal; nia|lia|nia].
Qed.

Lemma digits_nonempty base fuel n acc : digits base (S fuel) n acc ≠ [].
Proof.
  assert (∀ fuel n acc, acc ≠ [] → digits base fuel n acc ≠ []) as H.
  { clear. induction fuel as [|fuel IH]; intros n acc Hacc; [done|].
    cbn. case_match; [done|]. by apply IH. }
  cbn. case_match; [done|]. by apply H.
Qed.

(** Printing a [u64] and reading it back is the identity. *)
Lemma from_str_radix_fmt base n :
  2 <= base <= 16 → is_u64 n → from_str_radix base (fmt base n) = Some n.
Proof.
  intros Hb [Hn Hmax]. unfold from_str_radix, fmt.
  destruct (digits _ _ _ _) eqn:Hd; [by apply digits_nonempty in Hd|]. rewrite <- Hd.
  destruct (from_digits_digits base (S (Z.to_nat (Z.log2 n))) n [] 0) as (k & _ & Heq);
    [done|done| |lia|].
  - apply Z.lt_le_trans with (2 ^ Z.of_nat (S (Z.to_nat (Z.log2 n)))).
    + pose proof (Z.log2_nonneg n). destruct (Z.eq_dec n 0) as [->|]; [done|].
      replace (Z.of_nat (S (Z.to_nat (Z.log2 n)))) with (Z.succ (Z.log2 n)) by lia.
      apply Z.log2_spec. lia.
    + apply Z.pow_le_mono_l. lia.
  - rewrite Z.mul_0_l, Z.add_0_l in Heq. by rewrite Heq.
Qed.
