(* ===== verification/Nom.v ===== *)
(** The part of the vendored parser crates that the bind grammars use:
    [nom_locate]'s [LocatedSpan] over a string, and the combinators of [nom] 5.0
    ([third_party/rust_crates/vendor/nom/src] and [nom_locate/src]).

    A string is its UTF-8 bytes.  Every predicate the grammars search with is on
    ASCII characters, and a byte below 0x80 in UTF-8 is always such a character,
    so a search by characters and one by bytes find the same position.

    The parsers count lines and nested comments with an instance of [Counters]:
    [machine] panics on overflow, [unbounded] never does. *)
From Stdlib Require Import ZArith Lia.
From stdpp Require Import base strings list.
From S2P Require Import Prelude.
Local Open Scope Z_scope.

(** ** Spans *)

(** The machine counters of the parsers: the [u32] line of a span, to which a slice adds a
    number of newlines, and the [i32] depth of nested comments.  An overflow panics.  The
    definitions take them as a parameter: the entry points of the grammars use [machine],
    the grammars are proved for [unbounded] ones, and [ParserTotal.v] shows that the two do
    the same on texts shorter than 2^31 bytes. *)
Class Counters := {
  add_lines : Z → Z → option Z;
  open_comment : Z → option Z;
}.

Definition machine : Counters := {|
  add_lines line count :=
    let next_line := line + as_u32 count in if next_line <? u32_size then Some next_line else None;
  open_comment stack := if stack + 1 <? 2 ^ 31 then Some (stack + 1) else None;
|}.

Definition unbounded : Counters := {|
  add_lines line count := Some (line + count);
  open_comment stack := Some (stack + 1);
|}.

(** [LocatedSpan<&str>]. *)
Record NomSpan := mkNomSpan {
  location_offset : Z;
  location_line : Z;
  fragment : rstring;
}.

#[export] Instance NomSpan_eq_dec : EqDecision NomSpan.
Proof. solve_decision. Defined.

Definition new_span (program : rstring) : NomSpan := mkNomSpan 0 1 program.

Definition newlines (s : list Z) : nat := length (filter (λ b, b = 0x0a) s).

(** [i.slice(n..)] and [i.slice(..n)] for a position [n] of the fragment; the first counts
    the newlines it passes over. *)
Definition slice `{!Counters} {E} (n : nat) (i : NomSpan) : outcome E NomSpan :=
  match add_lines (location_line i) (Z.of_nat (newlines (take n (fragment i)))) with
  | Some next_line => Ok (mkNomSpan (location_offset i + Z.of_nat n) next_line (drop n (fragment i)))
  | None => Panic
  end.

Definition slice_to (n : nat) (i : NomSpan) : NomSpan :=
  mkNomSpan (location_offset i) (location_line i) (take n (fragment i)).

Definition take_split `{!Counters} {E} (n : nat) (i : NomSpan) : outcome E (NomSpan * NomSpan) :=
  rest ← slice n i; Ok (rest, slice_to n i).

(** The first position whose element satisfies [p]. *)
Fixpoint position (p : Z → bool) (s : rstring) : option nat :=
  match s with
  | [] => None
  | b :: r => if p b then Some O else S <$> position p r
  end.

(** [i.compare(t)]. *)
Inductive CompareResult := Compare_Ok | Compare_Incomplete | Compare_Error.

Fixpoint compare_str (s t : rstring) : CompareResult :=
  match s, t with
  | _, [] => Compare_Ok
  | [], _ :: _ => Compare_Incomplete
  | a :: s, b :: t => if a =? b then compare_str s t else Compare_Error
  end.

(** [s.find(t)]. *)
Fixpoint find_substring (t s : rstring) : option nat :=
  match compare_str s t with
  | Compare_Ok => Some O
  | _ =>
    match s with
    | [] => None
    | _ :: r => S <$> find_substring t r
    end
  end.

(** ** Errors and results *)

Inductive ErrorKind :=
| EK_Tag | EK_MapRes | EK_MapOpt | EK_Alt | EK_IsNot | EK_IsA | EK_SeparatedList
| EK_SeparatedNonEmptyList | EK_Many0 | EK_Many1 | EK_ManyTill | EK_Count | EK_TakeUntil
| EK_LengthValue | EK_TagClosure | EK_Alpha | EK_Digit | EK_HexDigit | EK_OctDigit
| EK_AlphaNumeric | EK_Space | EK_MultiSpace | EK_LengthValueFn | EK_Eof | EK_Switch
| EK_TagBits | EK_OneOf | EK_NoneOf | EK_Char | EK_CrLf | EK_RegexpMatch
| EK_RegexpMatches | EK_RegexpFind | EK_RegexpCapture | EK_RegexpCaptures | EK_TakeWhile1
| EK_Complete | EK_Fix | EK_Escaped | EK_EscapedTransform | EK_NonEmpty | EK_ManyMN
| EK_Not | EK_Permutation | EK_Verify | EK_TakeTill1 | EK_TakeWhileMN | EK_ParseTo
| EK_TooLarge | EK_Many0Count | EK_Many1Count | EK_Float.

#[export] Instance ErrorKind_eq_dec : EqDecision ErrorKind.
Proof. solve_decision. Defined.

(** [nom::Err]. *)
Inductive NomErr (E : Type) :=
| Incomplete
| Error (e : E)
| Failure (e : E).
Arguments Incomplete {E}.
Arguments Error {E} e.
Arguments Failure {E} e.

(** The trait [ParseError<NomSpan>]; [or] and [from_char] keep their defaults. *)
Class ParseError (E : Type) := {
  from_error_kind : NomSpan → ErrorKind → E;
  append_error : NomSpan → ErrorKind → E → E;
}.

Definition or_error {E} (_ other : E) : E := other.

#[export] Instance pair_ParseError : ParseError (NomSpan * ErrorKind) := {|
  from_error_kind input kind := (input, kind);
  append_error _ _ other := other;
|}.

Notation IResult E O := (outcome (NomErr E) (NomSpan * O)).
Notation Parser E O := (NomSpan → IResult E O).

Definition error_kind {E O} `{!ParseError E} (i : NomSpan) (kind : ErrorKind) : IResult E O :=
  Err (Error (from_error_kind i kind)).

(** ** Combinators *)

Section combinators.
Context {E : Type} `{!ParseError E}.

(** [map]. *)
Definition pmap {A B} (first : Parser E A) (second : A → B) : Parser E B :=
  λ i, '(i, o) ← first i; Ok (i, second o).

Definition map_res {A B} (first : Parser E A) (second : A → option B) : Parser E B :=
  λ i, '(i', o1) ← first i;
       match second o1 with
       | Some o2 => Ok (i', o2)
       | None => error_kind i EK_MapRes
       end.

Definition opt {A} (f : Parser E A) : Parser E (option A) :=
  λ i, match f i with
       | Ok (i', o) => Ok (i', Some o)
       | Err (Error _) => Ok (i, None)
       | Err e => Err e
       | Panic => Panic
       end.

(** [value]. *)
Definition pvalue {A B} (val : A) (parser : Parser E B) : Parser E A :=
  λ i, '(i, _) ← parser i; Ok (i, val).

Definition preceded {A B} (first : Parser E A) (second : Parser E B) : Parser E B :=
  λ i, '(i, _) ← first i; second i.

Definition terminated {A B} (first : Parser E A) (second : Parser E B) : Parser E A :=
  λ i, '(i, o1) ← first i; '(i, _) ← second i; Ok (i, o1).

Definition delimited {A B C} (first : Parser E A) (sep : Parser E B) (second : Parser E C) :
    Parser E B :=
  λ i, '(i, _) ← first i; '(i, o2) ← sep i; '(i, _) ← second i; Ok (i, o2).

Definition separated_pair {A B C} (first : Parser E A) (sep : Parser E B) (second : Parser E C) :
    Parser E (A * C) :=
  λ i, '(i, o1) ← first i; '(i, _) ← sep i; '(i, o2) ← second i; Ok (i, (o1, o2)).

(** [tuple] of two and of three parsers. *)
Definition tuple2 {A B} (f : Parser E A) (g : Parser E B) : Parser E (A * B) :=
  λ i, '(i, a) ← f i; '(i, b) ← g i; Ok (i, (a, b)).

Definition tuple3 {A B C} (f : Parser E A) (g : Parser E B) (h : Parser E C) :
    Parser E (A * B * C) :=
  λ i, '(i, a) ← f i; '(i, b) ← g i; '(i, c) ← h i; Ok (i, (a, b, c)).

(** The choices of [alt], tried in order; [err] is the error so far.  [alt] has
    at least two choices, so [err.unwrap()] does not panic. *)
Fixpoint alt_choice {A} (ps : list (Parser E A)) (err : option E) (i : NomSpan) : IResult E A :=
  match ps with
  | [] =>
    match err with
    | Some e => Err (Error (append_error i EK_Alt e))
    | None => Panic
    end
  | p :: ps =>
    match p i with
    | Err (Error e) =>
      alt_choice ps (Some (match err with None => e | Some e0 => or_error e0 e end)) i
    | res => res
    end
  end.

Definition alt {A} (ps : list (Parser E A)) : Parser E A := alt_choice ps None.

(** ** Repetition *)

(** The loops run at most once per byte of the input: a round that succeeds
    consumes some of it.  Each gets one round more than that. *)

Fixpoint many_loop {A} (kind : ErrorKind) (f : Parser E A) (fuel : nat) (i : NomSpan) (acc : list A) :
    IResult E (list A) :=
  match fuel with
  | O => Panic
  | S fuel =>
    match f i with
    | Err (Error _) => Ok (i, acc)
    | Err e => Err e
    | Panic => Panic
    | Ok (i1, o) =>
      if decide (i1 = i) then error_kind i kind else many_loop kind f fuel i1 (acc ++ [o])
    end
  end.

Definition many0 {A} (f : Parser E A) : Parser E (list A) :=
  λ i, many_loop EK_Many0 f (S (length (fragment i))) i [].

Definition many1 {A} (f : Parser E A) : Parser E (list A) :=
  λ i, match f i with
       | Err (Error err) => Err (Error (append_error i EK_Many1 err))
       | Err e => Err e
       | Panic => Panic
       | Ok (i1, o) => many_loop EK_Many1 f (S (length (fragment i1))) i1 [o]
       end.

Fixpoint separated_loop {A B} (sep : Parser E B) (f : Parser E A) (fuel : nat) (i : NomSpan)
    (res : list A) : IResult E (list A) :=
  match fuel with
  | O => Panic
  | S fuel =>
    match sep i with
    | Err (Error _) => Ok (i, res)
    | Err e => Err e
    | Panic => Panic
    | Ok (i1, _) =>
      if decide (i1 = i) then error_kind i1 EK_SeparatedList else
      match f i1 with
      | Err (Error _) => Ok (i, res)
      | Err e => Err e
      | Panic => Panic
      | Ok (i2, o) =>
        if decide (i2 = i) then error_kind i2 EK_SeparatedList
        else separated_loop sep f fuel i2 (res ++ [o])
      end
    end
  end.

Definition separated_nonempty_list {A B} (sep : Parser E B) (f : Parser E A) : Parser E (list A) :=
  λ i, '(i1, o) ← f i;
       if decide (i1 = i) then error_kind i1 EK_SeparatedList
       else separated_loop sep f (S (length (fragment i1))) i1 [o].

(** ** Basic parsers *)

Context `{!Counters}.

Definition split_at_position1_complete (predicate : Z → bool) (e : ErrorKind) : Parser E NomSpan :=
  λ i, match position predicate (fragment i) with
       | Some O => error_kind i e
       | Some n => take_split n i
       | None =>
         if decide (fragment i = []) then error_kind i e
         else take_split (length (fragment i)) i
       end.

Definition tag (t : rstring) : Parser E NomSpan :=
  λ i, match compare_str (fragment i) t with
       | Compare_Ok => take_split (length t) i
       | _ => error_kind i EK_Tag
       end.

Definition is_not (arr : rstring) : Parser E NomSpan :=
  split_at_position1_complete (λ c, bool_decide (c ∈ arr)) EK_IsNot.

Definition take_until (t : rstring) : Parser E NomSpan :=
  λ i, match find_substring t (fragment i) with
       | None => error_kind i EK_TakeUntil
       | Some index => take_split index i
       end.

(** [char] and [one_of], for ASCII characters (one byte). *)
Definition char (c : Z) : Parser E Z :=
  λ i, match fragment i with
       | b :: _ => if b =? c then rest ← slice 1 i; Ok (rest, c) else error_kind i EK_Char
       | [] => error_kind i EK_Char
       end.

Definition one_of (list_ : rstring) : Parser E Z :=
  λ i, match fragment i with
       | b :: _ => if bool_decide (b ∈ list_) then rest ← slice 1 i; Ok (rest, b) else error_kind i EK_OneOf
       | [] => error_kind i EK_OneOf
       end.

Definition is_dec_digit (b : Z) : bool := (0x30 <=? b) && (b <=? 0x39).

Definition is_hex_digit (b : Z) : bool :=
  is_dec_digit b || (0x61 <=? b) && (b <=? 0x66) || (0x41 <=? b) && (b <=? 0x46).

Definition digit1 : Parser E NomSpan := split_at_position1_complete (λ b, negb (is_dec_digit b)) EK_Digit.

Definition hex_digit1 : Parser E NomSpan :=
  split_at_position1_complete (λ b, negb (is_hex_digit b)) EK_HexDigit.

Definition is_multispace (b : Z) : bool := (b =? 0x20) || (b =? 0x09) || (b =? 0x0d) || (b =? 0x0a).

Definition multispace1 : Parser E NomSpan :=
  split_at_position1_complete (λ b, negb (is_multispace b)) EK_MultiSpace.

Definition not_line_ending : Parser E NomSpan :=
  λ i, match position (λ c, (c =? 0x0d) || (c =? 0x0a)) (fragment i) with
       | None => take_split (length (fragment i)) i
       | Some index =>
         match drop index (fragment i) with
         | nth :: _ =>
           if nth =? 0x0d then
             match compare_str (drop index (fragment i)) [0x0d; 0x0a] with
             | Compare_Ok => take_split index i
             | _ => error_kind i EK_Tag
             end
           else take_split index i
         | [] => Panic
         end
       end.

Definition line_ending : Parser E NomSpan :=
  λ i, match compare_str (fragment i) [0x0a] with
       | Compare_Ok => take_split 1 i
       | Compare_Incomplete => error_kind i EK_CrLf
       | Compare_Error =>
         match compare_str (fragment i) [0x0d; 0x0a] with
         | Compare_Ok => take_split 2 i
         | _ => error_kind i EK_CrLf
         end
       end.

(** The loop of [escaped] at the input [i], a suffix of [input]. *)
Fixpoint escaped_loop {A B} (normal : Parser E A) (control_char : Z) (escapable : Parser E B)
    (input : NomSpan) (fuel : nat) (i : NomSpan) : IResult E NomSpan :=
  let whole := rest ← slice (length (fragment input)) input; Ok (rest, input) in
  match fuel with
  | O => Panic
  | S fuel =>
    match fragment i with
    | [] => whole
    | b :: _ =>
      match normal i with
      | Ok (i2, _) =>
        if decide (fragment i2 = []) then whole
        else escaped_loop normal control_char escapable input fuel i2
      | Err (Error _) =>
        if b =? control_char then
          if decide (length (fragment i) <= 1)%nat then error_kind input EK_Escaped else
          next ← slice 1 i;
          match escapable next with
          | Ok (i2, _) =>
            if decide (fragment i2 = []) then whole
            else escaped_loop normal control_char escapable input fuel i2
          | Err e => Err e
          | Panic => Panic
          end
        else
          let index := location_offset i - location_offset input in
          if index =? 0 then error_kind input EK_Escaped
          else take_split (Z.to_nat index) input
      | Err e => Err e
      | Panic => Panic
      end
    end
  end.

Definition escaped {A B} (normal : Parser E A) (control_char : Z) (escapable : Parser E B) :
    Parser E NomSpan :=
  λ input, escaped_loop normal control_char escapable input (S (length (fragment input))) input.

End combinators.
