(* ===== verification/NomCorrect.v ===== *)
(** What the combinators promise: a parser that succeeds returns a suffix of its
    input, no combinator panics or asks for more input, and the loops have
    enough rounds. *)
From Stdlib Require Import ZArith Lia.
From stdpp Require Import base strings list.
From S2P Require Import Prelude Nom.
Local Open Scope Z_scope.

Create HintDb parsers.

#[local] Existing Instance unbounded.

(** ** Suffixes *)

Lemma newlines_app s t : newlines (s ++ t) = (newlines s + newlines t)%nat.
Proof. unfold newlines. by rewrite filter_app, length_app. Qed.

(** What is left of a span after [n] bytes. *)
Definition slice_from (n : nat) (i : NomSpan) : NomSpan :=
  mkNomSpan (location_offset i + Z.of_nat n)
    (location_line i + Z.of_nat (newlines (take n (fragment i)))) (drop n (fragment i)).

Lemma slice_unbounded {E} n i : slice (E := E) n i = Ok (slice_from n i).
Proof. done. Qed.

Lemma take_split_unbounded {E} n i : take_split (E := E) n i = Ok (slice_from n i, slice_to n i).
Proof. done. Qed.

Lemma slice_from_0 i : slice_from 0 i = i.
Proof. destruct i as [o l f]. unfold slice_from. cbn. by rewrite !Z.add_0_r. Qed.

Lemma slice_from_slice_from m n i : slice_from m (slice_from n i) = slice_from (n + m) i.
Proof.
  destruct i as [o l f]. unfold slice_from. cbn. rewrite drop_drop. f_equal; [lia|].
  rewrite <- (take_take_drop f n m), newlines_app. lia.
Qed.

(** [i'] is what is left of [i] after some of it is consumed. *)
Definition after (i i' : NomSpan) : Prop :=
  ∃ n, (n <= length (fragment i))%nat ∧ i' = slice_from n i.

Lemma after_refl i : after i i.
Proof. exists 0%nat. split; [lia|]. by rewrite slice_from_0. Qed.

Lemma length_slice_from n i : length (fragment (slice_from n i)) = (length (fragment i) - n)%nat.
Proof. unfold slice_from. cbn. by rewrite length_drop. Qed.

Lemma after_trans i j k : after i j → after j k → after i k.
Proof.
  intros (n & Hn & ->) (m & Hm & ->). rewrite length_slice_from in Hm.
  exists (n + m)%nat. split; [lia|]. apply slice_from_slice_from.
Qed.

Lemma after_length i j : after i j → (length (fragment j) <= length (fragment i))%nat.
Proof. intros (n & Hn & ->). rewrite length_slice_from. lia. Qed.

Lemma after_shorter i j : after i j → j ≠ i → (length (fragment j) < length (fragment i))%nat.
Proof.
  intros (n & Hn & ->) Hne. rewrite length_slice_from.
  destruct n; [by rewrite slice_from_0 in Hne|lia].
Qed.

Lemma after_slice_from n i : (n <= length (fragment i))%nat → after i (slice_from n i).
Proof. by exists n. Qed.

#[export] Hint Resolve after_refl : parsers.

(** ** Well-behaved parsers *)

(** The outcome [r] of a parser on [i]; with [b] a success consumes something. *)
Definition well {E O} (b : bool) (i : NomSpan) (r : IResult E O) : Prop :=
  match r with
  | Ok (i', _) => after i i' ∧ (b = true → (length (fragment i') < length (fragment i))%nat)
  | Err Incomplete => False
  | Err _ => True
  | Panic => False
  end.

(** [p] is well behaved on inputs shorter than [n]. *)
Definition good {E O} (b : bool) (n : nat) (p : Parser E O) : Prop :=
  ∀ i, (length (fragment i) < n)%nat → well b i (p i).

Lemma well_sub {E O} b c i (r : IResult E O) : well b i r → (c = true → b = true) → well c i r.
Proof. destruct r as [[i' o]|[]|]; cbn; naive_solver. Qed.

Lemma good_sub {E O} b c n (p : Parser E O) : good b n p → (c = true → b = true) → good c n p.
Proof. intros Hp Hbc i Hi. eapply well_sub; [by apply Hp|done]. Qed.

Lemma good_weak {E O} b n (p : Parser E O) : good b n p → good false n p.
Proof. intros Hp. by eapply good_sub. Qed.

Lemma good_mono {E O} b m n (p : Parser E O) : good b n p → (m <= n)%nat → good b m p.
Proof. intros Hp Hmn i Hi. apply Hp. lia. Qed.

Lemma well_bind {E A B} b c i (m : IResult E A) (k : NomSpan * A → IResult E B) :
  well b i m →
  (∀ i' a, m = Ok (i', a) → after i i' → (b = true → (length (fragment i') < length (fragment i))%nat) →
     well c i' (k (i', a))) →
  well (b || c) i (m ≫= k).
Proof.
  destruct m as [[i' a]|[]|]; cbn; try done. intros [Ha Hb] Hk.
  specialize (Hk i' a eq_refl Ha Hb). destruct (k (i', a)) as [[i2 o]|[]|]; cbn in *; try done.
  destruct Hk as [Ha2 Hc]. split; [by eapply after_trans|].
  pose proof (after_length _ _ Ha). pose proof (after_length _ _ Ha2).
  intros [Ht|Ht]%orb_true_iff; [specialize (Hb Ht)|specialize (Hc Ht)]; lia.
Qed.

Lemma well_Ok {E O} i (o : O) : well (E := E) false i (Ok (i, o)).
Proof. split; [apply after_refl|done]. Qed.

Lemma well_error_kind {E O} `{!ParseError E} b i j kind :
  well (O := O) b i (error_kind (E := E) j kind).
Proof. done. Qed.

Lemma well_slice {E O} n i (o : O) :
  (n <= length (fragment i))%nat → well (E := E) (negb (n =? 0)%nat) i (Ok (slice_from n i, o)).
Proof.
  intros Hn. split; [by apply after_slice_from|]. intros Hb. rewrite length_slice_from.
  destruct n; [done|lia].
Qed.

Section combinators.
Context {E : Type} `{!ParseError E}.
Implicit Types n : nat.

(** Sequencing: the parts may be limited to shorter inputs after a part that
    consumes something. *)
Lemma good_bind {A B} b c n (p : Parser E A) (k : NomSpan * A → IResult E B) :
  good b n p →
  (∀ i a, (length (fragment i) < n)%nat → well c i (k (i, a))) →
  good (b || c) n (λ i, p i ≫= k).
Proof.
  intros Hp Hk i Hi. eapply well_bind; [by apply Hp|]. intros i' a _ Ha _.
  apply Hk. apply after_length in Ha. lia.
Qed.

Lemma good_bind_nested {A B} c n (p : Parser E A) (k : NomSpan * A → IResult E B) :
  good true (S n) p →
  (∀ i a, (length (fragment i) < n)%nat → well c i (k (i, a))) →
  good true (S n) (λ i, p i ≫= k).
Proof.
  intros Hp Hk i Hi. change true with (true || c). eapply well_bind; [by apply Hp|].
  intros i' a _ _ Hlt. apply Hk. specialize (Hlt eq_refl). lia.
Qed.

Lemma pmap_good {A B} b n (f : Parser E A) (g : A → B) : good b n f → good b n (pmap f g).
Proof.
  intros Hf. rewrite <- (orb_false_r b). eapply good_bind; [done|]. intros. apply well_Ok.
Qed.

Lemma pvalue_good {A B} b n (v : A) (f : Parser E B) : good b n f → good b n (pvalue v f).
Proof.
  intros Hf. rewrite <- (orb_false_r b). eapply good_bind; [done|]. intros. apply well_Ok.
Qed.

Lemma map_res_good {A B} b n (f : Parser E A) (g : A → option B) : good b n f → good b n (map_res f g).
Proof.
  intros Hf i Hi. unfold map_res. rewrite <- (orb_false_r b).
  eapply well_bind; [by apply Hf|]. intros i' a _ _ _. destruct (g a); [apply well_Ok|done].
Qed.

Lemma opt_good {A} b n (f : Parser E A) : good b n f → good false n (opt f).
Proof.
  intros Hf i Hi. specialize (Hf i Hi). unfold opt.
  destruct (f i) as [[i' o]|[]|]; try done; [by split; [apply Hf|]|apply well_Ok].
Qed.

Lemma preceded_good {A B} b c n (f : Parser E A) (g : Parser E B) :
  good b n f → good c n g → good (b || c) n (preceded f g).
Proof. intros Hf Hg. eapply good_bind; [done|]. intros. by apply Hg. Qed.

Lemma terminated_good {A B} b c n (f : Parser E A) (g : Parser E B) :
  good b n f → good c n g → good (b || c) n (terminated f g).
Proof.
  intros Hf Hg. eapply good_bind; [done|]. intros i a Hi. rewrite <- (orb_false_r c).
  eapply well_bind; [by apply Hg|]. intros. apply well_Ok.
Qed.

Lemma tuple2_good {A B} b c n (f : Parser E A) (g : Parser E B) :
  good b n f → good c n g → good (b || c) n (tuple2 f g).
Proof.
  intros Hf Hg. eapply good_bind; [done|]. intros i a Hi. rewrite <- (orb_false_r c).
  eapply well_bind; [by apply Hg|]. intros. apply well_Ok.
Qed.

Lemma delimited_good {A B C} b c d n (f : Parser E A) (g : Parser E B) (h : Parser E C) :
  good b n f → good c n g → good d n h → good (b || (c || d)) n (delimited f g h).
Proof.
  intros Hf Hg Hh. eapply good_bind; [done|]. intros i a Hi.
  eapply (good_bind c d n g); [done| |done]. intros i' a' Hi'. rewrite <- (orb_false_r d).
  eapply well_bind; [by apply Hh|]. intros. apply well_Ok.
Qed.

Lemma delimited_nested {A B C} c d n (f : Parser E A) (g : Parser E B) (h : Parser E C) :
  good true (S n) f → good c n g → good d n h → good true (S n) (delimited f g h).
Proof.
  intros Hf Hg Hh. eapply (good_bind_nested (c || d)); [done|]. intros i a Hi.
  eapply (good_bind c d n g); [done| |done]. intros i' a' Hi'. rewrite <- (orb_false_r d).
  eapply well_bind; [by apply Hh|]. intros. apply well_Ok.
Qed.

Lemma separated_pair_good {A B C} b c d n (f : Parser E A) (g : Parser E B) (h : Parser E C) :
  good b n f → good c n g → good d n h → good (b || (c || d)) n (separated_pair f g h).
Proof.
  intros Hf Hg Hh. eapply good_bind; [done|]. intros i a Hi.
  eapply (good_bind c d n g); [done| |done]. intros i' a' Hi'. rewrite <- (orb_false_r d).
  eapply well_bind; [by apply Hh|]. intros. apply well_Ok.
Qed.

Lemma tuple3_good {A B C} b c d n (f : Parser E A) (g : Parser E B) (h : Parser E C) :
  good b n f → good c n g → good d n h → good (b || (c || d)) n (tuple3 f g h).
Proof.
  intros Hf Hg Hh. eapply good_bind; [done|]. intros i a Hi.
  eapply (good_bind c d n g); [done| |done]. intros i' a' Hi'. rewrite <- (orb_false_r d).
  eapply well_bind; [by apply Hh|]. intros. apply well_Ok.
Qed.

Lemma alt_choice_good {A} b n (ps : list (Parser E A)) err i :
  Forall (good b n) ps → is_Some err ∨ ps ≠ [] → (length (fragment i) < n)%nat →
  well b i (alt_choice ps err i).
Proof.
  intros Hps. revert err. induction Hps as [|p ps Hp Hps IH]; intros err Herr Hi; cbn.
  - by destruct Herr as [[e ->]|].
  - specialize (Hp i Hi). destruct (p i) as [[i' o]|[|e|e]|]; try done.
    apply IH; [by left|done].
Qed.

Lemma alt_good {A} b n (ps : list (Parser E A)) : Forall (good b n) ps → ps ≠ [] → good b n (alt ps).
Proof. intros Hps Hne i Hi. apply (alt_choice_good b n); auto. Qed.

(** ** Loops *)

Lemma many_loop_good {A} b n kind (f : Parser E A) fuel i acc :
  good b n f → (length (fragment i) < n)%nat → (length (fragment i) < fuel)%nat →
  well false i (many_loop kind f fuel i acc).
Proof.
  intros Hf. revert i acc. induction fuel as [|fuel IH]; intros i acc Hi Hfuel; [lia|]. cbn.
  pose proof (Hf i Hi) as Hw. destruct (f i) as [[i1 o]|[|e|e]|]; try done; [|apply well_Ok].
  destruct Hw as [Ha _]. case_decide as Hne; [done|].
  pose proof (after_shorter _ _ Ha Hne).
  specialize (IH i1 (acc ++ [o]) ltac:(lia) ltac:(lia)).
  destruct (many_loop _ _ _ _ _) as [[i2 o2]|[]|]; try done.
  split; [|done]. by eapply after_trans; [|apply IH].
Qed.

Lemma many0_good {A} b n (f : Parser E A) : good b n f → good false n (many0 f).
Proof. intros Hf i Hi. eapply many_loop_good; [done|done|lia]. Qed.

Lemma many1_good {A} b n (f : Parser E A) : good b n f → good b n (many1 f).
Proof.
  intros Hf i Hi. unfold many1. pose proof (Hf i Hi) as Hw.
  destruct (f i) as [[i1 o]|[|e|e]|]; try done. destruct Hw as [Ha Hb].
  pose proof (after_length _ _ Ha).
  pose proof (many_loop_good b n EK_Many1 f (S (length (fragment i1))) i1 [o] Hf
    ltac:(lia) ltac:(lia)) as Hw.
  destruct (many_loop _ _ _ _ _) as [[i2 o2]|[]|]; try done. destruct Hw as [Ha2 _].
  split; [by eapply after_trans|]. intros Ht. specialize (Hb Ht). apply after_length in Ha2. lia.
Qed.

Lemma separated_loop_good {A B} b c n (sep : Parser E B) (f : Parser E A) fuel i res :
  good b n sep → good c n f → (length (fragment i) < n)%nat → (length (fragment i) < fuel)%nat →
  well false i (separated_loop sep f fuel i res).
Proof.
  intros Hs Hf. revert i res. induction fuel as [|fuel IH]; intros i res Hi Hfuel; [lia|]. cbn.
  pose proof (Hs i Hi) as Hw. destruct (sep i) as [[i1 o]|[|e|e]|]; try done; [|apply well_Ok].
  destruct Hw as [Ha _]. case_decide as Hne; [done|]. pose proof (after_shorter _ _ Ha Hne).
  pose proof (Hf i1 ltac:(lia)) as Hw. destruct (f i1) as [[i2 o2]|[|e|e]|]; try done; [|apply well_Ok].
  destruct Hw as [Ha2 _]. pose proof (after_length _ _ Ha2). case_decide; [done|].
  specialize (IH i2 (res ++ [o2]) ltac:(lia) ltac:(lia)).
  destruct (separated_loop _ _ _ _ _) as [[i3 o3]|[]|]; try done.
  split; [|done]. eapply after_trans; [|apply IH]. by eapply after_trans.
Qed.

Lemma separated_nonempty_list_good {A B} b c n (sep : Parser E B) (f : Parser E A) :
  good b n sep → good c n f → good true n (separated_nonempty_list sep f).
Proof.
  intros Hs Hf i Hi. unfold separated_nonempty_list. pose proof (Hf i Hi) as Hw.
  destruct (f i) as [[i1 o]|[|e|e]|]; try done. destruct Hw as [Ha _]. cbn [mbind outcome_bind].
  case_decide as Hne; [done|]. pose proof (after_shorter _ _ Ha Hne).
  pose proof (separated_loop_good b c n sep f (S (length (fragment i1))) i1 [o] Hs Hf
    ltac:(lia) ltac:(lia)) as Hw.
  destruct (separated_loop _ _ _ _ _) as [[i2 o2]|[]|]; try done. destruct Hw as [Ha2 _].
  split; [by eapply after_trans|]. intros _. apply after_length in Ha2. lia.
Qed.

(** ** Basic parsers *)

Lemma position_lt p s k : position p s = Some k → (k < length s)%nat.
Proof.
  revert k. induction s as [|b s IH]; intros k; cbn; [done|].
  destruct (p b); [intros [= <-]; lia|]. destruct (position p s) as [m|]; [|done].
  intros [= <-]. specialize (IH m eq_refl). lia.
Qed.

Lemma compare_str_length s t : compare_str s t = Compare_Ok → (length t <= length s)%nat.
Proof.
  revert t. induction s as [|a s IH]; intros [|b t]; cbn; try done; try lia.
  destruct (a =? b); [|done]. intros H. specialize (IH t H). lia.
Qed.

Lemma find_substring_le t s k : find_substring t s = Some k → (k + length t <= length s)%nat.
Proof.
  revert k. induction s as [|b s IH]; intros k; cbn [find_substring].
  - destruct (compare_str [] t) eqn:Hc; try done. intros [= <-]. by apply compare_str_length in Hc.
  - destruct (compare_str (b :: s) t) eqn:Hc;
      [intros [= <-]; by apply compare_str_length in Hc|..];
      (destruct (find_substring t s) as [m|]; [|done]; intros [= <-]; specialize (IH m eq_refl); cbn; lia).
Qed.

Lemma split_at_position1_good p e n : good true n (split_at_position1_complete (E := E) p e).
Proof.
  intros i _. unfold split_at_position1_complete.
  destruct (position p (fragment i)) as [[|k]|] eqn:Hp; [done|..].
  - apply position_lt in Hp. apply (well_slice (S k)). lia.
  - case_decide as Hf; [done|]. destruct (fragment i) as [|b r] eqn:Hr; [done|].
    apply (well_slice (S (length r))). rewrite Hr. cbn. lia.
Qed.

Lemma tag_good t n : good (negb (length t =? 0)%nat) n (tag (E := E) t).
Proof.
  intros i _. unfold tag. destruct (compare_str _ _) eqn:Hc; try done.
  apply well_slice. by apply compare_str_length.
Qed.

Lemma is_not_good arr n : good true n (is_not (E := E) arr).
Proof. apply split_at_position1_good. Qed.

Lemma take_until_good t n : good false n (take_until (E := E) t).
Proof.
  intros i _. unfold take_until. destruct (find_substring _ _) as [k|] eqn:Hk; [|done].
  apply find_substring_le in Hk. eapply well_sub; [apply well_slice; lia|done].
Qed.

Lemma char_good c n : good true n (char (E := E) c).
Proof.
  intros i _. unfold char. destruct (fragment i) as [|b r] eqn:Hr; [done|]. destruct (b =? c); [|done].
  apply (well_slice 1). rewrite Hr. cbn. lia.
Qed.

Lemma one_of_good l n : good true n (one_of (E := E) l).
Proof.
  intros i _. unfold one_of. destruct (fragment i) as [|b r] eqn:Hr; [done|].
  destruct (bool_decide _); [|done]. apply (well_slice 1). rewrite Hr. cbn. lia.
Qed.

Lemma not_line_ending_good n : good false n (not_line_ending (E := E)).
Proof.
  intros i _. unfold not_line_ending.
  destruct (position _ (fragment i)) as [k|] eqn:Hk.
  - apply position_lt in Hk.
    assert (well (E := E) false i (take_split k i)) as Hw
      by (eapply well_sub; [apply well_slice; lia|done]).
    destruct (drop k (fragment i)) as [|x r] eqn:Hd.
    + apply (f_equal length) in Hd. rewrite length_drop in Hd. cbn in Hd. lia.
    + destruct (x =? 0x0d); [|done]. by destruct (compare_str _ _).
  - eapply well_sub; [by apply well_slice|done].
Qed.

Lemma line_ending_good n : good true n (line_ending (E := E)).
Proof.
  intros i _. unfold line_ending.
  destruct (compare_str _ [0x0a]) eqn:H1; [|done|].
  - apply (well_slice 1). by apply compare_str_length in H1.
  - destruct (compare_str _ [0x0d; 0x0a]) eqn:H2; try done.
    apply (well_slice 2). by apply compare_str_length in H2.
Qed.

Lemma escaped_loop_good {A B} n (normal : Parser E A) control (escapable : Parser E B) input fuel i :
  good true n normal → good true n escapable → after input i →
  (length (fragment input) < n)%nat → (length (fragment i) < fuel)%nat →
  well false input (escaped_loop normal control escapable input fuel i).
Proof.
  intros Hn He. revert i. induction fuel as [|fuel IH]; intros i Ha Hi Hfuel; [lia|].
  cbn [escaped_loop]. pose proof (after_length _ _ Ha) as Hle.
  assert (well (E := E) false input (Ok (slice_from (length (fragment input)) input, input))) as Hwhole
    by (eapply well_sub; [by apply well_slice|done]).
  destruct (fragment i) as [|b r] eqn:Hr; [done|].
  pose proof (Hn i ltac:(rewrite Hr; lia)) as Hw.
  destruct (normal i) as [[i2 o]|[|e|e]|]; try done.
  - destruct Hw as [Ha2 Hlt]. specialize (Hlt eq_refl). rewrite Hr in Hlt. case_decide; [done|].
    apply IH; [by eapply after_trans|done|lia].
  - destruct (b =? control).
    + case_decide as Hone; [done|]. rewrite !slice_unbounded. cbn [mbind outcome_bind].
      assert (after i (slice_from 1 i)) as Ha1 by (apply after_slice_from; rewrite Hr; cbn; lia).
      pose proof (He (slice_from 1 i) ltac:(rewrite length_slice_from, Hr; lia)) as Hw1.
      destruct (escapable (slice_from 1 i)) as [[i2 o]|[|e1|e1]|]; try done.
      destruct Hw1 as [Ha2 Hlt]. specialize (Hlt eq_refl). rewrite length_slice_from, Hr in Hlt.
      case_decide; [done|]. apply IH; [|done|lia].
      eapply after_trans; [exact Ha|]. by eapply after_trans.
    + case_match; [done|]. eapply well_sub; [apply well_slice|done].
      destruct Ha as (k & Hk & ->). cbn. lia.
Qed.

Lemma escaped_good {A B} n (normal : Parser E A) control (escapable : Parser E B) :
  good true n normal → good true n escapable → good false n (escaped normal control escapable).
Proof. intros Hn He i Hi. apply (escaped_loop_good n); auto using after_refl; lia. Qed.

End combinators.

#[export] Hint Resolve pmap_good pvalue_good map_res_good opt_good preceded_good terminated_good
  tuple2_good tuple3_good delimited_good separated_pair_good many0_good many1_good
  separated_nonempty_list_good split_at_position1_good tag_good is_not_good take_until_good
  char_good one_of_good not_line_ending_good line_ending_good escaped_good : parsers.
