(* ===== verification/ParserCommon.v ===== *)
(** Identifiers, literals and source spans shared by the three bind grammars:
    the data types of [src/devices/lib/bind/src/parser/common.rs] and their
    methods.  A [String] is its UTF-8 bytes. *)
From Stdlib Require Import ZArith.
From stdpp Require Import base gmap strings countable list.
From S2P Require Import Prelude Nom.
Local Open Scope Z_scope.

Record Span := mkSpan {
  span_offset : Z;
  span_line : Z;
  span_fragment : rstring;
}.

Record CompoundIdentifier := mkIdent {
  namespace : list rstring;
  name : rstring;
}.

#[export] Instance Span_eq_dec : EqDecision Span.
Proof. solve_decision. Defined.
#[export] Instance CompoundIdentifier_eq_dec : EqDecision CompoundIdentifier.
Proof. solve_decision. Defined.
#[export] Instance CompoundIdentifier_countable : Countable CompoundIdentifier.
Proof.
  refine (inj_countable' (λ i, (namespace i, name i)) (λ p, mkIdent p.1 p.2) _).
  by intros [].
Defined.

(** [Display for CompoundIdentifier]. *)
Definition to_string (i : CompoundIdentifier) : rstring :=
  match namespace i with
  | [] => name i
  | ns => join (str ".") ns ++ str "." ++ name i
  end.

(** The identifier [n] inside the namespace named by [i]. *)
Definition nest (i : CompoundIdentifier) (n : rstring) : CompoundIdentifier :=
  mkIdent (namespace i ++ [name i]) n.

(** The namespace of [i], itself as an identifier; [None] when unqualified.
    [namespace.pop()] removes the last segment. *)
Definition parent (i : CompoundIdentifier) : option CompoundIdentifier :=
  match last (namespace i) with
  | Some n => Some (mkIdent (removelast (namespace i)) n)
  | None => None
  end.

(** [make_identifier![a, b, c]]. *)
Fixpoint make_identifier (first : rstring) (rest : list rstring) : CompoundIdentifier :=
  match rest with
  | [] => mkIdent [] first
  | r :: rs =>
    let identifier := make_identifier r rs in
    mkIdent (first :: namespace identifier) (name identifier)
  end.

Record Include := mkInclude {
  include_name : CompoundIdentifier;
  alias : option rstring;
}.

Inductive Value :=
| NumericLiteral (n : Z)
| StringLiteral (s : rstring)
| BoolLiteral (b : bool)
| Identifier (i : CompoundIdentifier).

#[export] Instance Include_eq_dec : EqDecision Include.
Proof. solve_decision. Defined.
#[export] Instance Value_eq_dec : EqDecision Value.
Proof. solve_decision. Defined.

Inductive BindParserError :=
| PE_Type (s : rstring)
| PE_StringLiteral (s : rstring)
| PE_NumericLiteral (s : rstring)
| PE_BoolLiteral (s : rstring)
| PE_Identifier (s : rstring)
| PE_Semicolon (s : rstring)
| PE_Assignment (s : rstring)
| PE_ListStart (s : rstring)
| PE_ListEnd (s : rstring)
| PE_ListSeparator (s : rstring)
| PE_LibraryKeyword (s : rstring)
| PE_UsingKeyword (s : rstring)
| PE_AsKeyword (s : rstring)
| PE_IfBlockStart (s : rstring)
| PE_IfBlockEnd (s : rstring)
| PE_IfKeyword (s : rstring)
| PE_ElseKeyword (s : rstring)
| PE_ConditionOp (s : rstring)
| PE_ConditionValue (s : rstring)
| PE_AcceptKeyword (s : rstring)
| PE_TrueKeyword (s : rstring)
| PE_FalseKeyword (s : rstring)
| PE_NoStatements (s : rstring)
| PE_NoNodes (s : rstring)
| PE_Eof (s : rstring)
| PE_CompositeKeyword (s : rstring)
| PE_NodeKeyword (s : rstring)
| PE_PrimaryKeyword (s : rstring)
| PE_OnePrimaryNode (s : rstring)
| PE_InvalidNodeName (s : rstring)
| PE_DuplicateNodeName (s : rstring)
| PE_UnterminatedComment
| PE_Unknown (s : rstring) (kind : ErrorKind).

#[export] Instance BindParserError_eq_dec : EqDecision BindParserError.
Proof. solve_decision. Defined.

Lemma parent_nest i n : parent (nest i n) = Some i.
Proof.
  unfold parent, nest. cbn. rewrite last_snoc, removelast_last. by destruct i.
Qed.

Lemma nest_inj i j m n : nest i m = nest j n → i = j ∧ m = n.
Proof.
  intros H. pose proof (f_equal parent H) as Hp. rewrite !parent_nest in Hp.
  injection Hp as ->. injection H as ->. done.
Qed.
