(* ===== verification/BindLibrary.v ===== *)
(** The abstract syntax of bind libraries
    ([src/devices/lib/bind/src/parser/bind_library.rs]) and the linter that runs
    on it ([linter.rs]). *)
From Stdlib Require Import ZArith.
From stdpp Require Import base gmap strings countable list.
From S2P Require Import Prelude ParserCommon.
Local Open Scope Z_scope.

Inductive ValueType := Number | Str | Bool | Enum.

Inductive Value :=
| NumberV (identifier : rstring) (value : Z)
| StrV (identifier : rstring) (value : rstring)
| BoolV (identifier : rstring) (value : bool)
| EnumV (identifier : rstring).

#[export] Instance ValueType_eq_dec : EqDecision ValueType.
Proof. solve_decision. Defined.
#[export] Instance Value_eq_dec : EqDecision Value.
Proof. solve_decision. Defined.

(** [Value::identifier]. *)
Definition value_identifier (v : Value) : rstring :=
  match v with
  | NumberV identifier _ | StrV identifier _ | BoolV identifier _ | EnumV identifier =>
    identifier
  end.

Record Declaration := mkDeclaration {
  identifier : CompoundIdentifier;
  value_type : ValueType;
  extends : bool;
  values : list Value;
}.

Record Ast := mkAst {
  ast_name : CompoundIdentifier;
  ast_using : list Include;
  declarations : list Declaration;
}.

Inductive LinterError :=
| LibraryNameMustNotContainUnderscores (i : CompoundIdentifier).

#[export] Instance LinterError_eq_dec : EqDecision LinterError.
Proof. solve_decision. Defined.

(** [library.name.name.contains("_")]: the byte 0x5F occurs. *)
Definition lint_library (library : Ast) : outcome LinterError () :=
  if bool_decide (0x5F ∈ name (ast_name library))
  then Err (LibraryNameMustNotContainUnderscores (ast_name library))
  else Ok ().
