(* ===== verification/BindRules.v ===== *)
(** The abstract syntax of bind rules
    ([src/devices/lib/bind/src/parser/bind_rules.rs]) and of composite bind rules
    ([bind_composite.rs]), with the induction principle of nested statements. *)
From Stdlib Require Import ZArith.
From stdpp Require Import base gmap strings countable list.
From S2P Require Import Prelude ParserCommon.
Local Open Scope Z_scope.

Inductive ConditionOp := Equals | NotEquals.

#[export] Instance ConditionOp_eq_dec : EqDecision ConditionOp.
Proof. solve_decision. Defined.

Record Condition := mkCondition {
  cond_span : Span;
  lhs : CompoundIdentifier;
  op : ConditionOp;
  rhs : Value;
}.

Inductive Statement :=
| ConditionStatement (span : Span) (condition : Condition)
| Accept (span : Span) (identifier : CompoundIdentifier) (values : list Value)
| If (span : Span) (blocks : list (Condition * list Statement)) (else_block : list Statement)
| False_ (span : Span)
| True_ (span : Span).

Definition get_span (s : Statement) : Span :=
  match s with
  | ConditionStatement span _ | Accept span _ _ | If span _ _ | False_ span | True_ span => span
  end.

Record RulesAst := mkRulesAst {
  rules_using : list Include;
  statements : list Statement;
}.

(** [bind_composite::Node] and [bind_composite::Ast]. *)
Record CompositeAstNode := mkCompositeAstNode {
  node_name : rstring;
  node_statements : list Statement;
}.

Record CompositeAst := mkCompositeAst {
  composite_name : CompoundIdentifier;
  composite_using : list Include;
  ast_primary_node : CompositeAstNode;
  nodes : list CompositeAstNode;
}.

(** Induction over statements that goes through the blocks of an [If]. *)
Section statement_induction.
Context (P : Statement → Prop).
Hypothesis P_condition : ∀ span c, P (ConditionStatement span c).
Hypothesis P_accept : ∀ span i vs, P (Accept span i vs).
Hypothesis P_if : ∀ span blocks else_block,
  Forall (λ b : Condition * list Statement, Forall P b.2) blocks →
  Forall P else_block → P (If span blocks else_block).
Hypothesis P_false : ∀ span, P (False_ span).
Hypothesis P_true : ∀ span, P (True_ span).

Fixpoint Statement_nested_ind (s : Statement) : P s :=
  let block := fix block (l : list Statement) : Forall P l :=
    match l with
    | [] => List.Forall_nil _
    | s :: r => List.Forall_cons _ _ _ (Statement_nested_ind s) (block r)
    end in
  match s with
  | ConditionStatement span c => P_condition span c
  | Accept span i vs => P_accept span i vs
  | If span blocks else_block =>
    P_if span blocks else_block
      ((fix go (l : list (Condition * list Statement)) :
          Forall (λ b : Condition * list Statement, Forall P b.2) l :=
        match l with
        | [] => List.Forall_nil _
        | b :: r => List.Forall_cons _ _ _ (block b.2) (go r)
        end) blocks)
      (block else_block)
  | False_ span => P_false span
  | True_ span => P_true span
  end.
End statement_induction.
