(* ===== verification/CommonParser.v ===== *)
(** The parsers shared by the bind grammars: the functions of
    [src/devices/lib/bind/src/parser/common.rs]. *)
From Stdlib Require Import ZArith Lia.
From stdpp Require Import base gmap strings countable list.
From S2P Require Import Prelude Format Nom ParserCommon.
Local Open Scope Z_scope.

#[export] Instance BindParserError_ParseError : ParseError BindParserError := {|
  from_error_kind input kind := PE_Unknown (fragment input) kind;
  append_error _ _ e := e;
|}.

Notation BindParser O := (Parser BindParserError O).
Notation PairParser O := (Parser (NomSpan * ErrorKind) O).

(** [Span::from_to]: the subtraction underflows, and the slice panics, on spans
    that are not in order. *)
Definition from_to {E} (from to : NomSpan) : outcome E Span :=
  let n := location_offset to - location_offset from in
  if (n <? 0) || (len (fragment from) <? n) then Panic else
  Ok (mkSpan (location_offset from) (location_line from) (take (Z.to_nat n) (fragment from))).

(** [map_err]. *)
Definition map_parser_err {O} (parser : PairParser O) (f : rstring → BindParserError) : BindParser O :=
  λ input,
    match parser input with
    | Ok r => Ok r
    | Err (Error (i, _)) => Err (Error (f (fragment i)))
    | Err (Failure (i, _)) => Err (Failure (f (fragment i)))
    | Err Incomplete => Panic
    | Panic => Panic
    end.

Section parsers.
Context `{!Counters}.

(** ** Whitespace and comments *)

(** The loop of [multiline_comment]: the value of [stack] when it stops, and
    what the iterator has left. *)
Fixpoint comment_loop {E} (s : rstring) (stack : Z) : outcome E (Z * rstring) :=
  match s with
  | first :: (second :: r) as rest =>
    if (first =? 0x2f) && (second =? 0x2a) then
      match open_comment stack with
      | Some stack => comment_loop r stack
      | None => Panic
      end
    else if (first =? 0x2a) && (second =? 0x2f) then
      if stack - 1 =? 0 then Ok (0, r) else comment_loop r (stack - 1)
    else comment_loop rest stack
  | _ => Ok (stack, [])
  end.

Definition multiline_comment : BindParser unit :=
  λ input,
    '(input, _) ← tag (str "/*") input;
    '(stack, rest) ← comment_loop (fragment input) 1;
    if negb (stack =? 0) then Err (Failure PE_UnterminatedComment) else
    let consumed := (length (fragment input) - length rest)%nat in
    rest ← slice consumed input;
    Ok (rest, ()).

Definition singleline_comment : BindParser unit :=
  pvalue () (tuple3 (tag (str "//")) not_line_ending line_ending).

Definition comment_or_whitespace : BindParser unit :=
  pvalue () (many0 (alt [pvalue () multispace1; multiline_comment; singleline_comment])).

Definition ws {O} (f : BindParser O) : BindParser O := preceded comment_or_whitespace f.

Definition skip_ws (input : NomSpan) : outcome (NomErr BindParserError) NomSpan :=
  '(input, _) ← comment_or_whitespace input; Ok input.

(** [many_until_eof]: the explicit [panic!] is for a parser that consumes
    nothing.  Every other round consumes some of the input, so one round per
    byte and one more are enough. *)
Fixpoint until_eof_loop {O} (f : BindParser O) (fuel : nat) (input : NomSpan) (result : list O) :
    IResult BindParserError (list O) :=
  match fuel with
  | O => Panic
  | S fuel =>
    rest ← skip_ws input;
    if decide (fragment rest = []) then rest ← skip_ws input; Ok (rest, result) else
    '(next_input, res) ← f input;
    if decide (length (fragment input) = length (fragment next_input)) then Panic
    else until_eof_loop f fuel next_input (result ++ [res])
  end.

Definition many_until_eof {O} (f : BindParser O) : BindParser (list O) :=
  λ input, until_eof_loop f (S (length (fragment input))) input [].

(** ** Literals *)

(** A string between quotes (0x22); an escaped backslash (0x5c) or quote is left
    as it is written. *)
Definition quoted : PairParser NomSpan :=
  let escapable := escaped (is_not [0x5c; 0x22]) 0x5c (one_of [0x5c; 0x22]) in
  delimited (char 0x22) escapable (char 0x22).

Definition string_literal : BindParser rstring :=
  map_parser_err (pmap quoted fragment) PE_StringLiteral.

Definition numeric_literal : BindParser Z :=
  let base10 := map_res digit1 (λ s, from_str_radix 10 (fragment s)) in
  let base16 := map_res (preceded (tag (str "0x")) hex_digit1) (λ s, from_str_radix 16 (fragment s)) in
  map_parser_err (alt [base16; base10]) PE_NumericLiteral.

Definition bool_literal : BindParser bool :=
  let true_ := pvalue true (tag (str "true")) in
  let false_ := pvalue false (tag (str "false")) in
  map_parser_err (alt [true_; false_]) PE_BoolLiteral.

(** ** Identifiers *)

(** The regular expressions of [identifier], and the lengths of their matches
    at the start of a string in the order the [regex] crate prefers them: a
    repetition and an option are greedy. *)
Inductive Regex :=
| RClass (p : Z → bool)
| RStar (p : Z → bool)
| RCat (r1 r2 : Regex)
| ROpt (r : Regex).

Fixpoint run (p : Z → bool) (s : rstring) : nat :=
  match s with
  | b :: r => if p b then S (run p r) else O
  | [] => O
  end.

Fixpoint re_matches (r : Regex) (s : rstring) : list nat :=
  match r with
  | RClass p => match s with b :: _ => if p b then [1%nat] else [] | [] => [] end
  | RStar p => reverse (seq 0 (S (run p s)))
  | RCat r1 r2 => n ← re_matches r1 s; Nat.add n <$> re_matches r2 (drop n s)
  | ROpt r => re_matches r s ++ [O]
  end.

(** [RE.find(s)] for an expression anchored with [^]: the end of the match,
    which starts at 0. *)
Definition re_find (r : Regex) (s : rstring) : option nat := head (re_matches r s).

Definition is_letter (b : Z) : bool := (0x61 <=? b) && (b <=? 0x7a) || (0x41 <=? b) && (b <=? 0x5a).
Definition is_alphanum (b : Z) : bool := is_letter b || is_dec_digit b.
Definition is_word (b : Z) : bool := is_alphanum b || (b =? 0x5f).

(** [^[a-zA-Z]([a-zA-Z0-9_]*[a-zA-Z0-9])?]. *)
Definition identifier_re : Regex :=
  RCat (RClass is_letter) (ROpt (RCat (RStar is_word) (RClass is_alphanum))).

Definition identifier : BindParser rstring :=
  λ input,
    match re_find identifier_re (fragment input) with
    | Some end_ => rest ← slice end_ input; Ok (rest, fragment (slice_to end_ input))
    | None => Err (Error (PE_Identifier (fragment input)))
    end.

Definition compound_identifier : BindParser CompoundIdentifier :=
  λ input,
    '(input, segments) ← separated_nonempty_list (tag (str ".")) identifier input;
    match last segments with
    | Some name => Ok (input, mkIdent (removelast segments) name)
    | None => Panic
    end.

(** ** Values and includes *)

Definition condition_value : BindParser Value :=
  λ input,
    let string := pmap (ws string_literal) StringLiteral in
    let number := pmap (ws numeric_literal) NumericLiteral in
    let boolean := pmap (ws bool_literal) BoolLiteral in
    let identifier := pmap (ws compound_identifier) Identifier in
    match alt [string; number; boolean; identifier] input with
    | Err _ => Err (Error (PE_ConditionValue (fragment input)))
    | r => r
    end.

(** A keyword or a punctuation mark, with the error the grammar gives it. *)
Definition token (t : string) (f : rstring → BindParserError) : BindParser NomSpan :=
  ws (map_parser_err (tag (str t)) f).

(** [using]. *)
Definition using_include : BindParser Include :=
  λ input,
    let as_keyword := token "as" PE_AsKeyword in
    '(input, name) ← ws compound_identifier input;
    '(input, alias) ← opt (preceded as_keyword (ws identifier)) input;
    Ok (input, mkInclude name alias).

Definition using_list : BindParser (list Include) :=
  let using_keyword := token "using" PE_UsingKeyword in
  let terminator := token ";" PE_Semicolon in
  let using_ := delimited using_keyword (ws using_include) terminator in
  many0 (ws using_).

End parsers.

(** The conversion from [&str] of the three grammars. *)
Definition run_parser {O} (p : BindParser O) (input : rstring) : outcome BindParserError O :=
  match p (new_span input) with
  | Ok (_, ast) => Ok ast
  | Err (Error e) => Err e
  | Err (Failure e) => Err e
  | Err Incomplete => Panic
  | Panic => Panic
  end.
