(* ===== verification/RulesParser.v ===== *)
(** The parsers of bind rules and of composite bind rules: the functions of
    [src/devices/lib/bind/src/parser/bind_rules.rs] and [bind_composite.rs]. *)
From Stdlib Require Import ZArith Lia.
From stdpp Require Import base gmap strings countable list.
From S2P Require Import Prelude Nom ParserCommon BindRules CommonParser.
Local Open Scope Z_scope.

Section parsers.
Context `{!Counters}.

Definition condition_op : BindParser ConditionOp :=
  let equals := pvalue Equals (tag (str "==")) in
  let not_equals := pvalue NotEquals (tag (str "!=")) in
  map_parser_err (alt [equals; not_equals]) PE_ConditionOp.

Definition condition : BindParser Condition :=
  λ input,
    from ← skip_ws input;
    '(input, lhs) ← ws compound_identifier from;
    '(input, op) ← ws condition_op input;
    '(to, rhs) ← ws condition_value input;
    span ← from_to from to;
    Ok (to, mkCondition span lhs op rhs).

Definition condition_statement : BindParser Statement :=
  λ input,
    from ← skip_ws input;
    let terminator := token ";" PE_Semicolon in
    '(to, condition) ← terminated condition terminator from;
    span ← from_to from to;
    Ok (to, ConditionStatement span condition).

Definition keyword_if : BindParser NomSpan := token "if" PE_IfKeyword.
Definition keyword_else : BindParser NomSpan := token "else" PE_ElseKeyword.
Definition keyword_accept : BindParser NomSpan := token "accept" PE_AcceptKeyword.

Definition accept : BindParser Statement :=
  λ input,
    from ← skip_ws input;
    let list_start := token "{" PE_ListStart in
    let list_end := token "}" PE_ListEnd in
    let separator := token "," PE_ListSeparator in
    let values := separated_nonempty_list separator (ws condition_value) in
    let values := terminated values (opt separator) in
    let value_list := delimited list_start values list_end in
    '(to, (identifier, values)) ←
      preceded keyword_accept (tuple2 (ws compound_identifier) value_list) from;
    span ← from_to from to;
    Ok (to, Accept span identifier values).

Definition keyword_false : BindParser Statement :=
  λ input,
    from ← skip_ws input;
    let keyword := token "false" PE_FalseKeyword in
    let terminator := token ";" PE_Semicolon in
    '(to, _) ← terminated keyword terminator from;
    span ← from_to from to;
    Ok (to, False_ span).

Definition keyword_true : BindParser Statement :=
  λ input,
    from ← skip_ws input;
    let keyword := token "true" PE_TrueKeyword in
    let terminator := token ";" PE_Semicolon in
    '(to, _) ← terminated keyword terminator from;
    span ← from_to from to;
    Ok (to, True_ span).

(** [if_statement], [statement_block] and [statement] call each other.  The
    first two are given over the parser of the statements inside. *)
Section nested.
Context (statement : BindParser Statement).

Definition statement_block_with : BindParser (list Statement) :=
  let block_start := token "{" PE_IfBlockStart in
  let block_end := token "}" PE_IfBlockEnd in
  delimited block_start (many1 (ws statement)) block_end.

Definition if_statement_with : BindParser Statement :=
  λ input,
    from ← skip_ws input;
    let if_block := tuple2 (preceded keyword_if condition) statement_block_with in
    let if_blocks := separated_nonempty_list keyword_else if_block in
    let else_block := preceded keyword_else statement_block_with in
    '(input, blocks) ← if_blocks from;
    '(to, else_block) ← else_block input;
    span ← from_to from to;
    Ok (to, If span blocks else_block).
End nested.

(** A nested statement starts after the ["{"] of its block, so the length of
    the input bounds the depth. *)
Fixpoint statement_fuel (fuel : nat) : BindParser Statement :=
  match fuel with
  | O => λ _, Panic
  | S fuel =>
    alt [condition_statement; if_statement_with (statement_fuel fuel); accept; keyword_false; keyword_true]
  end.

Definition statement : BindParser Statement :=
  λ input, statement_fuel (S (length (fragment input))) input.

Definition statement_block : BindParser (list Statement) := statement_block_with statement.

Definition rules : BindParser RulesAst :=
  λ input,
    '(input, using_) ← ws using_list input;
    '(input, statements) ← many_until_eof (ws statement) input;
    if decide (statements = []) then Err (Error (PE_NoStatements (fragment input))) else
    Ok (input, mkRulesAst using_ statements).

(** ** Composite rules *)

Definition keyword_composite : BindParser NomSpan := token "composite" PE_CompositeKeyword.
Definition keyword_node : BindParser NomSpan := token "node" PE_NodeKeyword.
Definition keyword_primary : BindParser NomSpan := token "primary" PE_PrimaryKeyword.

(** [composite_name]. *)
Definition parse_composite_name : BindParser CompoundIdentifier :=
  let terminator := token ";" PE_Semicolon in
  delimited keyword_composite (ws compound_identifier) terminator.

(** [node_name]. *)
Definition parse_node_name : BindParser rstring := map_parser_err (pmap quoted fragment) PE_InvalidNodeName.

Definition node : BindParser (bool * rstring * list Statement) :=
  λ input,
    '(input, keywords) ← tuple2 (opt keyword_primary) keyword_node input;
    let is_primary := bool_decide (is_Some keywords.1) in
    '(input, node_name) ← ws parse_node_name input;
    '(input, statements) ← statement_block input;
    Ok (input, (is_primary, node_name, statements)).

(** The loop that sorts the nodes: the primary node if any, the others in order,
    and the names seen. *)
Definition sort_node (input : NomSpan)
    (st : option CompositeAstNode * list CompositeAstNode * gset rstring)
    (n : bool * rstring * list Statement) :
    outcome (NomErr BindParserError)
      (option CompositeAstNode * list CompositeAstNode * gset rstring) :=
  let '(primary_node, other_nodes, node_names) := st in
  let '(is_primary, name, statements) := n in
  if bool_decide (name ∈ node_names) then Err (Error (PE_DuplicateNodeName (fragment input))) else
  let node_names := {[name]} ∪ node_names in
  if is_primary then
    match primary_node with
    | Some _ => Err (Error (PE_OnePrimaryNode (fragment input)))
    | None => Ok (Some (mkCompositeAstNode name statements), other_nodes, node_names)
    end
  else Ok (primary_node, other_nodes ++ [mkCompositeAstNode name statements], node_names).

Definition sort_nodes : BindParser (CompositeAstNode * list CompositeAstNode) :=
  λ input,
    '(input, nodes) ← many_until_eof (ws node) input;
    if decide (nodes = []) then Err (Error (PE_NoNodes (fragment input))) else
    '(primary_node, other_nodes, _) ← try_fold (sort_node input) (None, [], ∅) nodes;
    match primary_node with
    | Some primary_node => Ok (input, (primary_node, other_nodes))
    | None => Err (Error (PE_OnePrimaryNode (fragment input)))
    end.

Definition composite : BindParser CompositeAst :=
  pmap (tuple3 (ws parse_composite_name) (ws using_list) sort_nodes)
    (λ '(name, using_, (primary_node, nodes)), mkCompositeAst name using_ primary_node nodes).

End parsers.

(** ** Entry points *)

#[local] Existing Instance machine.

(** [bind_rules::Ast::try_from]. *)
Definition rules_try_from (input : rstring) : outcome BindParserError RulesAst := run_parser rules input.

(** [bind_composite::Ast::try_from]. *)
Definition composite_try_from (input : rstring) : outcome BindParserError CompositeAst :=
  run_parser composite input.
