(* ===== verification/LibraryParser.v ===== *)
(** The parser of bind libraries: the functions of
    [src/devices/lib/bind/src/parser/bind_library.rs]. *)
From Stdlib Require Import ZArith Lia.
From stdpp Require Import base gmap strings countable list.
From S2P Require Import Prelude Nom ParserCommon BindLibrary CommonParser.
Local Open Scope Z_scope.

Section parsers.
Context `{!Counters}.

Definition keyword_extend : BindParser NomSpan := ws (tag (str "extend")).
Definition keyword_uint : BindParser ValueType := pvalue Number (token "uint" PE_Type).
Definition keyword_string : BindParser ValueType := pvalue Str (token "string" PE_Type).
Definition keyword_bool : BindParser ValueType := pvalue Bool (token "bool" PE_Type).
Definition keyword_enum : BindParser ValueType := pvalue Enum (token "enum" PE_Type).

Definition value_list {O} (f : BindParser O) : BindParser (list O) :=
  λ input,
    let separator := token "," PE_ListSeparator in
    let values := separated_nonempty_list separator f in
    let values := terminated values (opt separator) in
    '(input, vals_input) ←
      map_parser_err (terminated (take_until (str ";")) (tag (str ";"))) PE_Semicolon input;
    if decide (fragment vals_input = []) then Ok (input, []) else
    let list_start := token "{" PE_ListStart in
    let list_end := token "}" PE_ListEnd in
    '(_, result) ← delimited list_start (ws values) list_end vals_input;
    Ok (input, result).

Definition number_value_list : BindParser (list Value) :=
  let value := separated_pair (ws CommonParser.identifier) (token "=" PE_Assignment) (ws numeric_literal) in
  value_list (pmap value (λ '(ident, val), NumberV ident val)).

Definition string_value_list : BindParser (list Value) :=
  let value := separated_pair (ws CommonParser.identifier) (token "=" PE_Assignment) (ws string_literal) in
  value_list (pmap value (λ '(ident, val), StrV ident val)).

Definition bool_value_list : BindParser (list Value) :=
  let value := separated_pair (ws CommonParser.identifier) (token "=" PE_Assignment) (ws bool_literal) in
  value_list (pmap value (λ '(ident, val), BoolV ident val)).

Definition enum_value_list : BindParser (list Value) :=
  value_list (pmap (ws CommonParser.identifier) EnumV).

Definition declaration : BindParser Declaration :=
  λ input,
    '(input, extends) ← opt keyword_extend input;
    '(input, value_type) ← alt [keyword_uint; keyword_string; keyword_bool; keyword_enum] input;
    '(input, identifier) ← ws compound_identifier input;
    let value_parser :=
      match value_type with
      | Number => number_value_list
      | Str => string_value_list
      | Bool => bool_value_list
      | Enum => enum_value_list
      end in
    '(input, vals) ← value_parser input;
    Ok (input, mkDeclaration identifier value_type (bool_decide (is_Some extends)) vals).

Definition library_name : BindParser CompoundIdentifier :=
  let keyword := token "library" PE_LibraryKeyword in
  let terminator := token ";" PE_Semicolon in
  delimited keyword (ws compound_identifier) terminator.

Definition library : BindParser Ast :=
  pmap (tuple3 (ws library_name) (ws using_list) (many_until_eof (ws declaration)))
    (λ '(name, using_, declarations), mkAst name using_ declarations).

End parsers.

#[local] Existing Instance machine.

(** [bind_library::Ast::try_from]. *)
Definition library_try_from (input : rstring) : outcome BindParserError Ast := run_parser library input.
