(* ===== verification/DeviceSpecification.v ===== *)
(** Device specifications
    ([src/devices/lib/bind/src/debugger/device_specification.rs]). *)
From Stdlib Require Import ZArith.
From stdpp Require Import base gmap strings countable list.
From S2P Require Import Prelude Nom ParserCommon CommonParser.
Local Open Scope Z_scope.

Record Property := mkDeviceProperty {
  property_key : CompoundIdentifier;
  property_value : Value;
}.

Record DeviceSpecification := mkDeviceSpecification {
  properties : list Property;
}.

#[export] Instance Property_eq_dec : EqDecision Property.
Proof. solve_decision. Defined.

Section parsers.
Context `{!Counters}.

(** [property]. *)
Definition device_property : BindParser Property :=
  λ input,
    let key := ws compound_identifier in
    let separator := token "=" PE_Assignment in
    '(input, (key, value)) ← separated_pair key separator condition_value input;
    Ok (input, mkDeviceProperty key value).

Definition device_specification : BindParser DeviceSpecification :=
  λ input,
    '(input, properties) ← many_until_eof (ws device_property) input;
    Ok (input, mkDeviceSpecification properties).

Definition property_from_pair (key value : NomSpan) :
    outcome (NomErr BindParserError) (NomSpan * NomSpan * Property) :=
  '(key_remaining, key) ← compound_identifier key;
  if negb (bool_decide (fragment key_remaining = []))
  then Err (Error (PE_Eof (fragment key_remaining))) else
  '(value_remaining, value) ← condition_value value;
  if negb (bool_decide (fragment value_remaining = []))
  then Err (Error (PE_Eof (fragment value_remaining))) else
  Ok (key_remaining, value_remaining, mkDeviceProperty key value).

End parsers.

#[local] Existing Instance machine.

(** [DeviceSpecification::from_str]. *)
Definition DeviceSpecification_from_str (input : rstring) : outcome BindParserError DeviceSpecification :=
  run_parser device_specification input.

(** [DeviceSpecification::new]. *)
Definition new_device_specification : DeviceSpecification := mkDeviceSpecification [].

Definition add_property (spec : DeviceSpecification) (key value : rstring) :
    outcome BindParserError DeviceSpecification :=
  match property_from_pair (new_span key) (new_span value) with
  | Ok (_, property) => Ok (mkDeviceSpecification (properties spec ++ [property]))
  | Err (Error e) => Err e
  | Err (Failure e) => Err e
  | Err Incomplete => Panic
  | Panic => Panic
  end.
