(* ===== verification/ParserTotal.v ===== *)
(** The parsers of the bind grammars are total: none of them panics.  The
    [panic!] of [many_until_eof], the slices of [Span::from_to] and the
    [unreachable!]s are never reached, and every loop and recursion ends.  On texts
    shorter than 2^31 bytes the machine counters of lines and nested comments do
    not overflow, and the parsers agree with those that count without bounds. *)
From Stdlib Require Import ZArith Lia.
From stdpp Require Import base gmap strings countable list.
From S2P Require Import Prelude Format Nom NomCorrect BindLibrary ParserCommon BindRules.
From S2P Require Import CommonParser RulesParser LibraryParser.
From S2P Require Import DeviceSpecification.
Local Open Scope Z_scope.

#[local] Existing Instance unbounded.

(** A well-behaved parser on one input. *)
Lemma good_well {E O} b i (p : Parser E O) : good b (S (length (fragment i))) p → well b i (p i).
Proof. intros Hp. apply Hp. lia. Qed.

(** Solves [good] goals from the hints; the flag is computed last. *)
Ltac good_auto := eapply good_sub; [eauto 20 with parsers|done].

(** One step of a parser written as a sequence of binds. *)
Ltac well_step :=
  eapply well_sub; [eapply well_bind; [apply good_well; eauto 20 with parsers|intros ? ? _ ? ?]|].

(** ** The common parsers *)

Lemma map_parser_err_good {O} b n (p : PairParser O) f : good b n p → good b n (map_parser_err p f).
Proof.
  intros Hp i Hi. specialize (Hp i Hi). unfold map_parser_err. by destruct (p i) as [[]|[|[]|[]]|].
Qed.
#[export] Hint Resolve map_parser_err_good : parsers.

(** Where a comment ends, with unbounded counters. *)
Fixpoint comment_end (s : rstring) (stack : Z) : Z * rstring :=
  match s with
  | first :: (second :: r) as rest =>
    if (first =? 0x2f) && (second =? 0x2a) then comment_end r (stack + 1)
    else if (first =? 0x2a) && (second =? 0x2f) then
      if stack - 1 =? 0 then (0, r) else comment_end r (stack - 1)
    else comment_end rest stack
  | _ => (stack, [])
  end.

(** The loop goes on with two or with one byte less. *)
Lemma comment_ind (P : rstring → Prop) :
  P [] → (∀ a, P [a]) → (∀ a b r, P r → P (b :: r) → P (a :: b :: r)) → ∀ s, P s.
Proof.
  intros H0 H1 H2 s. enough (P s ∧ ∀ a, P (a :: s)) by tauto.
  induction s as [|b s [IH IH']]; [auto|]. split; [done|]. intros a. apply H2; auto.
Qed.

Lemma comment_loop_unbounded {E} s stack : comment_loop (E := E) s stack = Ok (comment_end s stack).
Proof.
  revert stack. induction s as [|a|a b r IH1 IH2] using comment_ind; intros stack; [done..|].
  cbn [comment_loop comment_end open_comment unbounded]. destruct (_ && _); [apply IH1|].
  destruct (_ && _); [destruct (_ =? 0); [done|apply IH1]|apply IH2].
Qed.

Lemma comment_end_length s stack : (length (comment_end s stack).2 <= length s)%nat.
Proof.
  revert stack. induction s as [|a|a b r IH1 IH2] using comment_ind; intros stack; [cbn; lia..|].
  cbn [comment_end]. destruct (_ && _); [etransitivity; [apply IH1|cbn; lia]|].
  destruct (_ && _); [destruct (_ =? 0); [cbn; lia|]; etransitivity; [apply IH1|cbn; lia]|].
  etransitivity; [apply IH2|cbn; lia].
Qed.

Lemma multiline_comment_good n : good true n multiline_comment.
Proof.
  intros i _. unfold multiline_comment. change true with (true || false). eapply well_bind.
  - apply good_well. apply (tag_good (str "/*")).
  - intros i' a _ _ _. pose proof (comment_end_length (fragment i') 1) as Hl.
    rewrite comment_loop_unbounded. cbn [mbind outcome_bind].
    destruct (comment_end _ _) as [stack rest]. cbn in Hl. case_match; [done|].
    eapply well_sub; [apply well_slice; lia|done].
Qed.
#[export] Hint Resolve multiline_comment_good : parsers.

Lemma singleline_comment_good n : good true n singleline_comment.
Proof. unfold singleline_comment. good_auto. Qed.
#[export] Hint Resolve singleline_comment_good : parsers.

Lemma comment_or_whitespace_good n : good false n comment_or_whitespace.
Proof.
  unfold comment_or_whitespace. eapply pvalue_good, many0_good, (alt_good true); [|done].
  repeat constructor; auto with parsers. apply pvalue_good. apply split_at_position1_good.
Qed.
#[export] Hint Resolve comment_or_whitespace_good : parsers.

Lemma ws_good {O} b n (f : BindParser O) : good b n f → good b n (ws f).
Proof. intros Hf. apply (preceded_good false b); auto with parsers. Qed.
#[export] Hint Resolve ws_good : parsers.

Lemma well_skip_ws {O} b i (k : NomSpan → IResult BindParserError O) :
  (∀ from, after i from → well b from (k from)) → well b i (from ← skip_ws i; k from).
Proof.
  intros Hk. unfold skip_ws.
  pose proof (good_well false i _ (comment_or_whitespace_good _)) as Hw.
  destruct (comment_or_whitespace i) as [[from []]|[]|]; try done. cbn. destruct Hw as [Ha _].
  specialize (Hk from Ha). destruct (k from) as [[j o]|[]|]; try done. destruct Hk as [Ha' Hb].
  split; [by eapply after_trans|]. intros Ht. specialize (Hb Ht). apply after_length in Ha. lia.
Qed.

(** A span between an input and a suffix of it is a prefix of the input. *)
Lemma from_to_Ok {E} from to :
  after from to →
  from_to (E := E) from to = Ok (mkSpan (location_offset from) (location_line from)
    (take (length (fragment from) - length (fragment to)) (fragment from))).
Proof.
  intros (n & Hn & ->). unfold from_to. cbn [slice_from location_offset].
  rewrite length_slice_from, (proj2 (Z.ltb_ge _ _)) by lia.
  rewrite (proj2 (Z.ltb_ge _ _)) by (unfold len; lia). cbn. repeat f_equal; lia.
Qed.

Lemma well_from_to {O} b from to i (k : Span → O) :
  after from to → well (E := BindParserError) b i (Ok (to, ())) →
  well (E := BindParserError) b i (span ← from_to from to; Ok (to, k span)).
Proof. intros Ha Hw. by rewrite from_to_Ok. Qed.

Lemma until_eof_loop_good {O} n (f : BindParser O) fuel i result :
  good true n f → (length (fragment i) < n)%nat → (length (fragment i) < fuel)%nat →
  well false i (until_eof_loop f fuel i result).
Proof.
  intros Hf. revert i result. induction fuel as [|fuel IH]; intros i result Hi Hfuel; [lia|].
  cbn [until_eof_loop].
  pose proof (good_well false i _ (comment_or_whitespace_good _)) as Hw. unfold skip_ws.
  destruct (comment_or_whitespace i) as [[from []]|[]|]; try done. cbn [mbind outcome_bind].
  case_decide; [done|].
  change false with (false || false). eapply well_bind; [eapply well_sub; [by apply Hf|done]|].
  intros i' a Hok Ha _. specialize (Hf i Hi). rewrite Hok in Hf. destruct Hf as [_ Hlt].
  specialize (Hlt eq_refl). case_decide; [lia|]. apply IH; lia.
Qed.

Lemma many_until_eof_good {O} n (f : BindParser O) : good true n f → good false n (many_until_eof f).
Proof. intros Hf i Hi. apply (until_eof_loop_good n); [done..|lia]. Qed.
#[export] Hint Resolve many_until_eof_good : parsers.

(** ** Literals and identifiers *)

Lemma quoted_good n : good true n quoted.
Proof. unfold quoted. good_auto. Qed.
#[export] Hint Resolve quoted_good : parsers.

Lemma string_literal_good n : good true n string_literal.
Proof. unfold string_literal. good_auto. Qed.

Lemma numeric_literal_good n : good true n numeric_literal.
Proof.
  unfold numeric_literal. apply map_parser_err_good, alt_good; [|done].
  repeat constructor; apply map_res_good; [|apply split_at_position1_good].
  apply (preceded_good true true); [apply (tag_good (str "0x"))|apply split_at_position1_good].
Qed.

Lemma bool_literal_good n : good true n bool_literal.
Proof.
  unfold bool_literal. apply map_parser_err_good, alt_good; [|done].
  repeat constructor; apply pvalue_good; [apply (tag_good (str "true"))|apply (tag_good (str "false"))].
Qed.
#[export] Hint Resolve string_literal_good numeric_literal_good bool_literal_good : parsers.

Lemma run_le p s : (run p s <= length s)%nat.
Proof. induction s as [|b s IH]; cbn; [lia|]. destruct (p b); lia. Qed.

Lemma re_matches_le r s n : n ∈ re_matches r s → (n <= length s)%nat.
Proof.
  revert s n. induction r as [p|p|r1 IH1 r2 IH2|r IH]; intros s n; cbn [re_matches].
  - destruct s as [|b s]; [set_solver|]. destruct (p b); [|set_solver]. cbn. set_solver by lia.
  - intros Hn. apply elem_of_reverse, elem_of_seq in Hn. pose proof (run_le p s). lia.
  - intros (m & (k & -> & Hk)%list_elem_of_fmap & Hm)%list_elem_of_bind.
    apply IH1 in Hm. apply IH2 in Hk. rewrite length_drop in Hk. lia.
  - intros [Hn|Hn]%elem_of_app; [by apply IH|]. set_solver by lia.
Qed.

Lemma identifier_re_pos s n : re_find identifier_re s = Some n → (0 < n <= length s)%nat.
Proof.
  intros Hn. unfold re_find in Hn. apply head_Some_elem_of in Hn. split; [|by eapply re_matches_le].
  cbn [identifier_re re_matches] in Hn.
  apply list_elem_of_bind in Hn as (m & (k & -> & _)%list_elem_of_fmap & Hm).
  destruct s as [|b s]; [set_solver|]. destruct (is_letter b); set_solver by lia.
Qed.

Lemma identifier_good n : good true n CommonParser.identifier.
Proof.
  intros i _. unfold CommonParser.identifier. destruct (re_find _ _) as [m|] eqn:Hm; [|done].
  apply identifier_re_pos in Hm. eapply well_sub; [apply well_slice; lia|]. by destruct m; [lia|].
Qed.
#[export] Hint Resolve identifier_good : parsers.

(** The list of a separated list parser has its first element. *)
Lemma separated_loop_nonempty {E A B} `{!ParseError E} (sep : Parser E B) (f : Parser E A) fuel i res i' l :
  separated_loop sep f fuel i res = Ok (i', l) → res ≠ [] → l ≠ [].
Proof.
  revert i res. induction fuel as [|fuel IH]; intros i res; cbn; [done|].
  destruct (sep i) as [[i1 o]|[|e|e]|]; try done; [|by intros [= <- <-]].
  case_decide; [done|].
  destruct (f i1) as [[i2 o2]|[|e|e]|]; try done; [|by intros [= <- <-]].
  case_decide; [done|]. intros Hok _. eapply IH; [exact Hok|]. by destruct res.
Qed.

Lemma separated_nonempty {E A B} `{!ParseError E} (sep : Parser E B) (f : Parser E A) i i' l :
  separated_nonempty_list sep f i = Ok (i', l) → l ≠ [].
Proof.
  unfold separated_nonempty_list. intros H. apply bind_Ok_iff in H as ([i1 o] & _ & H).
  case_decide; [done|]. by eapply separated_loop_nonempty.
Qed.

Lemma compound_identifier_good n : good true n compound_identifier.
Proof.
  intros i _. unfold compound_identifier. change true with (true || false).
  eapply well_bind; [apply good_well, (separated_nonempty_list_good true true); auto with parsers;
    apply (tag_good (str "."))|].
  intros i' l Hl _ _. apply separated_nonempty in Hl.
  destruct (last l) eqn:Hlast; [apply well_Ok|]. by apply last_None in Hlast.
Qed.
#[export] Hint Resolve compound_identifier_good : parsers.

Lemma condition_value_good n : good true n condition_value.
Proof.
  intros i _. unfold condition_value.
  match goal with |- well _ _ (match alt ?ps _ with _ => _ end) =>
    assert (good true (S (length (fragment i))) (alt ps)) as Hw end.
  { apply alt_good; [|done]. repeat constructor; apply pmap_good; auto with parsers. }
  specialize (Hw i ltac:(lia)). by destruct (alt _ i) as [[]|[]|].
Qed.
#[export] Hint Resolve condition_value_good : parsers.

Lemma token_good t f n : good (negb (length (str t) =? 0)%nat) n (token t f).
Proof. apply ws_good, map_parser_err_good, tag_good. Qed.
#[export] Hint Resolve token_good : parsers.

Lemma using_include_good n : good true n using_include.
Proof.
  intros i _. unfold using_include.
  well_step; [well_step; [apply well_Ok|by intros]|done].
Qed.
#[export] Hint Resolve using_include_good : parsers.

Lemma using_list_good n : good false n using_list.
Proof. unfold using_list. good_auto. Qed.
#[export] Hint Resolve using_list_good : parsers.

(** ** Bind rules *)

Lemma condition_op_good n : good true n condition_op.
Proof.
  unfold condition_op. apply map_parser_err_good, alt_good; [|done].
  repeat constructor; apply pvalue_good; [apply (tag_good (str "=="))|apply (tag_good (str "!="))].
Qed.
#[export] Hint Resolve condition_op_good : parsers.

Ltac after_tac := eauto 6 using after_trans, after_refl.

Lemma condition_good n : good true n condition.
Proof.
  intros i _. unfold condition. apply well_skip_ws. intros from _.
  well_step; [well_step; [well_step; [apply well_from_to; [after_tac|apply well_Ok]|]|]|]; by intros.
Qed.
#[export] Hint Resolve condition_good : parsers.

Lemma condition_statement_good n : good true n condition_statement.
Proof.
  intros i _. unfold condition_statement. apply well_skip_ws. intros from _.
  well_step; [apply well_from_to; [done|apply well_Ok]|by intros].
Qed.

Lemma accept_good n : good true n accept.
Proof.
  intros i _. unfold accept. apply well_skip_ws. intros from _.
  well_step; [|by intros]. case_match. apply well_from_to; [done|apply well_Ok].
Qed.

Lemma keyword_false_good n : good true n keyword_false.
Proof.
  intros i _. unfold keyword_false. apply well_skip_ws. intros from _.
  well_step; [apply well_from_to; [done|apply well_Ok]|by intros].
Qed.

Lemma keyword_true_good n : good true n keyword_true.
Proof.
  intros i _. unfold keyword_true. apply well_skip_ws. intros from _.
  well_step; [apply well_from_to; [done|apply well_Ok]|by intros].
Qed.
#[export] Hint Resolve condition_statement_good accept_good keyword_false_good keyword_true_good : parsers.

(** The statements of a block start after its opening brace. *)
Lemma statement_block_with_good n st :
  good true n st → good true (S n) (statement_block_with st).
Proof.
  intros Hst. unfold statement_block_with. eapply delimited_nested; eauto with parsers.
Qed.

Lemma if_statement_with_good n st : good true n st → good true (S n) (if_statement_with st).
Proof.
  intros Hst i Hi. unfold if_statement_with. apply well_skip_ws. intros from Ha.
  pose proof (after_length _ _ Ha). pose proof (statement_block_with_good n st Hst) as Hb.
  change true with (true || true). eapply well_bind.
  - eapply separated_nonempty_list_good; [apply token_good| |instantiate (1 := S n); lia].
    eapply tuple2_good; [|exact Hb]. eapply preceded_good; [apply token_good|auto with parsers].
  - intros i1 blocks _ Ha1 _. pose proof (after_length _ _ Ha1).
    change true with (true || false). eapply well_bind.
    + eapply (preceded_good true true (S n)); [apply (token_good "else")|exact Hb|lia].
    + intros to els _ Ha2 _. apply well_from_to; [by eapply after_trans|apply well_Ok].
Qed.

Lemma statement_fuel_good n : good true n (statement_fuel n).
Proof.
  induction n as [|n IH]; [intros i Hi; lia|]. cbn [statement_fuel].
  apply alt_good; [|done]. repeat constructor; auto with parsers. by apply if_statement_with_good.
Qed.

Lemma statement_good n : good true n statement.
Proof. intros i _. unfold statement. apply statement_fuel_good. lia. Qed.
#[export] Hint Resolve statement_good : parsers.

Lemma statement_block_good n : good true n statement_block.
Proof. apply (good_mono _ _ (S n)); [apply statement_block_with_good; auto with parsers|lia]. Qed.
#[export] Hint Resolve statement_block_good : parsers.

Lemma rules_good n : good false n rules.
Proof.
  intros i _. unfold rules.
  well_step; [well_step; [case_decide; [|apply well_Ok]; done|by intros]|by intros].
Qed.

(** ** Libraries *)

(** The text up to a semicolon is no longer than the input. *)
Lemma until_semicolon_length f i i' v :
  map_parser_err (terminated (take_until (str ";")) (tag (str ";"))) f i = Ok (i', v) →
  (length (fragment v) <= length (fragment i))%nat.
Proof.
  unfold map_parser_err, terminated, take_until. destruct (find_substring _ _) as [k|] eqn:Hk; [|done].
  cbn. unfold tag. destruct (compare_str _ _); try done. cbn. intros [= _ <-]. cbn.
  rewrite length_take. lia.
Qed.

Lemma value_list_good {O} b n (f : BindParser O) : good b n f → good true n (value_list f).
Proof.
  intros Hf i Hi. unfold value_list. apply (well_sub (true || false)); [|done].
  eapply well_bind.
  { apply good_well. eapply map_parser_err_good, (terminated_good false true);
      [apply take_until_good|apply (tag_good (str ";"))]. }
  intros i' v Hok _ _. apply until_semicolon_length in Hok. case_decide; [apply well_Ok|].
  match goal with |- well _ _ (?p v ≫= _) => assert (good false n p) as Hw end.
  { eapply good_sub; [eapply delimited_good; eauto 10 with parsers|done]. }
  specialize (Hw v ltac:(lia)).
  destruct (delimited _ _ _ v) as [[]|[]|]; try done. apply well_Ok.
Qed.

Lemma number_value_list_good n : good true n number_value_list.
Proof. unfold number_value_list. eapply value_list_good. eauto 10 with parsers. Qed.

Lemma string_value_list_good n : good true n string_value_list.
Proof. unfold string_value_list. eapply value_list_good. eauto 10 with parsers. Qed.

Lemma bool_value_list_good n : good true n bool_value_list.
Proof. unfold bool_value_list. eapply value_list_good. eauto 10 with parsers. Qed.

Lemma enum_value_list_good n : good true n enum_value_list.
Proof. unfold enum_value_list. eapply value_list_good. eauto 10 with parsers. Qed.
#[export] Hint Resolve number_value_list_good string_value_list_good bool_value_list_good
  enum_value_list_good : parsers.

Lemma value_type_good n : good true n (alt [keyword_uint; keyword_string; keyword_bool; keyword_enum]).
Proof. apply alt_good; [|done]. repeat constructor; apply pvalue_good; apply token_good. Qed.

Lemma keyword_extend_good n : good true n keyword_extend.
Proof. apply ws_good. apply (tag_good (str "extend")). Qed.
#[export] Hint Resolve value_type_good keyword_extend_good : parsers.

Lemma declaration_good n : good true n declaration.
Proof.
  intros i _. unfold declaration.
  well_step; [|intros _; apply orb_true_r].
  well_step; [|by intros].
  well_step; [|by intros].
  eapply well_sub; [eapply well_bind; [|intros; apply well_Ok]|by intros].
  apply good_well. destruct a0; auto with parsers.
Qed.
#[export] Hint Resolve declaration_good : parsers.

Lemma library_good n : good true n library.
Proof. unfold library, library_name. good_auto. Qed.

(** ** Composites *)

Lemma node_good n : good true n node.
Proof.
  intros i _. unfold node, keyword_primary, keyword_node, parse_node_name.
  well_step; [|by intros].
  well_step; [|by intros].
  well_step; [|by intros]. apply well_Ok.
Qed.
#[export] Hint Resolve node_good : parsers.

Lemma sort_node_errors input st n :
  match sort_node input st n with Panic => False | Err Incomplete => False | _ => True end.
Proof. unfold sort_node. destruct st as [[? ?] ?], n as [[? ?] ?]. by repeat case_match. Qed.

Lemma sort_nodes_good n : good false n sort_nodes.
Proof.
  intros i _. unfold sort_nodes. well_step; [|by intros]. case_decide; [done|].
  match goal with |- well _ ?j (try_fold ?f ?st ?l ≫= _) =>
    assert (match try_fold f st l with Panic => False | Err Incomplete => False | _ => True end) as Hw end.
  { clear. generalize (@None CompositeAstNode, @nil CompositeAstNode, (∅ : gset rstring)) as st.
    induction a as [|x a IH]; intros st; [done|]. cbn. pose proof (sort_node_errors i' st x).
    destruct (sort_node _ _ _) as [|[]|]; try done. apply IH. }
  destruct (try_fold _ _ _) as [[[p others] names]|[]|]; try done. cbn.
  destruct p; [apply well_Ok|done].
Qed.
#[export] Hint Resolve sort_nodes_good : parsers.

Lemma composite_good n : good true n composite.
Proof. unfold composite, parse_composite_name, keyword_composite. good_auto. Qed.

(** ** The conversions from strings *)

Lemma run_parser_no_panic {O} b (p : BindParser O) input : (∀ n, good b n p) → no_panic (run_parser p input).
Proof.
  intros Hp. unfold run_parser. pose proof (good_well b (new_span input) p (Hp _)) as Hw.
  by destruct (p (new_span input)) as [[]|[]|].
Qed.

Lemma device_property_good n : good true n device_property.
Proof.
  intros i _. unfold device_property. well_step; [|by intros]. case_match. apply well_Ok.
Qed.
#[export] Hint Resolve device_property_good : parsers.

Lemma device_specification_good n : good false n device_specification.
Proof. intros i _. unfold device_specification. well_step; [apply well_Ok|by intros]. Qed.

(** ** Machine counters *)

(** The line of the span, and of everything after it, is far from overflowing. *)
Definition counts_fit (i : NomSpan) : Prop :=
  1 <= location_line i ∧ location_line i + len (fragment i) <= 2 ^ 31.

(** The outcomes are the same, and a success leaves such a span. *)
Definition same {E A} (r r' : IResult E A) : Prop :=
  r = r' ∧ ∀ i o, r' = Ok (i, o) → counts_fit i.

Definition agree {E A} (p q : Parser E A) : Prop := ∀ i, counts_fit i → same (p i) (q i).

Create HintDb agree.

Lemma newlines_le s : (newlines s <= length s)%nat.
Proof. apply length_filter. Qed.

Lemma counts_fit_slice n i : counts_fit i → counts_fit (slice_from n i).
Proof.
  intros [H1 H2]. unfold counts_fit, slice_from, len in *. cbn. pose proof (newlines_le (take n (fragment i))) as Hn.
  rewrite length_take in Hn. rewrite length_drop. lia.
Qed.

Lemma slice_machine {E} n i : counts_fit i → @slice machine E n i = Ok (slice_from n i).
Proof.
  intros [H1 H2]. unfold slice. cbn [add_lines machine]. pose proof (newlines_le (take n (fragment i))) as Hn.
  rewrite length_take in Hn. unfold len in H2. unfold as_u32, u32_size. rewrite Z.mod_small by lia.
  by rewrite (proj2 (Z.ltb_lt _ _)) by lia.
Qed.

Lemma same_Ok {E A} i (o : A) : counts_fit i → same (E := E) (Ok (i, o)) (Ok (i, o)).
Proof. intros Hi. split; [done|]. by intros ? ? [= <- _]. Qed.

Lemma same_Err {E A} e : same (E := E) (A := A) (Err e) (Err e).
Proof. by split. Qed.

Lemma same_Panic {E A} : same (E := E) (A := A) Panic Panic.
Proof. by split. Qed.

Lemma same_bind {E A B} (r r' : IResult E A) (k k' : NomSpan * A → IResult E B) :
  same r r' → (∀ i a, counts_fit i → same (k (i, a)) (k' (i, a))) → same (r ≫= k) (r' ≫= k').
Proof.
  intros [-> Hr] Hk. destruct r' as [[i a]|e|]; cbn [mbind outcome_bind]; [|apply same_Err|apply same_Panic].
  by eapply Hk, Hr.
Qed.

(** A step without counters. *)
Lemma same_pure {E A B} (m : outcome (NomErr E) A) (k k' : A → IResult E B) :
  (∀ a, same (k a) (k' a)) → same (m ≫= k) (m ≫= k').
Proof. intros Hk. destruct m; cbn [mbind outcome_bind]; [apply Hk|apply same_Err|apply same_Panic]. Qed.

Lemma same_slice {E B} n i (k k' : NomSpan → IResult E B) : counts_fit i →
  (∀ j, counts_fit j → same (k j) (k' j)) → same (@slice machine _ n i ≫= k) (@slice unbounded _ n i ≫= k').
Proof. intros Hi Hk. rewrite slice_machine by done. by apply Hk, counts_fit_slice. Qed.

Lemma same_take_split {E} n i : counts_fit i →
  same (E := E) (@take_split machine _ n i) (@take_split unbounded _ n i).
Proof. intros Hi. apply same_slice; [done|]. intros j Hj. by apply same_Ok. Qed.

#[export] Hint Resolve same_Ok same_Err same_Panic same_take_split : agree.

Section combinators.
Context {E : Type} `{!ParseError E}.

Lemma error_kind_same {A} i k : same (A := A) (error_kind (E := E) i k) (error_kind i k).
Proof. apply same_Err. Qed.
#[local] Hint Resolve error_kind_same : agree.

Lemma pmap_agree {A B} (p q : Parser E A) (f : A → B) : agree p q → agree (pmap p f) (pmap q f).
Proof. intros H i Hi. apply same_bind; [by apply H|]. auto with agree. Qed.

Lemma map_res_agree {A B} (p q : Parser E A) (f : A → option B) : agree p q → agree (map_res p f) (map_res q f).
Proof. intros H i Hi. apply same_bind; [by apply H|]. intros j a Hj. destruct (f a); auto with agree. Qed.

Lemma opt_agree {A} (p q : Parser E A) : agree p q → agree (opt p) (opt q).
Proof.
  intros H i Hi. destruct (H i Hi) as [Hpq Hok]. unfold opt. rewrite Hpq.
  destruct (q i) as [[j a]|[]|]; eauto with agree.
Qed.

Lemma pvalue_agree {A B} (v : A) (p q : Parser E B) : agree p q → agree (pvalue v p) (pvalue v q).
Proof. intros H i Hi. apply same_bind; [by apply H|]. auto with agree. Qed.

Lemma preceded_agree {A B} (p q : Parser E A) (p' q' : Parser E B) :
  agree p q → agree p' q' → agree (preceded p p') (preceded q q').
Proof. intros H H' i Hi. apply same_bind; [by apply H|]. auto. Qed.

Lemma tuple2_agree {A B} (p q : Parser E A) (p' q' : Parser E B) :
  agree p q → agree p' q' → agree (tuple2 p p') (tuple2 q q').
Proof. intros H H' i Hi. apply same_bind; [by apply H|]. intros j a Hj. apply same_bind; [by apply H'|]. auto with agree. Qed.

Lemma terminated_agree {A B} (p q : Parser E A) (p' q' : Parser E B) :
  agree p q → agree p' q' → agree (terminated p p') (terminated q q').
Proof. intros H H' i Hi. apply same_bind; [by apply H|]. intros j a Hj. apply same_bind; [by apply H'|]. auto with agree. Qed.

Lemma tuple3_agree {A B C} (p q : Parser E A) (p' q' : Parser E B) (p'' q'' : Parser E C) :
  agree p q → agree p' q' → agree p'' q'' → agree (tuple3 p p' p'') (tuple3 q q' q'').
Proof.
  intros H H' H'' i Hi. apply same_bind; [by apply H|]. intros j a Hj. apply same_bind; [by apply H'|].
  intros j' b Hj'. apply same_bind; [by apply H''|]. auto with agree.
Qed.

Lemma delimited_agree {A B C} (p q : Parser E A) (p' q' : Parser E B) (p'' q'' : Parser E C) :
  agree p q → agree p' q' → agree p'' q'' → agree (delimited p p' p'') (delimited q q' q'').
Proof.
  intros H H' H'' i Hi. apply same_bind; [by apply H|]. intros j a Hj. apply same_bind; [by apply H'|].
  intros j' b Hj'. apply same_bind; [by apply H''|]. auto with agree.
Qed.

Lemma separated_pair_agree {A B C} (p q : Parser E A) (p' q' : Parser E B) (p'' q'' : Parser E C) :
  agree p q → agree p' q' → agree p'' q'' → agree (separated_pair p p' p'') (separated_pair q q' q'').
Proof.
  intros H H' H'' i Hi. apply same_bind; [by apply H|]. intros j a Hj. apply same_bind; [by apply H'|].
  intros j' b Hj'. apply same_bind; [by apply H''|]. auto with agree.
Qed.

Lemma alt_agree {A} (ps qs : list (Parser E A)) : Forall2 agree ps qs → agree (alt ps) (alt qs).
Proof.
  intros H i Hi. unfold alt. generalize (@None E) as err. induction H as [|p q ps qs Hpq _ IH]; intros err; cbn [alt_choice].
  - destruct err; auto with agree.
  - destruct (Hpq i Hi) as [-> Hok]. destruct (q i) as [[j a]|[|e|e]|]; eauto with agree.
Qed.

Lemma many_loop_agree {A} kind (p q : Parser E A) fuel i acc : agree p q → counts_fit i →
  same (many_loop kind p fuel i acc) (many_loop kind q fuel i acc).
Proof.
  intros H. revert i acc. induction fuel as [|fuel IH]; intros i acc Hi; [apply same_Panic|]. cbn [many_loop].
  destruct (H i Hi) as [-> Hok]. destruct (q i) as [[j a]|[|e|e]|]; auto with agree.
  case_decide; [apply error_kind_same|]. by eapply IH, Hok.
Qed.

Lemma many0_agree {A} (p q : Parser E A) : agree p q → agree (many0 p) (many0 q).
Proof. intros H i Hi. by apply many_loop_agree. Qed.

Lemma many1_agree {A} (p q : Parser E A) : agree p q → agree (many1 p) (many1 q).
Proof.
  intros H i Hi. unfold many1. destruct (H i Hi) as [-> Hok]. destruct (q i) as [[j a]|[|e|e]|]; auto with agree.
  apply many_loop_agree; [done|]. by eapply Hok.
Qed.

Lemma separated_loop_agree {A B} (s s' : Parser E B) (p q : Parser E A) fuel i res :
  agree s s' → agree p q → counts_fit i → same (separated_loop s p fuel i res) (separated_loop s' q fuel i res).
Proof.
  intros Hs H. revert i res. induction fuel as [|fuel IH]; intros i res Hi; [apply same_Panic|]. cbn [separated_loop].
  destruct (Hs i Hi) as [-> Hok]. destruct (s' i) as [[j b]|[|e|e]|]; auto with agree.
  case_decide; [apply error_kind_same|]. destruct (H j (Hok _ _ eq_refl)) as [-> Hok'].
  destruct (q j) as [[j' a]|[|e|e]|]; auto with agree.
  case_decide; [apply error_kind_same|]. by eapply IH, Hok'.
Qed.

Lemma separated_nonempty_list_agree {A B} (s s' : Parser E B) (p q : Parser E A) :
  agree s s' → agree p q → agree (separated_nonempty_list s p) (separated_nonempty_list s' q).
Proof.
  intros Hs H i Hi. apply same_bind; [by apply H|]. intros j a Hj. case_decide; [apply error_kind_same|].
  by apply separated_loop_agree.
Qed.

(** ** Basic parsers *)

Abbreviation twin p := (agree (p machine) (p unbounded)).

Lemma split_at_position1_agree f k : twin (λ C, @split_at_position1_complete E _ C f k).
Proof.
  intros i Hi. unfold split_at_position1_complete.
  destruct (position f (fragment i)) as [[|n]|]; [|by apply same_take_split|case_decide; [|by apply same_take_split]]; apply error_kind_same.
Qed.

Lemma tag_agree t : twin (λ C, @tag E _ C t).
Proof. intros i Hi. unfold tag. destruct (compare_str _ _); [by apply same_take_split|apply error_kind_same..]. Qed.

Lemma take_until_agree t : twin (λ C, @take_until E _ C t).
Proof. intros i Hi. unfold take_until. destruct (find_substring _ _); [by apply same_take_split|apply error_kind_same]. Qed.

Lemma char_agree c : twin (λ C, @char E _ C c).
Proof.
  intros i Hi. unfold char. destruct (fragment i) as [|b r]; [apply error_kind_same|].
  destruct (b =? c); [|apply error_kind_same]. apply same_slice; auto with agree.
Qed.

Lemma one_of_agree l : twin (λ C, @one_of E _ C l).
Proof.
  intros i Hi. unfold one_of. destruct (fragment i) as [|b r]; [apply error_kind_same|].
  destruct (bool_decide _); [|apply error_kind_same]. apply same_slice; auto with agree.
Qed.

Lemma not_line_ending_agree : twin (@not_line_ending E _).
Proof.
  intros i Hi. unfold not_line_ending. destruct (position _ _) as [n|]; [|by apply same_take_split].
  destruct (drop n _) as [|x r]; [apply same_Panic|]. destruct (x =? 0x0d); [|by apply same_take_split].
  destruct (compare_str _ _); [by apply same_take_split|apply error_kind_same..].
Qed.

Lemma line_ending_agree : twin (@line_ending E _).
Proof.
  intros i Hi. unfold line_ending. destruct (compare_str _ [0x0a]); [by apply same_take_split|apply error_kind_same|].
  destruct (compare_str _ _); [by apply same_take_split|apply error_kind_same..].
Qed.

Lemma escaped_agree {A B} (p q : Parser E A) c (p' q' : Parser E B) : agree p q → agree p' q' →
  agree (@escaped E _ machine _ _ p c p') (@escaped E _ unbounded _ _ q c q').
Proof.
  intros H H' input Hin. unfold escaped.
  enough (∀ fuel i, counts_fit i → same (@escaped_loop E _ machine _ _ p c p' input fuel i)
    (@escaped_loop E _ unbounded _ _ q c q' input fuel i)) by auto.
  induction fuel as [|fuel IH]; intros i Hi; [apply same_Panic|]. cbn [escaped_loop].
  assert (same (E := E) (rest ← @slice machine _ (length (fragment input)) input; Ok (rest, input))
    (rest ← @slice unbounded _ (length (fragment input)) input; Ok (rest, input))) as Hwhole by (apply same_slice; auto with agree).
  destruct (fragment i) as [|b r]; [done|]. destruct (H i Hi) as [-> Hok]. destruct (q i) as [[j a]|[|e|e]|]; auto with agree.
  - case_decide; [done|]. by eapply IH, Hok.
  - destruct (b =? c).
    + case_decide; [apply error_kind_same|]. apply same_slice; [done|]. intros j Hj.
      destruct (H' j Hj) as [-> Hok']. destruct (q' j) as [[j' a]|e'|]; auto with agree.
      case_decide; [done|]. by eapply IH, Hok'.
    + destruct (_ =? 0); [apply error_kind_same|by apply same_take_split].
Qed.
End combinators.

Abbreviation twin p := (agree (p machine) (p unbounded)).

#[export] Hint Resolve pmap_agree map_res_agree opt_agree pvalue_agree preceded_agree tuple2_agree terminated_agree
  tuple3_agree delimited_agree separated_pair_agree alt_agree many0_agree many1_agree separated_nonempty_list_agree
  split_at_position1_agree tag_agree take_until_agree char_agree one_of_agree not_line_ending_agree
  line_ending_agree escaped_agree Forall2_cons_2 Forall2_nil_2 : agree.

(** Looks through the definitions of the simple parsers. *)
Ltac twins := cbn beta; eauto 40 with agree.

(** ** The common parsers *)

Lemma map_parser_err_agree {O} (p q : PairParser O) f : agree p q → agree (map_parser_err p f) (map_parser_err q f).
Proof.
  intros H i Hi. unfold map_parser_err. destruct (H i Hi) as [-> Hok].
  destruct (q i) as [[j a]|[|[]|[]]|]; eauto with agree.
Qed.
#[export] Hint Resolve map_parser_err_agree : agree.

Lemma comment_loop_machine {E} (s : rstring) stack : 1 <= stack → stack + len s <= 2 ^ 31 →
  @comment_loop machine E s stack = Ok (comment_end s stack).
Proof.
  revert stack. induction s as [|a|a b r IH1 IH2] using comment_ind; intros stack H0 Hs; [done..|].
  rewrite !len_cons in Hs. rewrite len_cons in IH2. pose proof (len_nonneg r).
  cbn [comment_loop comment_end open_comment machine]. destruct (_ && _).
  { rewrite (proj2 (Z.ltb_lt _ _)) by lia. apply IH1; lia. }
  destruct (_ && _); [destruct (Z.eqb_spec (stack - 1) 0); [done|]; apply IH1; lia|apply IH2; lia].
Qed.

Lemma multiline_comment_agree : twin (@multiline_comment).
Proof.
  intros i Hi. apply same_bind; [by apply tag_agree|]. intros j a [H1 H2]. cbn beta iota.
  rewrite comment_loop_machine, comment_loop_unbounded by lia. apply same_pure. intros [stack rest].
  destruct (negb _); [apply same_Err|]. apply same_slice; [done|]. auto with agree.
Qed.
#[export] Hint Resolve multiline_comment_agree : agree.

Lemma singleline_comment_agree : twin (@singleline_comment).
Proof. unfold singleline_comment. twins. Qed.
#[export] Hint Resolve singleline_comment_agree : agree.

Lemma comment_or_whitespace_agree : twin (@comment_or_whitespace).
Proof. unfold comment_or_whitespace, multispace1. twins. Qed.
#[export] Hint Resolve comment_or_whitespace_agree : agree.

Lemma ws_agree {O} (p q : BindParser O) : agree p q → agree (@ws machine O p) (@ws unbounded O q).
Proof. intros H. unfold ws. twins. Qed.
#[export] Hint Resolve ws_agree : agree.

Lemma same_skip_ws {O} i (k k' : NomSpan → IResult BindParserError O) : counts_fit i →
  (∀ from, counts_fit from → same (k from) (k' from)) →
  same (from ← @skip_ws machine i; k from) (from ← @skip_ws unbounded i; k' from).
Proof.
  intros Hi Hk. unfold skip_ws. destruct (comment_or_whitespace_agree i Hi) as [-> Hok].
  destruct (comment_or_whitespace i) as [[j a]|e|]; cbn [mbind outcome_bind]; [|apply same_Err|apply same_Panic].
  by eapply Hk, Hok.
Qed.

Lemma many_until_eof_agree {O} (p q : BindParser O) : agree p q →
  agree (@many_until_eof machine O p) (@many_until_eof unbounded O q).
Proof.
  intros H. enough (∀ fuel i result, counts_fit i →
    same (@until_eof_loop machine O p fuel i result) (@until_eof_loop unbounded O q fuel i result)) as Hloop
    by (intros i Hi; by apply Hloop).
  induction fuel as [|fuel IH]; intros i result Hi; [apply same_Panic|]. cbn [until_eof_loop].
  apply same_skip_ws; [done|]. intros rest Hrest. case_decide.
  - apply same_skip_ws; [done|]. auto with agree.
  - apply same_bind; [by apply H|]. intros j a Hj. case_decide; [apply same_Panic|by apply IH].
Qed.
#[export] Hint Resolve many_until_eof_agree : agree.

(** ** Literals, identifiers and includes *)

Lemma agree_at {E A} (p q : Parser E A) i : agree p q → counts_fit i → same (p i) (q i).
Proof. auto. Qed.

(** Goes through a sequence of steps. *)
Ltac same_steps :=
  repeat (cbn beta iota zeta; first
    [ apply same_skip_ws; [assumption|intros]
    | apply same_bind; [lazymatch goal with |- same (?p ?i) (?q ?i) => apply (agree_at p q i); [solve [twins]|assumption] end|intros]
    | apply same_pure; intros
    | by auto with agree ]).


Lemma quoted_agree : twin (@quoted).
Proof. unfold quoted, is_not. twins. Qed.
#[export] Hint Resolve quoted_agree : agree.

Lemma string_literal_agree : twin (@string_literal).
Proof. unfold string_literal. twins. Qed.

Lemma numeric_literal_agree : twin (@numeric_literal).
Proof. unfold numeric_literal, digit1, hex_digit1. twins. Qed.

Lemma bool_literal_agree : twin (@bool_literal).
Proof. unfold bool_literal. twins. Qed.
#[export] Hint Resolve string_literal_agree numeric_literal_agree bool_literal_agree : agree.

Lemma identifier_agree : twin (@CommonParser.identifier).
Proof.
  intros i Hi. unfold CommonParser.identifier. destruct (re_find _ _); [|apply same_Err]. apply same_slice; auto with agree.
Qed.
#[export] Hint Resolve identifier_agree : agree.

Lemma compound_identifier_agree : twin (@compound_identifier).
Proof.
  intros i Hi. unfold compound_identifier. same_steps. destruct (last _); auto with agree.
Qed.
#[export] Hint Resolve compound_identifier_agree : agree.

Lemma condition_value_agree : twin (@condition_value).
Proof.
  intros i Hi. unfold condition_value.
  lazymatch goal with |- same (match ?p ?i with _ => _ end) (match ?q ?i with _ => _ end) =>
    assert (agree p q) as H by twins; destruct (H i Hi) as [-> Hok]; destruct (q i) as [[j a]|e|]
  end; eauto with agree.
Qed.
#[export] Hint Resolve condition_value_agree : agree.

Lemma token_agree t f : twin (λ C, @token C t f).
Proof. unfold token. twins. Qed.
#[export] Hint Resolve token_agree : agree.

Lemma using_include_agree : twin (@using_include).
Proof. intros i Hi. unfold using_include. same_steps. Qed.
#[export] Hint Resolve using_include_agree : agree.

Lemma using_list_agree : twin (@using_list).
Proof. unfold using_list. twins. Qed.
#[export] Hint Resolve using_list_agree : agree.

(** ** Bind rules *)

Lemma condition_op_agree : twin (@condition_op).
Proof. unfold condition_op. twins. Qed.
#[export] Hint Resolve condition_op_agree : agree.

Lemma condition_agree : twin (@condition).
Proof. intros i Hi. unfold condition. same_steps. Qed.
#[export] Hint Resolve condition_agree : agree.

Lemma condition_statement_agree : twin (@condition_statement).
Proof. intros i Hi. unfold condition_statement. same_steps. Qed.

Lemma accept_agree : twin (@accept).
Proof.
  intros i Hi. unfold accept, keyword_accept. same_steps. destruct a as [identifier values]. same_steps.
Qed.

Lemma keyword_false_agree : twin (@keyword_false).
Proof. intros i Hi. unfold keyword_false. same_steps. Qed.

Lemma keyword_true_agree : twin (@keyword_true).
Proof. intros i Hi. unfold keyword_true. same_steps. Qed.
#[export] Hint Resolve condition_statement_agree accept_agree keyword_false_agree keyword_true_agree : agree.

Lemma statement_block_with_agree p q : agree p q →
  agree (@statement_block_with machine p) (@statement_block_with unbounded q).
Proof. intros H. unfold statement_block_with. twins. Qed.
#[export] Hint Resolve statement_block_with_agree : agree.

Lemma if_statement_with_agree p q : agree p q → agree (@if_statement_with machine p) (@if_statement_with unbounded q).
Proof. intros H i Hi. unfold if_statement_with, keyword_if, keyword_else. same_steps. Qed.
#[export] Hint Resolve if_statement_with_agree : agree.

Lemma statement_fuel_agree fuel : twin (λ C, @statement_fuel C fuel).
Proof. induction fuel as [|fuel IH]; [intros i _; apply same_Panic|]. cbn [statement_fuel]. twins. Qed.

Lemma statement_agree : twin (@statement).
Proof. intros i Hi. by apply statement_fuel_agree. Qed.
#[export] Hint Resolve statement_agree : agree.

Lemma rules_agree : twin (@rules).
Proof. intros i Hi. unfold rules. same_steps. case_decide; auto with agree. Qed.

(** ** Composite rules *)

Lemma parse_composite_name_agree : twin (@parse_composite_name).
Proof. unfold parse_composite_name, keyword_composite. twins. Qed.

Lemma parse_node_name_agree : twin (@parse_node_name).
Proof. unfold parse_node_name. twins. Qed.
#[export] Hint Resolve parse_composite_name_agree parse_node_name_agree : agree.

Lemma node_agree : twin (@node).
Proof. intros i Hi. unfold node, keyword_primary, keyword_node, statement_block. same_steps. Qed.
#[export] Hint Resolve node_agree : agree.

Lemma sort_nodes_agree : twin (@sort_nodes).
Proof.
  intros i Hi. unfold sort_nodes. same_steps. case_decide; [apply same_Err|]. apply same_pure. intros [[[] ?] ?]; auto with agree.
Qed.
#[export] Hint Resolve sort_nodes_agree : agree.

Lemma composite_agree : twin (@composite).
Proof. unfold composite. twins. Qed.

(** ** Libraries *)

Lemma same_bind_fits {E A B} (r r' : IResult E A) (k k' : NomSpan * A → IResult E B) (P : A → Prop) :
  same r r' → (∀ i a, r' = Ok (i, a) → P a) → (∀ i a, counts_fit i → P a → same (k (i, a)) (k' (i, a))) →
  same (r ≫= k) (r' ≫= k').
Proof.
  intros [-> Hr] HP Hk. destruct r' as [[i a]|e|]; cbn [mbind outcome_bind]; [|apply same_Err|apply same_Panic].
  apply Hk; [by eapply Hr|by eapply HP].
Qed.

(** The text before a semicolon is a part of the input. *)
Lemma values_fit i j o : counts_fit i →
  map_parser_err (terminated (take_until (str ";")) (tag (str ";"))) PE_Semicolon i = Ok (j, o) → counts_fit o.
Proof.
  intros [H1 H2]. unfold map_parser_err, terminated, take_until. destruct (find_substring _ _) as [n|]; [|done].
  rewrite take_split_unbounded. cbn [mbind outcome_bind]. destruct (tag _ _) as [[j' x]|[|[]|[]]|]; cbn; try done.
  intros [= <- <-]. unfold counts_fit, slice_to, len in *. cbn. rewrite length_take. lia.
Qed.

Lemma value_list_agree {O} (p q : BindParser O) : agree p q → agree (@value_list machine O p) (@value_list unbounded O q).
Proof.
  intros H i Hi. unfold value_list. eapply (same_bind_fits _ _ _ _ counts_fit).
  - match goal with |- same (?p ?i) (?q ?i) => apply (agree_at p q i); [twins|done] end.
  - intros j a. by apply values_fit.
  - intros j vals Hj Hvals. cbn beta iota. case_decide; [auto with agree|]. same_steps.
Qed.
#[export] Hint Resolve value_list_agree : agree.

Lemma number_value_list_agree : twin (@number_value_list).
Proof. unfold number_value_list. twins. Qed.
Lemma string_value_list_agree : twin (@string_value_list).
Proof. unfold string_value_list. twins. Qed.
Lemma bool_value_list_agree : twin (@bool_value_list).
Proof. unfold bool_value_list. twins. Qed.
Lemma enum_value_list_agree : twin (@enum_value_list).
Proof. unfold enum_value_list. twins. Qed.
#[export] Hint Resolve number_value_list_agree string_value_list_agree bool_value_list_agree enum_value_list_agree : agree.

Lemma declaration_agree : twin (@declaration).
Proof.
  intros i Hi. unfold declaration, keyword_extend, keyword_uint, keyword_string, keyword_bool, keyword_enum.
  do 3 (apply same_bind; [lazymatch goal with |- same (?p ?i) (?q ?i) => apply (agree_at p q i); [solve [twins]|assumption] end|];
    intros; cbn beta iota zeta). apply same_bind; [|auto with agree].
  match goal with |- same (match ?v with _ => _ end _) _ => destruct v end;
    match goal with |- same (?p ?i) (?q ?i) => apply (agree_at p q i); [solve [twins]|assumption] end.
Qed.
#[export] Hint Resolve declaration_agree : agree.

Lemma library_agree : twin (@library).
Proof. unfold library, library_name. twins. Qed.

(** ** Device specifications *)

Lemma device_property_agree : twin (@device_property).
Proof.
  intros i Hi. unfold device_property. same_steps. match goal with a : (CompoundIdentifier * _)%type |- _ => destruct a end. same_steps.
Qed.
#[export] Hint Resolve device_property_agree : agree.

Lemma device_specification_agree : twin (@device_specification).
Proof. intros i Hi. unfold device_specification. same_steps. Qed.

(** ** Short texts *)

Lemma new_span_fits s : len s < 2 ^ 31 → counts_fit (new_span s).
Proof. intros Hs. unfold counts_fit, new_span. cbn. lia. Qed.

Lemma run_parser_agree {O} (p q : BindParser O) s : agree p q → len s < 2 ^ 31 → run_parser p s = run_parser q s.
Proof. intros H Hs. unfold run_parser. by destruct (H _ (new_span_fits s Hs)) as [-> _]. Qed.

(** On a text shorter than 2^31 bytes no counter overflows. *)
Lemma rules_try_from_short s : len s < 2 ^ 31 → rules_try_from s = run_parser rules s.
Proof. apply run_parser_agree, rules_agree. Qed.

Lemma library_try_from_short s : len s < 2 ^ 31 → library_try_from s = run_parser library s.
Proof. apply run_parser_agree, library_agree. Qed.

Lemma composite_try_from_short s : len s < 2 ^ 31 → composite_try_from s = run_parser composite s.
Proof. apply run_parser_agree, composite_agree. Qed.

Lemma DeviceSpecification_from_str_short s : len s < 2 ^ 31 →
  DeviceSpecification_from_str s = run_parser device_specification s.
Proof. apply run_parser_agree, device_specification_agree. Qed.

(** ** Totality *)

Lemma rules_try_from_total s : len s < 2 ^ 31 → no_panic (rules_try_from s).
Proof. intros Hs. rewrite rules_try_from_short by done. apply (run_parser_no_panic false), rules_good. Qed.

Lemma library_try_from_total s : len s < 2 ^ 31 → no_panic (library_try_from s).
Proof. intros Hs. rewrite library_try_from_short by done. apply (run_parser_no_panic true), library_good. Qed.

Lemma composite_try_from_total s : len s < 2 ^ 31 → no_panic (composite_try_from s).
Proof. intros Hs. rewrite composite_try_from_short by done. apply (run_parser_no_panic true), composite_good. Qed.

Lemma DeviceSpecification_from_str_total s : len s < 2 ^ 31 → no_panic (DeviceSpecification_from_str s).
Proof.
  intros Hs. rewrite DeviceSpecification_from_str_short by done.
  apply (run_parser_no_panic false), device_specification_good.
Qed.
#[export] Hint Resolve rules_try_from_total library_try_from_total composite_try_from_total
  DeviceSpecification_from_str_total : outcomes.

Lemma add_property_total spec key value : len key < 2 ^ 31 → len value < 2 ^ 31 → no_panic (add_property spec key value).
Proof.
  intros Hlk Hlv. unfold add_property, property_from_pair.
  pose proof (good_well true (new_span key) _ (compound_identifier_good _)) as Hk.
  pose proof (good_well true (new_span value) _ (condition_value_good _)) as Hv.
  destruct (compound_identifier_agree _ (new_span_fits key Hlk)) as [-> _].
  destruct (compound_identifier (new_span key)) as [[k ki]|[]|]; try done. cbn.
  destruct (negb _); [done|]. cbn. destruct (condition_value_agree _ (new_span_fits value Hlv)) as [-> _].
  destruct (condition_value (new_span value)) as [[v vi]|[]|]; try done. cbn. by destruct (negb _).
Qed.

(** C23: The parsers of rules, libraries, composite rules and device specifications
    terminate on every text shorter than 2^31 bytes, with a value or an error: no loop or
    nested statement uses up the rounds that the length of the text allows, the [u32] line
    counter and the [i32] depth of comments do not overflow, and nothing else panics. *)
Theorem parsers_terminate input : len input < 2 ^ 31 →
  no_panic (rules_try_from input) ∧ no_panic (library_try_from input) ∧
  no_panic (composite_try_from input) ∧ no_panic (DeviceSpecification_from_str input).
Proof. auto with outcomes. Qed.

Lemma parsers_terminate_witness :
  no_panic (rules_try_from (str "fuchsia.BIND_PROTOCOL == 1;")) ∧ no_panic (library_try_from (str "/* /* */")).
Proof.
  split.
  - by apply (parsers_terminate (str "fuchsia.BIND_PROTOCOL == 1;")).
  - by apply (parsers_terminate (str "/* /* */")).
Defined.
