(* ===== verification/Grammar.v ===== *)
(** The concrete syntax of bind rules, as relations between a text and the
    syntax tree it stands for: whitespace and comments, identifiers, literals,
    conditions and statements, with the location of every span.  The parsers of
    [parser/common.rs], [parser/bind_rules.rs] and [parser/bind_composite.rs] are
    shown to recognise exactly these texts. *)
From Stdlib Require Import ZArith Lia.
From stdpp Require Import base gmap strings countable list.
From S2P Require Import Prelude Format Nom ParserCommon BindRules CommonParser.
Local Open Scope Z_scope.

(** ** Locations *)

(** An offset in the source and a line number. *)
Definition Location : Type := Z * Z.

(** The location after the text [t]. *)
Definition advance (p : Location) (t : rstring) : Location :=
  (p.1 + len t, p.2 + Z.of_nat (newlines t)).

Definition at_location (p : Location) (s : rstring) : NomSpan := mkNomSpan p.1 p.2 s.
Definition location_of (i : NomSpan) : Location := (location_offset i, location_line i).

(** The span of the text [t] at [p]. *)
Definition span_of (p : Location) (t : rstring) : Span := mkSpan p.1 p.2 t.

(** ** Whitespace and comments *)

(** What closes a comment that is [depth] levels deep; comments nest. *)
Inductive comment_text : nat → rstring → Prop :=
| Comment_end : comment_text 1 (str "*/")
| Comment_close depth t : comment_text (S depth) t → comment_text (S (S depth)) (str "*/" ++ t)
| Comment_open depth t : comment_text (S depth) t → comment_text depth (str "/*" ++ t)
| Comment_char depth b t :
    comment_text depth t → ¬ str "*/" `prefix_of` b :: t → ¬ str "/*" `prefix_of` b :: t →
    comment_text depth (b :: t).

Inductive blank : rstring → Prop :=
| Blank_nil : blank []
| Blank_space b w : is_multispace b = true → blank w → blank (b :: w)
| Blank_line t e w :
    Forall (λ b, b ≠ 0x0d ∧ b ≠ 0x0a) t → e = [0x0a] ∨ e = [0x0d; 0x0a] → blank w →
    blank (str "//" ++ t ++ e ++ w)
| Blank_comment t w : comment_text 1 t → blank w → blank (str "/*" ++ t ++ w).

(** ** Identifiers and literals *)

(** A letter, then letters, digits and underscores; not an underscore last. *)
Definition segment (s : rstring) : bool :=
  match s, last s with
  | b :: r, Some e => is_letter b && forallb is_word r && is_alphanum e
  | _, _ => false
  end.

Definition ident_text (i : CompoundIdentifier) (t : rstring) : Prop :=
  t = to_string i ∧ Forall (λ s, segment s = true) (namespace i ++ [name i]).

Inductive number_text (n : Z) : rstring → Prop :=
| Number_decimal t :
    Forall (λ b, is_dec_digit b = true) t → from_str_radix 10 t = Some n → number_text n t
| Number_hexadecimal t :
    Forall (λ b, is_hex_digit b = true) t → from_str_radix 16 t = Some n →
    number_text n (str "0x" ++ t).

(** Text between quotes: a backslash comes before a backslash or a quote. *)
Inductive quotable : rstring → Prop :=
| Quotable_nil : quotable []
| Quotable_char b t : b ≠ 0x5c → b ≠ 0x22 → quotable t → quotable (b :: t)
| Quotable_escape b t : b = 0x5c ∨ b = 0x22 → quotable t → quotable (0x5c :: b :: t).

Definition quote_text (s : rstring) : rstring := 0x22 :: s ++ [0x22].

(** An identifier that starts like a boolean is taken for one. *)
Inductive value_text : Value → rstring → Prop :=
| Value_number n t : number_text n t → value_text (NumericLiteral n) t
| Value_string s : quotable s → s ≠ [] → value_text (StringLiteral s) (quote_text s)
| Value_true : value_text (BoolLiteral true) (str "true")
| Value_false : value_text (BoolLiteral false) (str "false")
| Value_identifier i t :
    ident_text i t → ¬ str "true" `prefix_of` t → ¬ str "false" `prefix_of` t →
    value_text (Identifier i) t.

(** ** Conditions and statements *)

Definition op_text (o : ConditionOp) : rstring :=
  match o with Equals => str "==" | NotEquals => str "!=" end.

Inductive condition_text (p : Location) : Condition → rstring → Prop :=
| Condition_text i ti w1 o w2 v tv :
    ident_text i ti → blank w1 → blank w2 → value_text v tv →
    let t := ti ++ w1 ++ op_text o ++ w2 ++ tv in
    condition_text p (mkCondition (span_of p t) i o v) t.

(** Elements separated by commas. *)
Inductive values_text {O} (R : O → rstring → Prop) : list O → rstring → Prop :=
| Values_one w v t : blank w → R v t → values_text R [v] (w ++ t)
| Values_more w v t w' vs ts :
    blank w → R v t → blank w' → values_text R vs ts →
    values_text R (v :: vs) (w ++ t ++ w' ++ str "," ++ ts).

(** A comma may follow the last one. *)
Inductive trailing_comma : rstring → Prop :=
| Comma_none : trailing_comma []
| Comma_one w : blank w → trailing_comma (w ++ str ",").

Inductive value_list_text {O} (R : O → rstring → Prop) : list O → rstring → Prop :=
| Value_list vs ts c w :
    values_text R vs ts → trailing_comma c → blank w →
    value_list_text R vs (str "{" ++ ts ++ c ++ w ++ str "}").

Inductive statement_text : Location → Statement → rstring → Prop :=
| Text_condition p c tc w :
    condition_text p c tc → blank w →
    let t := tc ++ w ++ str ";" in
    statement_text p (ConditionStatement (span_of p t) c) t
| Text_accept p i vs w1 ti w2 tl :
    blank w1 → ident_text i ti → blank w2 → value_list_text value_text vs tl →
    let t := str "accept" ++ w1 ++ ti ++ w2 ++ tl in
    statement_text p (Accept (span_of p t) i vs) t
| Text_if p bs tbs w1 w2 l tl :
    if_blocks_text p bs tbs → blank w1 → blank w2 →
    block_text (advance p (tbs ++ w1 ++ str "else" ++ w2)) l tl →
    let t := tbs ++ w1 ++ str "else" ++ w2 ++ tl in
    statement_text p (If (span_of p t) bs l) t
| Text_false p w :
    blank w → let t := str "false" ++ w ++ str ";" in statement_text p (False_ (span_of p t)) t
| Text_true p w :
    blank w → let t := str "true" ++ w ++ str ";" in statement_text p (True_ (span_of p t)) t
with if_block_text : Location → Condition * list Statement → rstring → Prop :=
| Text_if_block p w1 c tc w2 l tl :
    blank w1 → condition_text (advance p (str "if" ++ w1)) c tc → blank w2 →
    block_text (advance p (str "if" ++ w1 ++ tc ++ w2)) l tl →
    if_block_text p (c, l) (str "if" ++ w1 ++ tc ++ w2 ++ tl)
with if_blocks_text : Location → list (Condition * list Statement) → rstring → Prop :=
| Text_one_block p b t : if_block_text p b t → if_blocks_text p [b] t
| Text_more_blocks p b t w1 w2 bs ts :
    if_block_text p b t → blank w1 → blank w2 →
    if_blocks_text (advance p (t ++ w1 ++ str "else" ++ w2)) bs ts →
    if_blocks_text p (b :: bs) (t ++ w1 ++ str "else" ++ w2 ++ ts)
with block_text : Location → list Statement → rstring → Prop :=
| Text_block p l tl w :
    statements_text (advance p (str "{")) l tl → l ≠ [] → blank w →
    block_text p l (str "{" ++ tl ++ w ++ str "}")
with statements_text : Location → list Statement → rstring → Prop :=
| Text_no_statements p : statements_text p [] []
| Text_statements p w s t l tl :
    blank w → statement_text (advance p w) s t → statements_text (advance p (w ++ t)) l tl →
    statements_text p (s :: l) (w ++ t ++ tl).

(** ** Whole sources *)

(** The word [as] has to be apart from the identifier before it. *)
Inductive alias_text : option rstring → rstring → Prop :=
| Alias_none : alias_text None []
| Alias_some w1 w2 a :
    blank w1 → w1 ≠ [] → blank w2 → segment a = true →
    alias_text (Some a) (w1 ++ str "as" ++ w2 ++ a).

Inductive includes_text : list Include → rstring → Prop :=
| Includes_nil : includes_text [] []
| Includes_cons w1 w2 i ti a ta w3 us tus :
    blank w1 → blank w2 → ident_text i ti → alias_text a ta → blank w3 → includes_text us tus →
    includes_text (mkInclude i a :: us)
      (w1 ++ str "using" ++ w2 ++ ti ++ ta ++ w3 ++ str ";" ++ tus).

Inductive rules_text : RulesAst → rstring → Prop :=
| Rules_text us tus l tl w :
    includes_text us tus → statements_text (advance (0, 1) tus) l tl → l ≠ [] → blank w →
    rules_text (mkRulesAst us l) (tus ++ tl ++ w).
