(* ===== verification/ParserSound.v ===== *)
(** The parsers of bind rules are sound: a text they accept is in the grammar,
    with the syntax tree they return and the spans at their locations
    ([rules_try_from_sound]). *)
From Stdlib Require Import ZArith Lia.
From stdpp Require Import base gmap strings countable list.
From S2P Require Import Prelude Format Nom NomCorrect ParserCommon BindRules CommonParser.
From S2P Require Import RulesParser ParserTotal Grammar.
Local Open Scope Z_scope.

#[local] Existing Instance unbounded.

(** ** Locations *)

Lemma at_location_of i : at_location (location_of i) (fragment i) = i.
Proof. by destruct i. Qed.

Lemma advance_nil p : advance p [] = p.
Proof. destruct p as [o l]. unfold advance, len. cbn. f_equal; lia. Qed.

Lemma advance_app p s t : advance (advance p s) t = advance p (s ++ t).
Proof. unfold advance. cbn. rewrite len_app, newlines_app. f_equal; lia. Qed.

Lemma slice_from_at n p s :
  (n <= length s)%nat → slice_from n (at_location p s) = at_location (advance p (take n s)) (drop n s).
Proof.
  intros Hn. unfold slice_from, at_location, advance, len. cbn. by rewrite length_take_le.
Qed.

Lemma slice_from_text p t r : slice_from (length t) (at_location p (t ++ r)) = at_location (advance p t) r.
Proof.
  unfold slice_from, at_location, advance, len. cbn.
  by rewrite take_app_length, drop_app_length.
Qed.

Lemma slice_from_1 p b r : slice_from 1 (at_location p (b :: r)) = at_location (advance p [b]) r.
Proof. exact (slice_from_text p [b] r). Qed.

Lemma slice_to_text p t r : slice_to (length t) (at_location p (t ++ r)) = at_location p t.
Proof. unfold slice_to, at_location. cbn. by rewrite take_app_length. Qed.

Lemma from_to_text {E} p t r :
  from_to (E := E) (at_location p (t ++ r)) (at_location (advance p t) r) = Ok (span_of p t).
Proof.
  rewrite <- (slice_from_text p t r), from_to_Ok.
  - f_equal. unfold span_of. f_equal. rewrite length_slice_from. cbn. rewrite length_app.
    replace (_ - _)%nat with (length t) by lia. apply take_app_length.
  - apply after_slice_from. cbn. rewrite length_app. lia.
Qed.

(** ** What a parser reads *)

(** What [p] takes off its input, and the value it gives, are related by [R]. *)
Definition reads {E O} (R : Location → O → rstring → Prop) (p : Parser E O) : Prop :=
  ∀ l s i' o, p (at_location l s) = Ok (i', o) →
    ∃ t r, s = t ++ r ∧ i' = at_location (advance l t) r ∧ R l o t.

(** The same on a known parse, with the variables named. *)
Tactic Notation "read" hyp(H) "with" open_constr(lem) "as" simple_intropattern(t) simple_intropattern(r)
    simple_intropattern(HR) :=
  apply lem in H as (t & r & -> & -> & HR).

Lemma reads_weaken {E O} (R S : Location → O → rstring → Prop) (p : Parser E O) :
  (∀ l o t, R l o t → S l o t) → reads R p → reads S p.
Proof. intros HRS Hp l s i' o H. read H with Hp as t r HR. eauto 6. Qed.

(** Repeated. *)
Inductive many_text {O} (R : Location → O → rstring → Prop) : Location → list O → rstring → Prop :=
| Many_nil l : many_text R l [] []
| Many_cons l o t os ts :
    R l o t → many_text R (advance l t) os ts → many_text R l (o :: os) (t ++ ts).

(** Repeated, each time after a separator [S]. *)
Definition after_text {O} (S : rstring → Prop) (R : Location → O → rstring → Prop) :
    Location → O → rstring → Prop :=
  λ l o t, ∃ a b, t = a ++ b ∧ S a ∧ R (advance l a) o b.

Section combinators.
Context {E : Type} `{!ParseError E}.

Lemma tag_reads x : reads (λ _ o t, t = x) (tag (E := E) x).
Proof.
  intros l s i' o. unfold tag. cbn [fragment at_location].
  destruct (compare_str s x) eqn:Hc; try done.
  assert (∃ r, s = x ++ r) as [r ->].
  { revert s Hc. induction x as [|b x IH]; intros [|a s]; cbn; try done; eauto.
    destruct (Z.eqb_spec a b) as [->|]; [|done]. intros [r ->]%IH. by exists r. }
  rewrite ?take_split_unbounded. intros [= <- <-]. exists x, r. by rewrite slice_from_text.
Qed.

Lemma pmap_reads {A B} R (f : Parser E A) (g : A → B) :
  reads (λ l a t, R l (g a) t) f → reads R (pmap f g).
Proof.
  intros Hf l s i' o H. apply bind_Ok_iff in H as ([i1 a] & H & [= <- <-]).
  read H with Hf as t r HR. eauto 6.
Qed.

Lemma pvalue_reads {A B} R (v : A) (f : Parser E B) :
  reads (λ l _ t, R l v t) f → reads R (pvalue v f).
Proof.
  intros Hf l s i' o H. apply bind_Ok_iff in H as ([i1 a] & H & [= <- <-]).
  read H with Hf as t r HR. eauto 6.
Qed.

Lemma map_res_reads {A B} R (f : Parser E A) (g : A → option B) :
  reads (λ l a t, ∀ b, g a = Some b → R l b t) f → reads R (map_res f g).
Proof.
  intros Hf l s i' o H. apply bind_Ok_iff in H as ([i1 a] & H & Hg).
  destruct (g a) as [b|] eqn:Hb; [|done]. injection Hg as <- <-.
  read H with Hf as t r HR. eauto 6.
Qed.

Lemma preceded_reads {A B} (R : Location → A → rstring → Prop) (S : Location → B → rstring → Prop) f g :
  reads R f → reads S g →
  reads (E := E) (λ l b t, ∃ a t1 t2, t = t1 ++ t2 ∧ R l a t1 ∧ S (advance l t1) b t2) (preceded f g).
Proof.
  intros Hf Hg l s i' o H. apply bind_Ok_iff in H as ([i1 a] & H1 & H2).
  read H1 with Hf as t1 r1 HR. read H2 with Hg as t2 r2 HS.
  exists (t1 ++ t2), r2. rewrite app_assoc, advance_app. eauto 10.
Qed.

Lemma alt_reads {A} R (ps : list (Parser E A)) : Forall (reads R) ps → reads R (alt ps).
Proof.
  unfold alt. generalize (@None E) as err. induction ps as [|p ps IH]; intros err Hps l s i' o; cbn.
  - by destruct err.
  - apply Forall_cons in Hps as [Hp Hps].
    destruct (p _) as [[i1 a]|[|e|e]|] eqn:H; try done; [|by apply IH].
    intros [= <- <-]. by apply Hp.
Qed.

Lemma many_loop_reads {A} R kind (f : Parser E A) fuel l s acc i' os :
  reads R f → many_loop kind f fuel (at_location l s) acc = Ok (i', os) →
  ∃ os' t r, os = acc ++ os' ∧ s = t ++ r ∧ i' = at_location (advance l t) r ∧ many_text R l os' t.
Proof.
  intros Hf. revert l s acc. induction fuel as [|fuel IH]; intros l s acc H; cbn in H; [done|].
  destruct (f _) as [[i1 o]|[|e|e]|] eqn:H1; try done.
  - case_decide; [done|]. read H1 with Hf as t r HR. apply IH in H as (os' & t' & r' & -> & -> & -> & HM).
    exists (o :: os'), (t ++ t'), r'. rewrite <- !app_assoc, <- advance_app. repeat split; try done.
    by constructor.
  - injection H as <- <-. exists [], [], s. rewrite app_nil_r, advance_nil. repeat split. constructor.
Qed.

Lemma many0_reads {A} R (f : Parser E A) : reads R f → reads (many_text R) (many0 f).
Proof.
  intros Hf l s i' o H. apply (many_loop_reads R) in H as (os' & t & r & -> & -> & -> & HM); [|done].
  eauto 6.
Qed.

Lemma many1_reads {A} R (f : Parser E A) :
  reads R f → reads (λ l os t, many_text R l os t ∧ os ≠ []) (many1 f).
Proof.
  intros Hf l s i' o. unfold many1. destruct (f _) as [[i1 a]|[|e|e]|] eqn:H1; try done. intros H.
  read H1 with Hf as t r HR.
  apply (many_loop_reads R) in H as (os' & t' & r' & -> & -> & -> & HM); [|done].
  exists (t ++ t'), r'. rewrite <- app_assoc, <- advance_app. repeat split; try done. by constructor.
Qed.

Lemma separated_loop_reads {A B} (S : rstring → Prop) R (sep : Parser E B) (f : Parser E A)
    fuel l s acc i' os :
  reads (λ _ _ t, S t) sep → reads R f →
  separated_loop sep f fuel (at_location l s) acc = Ok (i', os) →
  ∃ os' t r, os = acc ++ os' ∧ s = t ++ r ∧ i' = at_location (advance l t) r ∧
    many_text (after_text S R) l os' t.
Proof.
  intros Hs Hf. revert l s acc. induction fuel as [|fuel IH]; intros l s acc H; cbn in H; [done|].
  assert (∀ i2 : NomSpan, Ok (E := NomErr E) (at_location l s, acc) = Ok (i', os) →
    ∃ os' t r, os = acc ++ os' ∧ s = t ++ r ∧ i' = at_location (advance l t) r ∧
      many_text (after_text S R) l os' t) as Hstop.
  { intros _ [= <- <-]. exists [], [], s. rewrite app_nil_r, advance_nil. repeat split. constructor. }
  destruct (sep _) as [[i1 b]|[|e|e]|] eqn:H1; try done; [|by apply Hstop].
  case_decide; [done|]. destruct (f _) as [[i2 o]|[|e|e]|] eqn:H2; try done; [|by apply Hstop].
  case_decide; [done|]. clear Hstop.
  read H1 with Hs as t1 r1 HS. read H2 with Hf as t2 r2 HR.
  apply IH in H as (os' & t' & r' & -> & -> & -> & HM).
  exists (o :: os'), ((t1 ++ t2) ++ t'), r'. rewrite advance_app in *. rewrite <- !app_assoc in *.
  rewrite <- !advance_app in *. repeat split; try done.
  rewrite app_assoc. constructor; [by exists t1, t2|]. by rewrite <- advance_app.
Qed.

Lemma separated_nonempty_list_reads {A B} (S : rstring → Prop) R (sep : Parser E B) (f : Parser E A) :
  reads (λ _ _ t, S t) sep → reads R f →
  reads (λ l os t, ∃ o os' t1 t2, os = o :: os' ∧ t = t1 ++ t2 ∧ R l o t1 ∧
           many_text (after_text S R) (advance l t1) os' t2) (separated_nonempty_list sep f).
Proof.
  intros Hs Hf l s i' os H. apply bind_Ok_iff in H as ([i1 o] & H1 & H). case_decide; [done|].
  read H1 with Hf as t1 r1 HR.
  apply (separated_loop_reads S R) in H as (os' & t2 & r2 & -> & -> & -> & HM); [|done..].
  exists (t1 ++ t2), r2. rewrite app_assoc, advance_app. eauto 12.
Qed.

(** A nonempty run of bytes that [p] does not stop at. *)
Lemma split_at_position1_reads p e :
  reads (λ _ o t, t ≠ [] ∧ fragment o = t ∧ Forall (λ b, p b = false) t)
    (split_at_position1_complete (E := E) p e).
Proof.
  intros l s i' o. unfold split_at_position1_complete. cbn [fragment at_location].
  assert (∀ n, position p s = Some n → Forall (λ b, p b = false) (take n s)) as Hpos.
  { clear. induction s as [|b s IH]; intros n; cbn; [done|]. destruct (p b) eqn:Hb.
    - intros [= <-]. constructor.
    - destruct (position p s) as [m|]; [|done]. intros [= <-]. cbn. constructor; eauto. }
  assert (position p s = None → Forall (λ b, p b = false) s) as Hnone.
  { clear. induction s as [|b s IH]; cbn; [done|]. destruct (p b) eqn:Hb; [done|].
    destruct (position p s); [done|]. intros _. constructor; auto. }
  destruct (position p s) as [[|n]|] eqn:Hp; [done|..].
  - rewrite ?take_split_unbounded. intros [= <- <-]. pose proof (position_lt _ _ _ Hp) as Hlt.
    exists (take (S n) s), (drop (S n) s). rewrite take_drop, slice_from_at by lia.
    split_and!; [done|done|by destruct s; cbn in *; [lia|]|done|by apply Hpos].
  - case_decide; [done|]. rewrite ?take_split_unbounded. intros [= <- <-]. exists s, [].
    rewrite app_nil_r, slice_from_at, firstn_all, drop_all by lia.
    split_and!; [done|done|done|cbn; by rewrite firstn_all|by apply Hnone].
Qed.
End combinators.

Lemma map_parser_err_reads {O} R (p : PairParser O) f : reads R p → reads R (map_parser_err p f).
Proof.
  intros Hp l s i' o. unfold map_parser_err. destruct (p _) as [[]|[|[]|[]]|] eqn:H; try done.
  intros [= <- <-]. by apply Hp.
Qed.

(** ** Whitespace and comments *)

Lemma comment_text_nonempty d t : comment_text d t → t ≠ [].
Proof. by destruct 1. Qed.

(** The loop closes the comment at depth [stack]. *)
Lemma comment_end_sound s stack r :
  0 < stack → comment_end s stack = (0, r) →
  ∃ t, s = t ++ r ∧ comment_text (Z.to_nat stack) t.
Proof.
  remember (length s) as n eqn:Hn. revert s stack Hn.
  induction n as [n IH] using lt_wf_ind. intros [|a [|b s]] stack -> Hpos; cbn [comment_end].
  - intros [= ->]. lia.
  - intros [= ->]. lia.
  - destruct ((a =? 47) && (b =? 42)) eqn:Hopen; [|destruct ((a =? 42) && (b =? 47)) eqn:Hclose].
    + apply andb_true_iff in Hopen as [->%Z.eqb_eq ->%Z.eqb_eq]. intros H.
      apply (IH (length s)) in H as (t & -> & Ht); [|cbn; lia|done|lia].
      exists (str "/*" ++ t). split; [done|]. apply Comment_open.
      by replace (S (Z.to_nat stack)) with (Z.to_nat (stack + 1)) by lia.
    + apply andb_true_iff in Hclose as [->%Z.eqb_eq ->%Z.eqb_eq]. case_match eqn:Hlast; bool_props.
      * intros [= ->]. exists (str "*/"). split; [done|].
        replace (Z.to_nat stack) with 1%nat by lia. constructor.
      * intros H. apply (IH (length s)) in H as (t & -> & Ht); [|cbn; lia|done|lia].
        exists (str "*/" ++ t). split; [done|].
        replace (Z.to_nat stack) with (S (S (Z.to_nat (stack - 2)))) by lia. apply Comment_close.
        by replace (S (Z.to_nat (stack - 2))) with (Z.to_nat (stack - 1)) by lia.
    + intros H. change (comment_end (b :: s) stack = (0, r)) in H.
      apply (IH (length (b :: s))) in H as (t & Hs & Ht); [|cbn; lia|done|lia].
      exists (a :: t). split; [by rewrite Hs|].
      destruct t as [|c t]; [by apply comment_text_nonempty in Ht|]. injection Hs as -> ->.
      constructor; [done|..]; intros [k [= -> -> _]]; done.
Qed.

Lemma multiline_comment_reads :
  reads (λ _ _ t, ∃ c, t = str "/*" ++ c ∧ comment_text 1 c) multiline_comment.
Proof.
  intros l s i' o H. apply bind_Ok_iff in H as ([i1 a] & H1 & H).
  apply tag_reads in H1 as (t & r & -> & -> & ->). cbn [fragment at_location] in H.
  rewrite comment_loop_unbounded in H. cbn [mbind outcome_bind] in H.
  destruct (comment_end r 1) as [stack rest] eqn:Hc. case_match eqn:Hz; [done|]. bool_props.
  destruct (Z.eqb_spec stack 0) as [->|]; [|done].
  apply comment_end_sound in Hc as (c & -> & Hc); [|lia].
  rewrite length_app in H. replace (_ + _ - _)%nat with (length c) in H by lia.
  rewrite slice_unbounded, slice_from_text, advance_app in H. injection H as <- <-.
  exists (str "/*" ++ c), rest. rewrite app_assoc. eauto 6.
Qed.

Lemma not_line_ending_reads :
  reads (E := BindParserError) (λ _ _ t, Forall (λ b, b ≠ 0x0d ∧ b ≠ 0x0a) t) not_line_ending.
Proof.
  intros l s i' o. unfold not_line_ending. cbn [fragment at_location].
  assert (∀ n, (n <= length s)%nat →
    (∀ k, position (λ c, (c =? 0x0d) || (c =? 0x0a)) s = Some k → (n <= k)%nat) →
    Forall (λ b, b ≠ 0x0d ∧ b ≠ 0x0a) (take n s)) as Hpos.
  { clear. induction s as [|b s IH]; intros [|n] Hn Hk; cbn; try constructor.
    - cbn in Hk. destruct ((b =? 13) || (b =? 10)) eqn:Hb; [specialize (Hk 0%nat eq_refl); lia|]. lia.
    - apply IH; [cbn in Hn; lia|]. intros k Hp. cbn in Hk.
      destruct ((b =? 13) || (b =? 10)); [specialize (Hk 0%nat eq_refl); lia|].
      rewrite Hp in Hk. specialize (Hk (S k) eq_refl). lia. }
  assert (∀ n, (n <= length s)%nat →
    (∀ k, position (λ c, (c =? 0x0d) || (c =? 0x0a)) s = Some k → (n <= k)%nat) →
    take_split (E := NomErr BindParserError) n (at_location l s) = Ok (i', o) →
    ∃ t r, s = t ++ r ∧ i' = at_location (advance l t) r ∧ Forall (λ b, b ≠ 0x0d ∧ b ≠ 0x0a) t) as Hok.
  { intros n Hn Hk. rewrite take_split_unbounded. intros [= <- _]. exists (take n s), (drop n s).
    rewrite take_drop, slice_from_at by done. auto. }
  destruct (position _ s) as [k|] eqn:Hk; [|apply Hok; [lia|done]].
  pose proof (position_lt _ _ _ Hk). destruct (drop k s) as [|x d]; [done|].
  destruct (x =? 13); [destruct (compare_str _ _); try done|]; apply Hok; try lia; by intros ? [= <-].
Qed.

Lemma line_ending_reads :
  reads (E := BindParserError) (λ _ _ t, t = [0x0a] ∨ t = [0x0d; 0x0a]) line_ending.
Proof.
  intros l s i' o. unfold line_ending. cbn [fragment at_location].
  destruct (compare_str s [10]) eqn:H1; [|done|].
  - intros H. assert (tag (E := BindParserError) [10] (at_location l s) = Ok (i', o)) as Ht
      by (unfold tag; cbn [fragment at_location]; by rewrite H1).
    apply tag_reads in Ht as (t & r & ? & ? & ->). eauto 6.
  - destruct (compare_str s [13; 10]) eqn:H2; try done.
    intros H. assert (tag (E := BindParserError) [13; 10] (at_location l s) = Ok (i', o)) as Ht
      by (unfold tag; cbn [fragment at_location]; by rewrite H2).
    apply tag_reads in Ht as (t & r & ? & ? & ->). eauto 6.
Qed.

Lemma blank_app w w' : blank w → blank w' → blank (w ++ w').
Proof.
  intros Hw Hw'. induction Hw as [|b w Hb Hw IH|t e w Ht He Hw IH|t w Ht Hw IH]; [done|..];
    rewrite <- ?app_assoc; by constructor.
Qed.

Lemma blank_spaces t w : Forall (λ b, negb (is_multispace b) = false) t → blank w → blank (t ++ w).
Proof.
  intros Ht Hw. induction Ht as [|b t Hb Ht IH]; [done|]. constructor; [|done].
  by apply negb_false_iff.
Qed.

(** What one round of [comment_or_whitespace] takes, before more blanks. *)
Lemma blank_reads :
  reads (λ _ (_ : unit) t, ∀ w, blank w → blank (t ++ w))
    (alt [pvalue () multispace1; multiline_comment; singleline_comment]).
Proof.
  apply alt_reads. repeat constructor.
  - apply pvalue_reads. eapply reads_weaken; [|apply split_at_position1_reads].
    intros l o t (_ & _ & Ht) w. by apply blank_spaces.
  - eapply reads_weaken; [|apply multiline_comment_reads].
    intros l o t (c & -> & Hc) w Hw. rewrite <- app_assoc. by constructor.
  - apply pvalue_reads. intros l s i' o H. apply bind_Ok_iff in H as ([i1 a] & H1 & H).
    apply bind_Ok_iff in H as ([i2 b] & H2 & H). apply bind_Ok_iff in H as ([i3 c] & H3 & [= <- <-]).
    read H1 with tag_reads as t1 r1 ->. read H2 with not_line_ending_reads as t2 r2 Ht.
    read H3 with line_ending_reads as t3 r3 He.
    exists (str "//" ++ t2 ++ t3), r3. rewrite !advance_app, <- !app_assoc.
    split_and!; [done|done|]. intros w Hw. rewrite <- !app_assoc. by constructor.
Qed.

Lemma comment_or_whitespace_reads : reads (λ _ _ t, blank t) comment_or_whitespace.
Proof.
  apply pvalue_reads. eapply reads_weaken; [|apply many0_reads, blank_reads].
  intros l os t Ht. induction Ht as [|l o t os ts Ho _ IH]; [constructor|]. by apply Ho.
Qed.

(** A text of [R] after blanks. *)
Abbreviation blank_text R := (after_text blank R).

Lemma blank_text_twice {O} (R : Location → O → rstring → Prop) l o t :
  blank_text (blank_text R) l o t → blank_text R l o t.
Proof.
  intros (w & t1 & -> & Hw & (w' & t2 & -> & Hw' & HR)). exists (w ++ w'), t2.
  rewrite app_assoc, <- advance_app. auto using blank_app.
Qed.

Lemma ws_reads {O} R (f : BindParser O) : reads R f → reads (blank_text R) (ws f).
Proof.
  intros Hf. eapply reads_weaken; [|apply (preceded_reads _ _ _ _ comment_or_whitespace_reads Hf)].
  intros l o t ([] & t1 & t2 & -> & Hw & HR). by exists t1, t2.
Qed.

Lemma ws_ws_reads {O} R (f : BindParser O) : reads (blank_text R) f → reads (blank_text R) (ws f).
Proof. intros Hf. eapply reads_weaken; [apply blank_text_twice|by apply ws_reads]. Qed.

Lemma token_reads t f : reads (λ _ _ x, ∃ w, x = w ++ str t ∧ blank w) (token t f).
Proof.
  eapply reads_weaken; [|apply ws_reads, map_parser_err_reads, tag_reads].
  intros l o x (w & y & -> & Hw & ->). eauto.
Qed.

(** ** Identifiers *)

(** The tail of an identifier: the last character below [k] that is not an
    underscore ends it. *)
Lemma tail_matches s k :
  match head (reverse (seq 0 k) ≫= λ n, Nat.add n <$> re_matches (RClass is_alphanum) (drop n s)) with
  | Some n => ∃ m c, n = S m ∧ (m < k)%nat ∧ s !! m = Some c ∧ is_alphanum c = true ∧
      ∀ j d, (m < j < k)%nat → s !! j = Some d → is_alphanum d = false
  | None => ∀ j d, (j < k)%nat → s !! j = Some d → is_alphanum d = false
  end.
Proof.
  induction k as [|k IH]; [cbn; intros; lia|].
  assert (re_matches (RClass is_alphanum) (drop k s) =
    match s !! k with Some c => if is_alphanum c then [1%nat] else [] | None => [] end) as Hclass.
  { rewrite <- (Nat.add_0_r k) at 2. rewrite <- lookup_drop. by destruct (drop k s). }
  rewrite seq_S, reverse_snoc, bind_cons. cbn [plus]. rewrite Hclass.
  assert ((∃ c, s !! k = Some c ∧ is_alphanum c = true) ∨
    ∀ d, s !! k = Some d → is_alphanum d = false) as [(c & Hc & Ha)|Hk].
  { destruct (s !! k) as [c|]; [destruct (is_alphanum c) eqn:Ha|]; [by left; exists c|right..];
      [by intros ? [= <-]|done]. }
  - rewrite Hc, Ha. cbn. exists k, c. split_and!; [lia|lia|done|done|]. intros j d ?. lia.
  - replace (match s !! k with Some _ => _ | None => _ end) with (@nil nat)
      by (destruct (s !! k) as [d|]; [by rewrite (Hk d)|done]).
    cbn [fmap list_fmap app]. destruct (head _) as [n|].
    + destruct IH as (m & e & -> & Hm & He & Hae & Hmax). exists m, e.
      split_and!; [done|lia|done|done|]. intros j d Hj Hd.
      destruct (decide (j = k)) as [->|]; [by apply Hk|]. apply (Hmax j); [lia|done].
    + intros j d Hj Hd. destruct (decide (j = k)) as [->|]; [by apply Hk|]. apply (IH j); [lia|done].
Qed.

Lemma run_lookup p s j c : (j < run p s)%nat → s !! j = Some c → p c = true.
Proof.
  revert j. induction s as [|b s IH]; intros j; cbn; [lia|]. destruct (p b) eqn:Hb; [|lia].
  destruct j as [|j]; cbn; [by intros _ [= <-]|]. intros Hj. apply IH. lia.
Qed.

Lemma run_stop p s c : s !! run p s = Some c → p c = false.
Proof.
  induction s as [|b s IH]; cbn; [done|]. destruct (p b) eqn:Hb; [exact IH|]. by intros [= <-].
Qed.

Lemma run_app p t r : Forall (λ b, p b = true) t → (∀ c, head r = Some c → p c = false) → run p (t ++ r) = length t.
Proof.
  intros Ht Hr. induction Ht as [|b t Hb Ht IH]; cbn; [|by rewrite Hb, IH].
  destruct r as [|c r]; [done|]. cbn. by rewrite (Hr c).
Qed.

Lemma is_alphanum_word c : is_alphanum c = true → is_word c = true.
Proof. unfold is_word. by intros ->. Qed.

Lemma segment_spec t :
  segment t = true ↔
  ∃ b r e, t = b :: r ∧ is_letter b = true ∧ Forall (λ c, is_word c = true) r ∧
    last t = Some e ∧ is_alphanum e = true.
Proof.
  unfold segment. split.
  - destruct t as [|b r]; [done|]. destruct (last (b :: r)) as [e|] eqn:He; [|done]. intros H.
    apply andb_true_iff in H as [[Hb Hr]%andb_true_iff Ha].
    exists b, r, e. split_and!; try done. apply Forall_forall. intros c Hc.
    eapply forallb_forall in Hr; [done|]. by apply list_elem_of_In.
  - intros (b & r & e & -> & Hb & Hr & -> & Ha). rewrite Hb, Ha, andb_true_r. cbn.
    apply forallb_forall. intros c Hc. eapply Forall_forall in Hr; [done|]. by apply list_elem_of_In.
Qed.

(** The length of the tail of an identifier. *)
Definition tail_length (s : rstring) : nat :=
  default 0%nat (head (reverse (seq 0 (S (run is_word s))) ≫=
    λ n, Nat.add n <$> re_matches (RClass is_alphanum) (drop n s))).

Lemma re_find_identifier b s :
  re_find identifier_re (b :: s) = if is_letter b then Some (S (tail_length s)) else None.
Proof.
  unfold re_find, tail_length. cbn [identifier_re re_matches].
  destruct (is_letter b); [|done]. rewrite bind_cons. change (drop 1 (b :: s)) with s.
  change ([] ≫= _) with (@nil nat). rewrite app_nil_r.
  destruct (_ ≫= _) as [|n ns]; done.
Qed.

(** It ends in a letter or a digit, which none follows. *)
Lemma tail_length_spec s :
  (tail_length s <= length s)%nat ∧ Forall (λ c, is_word c = true) (take (tail_length s) s) ∧
  (∀ c, last (take (tail_length s) s) = Some c → is_alphanum c = true) ∧
  (∀ c, head (drop (tail_length s) s) = Some c → is_alphanum c = false) ∧
  (∀ j d, (tail_length s <= j <= run is_word s)%nat → s !! j = Some d → is_alphanum d = false).
Proof.
  unfold tail_length. pose proof (tail_matches s (S (run is_word s))) as H.
  assert (∀ n c, head (drop n s) = Some c ↔ s !! n = Some c) as Hhead.
  { intros n c. rewrite head_lookup, lookup_drop. by rewrite Nat.add_0_r. }
  destruct (head _) as [n|]; cbn [default from_option].
  - destruct H as (m & c & -> & Hm & Hc & Ha & Hmax). cbn [id]. pose proof (lookup_lt_Some _ _ _ Hc) as Hlt.
    assert (m < run is_word s)%nat as Hrun.
    { destruct (decide (m = run is_word s)) as [Heq|]; [|lia]. rewrite Heq in Hc.
      apply run_stop in Hc. by rewrite (is_alphanum_word c Ha) in Hc. }
    split_and!; [lia|..].
    + apply Forall_lookup. intros j d Hj. apply lookup_take_Some in Hj as [Hj Hlt'].
      eapply run_lookup; [|exact Hj]. lia.
    + intros d. rewrite (take_S_r _ _ _ Hc), last_snoc. by intros [= <-].
    + intros d Hd%Hhead. destruct (is_alphanum d) eqn:Hda; [|done].
      rewrite (Hmax (S m) d) in Hda; [done| |done].
      split; [lia|]. destruct (decide (S m = run is_word s)) as [Heq|]; [|lia].
      rewrite Heq in Hd. apply run_stop in Hd. by rewrite (is_alphanum_word d Hda) in Hd.
    + intros j d Hj. apply Hmax. lia.
  - cbn; split_and!; [lia|constructor|done|..].
    + intros d Hd%Hhead. apply (H 0%nat); [lia|done].
    + intros j d Hj. apply H. lia.
Qed.

Lemma identifier_re_sound s n :
  re_find identifier_re s = Some n →
  ∃ t r, s = t ++ r ∧ n = length t ∧ segment t = true ∧ ∀ c, head r = Some c → is_alphanum c = false.
Proof.
  destruct s as [|b s]; [done|]. rewrite re_find_identifier. destruct (is_letter b) eqn:Hb; [|done].
  intros [= <-]. destruct (tail_length_spec s) as (Hle & Hw & Hl & Hr & _).
  exists (b :: take (tail_length s) s), (drop (tail_length s) s). cbn [app length]. rewrite take_drop.
  split_and!; [done|by rewrite length_take_le| |done].
  apply segment_spec. destruct (last (take (tail_length s) s)) as [e|] eqn:He.
  - exists b, (take (tail_length s) s), e. split_and!; [done|done|done| |by apply Hl].
    by rewrite last_cons, He.
  - exists b, (take (tail_length s) s), b. split_and!; [done|done|done| |].
    + by rewrite last_cons, He.
    + unfold is_alphanum. by rewrite Hb.
Qed.

Lemma identifier_re_complete t r :
  segment t = true → (∀ c, head r = Some c → is_word c = false) →
  re_find identifier_re (t ++ r) = Some (length t).
Proof.
  intros (b & u & e & -> & Hb & Hu & He & Ha)%segment_spec Hr. cbn [app].
  rewrite re_find_identifier, Hb. cbn [length]. do 2 f_equal.
  destruct (tail_length_spec (u ++ r)) as (Hle & Hw & _ & _ & Hmax). rewrite run_app in Hmax by done.
  destruct (lt_eq_lt_dec (tail_length (u ++ r)) (length u)) as [[Hlt| ]|Hgt]; [|done|]; exfalso.
  - destruct u as [|c u _] using rev_ind; [cbn in Hlt; lia|].
    rewrite app_comm_cons, last_snoc in He. injection He as ->.
    rewrite length_app in Hlt, Hmax. cbn [length] in Hlt, Hmax.
    rewrite (Hmax (length u) e) in Ha; [done|lia|].
    rewrite <- app_assoc. by apply list_lookup_middle.
  - assert (is_Some ((u ++ r) !! length u)) as [c Hc] by (apply lookup_lt_is_Some; lia).
    eapply (Forall_lookup_1 _ _ (length u)) in Hw;
      [|rewrite lookup_take_lt by lia; exact Hc].
    rewrite lookup_app_r, Nat.sub_diag in Hc by lia. rewrite <- head_lookup in Hc.
    by rewrite (Hr c) in Hw.
Qed.

Lemma identifier_stops i i' o c :
  CommonParser.identifier i = Ok (i', o) → head (fragment i') = Some c → is_alphanum c = false.
Proof.
  unfold CommonParser.identifier. destruct (re_find _ _) as [n|] eqn:Hn; [|done].
  intros [= <- _]. apply identifier_re_sound in Hn as (t & r & Hf & -> & _ & Hr). cbn.
  rewrite Hf, drop_app_length. apply Hr.
Qed.

Lemma identifier_reads : reads (λ _ o t, o = t ∧ segment t = true) CommonParser.identifier.
Proof.
  intros l s i' o. unfold CommonParser.identifier. cbn [fragment at_location].
  destruct (re_find _ _) as [n|] eqn:Hn; [|done].
  apply identifier_re_sound in Hn as (t & r & -> & -> & Hs & _).
  rewrite slice_unbounded. intros [= <- <-]. exists t, r. rewrite slice_from_text. cbn. by rewrite take_app_length.
Qed.

(** A separated list ends where an element ends. *)
Lemma separated_loop_ends {E A B} `{!ParseError E} (P : NomSpan → Prop) (sep : Parser E B)
    (f : Parser E A) fuel i acc i' os :
  (∀ i i' o, f i = Ok (i', o) → P i') → P i → separated_loop sep f fuel i acc = Ok (i', os) → P i'.
Proof.
  intros Hf. revert i acc. induction fuel as [|fuel IH]; intros i acc Hi; cbn; [done|].
  destruct (sep i) as [[i1 b]|[|e|e]|]; try done; [|by intros [= <- _]].
  case_decide; [done|]. destruct (f i1) as [[i2 o]|[|e|e]|] eqn:H2; try done; [|by intros [= <- _]].
  case_decide; [done|]. apply IH. by eapply Hf.
Qed.

Lemma compound_identifier_stops i i' o c :
  compound_identifier i = Ok (i', o) → head (fragment i') = Some c → is_alphanum c = false.
Proof.
  intros H. apply bind_Ok_iff in H as ([i1 segs] & H & Hlast).
  destruct (last segs); [|done]. injection Hlast as <- _.
  apply bind_Ok_iff in H as ([i2 s] & H2 & H). case_decide; [done|].
  refine (separated_loop_ends (λ i, head (fragment i) = Some c → is_alphanum c = false)
    _ _ _ _ _ _ _ _ _ H); [|by eapply identifier_stops]. intros ? ? ?. apply identifier_stops.
Qed.

Lemma join_snoc sep ns n : ns ≠ [] → join sep (ns ++ [n]) = join sep ns ++ sep ++ n.
Proof.
  induction ns as [|a ns IH]; [done|]. intros _. destruct ns as [|b ns]; [done|].
  change ((a :: b :: ns) ++ [n]) with (a :: (b :: ns) ++ [n]).
  cbn [join app] in *. rewrite IH by done. by rewrite <- !app_assoc.
Qed.

Lemma to_string_join ns n : to_string (mkIdent ns n) = join (str ".") (ns ++ [n]).
Proof.
  unfold to_string. cbn. destruct ns as [|a ns]; [done|]. by rewrite join_snoc.
Qed.

Lemma join_many l s ss t :
  many_text (after_text (λ x, x = str ".") (λ _ o t, o = t ∧ segment t = true)) l ss t →
  join (str ".") (s :: ss) = s ++ t ∧ Forall (λ s, segment s = true) ss.
Proof.
  intros H. revert s. induction H as [|l o t os ts (a & b & -> & -> & -> & Hb) _ IH]; intros s.
  - cbn. by rewrite app_nil_r.
  - destruct (IH b) as [Hj Hall]. split; [|by constructor].
    cbn [join] in *. rewrite Hj. by rewrite <- !app_assoc.
Qed.

Lemma compound_identifier_reads : reads (λ _ o t, ident_text o t) compound_identifier.
Proof.
  intros l s i' o H. apply bind_Ok_iff in H as ([i1 segs] & H & Hlast).
  apply (separated_nonempty_list_reads (λ x, x = str ".") (λ _ o t, o = t ∧ segment t = true)) in H
    as (t & r & -> & -> & (s1 & ss & t1 & t2 & -> & -> & [-> Hs1] & HM));
    [|apply tag_reads|apply identifier_reads].
  unfold rstring in *. case_match eqn:Hl; [|done]. injection Hlast as <- <-.
  apply last_Some in Hl as [ns Hns]. apply (join_many _ t1) in HM as [Hj Hall].
  exists (t1 ++ t2), r. split_and!; [done|done|].
  pose proof (f_equal (@removelast _) Hns) as Hrm. rewrite removelast_last in Hrm.
  cbn [removelast] in Hrm. rewrite Hrm. split.
  - rewrite to_string_join, <- Hj. by f_equal.
  - cbn. assert (Forall (λ s, segment s = true) (t1 :: ss)) as H by by constructor. by rewrite Hns in H.
Qed.

(** ** Literals *)

Lemma char_reads {E} `{!ParseError E} c : reads (λ _ _ t, t = [c]) (char (E := E) c).
Proof.
  intros l s i' o. unfold char. cbn [fragment at_location]. destruct s as [|b s]; [done|].
  destruct (Z.eqb_spec b c) as [->|]; [|done]. rewrite slice_unbounded. intros [= <- <-]. exists [c], s.
  by rewrite slice_from_1.
Qed.

Lemma one_of_reads {E} `{!ParseError E} cs : reads (λ _ _ t, ∃ c, t = [c] ∧ c ∈ cs) (one_of (E := E) cs).
Proof.
  intros l s i' o. unfold one_of. cbn [fragment at_location]. destruct s as [|b s]; [done|].
  case_bool_decide; [|done]. rewrite slice_unbounded. intros [= <- <-]. exists [b], s.
  rewrite slice_from_1. eauto.
Qed.

Lemma quotable_app s t : quotable s → quotable t → quotable (s ++ t).
Proof.
  intros Hs Ht. induction Hs as [|b s H1 H2 _ IH|b s Hb _ IH]; [done|..].
  - by apply (Quotable_char b (s ++ t)).
  - by apply (Quotable_escape b (s ++ t)).
Qed.

Lemma quotable_chars s : Forall (λ b, bool_decide (b ∈ [0x5c; 0x22]) = false) s → quotable s.
Proof.
  induction 1 as [|b s Hb _ IH]; constructor; [..|done]; intros ->; by vm_compute in Hb.
Qed.

Notation string_char := (is_not (E := NomSpan * ErrorKind) [0x5c; 0x22]).
Notation string_escape := (one_of (E := NomSpan * ErrorKind) [0x5c; 0x22]).

Lemma escaped_loop_reads fuel l pre s i' o :
  quotable pre →
  escaped_loop string_char 0x5c string_escape (at_location l (pre ++ s)) fuel
    (at_location (advance l pre) s) = Ok (i', o) →
  ∃ t r, pre ++ s = t ++ r ∧ i' = at_location (advance l t) r ∧ fragment o = t ∧ quotable t ∧
    (r ≠ [] → t ≠ []).
Proof.
  revert pre s. induction fuel as [|fuel IH]; intros pre s Hpre; cbn [escaped_loop]; [done|].
  rewrite !slice_unbounded. cbn [mbind outcome_bind].
  assert (∀ u, quotable u →
    Ok (E := NomErr (NomSpan * ErrorKind))
      (slice_from (length (fragment (at_location l u))) (at_location l u), at_location l u) = Ok (i', o) →
    ∃ t r, u = t ++ r ∧ i' = at_location (advance l t) r ∧ fragment o = t ∧ quotable t ∧
      (r ≠ [] → t ≠ [])) as Hwhole.
  { intros u Hu [= <- <-]. exists u, []. rewrite app_nil_r. cbn [fragment at_location].
    rewrite slice_from_at, firstn_all, drop_all by lia. by split_and!. }
  change (fragment (at_location (advance l pre) s)) with s. destruct s as [|b s].
  { rewrite app_nil_r. by apply Hwhole. }
  destruct (string_char _) as [[i1 a]|[|e|e]|] eqn:Hn; try done.
  - apply split_at_position1_reads in Hn as (t & r & Hs & -> & Hne & _ & Ht).
    rewrite Hs in *. rewrite advance_app, app_assoc.
    assert (quotable (pre ++ t)) as Hq by (apply quotable_app; [done|by apply quotable_chars]).
    case_decide as Hr; [cbn in Hr; subst r; rewrite app_nil_r; by apply Hwhole|]. by apply IH.
  - destruct (Z.eqb_spec b 0x5c) as [->|Hb].
    + case_decide; [done|]. rewrite slice_from_1.
      destruct (string_escape _) as [[i1 a]|e'|] eqn:He; try done.
      apply one_of_reads in He as (t & r & -> & -> & (c & -> & Hc)).
      rewrite !advance_app. replace ((pre ++ [0x5c]) ++ [c]) with (pre ++ [0x5c; c])
        by by rewrite <- app_assoc.
      change (0x5c :: [c] ++ r) with ([0x5c; c] ++ r). rewrite (app_assoc pre [0x5c; c] r).
      assert (quotable (pre ++ [0x5c; c])) as Hq.
      { apply quotable_app; [done|]. constructor; [|constructor].
        by apply elem_of_cons in Hc as [Hc|Hc%list_elem_of_singleton]; [left|right]. }
      case_decide as Hr; [cbn in Hr; subst r; rewrite app_nil_r; by apply Hwhole|]. by apply IH.
    + change (location_offset (at_location (advance l pre) _) - location_offset (at_location l _))
        with (l.1 + len pre - l.1).
      case_match eqn:Hz; [done|]. bool_props. rewrite ?take_split_unbounded. intros [= <- <-].
      exists pre, (b :: s). replace (Z.to_nat (l.1 + len pre - l.1)) with (length pre) by (unfold len; lia).
      rewrite slice_from_text. split_and!; try done; [cbn; by rewrite take_app_length|].
      intros _ Hp. apply Hz. rewrite Hp. unfold len. cbn [length]. lia.
Qed.

Lemma quoted_reads :
  reads (λ _ o t, quotable (fragment o) ∧ fragment o ≠ [] ∧ t = quote_text (fragment o)) CommonParser.quoted.
Proof.
  intros l s i' o H. apply bind_Ok_iff in H as ([i1 a] & H1 & H).
  apply bind_Ok_iff in H as ([i2 b] & H2 & H). apply bind_Ok_iff in H as ([i3 c] & H3 & [= <- <-]).
  apply char_reads in H1 as (t1 & r1 & -> & -> & ->).
  pose proof (escaped_loop_reads (S (length r1)) (advance l [0x22]) [] r1 i2 b Quotable_nil) as He.
  rewrite advance_nil in He. cbn [app] in He.
  apply He in H2 as (t & r & -> & -> & Hb & Hq & Hne). clear He.
  apply char_reads in H3 as (t3 & r3 & -> & -> & ->).
  exists (quote_text t), r3. rewrite !advance_app. rewrite Hb. unfold quote_text. cbn [app].
  rewrite <- app_assoc. split_and!; try done. by apply Hne.
Qed.

Lemma string_literal_reads : reads (λ _ s t, quotable s ∧ s ≠ [] ∧ t = quote_text s) string_literal.
Proof. apply map_parser_err_reads, pmap_reads, quoted_reads. Qed.

Lemma numeric_literal_reads : reads (λ _ n t, number_text n t) numeric_literal.
Proof.
  apply map_parser_err_reads, alt_reads. repeat constructor; apply map_res_reads.
  - eapply reads_weaken; [|apply (preceded_reads _ _ _ _ (tag_reads _) (split_at_position1_reads _ _))].
    intros l o t (a & t1 & t2 & -> & -> & _ & <- & Hd) n Hn. constructor; [|done].
    eapply Forall_impl; [exact Hd|]. intros b. apply negb_false_iff.
  - eapply reads_weaken; [|apply split_at_position1_reads].
    intros l o t (_ & <- & Hd) n Hn. constructor; [|done].
    eapply Forall_impl; [exact Hd|]. intros b. apply negb_false_iff.
Qed.

Lemma bool_literal_reads :
  reads (λ _ b t, t = if b : bool then str "true" else str "false") bool_literal.
Proof.
  apply map_parser_err_reads, alt_reads. repeat constructor; apply pvalue_reads, tag_reads.
Qed.

Lemma compare_str_prefix x r : compare_str (x ++ r) x = Compare_Ok.
Proof. induction x as [|b x IH]; cbn; [by destruct r|by rewrite Z.eqb_refl]. Qed.

(** A tag fails only when the text does not start with it. *)
Lemma tag_prefix {E} `{!ParseError E} x l r :
  tag (E := E) x (at_location l (x ++ r)) = Ok (at_location (advance l x) r, at_location l x).
Proof.
  unfold tag. cbn [fragment at_location]. rewrite compare_str_prefix. rewrite ?take_split_unbounded. by rewrite slice_from_text, slice_to_text.
Qed.

(** ** Tokens at the current place *)

(** No blank starts at [i]. *)
Definition solid (i : NomSpan) : Prop := comment_or_whitespace i = Ok (i, ()).

Lemma many_loop_stops {E A} `{!ParseError E} kind (f : Parser E A) fuel i acc i' os :
  many_loop kind f fuel i acc = Ok (i', os) → ∃ e, f i' = Err (Error e).
Proof.
  revert i acc. induction fuel as [|fuel IH]; intros i acc; cbn; [done|].
  destruct (f i) as [[i1 o]|[|e|e]|] eqn:Hf; try done; [case_decide; [done|]; apply IH|].
  intros [= <- _]. eauto.
Qed.

Lemma comment_or_whitespace_solid i i' : comment_or_whitespace i = Ok (i', ()) → solid i'.
Proof.
  unfold solid, comment_or_whitespace. intros H. apply bind_Ok_iff in H as ([i1 os] & H & [= <-]).
  apply many_loop_stops in H as [e He]. unfold pvalue at 1, many0. cbn [many_loop]. by rewrite He.
Qed.

Lemma ws_solid {O} (f : BindParser O) i : solid i → ws f i = f i.
Proof. intros Hi. unfold ws, preceded. by rewrite Hi. Qed.

Lemma skip_ws_solid i : solid i → skip_ws i = Ok i.
Proof. intros Hi. unfold skip_ws. by rewrite Hi. Qed.

(** What a parser reads where no blank starts. *)
Definition reads_solid {E O} (R : Location → O → rstring → Prop) (p : Parser E O) : Prop :=
  ∀ l s i' o, solid (at_location l s) → p (at_location l s) = Ok (i', o) →
    ∃ t r, s = t ++ r ∧ i' = at_location (advance l t) r ∧ R l o t.

(** Blanks, if there are any, and a text of [R]. *)
Definition reads_token {O} R (p : BindParser O) : Prop := reads_solid R p ∧ reads (blank_text R) p.

Lemma skip_ws_reads {O} R (body : BindParser O) :
  reads_solid R body → reads_token R (λ i, from ← skip_ws i; body from).
Proof.
  intros Hbody. split; intros l s i' o H.
  - intros H1. rewrite skip_ws_solid in H1 by done. by apply Hbody in H1.
  - apply bind_Ok_iff in H as (from & H1 & H). apply bind_Ok_iff in H1 as ([i1 []] & H1 & [= <-]).
    pose proof (comment_or_whitespace_solid _ _ H1). read H1 with comment_or_whitespace_reads as w s' Hw.
    apply Hbody in H as (t & r & -> & -> & HR); [|done]. exists (w ++ t), r.
    rewrite <- app_assoc, advance_app. split_and!; [done|done|]. by exists w, t.
Qed.

Lemma ws_reads_token {O} R (f : BindParser O) : reads R f → reads_token R (ws f).
Proof.
  intros Hf. split; [|by apply ws_reads]. intros l s i' o Hs H. rewrite ws_solid in H by done.
  by apply Hf in H.
Qed.

Lemma token_reads_token t f : reads_token (λ _ _ x, x = str t) (token t f).
Proof. apply ws_reads_token, map_parser_err_reads, tag_reads. Qed.

(** ** Values and conditions *)

Lemma bool_literal_complete l (b : bool) r :
  bool_literal (at_location l ((if b then str "true" else str "false") ++ r)) =
    Ok (at_location (advance l (if b then str "true" else str "false")) r, b).
Proof.
  unfold bool_literal, map_parser_err, alt. cbn [alt_choice]. unfold pvalue. destruct b.
  - by rewrite tag_prefix.
  - rewrite (tag_prefix (str "false")). by destruct (tag (str "true") _) as [[]|[]|] eqn:H;
      [apply tag_reads in H as (? & ? & H & _ & ->)|..].
Qed.

Lemma condition_value_reads : reads (blank_text (λ _ o t, value_text o t)) condition_value.
Proof.
  intros l s i' o. unfold condition_value, alt. cbn [alt_choice]. unfold pmap, ws, preceded.
  destruct (comment_or_whitespace _) as [[i1 []]|[|e|e]|] eqn:Hw; cbn [mbind outcome_bind]; try done.
  read Hw with comment_or_whitespace_reads as w s' Hb. intros H.
  assert (∀ i2 v t r, i2 = at_location (advance (advance l w) t) r → s' = t ++ r → value_text v t →
    Ok (E := NomErr BindParserError) (i2, v) = Ok (i', o) →
    ∃ t r, w ++ s' = t ++ r ∧ i' = at_location (advance l t) r ∧
      blank_text (λ _ o t, value_text o t) l o t) as Hok.
  { intros i2 v t r -> -> Hv [= <- <-]. exists (w ++ t), r. rewrite <- app_assoc, advance_app.
    split_and!; [done|done|]. by exists w, t. }
  destruct (string_literal _) as [[i2 v]|[|e|e]|] eqn:H1; cbn [mbind outcome_bind] in H; try done.
  { apply string_literal_reads in H1 as (t & r & Hs & Hi & (Hq & Hne & ->)).
    eapply Hok; [exact Hi|exact Hs| |exact H]. by constructor. }
  destruct (numeric_literal _) as [[i2 v]|[|e'|e']|] eqn:H2; cbn [mbind outcome_bind] in H; try done.
  { apply numeric_literal_reads in H2 as (t & r & Hs & Hi & Hn).
    eapply Hok; [exact Hi|exact Hs| |exact H]. by constructor. }
  destruct (bool_literal _) as [[i2 v]|[|e''|e'']|] eqn:H3; cbn [mbind outcome_bind] in H; try done.
  { apply bool_literal_reads in H3 as (t & r & Hs & Hi & ->).
    eapply Hok; [exact Hi|exact Hs| |exact H]. destruct v; constructor. }
  destruct (compound_identifier _) as [[i2 v]|[|e'''|e''']|] eqn:H4; cbn [mbind outcome_bind] in H; try done.
  apply compound_identifier_reads in H4 as (t & r & Hs & Hi & Ht).
  eapply Hok; [exact Hi|exact Hs| |exact H].
  assert (∀ b : bool, ¬ (if b then str "true" else str "false") `prefix_of` t) as Hnot.
  { intros b [k ->]. rewrite Hs, <- app_assoc, bool_literal_complete in H3. done. }
  constructor; [done|exact (Hnot true)|exact (Hnot false)].
Qed.

Lemma condition_op_reads : reads (λ _ o t, t = op_text o) condition_op.
Proof. apply map_parser_err_reads, alt_reads. repeat constructor; apply pvalue_reads, tag_reads. Qed.

(** Equal up to where the text is cut. *)
Ltac cut := rewrite ?advance_app, <- ?app_assoc; cbn [app]; rewrite ?advance_app, <- ?app_assoc; done.

(** The span of a text. *)
Lemma span_reads {O} (R : Location → O → rstring → Prop) (mk : Span → O) t r l s i span :
  from_to (E := NomErr BindParserError) (at_location l s) i = Ok span →
  s = t ++ r → i = at_location (advance l t) r → R l (mk (span_of l t)) t →
  ∃ t' r', s = t' ++ r' ∧ i = at_location (advance l t') r' ∧ R l (mk span) t'.
Proof. intros Hs -> -> HR. rewrite from_to_text in Hs. injection Hs as <-. eauto. Qed.

Lemma condition_reads : reads_token condition_text condition.
Proof.
  apply skip_ws_reads. intros l s i' o Hs H. rewrite ws_solid in H by done.
  apply bind_Ok_iff in H as ([i1 i] & H1 & H). apply bind_Ok_iff in H as ([i2 op] & H2 & H).
  apply bind_Ok_iff in H as ([i3 v] & H3 & H). apply bind_Ok_iff in H as (span & Hspan & [= <- <-]).
  read H1 with compound_identifier_reads as ti r1 Hi.
  read H2 with (ws_reads _ _ condition_op_reads) as t2 r2 (w1 & t & -> & Hw1 & ->).
  read H3 with (ws_ws_reads _ _ condition_value_reads) as t3 r3 (w2 & tv & -> & Hw2 & Hv).
  refine (span_reads _ (λ span, mkCondition span i op v) (ti ++ w1 ++ op_text op ++ w2 ++ tv) r3 _ _ _ _
    Hspan _ _ _); [cut|cut|]. by constructor.
Qed.

(** ** Statements *)

Lemma condition_statement_reads : reads_token statement_text condition_statement.
Proof.
  apply skip_ws_reads. intros l s i' o Hs H. apply bind_Ok_iff in H as ([i1 c] & H1 & H).
  apply bind_Ok_iff in H as (span & Hspan & [= <- <-]). apply bind_Ok_iff in H1 as ([i2 c'] & H1 & H2).
  apply bind_Ok_iff in H2 as ([i3 x] & H2 & [= <- <-]).
  apply (proj1 condition_reads) in H1 as (tc & r1 & -> & -> & Hc); [|done].
  read H2 with token_reads as t2 r2 (w & -> & Hw).
  refine (span_reads _ (λ span, ConditionStatement span c') (tc ++ w ++ str ";") r2 _ _ _ _ Hspan _ _ _);
    [cut|cut|]. by constructor.
Qed.

Lemma keyword_false_reads : reads_token statement_text keyword_false.
Proof.
  apply skip_ws_reads. intros l s i' o Hs H. apply bind_Ok_iff in H as ([i1 c] & H1 & H).
  apply bind_Ok_iff in H as (span & Hspan & [= <- <-]). apply bind_Ok_iff in H1 as ([i2 c'] & H1 & H2).
  apply bind_Ok_iff in H2 as ([i3 x] & H2 & [= <- <-]).
  apply (proj1 (token_reads_token _ _)) in H1 as (t & r1 & -> & -> & ->); [|done].
  read H2 with token_reads as t2 r2 (w & -> & Hw).
  refine (span_reads _ False_ (str "false" ++ w ++ str ";") r2 _ _ _ _ Hspan _ _ _);
    [cut|cut|]. by constructor.
Qed.

Lemma keyword_true_reads : reads_token statement_text keyword_true.
Proof.
  apply skip_ws_reads. intros l s i' o Hs H. apply bind_Ok_iff in H as ([i1 c] & H1 & H).
  apply bind_Ok_iff in H as (span & Hspan & [= <- <-]). apply bind_Ok_iff in H1 as ([i2 c'] & H1 & H2).
  apply bind_Ok_iff in H2 as ([i3 x] & H2 & [= <- <-]).
  apply (proj1 (token_reads_token _ _)) in H1 as (t & r1 & -> & -> & ->); [|done].
  read H2 with token_reads as t2 r2 (w & -> & Hw).
  refine (span_reads _ True_ (str "true" ++ w ++ str ";") r2 _ _ _ _ Hspan _ _ _);
    [cut|cut|]. by constructor.
Qed.

(** The values of an accept statement. *)
Lemma values_many {O} (R : O → rstring → Prop) l w v t vs ts :
  blank w → R v t →
  many_text (after_text (λ x, ∃ w, x = w ++ str "," ∧ blank w) (blank_text (λ _ o t, R o t))) l vs ts →
  values_text R (v :: vs) (w ++ t ++ ts).
Proof.
  intros Hw Ht H. revert w v t Hw Ht.
  induction H as [l|l v' t' vs ts (x & y & -> & (w1 & -> & Hw1) & (w2 & t2 & -> & Hw2 & Ht2)) _ IH];
    intros w v t Hw Ht.
  - rewrite app_nil_r. by constructor.
  - rewrite <- !app_assoc. constructor; [done..|]. by apply IH.
Qed.

Lemma opt_reads {E O} R (f : Parser E O) :
  reads R f →
  reads (λ l o t, match o with Some a => R l a t | None => t = [] end) (opt f).
Proof.
  intros Hf l s i' o. unfold opt. destruct (f _) as [[i1 a]|[|e|e]|] eqn:H; try done.
  - intros [= <- <-]. by apply Hf in H.
  - intros [= <- <-]. exists [], s. by rewrite advance_nil.
Qed.

(** Elements, and perhaps one more comma. *)
Definition values_comma_text {O} (R : O → rstring → Prop) (vs : list O) (t : rstring) : Prop :=
  ∃ ts c, t = ts ++ c ∧ values_text R vs ts ∧ trailing_comma c.

Lemma values_reads {O} (R : O → rstring → Prop) (f : BindParser O) :
  reads (blank_text (λ _ o t, R o t)) f →
  reads (λ _ vs t, values_comma_text R vs t)
    (terminated (separated_nonempty_list (token "," PE_ListSeparator) f) (opt (token "," PE_ListSeparator))).
Proof.
  intros Hf l s i' o H. apply bind_Ok_iff in H as ([i8 vs] & H4 & H).
  apply bind_Ok_iff in H as ([i9 c] & H6 & [= <- <-]).
  apply (separated_nonempty_list_reads _ _ _ _ (token_reads _ _) Hf)
    in H4 as (t4 & r4 & -> & -> & (v & vs' & t5 & t6 & -> & -> & (w3 & tv & -> & Hw3 & Hv) & HM)).
  apply (values_many R _ w3 v tv) in HM; [|done..].
  read H6 with (opt_reads _ _ (token_reads "," _)) as t7 r7 Hcomma.
  exists ((w3 ++ tv ++ t6) ++ t7), r7. split_and!; [cut|cut|]. eexists _, _. split_and!; [done|done|].
  destruct c; [|by subst; constructor]. destruct Hcomma as (w & -> & Hw). by constructor.
Qed.

(** They stay so after blanks. *)
Lemma values_blank {O} (R : O → rstring → Prop) w vs ts :
  blank w → values_text R vs ts → values_text R vs (w ++ ts).
Proof.
  intros Hw. destruct 1; rewrite (app_assoc w w0); constructor; auto using blank_app.
Qed.

Lemma ws_values_reads {O} (R : O → rstring → Prop) (vals : BindParser (list O)) :
  reads (λ _ vs t, values_comma_text R vs t) vals → reads (λ _ vs t, values_comma_text R vs t) (ws vals).
Proof.
  intros Hv. eapply reads_weaken; [|by apply ws_reads].
  intros l vs t (w & t' & -> & Hw & (ts & c & -> & Hts & Hc)). exists (w ++ ts), c.
  rewrite <- app_assoc. auto using values_blank.
Qed.

(** A list of elements between braces. *)
Lemma value_list_reads {O} (R : O → rstring → Prop) (vals : BindParser (list O)) :
  reads (λ _ vs t, values_comma_text R vs t) vals →
  reads (blank_text (λ _ vs t, value_list_text R vs t))
    (delimited (token "{" PE_ListStart) vals (token "}" PE_ListEnd)).
Proof.
  intros Hv l s i' o H. apply bind_Ok_iff in H as ([i5 y] & H3 & H).
  read H3 with token_reads as t3 r3 (w2 & -> & Hw2).
  apply bind_Ok_iff in H as ([i6 z] & H4 & H). apply bind_Ok_iff in H as ([i7 u] & H5 & [= <- <-]).
  read H4 with Hv as t4 r4 (ts & c & -> & Hts & Hc).
  read H5 with token_reads as t8 r8 (w4 & -> & Hw4).
  exists (w2 ++ str "{" ++ ts ++ c ++ w4 ++ str "}"), r8. split_and!; [cut|cut|].
  exists w2, (str "{" ++ ts ++ c ++ w4 ++ str "}"). split_and!; [done|done|by constructor].
Qed.

Lemma accept_reads : reads_token statement_text accept.
Proof.
  apply skip_ws_reads. intros l s i' o Hs H. apply bind_Ok_iff in H as ([i1 [i vs]] & H1 & H).
  apply bind_Ok_iff in H as (span & Hspan & [= <- <-]). apply bind_Ok_iff in H1 as ([i2 x] & H1 & H2).
  apply (proj1 (token_reads_token _ _)) in H1 as (t & r1 & -> & -> & ->); [|done].
  apply bind_Ok_iff in H2 as ([i3 i'] & H2 & H). apply bind_Ok_iff in H as ([i4 vs'] & H & [= <- <- <-]).
  read H2 with (ws_reads _ _ compound_identifier_reads) as t2 r2 (w1 & ti & -> & Hw1 & Hi).
  apply (value_list_reads value_text _ (values_reads _ _ (ws_ws_reads _ _ condition_value_reads))) in H
    as (t3 & r3 & -> & -> & (w2 & tl & -> & Hw2 & Hl)).
  refine (span_reads _ (λ span, Accept span i' vs')
    (str "accept" ++ w1 ++ ti ++ w2 ++ tl) r3 _ _ _ _ Hspan _ _ _); [cut|cut|]. by constructor.
Qed.

(** ** Blocks *)

Lemma statements_many l ss t :
  many_text (blank_text statement_text) l ss t → statements_text l ss t.
Proof.
  induction 1 as [|l s t' ss ts (w & t & -> & Hw & Ht) _ IH]; [constructor|].
  rewrite <- app_assoc. by constructor.
Qed.

Lemma if_blocks_many l b t bs ts :
  if_block_text l b t →
  many_text (after_text (λ x, ∃ w, x = w ++ str "else" ∧ blank w) (blank_text if_block_text)) (advance l t) bs ts →
  if_blocks_text l (b :: bs) (t ++ ts).
Proof.
  intros Hb H. remember (advance l t) as l' eqn:Hl'. revert l b t Hb Hl'.
  induction H as [l'|l' b' t' bs ts (x & y & -> & (w1 & -> & Hw1) & (w2 & t2 & -> & Hw2 & Ht2)) _ IH];
    intros l b t Hb ->.
  - rewrite app_nil_r. by constructor.
  - rewrite <- !app_assoc. constructor; [done..|]. rewrite !advance_app in *.
    rewrite <- !app_assoc in *. apply IH; [done|]. cut.
Qed.

(** Blanks before the first part of a parser are blanks before it. *)
Lemma reads_token_ext {O} R (p q : BindParser O) :
  (∀ i, p i = q i) → reads_token R q → reads_token R p.
Proof. intros Heq [H1 H2]. split; intros l s i' o; rewrite Heq; [apply H1|apply H2]. Qed.

Lemma preceded_ws {A B} (f : BindParser A) (g : BindParser B) i :
  preceded (ws f) g i = ws (preceded f g) i.
Proof. unfold ws, preceded. by destruct (comment_or_whitespace i) as [[]| |]. Qed.

Lemma delimited_ws {A B C} (f : BindParser A) (g : BindParser B) (h : BindParser C) i :
  delimited (ws f) g h i = ws (delimited f g h) i.
Proof. unfold ws, preceded, delimited. by destruct (comment_or_whitespace i) as [[]| |]. Qed.

Lemma tuple2_ws {A B} (f : BindParser A) (g : BindParser B) i : tuple2 (ws f) g i = ws (tuple2 f g) i.
Proof. unfold ws, preceded, tuple2. by destruct (comment_or_whitespace i) as [[]| |]. Qed.

Lemma reads_ws {O} R (p : BindParser O) : reads_token R p → reads (blank_text R) (ws p).
Proof. intros [_ Hp]. by apply ws_ws_reads. Qed.

Section nested.
Context (statement : BindParser Statement) (Hstatement : reads_token statement_text statement).

Lemma statement_block_reads : reads_token block_text (statement_block_with statement).
Proof.
  eapply reads_token_ext; [intros; apply delimited_ws|]. apply ws_reads_token. intros l s i' o H.
  apply bind_Ok_iff in H as ([i1 x] & H1 & H). apply bind_Ok_iff in H as ([i2 ss] & H2 & H).
  apply bind_Ok_iff in H as ([i3 y] & H3 & [= <- <-]).
  read H1 with (map_parser_err_reads _ _ _ (tag_reads _)) as t1 r1 ->.
  read H2 with (many1_reads _ _ (reads_ws _ _ Hstatement)) as t2 r2 [Hss%statements_many Hne].
  read H3 with token_reads as t3 r3 (w & -> & Hw).
  exists (str "{" ++ t2 ++ w ++ str "}"), r3. split_and!; [cut|cut|]. by constructor.
Qed.

Lemma if_block_reads :
  reads_token if_block_text (tuple2 (preceded keyword_if condition) (statement_block_with statement)).
Proof.
  eapply reads_token_ext.
  { intros i. etransitivity; [|apply tuple2_ws]. unfold tuple2, keyword_if, token.
    by rewrite preceded_ws. }
  apply ws_reads_token. intros l s i' o H.
  apply bind_Ok_iff in H as ([i1 c] & H & H1). apply bind_Ok_iff in H1 as ([i2 ss] & H3 & [= <- <-]).
  apply bind_Ok_iff in H as ([i3 x] & H1 & H2).
  read H1 with (map_parser_err_reads _ _ _ (tag_reads _)) as t1 r1 ->.
  apply (proj2 condition_reads) in H2 as (t2 & r2 & -> & -> & (w1 & tc & -> & Hw1 & Hc)).
  apply (proj2 statement_block_reads) in H3 as (t3 & r3 & -> & -> & (w2 & tb & -> & Hw2 & Hb)).
  exists (str "if" ++ w1 ++ tc ++ w2 ++ tb), r3. split_and!; [cut|cut|].
  rewrite !advance_app in *. rewrite <- !app_assoc in *. by constructor.
Qed.

Lemma if_statement_reads : reads_token statement_text (if_statement_with statement).
Proof.
  apply skip_ws_reads. intros l s i' o Hs H. apply bind_Ok_iff in H as ([i1 bs] & H1 & H).
  apply bind_Ok_iff in H as ([i2 e] & H2 & H). apply bind_Ok_iff in H as (span & Hspan & [= <- <-]).
  apply bind_Ok_iff in H1 as ([i3 b] & H1 & H). case_decide; [done|].
  apply (proj1 if_block_reads) in H1 as (t1 & r1 & -> & -> & Hb); [|done].
  apply (separated_loop_reads _ _ _ _ _ _ _ _ _ _ (token_reads "else" _) (proj2 if_block_reads)) in H
    as (bs' & t2 & r2 & -> & -> & -> & HM).
  apply bind_Ok_iff in H2 as ([i3 x] & H2 & H3).
  read H2 with (token_reads "else") as t3 r3 (w1 & -> & Hw1).
  apply (proj2 statement_block_reads) in H3 as (t4 & r4 & -> & -> & (w2 & tb & -> & Hw2 & He)).
  refine (span_reads _ (λ span, If span (b :: bs') e)
    ((t1 ++ t2) ++ w1 ++ str "else" ++ w2 ++ tb) r4 _ _ _ _ Hspan _ _ _); [cut|cut|].
  constructor; [by apply if_blocks_many|done..|].
  rewrite !advance_app in *. by rewrite <- !app_assoc in *.
Qed.
End nested.

Lemma alt_reads_token {A} R (ps : list (BindParser A)) : Forall (reads_token R) ps → reads_token R (alt ps).
Proof.
  intros Hps. split; [|apply alt_reads; eapply Forall_impl; [exact Hps|]; by intros p [_ ?]].
  unfold alt. generalize (@None BindParserError) as err.
  induction ps as [|p ps IH]; intros err l s i' o Hs; cbn; [by destruct err|].
  apply Forall_cons in Hps as [Hp Hps]. destruct (p _) as [[i1 a]|[|e|e]|] eqn:H; try done; [|by apply IH].
  intros [= <- <-]. by apply (proj1 Hp).
Qed.

Lemma statement_fuel_reads fuel : reads_token statement_text (statement_fuel fuel).
Proof.
  induction fuel as [|fuel IH]; [done|]. apply alt_reads_token.
  repeat apply Forall_cons_2; [..|apply List.Forall_nil];
    auto using condition_statement_reads, if_statement_reads, accept_reads, keyword_false_reads, keyword_true_reads.
Qed.

Lemma statement_reads : reads_token statement_text statement.
Proof. split; intros l s i' o; unfold statement; apply statement_fuel_reads. Qed.

(** ** Whole sources *)

Lemma using_include_reads :
  reads_token (λ _ u t, ∃ ti ta, t = ti ++ ta ∧ ident_text (include_name u) ti ∧ alias_text (alias u) ta)
    using_include.
Proof.
  eapply (reads_token_ext _ _ (ws (λ i, '(input, name) ← compound_identifier i;
    '(input, alias) ← opt (preceded (token "as" PE_AsKeyword) (ws CommonParser.identifier)) input;
    Ok (input, mkInclude name alias)))).
  { intros i. unfold using_include, ws, preceded. by destruct (comment_or_whitespace i) as [[]| |]. }
  apply ws_reads_token. intros l s i' o H. apply bind_Ok_iff in H as ([i1 i] & H1 & H).
  apply bind_Ok_iff in H as ([i2 a] & H2 & [= <- <-]).
  pose proof (λ c, compound_identifier_stops _ _ _ c H1) as Hstop.
  read H1 with compound_identifier_reads as ti r1 Hi.
  read H2 with (opt_reads _ _ (preceded_reads _ _ _ _ (token_reads "as" _) (ws_reads _ _ identifier_reads)))
    as t2 r2 Ha.
  exists (ti ++ t2), r2. split_and!; [cut|cut|]. exists ti, t2. split_and!; [done|done|]. cbn.
  destruct a as [a|]; [|subst t2; constructor].
  destruct Ha as (x & t3 & t4 & -> & (w1 & -> & Hw1) & (w2 & a' & -> & Hw2 & -> & Hseg)).
  rewrite <- !app_assoc. constructor; [done| |done..]. intros ->. by specialize (Hstop 0x61 eq_refl).
Qed.

(** One include, after blanks. *)
Definition include_text (u : Include) (t : rstring) : Prop :=
  ∃ w2 ti ta w3, t = str "using" ++ w2 ++ ti ++ ta ++ w3 ++ str ";" ∧
    blank w2 ∧ ident_text (include_name u) ti ∧ alias_text (alias u) ta ∧ blank w3.

Lemma using_reads :
  reads_token (λ _ u t, include_text u t)
    (delimited (token "using" PE_UsingKeyword) (ws using_include) (token ";" PE_Semicolon)).
Proof.
  eapply reads_token_ext; [intros; apply delimited_ws|]. apply ws_reads_token. intros l s i' o H.
  apply bind_Ok_iff in H as ([i1 x] & H1 & H). apply bind_Ok_iff in H as ([i2 u] & H2 & H).
  apply bind_Ok_iff in H as ([i3 y] & H3 & [= <- <-]).
  read H1 with (map_parser_err_reads _ _ _ (tag_reads _)) as t1 r1 ->.
  read H2 with (reads_ws _ _ using_include_reads) as t2 r2 (w2 & t & -> & Hw2 & (ti & ta & -> & Hi & Ha)).
  read H3 with token_reads as t3 r3 (w3 & -> & Hw3).
  exists (str "using" ++ w2 ++ ti ++ ta ++ w3 ++ str ";"), r3. split_and!; [cut|cut|].
  by exists w2, ti, ta, w3.
Qed.

Lemma using_list_reads : reads (λ _ us t, includes_text us t) using_list.
Proof.
  eapply reads_weaken; [|apply many0_reads, (reads_ws _ _ using_reads)].
  intros l us t H. induction H as [l|l u t us ts (w1 & t1 & -> & Hw1 & H) _ IH]; [constructor|].
  destruct H as (w2 & ti & ta & w3 & -> & Hw2 & Hi & Ha & Hw3). rewrite <- !app_assoc.
  destruct u. by constructor.
Qed.

Lemma until_eof_loop_reads {O} R (f : BindParser O) fuel l s acc i' os :
  reads R f → until_eof_loop f fuel (at_location l s) acc = Ok (i', os) →
  ∃ os' t w, os = acc ++ os' ∧ s = t ++ w ∧ many_text R l os' t ∧ blank w.
Proof.
  intros Hf. revert l s acc. induction fuel as [|fuel IH]; intros l s acc H; cbn in H; [done|].
  apply bind_Ok_iff in H as (rest & H1 & H). case_decide as Hrest.
  - rewrite H1 in H. injection H as <- <-. apply bind_Ok_iff in H1 as ([i1 []] & H1 & [= <-]).
    read H1 with comment_or_whitespace_reads as w r Hw. cbn in Hrest. subst r.
    exists [], [], w. rewrite !app_nil_r. split_and!; [done|done|constructor|done].
  - clear H1. apply bind_Ok_iff in H as ([i1 o] & H1 & H). case_decide; [done|].
    read H1 with Hf as t r HR. apply IH in H as (os' & t' & w & -> & -> & HM & Hw).
    exists (o :: os'), (t ++ t'), w. split_and!; [cut|cut|by constructor|done].
Qed.

(** Blanks before the first of them. *)
Lemma includes_blank w us t : blank w → includes_text us t → us ≠ [] → includes_text us (w ++ t).
Proof.
  intros Hw H Hne. destruct H as [|w1 w2 i ti a ta w3 us tus]; [done|].
  rewrite (app_assoc w w1). constructor; auto using blank_app.
Qed.

Lemma many_blank {O} (R : Location → O → rstring → Prop) w l o os t :
  blank w → many_text (blank_text R) (advance l w) (o :: os) t → many_text (blank_text R) l (o :: os) (w ++ t).
Proof.
  intros Hw H. inversion H as [|? ? t' ? ts (w' & t1 & -> & Hw' & Ho) Hos]; subst.
  rewrite (app_assoc w (w' ++ t1) ts), (app_assoc w w' t1). rewrite !advance_app in *. constructor.
  - exists (w ++ w'), t1. auto using blank_app.
  - by rewrite <- !app_assoc.
Qed.

(** The includes of a source, and everything after them. *)
Lemma includes_then_reads {O} R (f : BindParser O) l s i1 us i2 os :
  reads (blank_text R) (ws f) → ws using_list (at_location l s) = Ok (i1, us) →
  many_until_eof (ws f) i1 = Ok (i2, os) →
  ∃ tus ts w, s = tus ++ ts ++ w ∧ includes_text us tus ∧
    many_text (blank_text R) (advance l tus) os ts ∧ blank w.
Proof.
  intros Hf H1 H2. read H1 with (ws_reads _ _ using_list_reads) as t1 r1 (w0 & tus & -> & Hw0 & Hus).
  apply (until_eof_loop_reads (blank_text R)) in H2 as (os' & t & w & -> & -> & HM & Hw); [|done].
  cbn [app]. destruct (decide (us = [])) as [->|Hne]; last first.
  { exists (w0 ++ tus), t, w. split_and!; [cut|by apply includes_blank|done|done]. }
  inversion Hus; subst. rewrite app_nil_r in *. destruct os' as [|o os'].
  - inversion HM; subst. exists [], [], (w0 ++ w). split_and!; [done|constructor|constructor|by apply blank_app].
  - exists [], (w0 ++ t), w. rewrite advance_nil. split_and!; [cut|constructor|by apply many_blank|done].
Qed.

Lemma rules_sound input ast : run_parser rules input = Ok ast → rules_text ast input.
Proof.
  unfold run_parser. change (new_span input) with (at_location (0, 1) input).
  destruct (rules _) as [[i' ast']|[|e|e]|] eqn:H; try done. intros [= ->].
  apply bind_Ok_iff in H as ([i1 us] & H1 & H). apply bind_Ok_iff in H as ([i2 ss] & H2 & H).
  case_decide; [done|]. injection H as <- <-.
  eapply includes_then_reads in H2 as (tus & ts & w & -> & Hus & HM%statements_many & Hw);
    [|apply (reads_ws _ _ statement_reads)|done]. by constructor.
Qed.
