(* ===== verification/ParserComplete.v ===== *)
(** The parsers of bind rules are complete: a text of the grammar is accepted,
    and read as the syntax tree it stands for, so that with soundness the parser
    recognises the grammar ([rules_try_from_iff]). *)
From Stdlib Require Import ZArith Lia.
From stdpp Require Import base gmap strings countable list.
From S2P Require Import Prelude Format Nom NomCorrect ParserCommon BindRules CommonParser.
From S2P Require Import RulesParser ParserTotal Grammar ParserSound.
Local Open Scope Z_scope.

#[local] Existing Instance unbounded.

(** A parser fails in a way that lets the next alternative be tried. *)
Definition fails {E O} (p : Parser E O) (i : NomSpan) : Prop := ∃ e, p i = Err (Error e).

(** ** Where a text starts and ends *)

(** Neither a space nor a comment starts here. *)
Definition solid_text (s : rstring) : bool :=
  match s with
  | [] => true
  | b :: _ => negb (is_multispace b) && negb (b =? 0x2f)
  end.

(** An identifier or a number that ends here cannot be longer. *)
Definition ends_word (s : rstring) : bool :=
  match s with
  | [] => true
  | b :: _ => negb (is_word b) && negb (b =? 0x2e)
  end.

Lemma multispace_not_word b : is_multispace b = true → is_word b = false ∧ b ≠ 0x2e.
Proof.
  unfold is_multispace, is_word, is_alphanum, is_letter, is_dec_digit. intros H.
  repeat (apply orb_true_iff in H as [H|H]); apply Z.eqb_eq in H as ->; done.
Qed.

Lemma blank_ends_word w r : blank w → ends_word r = true → ends_word (w ++ r) = true.
Proof.
  intros Hw Hr. destruct Hw as [|b w Hb _|t e w _ _ _|t w _ _]; try done.
  apply multispace_not_word in Hb as [H1 H2]. cbn. rewrite H1. by apply Z.eqb_neq in H2 as ->.
Qed.

Lemma blank_cons_ends_word w r : blank w → w ≠ [] → ends_word (w ++ r) = true.
Proof.
  intros Hw Hne. destruct Hw as [|b w Hb _|t e w _ _ _|t w _ _]; try done.
  apply multispace_not_word in Hb as [H1 H2]. cbn. rewrite H1. by apply Z.eqb_neq in H2 as ->.
Qed.

Lemma ends_word_word r c : ends_word r = true → head r = Some c → is_word c = false.
Proof. destruct r as [|b r]; [done|]. cbn. intros [H _]%andb_true_iff [= <-]. by apply negb_true_iff. Qed.

Lemma ends_word_dot r : ends_word r = true → head r ≠ Some 0x2e.
Proof. destruct r as [|b r]; [done|]. cbn. intros [_ H]%andb_true_iff [= ->]. done. Qed.

Lemma word_solid b r : is_word b = true → solid_text (b :: r) = true.
Proof.
  intros Hb. cbn. destruct (is_multispace b) eqn:H.
  - apply multispace_not_word in H as [H _]. by rewrite H in Hb.
  - cbn. destruct (Z.eqb_spec b 0x2f) as [->|]; [done|]. done.
Qed.

(** Some of the input was taken. *)
Ltac moved :=
  let H := fresh "Hmoved" in
  case_decide as H;
  [exfalso; apply (f_equal (length ∘ fragment)) in H; cbn in H;
   repeat (rewrite ?length_app in H; cbn in H); lia|].

(** ** Basic parsers *)

Lemma compare_str_Ok s x : compare_str s x = Compare_Ok ↔ x `prefix_of` s.
Proof.
  split; [|by intros [r ->]; apply compare_str_prefix]. revert s.
  induction x as [|b x IH]; intros [|a s]; cbn; try done; try (intros; apply prefix_nil).
  destruct (Z.eqb_spec a b) as [->|]; [|done]. intros H%IH. by apply prefix_cons.
Qed.

Lemma tag_fails {E} `{!ParseError E} x l s : ¬ x `prefix_of` s → fails (tag (E := E) x) (at_location l s).
Proof.
  intros Hx. unfold fails, tag. cbn [fragment at_location].
  destruct (compare_str s x) eqn:Hc; [by apply compare_str_Ok in Hc|by eexists..].
Qed.

Lemma map_parser_err_fails {O} (p : PairParser O) f i : fails p i → fails (map_parser_err p f) i.
Proof. intros [[i' k] H]. unfold fails, map_parser_err. rewrite H. by eexists. Qed.

Lemma bind_fails {E A O} (m : IResult E A) (k : NomSpan * A → IResult E O) :
  (∃ e, m = Err (Error e)) → ∃ e, m ≫= k = Err (Error e).
Proof. intros [e ->]. by exists e. Qed.

Lemma position_app p t r :
  Forall (λ b, p b = false) t →
  position p (t ++ r) = match position p r with Some k => Some (length t + k)%nat | None => None end.
Proof.
  induction 1 as [|b t Hb _ IH]; cbn; [by destruct (position p r)|].
  rewrite Hb, IH. by destruct (position p r).
Qed.

Lemma split_at_position1_complete_ok {E} `{!ParseError E} p k l t r :
  t ≠ [] → Forall (λ b, p b = false) t → (∀ c, head r = Some c → p c = true) →
  split_at_position1_complete (E := E) p k (at_location l (t ++ r)) =
    Ok (at_location (advance l t) r, at_location l t).
Proof.
  intros Hne Ht Hr. unfold split_at_position1_complete. cbn [fragment at_location].
  rewrite position_app by done. rewrite !take_split_unbounded. destruct r as [|c r].
  - cbn. rewrite app_nil_r. case_decide; [done|]. 
    rewrite <- (app_nil_r t) at 2 4. by rewrite slice_from_text, slice_to_text.
  - cbn [position]. rewrite (Hr c) by done. cbn [fmap option_fmap option_map]. rewrite Nat.add_0_r.
    destruct (length t) as [|n] eqn:Hn; [by apply nil_length_inv in Hn|]. rewrite <- Hn.
    by rewrite take_split_unbounded, slice_from_text, slice_to_text.
Qed.

Lemma split_at_position1_fails {E} `{!ParseError E} p k l s :
  (∀ c, head s = Some c → p c = true) → fails (split_at_position1_complete (E := E) p k) (at_location l s).
Proof.
  intros Hs. unfold fails, split_at_position1_complete. cbn [fragment at_location].
  destruct s as [|c s]; cbn; [by eexists|]. rewrite (Hs c) by done. by eexists.
Qed.

(** ** Whitespace and comments *)

(** The loop ends at the comment's end. *)
Lemma comment_end_complete depth t r :
  comment_text depth t → (0 < depth)%nat → comment_end (t ++ r) (Z.of_nat depth) = (0, r).
Proof.
  induction 1 as [|depth t Ht IH|depth t Ht IH|depth b t Ht IH Hc Ho]; intros Hd.
  - done.
  - change ((str "*/" ++ t) ++ r) with (0x2a :: 0x2f :: t ++ r). cbn [comment_end].
    rewrite andb_false_r. cbn [Z.eqb Pos.eqb andb].
    rewrite (proj2 (Z.eqb_neq (Z.of_nat (S (S depth)) - 1) 0)) by lia.
    replace (Z.of_nat (S (S depth)) - 1) with (Z.of_nat (S depth)) by lia. apply IH. lia.
  - change ((str "/*" ++ t) ++ r) with (0x2f :: 0x2a :: t ++ r). cbn [comment_end Z.eqb Pos.eqb andb].
    replace (Z.of_nat depth + 1) with (Z.of_nat (S depth)) by lia. apply IH. lia.
  - destruct t as [|c t]; [by apply comment_text_nonempty in Ht|]. specialize (IH Hd).
    change ((b :: c :: t) ++ r) with (b :: (c :: t) ++ r). cbn [comment_end app].
    destruct ((b =? 47) && (c =? 42)) eqn:H1; [|destruct ((b =? 42) && (c =? 47)) eqn:H2; [|exact IH]].
    + apply andb_true_iff in H1 as [->%Z.eqb_eq ->%Z.eqb_eq]. destruct Ho. by exists t.
    + apply andb_true_iff in H2 as [->%Z.eqb_eq ->%Z.eqb_eq]. destruct Hc. by exists t.
Qed.

Lemma multiline_comment_complete l t r :
  comment_text 1 t →
  multiline_comment (at_location l (str "/*" ++ t ++ r)) =
    Ok (at_location (advance l (str "/*" ++ t)) r, ()).
Proof.
  intros Ht. unfold multiline_comment. rewrite tag_prefix. cbn [mbind outcome_bind].
  change (fragment (at_location (advance l (str "/*")) (t ++ r))) with (t ++ r).
  rewrite comment_loop_unbounded, (comment_end_complete 1) by (done || lia). cbn [mbind outcome_bind Z.eqb negb].
  rewrite length_app. replace (_ + _ - _)%nat with (length t) by lia.
  by rewrite slice_unbounded, slice_from_text, advance_app.
Qed.

Lemma singleline_comment_complete l t e r :
  Forall (λ b, b ≠ 0x0d ∧ b ≠ 0x0a) t → e = [0x0a] ∨ e = [0x0d; 0x0a] →
  singleline_comment (at_location l (str "//" ++ t ++ e ++ r)) =
    Ok (at_location (advance l (str "//" ++ t ++ e)) r, ()).
Proof.
  intros Ht He. unfold singleline_comment, pvalue, tuple3. rewrite tag_prefix. cbn [mbind outcome_bind].
  assert (Forall (λ b, (b =? 13) || (b =? 10) = false) t) as Hp.
  { eapply Forall_impl; [exact Ht|]. intros b [H1 H2]. lia. }
  assert (not_line_ending (E := BindParserError) (at_location (advance l (str "//")) (t ++ e ++ r)) =
    Ok (at_location (advance l (str "//" ++ t)) (e ++ r), at_location (advance l (str "//")) t)) as ->.
  { unfold not_line_ending. cbn [fragment at_location]. rewrite position_app by done.
    assert (position (λ c, (c =? 13) || (c =? 10)) (e ++ r) = Some 0%nat) as -> by (by destruct He as [-> | ->]).
    rewrite Nat.add_0_r, drop_app_length. rewrite ?take_split_unbounded.
    rewrite slice_from_text, slice_to_text, advance_app.
    destruct He as [-> | ->]; [done|]. by rewrite (compare_str_prefix [13; 10] r). }
  cbn [mbind outcome_bind]. unfold line_ending.
  change (fragment (at_location (advance l (str "//" ++ t)) (e ++ r))) with (e ++ r). rewrite ?take_split_unbounded.
  destruct He as [-> | ->].
  - rewrite (compare_str_prefix [10] r). cbn [mbind outcome_bind app].
    by rewrite ?take_split_unbounded, slice_from_1, advance_app, <- app_assoc.
  - rewrite (compare_str_prefix [13; 10] r). cbn [mbind outcome_bind app compare_str Z.eqb Pos.eqb].
    rewrite ?take_split_unbounded, (slice_from_text _ [13; 10] r : slice_from 2 _ = _). by rewrite advance_app, <- app_assoc.
Qed.

Abbreviation blank_round := (alt [pvalue () multispace1; multiline_comment; singleline_comment]).

Lemma blank_round_fails l r : solid_text r = true → fails blank_round (at_location l r).
Proof.
  intros Hr. unfold fails, alt. cbn [alt_choice]. unfold pvalue at 1.
  destruct (split_at_position1_fails (E := BindParserError) (λ b, negb (is_multispace b)) EK_MultiSpace l r)
    as [e He].
  { intros c Hc. destruct r as [|b r]; [done|]. injection Hc as ->. by apply andb_true_iff in Hr as []. }
  unfold multispace1. rewrite He. cbn [mbind outcome_bind].
  assert (∀ x, fails (tag (E := BindParserError) (0x2f :: x)) (at_location l r)) as Htag.
  { intros x. apply tag_fails. intros [k ->]. done. }
  unfold multiline_comment, singleline_comment, pvalue, tuple3.
  destruct (Htag [0x2a]) as [e1 He1]. change (str "/*") with [0x2f; 0x2a]. rewrite He1. cbn [mbind outcome_bind].
  destruct (Htag [0x2f]) as [e2 He2]. change (str "//") with [0x2f; 0x2f]. rewrite He2. by eexists.
Qed.

Lemma text_solid l r : solid_text r = true → solid (at_location l r).
Proof.
  intros Hr. unfold solid, comment_or_whitespace, pvalue at 1, many0. cbn [many_loop].
  by destruct (blank_round_fails l r Hr) as [e ->].
Qed.

(** The spaces a blank starts with. *)
Lemma blank_split w :
  blank w → ∃ t w', w = t ++ w' ∧ Forall (λ b, is_multispace b = true) t ∧ blank w' ∧
    ∀ c, head w' = Some c → is_multispace c = false.
Proof.
  induction 1 as [|b w Hb Hw (t & w' & -> & Ht & Hw' & Hh)|t e w Ht He Hw _|t w Ht Hw _].
  - exists [], []. split_and!; [done|constructor|constructor|done].
  - exists (b :: t), w'. split_and!; [done|by constructor|done|done].
  - eexists [], _. split_and!; [done|constructor|by constructor|]. by intros c [= <-].
  - eexists [], _. split_and!; [done|constructor|by constructor|]. by intros c [= <-].
Qed.

(** One round takes the first piece. *)
Lemma blank_round_complete l w r :
  blank w → w ≠ [] → solid_text r = true →
  ∃ t w', w = t ++ w' ∧ t ≠ [] ∧ blank w' ∧
    blank_round (at_location l (w ++ r)) = Ok (at_location (advance l t) (w' ++ r), ()).
Proof.
  intros Hw Hne Hr. destruct (blank_split w Hw) as (t & w' & -> & Ht & Hw' & Hh).
  destruct (decide (t = [])) as [->|Htne].
  - cbn [app] in *. assert (fails (multispace1 (E := BindParserError)) (at_location l (w' ++ r))) as [e He].
    { apply split_at_position1_fails. intros c Hc. apply negb_true_iff, Hh. by destruct w'. }
    clear Hw. destruct Hw' as [|b w Hb _|t e' w Ht' He' Hw|t w Ht' Hw]; [done|..].
    + by rewrite (Hh b eq_refl) in Hb.
    + exists (str "//" ++ t ++ e'), w. split_and!; [by rewrite <- !app_assoc|done|done|].
      unfold alt. cbn [alt_choice]. unfold pvalue at 1. rewrite He. cbn [mbind outcome_bind].
      rewrite <- !app_assoc in *. unfold multiline_comment at 1.
      rewrite singleline_comment_complete by done. done.
    + exists (str "/*" ++ t), w. split_and!; [by rewrite <- !app_assoc|done|done|].
      unfold alt. cbn [alt_choice]. unfold pvalue at 1. rewrite He. cbn [mbind outcome_bind].
      rewrite <- !app_assoc in *. by rewrite multiline_comment_complete by done.
  - exists t, w'. split_and!; [done..|]. unfold alt. cbn [alt_choice]. unfold pvalue at 1, multispace1.
    rewrite <- app_assoc, split_at_position1_complete_ok; [done|done|..].
    + eapply Forall_impl; [exact Ht|]. intros b. by apply negb_false_iff.
    + intros c Hc. apply negb_true_iff. destruct w' as [|b w']; [|by apply Hh].
      destruct r as [|b r]; [done|]. injection Hc as ->. apply andb_true_iff in Hr as [H _].
      by apply negb_true_iff.
Qed.

Lemma blank_loop_complete fuel l w r acc :
  blank w → solid_text r = true → (length w < fuel)%nat →
  ∃ acc', many_loop EK_Many0 blank_round fuel (at_location l (w ++ r)) acc =
    Ok (at_location (advance l w) r, acc').
Proof.
  revert l w acc. induction fuel as [|fuel IH]; intros l w acc Hw Hr Hf; [lia|]. cbn [many_loop].
  destruct (decide (w = [])) as [->|Hne].
  - cbn [app]. destruct (blank_round_fails l r Hr) as [e ->]. rewrite advance_nil. eauto.
  - destruct (blank_round_complete l w r) as (t & w' & -> & Ht & Hw' & ->); [done..|].
    case_decide as Heq.
    { apply (f_equal (length ∘ fragment)) in Heq. cbn in Heq. rewrite !length_app in Heq.
      destruct t; [done|cbn in Heq; lia]. }
    destruct (IH (advance l t) w' (acc ++ [()])) as [acc' ->]; [done..| |].
    { rewrite length_app in Hf. destruct t; [done|cbn in Hf; lia]. }
    rewrite advance_app. eauto.
Qed.

Lemma comment_or_whitespace_complete l w r :
  blank w → solid_text r = true →
  comment_or_whitespace (at_location l (w ++ r)) = Ok (at_location (advance l w) r, ()).
Proof.
  intros Hw Hr. unfold comment_or_whitespace, pvalue at 1, many0.
  destruct (blank_loop_complete (S (length (w ++ r))) l w r []) as [acc H]; [done..| |].
  { rewrite length_app. lia. }
  change (length (fragment (at_location l (w ++ r)))) with (length (w ++ r)). by rewrite H.
Qed.

(** Blanks before a parser are skipped. *)
Lemma ws_blank {O} (p : BindParser O) l w r :
  blank w → solid_text r = true → ws p (at_location l (w ++ r)) = p (at_location (advance l w) r).
Proof. intros Hw Hr. unfold ws, preceded. by rewrite comment_or_whitespace_complete. Qed.

Lemma skip_ws_blank l w r :
  blank w → solid_text r = true → skip_ws (at_location l (w ++ r)) = Ok (at_location (advance l w) r).
Proof. intros Hw Hr. unfold skip_ws. by rewrite comment_or_whitespace_complete. Qed.

Lemma token_complete x f l w r :
  blank w → solid_text (str x ++ r) = true →
  token x f (at_location l (w ++ str x ++ r)) =
    Ok (at_location (advance l (w ++ str x)) r, at_location (advance l w) (str x)).
Proof.
  intros Hw Hr. unfold token. rewrite ws_blank by done. unfold map_parser_err.
  by rewrite tag_prefix, advance_app.
Qed.

Lemma token_complete_solid x f l r :
  solid_text (str x ++ r) = true →
  token x f (at_location l (str x ++ r)) = Ok (at_location (advance l (str x)) r, at_location l (str x)).
Proof.
  intros Hr. pose proof (token_complete x f l [] r Blank_nil Hr) as H. by rewrite advance_nil in H.
Qed.

Lemma token_fails x f l w r :
  blank w → solid_text r = true → ¬ str x `prefix_of` r → fails (token x f) (at_location l (w ++ r)).
Proof.
  intros Hw Hr Hx. unfold fails, token. rewrite ws_blank by done.
  by apply map_parser_err_fails, tag_fails.
Qed.

(** ** Identifiers *)

Lemma identifier_complete l s r :
  segment s = true → (∀ c, head r = Some c → is_word c = false) →
  CommonParser.identifier (at_location l (s ++ r)) = Ok (at_location (advance l s) r, s).
Proof.
  intros Hs Hr. unfold CommonParser.identifier. cbn [fragment at_location].
  rewrite identifier_re_complete by done. rewrite slice_unbounded, slice_from_text, slice_to_text. done.
Qed.

Lemma identifier_fails l s :
  (∀ c, head s = Some c → is_letter c = false) → fails CommonParser.identifier (at_location l s).
Proof.
  intros Hs. unfold fails, CommonParser.identifier. cbn [fragment at_location].
  destruct s as [|b s]; [by eexists|]. rewrite re_find_identifier, (Hs b) by done. by eexists.
Qed.

Lemma compound_identifier_fails l s :
  (∀ c, head s = Some c → is_letter c = false) → fails compound_identifier (at_location l s).
Proof.
  intros Hs. unfold fails, compound_identifier, separated_nonempty_list.
  by destruct (identifier_fails l s Hs) as [e ->]; exists e.
Qed.

(** The segments after the first one. *)
Definition dotted (ss : list rstring) : rstring := concat ((λ s, str "." ++ s) <$> ss).

Lemma join_dotted s ss : join (str ".") (s :: ss) = s ++ dotted ss.
Proof.
  revert s. induction ss as [|s' ss IH]; intros s; [cbn; by rewrite app_nil_r|].
  change (join (str ".") (s :: s' :: ss)) with (s ++ str "." ++ join (str ".") (s' :: ss)).
  rewrite IH. unfold dotted. cbn. by rewrite <- ?app_assoc.
Qed.

Lemma dotted_head ss r c :
  ends_word r = true → head (dotted ss ++ r) = Some c → is_word c = false.
Proof. destruct ss; cbn; [apply ends_word_word|]. by intros _ [= <-]. Qed.

Lemma segments_complete fuel l ss r acc :
  Forall (λ s, segment s = true) ss → ends_word r = true → (length ss < fuel)%nat →
  separated_loop (E := BindParserError) (tag (str ".")) CommonParser.identifier fuel (at_location l (dotted ss ++ r)) acc =
    Ok (at_location (advance l (dotted ss)) r, acc ++ ss).
Proof.
  intros Hss Hr. revert fuel l acc. induction Hss as [|s ss Hs Hss IH]; intros [|fuel] l acc Hf;
    cbn [length] in Hf; try lia; cbn [separated_loop].
  - change (dotted []) with (@nil Z). cbn [app]. rewrite advance_nil, app_nil_r.
    destruct (tag_fails (E := BindParserError) (str ".") l r) as [e ->]; [|done].
    intros [k ->]. by apply (ends_word_dot _ Hr).
  - change (dotted (s :: ss)) with ((str "." ++ s) ++ dotted ss). rewrite <- !app_assoc, tag_prefix.
    moved. rewrite identifier_complete; [|done|]; [|intros c; by apply dotted_head]. moved.
    rewrite IH by lia. by rewrite !advance_app, <- !app_assoc.
Qed.

Lemma dotted_length ss : (length ss <= length (dotted ss))%nat.
Proof.
  induction ss as [|s ss IH]; [done|]. change (dotted (s :: ss)) with (str "." ++ s ++ dotted ss).
  rewrite !length_app. cbn. lia.
Qed.

Lemma segments_ident s ss : ∃ i, to_string i = s ++ dotted ss ∧ namespace i ++ [name i] = s :: ss.
Proof.
  destruct (exists_last (l := s :: ss)) as (ns & n & Hn); [done|]. exists (mkIdent ns n).
  split; [|done]. rewrite to_string_join, <- join_dotted. by f_equal.
Qed.

Lemma ident_text_segments i t :
  ident_text i t → ∃ s ss, namespace i ++ [name i] = s :: ss ∧ t = s ++ dotted ss ∧
    segment s = true ∧ Forall (λ s, segment s = true) ss.
Proof.
  intros [-> Hall]. destruct i as [ns n]. cbn in *. rewrite to_string_join.
  destruct (ns ++ [n]) as [|s ss] eqn:Hs; [by destruct ns|]. rewrite Forall_cons in Hall.
  exists s, ss. rewrite join_dotted. by destruct Hall.
Qed.

Lemma segments_ident_text s ss :
  segment s = true → Forall (λ s, segment s = true) ss → ∃ i, ident_text i (s ++ dotted ss).
Proof.
  intros Hs Hss. destruct (segments_ident s ss) as (i & <- & Hi). exists i. split; [done|].
  rewrite Hi. by constructor.
Qed.

Lemma compound_identifier_complete l i t r :
  ident_text i t → ends_word r = true →
  compound_identifier (at_location l (t ++ r)) = Ok (at_location (advance l t) r, i).
Proof.
  intros (s & ss & Hi & -> & Hs & Hss)%ident_text_segments Hr. rewrite <- app_assoc.
  unfold compound_identifier, separated_nonempty_list.
  rewrite identifier_complete; [|done|]; [|intros c; by apply dotted_head]. cbn [mbind outcome_bind].
  case_decide as Heq.
  { apply (f_equal (length ∘ fragment)) in Heq. cbn in Heq. rewrite !length_app in Heq. by destruct s; [|cbn in Heq; lia]. }
  rewrite segments_complete; [|done|done|]; last first.
  { cbn. rewrite length_app. pose proof (dotted_length ss). lia. }
  cbn [mbind outcome_bind]. rewrite advance_app. change ([s] ++ ss) with (s :: ss). rewrite <- Hi.
  rewrite last_snoc, removelast_last. by destruct i.
Qed.

Lemma ident_text_head i t : ident_text i t → ∃ b t', t = b :: t' ∧ is_letter b = true.
Proof.
  intros (s & ss & _ & -> & (b & u & e & -> & Hb & _)%segment_spec & _)%ident_text_segments.
  by exists b, (u ++ dotted ss).
Qed.

Lemma letter_word b : is_letter b = true → is_word b = true.
Proof. unfold is_word, is_alphanum. by intros ->. Qed.

Lemma ident_text_solid i t r : ident_text i t → solid_text (t ++ r) = true.
Proof. intros (b & t' & -> & Hb)%ident_text_head. by apply word_solid, letter_word. Qed.

(** A word before an identifier makes a longer one. *)
Lemma ident_text_prepend x i t :
  segment x = true → ident_text i t → ∃ i', ident_text i' (x ++ t).
Proof.
  intros (b & u & e & -> & Hb & Hu & He & Ha)%segment_spec
    (s & ss & _ & -> & (b' & u' & e' & -> & Hb' & Hu' & He' & Ha')%segment_spec & Hss)%ident_text_segments.
  rewrite app_assoc. apply segments_ident_text; [|done]. apply segment_spec.
  exists b, (u ++ b' :: u'), e'. split_and!; [done|done| | |done].
  - apply Forall_app. split; [done|]. constructor; [by apply letter_word|done].
  - rewrite last_app, He'. done.
Qed.

(** ** Literals *)

Lemma prefix_word_head x t r :
  Forall (λ b, is_word b = true) x → (∀ c, head r = Some c → is_word c = false) →
  x `prefix_of` t ++ r → x `prefix_of` t.
Proof.
  intros Hx Hr. revert t. induction Hx as [|b x Hb _ IH]; intros t; [intros; apply prefix_nil|].
  destruct t as [|c t]; cbn [app].
  - intros [k ->]. by rewrite (Hr b) in Hb.
  - intros [k [= -> Hk]]. apply prefix_cons, IH. by exists k.
Qed.

Lemma prefix_word x t r :
  Forall (λ b, is_word b = true) x → ends_word r = true → x `prefix_of` t ++ r → x `prefix_of` t.
Proof. intros Hx Hr. apply prefix_word_head; [done|]. intros c. by apply ends_word_word. Qed.

Lemma digit_word b : is_dec_digit b = true → is_word b = true.
Proof. unfold is_word, is_alphanum. intros ->. by rewrite orb_true_r. Qed.

Lemma hex_digit_word b : is_hex_digit b = true → is_word b = true.
Proof.
  unfold is_word, is_alphanum, is_hex_digit, is_letter. destruct (is_dec_digit b); [by rewrite orb_true_r|].
  intros H. assert ((0x61 <=? b) && (b <=? 0x7a) || (0x41 <=? b) && (b <=? 0x5a) = true) as ->; [|done]. lia.
Qed.

Lemma numeric_literal_complete l n t r :
  number_text n t → ends_word r = true →
  numeric_literal (at_location l (t ++ r)) = Ok (at_location (advance l t) r, n).
Proof.
  intros Ht Hr. unfold numeric_literal, map_parser_err, alt. cbn [alt_choice]. unfold map_res.
  destruct Ht as [t Ht Hn|t Ht Hn].
  - destruct (tag_fails (E := NomSpan * ErrorKind) (str "0x") l (t ++ r)) as [e He].
    { intros Hp%prefix_word; [|by repeat constructor|done]. destruct Hp as [k ->].
      change (str "0x" ++ k) with (0x30 :: 0x78 :: k) in Ht. by inversion Ht as [|? ? _ Hx]; inversion Hx. }
    unfold preceded. rewrite He. cbn [mbind outcome_bind]. unfold digit1.
    rewrite split_at_position1_complete_ok; [|by intros ->| |].
    + cbn. by rewrite Hn.
    + eapply Forall_impl; [exact Ht|]. intros b. by apply negb_false_iff.
    + intros c Hc. apply negb_true_iff. destruct (is_dec_digit c) eqn:Hd; [|done].
      apply digit_word in Hd. by rewrite (ends_word_word r c Hr Hc) in Hd.
  - unfold preceded. rewrite <- app_assoc, tag_prefix. cbn [mbind outcome_bind]. unfold hex_digit1.
    rewrite split_at_position1_complete_ok; [|by intros ->| |].
    + cbn. rewrite Hn. by rewrite advance_app.
    + eapply Forall_impl; [exact Ht|]. intros b. by apply negb_false_iff.
    + intros c Hc. apply negb_true_iff. destruct (is_hex_digit c) eqn:Hd; [|done].
      apply hex_digit_word in Hd. by rewrite (ends_word_word r c Hr Hc) in Hd.
Qed.

Lemma numeric_literal_fails l s :
  (∀ c, head s = Some c → is_dec_digit c = false) → fails numeric_literal (at_location l s).
Proof.
  intros Hs. apply map_parser_err_fails. unfold fails, alt. cbn [alt_choice]. unfold map_res, preceded.
  destruct (tag_fails (E := NomSpan * ErrorKind) (str "0x") l s) as [e ->].
  { intros [k ->]. by specialize (Hs 0x30 eq_refl). }
  cbn [mbind outcome_bind]. unfold digit1.
  destruct (split_at_position1_fails (E := NomSpan * ErrorKind) (λ b, negb (is_dec_digit b)) EK_Digit l s)
    as [e' ->]; [|by eexists]. intros c Hc. by apply negb_true_iff, Hs.
Qed.

Lemma bool_literal_fails l s :
  ¬ str "true" `prefix_of` s → ¬ str "false" `prefix_of` s → fails bool_literal (at_location l s).
Proof.
  intros H1 H2. apply map_parser_err_fails. unfold fails, alt. cbn [alt_choice]. unfold pvalue.
  destruct (tag_fails (E := NomSpan * ErrorKind) _ l _ H1) as [e1 ->].
  destruct (tag_fails (E := NomSpan * ErrorKind) _ l _ H2) as [e2 ->]. by eexists.
Qed.

Lemma string_literal_fails l s : head s ≠ Some 0x22 → fails string_literal (at_location l s).
Proof.
  intros Hs. apply map_parser_err_fails. unfold fails, pmap, quoted, delimited, char. cbn [fragment at_location].
  destruct s as [|b s]; [by eexists|]. destruct (Z.eqb_spec b 0x22) as [->|]; [done|]. by eexists.
Qed.

(** The characters a string starts with, up to a backslash or its end. *)
Lemma quotable_split s :
  quotable s → ∃ t s', s = t ++ s' ∧ Forall (λ b, bool_decide (b ∈ [0x5c; 0x22]) = false) t ∧ quotable s' ∧
    (s' = [] ∨ ∃ c s'', s' = 0x5c :: c :: s'' ∧ c ∈ [0x5c; 0x22] ∧ quotable s'').
Proof.
  induction 1 as [|b s H1 H2 Hs (t & s' & -> & Ht & Hs' & Hor)|b s Hb Hs _].
  - exists [], []. split_and!; [done|constructor|constructor|by left].
  - exists (b :: t), s'. split_and!; [done| |done|done]. constructor; [|done].
    apply bool_decide_eq_false_2. by rewrite !elem_of_cons, elem_of_nil; intros [?|[?|[]]].
  - exists [], (0x5c :: b :: s). split_and!; [done|constructor|by constructor|]. right.
    exists b, s. split_and!; [done| |done]. by destruct Hb as [-> | ->]; repeat constructor.
Qed.

Lemma char_complete {E} `{!ParseError E} l c r :
  char (E := E) c (at_location l (c :: r)) = Ok (at_location (advance l [c]) r, c).
Proof. unfold char. cbn [fragment at_location]. by rewrite Z.eqb_refl, slice_unbounded, slice_from_1. Qed.

Lemma one_of_complete {E} `{!ParseError E} l cs c r :
  c ∈ cs → one_of (E := E) cs (at_location l (c :: r)) = Ok (at_location (advance l [c]) r, c).
Proof.
  intros Hc. unfold one_of. cbn [fragment at_location]. rewrite bool_decide_eq_true_2 by done.
  by rewrite slice_unbounded, slice_from_1.
Qed.

Lemma string_char_stops l c r :
  c ∈ [0x5c; 0x22] → ∃ e, string_char (at_location l (c :: r)) = Err (Error e).
Proof.
  intros Hc. apply split_at_position1_fails. intros b [= <-]. by apply bool_decide_eq_true_2.
Qed.

Lemma escaped_loop_complete fuel l pre s r :
  quotable s → pre ++ s ≠ [] → (length s < fuel)%nat →
  escaped_loop string_char 0x5c string_escape (at_location l (pre ++ s ++ 0x22 :: r)) fuel
      (at_location (advance l pre) (s ++ 0x22 :: r)) =
    Ok (at_location (advance l (pre ++ s)) (0x22 :: r), at_location l (pre ++ s)).
Proof.
  revert pre s. induction fuel as [|fuel IH]; intros pre s Hs Hne Hf; [lia|]. cbn [escaped_loop].
  rewrite !slice_unbounded. cbn [mbind outcome_bind].
  change (fragment (at_location (advance l pre) (s ++ 0x22 :: r))) with (s ++ 0x22 :: r).
  destruct (quotable_split s Hs) as (t & s' & -> & Ht & Hs' & Hor).
  assert (∀ x y, x ++ y = t ++ s' → quotable y → (length y < length (t ++ s'))%nat →
    escaped_loop string_char 0x5c string_escape (at_location l (pre ++ (t ++ s') ++ 0x22 :: r)) fuel
      (at_location (advance (advance l pre) x) (y ++ 0x22 :: r)) =
    Ok (at_location (advance l (pre ++ t ++ s')) (0x22 :: r), at_location l (pre ++ t ++ s'))) as Hrec.
  { intros x y Hxy Hy Hlen. specialize (IH (pre ++ x) y Hy). rewrite <- !app_assoc, Hxy in IH.
    rewrite advance_app. replace (pre ++ (t ++ s') ++ 0x22 :: r) with (pre ++ x ++ y ++ 0x22 :: r)
      by (rewrite (app_assoc x y), Hxy; done).
    apply IH; [done|lia]. }
  destruct t as [|b t].
  - destruct Hor as [->|(c & s'' & -> & Hc & Hs'')]; cbn [app].
    + destruct (string_char_stops (advance l pre) 0x22 r) as [e ->]; [by repeat constructor|].
      cbn [Z.eqb Pos.eqb]. rewrite app_nil_r in *.
      change (location_offset (at_location (advance l pre) _) - location_offset (at_location l _))
        with (l.1 + len pre - l.1).
      rewrite (proj2 (Z.eqb_neq _ _)) by (unfold len; destruct pre; [done|cbn; lia]).
      replace (Z.to_nat (l.1 + len pre - l.1)) with (length pre) by (unfold len; lia).
      rewrite ?take_split_unbounded. by rewrite slice_from_text, slice_to_text.
    + destruct (string_char_stops (advance l pre) 0x5c (c :: s'' ++ 0x22 :: r)) as [e ->]; [by repeat constructor|].
      cbn [Z.eqb Pos.eqb]. case_decide as Hlen; [cbn in Hlen; lia|]. rewrite slice_from_1.
      rewrite one_of_complete by done. rewrite (advance_app (advance l pre)). case_decide as Hnil; [by destruct s''|].
      apply (Hrec [0x5c; c] s''); [done|done|cbn; lia].
  - rewrite <- app_assoc. cbn [app]. rewrite (app_comm_cons t (s' ++ _) b).
    unfold string_char at 1. rewrite split_at_position1_complete_ok; [|done|done|].
    + case_decide as Hnil; [by destruct s'|]. rewrite (app_assoc (b :: t) s').
      apply (Hrec (b :: t) s'); [done|done|cbn; rewrite length_app; lia].
    + intros c Hc. apply bool_decide_eq_true_2.
      by destruct Hor as [->|(? & ? & -> & _)]; injection Hc as <-; repeat constructor.
Qed.

Lemma quoted_complete l s r :
  quotable s → s ≠ [] →
  ∃ o, quoted (at_location l (quote_text s ++ r)) = Ok (at_location (advance l (quote_text s)) r, o) ∧
    fragment o = s.
Proof.
  intros Hs Hne. unfold quoted, delimited, quote_text. cbn [app]. rewrite <- app_assoc. cbn [app].
  rewrite char_complete. cbn [mbind outcome_bind]. unfold escaped.
  pose proof (escaped_loop_complete (S (length (s ++ 0x22 :: r))) (advance l [0x22]) [] s r Hs) as H.
  rewrite advance_nil in H. cbn [app] in H.
  change (length (fragment (at_location (advance l [0x22]) (s ++ 0x22 :: r)))) with (length (s ++ 0x22 :: r)).
  rewrite H; [|done|rewrite length_app; lia]. cbn [mbind outcome_bind].
  rewrite char_complete. cbn [mbind outcome_bind]. rewrite !advance_app. by eexists.
Qed.

Lemma string_literal_complete l s r :
  quotable s → s ≠ [] →
  string_literal (at_location l (quote_text s ++ r)) = Ok (at_location (advance l (quote_text s)) r, s).
Proof.
  intros Hs Hne. unfold string_literal, map_parser_err, pmap.
  destruct (quoted_complete l s r Hs Hne) as (o & -> & <-). done.
Qed.

(** ** Values and conditions *)

Lemma from_to_complete {E} l s t r i :
  s = t ++ r → i = at_location (advance l t) r →
  from_to (E := E) (at_location l s) i = Ok (span_of l t).
Proof. intros -> ->. apply from_to_text. Qed.

Lemma number_text_head n t : number_text n t → ∃ b t', t = b :: t' ∧ is_dec_digit b = true.
Proof.
  destruct 1 as [t Ht Hn|t Ht Hn]; [|by eexists _, _].
  destruct Ht as [|b t Hb Ht]; [done|]. by exists b, t.
Qed.

Lemma value_text_solid v t r : value_text v t → solid_text (t ++ r) = true.
Proof.
  destruct 1 as [n t Hn|s Hs Hne| | |i t Hi]; try done.
  - apply number_text_head in Hn as (b & t' & -> & Hb). by apply word_solid, digit_word.
  - by eapply ident_text_solid.
Qed.

Lemma value_text_length v t : value_text v t → (0 < length t)%nat.
Proof.
  destruct 1 as [n t Hn|s Hs Hne| | |i t Hi]; try (cbn; lia).
  - apply number_text_head in Hn as (b & t' & -> & _). cbn. lia.
  - apply ident_text_head in Hi as (b & t' & -> & _). cbn. lia.
Qed.

Lemma letter_not_digit b : is_letter b = true → is_dec_digit b = false.
Proof. unfold is_letter, is_dec_digit. lia. Qed.

Lemma letter_not c b : is_letter b = true → is_letter c = false → b ≠ c.
Proof. congruence. Qed.

Lemma condition_value_complete l w v t r :
  blank w → value_text v t → ends_word r = true →
  condition_value (at_location l (w ++ t ++ r)) = Ok (at_location (advance l (w ++ t)) r, v).
Proof.
  intros Hw Hv Hr. pose proof (value_text_solid v t r Hv) as Hsolid.
  unfold condition_value, alt. cbn [alt_choice]. unfold pmap. rewrite !ws_blank, <- advance_app by done.
  destruct Hv as [n t Hn|s Hs Hne| | |i t Hi Ht Hf].
  - destruct (number_text_head n t Hn) as (b & t' & Heq & Hb).
    destruct (string_literal_fails (advance l w) (t ++ r)) as [e ->].
    { rewrite Heq. intros [= ->]. done. }
    cbn [mbind outcome_bind]. by rewrite (numeric_literal_complete _ n).
  - by rewrite string_literal_complete.
  - destruct (string_literal_fails (advance l w) (str "true" ++ r)) as [e ->]; [done|].
    destruct (numeric_literal_fails (advance l w) (str "true" ++ r)) as [e' ->]; [by intros c [= <-]|].
    cbn [mbind outcome_bind]. by rewrite (bool_literal_complete _ true).
  - destruct (string_literal_fails (advance l w) (str "false" ++ r)) as [e ->]; [done|].
    destruct (numeric_literal_fails (advance l w) (str "false" ++ r)) as [e' ->]; [by intros c [= <-]|].
    cbn [mbind outcome_bind]. by rewrite (bool_literal_complete _ false).
  - destruct (ident_text_head i t Hi) as (b & t' & Heq & Hb).
    destruct (string_literal_fails (advance l w) (t ++ r)) as [e ->]; [rewrite Heq; by intros [= ->]|].
    destruct (numeric_literal_fails (advance l w) (t ++ r)) as [e' ->].
    { rewrite Heq. intros c [= <-]. by apply letter_not_digit. }
    destruct (bool_literal_fails (advance l w) (t ++ r)) as [e'' ->].
    { intros H%prefix_word; [done|by repeat constructor|done]. }
    { intros H%prefix_word; [done|by repeat constructor|done]. }
    cbn [mbind outcome_bind]. by rewrite (compound_identifier_complete _ i).
Qed.

Lemma ws_condition_value_complete l w v t r :
  blank w → value_text v t → ends_word r = true →
  ws condition_value (at_location l (w ++ t ++ r)) = Ok (at_location (advance l (w ++ t)) r, v).
Proof.
  intros Hw Hv Hr. rewrite ws_blank by eauto using value_text_solid. rewrite <- advance_app.
  exact (condition_value_complete (advance l w) [] v t r Blank_nil Hv Hr).
Qed.

Lemma condition_op_complete l w o r :
  blank w → ws condition_op (at_location l (w ++ op_text o ++ r)) = Ok (at_location (advance l (w ++ op_text o)) r, o).
Proof.
  intros Hw. rewrite ws_blank by (done || by destruct o). rewrite <- advance_app.
  unfold condition_op, map_parser_err, alt. cbn [alt_choice]. unfold pvalue.
  destruct o; cbn [op_text]; [by rewrite tag_prefix|].
  destruct (tag_fails (E := NomSpan * ErrorKind) (str "==") (advance l w) (str "!=" ++ r)) as [e ->].
  { by intros [k ?]. }
  cbn [mbind outcome_bind]. by rewrite tag_prefix.
Qed.

Lemma condition_op_fails l w r :
  blank w → solid_text r = true → head r ≠ Some 0x3d → head r ≠ Some 0x21 →
  fails (ws condition_op) (at_location l (w ++ r)).
Proof.
  intros Hw Hr H1 H2. unfold fails. rewrite ws_blank by done. apply map_parser_err_fails.
  unfold fails, alt. cbn [alt_choice]. unfold pvalue.
  destruct (tag_fails (E := NomSpan * ErrorKind) (str "==") (advance l w) r) as [e ->]; [by intros [k ->]|].
  destruct (tag_fails (E := NomSpan * ErrorKind) (str "!=") (advance l w) r) as [e' ->]; [by intros [k ->]|].
  by eexists.
Qed.

Lemma op_ends_word o r : ends_word (op_text o ++ r) = true.
Proof. by destruct o. Qed.

Lemma value_text_ident_end o w r : blank w → ends_word (w ++ op_text o ++ r) = true.
Proof. intros Hw. apply blank_ends_word; [done|]. by destruct o. Qed.

Lemma condition_text_head l c t : condition_text l c t → ∃ b t', t = b :: t' ∧ is_letter b = true.
Proof.
  destruct 1 as [i ti w1 o w2 v tv Hi]. destruct (ident_text_head i ti Hi) as (b & t' & -> & Hb).
  by eexists b, _.
Qed.

Lemma condition_text_solid l c t r : condition_text l c t → solid_text (t ++ r) = true.
Proof. intros (b & t' & -> & Hb)%condition_text_head. by apply word_solid, letter_word. Qed.

Lemma condition_complete l w c t r :
  blank w → condition_text (advance l w) c t → ends_word r = true →
  condition (at_location l (w ++ t ++ r)) = Ok (at_location (advance l (w ++ t)) r, c).
Proof.
  intros Hw Hc Hr. pose proof (condition_text_solid _ _ _ r Hc) as Hsolid. unfold condition.
  rewrite skip_ws_blank by done. cbn [mbind outcome_bind]. rewrite ws_solid by by apply text_solid.
  destruct Hc as [i ti w1 o w2 v tv Hi Hw1 Hw2 Hv]. subst t. rewrite <- !app_assoc.
  rewrite (compound_identifier_complete _ i) by auto using value_text_ident_end. cbn [mbind outcome_bind].
  rewrite condition_op_complete by done. cbn [mbind outcome_bind].
  rewrite (ws_condition_value_complete _ w2 v) by done. cbn [mbind outcome_bind].
  rewrite (from_to_complete _ _ (ti ++ w1 ++ op_text o ++ w2 ++ tv) r) by cut. cbn [mbind outcome_bind]. cut.
Qed.

Lemma condition_complete_solid l c t r :
  condition_text l c t → ends_word r = true →
  condition (at_location l (t ++ r)) = Ok (at_location (advance l t) r, c).
Proof.
  intros Hc Hr. apply (condition_complete l [] c t r Blank_nil); [|done]. by rewrite advance_nil.
Qed.

(** ** Statements *)

Abbreviation semicolon := (token ";" PE_Semicolon).

Lemma condition_statement_complete l w s t r c tc w' :
  blank w → condition_text (advance l w) c tc → blank w' → t = tc ++ w' ++ str ";" →
  s = ConditionStatement (span_of (advance l w) t) c →
  condition_statement (at_location l (w ++ t ++ r)) = Ok (at_location (advance l (w ++ t)) r, s).
Proof.
  intros Hw Hc Hw' -> ->. unfold condition_statement. rewrite <- !app_assoc.
  rewrite skip_ws_blank by eauto using condition_text_solid. cbn [mbind outcome_bind].
  unfold terminated.
  rewrite (condition_complete_solid _ c tc) by auto using blank_ends_word. cbn [mbind outcome_bind].
  rewrite token_complete by done. cbn [mbind outcome_bind].
  rewrite (from_to_complete _ _ (tc ++ w' ++ str ";") r) by cut. cbn [mbind outcome_bind]. cut.
Qed.

(** A statement that starts with a keyword is not a condition. *)
Lemma condition_fails_ident l i t r :
  ident_text i t → ends_word r = true →
  (∀ l, fails (ws condition_op) (at_location l r)) → fails condition_statement (at_location l (t ++ r)).
Proof.
  intros Hi Hr Hop. unfold fails, condition_statement.
  pose proof (text_solid l _ (ident_text_solid i t r Hi)) as Hs. rewrite skip_ws_solid by done.
  cbn [mbind outcome_bind]. unfold terminated, condition. rewrite skip_ws_solid by done.
  cbn [mbind outcome_bind]. rewrite ws_solid by done.
  rewrite (compound_identifier_complete _ i) by done. cbn [mbind outcome_bind].
  by destruct (Hop (advance l t)) as [e ->]; exists e.
Qed.

Lemma condition_fails_semicolon l c t w r :
  condition_text l c t → blank w → solid_text r = true → ends_word r = true → head r ≠ Some 0x3b →
  fails condition_statement (at_location l (t ++ w ++ r)).
Proof.
  intros Hc Hw Hs Hr Hne. unfold fails, condition_statement.
  rewrite skip_ws_solid by eauto using text_solid, condition_text_solid. cbn [mbind outcome_bind].
  unfold terminated. rewrite (condition_complete_solid _ c t) by auto using blank_ends_word. cbn [mbind outcome_bind].
  destruct (token_fails ";" PE_Semicolon (advance l t) w r) as [e ->]; [done|done| |by exists e].
  by intros [k ->].
Qed.

Lemma keyword_ident x : segment x = true → ident_text (mkIdent [] x) x.
Proof. intros Hx. split; [done|]. cbn. by constructor. Qed.

(** A keyword followed by blanks and something that is not a comparison. *)
Lemma condition_fails_keyword x l w r :
  segment x = true → blank w → solid_text r = true → ends_word (w ++ r) = true →
  head r ≠ Some 0x3d → head r ≠ Some 0x21 → fails condition_statement (at_location l (x ++ w ++ r)).
Proof.
  intros Hx Hw Hr He H1 H2. eapply condition_fails_ident; [by apply keyword_ident|done|].
  intros l'. by apply condition_op_fails.
Qed.

Lemma keyword_false_complete l w r :
  blank w →
  let t := str "false" ++ w ++ str ";" in
  keyword_false (at_location l (t ++ r)) = Ok (at_location (advance l t) r, False_ (span_of l t)).
Proof.
  intros Hw t. unfold keyword_false, t. rewrite <- !app_assoc.
  rewrite skip_ws_solid by by apply text_solid. cbn [mbind outcome_bind]. unfold terminated.
  rewrite token_complete_solid by done. cbn [mbind outcome_bind].
  rewrite token_complete by done. cbn [mbind outcome_bind].
  rewrite (from_to_complete _ _ (str "false" ++ w ++ str ";") r) by cut. cbn [mbind outcome_bind]. cut.
Qed.

Lemma keyword_true_complete l w r :
  blank w →
  let t := str "true" ++ w ++ str ";" in
  keyword_true (at_location l (t ++ r)) = Ok (at_location (advance l t) r, True_ (span_of l t)).
Proof.
  intros Hw t. unfold keyword_true, t. rewrite <- !app_assoc.
  rewrite skip_ws_solid by by apply text_solid. cbn [mbind outcome_bind]. unfold terminated.
  rewrite token_complete_solid by done. cbn [mbind outcome_bind].
  rewrite token_complete by done. cbn [mbind outcome_bind].
  rewrite (from_to_complete _ _ (str "true" ++ w ++ str ";") r) by cut. cbn [mbind outcome_bind]. cut.
Qed.

(** Each other statement fails where its keyword does not start. *)
Lemma if_fails st l s :
  solid_text s = true → ¬ str "if" `prefix_of` s → fails (if_statement_with st) (at_location l s).
Proof.
  intros Hs Hx. unfold fails, if_statement_with. rewrite skip_ws_solid by by apply text_solid.
  cbn [mbind outcome_bind]. unfold separated_nonempty_list, tuple2, preceded at 1, keyword_if.
  do 4 apply bind_fails. by apply (token_fails "if" _ l [] s Blank_nil).
Qed.

Lemma accept_fails l s :
  solid_text s = true → ¬ str "accept" `prefix_of` s → fails accept (at_location l s).
Proof.
  intros Hs Hx. unfold fails, accept. rewrite skip_ws_solid by by apply text_solid.
  cbn [mbind outcome_bind]. unfold preceded at 1. do 2 apply bind_fails.
  by apply (token_fails "accept" _ l [] s Blank_nil).
Qed.

Lemma keyword_false_fails l s :
  solid_text s = true → ¬ str "false" `prefix_of` s → fails keyword_false (at_location l s).
Proof.
  intros Hs Hx. unfold fails, keyword_false. rewrite skip_ws_solid by by apply text_solid.
  cbn [mbind outcome_bind]. unfold terminated. do 2 apply bind_fails.
  by apply (token_fails "false" _ l [] s Blank_nil).
Qed.

Lemma keyword_true_fails l s :
  solid_text s = true → ¬ str "true" `prefix_of` s → fails keyword_true (at_location l s).
Proof.
  intros Hs Hx. unfold fails, keyword_true. rewrite skip_ws_solid by by apply text_solid.
  cbn [mbind outcome_bind]. unfold terminated. do 2 apply bind_fails.
  by apply (token_fails "true" _ l [] s Blank_nil).
Qed.

(** The values of an accept statement. *)
Abbreviation comma := (token "," PE_ListSeparator).

Lemma condition_value_fails l w r :
  blank w → solid_text r = true →
  (∀ c, head r = Some c → is_letter c = false ∧ is_dec_digit c = false ∧ c ≠ 0x22) →
  fails condition_value (at_location l (w ++ r)).
Proof.
  intros Hw Hr Hc. unfold fails, condition_value, alt. cbn [alt_choice]. unfold pmap.
  rewrite !ws_blank by done.
  destruct (string_literal_fails (advance l w) r) as [e1 ->].
  { intros H. by destruct (Hc _ H) as (_ & _ & ?). }
  destruct (numeric_literal_fails (advance l w) r) as [e2 ->].
  { intros c H. by destruct (Hc _ H) as (_ & ? & _). }
  destruct (bool_literal_fails (advance l w) r) as [e3 ->].
  { intros [k ->]. by destruct (Hc _ eq_refl) as (? & _). }
  { intros [k ->]. by destruct (Hc _ eq_refl) as (? & _). }
  destruct (compound_identifier_fails (advance l w) r) as [e4 ->].
  { intros c H. by destruct (Hc _ H) as (? & _). }
  by eexists.
Qed.

Lemma ws_condition_value_fails l w r :
  blank w → solid_text r = true →
  (∀ c, head r = Some c → is_letter c = false ∧ is_dec_digit c = false ∧ c ≠ 0x22) →
  fails (ws condition_value) (at_location l (w ++ r)).
Proof.
  intros Hw Hr Hc. unfold fails. rewrite ws_blank by done.
  exact (condition_value_fails (advance l w) [] r Blank_nil Hr Hc).
Qed.

(** What comes after the last element of a list. *)
Inductive list_end : rstring → Prop :=
| List_end c w r : trailing_comma c → blank w → list_end (c ++ w ++ str "}" ++ r).

Lemma list_end_ends_word r : list_end r → ends_word r = true.
Proof.
  destruct 1 as [c w r Hc Hw]. destruct Hc as [|w' Hw']; [cbn [app]; by apply blank_ends_word|].
  rewrite <- app_assoc. by apply blank_ends_word.
Qed.

(** Lists of what [f] reads. *)
Section lists.
Context {O : Type} (R : O → rstring → Prop) (f : BindParser O).
Hypothesis R_length : ∀ o t, R o t → (0 < length t)%nat.
Hypothesis f_complete : ∀ l w o t r,
  blank w → R o t → ends_word r = true →
  f (at_location l (w ++ t ++ r)) = Ok (at_location (advance l (w ++ t)) r, o).
Hypothesis f_fails : ∀ l w r, blank w → fails f (at_location l (w ++ str "}" ++ r)).

Inductive more_values : list O → rstring → Prop :=
| No_more_values : more_values [] []
| More_values w vs ts : blank w → values_text R vs ts → more_values vs (w ++ str "," ++ ts).

Lemma values_text_more vs ts :
  values_text R vs ts →
  ∃ w v t vs' u, vs = v :: vs' ∧ ts = w ++ t ++ u ∧ blank w ∧ R v t ∧ more_values vs' u.
Proof.
  destruct 1 as [w v t Hw Hv|w v t w' vs ts Hw Hv Hw' Hvs].
  - exists w, v, t, [], []. rewrite app_nil_r. split_and!; try done. constructor.
  - exists w, v, t, vs, (w' ++ str "," ++ ts). split_and!; try done. by constructor.
Qed.

Lemma more_values_ends_word vs u r : more_values vs u → list_end r → ends_word (u ++ r) = true.
Proof.
  destruct 1 as [|w vs ts Hw Hvs]; [apply list_end_ends_word|]. rewrite <- app_assoc.
  intros _. by apply blank_ends_word.
Qed.

Lemma values_loop_end fuel l r acc :
  list_end r → (0 < fuel)%nat →
  separated_loop comma f fuel (at_location l r) acc = Ok (at_location l r, acc).
Proof.
  intros [c w r' Hc Hw] Hf. destruct fuel as [|fuel]; [lia|]. cbn [separated_loop].
  destruct Hc as [|w' Hw'].
  - cbn [app]. destruct (token_fails "," PE_ListSeparator l w (str "}" ++ r')) as [e ->]; [done|done| |done].
    by intros [k ?].
  - rewrite <- !app_assoc, token_complete by done. moved.
    by destruct (f_fails (advance l (w' ++ str ",")) w r') as [e ->].
Qed.

Lemma values_loop_complete fuel l vs u r acc :
  more_values vs u → list_end r → (length u < fuel)%nat →
  separated_loop comma f fuel (at_location l (u ++ r)) acc =
    Ok (at_location (advance l u) r, acc ++ vs).
Proof.
  intros Hu Hr. revert l vs u acc Hu.
  induction fuel as [|fuel IH]; intros l vs u acc Hu Hf; [lia|].
  destruct Hu as [|w vs ts Hw Hvs].
  - cbn [app]. rewrite advance_nil, app_nil_r. apply values_loop_end; [done|lia].
  - destruct (values_text_more vs ts Hvs) as (w1 & v & t & vs' & u & -> & -> & Hw1 & Hv & Hu).
    cbn [separated_loop]. rewrite <- !app_assoc, token_complete by done.
    pose proof (more_values_ends_word vs' u r Hu Hr) as He.
    moved. rewrite (f_complete _ w1 v t) by done. moved.
    rewrite (IH _ vs'); [|done|].
    + f_equal. f_equal; [cut|]. by rewrite <- app_assoc.
    + rewrite !length_app in Hf. cbn in Hf. lia.
Qed.

Lemma values_complete l vs ts r :
  values_text R vs ts → list_end r →
  separated_nonempty_list comma f (at_location l (ts ++ r)) = Ok (at_location (advance l ts) r, vs).
Proof.
  intros (w & v & t & vs' & u & -> & -> & Hw & Hv & Hu)%values_text_more Hr.
  unfold separated_nonempty_list. rewrite <- !app_assoc.
  rewrite (f_complete _ w v t) by eauto using more_values_ends_word.
  cbn [mbind outcome_bind]. pose proof (R_length v t Hv). moved.
  rewrite (values_loop_complete _ _ vs' u) by (done || cbn; rewrite length_app; lia). f_equal. f_equal. cut.
Qed.

Lemma opt_comma_complete l c w r :
  trailing_comma c → blank w →
  ∃ x, opt comma (at_location l (c ++ w ++ str "}" ++ r)) =
    Ok (at_location (advance l c) (w ++ str "}" ++ r), x).
Proof.
  intros Hc Hw. unfold opt. destruct Hc as [|w' Hw'].
  - cbn [app]. destruct (token_fails "," PE_ListSeparator l w (str "}" ++ r)) as [e ->]; [done|done| |].
    + by intros [k ?].
    + rewrite advance_nil. by eexists.
  - rewrite <- !app_assoc, token_complete by done. by eexists.
Qed.

Lemma terminated_values_complete l vs ts c w r :
  values_text R vs ts → trailing_comma c → blank w →
  terminated (separated_nonempty_list comma f) (opt comma) (at_location l (ts ++ c ++ w ++ str "}" ++ r)) =
    Ok (at_location (advance l (ts ++ c)) (w ++ str "}" ++ r), vs).
Proof.
  intros Hvs Hc Hw. unfold terminated. rewrite (values_complete _ vs) by (done || by constructor).
  cbn [mbind outcome_bind]. destruct (opt_comma_complete (advance l ts) c w r Hc Hw) as [x ->].
  cbn [mbind outcome_bind]. cut.
Qed.

Lemma value_list_complete l w vs tl r :
  blank w → value_list_text R vs tl →
  delimited (token "{" PE_ListStart) (terminated (separated_nonempty_list comma f) (opt comma))
      (token "}" PE_ListEnd) (at_location l (w ++ tl ++ r)) =
    Ok (at_location (advance l (w ++ tl)) r, vs).
Proof.
  intros Hw Hl. destruct Hl as [vs ts c w' Hvs Hc Hw']. unfold delimited. rewrite <- !app_assoc.
  rewrite token_complete by done. cbn [mbind outcome_bind].
  rewrite (terminated_values_complete _ vs) by done. cbn [mbind outcome_bind].
  rewrite token_complete by done. cbn [mbind outcome_bind]. cut.
Qed.
End lists.

Lemma accept_complete l i vs w1 ti w2 tl r :
  blank w1 → ident_text i ti → blank w2 → value_list_text value_text vs tl →
  let t := str "accept" ++ w1 ++ ti ++ w2 ++ tl in
  accept (at_location l (t ++ r)) = Ok (at_location (advance l t) r, Accept (span_of l t) i vs).
Proof.
  intros Hw1 Hi Hw2 Hl t. unfold accept, t. rewrite <- !app_assoc.
  rewrite skip_ws_solid by by apply text_solid. cbn [mbind outcome_bind]. unfold preceded at 1, keyword_accept.
  rewrite token_complete_solid by done. cbn [mbind outcome_bind]. unfold tuple2.
  rewrite ws_blank by eauto using ident_text_solid.
  rewrite (compound_identifier_complete _ i) by
    (done || by destruct Hl; rewrite <- !app_assoc; apply blank_ends_word).
  cbn [mbind outcome_bind].
  rewrite (value_list_complete value_text _ value_text_length ws_condition_value_complete) with (vs := vs);
    [|intros; apply ws_condition_value_fails; [done|done|by intros c [= <-]]|done|done].
  cbn [mbind outcome_bind]. rewrite (from_to_complete _ _ (str "accept" ++ w1 ++ ti ++ w2 ++ tl) r) by cut.
  cbn [mbind outcome_bind]. cut.
Qed.

(** ** Blocks *)

Lemma if_block_text_head l b t : if_block_text l b t → ∃ t', t = str "if" ++ t'.
Proof. destruct 1. by eexists. Qed.

Lemma if_blocks_text_head l bs t : if_blocks_text l bs t → ∃ t', t = str "if" ++ t'.
Proof.
  destruct 1 as [p b t [t' ->]%if_block_text_head|p b t w1 w2 bs ts [t' ->]%if_block_text_head]; [by eexists|].
  eexists. by rewrite <- app_assoc.
Qed.

Lemma statement_text_head l s t : statement_text l s t → ∃ b t', t = b :: t' ∧ is_letter b = true.
Proof.
  destruct 1 as [p c tc w (b & t' & -> & Hb)%condition_text_head|p i vs w1 ti w2 tl
    |p bs tbs w1 w2 l tl [t' ->]%if_blocks_text_head|p w|p w]; by eexists _, _.
Qed.

Lemma statement_text_solid l s t r : statement_text l s t → solid_text (t ++ r) = true.
Proof. intros (b & t' & -> & Hb)%statement_text_head. by apply word_solid, letter_word. Qed.

Lemma statement_text_length l s t : statement_text l s t → (0 < length t)%nat.
Proof. intros (b & t' & -> & _)%statement_text_head. cbn. lia. Qed.

Section nested.
Context (st : BindParser Statement) (n : nat).
Hypothesis st_complete : ∀ l s t r,
  (length t < n)%nat → statement_text l s t →
  st (at_location l (t ++ r)) = Ok (at_location (advance l t) r, s).
Hypothesis st_fails : ∀ l r, (0 < n)%nat → fails st (at_location l (str "}" ++ r)).

Lemma statements_loop_complete kind l ss ts w r fuel acc :
  statements_text l ss ts → (length ts < fuel)%nat → (length ts < n)%nat → blank w →
  many_loop kind (ws st) fuel (at_location l (ts ++ w ++ str "}" ++ r)) acc =
    Ok (at_location (advance l ts) (w ++ str "}" ++ r), acc ++ ss).
Proof.
  intros Hss Hf Hn Hw. revert fuel acc Hf Hn.
  induction Hss as [l|l w' s t ss ts Hw' Hs Hss IH]; intros fuel acc Hf Hn;
    (destruct fuel as [|fuel]; [lia|]); cbn [many_loop].
  - cbn [app]. rewrite ws_blank by done. destruct (st_fails (advance l w) r) as [e ->]; [lia|].
    by rewrite advance_nil, app_nil_r.
  - rewrite !length_app in Hf, Hn. pose proof (statement_text_length _ _ _ Hs). rewrite <- !app_assoc.
    rewrite ws_blank by eauto using statement_text_solid. rewrite (st_complete _ s t) by (done || lia).
    moved. rewrite advance_app, IH by lia. f_equal. f_equal; [cut|by rewrite <- app_assoc].
Qed.

Lemma statement_block_complete l w ss t r :
  blank w → block_text (advance l w) ss t → (length t < n)%nat →
  statement_block_with st (at_location l (w ++ t ++ r)) = Ok (at_location (advance l (w ++ t)) r, ss).
Proof.
  intros Hw Hb Hn. inversion Hb as [p ss' tl w' Hss Hne Hw']; subst. rewrite <- !app_assoc.
  unfold statement_block_with, delimited. rewrite token_complete by done. cbn [mbind outcome_bind].
  rewrite <- (advance_app l w). inversion Hss as [|p w1 s t ss' tl' Hw1 Hs Hss']; subst; [done|].
  repeat (rewrite ?length_app in Hn; cbn in Hn). unfold many1. rewrite <- !app_assoc.
  rewrite ws_blank by eauto using statement_text_solid. rewrite (st_complete _ s t) by (done || lia).
  rewrite advance_app, (statements_loop_complete _ _ ss') by (done || cbn; rewrite ?length_app; lia).
  cbn [mbind outcome_bind]. rewrite token_complete by done. cbn [mbind outcome_bind]. cut.
Qed.

Abbreviation if_block := (tuple2 (preceded keyword_if condition) (statement_block_with st)).

Lemma if_block_complete l w b t r :
  blank w → if_block_text (advance l w) b t → (length t < n)%nat →
  if_block (at_location l (w ++ t ++ r)) = Ok (at_location (advance l (w ++ t)) r, b).
Proof.
  intros Hw Hb Hn. inversion Hb as [p w1 c tc w2 ss tl Hw1 Hc Hw2 Hss]; subst. rewrite <- !app_assoc.
  repeat (rewrite ?length_app in Hn; cbn in Hn). unfold tuple2, preceded, keyword_if.
  rewrite token_complete by done. cbn [mbind outcome_bind]. rewrite <- (advance_app l w).
  rewrite (condition_complete _ w1 c tc); [|done|by rewrite advance_app|].
  2:{ inversion Hss; subst. rewrite <- !app_assoc. by apply blank_ends_word. }
  cbn [mbind outcome_bind].
  rewrite (statement_block_complete _ w2 ss tl); [|done| |lia]; last first.
  { rewrite !advance_app in *. by rewrite <- !app_assoc in *. }
  cbn [mbind outcome_bind]. cut.
Qed.

Lemma if_block_fails l w r : blank w → fails if_block (at_location l (w ++ str "{" ++ r)).
Proof.
  intros Hw. unfold fails, tuple2, preceded, keyword_if. do 2 apply bind_fails.
  apply token_fails; [done|done|]. by intros [k ?].
Qed.

(** The blocks after the first one, and what comes after the last. *)
Inductive more_blocks : Location → list (Condition * list Statement) → rstring → Prop :=
| No_more_blocks l : more_blocks l [] []
| More_blocks l w1 w2 bs ts :
    blank w1 → blank w2 → if_blocks_text (advance l (w1 ++ str "else" ++ w2)) bs ts →
    more_blocks l bs (w1 ++ str "else" ++ w2 ++ ts).

Lemma if_blocks_text_more l bs ts :
  if_blocks_text l bs ts →
  ∃ b t bs' u, bs = b :: bs' ∧ ts = t ++ u ∧ if_block_text l b t ∧ more_blocks (advance l t) bs' u.
Proof.
  destruct 1 as [p b t Hb|p b t w1 w2 bs ts Hb Hw1 Hw2 Hbs].
  - exists b, t, [], []. rewrite app_nil_r. split_and!; try done. constructor.
  - exists b, t, bs, (w1 ++ str "else" ++ w2 ++ ts). split_and!; try done.
    constructor; [done..|]. by rewrite advance_app.
Qed.

Lemma if_blocks_loop_complete fuel l bs u w1 w2 r acc :
  more_blocks l bs u → (length u < fuel)%nat → (length u < n)%nat → blank w1 → blank w2 →
  let rest := w1 ++ str "else" ++ w2 ++ str "{" ++ r in
  separated_loop keyword_else if_block fuel (at_location l (u ++ rest)) acc =
    Ok (at_location (advance l u) rest, acc ++ bs).
Proof.
  intros Hu Hf Hn Hw1 Hw2 rest. revert l bs u acc Hu Hf Hn.
  induction fuel as [|fuel IH]; intros l bs u acc Hu Hf Hn; [lia|]. cbn [separated_loop].
  unfold keyword_else at 1. destruct Hu as [l|l w3 w4 bs ts Hw3 Hw4 Hbs].
  - cbn [app]. unfold rest. rewrite token_complete by done. moved.
    destruct (if_block_fails (advance l (w1 ++ str "else")) w2 r Hw2) as [e ->].
    by rewrite advance_nil, app_nil_r.
  - destruct (if_blocks_text_more _ bs ts Hbs) as (b & t & bs' & u & -> & -> & Hb & Hu).
    repeat (rewrite ?length_app in Hn, Hf; cbn in Hn, Hf).
    rewrite <- !app_assoc, token_complete by done. moved.
    rewrite (if_block_complete _ w4 b t); [|done| |lia].
    2:{ rewrite !advance_app. by rewrite <- !app_assoc. }
    moved. rewrite (IH _ bs'); [| |lia|lia].
    + f_equal. f_equal; [cut|by rewrite <- app_assoc].
    + rewrite !advance_app in *. by rewrite <- !app_assoc in *.
Qed.

Lemma if_statement_complete l bs tbs w1 w2 ss tl r :
  if_blocks_text l bs tbs → blank w1 → blank w2 →
  block_text (advance l (tbs ++ w1 ++ str "else" ++ w2)) ss tl →
  let t := tbs ++ w1 ++ str "else" ++ w2 ++ tl in (length t <= n)%nat →
  if_statement_with st (at_location l (t ++ r)) = Ok (at_location (advance l t) r, If (span_of l t) bs ss).
Proof.
  intros Hbs Hw1 Hw2 Hss t Hn. unfold if_statement_with.
  destruct (if_blocks_text_head _ _ _ Hbs) as [tbs' Htbs].
  rewrite skip_ws_solid by (apply text_solid; unfold t; rewrite Htbs; done). cbn [mbind outcome_bind].
  destruct (if_blocks_text_more _ bs tbs Hbs) as (b & tb & bs' & u & -> & Heq & Hb & Hu).
  destruct (if_block_text_head _ _ _ Hb) as [tb' Htb]. unfold separated_nonempty_list.
  assert (0 < length tb)%nat as Hlen by (rewrite Htb; cbn; lia).
  unfold t in Hn. rewrite Heq in Hn. repeat (rewrite ?length_app in Hn; cbn in Hn).
  pose proof (if_block_complete l [] b tb (u ++ w1 ++ str "else" ++ w2 ++ tl ++ r)) as Hblock.
  rewrite advance_nil in Hblock. cbn [app] in Hblock.
  unfold t. rewrite Heq, <- !app_assoc.
  rewrite Hblock by (constructor || done || lia). cbn [mbind outcome_bind]. moved.
  assert (∃ tl', tl = str "{" ++ tl') as [tl' Htl] by (inversion Hss; by eexists).
  rewrite Htl, <- app_assoc, (if_blocks_loop_complete _ _ bs' u); [|done|cbn; rewrite length_app; lia|lia|done|done].
  cbn [mbind outcome_bind]. unfold preceded, keyword_else. rewrite token_complete by done.
  cbn [mbind outcome_bind]. rewrite (app_assoc (str "{")), <- Htl.
  rewrite (statement_block_complete _ w2 ss tl); [|done| |lia].
  2:{ rewrite Heq in Hss. rewrite !advance_app in *. by rewrite <- !app_assoc in *. }
  cbn [mbind outcome_bind]. rewrite (from_to_complete _ _ (tbs ++ w1 ++ str "else" ++ w2 ++ tl) r); last 2 first.
  - rewrite Heq. cut.
  - rewrite Heq. cut.
  - cbn [mbind outcome_bind]. rewrite Heq. cut.
Qed.
End nested.

(** ** Any statement *)

Lemma statement_fuel_fails fuel l r :
  (0 < fuel)%nat → fails (statement_fuel fuel) (at_location l (str "}" ++ r)).
Proof.
  intros Hf. destruct fuel as [|fuel]; [lia|]. unfold fails. cbn [statement_fuel]. unfold alt. cbn [alt_choice].
  assert (fails condition_statement (at_location l (str "}" ++ r))) as [e ->].
  { unfold fails, condition_statement. rewrite skip_ws_solid by by apply text_solid. cbn [mbind outcome_bind].
    unfold terminated, condition. rewrite skip_ws_solid by by apply text_solid. cbn [mbind outcome_bind].
    do 3 apply bind_fails. rewrite ws_solid by by apply text_solid.
    apply compound_identifier_fails. by intros c [= <-]. }
  destruct (if_fails (statement_fuel fuel) l (str "}" ++ r)) as [e1 ->]; [done|by intros [k ?]|].
  destruct (accept_fails l (str "}" ++ r)) as [e2 ->]; [done|by intros [k ?]|].
  destruct (keyword_false_fails l (str "}" ++ r)) as [e3 ->]; [done|by intros [k ?]|].
  destruct (keyword_true_fails l (str "}" ++ r)) as [e4 ->]; [done|by intros [k ?]|].
  by eexists.
Qed.

(** The keyword [x] and what follows it do not make a condition. *)
Lemma accept_not_condition l w ti i w2 r :
  blank w → ident_text i ti → blank w2 →
  fails condition_statement (at_location l (str "accept" ++ w ++ ti ++ w2 ++ str "{" ++ r)).
Proof.
  intros Hw Hi Hw2. destruct (ident_text_head i ti Hi) as (b & t' & Heq & Hb). destruct (decide (w = [])) as [->|Hne].
  - destruct (ident_text_prepend (str "accept") i ti) as [i' Hi']; [done|done|]. cbn [app].
    rewrite app_assoc. eapply condition_fails_ident; [done|by apply blank_ends_word|].
    intros l'. by apply condition_op_fails.
  - apply condition_fails_keyword; [done|done|by eapply ident_text_solid|by apply blank_cons_ends_word|..];
      rewrite Heq; by intros [= ->].
Qed.

Lemma condition_text_prepend x l c t :
  segment x = true → condition_text l c t → ∀ l', ∃ c', condition_text l' c' (x ++ t).
Proof.
  intros Hx Hc l'. destruct Hc as [i ti w1 o w2 v tv Hi Hw1 Hw2 Hv].
  destruct (ident_text_prepend x i ti Hx Hi) as [i' Hi']. eexists.
  subst t. rewrite app_assoc. by constructor.
Qed.

Lemma if_not_condition l w l' c tc w2 r :
  blank w → condition_text l' c tc → blank w2 →
  fails condition_statement (at_location l (str "if" ++ w ++ tc ++ w2 ++ str "{" ++ r)).
Proof.
  intros Hw Hc Hw2. destruct (condition_text_head _ _ _ Hc) as (b & t' & Heq & Hb). destruct (decide (w = [])) as [->|Hne].
  - destruct (condition_text_prepend (str "if") _ c tc eq_refl Hc l) as [c' Hc']. cbn [app].
    rewrite app_assoc. by eapply condition_fails_semicolon.
  - apply condition_fails_keyword; [done|done|by eapply condition_text_solid|by apply blank_cons_ends_word|..];
      rewrite Heq; by intros [= ->].
Qed.

Lemma if_blocks_not_condition l bs tbs r :
  if_blocks_text l bs tbs → fails condition_statement (at_location l (tbs ++ r)).
Proof.
  intros (b & t & bs' & u & -> & -> & Hb & _)%if_blocks_text_more.
  inversion Hb as [p w1 c tc w2 ss tl Hw1 Hc Hw2 Hss]; subst. inversion Hss; subst.
  rewrite <- !app_assoc. by eapply if_not_condition.
Qed.

Lemma statement_fuel_complete fuel l s t r :
  (length t < fuel)%nat → statement_text l s t →
  statement_fuel fuel (at_location l (t ++ r)) = Ok (at_location (advance l t) r, s).
Proof.
  revert l s t r. induction fuel as [|fuel IH]; intros l s t r Hf Ht; [lia|].
  cbn [statement_fuel]. unfold alt. cbn [alt_choice].
  destruct Ht as [p c tc w Hc Hw|p i vs w1 ti w2 tl Hw1 Hi Hw2 Hl|p bs tbs w1 w2 ss tl Hbs Hw1 Hw2 Hss|p w Hw|p w Hw].
  - pose proof (condition_statement_complete p [] (ConditionStatement (span_of p t) c) t r c tc w Blank_nil) as H.
    rewrite advance_nil in H. cbn [app] in H. by rewrite (H Hc Hw eq_refl eq_refl).
  - assert (∃ tl', tl = str "{" ++ tl') as [tl' Htl] by (inversion Hl; by eexists).
    destruct (accept_not_condition p w1 ti i w2 (tl' ++ r)) as [e He]; [done..|].
    replace (t ++ r) with (str "accept" ++ w1 ++ ti ++ w2 ++ str "{" ++ tl' ++ r)
      by (unfold t; rewrite Htl; by rewrite <- !app_assoc).
    rewrite He. destruct (if_fails (statement_fuel fuel) p (str "accept" ++ w1 ++ ti ++ w2 ++ str "{" ++ tl' ++ r))
      as [e1 ->]; [done|by intros [k ?]|].
    replace (str "accept" ++ w1 ++ ti ++ w2 ++ str "{" ++ tl' ++ r) with (t ++ r)
      by (unfold t; rewrite Htl; by rewrite <- !app_assoc).
    unfold t. by rewrite (accept_complete _ i vs).
  - destruct (if_blocks_not_condition p bs tbs ((w1 ++ str "else" ++ w2 ++ tl) ++ r) Hbs) as [e He].
    rewrite app_assoc in He. fold t in He. rewrite He. unfold t in *.
    rewrite (if_statement_complete (statement_fuel fuel) fuel IH) with (bs := bs) (ss := ss); try done; [|lia].
    intros. by apply statement_fuel_fails.
  - unfold t. destruct (condition_fails_keyword (str "false") p w (str ";" ++ r)) as [e He];
      [done|done|done|by apply blank_ends_word|done|done|].
    rewrite <- !app_assoc, He.
    destruct (if_fails (statement_fuel fuel) p (str "false" ++ w ++ str ";" ++ r)) as [e1 ->]; [done|by intros [k ?]|].
    destruct (accept_fails p (str "false" ++ w ++ str ";" ++ r)) as [e2 ->]; [done|by intros [k ?]|].
    pose proof (keyword_false_complete p w r Hw) as H. cbn zeta in H. rewrite <- !app_assoc in H. by rewrite H.
  - unfold t. destruct (condition_fails_keyword (str "true") p w (str ";" ++ r)) as [e He];
      [done|done|done|by apply blank_ends_word|done|done|].
    rewrite <- !app_assoc, He.
    destruct (if_fails (statement_fuel fuel) p (str "true" ++ w ++ str ";" ++ r)) as [e1 ->]; [done|by intros [k ?]|].
    destruct (accept_fails p (str "true" ++ w ++ str ";" ++ r)) as [e2 ->]; [done|by intros [k ?]|].
    destruct (keyword_false_fails p (str "true" ++ w ++ str ";" ++ r)) as [e3 ->]; [done|by intros [k ?]|].
    pose proof (keyword_true_complete p w r Hw) as H. cbn zeta in H. rewrite <- !app_assoc in H. by rewrite H.
Qed.

Lemma statement_complete l s t r :
  statement_text l s t → statement (at_location l (t ++ r)) = Ok (at_location (advance l t) r, s).
Proof.
  intros Ht. unfold statement. apply statement_fuel_complete; [|done]. cbn. rewrite length_app. lia.
Qed.

(** ** Includes *)

Abbreviation using_ := (delimited (token "using" PE_UsingKeyword) (ws using_include) semicolon).
Abbreviation as_alias := (preceded (token "as" PE_AsKeyword) (ws CommonParser.identifier)).

Lemma alias_ends_word a ta w r :
  alias_text a ta → blank w → ends_word (ta ++ w ++ str ";" ++ r) = true.
Proof.
  destruct 1 as [|w1 w2 a Hw1 Hne Hw2 Ha]; intros Hw; [cbn [app]; by apply blank_ends_word|].
  rewrite <- !app_assoc. by apply blank_cons_ends_word.
Qed.

Lemma alias_complete l a ta w r :
  alias_text a ta → blank w →
  opt as_alias (at_location l (ta ++ w ++ str ";" ++ r)) =
    Ok (at_location (advance l ta) (w ++ str ";" ++ r), a).
Proof.
  intros Ha Hw. unfold opt, preceded. destruct Ha as [|w1 w2 a Hw1 Hne Hw2 Ha].
  - cbn [app]. destruct (token_fails "as" PE_AsKeyword l w (str ";" ++ r)) as [e ->]; [done|done|by intros [k ?]|].
    by rewrite advance_nil.
  - rewrite <- !app_assoc, token_complete by done. cbn [mbind outcome_bind].
    assert (solid_text (a ++ w ++ str ";" ++ r) = true) as Hs by exact (ident_text_solid _ _ _ (keyword_ident a Ha)).
    rewrite ws_blank by done. rewrite identifier_complete; [by f_equal; f_equal; cut|done|].
    intros c. by apply ends_word_word, blank_ends_word.
Qed.

Lemma using_complete l w u t r :
  blank w → include_text u t →
  using_ (at_location l (w ++ t ++ r)) = Ok (at_location (advance l (w ++ t)) r, u).
Proof.
  intros Hw (w2 & ti & ta & w3 & -> & Hw2 & Hi & Ha & Hw3). unfold delimited. rewrite <- !app_assoc.
  rewrite token_complete by done. cbn [mbind outcome_bind].
  pose proof (ident_text_solid _ _ (ta ++ w3 ++ str ";" ++ r) Hi) as Hs.
  rewrite ws_blank by done. unfold using_include. rewrite ws_solid by by apply text_solid.
  rewrite (compound_identifier_complete _ (include_name u)) by eauto using alias_ends_word.
  cbn [mbind outcome_bind]. rewrite (alias_complete _ (alias u)) by done. cbn [mbind outcome_bind].
  rewrite token_complete by done. cbn [mbind outcome_bind]. destruct u. cut.
Qed.

Lemma using_include_fails l s :
  solid_text s = true → (∀ c, head s = Some c → is_letter c = false) → fails using_include (at_location l s).
Proof.
  intros Hs Hc. unfold fails, using_include. rewrite ws_solid by by apply text_solid.
  apply bind_fails. by apply compound_identifier_fails.
Qed.

(** A word that starts with the keyword is not an include. *)
Lemma using_fails_word l u ss w1 o r :
  segment (str "using" ++ u) = true → Forall (λ s, segment s = true) ss → blank w1 →
  fails using_ (at_location l (str "using" ++ u ++ dotted ss ++ w1 ++ op_text o ++ r)).
Proof.
  intros Hu Hss Hw1. unfold fails, delimited. rewrite token_complete_solid by done. cbn [mbind outcome_bind].
  set (l' := advance l (str "using")). clearbody l'.
  assert (∀ s, solid_text s = true → (∀ c, head s = Some c → is_letter c = false) →
    ∃ e, ws using_include (at_location l' s) ≫=
      (λ '(i, o2), '(i, _) ← semicolon i; Ok (i, o2)) = Err (Error e)) as Hfail.
  { intros s Hs Hc. apply bind_fails. rewrite ws_solid by by apply text_solid. by apply using_include_fails. }
  destruct u as [|c u]; cbn [app].
  - destruct ss as [|s ss].
    + apply bind_fails. change (dotted [] ++ w1 ++ op_text o ++ r) with (w1 ++ op_text o ++ r).
      rewrite ws_blank by (done || by destruct o). apply using_include_fails; [by destruct o|].
      intros c. by destruct o; intros [= <-].
    + apply Hfail; [done|]. by intros c [= <-].
  - pose proof Hu as (b & v & e & [= <- <-] & _ & Hv & He & Ha)%segment_spec.
    do 4 apply Forall_cons in Hv as [_ Hv]. apply Forall_cons in Hv as [Hc Hv].
    destruct (is_letter c) eqn:Hlet; [|apply Hfail; [by apply word_solid|by intros ? [= <-]]].
    assert (segment (c :: u) = true) as Hseg.
    { apply segment_spec. exists c, u, e. by split_and!. }
    destruct (segments_ident_text (c :: u) ss) as [i Hi]; [done..|].
    rewrite ws_solid by (apply text_solid; by apply word_solid). unfold using_include.
    rewrite ws_solid by (apply text_solid; by apply word_solid). rewrite !app_comm_cons, app_assoc.
    rewrite (compound_identifier_complete _ i) by (done || by apply value_text_ident_end).
    cbn [mbind outcome_bind]. unfold opt, preceded.
    destruct (token_fails "as" PE_AsKeyword (advance l' ((c :: u) ++ dotted ss)) w1 (op_text o ++ r)) as [e1 ->];
      [done|by destruct o|by destruct o; intros [k ?]|].
    cbn [mbind outcome_bind]. apply bind_fails.
    apply token_fails; [done|by destruct o|by destruct o; intros [k ?]].
Qed.

Lemma using_fails_statement l l' s t r : statement_text l' s t → fails using_ (at_location l (t ++ r)).
Proof.
  intros Ht. pose proof (statement_text_solid _ _ _ r Ht) as Hs.
  assert (¬ str "using" `prefix_of` t ++ r → fails using_ (at_location l (t ++ r))) as Hno.
  { intros Hx. apply bind_fails. by apply (token_fails "using" _ l [] _ Blank_nil). }
  destruct Ht as [p c tc w Hc Hw|p i vs w1 ti w2 tl Hw1 Hi Hw2 Hl|p bs tbs w1 w2 ss tl Hbs Hw1 Hw2 Hss|p w Hw|p w Hw];
    subst t; try (apply Hno; by intros [k ?]); last first.
  { apply Hno. apply if_blocks_text_head in Hbs as [t' ->]. by intros [k ?]. }
  destruct Hc as [i ti w1 o w2 v tv Hi Hw1 Hw2 Hv]. subst t. rewrite <- !app_assoc in *.
  destruct (decide (str "using" `prefix_of` ti ++ w1 ++ op_text o ++ w2 ++ tv ++ w ++ str ";" ++ r)) as [Hx|];
    [|by apply Hno].
  apply prefix_word in Hx; [|by repeat constructor|by apply value_text_ident_end].
  destruct (ident_text_segments i ti Hi) as (sg & ss & _ & -> & Hsg & Hss).
  apply prefix_word_head in Hx; [|by repeat constructor|].
  2:{ intros c. destruct ss; [done|]. by intros [= <-]. }
  destruct Hx as [u ->]. rewrite <- !app_assoc. by apply using_fails_word.
Qed.

Lemma includes_loop_complete fuel l us tus rest acc :
  includes_text us tus → (length tus < fuel)%nat → (∀ l, fails (ws using_) (at_location l rest)) →
  many_loop EK_Many0 (ws using_) fuel (at_location l (tus ++ rest)) acc =
    Ok (at_location (advance l tus) rest, acc ++ us).
Proof.
  intros Hus Hf Hrest. revert fuel l acc Hf.
  induction Hus as [|w1 w2 i ti a ta w3 us tus Hw1 Hw2 Hi Ha Hw3 Hus IH]; intros fuel l acc Hf;
    (destruct fuel as [|fuel]; [lia|]); cbn [many_loop].
  - cbn [app]. destruct (Hrest l) as [e ->]. by rewrite advance_nil, app_nil_r.
  - repeat (rewrite ?length_app in Hf; cbn in Hf). rewrite <- !app_assoc.
    rewrite ws_blank by done.
    pose proof (using_complete (advance l w1) [] (mkInclude i a)
      (str "using" ++ w2 ++ ti ++ ta ++ w3 ++ str ";") (tus ++ rest) Blank_nil) as H.
    rewrite <- !app_assoc in H. cbn [app] in H. rewrite H by by exists w2, ti, ta, w3.
    moved. rewrite IH by lia. f_equal. f_equal; [cut|by rewrite <- app_assoc].
Qed.

(** The includes of a source, up to the first token that is not one. *)
Lemma using_list_complete l us tus w rest :
  includes_text us tus → blank w → solid_text rest = true → (∀ l, fails using_ (at_location l rest)) →
  ∃ w1 w2, w = w1 ++ w2 ∧ blank w2 ∧
    ws using_list (at_location l (tus ++ w ++ rest)) =
      Ok (at_location (advance l (tus ++ w1)) (w2 ++ rest), us).
Proof.
  intros Hus Hw Hs Hrest. destruct Hus as [|w1 w2 i ti a ta w3 us tus Hw1 Hw2 Hi Ha Hw3 Hus].
  - exists w, []. rewrite app_nil_r. split_and!; [done|constructor|]. cbn [app].
    rewrite ws_blank by done. unfold using_list, many0. cbn [many_loop].
    rewrite ws_solid by by apply text_solid. by destruct (Hrest (advance l w)) as [e ->].
  - exists [], w. split_and!; [done|done|]. rewrite app_nil_r, <- !app_assoc, ws_blank by done.
    unfold using_list, many0.
    pose proof (includes_loop_complete (S (length (str "using" ++ w2 ++ ti ++ ta ++ w3 ++ str ";" ++ tus ++ w ++ rest)))
      (advance l w1) (mkInclude i a :: us) ([] ++ str "using" ++ w2 ++ ti ++ ta ++ w3 ++ str ";" ++ tus) (w ++ rest) []) as H.
    cbn [app] in H. rewrite <- !app_assoc in H. etransitivity; [apply H|cut].
    + by apply (Includes_cons [] w2 i ti a ta w3 us tus Blank_nil).
    + rewrite !length_app. lia.
    + intros l'. unfold fails. rewrite ws_blank by done. apply Hrest.
Qed.

Lemma until_eof_complete {O} (R : Location → O → rstring → Prop) (f : BindParser O) fuel l os ts w acc :
  (∀ l o t, R l o t → (0 < length t)%nat) → (∀ l o t r, R l o t → solid_text (t ++ r) = true) →
  (∀ l o t r, R l o t → f (at_location l (t ++ r)) = Ok (at_location (advance l t) r, o)) →
  many_text (blank_text R) l os ts → blank w → (length ts < fuel)%nat →
  until_eof_loop (ws f) fuel (at_location l (ts ++ w)) acc =
    Ok (at_location (advance l (ts ++ w)) [], acc ++ os).
Proof.
  intros Hlen Hsolid Hf Hos Hw. revert fuel acc.
  induction Hos as [l|l o t' os ts (w' & t & -> & Hw' & Ho) Hos IH]; intros fuel acc Hfuel;
    (destruct fuel as [|fuel]; [lia|]); cbn [until_eof_loop].
  - cbn [app]. pose proof (skip_ws_blank l w [] Hw eq_refl) as H. rewrite app_nil_r in H.
    rewrite H. cbn [mbind outcome_bind]. case_decide; [|done]. by rewrite app_nil_r.
  - repeat (rewrite ?length_app in Hfuel; cbn in Hfuel). pose proof (Hlen _ _ _ Ho).
    rewrite <- !app_assoc. rewrite skip_ws_blank by eauto. cbn [mbind outcome_bind].
    case_decide as Hnil; [by destruct t; cbn in *; [lia|]|].
    rewrite ws_blank by eauto. rewrite (Hf _ o t) by done.
    cbn [mbind outcome_bind]. case_decide as Heq; [cbn in Heq; rewrite !length_app in Heq; lia|].
    rewrite advance_app, IH by lia. f_equal. f_equal; [cut|by rewrite <- app_assoc].
Qed.

Lemma statements_text_many l ss ts : statements_text l ss ts → many_text (blank_text statement_text) l ss ts.
Proof.
  induction 1 as [l|l w s t ss ts Hw Hs Hss IH]; [constructor|]. rewrite app_assoc.
  constructor; [by exists w, t|done].
Qed.

(** The includes of a source, and everything after them. *)
Lemma includes_then_complete {O} (R : Location → O → rstring → Prop) (f : BindParser O) l us tus os ts w :
  (∀ l o t, R l o t → (0 < length t)%nat) → (∀ l o t r, R l o t → solid_text (t ++ r) = true) →
  (∀ l o t r, R l o t → f (at_location l (t ++ r)) = Ok (at_location (advance l t) r, o)) →
  (∀ l l' o t r, R l o t → fails using_ (at_location l' (t ++ r))) →
  includes_text us tus → many_text (blank_text R) (advance l tus) os ts → blank w →
  ∃ i, ws using_list (at_location l (tus ++ ts ++ w)) = Ok (i, us) ∧
    many_until_eof (ws f) i = Ok (at_location (advance l (tus ++ ts ++ w)) [], os).
Proof.
  intros Hlen Hsolid Hf Husing Hus Hos Hw.
  assert (∃ w0 rest, ts ++ w = w0 ++ rest ∧ blank w0 ∧ solid_text rest = true ∧
    (∀ l, fails using_ (at_location l rest)) ∧
    ∀ w1 w2, w0 = w1 ++ w2 → blank w2 →
      ∃ ts' w', w2 ++ rest = ts' ++ w' ∧ blank w' ∧
        many_text (blank_text R) (advance l (tus ++ w1)) os ts') as (w0 & rest & Heq & Hw0 & Hs & Hno & Htail).
  { destruct os as [|o os]; inversion Hos as [|? ? t' ? ts' (w0 & t & -> & Hw0 & Ho) Hos']; subst.
    - exists w, []. rewrite app_nil_r. split_and!; [done|done|done| |].
      + intros l'. apply bind_fails. apply (token_fails "using" _ l' [] [] Blank_nil); [done|]. by intros [k ?].
      + intros w1 w2 -> Hw2. exists [], w2. rewrite app_nil_r. split_and!; [done|done|constructor].
    - exists w0, (t ++ ts' ++ w). rewrite <- !app_assoc. split_and!; [done|done|by eapply Hsolid|by intros; eapply Husing|].
      intros w1 w2 -> Hw2. exists ((w2 ++ t) ++ ts'), w. rewrite <- !app_assoc. split_and!; [done|done|].
      rewrite !advance_app in *. rewrite <- !app_assoc in *. rewrite (app_assoc w2 t ts'). constructor.
      + exists w2, t. split_and!; [done|done|]. rewrite advance_app. by rewrite <- !app_assoc.
      + rewrite advance_app. by rewrite <- !app_assoc. }
  rewrite Heq. destruct (using_list_complete l us tus w0 rest) as (w1 & w2 & Hsplit & Hw2 & ->); [done..|].
  eexists. split; [done|]. destruct (Htail w1 w2 Hsplit Hw2) as (ts' & w' & Hts & Hw' & HM).
  rewrite Hts. unfold many_until_eof. etransitivity; [apply (until_eof_complete R); try done|].
  - cbn. rewrite length_app. lia.
  - rewrite <- Hts, Hsplit. cut.
Qed.



