(* ===== verification/CompositeGrammar.v ===== *)
(** The concrete syntax of composite bind rules, and the proof that
    [bind_composite::Ast::try_from] recognises it ([composite_try_from_iff]). *)
From Stdlib Require Import ZArith Lia.
From stdpp Require Import base gmap strings countable list.
From S2P Require Import Prelude Format Nom NomCorrect ParserCommon BindRules CommonParser.
From S2P Require Import RulesParser ParserTotal Grammar ParserSound ParserComplete.
Local Open Scope Z_scope.

#[local] Existing Instance unbounded.

(** ** The grammar *)

(** A node as it is parsed: whether it is the primary one, its name and its statements. *)
Abbreviation Node := (bool * rstring * list Statement)%type.

Inductive primary_text : bool → rstring → Prop :=
| Not_primary : primary_text false []
| Primary w : blank w → primary_text true (str "primary" ++ w).

Inductive node_text (l : Location) : Node → rstring → Prop :=
| Node_text p tp w1 name w2 ss ts :
    primary_text p tp → blank w1 → quotable name → name ≠ [] → blank w2 →
    block_text (advance l (tp ++ str "node" ++ w1 ++ quote_text name ++ w2)) ss ts →
    node_text l (p, name, ss) (tp ++ str "node" ++ w1 ++ quote_text name ++ w2 ++ ts).

Definition is_primary_node (n : Node) : bool := n.1.1.
Definition parsed_name (n : Node) : rstring := n.1.2.
Definition ast_node (n : Node) : CompositeAstNode := mkCompositeAstNode n.1.2 n.2.

Definition primaries (ns : list Node) : list Node := filter (λ n, is_primary_node n = true) ns.
Definition others (ns : list Node) : list Node := filter (λ n, is_primary_node n = false) ns.

(** The names of the nodes differ, one is the primary node, and the others are kept in the
    order of the source. *)
Definition composite_nodes (ast : CompositeAst) (ns : list Node) : Prop :=
  NoDup (parsed_name <$> ns) ∧ ast_node <$> primaries ns = [ast_primary_node ast] ∧
  nodes ast = ast_node <$> others ns.

Inductive composite_text (ast : CompositeAst) : rstring → Prop :=
| Composite_text w0 w1 ti w2 tus ns ts w :
    blank w0 → blank w1 → ident_text (composite_name ast) ti → blank w2 →
    let head := w0 ++ str "composite" ++ w1 ++ ti ++ w2 ++ str ";" in
    includes_text (composite_using ast) tus →
    many_text (blank_text node_text) (advance (0, 1) (head ++ tus)) ns ts → blank w →
    composite_nodes ast ns → composite_text ast (head ++ tus ++ ts ++ w).

(** ** Nodes *)

Lemma parse_node_name_reads :
  reads (λ _ s t, quotable s ∧ s ≠ [] ∧ t = quote_text s) parse_node_name.
Proof. apply map_parser_err_reads, pmap_reads, quoted_reads. Qed.

Lemma parse_node_name_complete l s r :
  quotable s → s ≠ [] →
  parse_node_name (at_location l (quote_text s ++ r)) = Ok (at_location (advance l (quote_text s)) r, s).
Proof.
  intros Hs Hne. unfold parse_node_name, map_parser_err, pmap.
  destruct (quoted_complete l s r Hs Hne) as (o & -> & <-). done.
Qed.

Lemma node_reads : reads (blank_text node_text) node.
Proof.
  intros l s i' o H. apply bind_Ok_iff in H as ([i1 [kp kn]] & H & H1).
  apply bind_Ok_iff in H1 as ([i2 name] & H2 & H1). apply bind_Ok_iff in H1 as ([i3 ss] & H3 & [= <- <-]).
  apply bind_Ok_iff in H as ([i4 p] & H0 & H). apply bind_Ok_iff in H as ([i5 n] & H1 & [= <- <- <-]).
  read H0 with (opt_reads _ _ (token_reads "primary" _)) as t0 r0 Hp.
  read H1 with (token_reads "node") as t1 r1 (w1 & -> & Hw1).
  read H2 with (ws_reads _ _ parse_node_name_reads) as t2 r2 (w2 & t & -> & Hw2 & (Hq & Hne & ->)).
  apply (proj2 (statement_block_reads _ statement_reads)) in H3 as (t3 & r3 & -> & -> & (w3 & tb & -> & Hw3 & Hb)).
  assert (∃ w tp, t0 ++ w1 = w ++ tp ∧ blank w ∧ primary_text (bool_decide (is_Some p)) tp)
    as (w & tp & Heq & Hw & Htp).
  { destruct p as [p|].
    - destruct Hp as (w & -> & Hw). exists w, (str "primary" ++ w1). rewrite <- app_assoc.
      split_and!; [done|done|]. rewrite bool_decide_eq_true_2 by eauto. by constructor.
    - subst t0. exists w1, []. rewrite app_nil_r. split_and!; [done|done|].
      rewrite bool_decide_eq_false_2 by (by intros []). constructor. }
  exists (w ++ tp ++ str "node" ++ w2 ++ quote_text name ++ w3 ++ tb), r3.
  assert (∀ x, t0 ++ w1 ++ x = w ++ tp ++ x) as Heq' by (intros x; by rewrite !app_assoc, Heq).
  rewrite !advance_app in *. rewrite <- !app_assoc in *. rewrite !Heq' in *. split_and!; [done|done|].
  exists w, (tp ++ str "node" ++ w2 ++ quote_text name ++ w3 ++ tb). split_and!; [done|done|].
  constructor; try done. by rewrite advance_app.
Qed.

Lemma node_text_cases l n t r :
  node_text l n t → ∃ k, t ++ r = str "primary" ++ k ∨ t ++ r = str "node" ++ k.
Proof.
  destruct 1 as [p tp w1 name w2 ss ts Hp]. destruct Hp; eexists; [by right|left].
  by rewrite <- !app_assoc.
Qed.

Lemma node_text_solid l n t r : node_text l n t → solid_text (t ++ r) = true.
Proof. by intros [k [-> | ->]]%(node_text_cases _ _ _ r). Qed.

Lemma node_text_length l n t : node_text l n t → (0 < length t)%nat.
Proof. destruct 1. repeat (rewrite ?length_app; cbn). lia. Qed.

Lemma using_fails_node l l' n t r : node_text l n t → fails using_ (at_location l' (t ++ r)).
Proof.
  intros H. apply bind_fails. apply (token_fails "using" _ l' [] (t ++ r) Blank_nil).
  - by eapply node_text_solid.
  - apply (node_text_cases _ _ _ r) in H as [k [-> | ->]]; by intros [k' ?].
Qed.

Lemma node_complete l n t r :
  node_text l n t → node (at_location l (t ++ r)) = Ok (at_location (advance l t) r, n).
Proof.
  intros Hn. pose proof (node_text_solid _ _ _ r Hn) as Hs. unfold node, tuple2.
  destruct Hn as [p tp w1 name w2 ss ts Hp Hw1 Hq Hne Hw2 Hb]. rewrite <- !app_assoc in *.
  set (rest := w1 ++ quote_text name ++ w2 ++ ts ++ r) in *.
  assert (∃ kp w, opt keyword_primary (at_location l (tp ++ str "node" ++ rest)) =
      Ok (at_location (advance l (if p then str "primary" else [])) (w ++ str "node" ++ rest), kp) ∧
    tp = (if p then str "primary" else []) ++ w ∧ blank w ∧ bool_decide (is_Some kp) = p)
    as (kp & w & -> & Htp & Hw & Hkp).
  { unfold opt, keyword_primary. destruct Hp as [|w Hw].
    - cbn [app]. destruct (token_fails "primary" PE_PrimaryKeyword l [] (str "node" ++ rest)) as [e He];
        [constructor|done|by intros [k ?]|]. cbn [app] in He. rewrite He. exists None, [].
      rewrite advance_nil. split_and!; [done|done|constructor|done].
    - rewrite <- app_assoc, token_complete_solid by done. by eexists _, w. }
  cbn [mbind outcome_bind]. unfold keyword_node. rewrite token_complete by done. cbn [mbind outcome_bind fst].
  unfold rest. rewrite ws_blank by done. rewrite parse_node_name_complete by done. cbn [mbind outcome_bind].
  unfold statement_block.
  rewrite (statement_block_complete statement (S (length ts))) with (ss := ss); [|..|done| |lia].
  - cbn [mbind outcome_bind]. rewrite Hkp, Htp. cut.
  - intros. by apply statement_complete.
  - intros. by apply statement_fuel_fails; cbn; lia.
  - rewrite Htp in Hb. rewrite !advance_app in *. by rewrite <- !app_assoc in *.
Qed.

(** ** Sorting the nodes *)

(** What the loop has after [ns]. *)
Definition sorted (ns : list Node) : option CompositeAstNode * list CompositeAstNode * gset rstring :=
  (head (ast_node <$> primaries ns), ast_node <$> others ns, list_to_set (parsed_name <$> ns)).

Lemma sort_node_spec input ns n st :
  sort_node input (sorted ns) n = Ok st ↔
  (parsed_name n ∉ parsed_name <$> ns) ∧ (is_primary_node n = true → primaries ns = []) ∧
  st = sorted (ns ++ [n]).
Proof.
  destruct n as [[prim name] ss]. unfold sort_node, sorted. cbn [parsed_name fst snd].
  assert (bool_decide (name ∈@{gset rstring} list_to_set (parsed_name <$> ns)) =
    bool_decide (name ∈ parsed_name <$> ns)) as -> by (apply bool_decide_ext, elem_of_list_to_set).
  assert ({[name]} ∪ list_to_set (parsed_name <$> ns) =@{gset rstring}
    list_to_set (parsed_name <$> ns ++ [(prim, name, ss)])) as ->.
  { rewrite fmap_app, list_to_set_app_L. cbn. rewrite (union_empty_r_L {[name]}). apply union_comm_L. }
  unfold primaries, others. rewrite !filter_app, !fmap_app.
  case_bool_decide as Hin; [by split; [|intros [? _]]|].
  destruct prim; cbn [is_primary_node fst].
  - rewrite !(filter_cons _ (true, name, ss)). cbn. rewrite app_nil_r.
    destruct (filter _ ns) as [|p ps]; cbn; split; try done.
    + intros [= <-]. done.
    + by intros (_ & _ & ->).
    + intros (_ & H & _). by specialize (H eq_refl).
  - rewrite !(filter_cons _ (false, name, ss)). cbn. rewrite app_nil_r.
    split; [intros [= <-]|intros (_ & _ & ->)]; done.
Qed.

Lemma NoDup_snoc {A} (l : list A) x : NoDup (l ++ [x]) ↔ x ∉ l ∧ NoDup l.
Proof. by rewrite <- Permutation_cons_append, NoDup_cons. Qed.

Lemma sort_nodes_spec input ns st :
  try_fold (sort_node input) (None, [], ∅) ns = Ok st ↔
  NoDup (parsed_name <$> ns) ∧ (length (primaries ns) <= 1)%nat ∧ st = sorted ns.
Proof.
  change (None, [], ∅) with (sorted []). revert st. induction ns as [|n ns IH] using rev_ind; intros st.
  - cbn. split; [intros [= <-]|by intros (_ & _ & ->)]. split_and!; [constructor|lia|done].
  - rewrite try_fold_app. cbn. setoid_rewrite bind_Ok_iff. setoid_rewrite IH. clear IH.
    unfold primaries at 2. rewrite filter_app, fmap_app, length_app.
    change (parsed_name <$> [n]) with [parsed_name n]. rewrite NoDup_snoc.
    fold (primaries ns). split.
    + intros (st' & (Hnd & Hle & ->) & Hstep).
      apply bind_Ok_iff in Hstep as (st'' & (Hin & Hp & ->)%sort_node_spec & [= <-]).
      split_and!; [done|done| |done]. destruct (is_primary_node n) eqn:Hn.
      * rewrite Hp by done. rewrite filter_cons. by case_decide; cbn; lia.
      * rewrite filter_cons. case_decide; [congruence|]. cbn. lia.
    + intros ([Hin Hnd] & Hle & ->). eexists. split_and!; [done|lia|done|].
      rewrite (proj2 (sort_node_spec input ns n (sorted (ns ++ [n])))); [done|].
      split_and!; [done| |done]. intros Hn.
      rewrite filter_cons in Hle. case_decide; [|done]. cbn in Hle. apply length_zero_iff_nil. lia.
Qed.

(** ** Whole sources *)

Lemma parse_composite_name_reads :
  reads_token (λ _ i t, ∃ w1 ti w2, t = str "composite" ++ w1 ++ ti ++ w2 ++ str ";" ∧
    blank w1 ∧ ident_text i ti ∧ blank w2) parse_composite_name.
Proof.
  eapply reads_token_ext; [intros; apply delimited_ws|]. apply ws_reads_token. intros l s i' o H.
  apply bind_Ok_iff in H as ([i1 x] & H1 & H). apply bind_Ok_iff in H as ([i2 i] & H2 & H).
  apply bind_Ok_iff in H as ([i3 y] & H3 & [= <- <-]).
  read H1 with (map_parser_err_reads _ _ _ (tag_reads _)) as t1 r1 ->.
  read H2 with (ws_reads _ _ compound_identifier_reads) as t2 r2 (w1 & ti & -> & Hw1 & Hi).
  read H3 with token_reads as t3 r3 (w2 & -> & Hw2).
  exists (str "composite" ++ w1 ++ ti ++ w2 ++ str ";"), r3. split_and!; [cut|cut|]. by exists w1, ti, w2.
Qed.

Lemma parse_composite_name_complete l w0 w1 i ti w2 r :
  blank w0 → blank w1 → ident_text i ti → blank w2 →
  ws parse_composite_name (at_location l (w0 ++ str "composite" ++ w1 ++ ti ++ w2 ++ str ";" ++ r)) =
    Ok (at_location (advance l (w0 ++ str "composite" ++ w1 ++ ti ++ w2 ++ str ";")) r, i).
Proof.
  intros Hw0 Hw1 Hi Hw2. rewrite ws_blank by done. unfold parse_composite_name, delimited, keyword_composite.
  rewrite token_complete_solid by done. cbn [mbind outcome_bind].
  rewrite ws_blank by eauto using ident_text_solid.
  rewrite (compound_identifier_complete _ i) by auto using blank_ends_word. cbn [mbind outcome_bind].
  rewrite token_complete by done. cbn [mbind outcome_bind]. cut.
Qed.

Lemma composite_sound input ast : run_parser composite input = Ok ast → composite_text ast input.
Proof.
  unfold run_parser. change (new_span input) with (at_location (0, 1) input).
  destruct (composite _) as [[i' ast']|[|e|e]|] eqn:H; try done. intros [= ->].
  apply bind_Ok_iff in H as ([i1 [[name us] [p os]]] & H & [= -> <-]).
  apply bind_Ok_iff in H as ([i2 name'] & H1 & H). apply bind_Ok_iff in H as ([i3 us'] & H2 & H).
  apply bind_Ok_iff in H as ([i4 [p' os']] & H & [= -> -> -> -> ->]).
  apply bind_Ok_iff in H as ([i5 ns] & H3 & H). case_decide; [done|].
  apply bind_Ok_iff in H as ([[prim os'] names] & (Hnd & Hle & Hst)%sort_nodes_spec & H).
  destruct prim as [prim|]; [|done]. injection H as <- -> ->.
  read H1 with (reads_ws _ _ parse_composite_name_reads) as t1 r1
    (w0 & t & -> & Hw0 & (w1 & ti & w2 & -> & Hw1 & Hi & Hw2)).
  destruct (includes_then_reads node_text _ _ _ _ _ _ _ (ws_ws_reads _ _ node_reads) H2 H3)
    as (tus & ts & w & -> & Hus & HM & Hw).
  apply (Composite_text _ w0 w1 ti w2 tus ns ts w); try done.
  - by rewrite advance_app in HM.
  - injection Hst as Hp -> _. split_and!; [done| |done]. cbn.
    destruct (primaries ns) as [|n [|n' ps]]; cbn in *; [done| |lia]. by injection Hp as ->.
Qed.


