(* ===== verification/LibraryGrammar.v ===== *)
(** The concrete syntax of bind libraries, and the proof that
    [bind_library::Ast::try_from] recognises it ([library_try_from_iff]). *)
From Stdlib Require Import ZArith Lia.
From stdpp Require Import base gmap strings countable list.
From S2P Require Import Prelude Format Nom NomCorrect ParserCommon BindLibrary CommonParser.
From S2P Require Import LibraryParser ParserTotal Grammar ParserSound ParserComplete.
Local Open Scope Z_scope.

#[local] Existing Instance unbounded.

(** ** The grammar *)

(** What the name of a value is bound to. *)
Inductive binding_text (s : rstring) : ValueType → Value → rstring → Prop :=
| Binding_number n t : number_text n t → binding_text s Number (NumberV s n) t
| Binding_string v : quotable v → v ≠ [] → binding_text s Str (StrV s v) (quote_text v)
| Binding_bool (b : bool) : binding_text s Bool (BoolV s b) (if b then str "true" else str "false").

Inductive item_text : ValueType → Value → rstring → Prop :=
| Item_binding ty s w1 w2 v t :
    segment s = true → blank w1 → blank w2 → binding_text s ty v t →
    item_text ty v (s ++ w1 ++ str "=" ++ w2 ++ t)
| Item_enum s : segment s = true → item_text Enum (EnumV s) s.

(** The values of a declaration, if it has any.  No semicolon occurs before the one
    that ends it, and what is left between the brace and the semicolon is not read. *)
Inductive body_text (ty : ValueType) : list Value → rstring → Prop :=
| Body_none : body_text ty [] []
| Body_values w vs tl unread :
    blank w → value_list_text (item_text ty) vs tl → body_text ty vs (w ++ tl ++ unread).

Definition type_text (ty : ValueType) : rstring :=
  match ty with
  | Number => str "uint"
  | Str => str "string"
  | Bool => str "bool"
  | Enum => str "enum"
  end.

Inductive extend_text : bool → rstring → Prop :=
| No_extend : extend_text false []
| Extend w : blank w → extend_text true (str "extend" ++ w).

Inductive declaration_text : Declaration → rstring → Prop :=
| Declaration_text e te ty w i ti vs tb :
    extend_text e te → blank w → ident_text i ti → body_text ty vs tb → 0x3b ∉ tb →
    declaration_text (mkDeclaration i ty e vs) (te ++ type_text ty ++ w ++ ti ++ tb ++ str ";").

Inductive library_text (ast : Ast) : rstring → Prop :=
| Library_text w0 w1 ti w2 tus ts w :
    blank w0 → blank w1 → ident_text (ast_name ast) ti → blank w2 →
    let head := w0 ++ str "library" ++ w1 ++ ti ++ w2 ++ str ";" in
    includes_text (ast_using ast) tus →
    many_text (blank_text (λ _ d t, declaration_text d t)) (advance (0, 1) (head ++ tus)) (declarations ast) ts →
    blank w → library_text ast (head ++ tus ++ ts ++ w).

(** ** Values *)

Definition literal_parser (ty : ValueType) : BindParser Value :=
  match ty with
  | Number => pmap (separated_pair (ws CommonParser.identifier) (token "=" PE_Assignment) (ws numeric_literal))
                (λ '(ident, val), NumberV ident val)
  | Str => pmap (separated_pair (ws CommonParser.identifier) (token "=" PE_Assignment) (ws string_literal))
             (λ '(ident, val), StrV ident val)
  | Bool => pmap (separated_pair (ws CommonParser.identifier) (token "=" PE_Assignment) (ws bool_literal))
              (λ '(ident, val), BoolV ident val)
  | Enum => pmap (ws CommonParser.identifier) EnumV
  end.

Lemma separated_pair_reads {O} (mk : rstring * O → Value) R ty (p : BindParser O) :
  reads (λ _ o t, R o t) p → (∀ s o t, R o t → binding_text s ty (mk (s, o)) t) →
  reads (blank_text (λ _ v t, item_text ty v t))
    (pmap (separated_pair (ws CommonParser.identifier) (token "=" PE_Assignment) (ws p)) mk).
Proof.
  intros Hp Hmk l s i' v H. apply bind_Ok_iff in H as ([i1 [name o]] & H & [= <- <-]).
  apply bind_Ok_iff in H as ([i2 name'] & H1 & H). apply bind_Ok_iff in H as ([i3 x] & H2 & H).
  apply bind_Ok_iff in H as ([i4 o'] & H3 & [= <- <- <-]).
  read H1 with (ws_reads _ _ identifier_reads) as t1 r1 (w & seg & -> & Hw & -> & Hseg).
  read H2 with token_reads as t2 r2 (w1 & -> & Hw1).
  read H3 with (ws_reads _ _ Hp) as t3 r3 (w2 & t & -> & Hw2 & HR).
  exists (w ++ seg ++ w1 ++ str "=" ++ w2 ++ t), r3. split_and!; [cut|cut|].
  exists w, (seg ++ w1 ++ str "=" ++ w2 ++ t). split_and!; [done|done|]. constructor; auto.
Qed.

Lemma literal_reads ty : reads (blank_text (λ _ v t, item_text ty v t)) (literal_parser ty).
Proof.
  destruct ty.
  - apply (separated_pair_reads _ _ Number _ numeric_literal_reads). by constructor.
  - apply (separated_pair_reads _ _ Str _ string_literal_reads). intros s o t (Hq & Hne & ->). by constructor.
  - apply (separated_pair_reads _ _ Bool _ bool_literal_reads). intros s o t ->. by constructor.
  - apply pmap_reads. eapply reads_weaken; [|apply ws_reads, identifier_reads].
    intros l o t (w & seg & -> & Hw & -> & Hseg). exists w, seg. split_and!; [done|done|by constructor].
Qed.

Lemma item_text_head ty v t : item_text ty v t → ∃ b t', t = b :: t' ∧ is_letter b = true.
Proof. by destruct 1 as [ty s w1 w2 v t Hs|s Hs]; apply segment_spec in Hs as (b & u & e & -> & Hb & _); eexists b, _. Qed.

Lemma item_text_length ty v t : item_text ty v t → (0 < length t)%nat.
Proof. intros (b & t' & -> & _)%item_text_head. cbn. lia. Qed.

Lemma item_text_solid ty v t r : item_text ty v t → solid_text (t ++ r) = true.
Proof. intros (b & t' & -> & Hb)%item_text_head. by apply word_solid, letter_word. Qed.

Lemma segment_solid s r : segment s = true → solid_text (s ++ r) = true.
Proof. intros Hs. exact (ident_text_solid _ _ r (keyword_ident s Hs)). Qed.

Lemma separated_pair_complete {O} (p : BindParser O) l w s w1 w2 o t r :
  blank w → segment s = true → blank w1 → blank w2 → solid_text (t ++ r) = true →
  (∀ l, p (at_location l (t ++ r)) = Ok (at_location (advance l t) r, o)) →
  separated_pair (ws CommonParser.identifier) (token "=" PE_Assignment) (ws p)
      (at_location l (w ++ (s ++ w1 ++ str "=" ++ w2 ++ t) ++ r)) =
    Ok (at_location (advance l (w ++ s ++ w1 ++ str "=" ++ w2 ++ t)) r, (s, o)).
Proof.
  intros Hw Hs Hw1 Hw2 Hsolid Hp. unfold separated_pair. rewrite <- !app_assoc.
  rewrite ws_blank by auto using segment_solid.
  rewrite identifier_complete; [|done|]; last (intros c; by apply ends_word_word, blank_ends_word).
  cbn [mbind outcome_bind]. rewrite token_complete by done. cbn [mbind outcome_bind].
  rewrite ws_blank by done. rewrite Hp. cbn [mbind outcome_bind]. cut.
Qed.

Lemma literal_complete ty l w v t r :
  blank w → item_text ty v t → ends_word r = true →
  literal_parser ty (at_location l (w ++ t ++ r)) = Ok (at_location (advance l (w ++ t)) r, v).
Proof.
  intros Hw Ht Hr. destruct Ht as [ty s w1 w2 v t Hs Hw1 Hw2 Hv|s Hs]; last first.
  { cbn [literal_parser]. unfold pmap. rewrite ws_blank by auto using segment_solid.
    rewrite identifier_complete; [|done|by intros c; apply ends_word_word]. cbn [mbind outcome_bind]. cut. }
  destruct Hv as [n t Hn|v Hq Hne|b]; cbn [literal_parser]; unfold pmap.
  - rewrite (separated_pair_complete _ _ w s w1 w2 n); try done.
    + destruct (number_text_head n t Hn) as (b & t' & -> & Hb). by apply word_solid, digit_word.
    + intros l'. by apply numeric_literal_complete.
  - rewrite (separated_pair_complete _ _ w s w1 w2 v); try done.
    intros l'. by apply string_literal_complete.
  - rewrite (separated_pair_complete _ _ w s w1 w2 b); try done; [by destruct b|].
    intros l'. by apply bool_literal_complete.
Qed.

Lemma literal_fails ty l w r : blank w → fails (literal_parser ty) (at_location l (w ++ str "}" ++ r)).
Proof.
  intros Hw. assert (fails (ws CommonParser.identifier) (at_location l (w ++ str "}" ++ r))) as Hf.
  { unfold fails. rewrite ws_blank by done. apply identifier_fails. by intros c [= <-]. }
  destruct ty; cbn [literal_parser]; unfold fails, pmap, separated_pair;
    first [exact (bind_fails _ _ Hf)|exact (bind_fails _ _ (bind_fails _ _ Hf))].
Qed.

(** ** Lists of values *)

Lemma find_semicolon s n :
  find_substring (str ";") s = Some n ↔ ∃ b r, s = b ++ str ";" ++ r ∧ n = length b ∧ 0x3b ∉ b.
Proof.
  split.
  - revert n. induction s as [|c s IH]; intros n; [done|]. cbn [find_substring].
    change (compare_str (c :: s) (str ";")) with (if c =? 0x3b then compare_str s [] else Compare_Error).
    destruct (Z.eqb_spec c 0x3b) as [->|Hc].
    + replace (compare_str s []) with Compare_Ok by (by destruct s). intros [= <-]. exists [], s.
      split_and!; [done|done|apply not_elem_of_nil].
    + destruct (find_substring _ s) as [m|]; [|done]. intros [= <-].
      destruct (IH m eq_refl) as (b & r & -> & -> & Hb). exists (c :: b), r.
      split_and!; [done|done|]. rewrite not_elem_of_cons. auto.
  - intros (b & r & -> & -> & Hb). induction b as [|c b IH].
    + change (find_substring (str ";") ([] ++ str ";" ++ r)) with
        (match compare_str (str ";" ++ r) (str ";") with Compare_Ok => Some 0%nat | _ => S <$> find_substring (str ";") r end).
      by rewrite compare_str_prefix.
    + apply not_elem_of_cons in Hb as [Hc Hb]. specialize (IH Hb). cbn [app find_substring length].
      change (compare_str (c :: b ++ str ";" ++ r) (str ";"))
        with (if c =? 0x3b then compare_str (b ++ str ";" ++ r) [] else Compare_Error).
      rewrite (proj2 (Z.eqb_neq c 0x3b)) by done. by rewrite IH.
Qed.

Abbreviation until_semicolon := (map_parser_err (terminated (take_until (str ";")) (tag (str ";"))) PE_Semicolon).

Lemma until_semicolon_iff l s i o :
  until_semicolon (at_location l s) = Ok (i, o) ↔
  ∃ b r, s = b ++ str ";" ++ r ∧ 0x3b ∉ b ∧ i = at_location (advance l (b ++ str ";")) r ∧ o = at_location l b.
Proof.
  unfold map_parser_err, terminated, take_until. cbn [fragment at_location]. split.
  - destruct (find_substring _ s) as [n|] eqn:Hf; [|done].
    apply find_semicolon in Hf as (b & r & -> & -> & Hb). rewrite ?take_split_unbounded. cbn [mbind outcome_bind].
    fold (at_location l (b ++ str ";" ++ r)). rewrite slice_from_text, slice_to_text, tag_prefix.
    cbn [mbind outcome_bind]. rewrite advance_app. intros [= <- <-]. eauto 8.
  - intros (b & r & -> & Hb & -> & ->). rewrite (proj2 (find_semicolon _ (length b))) by eauto.
    rewrite ?take_split_unbounded. cbn [mbind outcome_bind]. fold (at_location l (b ++ str ";" ++ r)).
    rewrite slice_from_text, slice_to_text, tag_prefix. cbn [mbind outcome_bind]. by rewrite advance_app.
Qed.

Lemma value_list_body_reads ty :
  reads (λ _ vs t, ∃ tb, t = tb ++ str ";" ∧ body_text ty vs tb ∧ 0x3b ∉ tb) (value_list (literal_parser ty)).
Proof.
  intros l s i' vs H. apply bind_Ok_iff in H as ([i1 vals] & (b & r & -> & Hb & -> & ->)%until_semicolon_iff & H).
  case_decide as Hnil.
  - injection H as <- <-. cbn in Hnil. subst b. exists (str ";"), r. split_and!; [done|done|].
    exists []. split_and!; [done|constructor|done].
  - apply bind_Ok_iff in H as ([i2 vs'] & H & [= <- <-]).
    read H with (value_list_reads _ _ (ws_values_reads _ _ (values_reads _ _ (literal_reads ty))))
      as t r2 (w & tl & -> & Hw & Hl).
    exists (((w ++ tl) ++ r2) ++ str ";"), r. split_and!; [cut|done|]. eexists. split_and!; [done| |done].
    rewrite <- app_assoc. by constructor.
Qed.

Lemma ws_values_complete ty l vs ts c w r :
  values_text (item_text ty) vs ts → trailing_comma c → blank w →
  ws (terminated (separated_nonempty_list comma (literal_parser ty)) (opt comma))
      (at_location l (ts ++ c ++ w ++ str "}" ++ r)) =
    Ok (at_location (advance l (ts ++ c)) (w ++ str "}" ++ r), vs).
Proof.
  intros Hvs Hc Hw.
  assert (∃ w0 ts', ts = w0 ++ ts' ∧ blank w0 ∧ values_text (item_text ty) vs ts' ∧
    ∀ k, solid_text (ts' ++ k) = true) as (w0 & ts' & -> & Hw0 & Hvs' & Hs).
  { destruct Hvs as [w0 v t Hw0 Hv|w0 v t w' vs ts Hw0 Hv Hw' Hvs].
    - exists w0, t. split_and!; [done|done|by apply (Values_one _ [] v t Blank_nil)|].
      intros k. by eapply item_text_solid.
    - exists w0, (t ++ w' ++ str "," ++ ts). split_and!; [done|done| |].
      + by apply (Values_more _ [] v t w' vs ts Blank_nil).
      + intros k. rewrite <- app_assoc. by eapply item_text_solid. }
  rewrite <- app_assoc, ws_blank by done.
  rewrite (terminated_values_complete (item_text ty) (literal_parser ty)) with (vs := vs);
    eauto using item_text_length, literal_complete, literal_fails. f_equal. f_equal. cut.
Qed.

Lemma value_list_body_complete ty l vs tb r :
  body_text ty vs tb → 0x3b ∉ tb →
  value_list (literal_parser ty) (at_location l (tb ++ str ";" ++ r)) =
    Ok (at_location (advance l (tb ++ str ";")) r, vs).
Proof.
  intros Hb Hno. unfold value_list.
  rewrite (proj2 (until_semicolon_iff l (tb ++ str ";" ++ r) _ _)) by eauto 8. cbn [mbind outcome_bind].
  destruct Hb as [|w vs tl unread Hw Hl]; [by case_decide|].
  case_decide as Hnil; [exfalso; cbn in Hnil; destruct Hl; by destruct w|].
  destruct Hl as [vs ts c w' Hvs Hc Hw']. unfold delimited. rewrite <- !app_assoc.
  rewrite token_complete by done. cbn [mbind outcome_bind].
  rewrite (ws_values_complete ty _ vs) by done. cbn [mbind outcome_bind].
  by rewrite token_complete by done.
Qed.

(** ** Declarations *)

Lemma declaration_eq input :
  declaration input =
    ('(input, extends) ← opt keyword_extend input;
     '(input, value_type) ← alt [keyword_uint; keyword_string; keyword_bool; keyword_enum] input;
     '(input, identifier) ← ws compound_identifier input;
     '(input, vals) ← value_list (literal_parser value_type) input;
     Ok (input, mkDeclaration identifier value_type (bool_decide (is_Some extends)) vals)).
Proof.
  unfold declaration. destruct (opt _ _) as [[i1 e]| |]; [|done..]. cbn [mbind outcome_bind].
  destruct (alt _ _) as [[i2 ty]| |]; [|done..]. cbn [mbind outcome_bind].
  destruct (ws _ _) as [[i3 i]| |]; [|done..]. cbn [mbind outcome_bind]. by destruct ty.
Qed.

Lemma types_reads :
  reads (blank_text (λ _ ty t, t = type_text ty)) (alt [keyword_uint; keyword_string; keyword_bool; keyword_enum]).
Proof.
  apply alt_reads. repeat constructor; apply pvalue_reads; (eapply reads_weaken; [|apply token_reads]);
    intros l o t (w & -> & Hw); by eexists w, _.
Qed.

Lemma keyword_extend_reads : reads (blank_text (λ _ _ t, t = str "extend")) keyword_extend.
Proof. apply ws_reads, tag_reads. Qed.

Lemma declaration_reads : reads (blank_text (λ _ d t, declaration_text d t)) declaration.
Proof.
  intros l s i' d H. rewrite declaration_eq in H.
  apply bind_Ok_iff in H as ([i1 e] & H1 & H). apply bind_Ok_iff in H as ([i2 ty] & H2 & H).
  apply bind_Ok_iff in H as ([i3 i] & H3 & H). apply bind_Ok_iff in H as ([i4 vs] & H4 & [= <- <-]).
  read H1 with (opt_reads _ _ keyword_extend_reads) as t1 r1 He.
  read H2 with types_reads as t2 r2 (w2 & t & -> & Hw2 & ->).
  read H3 with (ws_reads _ _ compound_identifier_reads) as t3 r3 (w3 & ti & -> & Hw3 & Hi).
  read H4 with value_list_body_reads as t4 r4 (tb & -> & Hb & Hno).
  assert (∃ w te, (∀ x, t1 ++ w2 ++ x = w ++ te ++ x) ∧ blank w ∧ extend_text (bool_decide (is_Some e)) te)
    as (w & te & Heq & Hw & Hte).
  { destruct e as [e|].
    - destruct He as (w & t & -> & Hw & ->). exists w, (str "extend" ++ w2).
      split_and!; [intros x; by rewrite <- !app_assoc|done|]. rewrite bool_decide_eq_true_2 by eauto. by constructor.
    - subst t1. exists w2, []. split_and!; [done|done|].
      rewrite bool_decide_eq_false_2 by (by intros []). constructor. }
  exists (w ++ te ++ type_text ty ++ w3 ++ ti ++ tb ++ str ";"), r4.
  rewrite !advance_app in *. rewrite <- !app_assoc in *. rewrite !Heq in *. split_and!; [done|done|].
  exists w, (te ++ type_text ty ++ w3 ++ ti ++ tb ++ str ";"). split_and!; [done|done|by constructor].
Qed.

Lemma types_complete l w ty r :
  blank w → ∀ k, k = type_text ty ++ r →
  alt [keyword_uint; keyword_string; keyword_bool; keyword_enum] (at_location l (w ++ k)) =
    Ok (at_location (advance l (w ++ type_text ty)) r, ty).
Proof.
  intros Hw k ->. unfold alt. cbn [alt_choice].
  unfold keyword_uint, keyword_string, keyword_bool, keyword_enum, pvalue.
  assert (∀ x, ¬ str x `prefix_of` type_text ty ++ r → fails (token x PE_Type) (at_location l (w ++ type_text ty ++ r))) as Hf.
  { intros x Hx. apply token_fails; [done|by destruct ty|done]. }
  destruct ty; cbn [type_text] in *.
  - by rewrite token_complete.
  - destruct (Hf "uint") as [e1 ->]; [by intros [k ?]|]. cbn [mbind outcome_bind]. by rewrite token_complete.
  - destruct (Hf "uint") as [e1 ->]; [by intros [k ?]|]. destruct (Hf "string") as [e2 ->]; [by intros [k ?]|].
    cbn [mbind outcome_bind]. by rewrite token_complete.
  - destruct (Hf "uint") as [e1 ->]; [by intros [k ?]|]. destruct (Hf "string") as [e2 ->]; [by intros [k ?]|].
    destruct (Hf "bool") as [e3 ->]; [by intros [k ?]|]. cbn [mbind outcome_bind]. by rewrite token_complete.
Qed.

Lemma extend_complete l e te ty r :
  extend_text e te →
  ∃ k w, opt keyword_extend (at_location l (te ++ type_text ty ++ r)) =
      Ok (at_location (advance l (if e then str "extend" else [])) (w ++ type_text ty ++ r), k) ∧
    te = (if e then str "extend" else []) ++ w ∧ blank w ∧ bool_decide (is_Some k) = e.
Proof.
  intros He. unfold opt, keyword_extend. destruct He as [|w Hw].
  - cbn [app]. rewrite ws_solid by (apply text_solid; by destruct ty).
    destruct (tag_fails (E := BindParserError) (str "extend") l (type_text ty ++ r)) as [e ->];
      [by destruct ty; intros [k ?]|]. exists None, []. rewrite advance_nil. by split_and!; [| |constructor|].
  - rewrite <- app_assoc, ws_solid by by apply text_solid. rewrite tag_prefix. by eexists _, w.
Qed.

Lemma body_ends_word ty vs tb r : body_text ty vs tb → ends_word (tb ++ str ";" ++ r) = true.
Proof.
  destruct 1 as [|w vs tl unread Hw Hl]; [done|]. destruct Hl. rewrite <- !app_assoc. by apply blank_ends_word.
Qed.

Lemma declaration_complete l d t r :
  declaration_text d t → declaration (at_location l (t ++ r)) = Ok (at_location (advance l t) r, d).
Proof.
  destruct 1 as [e te ty w i ti vs tb He Hw Hi Hb Hno]. rewrite declaration_eq, <- !app_assoc.
  destruct (extend_complete l e te ty (w ++ ti ++ tb ++ str ";" ++ r) He) as (k & w' & -> & -> & Hw' & <-).
  cbn [mbind outcome_bind]. erewrite types_complete by done. cbn [mbind outcome_bind].
  rewrite ws_blank by eauto using ident_text_solid.
  rewrite (compound_identifier_complete _ i) by eauto using body_ends_word. cbn [mbind outcome_bind].
  rewrite (value_list_body_complete ty _ vs) by done. cbn [mbind outcome_bind]. cut.
Qed.

(** It starts with a keyword. *)
Lemma declaration_text_cases d t r :
  declaration_text d t → ∃ k ty, t ++ r = str "extend" ++ k ∨ t ++ r = type_text ty ++ k.
Proof.
  destruct 1 as [e te ty w i ti vs tb He]. destruct He; eexists _, ty; rewrite <- !app_assoc; [by right|by left].
Qed.

Lemma declaration_text_solid d t r : declaration_text d t → solid_text (t ++ r) = true.
Proof. by intros (k & [] & [-> | ->])%(declaration_text_cases _ _ r). Qed.

Lemma declaration_text_length d t : declaration_text d t → (0 < length t)%nat.
Proof. destruct 1 as [e te ty]. rewrite !length_app. destruct ty; cbn; lia. Qed.

Lemma using_fails_declaration l d t r : declaration_text d t → fails using_ (at_location l (t ++ r)).
Proof.
  intros H. apply bind_fails. apply (token_fails "using" _ l [] (t ++ r) Blank_nil).
  - by eapply declaration_text_solid.
  - by apply (declaration_text_cases _ _ r) in H as (k & [] & [-> | ->]); intros [k' ?].
Qed.

(** ** Whole sources *)

Lemma library_name_reads :
  reads_token (λ _ i t, ∃ w1 ti w2, t = str "library" ++ w1 ++ ti ++ w2 ++ str ";" ∧
    blank w1 ∧ ident_text i ti ∧ blank w2) library_name.
Proof.
  eapply reads_token_ext; [intros; apply delimited_ws|]. apply ws_reads_token. intros l s i' o H.
  apply bind_Ok_iff in H as ([i1 x] & H1 & H). apply bind_Ok_iff in H as ([i2 i] & H2 & H).
  apply bind_Ok_iff in H as ([i3 y] & H3 & [= <- <-]).
  read H1 with (map_parser_err_reads _ _ _ (tag_reads _)) as t1 r1 ->.
  read H2 with (ws_reads _ _ compound_identifier_reads) as t2 r2 (w1 & ti & -> & Hw1 & Hi).
  read H3 with token_reads as t3 r3 (w2 & -> & Hw2).
  exists (str "library" ++ w1 ++ ti ++ w2 ++ str ";"), r3. split_and!; [cut|cut|]. by exists w1, ti, w2.
Qed.

Lemma library_name_complete l w0 w1 i ti w2 r :
  blank w0 → blank w1 → ident_text i ti → blank w2 →
  ws library_name (at_location l (w0 ++ str "library" ++ w1 ++ ti ++ w2 ++ str ";" ++ r)) =
    Ok (at_location (advance l (w0 ++ str "library" ++ w1 ++ ti ++ w2 ++ str ";")) r, i).
Proof.
  intros Hw0 Hw1 Hi Hw2. rewrite ws_blank by done. unfold library_name, delimited.
  rewrite token_complete_solid by done. cbn [mbind outcome_bind].
  rewrite ws_blank by eauto using ident_text_solid.
  rewrite (compound_identifier_complete _ i) by auto using blank_ends_word. cbn [mbind outcome_bind].
  rewrite token_complete by done. cbn [mbind outcome_bind]. cut.
Qed.

Lemma library_sound input ast : run_parser library input = Ok ast → library_text ast input.
Proof.
  unfold run_parser. change (new_span input) with (at_location (0, 1) input).
  destruct (library _) as [[i' ast']|[|e|e]|] eqn:H; try done. intros [= ->].
  apply bind_Ok_iff in H as ([i1 [[name us] ds]] & H & [= -> <-]).
  apply bind_Ok_iff in H as ([i2 name'] & H1 & H). apply bind_Ok_iff in H as ([i3 us'] & H2 & H).
  apply bind_Ok_iff in H as ([i4 ds'] & H3 & [= -> -> -> ->]).
  read H1 with (reads_ws _ _ library_name_reads) as t1 r1
    (w0 & t & -> & Hw0 & (w1 & ti & w2 & -> & Hw1 & Hi & Hw2)).
  destruct (includes_then_reads _ _ _ _ _ _ _ _ (ws_ws_reads _ _ declaration_reads) H2 H3)
    as (tus & ts & w & -> & Hus & HM & Hw).
  apply (Library_text _ w0 w1 ti w2 tus ts w); try done. by rewrite advance_app in HM.
Qed.

Lemma library_complete input ast : library_text ast input → run_parser library input = Ok ast.
Proof.
  intros [w0 w1 ti w2 tus ts w Hw0 Hw1 Hi Hw2 head Hus HM Hw]. subst head.
  unfold run_parser, library, pmap, tuple3. rewrite <- !app_assoc.
  change (new_span ?s) with (at_location (0, 1) s).
  rewrite (library_name_complete _ w0 w1 (ast_name ast)) by done. cbn [mbind outcome_bind].
  rewrite <- advance_app in HM.
  destruct (includes_then_complete (λ _ d t, declaration_text d t) declaration
    (advance (0, 1) (w0 ++ str "library" ++ w1 ++ ti ++ w2 ++ str ";")) (ast_using ast) tus (declarations ast) ts w)
    as (i & -> & H);
    eauto using declaration_text_length, declaration_text_solid, declaration_complete, using_fails_declaration.
  cbn [mbind outcome_bind]. rewrite H. by destruct ast.
Qed.


