(* ===== verification/DependencyGraph.v ===== *)
(** The dependency graph that orders bind libraries
    ([src/devices/lib/bind/src/compiler/dependency_graph.rs]): nodes addressed by
    index, the two edge maps, and the variation on Kahn's algorithm that
    [resolve] runs.  [DependencyGraphCorrect] characterises its result. *)
From Stdlib Require Import ZArith Lia.
From stdpp Require Import base gmap strings countable list.
From S2P Require Import Prelude.

Inductive DependencyError (K : Type) :=
| MissingDependency (k : K)
| CircularDependency.
Arguments MissingDependency {K} k.
Arguments CircularDependency {K}.

#[export] Instance DependencyError_eq_dec `{EqDecision K} : EqDecision (DependencyError K).
Proof. solve_decision. Defined.

Inductive Node (K V : Type) :=
| Root
| Data (key : K) (data : V)
| Zombie.
Arguments Root {K V}.
Arguments Data {K V} key data.
Arguments Zombie {K V}.

Record DependencyGraph (K V : Type) `{Countable K} := mkGraph {
  graph_nodes : list (Node K V);
  indices : gmap K nat;
  children : gmap nat (gset nat);
  parents : gmap nat (gset nat);
}.
Arguments mkGraph {K V _ _} graph_nodes indices children parents.
Arguments graph_nodes {K V _ _} d.
Arguments indices {K V _ _} d.
Arguments children {K V _ _} d.
Arguments parents {K V _ _} d.

Section graph.
Context {K V : Type} `{Countable K} `{!HashSetOrder nat}.
Implicit Types g : DependencyGraph K V.

Definition ROOT_INDEX : nat := 0.

Definition new_graph : DependencyGraph K V := mkGraph [Root] ∅ ∅ ∅.

(** The successors recorded for [i], [map.entry(i).or_insert(HashSet::new())]. *)
Definition edge_set (m : gmap nat (gset nat)) (i : nat) : gset nat := default ∅ (m !! i).

(** Replaces the node of an existing key: the old slot becomes a zombie. *)
Definition insert_node g (key : K) (data : V) : outcome (DependencyError K) (DependencyGraph K V) :=
  let index := length (graph_nodes g) in
  let nodes := graph_nodes g ++ [Data key data] in
  let indices' := <[key := index]> (indices g) in
  match indices g !! key with
  | Some previous =>
    nodes' ← index_set nodes (Z.of_nat previous) Zombie;
    Ok (mkGraph nodes' indices' (children g) (parents g))
  | None => Ok (mkGraph nodes indices' (children g) (parents g))
  end.

Definition get_index g (key : K) : outcome (DependencyError K) nat :=
  ok_or (indices g !! key) (MissingDependency key).

(** The two [entry(..).or_insert(..).insert(..)] statements. *)
Definition add_edge g (from_index to_index : nat) : DependencyGraph K V :=
  mkGraph (graph_nodes g) (indices g)
    (<[from_index := {[to_index]} ∪ edge_set (children g) from_index]> (children g))
    (<[to_index := {[from_index]} ∪ edge_set (parents g) to_index]> (parents g)).

Definition insert_edge_from_root g (to : K) : outcome (DependencyError K) (DependencyGraph K V) :=
  to_index ← get_index g to;
  Ok (add_edge g ROOT_INDEX to_index).

Definition insert_edge g (from to : K) : outcome (DependencyError K) (DependencyGraph K V) :=
  from_index ← get_index g from;
  to_index ← get_index g to;
  Ok (add_edge g from_index to_index).

(** Both [expect]s panic on an index with no entry. *)
Definition remove_edge g (from_index to_index : nat) :
    outcome (DependencyError K) (DependencyGraph K V) :=
  match parents g !! to_index, children g !! from_index with
  | Some to_parents, Some from_children =>
    Ok (mkGraph (graph_nodes g) (indices g)
          (<[from_index := from_children ∖ {[to_index]}]> (children g))
          (<[to_index := to_parents ∖ {[from_index]}]> (parents g)))
  | _, _ => Panic
  end.

Definition is_orphaned g (node : Node K V) : outcome (DependencyError K) bool :=
  match node with
  | Data key _ =>
    match indices g !! key with
    | Some index =>
      Ok (match parents g !! index with Some vs => bool_decide (vs = ∅) | None => true end)
    | None => Panic
    end
  | Root => Ok false
  | Zombie => Ok false
  end.

(** [mem::replace(&mut self.nodes[index], Node::Zombie)]. *)
Definition remove g (index : nat) : outcome (DependencyError K) (option V * DependencyGraph K V) :=
  match graph_nodes g !! index with
  | Some node =>
    let g' := mkGraph (<[index := Zombie]> (graph_nodes g)) (indices g) (children g) (parents g) in
    Ok (match node with Data _ data => Some data | _ => None end, g')
  | None => Panic
  end.

(** [self.children.entry(index).or_default().clone()]. *)
Definition children_or_default g (index : nat) : gset nat * DependencyGraph K V :=
  let cs := edge_set (children g) index in
  (cs, mkGraph (graph_nodes g) (indices g) (<[index := cs]> (children g)) (parents g)).

(** [self.nodes.iter().enumerate().find(|(_, node)| self.is_orphaned(node))]. *)
Fixpoint find_orphan g (i : nat) (ns : list (Node K V)) : outcome (DependencyError K) (option nat) :=
  match ns with
  | [] => Ok None
  | node :: r =>
    b ← is_orphaned g node;
    if (b : bool) then Ok (Some i) else find_orphan g (S i) r
  end.

(** The body of the [while] loop of [prune_orphans]. *)
Definition prune_one g (index : nat) : outcome (DependencyError K) (DependencyGraph K V) :=
  '(_, g1) ← remove g index;
  let '(child_indices, g2) := children_or_default g1 index in
  try_fold (λ g child_index, remove_edge g index child_index) g2 (hash_set_iter child_indices).

(** [None] when the fuel runs out ([resolve_terminates]: it does not). *)
Fixpoint prune_orphans (fuel : nat) g : option (outcome (DependencyError K) (DependencyGraph K V)) :=
  match fuel with
  | O => None
  | S fuel =>
    match find_orphan g 0 (graph_nodes g) with
    | Ok (Some index) =>
      match prune_one g index with
      | Ok g' => prune_orphans fuel g'
      | Err e => Some (Err e)
      | Panic => Some Panic
      end
    | Ok None => Some (Ok g)
    | Err e => Some (Err e)
    | Panic => Some Panic
    end
  end.

Definition is_empty g : bool :=
  forallb (λ p : nat * gset nat, bool_decide (p.2 = ∅)) (map_to_list (children g)) &&
  forallb (λ p : nat * gset nat, bool_decide (p.2 = ∅)) (map_to_list (parents g)).

(** One round of the [for child_index in ..] loop of [resolve]. *)
Definition visit_child (index : nat) (st : DependencyGraph K V * list nat) (child_index : nat) :
    outcome (DependencyError K) (DependencyGraph K V * list nat) :=
  let '(g, next_indices) := st in
  g' ← remove_edge g index child_index;
  match graph_nodes g' !! child_index with
  | Some node =>
    b ← is_orphaned g' node;
    Ok (g', if (b : bool) then next_indices ++ [child_index] else next_indices)
  | None => Panic
  end.

(** One round of the [while let Some(index) = next_indices.pop()] loop. *)
Definition visit g (next_indices : list nat) (result : list V) (index : nat) :
    outcome (DependencyError K) (DependencyGraph K V * list nat * list V) :=
  '(data, g1) ← remove g index;
  let result' := match data with Some d => result ++ [d] | None => result end in
  let '(cs, g2) := children_or_default g1 index in
  '(g3, next') ← try_fold (visit_child index) (g2, next_indices) (hash_set_iter cs);
  Ok (g3, next', result').

Fixpoint resolve_loop (fuel : nat) g (next_indices : list nat) (result : list V) :
    option (outcome (DependencyError K) (DependencyGraph K V * list V)) :=
  match fuel with
  | O => None
  | S fuel =>
    match last next_indices with
    | None => Some (Ok (g, result))
    | Some index =>
      match visit g (removelast next_indices) result index with
      | Ok (g', next', result') => resolve_loop fuel g' next' result'
      | Err e => Some (Err e)
      | Panic => Some Panic
      end
    end
  end.

(** A node is visited at most once, so the number of nodes bounds both loops
    ([resolve_terminates]). *)
Definition resolve g : option (outcome (DependencyError K) (list V)) :=
  match prune_orphans (S (length (graph_nodes g))) g with
  | Some (Ok g') =>
    match resolve_loop (S (length (graph_nodes g'))) g' [ROOT_INDEX] [] with
    | Some (Ok (g'', result)) =>
      Some (if is_empty g'' then Ok result else Err CircularDependency)
    | Some (Err e) => Some (Err e)
    | Some Panic => Some Panic
    | None => None
    end
  | Some (Err e) => Some (Err e)
  | Some Panic => Some Panic
  | None => None
  end.
End graph.
