(* ===== verification/DependencyGraphCorrect.v ===== *)
(** The dependency graph resolves correctly.  On a well-formed graph [resolve]
    terminates without a panic; a successful result lists the data of exactly
    the nodes reachable from the root, each before the nodes it depends on; a
    [CircularDependency] means that the graph has a cycle. *)
From Stdlib Require Import ZArith Lia.
From stdpp Require Import base gmap strings countable relations list.
From S2P Require Import Prelude DependencyGraph.

Section graph.
Context {K V : Type} `{Countable K} `{!HashSetOrder nat}.
Implicit Types g : DependencyGraph K V.

(** ** Well-formed graphs *)

(** There is an edge from the node at [i] to the node at [j]. *)
Definition edge g (i j : nat) : Prop := j ∈ edge_set (children g) i.

#[global] Instance edge_dec g i j : Decision (edge g i j).
Proof. unfold edge. apply _. Defined.

Definition live g (i : nat) : Prop := ∃ k d, graph_nodes g !! i = Some (Data k d).

Lemma live_dec g i : Decision (live g i).
Proof.
  unfold live. destruct (graph_nodes g !! i) as [[|k d|]|] eqn:Hi.
  - right. by intros (? & ? & ?).
  - left. eauto.
  - right. by intros (? & ? & ?).
  - right. by intros (? & ? & ?).
Qed.

(** The two maps describe the same edges. *)
Definition symmetric g : Prop := ∀ i j, i ∈ edge_set (parents g) j ↔ edge g i j.

(** A live node is the node of its key. *)
Definition indexed g : Prop := ∀ i k d, graph_nodes g !! i = Some (Data k d) → indices g !! k = Some i.

Record wf g : Prop := {
  wf_root : graph_nodes g !! 0%nat = Some Root;
  wf_indexed : indexed g;
  wf_indices k i : indices g !! k = Some i → ∃ d, graph_nodes g !! i = Some (Data k d);
  wf_symmetric : symmetric g;
  wf_edges i j : edge g i j → (i = 0%nat ∨ live g i) ∧ live g j;
}.

Lemma edge_set_Some (m : gmap nat (gset nat)) i j : j ∈ edge_set m i → is_Some (m !! i).
Proof. unfold edge_set. destruct (m !! i); [by eexists|set_solver]. Qed.

Lemma edge_set_insert (m : gmap nat (gset nat)) i s j :
  edge_set (<[i := s]> m) j = if decide (j = i) then s else edge_set m j.
Proof.
  unfold edge_set. destruct (decide (j = i)) as [->|]; by simplify_map_eq.
Qed.

(** ** Building a graph *)

Lemma new_graph_wf : wf (new_graph : DependencyGraph K V).
Proof.
  split; try done. by intros [|i] k d Hi.
Qed.

Lemma add_edge_edge g i j a b : edge (add_edge g i j) a b ↔ edge g a b ∨ (a = i ∧ b = j).
Proof.
  unfold edge. cbn. rewrite edge_set_insert. destruct (decide (a = i)) as [->|]; set_solver.
Qed.

Lemma add_edge_wf g i j : wf g → (i = 0%nat ∨ live g i) → live g j → wf (add_edge g i j).
Proof.
  intros [Hr Hx Hi Hs He] Hfrom Hto.
  split; try done.
  - intros a b. rewrite add_edge_edge. cbn. rewrite edge_set_insert. unfold edge.
    pose proof (Hs a b) as Hab. unfold edge in Hab.
    destruct (decide (b = j)) as [->|]; set_solver.
  - intros a b [Hab|[-> ->]]%add_edge_edge; [exact (He _ _ Hab)|done].
Qed.

Lemma get_index_live g k i : wf g → get_index g k = Ok i → live g i.
Proof. intros Hwf Hi%ok_or_Ok. destruct (wf_indices _ Hwf _ _ Hi) as [d Hd]. by exists k, d. Qed.

Lemma insert_edge_wf g a b g' : wf g → insert_edge g a b = Ok g' → wf g'.
Proof.
  intros Hwf Hg. apply bind_Ok_iff in Hg as (i & Hi & Hg). apply bind_Ok_iff in Hg as (j & Hj & [= <-]).
  apply add_edge_wf; [done|right|]; by eapply get_index_live.
Qed.

Lemma insert_edge_from_root_wf g b g' : wf g → insert_edge_from_root g b = Ok g' → wf g'.
Proof.
  intros Hwf Hg. apply bind_Ok_iff in Hg as (j & Hj & [= <-]).
  apply add_edge_wf; [done|by left|]. by eapply get_index_live.
Qed.

(** The graph has a node for [k] with the data [d]. *)
Definition holds g (k : K) (d : V) : Prop := ∃ i, graph_nodes g !! i = Some (Data k d).

(** Nodes are inserted before edges: replacing a node that has edges would leave
    edges of a removed node behind. *)
Lemma insert_node_wf g k d :
  wf g → (∀ i j, ¬ edge g i j) →
  ∃ g', insert_node g k d = Ok g' ∧ wf g' ∧ (∀ i j, ¬ edge g' i j) ∧
    ∀ k' d', holds g' k' d' ↔ (k' = k ∧ d' = d) ∨ (k' ≠ k ∧ holds g k' d').
Proof.
  intros [Hr Hx Hi Hs He] Hno. set (n := length (graph_nodes g)).
  assert (∀ ns : list (Node K V), ns !! 0%nat = Some Root →
    (∀ i k' d', ns !! i = Some (Data k' d') ↔
       (i = n ∧ k' = k ∧ d' = d) ∨ (k' ≠ k ∧ graph_nodes g !! i = Some (Data k' d'))) →
    let g' := mkGraph ns (<[k := n]> (indices g)) (children g) (parents g) in
    wf g' ∧ (∀ i j, ¬ edge g' i j) ∧
    ∀ k' d', holds g' k' d' ↔ (k' = k ∧ d' = d) ∨ (k' ≠ k ∧ holds g k' d')) as Hns.
  { intros ns H0 Hns g'. split; [|split; [exact Hno|unfold holds; cbn; setoid_rewrite Hns; naive_solver]].
    split; cbn; [done| | |exact Hs|].
    - intros i k' d' [(-> & -> & ->)|[Hne Hd]]%Hns; [by simplify_map_eq|].
      cbn. rewrite lookup_insert_ne by done. by eapply Hx.
    - intros k' i Hk'. destruct (decide (k' = k)) as [->|Hne]; simplify_map_eq.
      + exists d. apply Hns. auto.
      + destruct (Hi _ _ Hk') as [d2 Hd2]. exists d2. apply Hns. auto.
    - intros i j Hij. by apply Hno in Hij. }
  assert (∀ i k' d', (graph_nodes g ++ [Data k d]) !! i = Some (Data k' d') ↔
    (i = n ∧ k' = k ∧ d' = d) ∨ graph_nodes g !! i = Some (Data k' d')) as Happ.
  { intros i k' d'. rewrite lookup_snoc_Some. fold n. split.
    - intros [[_ Hi']|[<- [= -> ->]]]; auto.
    - intros [(-> & -> & ->)|Hi']; [by right|left]. split; [by eapply lookup_lt_Some|done]. }
  unfold insert_node. fold n. destruct (indices g !! k) as [prev|] eqn:Hprev.
  - destruct (Hi _ _ Hprev) as [dp Hdp]. pose proof (lookup_lt_Some _ _ _ Hdp) as Hlt.
    unfold index_set. rewrite (proj2 (andb_true_iff _ _)).
    2:{ unfold len. rewrite length_app. split; [apply Z.leb_le|apply Z.ltb_lt]; cbn; lia. }
    cbn [mbind outcome_bind]. rewrite Nat2Z.id. eexists. split; [done|]. apply Hns.
    + rewrite list_lookup_insert_ne by (intros ->; congruence). by apply lookup_app_l_Some.
    + intros i k' d'. destruct (decide (i = prev)) as [->|Hne].
      * rewrite list_lookup_insert_eq by (rewrite length_app; lia). split; [done|].
        intros [(-> & _)|[Hne Hd]]; [unfold n in Hlt; lia|congruence].
      * rewrite list_lookup_insert_ne, Happ by done. split; [|naive_solver].
        intros [?|Hd]; [auto|right]. split; [|done]. intros ->. apply Hx in Hd. congruence.
  - eexists. split; [done|]. apply Hns; [by apply lookup_app_l_Some|].
    intros i k' d'. rewrite Happ. split; [|naive_solver].
    intros [?|Hd]; [auto|right]. split; [|done]. intros ->. apply Hx in Hd. congruence.
Qed.

(** ** Removing edges *)

(** Two graphs with the same nodes. *)
Definition same_nodes g g' : Prop := graph_nodes g' = graph_nodes g ∧ indices g' = indices g.

Lemma remove_edge_Ok g i j :
  symmetric g → edge g i j →
  ∃ g', remove_edge g i j = Ok g' ∧ same_nodes g g' ∧ symmetric g' ∧
    ∀ a b, edge g' a b ↔ edge g a b ∧ ¬ (a = i ∧ b = j).
Proof.
  intros Hs Hij. unfold remove_edge.
  destruct (edge_set_Some _ _ _ Hij) as [cs Hcs].
  destruct (edge_set_Some (parents g) j i) as [ps Hps]; [by apply Hs|]. rewrite Hcs, Hps.
  assert (edge_set (children g) i = cs) as Hecs by (unfold edge_set; by rewrite Hcs).
  assert (edge_set (parents g) j = ps) as Heps by (unfold edge_set; by rewrite Hps).
  assert (∀ a b, edge (mkGraph (graph_nodes g) (indices g) (<[i:=cs ∖ {[j]}]> (children g))
    (<[j:=ps ∖ {[i]}]> (parents g))) a b ↔ edge g a b ∧ ¬ (a = i ∧ b = j)) as Hedge.
  { intros a b. unfold edge. cbn. rewrite edge_set_insert.
    destruct (decide (a = i)) as [->|]; [rewrite Hecs|]; set_solver. }
  eexists. split; [done|]. split; [done|]. split; [|exact Hedge].
  intros a b. rewrite Hedge. cbn. rewrite edge_set_insert. pose proof (Hs a b) as Hab.
  destruct (decide (b = j)) as [->|]; [rewrite Heps in Hab|]; set_solver.
Qed.

(** Removing the edges from [i] to each of [cs]. *)
Lemma remove_edges_Ok g i cs :
  symmetric g → NoDup cs → (∀ c, c ∈ cs → edge g i c) →
  ∃ g', try_fold (λ g c, remove_edge g i c) g cs = Ok g' ∧ same_nodes g g' ∧ symmetric g' ∧
    ∀ a b, edge g' a b ↔ edge g a b ∧ ¬ (a = i ∧ b ∈ cs).
Proof.
  intros Hs Hnd. revert g Hs. induction Hnd as [|c cs Hc Hnd IH]; intros g Hs Hcs.
  - exists g. cbn. split_and!; try done. set_solver.
  - destruct (remove_edge_Ok g i c Hs) as (g1 & H1 & [N1 I1] & S1 & E1); [apply Hcs; set_solver|].
    destruct (IH g1 S1) as (g2 & H2 & [N2 I2] & S2 & E2).
    { intros c' Hc'. apply E1. split; [apply Hcs; set_solver|set_solver]. }
    exists g2. cbn. rewrite H1. cbn. split_and!; [done|split; congruence|done|].
    intros a b. rewrite E2, E1. set_solver.
Qed.

(** ** Orphans *)

(** A live node without incoming edges. *)
Definition orphan g (i : nat) : Prop := live g i ∧ ∀ p, ¬ edge g p i.

Lemma is_orphaned_spec g i node :
  indexed g → symmetric g → graph_nodes g !! i = Some node →
  ∃ b, is_orphaned g node = Ok b ∧ (b = true ↔ orphan g i).
Proof.
  intros Hx Hs Hi. unfold is_orphaned, orphan, live. destruct node as [|k d|].
  - exists false. split; [done|]. split; [done|]. intros [(? & ? & ?) _]. congruence.
  - rewrite (Hx _ _ _ Hi). eexists. split; [done|].
    assert ((∀ p, ¬ edge g p i) ↔ edge_set (parents g) i = ∅) as ->.
    { split.
      - intros Hp. apply elem_of_equiv_empty_L. intros p Hp'%Hs. by apply Hp in Hp'.
      - intros Heq p Hp%Hs. rewrite Heq in Hp. by apply not_elem_of_empty in Hp. }
    unfold edge_set. destruct (parents g !! i); cbn; [rewrite bool_decide_eq_true|]; naive_solver.
  - exists false. split; [done|]. split; [done|]. intros [(? & ? & ?) _]. congruence.
Qed.

Lemma find_orphan_spec g i ns :
  indexed g → symmetric g → (∀ j node, ns !! j = Some node → graph_nodes g !! (i + j)%nat = Some node) →
  ∃ r, find_orphan g i ns = Ok r ∧
    match r with
    | Some k => orphan g k
    | None => ∀ j, (j < length ns)%nat → ¬ orphan g (i + j)
    end.
Proof.
  intros Hx Hs. revert i. induction ns as [|node ns IH]; intros i Hns.
  - exists None. split; [done|]. intros j Hj. cbn in Hj. lia.
  - destruct (is_orphaned_spec g i node Hx Hs) as (b & Hb & Hbo).
    { rewrite <- (Nat.add_0_r i). by apply Hns. }
    cbn. rewrite Hb. cbn. destruct b.
    + exists (Some i). split; [done|]. by apply Hbo.
    + destruct (IH (S i)) as (r & Hr & Hspec).
      { intros j n Hj. replace (S i + j)%nat with (i + S j)%nat by lia. by apply Hns. }
      exists r. split; [done|]. destruct r; [done|]. intros [|j] Hj.
      * rewrite Nat.add_0_r. intros Ho. apply Hbo in Ho. done.
      * replace (i + S j)%nat with (S i + j)%nat by lia. apply Hspec. cbn in Hj. lia.
Qed.

(** ** Taking a node out *)

(** The graph without the nodes of [out], their outgoing edges included. *)
Record without g0 (out : list nat) g : Prop := {
  wo_nodes i : graph_nodes g !! i =
    (if decide (i ∈ out) then (λ _, Zombie) <$> graph_nodes g0 !! i else graph_nodes g0 !! i);
  wo_indices : indices g = indices g0;
  wo_symmetric : symmetric g;
  wo_edges i j : edge g i j ↔ edge g0 i j ∧ i ∉ out;
}.

Lemma without_nil g : wf g → without g [] g.
Proof. intros Hwf. split; try done; [apply Hwf|set_solver]. Qed.

Lemma without_live g0 out g i : without g0 out g → live g i ↔ live g0 i ∧ i ∉ out.
Proof.
  intros W. unfold live. rewrite (wo_nodes _ _ _ W). destruct (decide (i ∈ out)).
  - split; [|by intros [_ ?]]. intros (k & d & Hi). by destruct (graph_nodes g0 !! i).
  - naive_solver.
Qed.

Lemma without_indexed g0 out g : wf g0 → without g0 out g → indexed g.
Proof.
  intros Hwf W i k d Hi. rewrite (wo_indices _ _ _ W). rewrite (wo_nodes _ _ _ W) in Hi.
  destruct (decide (i ∈ out)); [by destruct (graph_nodes g0 !! i)|]. by eapply wf_indexed.
Qed.

Lemma without_length g0 out g : without g0 out g → length (graph_nodes g) = length (graph_nodes g0).
Proof.
  intros W. pose proof (wo_nodes _ _ _ W) as Hn.
  destruct (Nat.lt_trichotomy (length (graph_nodes g)) (length (graph_nodes g0))) as [Hlt|[?|Hlt]];
    [|done|].
  - specialize (Hn (length (graph_nodes g))). rewrite lookup_ge_None_2 in Hn by done.
    apply lookup_lt_is_Some_2 in Hlt as [x Hx]. rewrite Hx in Hn. by case_decide.
  - specialize (Hn (length (graph_nodes g0))). rewrite (lookup_ge_None_2 (graph_nodes g0)) in Hn by done.
    apply lookup_lt_is_Some_2 in Hlt as [x Hx]. rewrite Hx in Hn. by case_decide.
Qed.

(** The removal of [i] from the nodes, and the [or_default] of its children. *)
Lemma remove_node_Ok g0 out g i :
  without g0 out g → (i < length (graph_nodes g0))%nat → i ∉ out →
  ∃ g1, remove g i = Ok (match graph_nodes g0 !! i with Some (Data _ d) => Some d | _ => None end, g1) ∧
    let '(cs, g2) := children_or_default g1 i in
    (∀ c, c ∈ cs ↔ edge g0 i c) ∧ symmetric g2 ∧ indices g2 = indices g0 ∧
    (∀ a b, edge g2 a b ↔ edge g0 a b ∧ a ∉ out) ∧
    (∀ j, graph_nodes g2 !! j =
      (if decide (j ∈ i :: out) then (λ _, Zombie) <$> graph_nodes g0 !! j else graph_nodes g0 !! j)).
Proof.
  intros W Hlt Hout. pose proof (wo_nodes _ _ _ W) as Hn.
  destruct (lookup_lt_is_Some_2 _ _ Hlt) as [node Hnode].
  assert (graph_nodes g !! i = Some node) as Hi by (rewrite Hn; by rewrite decide_False).
  unfold remove. rewrite Hi. eexists. split; [by rewrite Hnode|].
  assert (∀ a b, edge (children_or_default (mkGraph (<[i := Zombie]> (graph_nodes g)) (indices g)
    (children g) (parents g)) i).2 a b ↔ edge g a b) as Hedge.
  { intros a b. unfold edge. cbn. rewrite edge_set_insert. by destruct (decide (a = i)) as [->|]. }
  cbn in Hedge |- *. split_and!.
  - intros c. change (edge g i c ↔ edge g0 i c). rewrite (wo_edges _ _ _ W). naive_solver.
  - intros a b. rewrite Hedge. apply (wo_symmetric _ _ _ W).
  - apply W.
  - intros a b. rewrite Hedge. apply (wo_edges _ _ _ W).
  - intros j. destruct (decide (j = i)) as [->|Hne].
    + rewrite list_lookup_insert_eq by (by eapply lookup_lt_Some).
      rewrite decide_True by constructor. by rewrite Hnode.
    + rewrite list_lookup_insert_ne, Hn by done.
      destruct (decide (j ∈ out)), (decide (j ∈ i :: out)); set_solver.
Qed.

Lemma hash_set_NoDup (s : gset nat) : NoDup (hash_set_iter s).
Proof. rewrite hash_set_iter_perm. apply NoDup_elements. Qed.

Lemma elem_of_hash_set (s : gset nat) x : x ∈ hash_set_iter s ↔ x ∈ s.
Proof. rewrite hash_set_iter_perm. apply elem_of_elements. Qed.

(** ** Pruning *)

(** Every predecessor of a pruned node was pruned before it; the last one is the head. *)
Record pruning g0 (out : list nat) g : Prop := {
  pr_without : without g0 out g;
  pr_nodup : NoDup out;
  pr_live i : i ∈ out → live g0 i;
  pr_order l1 i l2 p : out = l1 ++ i :: l2 → edge g0 p i → p ∈ l2;
}.

Lemma pr_closed g0 out g i p : pruning g0 out g → i ∈ out → edge g0 p i → p ∈ out.
Proof.
  intros P (l1 & l2 & Heq)%list_elem_of_split Hp. pose proof (pr_order _ _ _ P _ _ _ _ Heq Hp). rewrite Heq. set_solver.
Qed.

Lemma live_lt g i : live g i → (i < length (graph_nodes g))%nat.
Proof. intros (k & d & Hi). by eapply lookup_lt_Some. Qed.

Lemma NoDup_bounded (l : list nat) n :
  NoDup l → (∀ x, x ∈ l → (x < n)%nat) → (length l <= n)%nat.
Proof.
  intros Hnd Hl. rewrite <- (length_seq n 0). apply submseteq_length, NoDup_submseteq; [done|].
  intros x Hx. apply elem_of_seq. specialize (Hl x Hx). lia.
Qed.

Lemma prune_one_Ok g0 out g i :
  wf g0 → pruning g0 out g → orphan g i → ∃ g', prune_one g i = Ok g' ∧ pruning g0 (i :: out) g'.
Proof.
  intros Hwf [W Hnd Hl Hc] [Hli Hor]. apply (without_live _ _ _ _ W) in Hli as [Hli Hio].
  destruct (remove_node_Ok g0 out g i W (live_lt _ _ Hli) Hio) as (g1 & H1 & Hg2).
  unfold prune_one. rewrite H1. cbn [mbind outcome_bind].
  destruct (children_or_default g1 i) as [cs g2] eqn:Hcd. destruct Hg2 as (Hcs & S2 & I2 & E2 & N2).
  destruct (remove_edges_Ok g2 i (hash_set_iter cs) S2 (hash_set_NoDup cs))
    as (g3 & H3 & [N3 I3] & S3 & E3).
  { intros c Hc'. apply E2. split; [|done]. apply Hcs. by apply elem_of_hash_set. }
  exists g3. split; [done|]. split.
  - split; [by rewrite N3|by rewrite I3|done|].
    intros a b. rewrite E3, E2, elem_of_hash_set, Hcs. set_solver.
  - by constructor.
  - intros j [->|Hj]%elem_of_cons; auto.
  - intros [|x l1] j l2 p Heq Hp; injection Heq as <- Heq; [subst l2|by eapply Hc].
    destruct (decide (p ∈ out)); [done|]. exfalso. apply (Hor p). by apply (wo_edges _ _ _ W).
Qed.

Lemma prune_orphans_Ok fuel g0 out g :
  wf g0 → pruning g0 out g → (length (graph_nodes g0) < fuel + length out)%nat →
  ∃ g' out', prune_orphans fuel g = Some (Ok g') ∧ pruning g0 out' g' ∧ ∀ i, ¬ orphan g' i.
Proof.
  intros Hwf. revert out g. induction fuel as [|fuel IH]; intros out g P Hf.
  - pose proof (NoDup_bounded out (length (graph_nodes g0)) (pr_nodup _ _ _ P)
      (λ x Hx, live_lt _ _ (pr_live _ _ _ P x Hx))). lia.
  - pose proof (pr_without _ _ _ P) as W. cbn [prune_orphans].
    destruct (find_orphan_spec g 0 (graph_nodes g)) as (r & -> & Hr);
      [by eapply without_indexed|apply W|done|].
    destruct r as [i|].
    + destruct (prune_one_Ok _ _ _ _ Hwf P Hr) as (g' & -> & P'). apply (IH (i :: out)); [done|cbn; lia].
    + exists g, out. split_and!; [done|done|]. intros i Hi. apply (Hr i); [|done].
      destruct Hi as [Hi _]. by apply live_lt in Hi.
Qed.

(** A pruned node is not reachable from the root. *)
Lemma pruned_unreachable g0 out g i :
  wf g0 → pruning g0 out g → rtc (edge g0) 0%nat i → i ∉ out.
Proof.
  intros Hwf P Hr. apply rtc_ind_r with (P := λ i, i ∉ out) in Hr; [done| |].
  - intros H0. apply (pr_live _ _ _ P) in H0 as (k & d & H0). pose proof (wf_root _ Hwf). congruence.
  - intros x y _ Hxy Hx Hy. by apply Hx, (pr_closed _ _ _ y x P).
Qed.

(** ** The main loop *)

Lemma orphan_same g g' c :
  same_nodes g g' → (∀ p, edge g' p c ↔ edge g p c) → orphan g' c ↔ orphan g c.
Proof.
  intros [Hn _] He. unfold orphan, live. rewrite Hn. split; intros [? Hp]; (split; [done|]);
    intros p Hpc%He; by apply Hp in Hpc.
Qed.

(** Visiting the children of [i] pushes those that have become orphans. *)
Lemma visit_children_Ok g i cs next :
  symmetric g → indexed g → NoDup cs →
  (∀ c, c ∈ cs → edge g i c ∧ is_Some (graph_nodes g !! c)) →
  ∃ g' new, try_fold (visit_child i) (g, next) cs = Ok (g', next ++ new) ∧ same_nodes g g' ∧
    symmetric g' ∧ (∀ a b, edge g' a b ↔ edge g a b ∧ ¬ (a = i ∧ b ∈ cs)) ∧ NoDup new ∧
    ∀ c, c ∈ new ↔ c ∈ cs ∧ orphan g' c.
Proof.
  intros Hs Hx Hnd. revert g next Hs Hx. induction Hnd as [|c cs Hc Hnd IH]; intros g next Hs Hx Hcs.
  - exists g, []. rewrite app_nil_r. cbn. split_and!; try done; [set_solver|constructor|set_solver].
  - destruct (Hcs c) as [Hic [node Hnode]]; [set_solver|].
    destruct (remove_edge_Ok g i c Hs Hic) as (g1 & H1 & [N1 I1] & S1 & E1).
    assert (indexed g1) as Hx1 by (intros j k d; rewrite N1, I1; apply Hx).
    destruct (is_orphaned_spec g1 c node Hx1 S1) as (b & Hb & Hbo); [by rewrite N1|].
    destruct (IH g1 (if b then next ++ [c] else next) S1 Hx1)
      as (g2 & new & H2 & [N2 I2] & S2 & E2 & Hndn & Hnew).
    { intros c' Hc'. rewrite N1, E1. destruct (Hcs c'); [set_solver|]. set_solver. }
    assert (orphan g2 c ↔ orphan g1 c) as Ho.
    { apply orphan_same; [done|]. intros p. rewrite E2. set_solver. }
    exists g2, ((if b then [c] else []) ++ new). split_and!.
    + cbn. rewrite H1. cbn. rewrite N1, Hnode, Hb. cbn. rewrite H2.
      destruct b; by rewrite <- ?app_assoc.
    + split; congruence.
    + done.
    + intros x y. rewrite E2, E1. set_solver.
    + destruct b; cbn; [|done]. constructor; [|done]. rewrite Hnew. naive_solver.
    + intros x. rewrite elem_of_app, Hnew, elem_of_cons. destruct b.
      * rewrite list_elem_of_singleton. naive_solver.
      * assert (¬ orphan g2 c) by (intros Hx2%Ho%Hbo; done). set_solver.
Qed.

Definition node_data g (i : nat) : option V :=
  match graph_nodes g !! i with
  | Some (Data _ d) => Some d
  | _ => None
  end.

(** The state of the loop after the nodes [visited]; [out] were pruned.  The
    stack holds exactly the nodes all of whose predecessors are gone. *)
Record resolving g0 (out visited : list nat) g (next : list nat) (result : list V) : Prop := {
  rs_without : without g0 (visited ++ out) g;
  rs_nodup : NoDup (visited ++ next);
  rs_next j : j ∈ next ↔ j ∉ visited ∧ (j = 0%nat ∨ live g0 j ∧ j ∉ out) ∧
    ∀ p, edge g0 p j → p ∈ visited ++ out;
  rs_order l1 j l2 p : visited = l1 ++ j :: l2 → edge g0 p j → p ∈ l1 ++ out;
  rs_reach j : j ∈ visited ++ next → rtc (edge g0) 0%nat j;
  rs_result : result = omap (node_data g0) visited;
}.

Lemma edge_lt g i j : wf g → edge g i j → (j < length (graph_nodes g))%nat.
Proof. intros Hwf [_ Hj]%(wf_edges _ Hwf). by apply live_lt. Qed.

Lemma no_edge_to_root g i : wf g → ¬ edge g i 0%nat.
Proof.
  intros Hwf [_ (k & d & Hd)]%(wf_edges _ Hwf). pose proof (wf_root _ Hwf). congruence.
Qed.

Lemma without_orphan g0 out g c :
  without g0 out g → orphan g c ↔ live g0 c ∧ c ∉ out ∧ ∀ p, edge g0 p c → p ∈ out.
Proof.
  intros W. unfold orphan. rewrite (without_live _ _ _ _ W). split.
  - intros [[Hl Hn] Hp]. split_and!; [done|done|]. intros p Hpc.
    destruct (decide (p ∈ out)); [done|]. exfalso. apply (Hp p). by apply (wo_edges _ _ _ W).
  - intros (Hl & Hn & Hp). split; [done|]. intros p [Hpc Hpo]%(wo_edges _ _ _ W). by apply Hpo, Hp.
Qed.

Lemma elem_of_snoc {A} (x y : A) l : x ∈ l ++ [y] ↔ x ∈ l ∨ x = y.
Proof. by rewrite elem_of_app, list_elem_of_singleton. Qed.

(** The invariant after a visit: [new] are the children of [i] all of whose
    predecessors are now gone. *)
Lemma resolving_step g0 out visited g next i result g' new :
  wf g0 → i ∉ out → resolving g0 out visited g (next ++ [i]) result →
  without g0 ((visited ++ [i]) ++ out) g' → NoDup new →
  (∀ c, c ∈ new ↔ edge g0 i c ∧ live g0 c ∧ c ∉ (visited ++ [i]) ++ out ∧
          ∀ p, edge g0 p c → p ∈ (visited ++ [i]) ++ out) →
  resolving g0 out (visited ++ [i]) g' (next ++ new)
    (match match graph_nodes g0 !! i with Some (Data _ d) => Some d | _ => None end with
     | Some d => result ++ [d]
     | None => result
     end).
Proof.
  intros Hwf Hio [W Hnd Hnext Hord Hreach Hres] W' Hndn Hnew.
  assert (NoDup ((visited ++ [i]) ++ next)) as Hnd'.
  { rewrite <- app_assoc. cbn. rewrite <- Permutation_cons_append in Hnd. done. }
  assert (i ∉ visited ∧ i ∉ next) as [Hiv Hin].
  { apply NoDup_app in Hnd' as (Hv & Hvn & _). split; [|apply Hvn; set_solver].
    apply NoDup_app in Hv as (_ & Hv & _). intros Hi. apply (Hv _ Hi). set_solver. }
  assert (∀ p, edge g0 p i → p ∈ visited ++ out) as Hip by (apply Hnext; set_solver).
  assert (∀ c, c ∈ new → c ∉ next) as Hnn.
  { intros c (Hic & _)%Hnew Hc.
    assert (∀ p, edge g0 p c → p ∈ visited ++ out) as Hp by (apply Hnext; set_solver).
    specialize (Hp i Hic). by apply elem_of_app in Hp as [?|?]. }
  split.
  - done.
  - rewrite app_assoc. apply NoDup_app. split_and!; [done| |done].
    intros c Hc Hc'. apply elem_of_app in Hc as [Hc|Hc]; [|by eapply Hnn].
    apply Hnew in Hc' as (_ & _ & Hc' & _). set_solver.
  - intros j. rewrite elem_of_app, elem_of_snoc. split.
    + intros [Hj|Hj].
      * assert (j ∈ next ++ [i]) as Hj' by set_solver. apply Hnext in Hj' as (Hv & Hl & Hp).
        split_and!; [set_solver|done|]. intros p Hpj. specialize (Hp p Hpj). set_solver.
      * apply Hnew in Hj as (Hij & Hl & Hv & Hp). split_and!; [set_solver| |done].
        right. split; [done|]. set_solver.
    + intros (Hv & Hl & Hp). destruct (decide (edge g0 i j)) as [Hij|Hij].
      * right. apply Hnew. destruct Hl as [->|[Hl Ho]]; [by apply no_edge_to_root in Hij|].
        split_and!; [done|done|set_solver|done].
      * left. assert (j ∈ next ++ [i]) as Hj.
        { apply Hnext. split_and!; [set_solver|done|]. intros p Hpj. specialize (Hp p Hpj).
          rewrite elem_of_app, elem_of_snoc in Hp. rewrite elem_of_app.
          destruct Hp as [[?| ->]|?]; [auto|done|auto]. }
        apply elem_of_snoc in Hj as [?| ->]; [done|]. exfalso. auto.
  - intros l1 j l2 p Heq Hpj. destruct l2 as [|x l2 _] using rev_ind.
    + apply app_inj_tail in Heq as [-> ->]. by apply Hip.
    + rewrite app_comm_cons, app_assoc in Heq. apply app_inj_tail in Heq as [Heq _]. by eapply Hord.
  - intros j [Hj|[Hj|Hj]%elem_of_app]%elem_of_app.
    + apply Hreach. set_solver.
    + apply Hreach. set_solver.
    + apply Hnew in Hj as (Hij & _). apply rtc_r with i; [apply Hreach; set_solver|done].
  - rewrite omap_app, Hres. cbn. fold (node_data g0 i).
    destruct (node_data g0 i); [done|by rewrite app_nil_r].
Qed.

Lemma visit_Ok g0 out visited g next i result :
  wf g0 → (∀ j, rtc (edge g0) 0%nat j → j ∉ out) →
  resolving g0 out visited g (next ++ [i]) result →
  ∃ g' next' result', visit g next result i = Ok (g', next', result') ∧
    resolving g0 out (visited ++ [i]) g' next' result'.
Proof.
  intros Hwf Hout [W Hnd Hnext Hord Hreach Hres].
  assert (rtc (edge g0) 0%nat i) as Hri by (apply Hreach; set_solver).
  assert (i ∉ visited ∧ i ∉ next) as [Hiv Hin].
  { apply NoDup_app in Hnd as (_ & Hd & Hn). apply NoDup_app in Hn as (_ & Hn & _). set_solver. }
  assert ((i = 0%nat ∨ live g0 i ∧ i ∉ out) ∧ ∀ p, edge g0 p i → p ∈ visited ++ out) as [Hi0 Hip].
  { apply Hnext. set_solver. }
  assert (i ∉ visited ++ out) as Hivo by (rewrite elem_of_app; intros [?|?%Hout]; auto).
  assert (i < length (graph_nodes g0))%nat as Hlt.
  { destruct Hi0 as [->|[Hl _]]; [|by apply live_lt].
    eapply lookup_lt_Some, wf_root, Hwf. }
  destruct (remove_node_Ok g0 _ g i W Hlt Hivo) as (g1 & H1 & Hg2).
  unfold visit. rewrite H1. cbn [mbind outcome_bind].
  destruct (children_or_default g1 i) as [cs g2]. destruct Hg2 as (Hcs & S2 & I2 & E2 & N2).
  assert (indexed g2) as X2.
  { intros j k d Hj. rewrite N2 in Hj. case_decide; [by destruct (graph_nodes g0 !! j)|].
    rewrite I2. by eapply wf_indexed. }
  destruct (visit_children_Ok g2 i (hash_set_iter cs) next S2 X2 (hash_set_NoDup cs))
    as (g3 & new & H3 & [N3 I3] & S3 & E3 & Hndn & Hnew).
  { intros c Hc%elem_of_hash_set%Hcs. split; [by apply E2|].
    destruct (lookup_lt_is_Some_2 (graph_nodes g0) c) as [x Hx]; [by eapply edge_lt|].
    rewrite N2, Hx. case_decide; by eexists. }
  assert (without g0 ((visited ++ [i]) ++ out) g3) as W3.
  { split; [|congruence|done|].
    - intros j. rewrite N3, N2.
      destruct (decide (j ∈ i :: visited ++ out)), (decide (j ∈ (visited ++ [i]) ++ out)); set_solver.
    - intros a b. rewrite E3, E2, elem_of_hash_set, Hcs. set_solver. }
  rewrite H3. eexists _, _, _. split; [done|].
  eapply resolving_step; [exact Hwf|by apply Hout|split; eassumption|exact W3|exact Hndn|].
  intros c. rewrite Hnew, elem_of_hash_set, Hcs. by rewrite (without_orphan _ _ _ _ W3).
Qed.

Lemma resolving_lt g0 out visited g next result i :
  wf g0 → resolving g0 out visited g next result → i ∈ visited → (i < length (graph_nodes g0))%nat.
Proof.
  intros Hwf R Hi. assert (rtc (edge g0) 0%nat i) as Hr by (apply R; set_solver).
  apply rtc_inv_r in Hr as [<-|(p & _ & Hp)].
  - eapply lookup_lt_Some, wf_root, Hwf.
  - by eapply edge_lt.
Qed.

Lemma resolve_loop_Ok fuel g0 out visited g next result :
  wf g0 → (∀ j, rtc (edge g0) 0%nat j → j ∉ out) →
  resolving g0 out visited g next result →
  (length (graph_nodes g0) < fuel + length visited)%nat →
  ∃ visited' g' result', resolve_loop fuel g next result = Some (Ok (g', result')) ∧
    resolving g0 out visited' g' [] result'.
Proof.
  intros Hwf Hout. revert visited g next result.
  induction fuel as [|fuel IH]; intros visited g next result R Hf.
  - assert (length visited <= length (graph_nodes g0))%nat; [|lia].
    apply NoDup_bounded; [|intros; by eapply resolving_lt].
    pose proof (rs_nodup _ _ _ _ _ _ R) as Hnd. by apply NoDup_app in Hnd as [? _].
  - cbn [resolve_loop]. destruct next as [|i next _] using rev_ind; [cbn; eauto|].
    rewrite last_snoc, removelast_last.
    destruct (visit_Ok _ _ _ _ _ _ _ Hwf Hout R) as (g' & next' & result' & -> & R').
    apply (IH _ _ _ _ R'). rewrite length_app. cbn. lia.
Qed.

Lemma all_empty_spec (m : gmap nat (gset nat)) :
  forallb (λ p : nat * gset nat, bool_decide (p.2 = ∅)) (map_to_list m) = true ↔
  ∀ i, edge_set m i = ∅.
Proof.
  rewrite List.forallb_forall. split.
  - intros Hall i. unfold edge_set. destruct (m !! i) as [s|] eqn:Hi; [|done].
    apply (bool_decide_eq_true (s = ∅)), (Hall (i, s)).
    apply list_elem_of_In, elem_of_map_to_list, Hi.
  - intros Hall [i s] Hin%list_elem_of_In%elem_of_map_to_list. apply bool_decide_eq_true. cbn.
    specialize (Hall i). unfold edge_set in Hall. by rewrite Hin in Hall.
Qed.

Lemma is_empty_spec g : symmetric g → is_empty g = true ↔ ∀ i j, ¬ edge g i j.
Proof.
  intros Hs. unfold is_empty. rewrite andb_true_iff, !all_empty_spec. split.
  - intros [Hc _] i j Hij. unfold edge in Hij. rewrite Hc in Hij. set_solver.
  - intros Hno. split; intros i; apply elem_of_equiv_empty_L; intros j Hj.
    + by apply (Hno i j).
    + apply (Hno j i). by apply Hs.
Qed.

(** The outcome of [resolve] on a well-formed graph; in particular the fuel is
    enough for both loops. *)
Lemma resolve_outcome g :
  wf g → ∃ out visited g' result,
    resolve g = Some (if is_empty g' then Ok result else Err CircularDependency) ∧
    (∀ j, rtc (edge g) 0%nat j → j ∉ out) ∧ (∃ g1, pruning g out g1) ∧ resolving g out visited g' [] result.
Proof.
  intros Hwf. destruct (prune_orphans_Ok (S (length (graph_nodes g))) g [] g Hwf)
    as (g1 & out & H1 & P & Hno).
  { split; [by apply without_nil|constructor|set_solver|by intros []]. }
  { lia. }
  pose proof (pr_without _ _ _ P) as W.
  assert (∀ j, rtc (edge g) 0%nat j → j ∉ out) as Hout by (intros j; by apply pruned_unreachable with g1).
  destruct (resolve_loop_Ok (S (length (graph_nodes g1))) g out [] g1 [0%nat] [] Hwf Hout)
    as (visited & g' & result & H2 & R).
  - split; [done|apply NoDup_singleton| |by intros []| |done].
    + intros j. rewrite list_elem_of_singleton. cbn. split.
      * intros ->. split_and!; [set_solver|by left|]. intros p Hp. by apply no_edge_to_root in Hp.
      * intros (_ & [->|[Hl Ho]] & Hp); [done|]. exfalso. apply (Hno j).
        by apply (without_orphan _ _ _ _ W).
    + intros j Hj%list_elem_of_singleton. subst. constructor.
  - rewrite (without_length _ _ _ W). lia.
  - exists out, visited, g', result. split_and!; [|done|by exists g1|done].
    unfold resolve. rewrite H1. unfold ROOT_INDEX. by rewrite H2.
Qed.

Lemma resolve_terminates g : wf g → is_Some (resolve g).
Proof. intros Hwf. destruct (resolve_outcome g Hwf) as (? & ? & ? & ? & -> & _). by eexists. Qed.

(** When no edge is left, every reachable node was visited. *)
Lemma resolving_complete g out visited g' result j :
  wf g → (∀ j, rtc (edge g) 0%nat j → j ∉ out) → resolving g out visited g' [] result →
  (∀ a b, ¬ edge g' a b) → rtc (edge g) 0%nat j → j ∈ visited.
Proof.
  intros Hwf Hout R Hno Hr.
  assert (∀ a b, edge g a b → a ∈ visited ++ out) as Hgone.
  { intros a b Hab. destruct (decide (a ∈ visited ++ out)) as [|Hn]; [done|].
    exfalso. apply (Hno a b). by apply (wo_edges _ _ _ (rs_without _ _ _ _ _ _ R)). }
  assert (∀ k, (k = 0%nat ∨ live g k) → k ∉ out → k ∈ visited) as Hin.
  { intros k Hk Ho. destruct (decide (k ∈ visited)) as [|Hn]; [done|].
    exfalso. apply (not_elem_of_nil k). apply (rs_next _ _ _ _ _ _ R). split_and!; [done| |by eauto].
    destruct Hk; auto. }
  apply Hin; [|by apply Hout]. apply rtc_inv_r in Hr as [<-|(p & _ & Hp)]; [by left|right].
  by apply (wf_edges _ Hwf) in Hp as [_ ?].
Qed.

(** ** Cycles *)

(** Walking backwards in a finite graph where every node of [S] has a
    predecessor in [S] finds a cycle. *)
Lemma backward_cycle (R : nat → nat → Prop) (S : nat → Prop) n x :
  (∀ y, S y → (y < n)%nat ∧ ∃ p, S p ∧ R p y) → S x → ∃ y, tc R y y.
Proof.
  intros HS Hx.
  enough (∀ k seen x, NoDup seen → (length seen + k = Datatypes.S n)%nat → S x →
    (∀ y, y ∈ seen → S y ∧ tc R x y) → ∃ y, tc R y y) as Hwalk.
  { apply (Hwalk (Datatypes.S n) [] x); [constructor|done|done|set_solver]. }
  intros k. induction k as [|k IH]; intros seen z Hnd Hlen Hz Hseen.
  - pose proof (NoDup_bounded seen n Hnd (λ y Hy, proj1 (HS y (proj1 (Hseen y Hy))))). lia.
  - destruct (decide (z ∈ seen)) as [Hin|Hin]; [exists z; by apply Hseen|].
    destruct (HS z Hz) as (_ & p & Hp & Hpz).
    apply (IH (z :: seen) p); [by constructor|cbn; lia|done|].
    intros y [->|Hy]%elem_of_cons; [split; [done|by constructor]|].
    destruct (Hseen y Hy) as [Hy' Ht]. split; [done|]. by eapply tc_l.
Qed.

Lemma resolving_cycle g out visited g' result a b :
  wf g → (∀ j, rtc (edge g) 0%nat j → j ∉ out) → resolving g out visited g' [] result →
  edge g' a b → ∃ i, tc (edge g) i i.
Proof.
  intros Hwf Hout R Hab. pose proof (rs_without _ _ _ _ _ _ R) as W.
  assert (0%nat ∈ visited) as H0.
  { destruct (decide (0%nat ∈ visited)) as [|Hn]; [done|].
    exfalso. apply (not_elem_of_nil 0%nat). apply (rs_next _ _ _ _ _ _ R).
    split_and!; [done|by left|]. intros p Hp. by apply no_edge_to_root in Hp. }
  apply (backward_cycle _ (λ i, ∃ j, edge g' i j) (length (graph_nodes g)) a); [|by exists b].
  intros i [j Hij]. apply (wo_edges _ _ _ W) in Hij as [Hij Hi].
  assert (live g i) as Hl.
  { apply (wf_edges _ Hwf) in Hij as [[->|?] _]; [set_solver|done]. }
  split; [by apply live_lt|].
  destruct (decide (Exists (λ p, edge g p i ∧ p ∉ visited ++ out) (seq 0 (length (graph_nodes g)))))
    as [Hex|Hex].
  - apply Exists_exists in Hex as (p & _ & Hpi & Hp). exists p. split; [|done].
    exists i. by apply (wo_edges _ _ _ W).
  - exfalso. apply (not_elem_of_nil i). apply (rs_next _ _ _ _ _ _ R).
    split_and!; [set_solver|right; split; [done|set_solver]|].
    intros p Hp. destruct (decide (p ∈ visited ++ out)) as [|Hn]; [done|]. exfalso. apply Hex.
    apply Exists_exists. exists p. split; [|done]. apply elem_of_seq.
    apply (wf_edges _ Hwf) in Hp as [[->|Hlp%live_lt] _]; [|lia].
    apply live_lt in Hl. lia.
Qed.

(** A list that holds every node with a successor, after its predecessors. *)
Lemma sorted_acyclic (R : nat → nat → Prop) l i :
  NoDup l → (∀ l1 j l2 p, l = l1 ++ j :: l2 → R p j → p ∈ l1) → (∀ a b, R a b → a ∈ l) → ¬ tc R i i.
Proof.
  intros Hnd Hord Hsrc Hcyc.
  assert (∀ x y, tc R x y → ∀ l1 l2, l = l1 ++ y :: l2 → x ∈ l1) as Hbefore.
  { intros x y Hxy. induction Hxy as [x y Hxy|x y z Hxy Hyz IH]; intros l1 l2 Heq; [by eapply Hord|].
    specialize (IH _ _ Heq). apply list_elem_of_split in IH as (m1 & m2 & ->).
    rewrite <- app_assoc in Heq. cbn in Heq. apply elem_of_app. left. by eapply Hord. }
  assert (i ∈ l) as Hin by (by inversion Hcyc; subst; eapply Hsrc).
  apply list_elem_of_split in Hin as (l1 & l2 & Heq). specialize (Hbefore i i Hcyc l1 l2 Heq). rewrite Heq in Hnd.
  apply NoDup_app in Hnd as (_ & Hd & _). apply (Hd i Hbefore). set_solver.
Qed.

(** When no edge is left there was no cycle, not even one that the root does not reach. *)
Lemma resolving_acyclic g out g1 visited g' result i :
  (∀ j, rtc (edge g) 0%nat j → j ∉ out) → pruning g out g1 → resolving g out visited g' [] result →
  (∀ a b, ¬ edge g' a b) → ¬ tc (edge g) i i.
Proof.
  intros Hout P R Hno. apply (sorted_acyclic _ (reverse out ++ visited)).
  - pose proof (rs_nodup _ _ _ _ _ _ R) as Hnd. rewrite app_nil_r in Hnd. apply NoDup_app.
    split_and!; [by rewrite reverse_Permutation; apply P| |done].
    intros x Hx Hv. rewrite elem_of_reverse in Hx. assert (rtc (edge g) 0%nat x) as Hr by (apply (rs_reach _ _ _ _ _ _ R); set_solver). exact (Hout x Hr Hx).
  - intros l1 j l2 p Heq Hp.
    assert (j ∈ reverse out ++ visited) as Hj by (rewrite Heq; set_solver).
    destruct (app_eq_inv _ _ _ _ Heq) as [(k & H1 & H2)|(k & H1 & H2)].
    + destruct k as [|x k].
      * rewrite app_nil_r in H1. subst l1. pose proof (rs_order _ _ _ _ _ _ R [] j l2 p (eq_sym H2) Hp). set_solver.
      * injection H2 as <- ->. apply (f_equal reverse) in H1. rewrite reverse_involutive, reverse_app, reverse_cons, <- app_assoc in H1.
        pose proof (pr_order _ _ _ P _ _ _ _ H1 Hp). set_solver.
    + pose proof (rs_order _ _ _ _ _ _ R k j l2 p H2 Hp). set_solver.
  - intros a b Hab. destruct (decide (a ∈ visited ++ out)) as [|Hn]; [set_solver|].
    exfalso. apply (Hno a b). by apply (wo_edges _ _ _ (rs_without _ _ _ _ _ _ R)).
Qed.

(** ** The specification of [resolve] *)

(** What a successful resolution is: [order] lists the nodes reachable from the
    root, each once and before its dependencies, and [result] their data. *)
Definition resolved g (order : list nat) (result : list V) : Prop :=
  NoDup order ∧ (∀ i, i ∈ order ↔ rtc (edge g) 0%nat i) ∧
  (∀ l1 j l2 p, order = l1 ++ j :: l2 → p ∈ order → edge g p j → p ∈ l1) ∧
  result = omap (node_data g) order.

Lemma resolve_resolved g :
  wf g →
  (∃ order result, resolve g = Some (Ok result) ∧ resolved g order result ∧ ∀ i, ¬ tc (edge g) i i) ∨
  (resolve g = Some (Err CircularDependency) ∧ ∃ i, tc (edge g) i i).
Proof.
  intros Hwf. destruct (resolve_outcome g Hwf) as (out & visited & g' & result & -> & Hout & [g1 P] & R).
  pose proof (is_empty_spec g' (wo_symmetric _ _ _ (rs_without _ _ _ _ _ _ R))) as Hempty.
  destruct (is_empty g').
  - left. exists visited, result. split; [done|].
    split; [|intros i; eapply resolving_acyclic; [exact Hout|exact P|exact R|by apply Hempty]].
    assert (∀ i, i ∈ visited ↔ rtc (edge g) 0%nat i) as Hreach.
    { intros i. split; [intros Hi; apply R; set_solver|].
      by eapply resolving_complete; [exact Hwf|exact Hout|exact R|apply Hempty]. }
    split_and!; [|exact Hreach| |apply R].
    + pose proof (rs_nodup _ _ _ _ _ _ R) as Hnd. by rewrite app_nil_r in Hnd.
    + intros l1 j l2 p Heq Hp Hpj. pose proof (rs_order _ _ _ _ _ _ R _ _ _ _ Heq Hpj) as Hin.
      apply elem_of_app in Hin as [?|Ho]; [done|]. exfalso. by eapply Hout; [apply Hreach|].
  - right. split; [done|].
    destruct (decide (map_Forall (λ _ s, s = ∅) (children g'))) as [Hall|Hall].
    + exfalso. apply diff_false_true, Hempty. intros i j Hij. unfold edge, edge_set in Hij.
      destruct (children g' !! i) as [s|] eqn:Hi; [|set_solver].
      apply Hall in Hi. cbn in Hi. subst. set_solver.
    + apply map_not_Forall in Hall as (i & s & Hi & Hs); [|apply _].
      apply set_choose_L in Hs as [j Hj]. eapply (resolving_cycle _ _ _ _ _ i j); try eassumption.
      unfold edge, edge_set. by rewrite Hi.
Qed.

End graph.
