(* ===== verification/SymbolTable.v ===== *)
(** The symbol table of the bind compiler
    ([src/devices/lib/bind/src/compiler/symbol_table.rs]): the symbols, the
    hard-coded deprecated keys, the resolution of library dependencies and the
    construction of the table from the library syntax trees. *)
From Stdlib Require Import ZArith Lia.
From stdpp Require Import base gmap strings countable list.
From S2P Require Import Prelude ParserCommon BindLibrary DependencyGraph LibraryParser.
Local Open Scope Z_scope.

Inductive Symbol :=
| DeprecatedKey (key : Z)
| Key (key : rstring) (value_type : ValueType)
| NumberValue (n : Z)
| StringValue (s : rstring)
| BoolValue (b : bool)
| EnumValue (s : rstring).

#[export] Instance Symbol_eq_dec : EqDecision Symbol.
Proof. solve_decision. Defined.

#[export] Instance ValueType_countable : Countable ValueType.
Proof.
  refine (inj_countable' (λ t, match t with Number => 0 | Str => 1 | Bool => 2 | Enum => 3 end)
            (λ z, match z with 0 => Number | 1 => Str | 2 => Bool | _ => Enum end) _).
  by intros [].
Defined.

#[export] Instance Symbol_countable : Countable Symbol.
Proof.
  refine (inj_countable'
    (λ s, match s with
          | DeprecatedKey k => inl (inl k)
          | Key k t => inl (inr (k, t))
          | NumberValue n => inr (inl (inl n))
          | StringValue s => inr (inl (inr s))
          | BoolValue b => inr (inr (inl b))
          | EnumValue s => inr (inr (inr s))
          end)
    (λ x, match x with
          | inl (inl k) => DeprecatedKey k
          | inl (inr p) => Key p.1 p.2
          | inr (inl (inl n)) => NumberValue n
          | inr (inl (inr s)) => StringValue s
          | inr (inr (inl b)) => BoolValue b
          | inr (inr (inr s)) => EnumValue s
          end) _).
  by intros [].
Defined.

Abbreviation SymbolTable := (gmap CompoundIdentifier Symbol).

(** [compiler::CompilerError]. *)
Inductive CompilerError :=
| CE_BindParserError (e : BindParserError)
| CE_DependencyError (e : DependencyError CompoundIdentifier)
| CE_LinterError (e : LinterError)
| DuplicateIdentifier (i : CompoundIdentifier)
| TypeMismatch (i : CompoundIdentifier)
| UnresolvedQualification (i : CompoundIdentifier)
| UndeclaredKey (i : CompoundIdentifier)
| MissingExtendsKeyword (i : CompoundIdentifier)
| InvalidExtendsKeyword (i : CompoundIdentifier)
| UnknownKey (i : CompoundIdentifier)
| IfStatementMustBeTerminal
| TrueStatementMustBeIsolated
| FalseStatementMustBeIsolated.

#[export] Instance CompilerError_eq_dec : EqDecision CompilerError.
Proof. solve_decision. Defined.

(** ** Deprecated keys *)

Definition deprecated_keys : list (rstring * Z) :=
  [(str "BIND_PROTOCOL", 0x0001);
   (str "BIND_AUTOBIND", 0x0002);
   (str "BIND_COMPOSITE", 0x0003);
   (str "BIND_FIDL_PROTOCOL", 0x0004);
   (str "BIND_PLATFORM_DEV_VID", 0x0300);
   (str "BIND_PCI_VID", 0x0100);
   (str "BIND_PCI_DID", 0x0101);
   (str "BIND_PCI_CLASS", 0x0102);
   (str "BIND_PCI_SUBCLASS", 0x0103);
   (str "BIND_PCI_INTERFACE", 0x0104);
   (str "BIND_PCI_REVISION", 0x0105);
   (str "BIND_PCI_COMPONENT", 0x0106);
   (str "BIND_PCI_TOPO", 0x0107);
   (str "BIND_USB_VID", 0x0200);
   (str "BIND_USB_PID", 0x0201);
   (str "BIND_USB_CLASS", 0x0202);
   (str "BIND_USB_SUBCLASS", 0x0203);
   (str "BIND_USB_PROTOCOL", 0x0204);
   (str "BIND_USB_INTERFACE_NUMBER", 0x0205);
   (str "BIND_PLATFORM_DEV_VID", 0x0300);
   (str "BIND_PLATFORM_DEV_PID", 0x0301);
   (str "BIND_PLATFORM_DEV_DID", 0x0302);
   (str "BIND_PLATFORM_PROTO", 0x0303);
   (str "BIND_PLATFORM_DEV_INSTANCE_ID", 0x0304);
   (str "BIND_ACPI_BUS_TYPE", 0x0400);
   (str "BIND_IHDA_CODEC_VID", 0x0500);
   (str "BIND_IHDA_CODEC_DID", 0x0501);
   (str "BIND_IHDA_CODEC_MAJOR_REV", 0x0502);
   (str "BIND_IHDA_CODEC_MINOR_REV", 0x0503);
   (str "BIND_IHDA_CODEC_VENDOR_REV", 0x0504);
   (str "BIND_IHDA_CODEC_VENDOR_STEP", 0x0505);
   (str "BIND_SERIAL_CLASS", 0x0600);
   (str "BIND_SERIAL_VID", 0x0601);
   (str "BIND_SERIAL_PID", 0x0602);
   (str "BIND_NAND_CLASS", 0x0700);
   (str "BIND_BT_GATT_SVC_UUID16", 0x0800);
   (str "BIND_BT_GATT_SVC_UUID128_1", 0x0801);
   (str "BIND_BT_GATT_SVC_UUID128_2", 0x0802);
   (str "BIND_BT_GATT_SVC_UUID128_3", 0x0803);
   (str "BIND_BT_GATT_SVC_UUID128_4", 0x0804);
   (str "BIND_SDIO_VID", 0x0900);
   (str "BIND_SDIO_PID", 0x0901);
   (str "BIND_SDIO_FUNCTION", 0x0902);
   (str "BIND_I2C_CLASS", 0x0A00);
   (str "BIND_I2C_BUS_ID", 0x0A01);
   (str "BIND_I2C_ADDRESS", 0x0A02);
   (str "BIND_GPIO_PIN", 0x0A10);
   (str "BIND_POWER_DOMAIN", 0x0A20);
   (str "BIND_POWER_DOMAIN_COMPOSITE", 0x0A21);
   (str "BIND_CLOCK_ID", 0x0A30);
   (str "BIND_SPI_CLASS", 0x0A40);
   (str "BIND_SPI_BUS_ID", 0x0A41);
   (str "BIND_SPI_CHIP_SELECT", 0x0A42);
   (str "BIND_PWM_ID", 0x0A50);
   (str "BIND_INIT_STEP", 0x0A60);
   (str "BIND_CODEC_INSTANCE", 0x0A70);
   (str "BIND_REGISTER_ID", 0x0A80);
   (str "BIND_POWER_SENSOR_DOMAIN", 0x0A90)].

(** Later entries of a repeated key overwrite earlier ones. *)
Definition get_deprecated_symbols : SymbolTable :=
  foldl (λ symbol_table '(key, value),
           <[make_identifier (str "fuchsia") [key] := DeprecatedKey value]> symbol_table)
        ∅ deprecated_keys.

Definition get_deprecated_key_identifiers : gmap Z rstring :=
  foldl (λ key_identifiers '(key, value),
           <[value := to_string (make_identifier (str "fuchsia") [key])]> key_identifiers)
        ∅ deprecated_keys.

(** ** Constructing the table *)

Definition find_qualified_identifier (declaration : Declaration) (using_ : list Include)
    (local_qualified : CompoundIdentifier) : outcome CompilerError CompoundIdentifier :=
  match parent (identifier declaration) with
  | Some namespace_ =>
    if negb (extends declaration) then Err (MissingExtendsKeyword (identifier declaration)) else
    if bool_decide (namespace_ = make_identifier (str "fuchsia") []) then
      Ok (identifier declaration) else
    match List.find (λ include, bool_decide (namespace_ = include_name include) ||
                                bool_decide (Some (to_string namespace_) = alias include)) using_ with
    | Some include => Ok (nest (include_name include) (name (identifier declaration)))
    | None => Err (UnresolvedQualification (identifier declaration))
    end
  | None =>
    if extends declaration then Err (InvalidExtendsKeyword local_qualified)
    else Ok local_qualified
  end.

(** The type check of a declared key against the table built so far, and the
    insertion of a new key. *)
Definition declare_key (symbol_table : SymbolTable) (declaration : Declaration)
    (qualified : CompoundIdentifier) : outcome CompilerError SymbolTable :=
  match symbol_table !! qualified with
  | Some (Key _ vt) =>
    if negb (extends declaration) then Err (DuplicateIdentifier qualified) else
    if negb (bool_decide (value_type declaration = vt)) then Err (TypeMismatch qualified)
    else Ok symbol_table
  | Some (DeprecatedKey _) => Ok symbol_table
  | Some _ => Err (TypeMismatch qualified)
  | None =>
    if extends declaration then Err (UndeclaredKey qualified)
    else Ok (<[qualified := Key (to_string qualified) (value_type declaration)]> symbol_table)
  end.

(** One value of a declaration, scoped under the locally qualified key. *)
Definition declare_value (local_qualified : CompoundIdentifier) (symbol_table : SymbolTable)
    (value : Value) : outcome CompilerError SymbolTable :=
  let qualified_value := nest local_qualified (value_identifier value) in
  match symbol_table !! qualified_value with
  | Some _ => Err (DuplicateIdentifier qualified_value)
  | None =>
    Ok (<[qualified_value :=
          match value with
          | NumberV _ n => NumberValue n
          | StrV _ s => StringValue s
          | BoolV _ b => BoolValue b
          | EnumV _ => EnumValue (to_string qualified_value)
          end]> symbol_table)
  end.

(** The body of the loop over the declarations of one library. *)
Definition declare (lib_name : CompoundIdentifier) (using_ : list Include)
    (symbol_table : SymbolTable) (declaration : Declaration) :
    outcome CompilerError SymbolTable :=
  let local_qualified := nest lib_name (name (identifier declaration)) in
  qualified ← find_qualified_identifier declaration using_ local_qualified;
  symbol_table' ← declare_key symbol_table declaration qualified;
  try_fold (declare_value local_qualified) symbol_table' (values declaration).

Definition declare_library (symbol_table : SymbolTable) (lib : Ast) :
    outcome CompilerError SymbolTable :=
  try_fold (declare (ast_name lib) (ast_using lib)) symbol_table (declarations lib).

Definition construct_symbol_table (libraries : list Ast) : outcome CompilerError SymbolTable :=
  try_fold declare_library get_deprecated_symbols libraries.

(** ** Resolving dependencies *)

Section dependencies.
Context `{!HashSetOrder nat}.

(** The three loops of the closure of [resolve_dependencies] that build the
    graph, whose data are the libraries themselves. *)
Definition dependency_graph (using_ : list Include) (libraries : list Ast) :
    outcome (DependencyError CompoundIdentifier) (DependencyGraph CompoundIdentifier Ast) :=
  g1 ← try_fold (λ g library, insert_node g (ast_name library) library) new_graph libraries;
  g2 ← try_fold (λ g include, insert_edge_from_root g (include_name include)) g1 using_;
  try_fold (λ g from,
              try_fold (λ g to, insert_edge g (ast_name from) (include_name to)) g (ast_using from))
           g2 libraries.

(** [resolve] has enough fuel on every graph ([resolve_terminates]), so the
    default is never used. *)
Definition resolve_dependencies (using_ : list Include) (libraries : list Ast) :
    outcome CompilerError (list Ast) :=
  map_err CE_DependencyError
    (g ← dependency_graph using_ libraries; default Panic (resolve g)).

Definition get_symbol_table_from_libraries
    (using_ : list Include) (libraries : list rstring) (lint : bool) :
    outcome CompilerError SymbolTable :=
  library_asts ← try_map (λ lib,
      ast ← map_err CE_BindParserError (library_try_from lib);
      _ ← (if lint then map_err CE_LinterError (lint_library ast) else Ok ());
      Ok ast) libraries;
  dependencies ← resolve_dependencies using_ library_asts;
  construct_symbol_table dependencies.
End dependencies.
