(* ===== verification/ResolveCorrect.v ===== *)
(** Resolving the dependencies of bind rules: the libraries it returns are
    exactly those the rules need, each once and before the libraries it uses, and
    it fails exactly when one is missing or there is a cycle
    ([resolve_dependencies_correct]). *)
From Stdlib Require Import ZArith Lia.
From stdpp Require Import base gmap strings countable relations list.
From S2P Require Import Prelude ParserCommon BindLibrary DependencyGraph DependencyGraphCorrect.
From S2P Require Import SymbolTable.

(** ** Libraries and their dependencies *)

(** The library a name stands for: a later library replaces an earlier one of
    the same name. *)
Definition library_named (libs : list Ast) (k : CompoundIdentifier) : option Ast :=
  last (filter (λ lib, ast_name lib = k) libs).

(** The library named [a] uses the library named [b]. *)
Definition depends (libs : list Ast) (a b : CompoundIdentifier) : Prop :=
  ∃ from inc, from ∈ libs ∧ ast_name from = a ∧ inc ∈ ast_using from ∧ include_name inc = b.

(** The rules need [k], directly or through other libraries. *)
Definition needed (using_ : list Include) (libs : list Ast) (k : CompoundIdentifier) : Prop :=
  ∃ inc, inc ∈ using_ ∧ rtc (depends libs) (include_name inc) k.

(** A name the rules or a library uses. *)
Definition mentioned (using_ : list Include) (libs : list Ast) (k : CompoundIdentifier) : Prop :=
  (∃ inc, inc ∈ using_ ∧ include_name inc = k) ∨ ∃ a, depends libs a k.

Lemma library_named_snoc libs lib k :
  library_named (libs ++ [lib]) k = if decide (ast_name lib = k) then Some lib else library_named libs k.
Proof.
  unfold library_named. rewrite filter_app. cbn.
  destruct (decide (ast_name lib = k)); [by rewrite last_snoc|by rewrite app_nil_r].
Qed.

Lemma library_named_Some libs k lib :
  library_named libs k = Some lib → ast_name lib = k ∧ lib ∈ libs.
Proof.
  intros Hl. apply last_Some_elem_of, list_elem_of_filter in Hl. done.
Qed.

Lemma library_named_is_Some libs lib : lib ∈ libs → is_Some (library_named libs (ast_name lib)).
Proof.
  induction libs as [|x libs IH] using rev_ind; intros Hin; [by apply elem_of_nil in Hin|].
  rewrite library_named_snoc. case_decide; [by eexists|].
  apply elem_of_app in Hin as [?|Hx]; [by apply IH|].
  apply list_elem_of_singleton in Hx. by subst.
Qed.

Lemma omap_app_cons {A B} (f : A → option B) l r1 y r2 :
  omap f l = r1 ++ y :: r2 →
  ∃ l1 x l2, l = l1 ++ x :: l2 ∧ omap f l1 = r1 ∧ f x = Some y ∧ omap f l2 = r2.
Proof.
  revert r1. induction l as [|a l IH]; intros r1 Hr; [by destruct r1|]. cbn in Hr.
  destruct (f a) as [b|] eqn:Ha.
  - destruct r1 as [|c r1]; simplify_eq/=; [by exists [], a, l|].
    destruct (IH r1) as (l1 & x & l2 & -> & <- & Hx & <-); [done|].
    exists (a :: l1), x, l2. cbn. by rewrite Ha.
  - destruct (IH r1 Hr) as (l1 & x & l2 & -> & <- & Hx & <-).
    exists (a :: l1), x, l2. cbn. by rewrite Ha.
Qed.

Section resolve.
Context `{!HashSetOrder nat}.
Implicit Types g : DependencyGraph CompoundIdentifier Ast.

(** ** The graph of the libraries *)

Lemma insert_nodes_Ok libs :
  ∃ g, try_fold (λ g library, insert_node g (ast_name library) library) new_graph libs = Ok g ∧
    wf g ∧ (∀ i j, ¬ edge g i j) ∧ ∀ k d, holds g k d ↔ library_named libs k = Some d.
Proof.
  induction libs as [|lib libs IH] using rev_ind.
  - exists new_graph. split_and!; [done|apply new_graph_wf| |].
    + intros i j Hij. unfold edge, edge_set in Hij. cbn in Hij. set_solver.
    + intros k d. split; [|done]. intros [[|i] Hi]; done.
  - destruct IH as (g & Hg & Hwf & Hno & Hh).
    destruct (insert_node_wf g (ast_name lib) lib Hwf Hno) as (g' & Hg' & Hwf' & Hno' & Hh').
    exists g'. split_and!; [|done|done|].
    + rewrite try_fold_app, Hg. cbn. by rewrite Hg'.
    + intros k d. rewrite Hh', Hh, library_named_snoc. case_decide; naive_solver.
Qed.

(** A loop that adds an edge from [i] to every include of [l]. *)
Lemma add_edges_Ok (f : DependencyGraph CompoundIdentifier Ast → Include → _) g0 i l g :
  (∀ g inc, indices g = indices g0 →
     f g inc = (j ← get_index g (include_name inc); Ok (add_edge g i j))) →
  wf g → same_nodes g0 g → (i = 0%nat ∨ live g0 i) →
  (∃ g', try_fold f g l = Ok g' ∧ wf g' ∧ same_nodes g0 g' ∧
     (∀ inc, inc ∈ l → is_Some (indices g0 !! include_name inc)) ∧
     ∀ a b, edge g' a b ↔ edge g a b ∨
       (a = i ∧ ∃ inc, inc ∈ l ∧ indices g0 !! include_name inc = Some b)) ∨
  (∃ inc, inc ∈ l ∧ indices g0 !! include_name inc = None ∧
     try_fold f g l = Err (MissingDependency (include_name inc))).
Proof.
  intros Hf. revert g. induction l as [|inc l IH]; intros g Hwf [Hn Hi] Hlive.
  - left. exists g. split_and!; try done; set_solver.
  - cbn. rewrite Hf by done. unfold get_index. rewrite Hi.
    destruct (indices g0 !! include_name inc) as [j|] eqn:Hj; cbn.
    2:{ right. exists inc. split_and!; [set_solver|done|done]. }
    destruct (IH (add_edge g i j)) as [(g' & Hg' & Hwf' & Hs' & Hall & He)|(inc' & Hin & Hnone & Herr)].
    + apply add_edge_wf; [done|unfold live; by rewrite Hn|].
      eapply get_index_live; [done|]. unfold get_index. by rewrite Hi, Hj.
    + done.
    + done.
    + left. exists g'. split_and!; [done|done|done| |].
      * intros x [->|Hx]%elem_of_cons; [by rewrite Hj|by apply Hall].
      * intros a b. rewrite He, add_edge_edge. setoid_rewrite elem_of_cons. naive_solver.
    + right. exists inc'. split_and!; [set_solver|done|done].
Qed.

(** The loop over the libraries adds the edges of each. *)
Lemma library_edges_Ok g0 libs g :
  (∀ lib, lib ∈ libs → is_Some (indices g0 !! ast_name lib)) → wf g → same_nodes g0 g →
  (∃ g', try_fold (λ g from, try_fold (λ g to, insert_edge g (ast_name from) (include_name to)) g
            (ast_using from)) g libs = Ok g' ∧ wf g' ∧ same_nodes g0 g' ∧
     (∀ a b, depends libs a b → is_Some (indices g0 !! b)) ∧
     ∀ x y, edge g' x y ↔ edge g x y ∨
       ∃ a b, depends libs a b ∧ indices g0 !! a = Some x ∧ indices g0 !! b = Some y) ∨
  (∃ a b, depends libs a b ∧ indices g0 !! b = None ∧
     try_fold (λ g from, try_fold (λ g to, insert_edge g (ast_name from) (include_name to)) g
        (ast_using from)) g libs = Err (MissingDependency b)).
Proof.
  revert g. induction libs as [|lib libs IH]; intros g Hlibs Hwf Hsame.
  - left. exists g. split_and!; try done; unfold depends; set_solver.
  - destruct (Hlibs lib) as [i Hi]; [set_solver|].
    assert (live g0 i) as Hli.
    { destruct Hsame as [Hn Hix]. rewrite <- Hix in Hi.
      destruct (wf_indices _ Hwf _ _ Hi) as [d Hd]. rewrite Hn in Hd. by eexists _, _. }
    assert (∀ a b, depends (lib :: libs) a b ↔ depends libs a b ∨
      (a = ast_name lib ∧ ∃ inc, inc ∈ ast_using lib ∧ include_name inc = b)) as Hdep.
    { intros a b. unfold depends. setoid_rewrite elem_of_cons. naive_solver. }
    destruct (add_edges_Ok (λ g to, insert_edge g (ast_name lib) (include_name to)) g0 i (ast_using lib) g)
      as [(g1 & H1 & Hwf1 & Hs1 & Hall1 & He1)|(inc & Hin & Hnone & Herr)]; [|done|done|by right| |].
    { intros g2 inc Hi2. unfold insert_edge, get_index. by rewrite Hi2, Hi. }
    + cbn. rewrite H1. cbn.
      destruct (IH g1) as [(g2 & H2 & Hwf2 & Hs2 & Hall2 & He2)|(a & b & Hab & Hnone & Herr)];
        [intros; apply Hlibs; set_solver|done|done|left|right].
      * exists g2. split_and!; [done|done|done| |].
        -- intros a b [Hab|(-> & inc & Hin & <-)]%Hdep; [by eapply Hall2|by apply Hall1].
        -- intros x y. rewrite He2, He1. setoid_rewrite Hdep. naive_solver.
      * exists a, b. split_and!; [apply Hdep; by left|done|done].
    + right. exists (ast_name lib), (include_name inc). split_and!; [|done|].
      * apply Hdep. right. eauto.
      * cbn. by rewrite Herr.
Qed.

(** The dependency graph is well formed and its edges are the uses. *)
Lemma dependency_graph_Ok using_ libs :
  (∃ g, dependency_graph using_ libs = Ok g ∧ wf g ∧
     (∀ k d, holds g k d ↔ library_named libs k = Some d) ∧
     (∀ k, mentioned using_ libs k → is_Some (indices g !! k)) ∧
     ∀ x y, edge g x y ↔
       (x = 0%nat ∧ ∃ inc, inc ∈ using_ ∧ indices g !! include_name inc = Some y) ∨
       ∃ a b, depends libs a b ∧ indices g !! a = Some x ∧ indices g !! b = Some y) ∨
  (∃ k, mentioned using_ libs k ∧ library_named libs k = None ∧
     dependency_graph using_ libs = Err (MissingDependency k)).
Proof.
  destruct (insert_nodes_Ok libs) as (g0 & H0 & Hwf0 & Hno0 & Hh0).
  assert (∀ k, indices g0 !! k = None → library_named libs k = None) as Hnone.
  { intros k Hk. destruct (library_named libs k) as [d|] eqn:Hd; [|done].
    apply Hh0 in Hd as [i Hi]. apply (wf_indexed _ Hwf0) in Hi. congruence. }
  unfold dependency_graph. rewrite H0. cbn [mbind outcome_bind].
  destruct (add_edges_Ok (λ g include, insert_edge_from_root g (include_name include)) g0 0 using_ g0)
    as [(g1 & H1 & Hwf1 & Hs1 & Hall1 & He1)|(inc & Hin & Hn & ->)];
    [done|done|done|by left| |].
  - rewrite H1. cbn [mbind outcome_bind].
    destruct (library_edges_Ok g0 libs g1) as [(g2 & H2 & Hwf2 & [Hn2 Hi2] & Hall2 & He2)|
      (a & b & Hab & Hn & ->)]; [|done|done| |].
    { intros lib Hlib. destruct (indices g0 !! ast_name lib) eqn:Hi; [by eexists|].
      apply Hnone in Hi. apply library_named_is_Some in Hlib as [? ?]. congruence. }
    + left. exists g2. rewrite H2. split_and!; [done|done| | |].
      * unfold holds. by rewrite Hn2.
      * rewrite Hi2. intros k [(inc & Hinc & <-)|(a & Ha)]; [by apply Hall1|by eapply Hall2].
      * rewrite Hi2. intros x y. rewrite He2, He1. naive_solver.
    + right. exists b. split_and!; [right; by exists a|by apply Hnone|done].
  - right. exists (include_name inc). split_and!; [left; eauto|by apply Hnone|done].
Qed.

(** ** From nodes to names *)

Section names.
Context g using_ libs (Hwf : wf g)
  (Hh : ∀ k d, holds g k d ↔ library_named libs k = Some d)
  (Hm : ∀ k, mentioned using_ libs k → is_Some (indices g !! k))
  (He : ∀ x y, edge g x y ↔
     (x = 0%nat ∧ ∃ inc, inc ∈ using_ ∧ indices g !! include_name inc = Some y) ∨
     ∃ a b, depends libs a b ∧ indices g !! a = Some x ∧ indices g !! b = Some y).

Lemma index_node k i : indices g !! k = Some i ↔ ∃ d, graph_nodes g !! i = Some (Data k d).
Proof. split; [apply Hwf|]. intros [d Hd]. by eapply wf_indexed. Qed.

Lemma index_inj a b i : indices g !! a = Some i → indices g !! b = Some i → a = b.
Proof. intros [d Hd]%index_node [d' Hd']%index_node. congruence. Qed.

Lemma index_not_root k : indices g !! k ≠ Some 0%nat.
Proof. intros [d Hd]%index_node. pose proof (wf_root _ Hwf). congruence. Qed.

Lemma node_data_named i d :
  node_data g i = Some d ↔ library_named libs (ast_name d) = Some d ∧ indices g !! ast_name d = Some i.
Proof.
  unfold node_data. split.
  - destruct (graph_nodes g !! i) as [[|k d'|]|] eqn:Hi; try done. intros [= ->].
    assert (library_named libs k = Some d) as Hk by (apply Hh; by exists i).
    destruct (library_named_Some _ _ _ Hk) as [<- _]. split; [done|]. apply index_node. by exists d.
  - intros [(j & Hj)%Hh Hi]. assert (indices g !! ast_name d = Some j) as Hj' by (apply index_node; eauto).
    simplify_eq. by rewrite Hj.
Qed.

Lemma reachable_needed i :
  rtc (edge g) 0%nat i → i = 0%nat ∨ ∃ k, indices g !! k = Some i ∧ needed using_ libs k.
Proof.
  revert i. apply rtc_ind_r; [by left|]. intros x y Hx Hxy IH. right.
  apply He in Hxy as [(-> & inc & Hin & Hy)|(a & b & Hab & Ha & Hb)].
  - exists (include_name inc). split; [done|]. by exists inc.
  - destruct IH as [->|(k & Hk & inc & Hin & Hr)]; [by apply index_not_root in Ha|].
    rewrite (index_inj _ _ _ Hk Ha) in Hr. exists b. split; [done|].
    exists inc. split; [done|]. by eapply rtc_r.
Qed.

Lemma needed_reachable k :
  needed using_ libs k → ∃ i, indices g !! k = Some i ∧ rtc (edge g) 0%nat i.
Proof.
  intros (inc & Hin & Hr). revert k Hr. apply rtc_ind_r; [|intros a b Ha Hab IH].
  - destruct (Hm (include_name inc)) as [i Hi]; [left; eauto|]. exists i. split; [done|].
    apply rtc_once, He. left. eauto.
  - destruct IH as (x & Hx & Hrx). destruct (Hm b) as [y Hy]; [right; eauto|].
    exists y. split; [done|]. eapply rtc_r; [done|]. apply He. right. eauto 6.
Qed.

Lemma cycle_depends x y a :
  tc (edge g) x y → indices g !! a = Some x → ∃ b, indices g !! b = Some y ∧ tc (depends libs) a b.
Proof.
  intros Hxy. revert a. induction Hxy as [x y Hxy|x y z Hxy _ IH]; intros a Ha;
    (apply He in Hxy as [(-> & _)|(a' & b & Hab & Ha' & Hb)]; [by apply index_not_root in Ha|]);
    pose proof (index_inj _ _ _ Ha Ha') as ->.
  - exists b. split; [done|]. by constructor.
  - destruct (IH b Hb) as (c & Hc & Hbc). exists c. split; [done|]. by eapply tc_l.
Qed.

Lemma depends_cycle a b :
  tc (depends libs) a b → ∃ x y, indices g !! a = Some x ∧ indices g !! b = Some y ∧ tc (edge g) x y.
Proof.
  assert (∀ a b, depends libs a b → ∃ x y, indices g !! a = Some x ∧ indices g !! b = Some y ∧ edge g x y) as Hedge.
  { intros a' b' Hab. destruct (Hm b') as [y Hy]; [right; by exists a'|]. pose proof Hab as (lib & _ & Hlib & <- & _).
    apply library_named_is_Some in Hlib as [d [x Hx]%Hh].
    assert (indices g !! ast_name lib = Some x) as Hx' by (apply index_node; by exists d).
    exists x, y. split_and!; [done|done|]. apply He. right. eauto. }
  induction 1 as [a b (x & y & Ha & Hb & Hxy)%Hedge|a b c (x & y & Ha & Hb & Hxy)%Hedge _ (y' & z & Hb' & Hc & Hyz)].
  - exists x, y. split_and!; [done|done|by constructor].
  - simplify_eq. exists x, z. split_and!; [done|done|by eapply tc_l].
Qed.

(** What resolving returns, by name: the needed libraries, each once, before the
    libraries they use. *)
Record resolved_libraries (result : list Ast) : Prop := {
  rl_needed lib : lib ∈ result ↔
    needed using_ libs (ast_name lib) ∧ library_named libs (ast_name lib) = Some lib;
  rl_nodup : NoDup (map ast_name result);
  rl_order l1 lib l2 user : result = l1 ++ lib :: l2 → user ∈ result →
    depends libs (ast_name user) (ast_name lib) → user ∈ l1;
}.

Lemma resolved_names order result :
  resolved g order result → resolved_libraries result.
Proof.
  intros (Hnd & Hreach & Hord & ->).
  assert (∀ d, d ∈ omap (node_data g) order ↔
    needed using_ libs (ast_name d) ∧ library_named libs (ast_name d) = Some d) as Hin.
  { intros d. rewrite list_elem_of_omap. setoid_rewrite node_data_named. split.
    - intros (i & Hi & Hd & Hx). split; [|done].
      apply Hreach, reachable_needed in Hi as [->|(k & Hk & Hn)]; [by apply index_not_root in Hx|].
      by rewrite (index_inj _ _ _ Hx Hk).
    - intros [(i & Hi & Hr)%needed_reachable Hd]. exists i. split; [by apply Hreach|done]. }
  split; [done| |].
  - clear Hreach Hord Hin. induction Hnd as [|i order Hi Hnd IH]; [constructor|]. cbn.
    destruct (node_data g i) as [d|] eqn:Hd; [|done]. cbn. constructor; [|done].
    intros (d' & Heq & (j & Hj & Hd')%list_elem_of_omap)%list_elem_of_fmap.
    apply node_data_named in Hd as [_ Hx], Hd' as [_ Hx']. rewrite Heq in Hx. by simplify_eq.
  - intros l1 lib l2 user Heq (p & Hp & Hud)%list_elem_of_omap Hdep.
    apply omap_app_cons in Heq as (o1 & j & o2 & -> & <- & Hj & _).
    apply list_elem_of_omap. exists p. split; [|done].
    eapply Hord; [done|done|]. apply He. right.
    apply node_data_named in Hud as [_ Hup], Hj as [_ Hj]. eauto 6.
Qed.

End names.

Lemma resolve_dependencies_outcome using_ libs :
  match resolve_dependencies using_ libs with
  | Ok result =>
      resolved_libraries using_ libs result ∧
      (∀ k, mentioned using_ libs k → is_Some (library_named libs k)) ∧
      ∀ k, ¬ tc (depends libs) k k
  | Err (CE_DependencyError (MissingDependency k)) =>
      mentioned using_ libs k ∧ library_named libs k = None
  | Err (CE_DependencyError CircularDependency) =>
      (∀ k, mentioned using_ libs k → is_Some (library_named libs k)) ∧
      ∃ k, tc (depends libs) k k
  | _ => False
  end.
Proof.
  unfold resolve_dependencies.
  destruct (dependency_graph_Ok using_ libs) as [(g & -> & Hwf & Hh & Hm & He)|(k & Hk & Hn & ->)];
    cbn [mbind outcome_bind map_err]; [|done].
  assert (∀ k, mentioned using_ libs k → is_Some (library_named libs k)) as Hall.
  { intros k [i [d Hd]%(index_node g Hwf)]%Hm. exists d. apply Hh. by exists i. }
  destruct (resolve_resolved g Hwf) as [(order & result & -> & Hr & Hno)|[-> [i Hi]]]; cbn.
  - split_and!; [by eapply resolved_names|done|]. intros k Hk.
    destruct (depends_cycle g using_ libs Hwf Hh Hm He k k Hk) as (x & y & Hx & Hy & Hxy). simplify_eq. by apply (Hno x).
  - split; [done|]. assert (∀ x y, tc (edge g) x y → ∃ k, indices g !! k = Some y) as Hend.
    { induction 1 as [x y Hxy|]; [apply He in Hxy; naive_solver|done]. }
    destruct (Hend _ _ Hi) as [k Hk].
    destruct (cycle_depends g using_ libs Hwf He i i k Hi Hk) as (k' & Hk' & Hc).
    rewrite (index_inj g Hwf _ _ _ Hk' Hk) in Hc. by exists k.
Qed.

Lemma resolve_Ok_libraries using_ libs result :
  resolve_dependencies using_ libs = Ok result →
  resolved_libraries using_ libs result ∧
  ∀ k, mentioned using_ libs k → is_Some (library_named libs k).
Proof. intros Hok. pose proof (resolve_dependencies_outcome using_ libs) as H. rewrite Hok in H. by destruct H as (? & ? & _). Qed.

(** C26: resolving the dependencies of bind rules never panics, and which of its three
    outcomes it has is determined.  It reports a missing dependency exactly when a name that
    the rules or some library uses has no library; otherwise it reports a circular dependency
    exactly when some library, needed or not, uses itself through others; otherwise it
    succeeds, and the result holds exactly the libraries the rules need, each once (the last
    library of a name stands for it) and before the libraries it uses. *)
Theorem resolve_dependencies_correct using_ libs :
  match resolve_dependencies using_ libs with
  | Ok result =>
      resolved_libraries using_ libs result ∧
      (∀ k, mentioned using_ libs k → is_Some (library_named libs k)) ∧
      ∀ k, ¬ tc (depends libs) k k
  | Err (CE_DependencyError (MissingDependency k)) =>
      mentioned using_ libs k ∧ library_named libs k = None
  | Err (CE_DependencyError CircularDependency) =>
      (∀ k, mentioned using_ libs k → is_Some (library_named libs k)) ∧
      ∃ k, tc (depends libs) k k
  | _ => False
  end.
Proof. exact (resolve_dependencies_outcome using_ libs). Qed.
End resolve.
