(* ===== verification/Instruction.v ===== *)
(** The two instruction languages of the bind compiler: the symbolic
    instructions the compiler emits ([src/devices/lib/bind/src/compiler/compiler.rs])
    with the source location each came from
    ([debugger/offline_debugger.rs]), and the instructions the encoders consume
    ([compiler/instruction.rs]). *)
From Stdlib Require Import ZArith Lia.
From stdpp Require Import base gmap strings countable list.
From S2P Require Import Prelude BindLibrary ParserCommon BindRules SymbolTable.
Local Open Scope Z_scope.

(** ** compiler/instruction.rs *)

Inductive InstCondition :=
| Always
| Equal (lhs rhs : Symbol)
| NotEqual (lhs rhs : Symbol).

Inductive Instruction :=
| Abort (condition : InstCondition)
| Match (condition : InstCondition)
| Goto (condition : InstCondition) (label : Z)
| Label (label : Z).

Inductive RawAstLocation :=
| Loc_Invalid | Loc_ConditionStatement | Loc_AcceptStatementValue
| Loc_AcceptStatementFailure | Loc_IfCondition | Loc_FalseStatement.

#[export] Instance InstCondition_eq_dec : EqDecision InstCondition.
Proof. solve_decision. Defined.
#[export] Instance Instruction_eq_dec : EqDecision Instruction.
Proof. solve_decision. Defined.
#[export] Instance RawAstLocation_eq_dec : EqDecision RawAstLocation.
Proof. solve_decision. Defined.

(** [location as u32]. *)
Definition RawAstLocation_as_u32 (l : RawAstLocation) : Z :=
  match l with
  | Loc_Invalid => 0
  | Loc_ConditionStatement => 1
  | Loc_AcceptStatementValue => 2
  | Loc_AcceptStatementFailure => 3
  | Loc_IfCondition => 4
  | Loc_FalseStatement => 5
  end.

(** The derived [FromPrimitive]. *)
Definition RawAstLocation_from_u32 (z : Z) : option RawAstLocation :=
  match z with
  | 0 => Some Loc_Invalid
  | 1 => Some Loc_ConditionStatement
  | 2 => Some Loc_AcceptStatementValue
  | 3 => Some Loc_AcceptStatementFailure
  | 4 => Some Loc_IfCondition
  | 5 => Some Loc_FalseStatement
  | _ => None
  end.

Record InstructionDebug := mkDebug {
  line : Z;
  ast_location : RawAstLocation;
  extra : Z;
}.

Definition InstructionDebug_none : InstructionDebug := mkDebug 0 Loc_Invalid 0.

Record InstructionInfo := mkInfo {
  instruction : Instruction;
  debug : InstructionDebug;
}.

(** [DeviceProperty], a numeric key and value. *)
Record DeviceProperty := mkProperty {
  prop_key : Z;
  prop_value : Z;
}.

#[export] Instance DeviceProperty_eq_dec : EqDecision DeviceProperty.
Proof. solve_decision. Defined.
#[export] Instance DeviceProperty_countable : Countable DeviceProperty.
Proof.
  refine (inj_countable' (λ p, (prop_key p, prop_value p)) (λ q, mkProperty q.1 q.2) _).
  by intros [].
Defined.

(** ** ddk_bind_constants.rs *)

Definition BIND_FLAGS : Z := 0.
Definition BIND_PROTOCOL : Z := 1.
Definition BIND_AUTOBIND : Z := 2.

(** ** Encoding errors ([bytecode_encoder/error.rs]) *)

Inductive BindRulesEncodeError :=
| InvalidStringLength (s : rstring)
| UnsupportedSymbol
| IntegerOutOfRange
| EE_MismatchValueTypes (lhs rhs : BindLibrary.ValueType)
| IncorrectTypesInValueComparison
| DuplicateLabel (label : Z)
| MissingLabel (label : Z)
| InvalidGotoLocation (label : Z)
| JumpOffsetOutOfRange (label : Z)
| MatchNotSupported
| MissingCompositeDeviceName
| MissingCompositeNodeName
| DuplicateCompositeNodeName (s : rstring).

#[export] Instance BindRulesEncodeError_eq_dec : EqDecision BindRulesEncodeError.
Proof. solve_decision. Defined.

(** [encode_v1::encode_symbol]: the old format supports only numeric symbols. *)
Definition encode_symbol (symbol : Symbol) : outcome BindRulesEncodeError Z :=
  match symbol with
  | DeprecatedKey value => Ok value
  | NumberValue value64 => ok_or (try_u32 value64) IntegerOutOfRange
  | _ => Err UnsupportedSymbol
  end.

(** ** Source locations ([offline_debugger::AstLocation]) *)

Inductive AstLocation :=
| AL_ConditionStatement (statement : Statement)
| AL_AcceptStatementValue (identifier : CompoundIdentifier) (value : Value) (span : Span)
| AL_AcceptStatementFailure (identifier : CompoundIdentifier) (symbol : Symbol) (span : Span)
| AL_IfCondition (condition : Condition)
| AL_FalseStatement (statement : Statement).

Definition to_instruction_debug (l : AstLocation) : InstructionDebug :=
  match l with
  | AL_ConditionStatement statement =>
    mkDebug (span_line (get_span statement)) Loc_ConditionStatement 0
  | AL_AcceptStatementValue _ _ span => mkDebug (span_line span) Loc_AcceptStatementValue 0
  | AL_AcceptStatementFailure _ symbol span =>
    mkDebug (span_line span) Loc_AcceptStatementFailure
      (match encode_symbol symbol with Ok v => v | _ => 0 end)
  | AL_IfCondition condition => mkDebug (span_line (cond_span condition)) Loc_IfCondition 0
  | AL_FalseStatement statement =>
    mkDebug (span_line (get_span statement)) Loc_FalseStatement 0
  end.

(** ** Symbolic instructions ([compiler.rs]) *)

Inductive SymbolicInstruction :=
| AbortIfEqual (lhs rhs : Symbol)
| AbortIfNotEqual (lhs rhs : Symbol)
| SLabel (label : Z)
| UnconditionalJump (label : Z)
| JumpIfEqual (lhs rhs : Symbol) (label : Z)
| JumpIfNotEqual (lhs rhs : Symbol) (label : Z)
| UnconditionalAbort
| UnconditionalBind.

#[export] Instance SymbolicInstruction_eq_dec : EqDecision SymbolicInstruction.
Proof. solve_decision. Defined.

Definition to_instruction (i : SymbolicInstruction) : Instruction :=
  match i with
  | AbortIfEqual lhs rhs => Abort (Equal lhs rhs)
  | AbortIfNotEqual lhs rhs => Abort (NotEqual lhs rhs)
  | SLabel label_id => Label label_id
  | UnconditionalJump label => Goto Always label
  | JumpIfEqual lhs rhs label => Goto (Equal lhs rhs) label
  | JumpIfNotEqual lhs rhs label => Goto (NotEqual lhs rhs) label
  | UnconditionalAbort => Abort Always
  | UnconditionalBind => Match Always
  end.

Record SymbolicInstructionInfo := mkSymInfo {
  location : option AstLocation;
  sym_instruction : SymbolicInstruction;
}.

(** [SymbolicInstructionInfo::to_instruction]. *)
Definition info_to_instruction (i : SymbolicInstructionInfo) : InstructionInfo :=
  mkInfo (to_instruction (sym_instruction i))
    (match location i with
     | Some l => to_instruction_debug l
     | None => InstructionDebug_none
     end).

Definition disable_autobind : SymbolicInstructionInfo :=
  mkSymInfo None (AbortIfNotEqual (DeprecatedKey BIND_AUTOBIND) (NumberValue 0)).

(** [BindRules], [CompositeNode] and [CompositeBindRules]. *)
Record BindRules := mkBindRules {
  symbol_table : SymbolTable;
  instructions : list SymbolicInstructionInfo;
  use_new_bytecode : bool;
}.

Record CompositeNode := mkCompositeNode {
  cn_name : rstring;
  cn_instructions : list SymbolicInstructionInfo;
}.

Record CompositeBindRules := mkCompositeBindRules {
  device_name : rstring;
  composite_symbol_table : SymbolTable;
  primary_node : CompositeNode;
  additional_nodes : list CompositeNode;
}.

Inductive CompiledBindRules :=
| Bind (rules : BindRules)
| CompositeBind (rules : CompositeBindRules).

Lemma RawAstLocation_from_as l : RawAstLocation_from_u32 (RawAstLocation_as_u32 l) = Some l.
Proof. by destruct l. Qed.
