(* ===== verification/Compiler.v ===== *)
(** The bind rules compiler ([src/devices/lib/bind/src/compiler/compiler.rs]):
    from statements to symbolic instructions. *)
From Stdlib Require Import ZArith Lia.
From stdpp Require Import base gmap strings countable list.
From S2P Require Import Prelude BindLibrary ParserCommon BindRules SymbolTable Instruction.
From S2P Require Import RulesParser.
Local Open Scope Z_scope.

(** The mutable part of [struct Compiler]; the symbol table is shared and never
    changes. *)
Record Compiler := mkCompiler {
  emitted : list SymbolicInstructionInfo;
  next_label_id : Z;
}.

Definition new_compiler : Compiler := mkCompiler [] 0.

(** [self.instructions.push(..)]. *)
Definition push (c : Compiler) (loc : option AstLocation) (i : SymbolicInstruction) : Compiler :=
  mkCompiler (emitted c ++ [mkSymInfo loc i]) (next_label_id c).

(** [next_label_id] is a [u32], whose increment panics at its last value. *)
Definition get_unique_label (c : Compiler) : outcome CompilerError (Z * Compiler) :=
  if next_label_id c + 1 <? u32_size
  then Ok (next_label_id c, mkCompiler (emitted c) (next_label_id c + 1)) else Panic.

Section compiler.
Context (table : SymbolTable).

Definition lookup_identifier (identifier : CompoundIdentifier) : outcome CompilerError Symbol :=
  ok_or (table !! identifier) (UnknownKey identifier).

Definition lookup_value (value : Value) : outcome CompilerError Symbol :=
  match value with
  | NumericLiteral n => Ok (NumberValue n)
  | StringLiteral s => Ok (StringValue s)
  | BoolLiteral b => Ok (BoolValue b)
  | Identifier ident => ok_or (table !! ident) (UnknownKey ident)
  end.

(** The arm of [Statement::ConditionStatement]. *)
Definition compile_condition (span : Span) (condition : Condition) (c : Compiler) :
    outcome CompilerError Compiler :=
  lhs_symbol ← lookup_identifier (lhs condition);
  rhs_symbol ← lookup_value (rhs condition);
  let instruction :=
    match op condition with
    | Equals => AbortIfNotEqual lhs_symbol rhs_symbol
    | NotEquals => AbortIfEqual lhs_symbol rhs_symbol
    end in
  Ok (push c (Some (AL_ConditionStatement (ConditionStatement span condition))) instruction).

(** The arm of [Statement::Accept]: one jump per value, then the abort and the
    label the jumps lead to. *)
Definition compile_accept (span : Span) (identifier : CompoundIdentifier) (values : list Value)
    (c : Compiler) : outcome CompilerError Compiler :=
  lhs_symbol ← lookup_identifier identifier;
  '(label_id, c) ← get_unique_label c;
  c ← try_fold (λ c value,
        rhs_symbol ← lookup_value value;
        Ok (push c (Some (AL_AcceptStatementValue identifier value span))
              (JumpIfEqual lhs_symbol rhs_symbol label_id))) c values;
  let c := push c (Some (AL_AcceptStatementFailure identifier lhs_symbol span)) UnconditionalAbort in
  Ok (push c None (SLabel label_id)).

(** The jump over one block of an [If] statement. *)
Definition if_jump (condition : Condition) (lhs_symbol rhs_symbol : Symbol) (label_id : Z) :
    SymbolicInstruction :=
  match op condition with
  | Equals => JumpIfNotEqual lhs_symbol rhs_symbol label_id
  | NotEquals => JumpIfEqual lhs_symbol rhs_symbol label_id
  end.

(** [compile_statement n has_next s c] is one round of the loop of
    [compile_block] on [s]: [n] is [num_statements] and [has_next] says whether
    [iter.peek()] finds another statement. *)
Fixpoint compile_statement (num_statements : nat) (has_next : bool) (s : Statement)
    (c : Compiler) {struct s} : outcome CompilerError Compiler :=
  let compile_block stmts c :=
    (fix block (n : nat) (l : list Statement) (c : Compiler) : outcome CompilerError Compiler :=
       match l with
       | [] => Ok c
       | s :: r => c ← compile_statement n (match r with [] => false | _ => true end) s c; block n r c
       end) (length stmts) stmts c in
  match s with
  | ConditionStatement span condition => compile_condition span condition c
  | Accept span identifier values => compile_accept span identifier values c
  | If _ blocks else_block =>
    if has_next then Err IfStatementMustBeTerminal else
    '(final_label_id, c) ← get_unique_label c;
    c ← (fix go (bs : list (Condition * list Statement)) (c : Compiler) :
           outcome CompilerError Compiler :=
          match bs with
          | [] => Ok c
          | (condition, block_statements) :: r =>
            lhs_symbol ← lookup_identifier (lhs condition);
            rhs_symbol ← lookup_value (rhs condition);
            '(label_id, c) ← get_unique_label c;
            let c := push c (Some (AL_IfCondition condition))
                       (if_jump condition lhs_symbol rhs_symbol label_id) in
            c ← compile_block block_statements c;
            let c := push c None (UnconditionalJump final_label_id) in
            let c := push c None (SLabel label_id) in
            go r c
          end) blocks c;
    c ← compile_block else_block c;
    Ok (push c None (SLabel final_label_id))
  | False_ _ =>
    if negb (Nat.eqb num_statements 1) then Err FalseStatementMustBeIsolated else
    Ok (push c (Some (AL_FalseStatement s)) UnconditionalAbort)
  | True_ _ =>
    if negb (Nat.eqb num_statements 1) then Err TrueStatementMustBeIsolated else Ok c
  end.

Definition compile_block_from (n : nat) :=
  fix block (l : list Statement) (c : Compiler) : outcome CompilerError Compiler :=
    match l with
    | [] => Ok c
    | s :: r => c ← compile_statement n (match r with [] => false | _ => true end) s c; block r c
    end.

(** [compile_block]. *)
Definition compile_block (statements : list Statement) (c : Compiler) :
    outcome CompilerError Compiler :=
  compile_block_from (length statements) statements c.

(** [Compiler::compile_statements] together with the free function of the same
    name, which returns the instructions of a fresh compiler. *)
Definition compile_statements (statements : list Statement) (use_new_bytecode : bool) :
    outcome CompilerError (list SymbolicInstructionInfo) :=
  c ← compile_block statements new_compiler;
  let c := if negb use_new_bytecode then push c None UnconditionalBind else c in
  Ok (emitted c).
End compiler.

(** [CompiledBindRules::empty_bind_rules]. *)
Definition empty_bind_rules (use_new_bytecode disable_autobind_ : bool) : CompiledBindRules :=
  let instructions := if disable_autobind_ then [disable_autobind] else [] in
  let instructions :=
    if negb use_new_bytecode then instructions ++ [mkSymInfo None UnconditionalBind]
    else instructions in
  Bind (mkBindRules ∅ instructions use_new_bytecode).

(** The entry points. *)
Section entry_points.
Context `{!HashSetOrder nat}.

Definition compile_bind (rules_str : rstring) (libraries : list rstring)
    (lint disable_autobind_ use_new_bytecode : bool) : outcome CompilerError BindRules :=
  ast ← map_err CE_BindParserError (rules_try_from rules_str);
  table ← get_symbol_table_from_libraries (rules_using ast) libraries lint;
  instructions ← compile_statements table (statements ast) use_new_bytecode;
  let instructions :=
    if disable_autobind_ then disable_autobind :: instructions else instructions in
  Ok (mkBindRules table instructions use_new_bytecode).

Definition compile_bind_composite (rules_str : rstring) (libraries : list rstring)
    (lint use_new_bytecode : bool) : outcome CompilerError CompositeBindRules :=
  ast ← map_err CE_BindParserError (composite_try_from rules_str);
  table ← get_symbol_table_from_libraries (composite_using ast) libraries lint;
  primary ← compile_statements table (node_statements (ast_primary_node ast)) use_new_bytecode;
  additional ← try_map (λ node,
      inst ← compile_statements table (node_statements node) use_new_bytecode;
      Ok (mkCompositeNode (node_name node) inst)) (nodes ast);
  Ok (mkCompositeBindRules (to_string (composite_name ast)) table
        (mkCompositeNode (node_name (ast_primary_node ast)) primary) additional).

(** A source that parses as a composite is compiled as one. *)
Definition compile (rules_str : rstring) (libraries : list rstring)
    (lint disable_autobind_ use_new_bytecode : bool) : outcome CompilerError CompiledBindRules :=
  match composite_try_from rules_str with
  | Ok _ =>
    r ← compile_bind_composite rules_str libraries lint use_new_bytecode; Ok (CompositeBind r)
  | Err _ =>
    r ← compile_bind rules_str libraries lint disable_autobind_ use_new_bytecode; Ok (Bind r)
  | Panic => Panic
  end.
End entry_points.
