(* ===== verification/Bytecode.v ===== *)
(** The bind bytecode format: its constants
    ([src/devices/lib/bind/src/bytecode_constants.rs]) and the byte readers of the
    interpreter ([interpreter/common.rs]).  Bytes are [Z]s below 256; a
    [BytecodeIter] is the list of the bytes not read yet, so a reader returns the
    value read and the rest. *)
From Stdlib Require Import ZArith Lia.
From stdpp Require Import base gmap strings countable list.
From S2P Require Import Prelude.
Local Open Scope Z_scope.

(** ** Constants *)

Definition BIND_MAGIC_NUM : Z := 0x42494E44.
Definition SYMB_MAGIC_NUM : Z := 0x53594E42.
Definition INSTRUCTION_MAGIC_NUM : Z := 0x494E5354.
Definition COMPOSITE_MAGIC_NUM : Z := 0x434F4D50.
Definition BYTECODE_VERSION : Z := 2.
Definition MAX_STRING_LENGTH : Z := 255.
Definition SYMB_TBL_START_KEY : Z := 1.

Inductive RawOp :=
| EqualCondition | InequalCondition
| Op_UnconditionalJump | Op_JumpIfEqual | Op_JumpIfNotEqual
| JumpLandPad | Op_Abort.

Inductive RawValueType := VT_Key | VT_NumberValue | VT_StringValue | VT_BoolValue | VT_EnumValue.

Inductive RawNodeType := Primary | Additional.

#[export] Instance RawOp_eq_dec : EqDecision RawOp.
Proof. solve_decision. Defined.
#[export] Instance RawValueType_eq_dec : EqDecision RawValueType.
Proof. solve_decision. Defined.
#[export] Instance RawNodeType_eq_dec : EqDecision RawNodeType.
Proof. solve_decision. Defined.

(** [op as u8] and the derived [FromPrimitive]. *)
Definition RawOp_as_u8 (op : RawOp) : Z :=
  match op with
  | EqualCondition => 0x01
  | InequalCondition => 0x02
  | Op_UnconditionalJump => 0x10
  | Op_JumpIfEqual => 0x11
  | Op_JumpIfNotEqual => 0x12
  | JumpLandPad => 0x20
  | Op_Abort => 0x30
  end.

Definition RawOp_from_u8 (b : Z) : option RawOp :=
  if b =? 0x01 then Some EqualCondition else
  if b =? 0x02 then Some InequalCondition else
  if b =? 0x10 then Some Op_UnconditionalJump else
  if b =? 0x11 then Some Op_JumpIfEqual else
  if b =? 0x12 then Some Op_JumpIfNotEqual else
  if b =? 0x20 then Some JumpLandPad else
  if b =? 0x30 then Some Op_Abort else None.

Definition RawValueType_as_u8 (t : RawValueType) : Z :=
  match t with
  | VT_Key => 0
  | VT_NumberValue => 1
  | VT_StringValue => 2
  | VT_BoolValue => 3
  | VT_EnumValue => 4
  end.

Definition RawValueType_from_u8 (b : Z) : option RawValueType :=
  if b =? 0 then Some VT_Key else
  if b =? 1 then Some VT_NumberValue else
  if b =? 2 then Some VT_StringValue else
  if b =? 3 then Some VT_BoolValue else
  if b =? 4 then Some VT_EnumValue else None.

Definition RawNodeType_as_u8 (t : RawNodeType) : Z :=
  match t with
  | Primary => 0x50
  | Additional => 0x51
  end.

Definition RawNodeType_from_u8 (b : Z) : option RawNodeType :=
  if b =? 0x50 then Some Primary else
  if b =? 0x51 then Some Additional else None.

(** ** interpreter/common.rs *)

Inductive BytecodeError :=
| UnexpectedEnd
| InvalidHeader (expected actual : Z)
| InvalidVersion (version : Z)
| InvalidStringLength
| EmptyString
| Utf8ConversionFailure
| InvalidSymbolTableKey (key : Z)
| IncorrectSectionSize
| InvalidOp (op : Z)
| InvalidValueType (value_type : Z)
| InvalidBoolValue (value : Z)
| MissingEntryInSymbolTable (key : Z)
| MismatchValueTypes
| InvalidJumpLocation
| InvalidKeyType
| InvalidPrimaryNode
| MultiplePrimaryNodes
| InvalidNodeType (node_type : Z)
| IncorrectNodeSectionSize
| MissingDeviceNameInSymbolTable
| MissingNodeIdInSymbolTable.

#[export] Instance BytecodeError_eq_dec : EqDecision BytecodeError.
Proof. solve_decision. Defined.

Definition next_u8 (iter : list Z) : outcome BytecodeError (Z * list Z) :=
  match iter with
  | [] => Err UnexpectedEnd
  | b :: r => Ok (b, r)
  end.

(** The loop reads four bytes; [LittleEndian::read_u32] combines them. *)
Definition next_u32 (iter : list Z) : outcome BytecodeError (Z * list Z) :=
  '(b0, iter) ← next_u8 iter;
  '(b1, iter) ← next_u8 iter;
  '(b2, iter) ← next_u8 iter;
  '(b3, iter) ← next_u8 iter;
  Ok (from_le_bytes [b0; b1; b2; b3], iter).

(** [None] at the end of the input; an error inside the four bytes. *)
Definition try_next_u32 (iter : list Z) : outcome BytecodeError (option Z * list Z) :=
  match iter with
  | [] => Ok (None, [])
  | b0 :: iter =>
    '(b1, iter) ← next_u8 iter;
    '(b2, iter) ← next_u8 iter;
    '(b3, iter) ← next_u8 iter;
    Ok (Some (from_le_bytes [b0; b1; b2; b3]), iter)
  end.

(** ** Lemmas *)

Lemma RawOp_from_as op : RawOp_from_u8 (RawOp_as_u8 op) = Some op.
Proof. by destruct op. Qed.

Lemma RawValueType_from_as t : RawValueType_from_u8 (RawValueType_as_u8 t) = Some t.
Proof. by destruct t. Qed.

Lemma RawNodeType_from_as t : RawNodeType_from_u8 (RawNodeType_as_u8 t) = Some t.
Proof. by destruct t. Qed.

Lemma next_u32_app x rest :
  is_u32 x → next_u32 (to_le_bytes 4 x ++ rest) = Ok (x, rest).
Proof.
  intros Hx. transitivity (Ok (from_le_bytes (to_le_bytes 4 x), rest) : outcome BytecodeError _).
  - reflexivity.
  - by rewrite from_to_le_bytes_u32.
Qed.

Lemma try_next_u32_app x rest :
  is_u32 x → try_next_u32 (to_le_bytes 4 x ++ rest) = Ok (Some x, rest).
Proof.
  intros Hx.
  transitivity (Ok (Some (from_le_bytes (to_le_bytes 4 x)), rest) : outcome BytecodeError _).
  - reflexivity.
  - by rewrite from_to_le_bytes_u32.
Qed.

(** A reader that succeeds consumed a prefix. *)
Lemma next_u32_length iter x rest :
  next_u32 iter = Ok (x, rest) → length iter = (4 + length rest)%nat.
Proof.
  destruct iter as [|b0 [|b1 [|b2 [|b3 r]]]]; cbn; try done.
  by intros [= _ <-].
Qed.

Lemma try_next_u32_length iter x rest :
  try_next_u32 iter = Ok (Some x, rest) → length iter = (4 + length rest)%nat.
Proof.
  destruct iter as [|b0 [|b1 [|b2 [|b3 r]]]]; cbn; try done.
  by intros [= _ <-].
Qed.

Lemma next_u32_range iter x rest :
  all_u8 iter → next_u32 iter = Ok (x, rest) → is_u32 x ∧ all_u8 rest.
Proof.
  destruct iter as [|b0 [|b1 [|b2 [|b3 r]]]]; cbn [next_u32 next_u8 mbind outcome_bind]; try done.
  intros Hall [= <- <-].
  change (all_u8 ([b0; b1; b2; b3] ++ r)) in Hall.
  apply Forall_app in Hall as [H4 Hr]. split; [|done].
  apply (from_le_bytes_range _ H4).
Qed.

Lemma next_u8_no_panic iter : no_panic (next_u8 iter).
Proof. by destruct iter. Qed.

Lemma next_u32_no_panic iter : no_panic (next_u32 iter).
Proof. by destruct iter as [|b0 [|b1 [|b2 [|b3 r]]]]. Qed.

Lemma try_next_u32_no_panic iter : no_panic (try_next_u32 iter).
Proof. by destruct iter as [|b0 [|b1 [|b2 [|b3 r]]]]. Qed.

#[export] Hint Resolve next_u8_no_panic next_u32_no_panic try_next_u32_no_panic : outcomes.
