(* ===== verification/DecodeBindRules.v ===== *)
(** Decoding bind bytecode into its sections
    ([src/devices/lib/bind/src/interpreter/decode_bind_rules.rs]). *)
From Stdlib Require Import ZArith Lia.
From stdpp Require Import base gmap strings countable list.
From S2P Require Import Prelude Bytecode.
Local Open Scope Z_scope.

Definition HEADER_SZ : Z := 8.
Definition NODE_TYPE_HEADER_SZ : Z := 9.
Definition MINIMUM_BYTECODE_SZ : Z := HEADER_SZ * 3.

Record Node := mkNode {
  name_id : Z;
  node_instructions : list Z;
}.

Record DecodedBindRules := mkDecodedBindRules {
  symbol_table : gmap Z rstring;
  instructions : list Z;
}.

Record DecodedCompositeBindRules := mkDecodedCompositeBindRules {
  composite_symbol_table : gmap Z rstring;
  device_name_id : Z;
  primary_node : Node;
  additional_nodes : list Node;
}.

Inductive DecodedRules :=
| Normal (rules : DecodedBindRules)
| Composite (rules : DecodedCompositeBindRules).

#[export] Instance Node_eq_dec : EqDecision Node.
Proof. solve_decision. Defined.

Definition get_u32_bytes (bytecode : list Z) (idx : Z) : outcome BytecodeError (list Z) :=
  if idx + 4 >? len bytecode then Err UnexpectedEnd else
  b0 ← index bytecode idx;
  b1 ← index bytecode (idx + 1);
  b2 ← index bytecode (idx + 2);
  b3 ← index bytecode (idx + 3);
  Ok [b0; b1; b2; b3].

(** The magic number is big-endian, the value after it little-endian. *)
Definition read_and_remove_header (bytecode : list Z) (magic_num : Z) :
    outcome BytecodeError (Z * list Z) :=
  magic_bytes ← get_u32_bytes bytecode 0;
  let parsed_magic_num := from_be_bytes magic_bytes in
  if negb (parsed_magic_num =? magic_num) then Err (InvalidHeader magic_num parsed_magic_num) else
  val_bytes ← get_u32_bytes bytecode 4;
  '(_, rest) ← split_off bytecode HEADER_SZ;
  Ok (from_le_bytes val_bytes, rest).

Definition verify_and_read_node_header (bytecode : list Z) (expected_node_type : RawNodeType) :
    outcome BytecodeError (Z * Z) :=
  if len bytecode <? NODE_TYPE_HEADER_SZ then Err UnexpectedEnd else
  b ← index bytecode 0;
  _ ← match RawNodeType_from_u8 b with
      | Some Primary =>
        if bool_decide (expected_node_type = Additional) then Err MultiplePrimaryNodes else Ok ()
      | Some Additional =>
        if bool_decide (expected_node_type = Primary) then Err InvalidPrimaryNode else Ok ()
      | None => Err (InvalidNodeType b)
      end;
  node_id ← get_u32_bytes bytecode 1;
  inst_sz ← get_u32_bytes bytecode 5;
  Ok (from_le_bytes node_id, from_le_bytes inst_sz).

(** The loop of [read_string]: bytes up to the zero terminator; [str_bytes] are
    the bytes pushed so far. *)
Fixpoint read_string_bytes (iter : list Z) (str_bytes : list Z) :
    outcome BytecodeError (list Z * list Z) :=
  match iter with
  | [] => Err UnexpectedEnd
  | byte :: iter =>
    if byte =? 0 then Ok (str_bytes, iter) else
    let str_bytes := str_bytes ++ [byte] in
    if len str_bytes >? MAX_STRING_LENGTH then Err InvalidStringLength else
    read_string_bytes iter str_bytes
  end.

Definition read_string (iter : list Z) : outcome BytecodeError (rstring * list Z) :=
  '(str_bytes, iter) ← read_string_bytes iter [];
  if bool_decide (str_bytes = []) then Err EmptyString else
  if utf8_valid str_bytes then Ok (str_bytes, iter) else Err Utf8ConversionFailure.

(** The loop of [read_symbol_table].  Every round consumes at least five bytes,
    so the number of bytes is enough fuel ([read_symbol_table_terminates]);
    [expected_key] is a [u32], whose increment panics at its last value. *)
Fixpoint read_symbol_table_loop (fuel : nat) (iter : list Z) (symbol_table : gmap Z rstring)
    (expected_key : Z) : option (outcome BytecodeError (gmap Z rstring)) :=
  match fuel with
  | O => None
  | S fuel =>
    match try_next_u32 iter with
    | Ok (Some key, iter) =>
      if negb (key =? expected_key) then Some (Err (InvalidSymbolTableKey key)) else
      match read_string iter with
      | Ok (str_val, iter) =>
        if expected_key + 1 <? u32_size then
          read_symbol_table_loop fuel iter (<[key := str_val]> symbol_table) (expected_key + 1)
        else Some Panic
      | Err e => Some (Err e)
      | Panic => Some Panic
      end
    | Ok (None, _) => Some (Ok symbol_table)
    | Err e => Some (Err e)
    | Panic => Some Panic
    end
  end.

Definition read_symbol_table (bytecode : list Z) : outcome BytecodeError (gmap Z rstring) :=
  default Panic (read_symbol_table_loop (S (length bytecode)) bytecode ∅ SYMB_TBL_START_KEY).

Definition get_symbol_table_and_instruction_bytecode (bytecode : list Z) :
    outcome BytecodeError (gmap Z rstring * list Z) :=
  if len bytecode <? MINIMUM_BYTECODE_SZ then Err UnexpectedEnd else
  '(version, bytecode) ← read_and_remove_header bytecode BIND_MAGIC_NUM;
  if negb (version =? BYTECODE_VERSION) then Err (InvalidVersion version) else
  '(symbol_table_sz, symbol_table_bytecode) ← read_and_remove_header bytecode SYMB_MAGIC_NUM;
  if len symbol_table_bytecode <? symbol_table_sz + HEADER_SZ then Err IncorrectSectionSize else
  '(symbol_table_bytecode, inst_bytecode) ← split_off symbol_table_bytecode symbol_table_sz;
  symbol_table ← read_symbol_table symbol_table_bytecode;
  Ok (symbol_table, inst_bytecode).

Definition split_off_node (bytecode : list Z) (node_type : RawNodeType)
    (symbol_table : gmap Z rstring) : outcome BytecodeError (Node * list Z) :=
  '(node_id, node_inst_sz) ← verify_and_read_node_header bytecode node_type;
  if len bytecode <? NODE_TYPE_HEADER_SZ + node_inst_sz then Err IncorrectNodeSectionSize else
  if negb (bool_decide (is_Some (symbol_table !! node_id))) then Err MissingNodeIdInSymbolTable else
  '(_, node_instructions) ← split_off bytecode NODE_TYPE_HEADER_SZ;
  '(node_instructions, remaining_bytecode) ← split_off node_instructions node_inst_sz;
  Ok (mkNode node_id node_instructions, remaining_bytecode).

(** [DecodedBindRules::new] and [DecodedBindRules::from_bytecode]. *)
Definition DecodedBindRules_new (symbol_table : gmap Z rstring) (inst_bytecode : list Z) :
    outcome BytecodeError DecodedBindRules :=
  '(inst_sz, inst_bytecode) ← read_and_remove_header inst_bytecode INSTRUCTION_MAGIC_NUM;
  if negb (len inst_bytecode =? inst_sz) then Err IncorrectSectionSize else
  Ok (mkDecodedBindRules symbol_table inst_bytecode).

Definition DecodedBindRules_from_bytecode (bytecode : list Z) :
    outcome BytecodeError DecodedBindRules :=
  '(symbol_table, inst_bytecode) ← get_symbol_table_and_instruction_bytecode bytecode;
  DecodedBindRules_new symbol_table inst_bytecode.

(** The loop that extracts the additional nodes; every round removes at least
    the nine bytes of a node header. *)
Fixpoint read_additional_nodes (fuel : nat) (node_bytecode : list Z)
    (symbol_table : gmap Z rstring) (additional_nodes : list Node) :
    option (outcome BytecodeError (list Node)) :=
  match fuel with
  | O => None
  | S fuel =>
    match node_bytecode with
    | [] => Some (Ok additional_nodes)
    | _ =>
      match split_off_node node_bytecode Additional symbol_table with
      | Ok (node, remaining) =>
        read_additional_nodes fuel remaining symbol_table (additional_nodes ++ [node])
      | Err e => Some (Err e)
      | Panic => Some Panic
      end
    end
  end.

(** [DecodedCompositeBindRules::new] and [from_bytecode]. *)
Definition DecodedCompositeBindRules_new (symbol_table : gmap Z rstring)
    (composite_inst_bytecode : list Z) : outcome BytecodeError DecodedCompositeBindRules :=
  '(composite_inst_sz, composite_inst_bytecode) ←
    read_and_remove_header composite_inst_bytecode COMPOSITE_MAGIC_NUM;
  if negb (len composite_inst_bytecode =? composite_inst_sz) then Err IncorrectSectionSize else
  id_bytes ← get_u32_bytes composite_inst_bytecode 0;
  let device_name_id := from_le_bytes id_bytes in
  if negb (bool_decide (is_Some (symbol_table !! device_name_id)))
  then Err MissingDeviceNameInSymbolTable else
  '(_, node_bytecode) ← split_off composite_inst_bytecode 4;
  '(primary_node, node_bytecode) ← split_off_node node_bytecode Primary symbol_table;
  additional_nodes ← default Panic
    (read_additional_nodes (S (length node_bytecode)) node_bytecode symbol_table []);
  Ok (mkDecodedCompositeBindRules symbol_table device_name_id primary_node additional_nodes).

Definition DecodedCompositeBindRules_from_bytecode (bytecode : list Z) :
    outcome BytecodeError DecodedCompositeBindRules :=
  '(symbol_table, inst_bytecode) ← get_symbol_table_and_instruction_bytecode bytecode;
  DecodedCompositeBindRules_new symbol_table inst_bytecode.

(** [DecodedRules::new]. *)
Definition DecodedRules_new (bytecode : list Z) : outcome BytecodeError DecodedRules :=
  '(symbol_table, inst_bytecode) ← get_symbol_table_and_instruction_bytecode bytecode;
  magic_bytes ← get_u32_bytes inst_bytecode 0;
  let parsed_magic_num := from_be_bytes magic_bytes in
  if parsed_magic_num =? COMPOSITE_MAGIC_NUM then
    rules ← DecodedCompositeBindRules_new symbol_table inst_bytecode; Ok (Composite rules)
  else
    rules ← DecodedBindRules_new symbol_table inst_bytecode; Ok (Normal rules).
