(* ===== verification/MatchBind.v ===== *)
(** Matching device properties against bind bytecode
    ([src/devices/lib/bind/src/interpreter/match_bind.rs]): the [DeviceMatcher]
    interpreter. *)
From Stdlib Require Import ZArith Lia.
From stdpp Require Import base gmap strings countable list.
From S2P Require Import Prelude BindLibrary SymbolTable Bytecode DecodeBindRules.
Local Open Scope Z_scope.

Inductive Condition := Unconditional | Equal | Inequal.

#[export] Instance Condition_eq_dec : EqDecision Condition.
Proof. solve_decision. Defined.

Inductive PropertyKey :=
| NumberKey (n : Z)
| StringKey (s : rstring).

#[export] Instance PropertyKey_eq_dec : EqDecision PropertyKey.
Proof. solve_decision. Defined.
#[export] Instance PropertyKey_countable : Countable PropertyKey.
Proof.
  refine (inj_countable' (λ k, match k with NumberKey n => inl n | StringKey s => inr s end)
            (λ x, match x with inl n => NumberKey n | inr s => StringKey s end) _).
  by intros [].
Defined.

Abbreviation DeviceProperties := (gmap PropertyKey Symbol).

(** [std::mem::discriminant]. *)
Definition discriminant (s : Symbol) : Z :=
  match s with
  | DeprecatedKey _ => 0
  | Key _ _ => 1
  | NumberValue _ => 2
  | StringValue _ => 3
  | BoolValue _ => 4
  | EnumValue _ => 5
  end.

(** The last arm is the explicit [panic!]. *)
Definition compare_symbols (condition : Condition) (lhs rhs : Symbol) :
    outcome BytecodeError bool :=
  if negb (discriminant lhs =? discriminant rhs) then Err MismatchValueTypes else
  match condition with
  | Equal => Ok (bool_decide (lhs = rhs))
  | Inequal => Ok (negb (bool_decide (lhs = rhs)))
  | Unconditional => Panic
  end.

Section matcher.
Context (properties : DeviceProperties) (table : gmap Z rstring).

Definition lookup_symbol_table (key : Z) : outcome BytecodeError rstring :=
  ok_or (table !! key) (MissingEntryInSymbolTable key).

Definition read_next_value (iter : list Z) : outcome BytecodeError (Symbol * list Z) :=
  '(value_type, iter) ← next_u8 iter;
  value_type ← ok_or (RawValueType_from_u8 value_type) (InvalidValueType value_type);
  '(value, iter) ← next_u32 iter;
  symbol ← match value_type with
           | VT_NumberValue => Ok (NumberValue value)
           | VT_Key => s ← lookup_symbol_table value; Ok (Key s Str)
           | VT_StringValue => s ← lookup_symbol_table value; Ok (StringValue s)
           | VT_BoolValue =>
             if value =? 0 then Ok (BoolValue false) else
             if value =? 1 then Ok (BoolValue true) else Err (InvalidBoolValue value)
           | VT_EnumValue => s ← lookup_symbol_table value; Ok (EnumValue s)
           end;
  Ok (symbol, iter).

Definition read_and_evaluate_values (condition : Condition) (iter : list Z) :
    outcome BytecodeError (bool * list Z) :=
  '(key_symbol, iter) ← read_next_value iter;
  property_key ← match key_symbol with
                 | NumberValue key => Ok (NumberKey key)
                 | StringValue key => Ok (StringKey key)
                 | Key key _ => Ok (StringKey key)
                 | _ => Err InvalidKeyType
                 end;
  '(bind_value, iter) ← read_next_value iter;
  b ← match properties !! property_key with
      | None => Ok (bool_decide (condition = Inequal))
      | Some device_value => compare_symbols condition device_value bind_value
      end;
  Ok (b, iter).

(** [evaluate_condition_inst] panics on any other operation. *)
Definition evaluate_condition_inst (op : RawOp) (iter : list Z) :
    outcome BytecodeError (bool * list Z) :=
  condition ← match op with
              | EqualCondition => Ok Equal
              | InequalCondition => Ok Inequal
              | _ => Panic
              end;
  read_and_evaluate_values condition iter.

(** [for _ in 0..offset { next_u8(&mut self.iter)?; }]. *)
Fixpoint skip_bytes (iter : list Z) (offset : Z) : outcome BytecodeError (list Z) :=
  if offset <=? 0 then Ok iter else
  match iter with
  | [] => Err UnexpectedEnd
  | _ :: r => skip_bytes r (offset - 1)
  end.

Definition evaluate_jump_inst (condition : Condition) (iter : list Z) :
    outcome BytecodeError (list Z) :=
  '(offset, iter) ← next_u32 iter;
  '(taken, iter) ← (if bool_decide (condition = Unconditional) then Ok (true, iter)
                    else read_and_evaluate_values condition iter);
  if negb taken then Ok iter else
  iter ← skip_bytes iter offset;
  '(b, iter) ← next_u8 iter;
  if negb (b =? RawOp_as_u8 JumpLandPad) then Err InvalidJumpLocation else Ok iter.

(** One round of the [while let] loop on the operation [byte]: [inl b] returns
    [b] from the function, [inr iter] goes on. *)
Definition match_step (byte : Z) (iter : list Z) : outcome BytecodeError (bool + list Z) :=
  op_byte ← ok_or (RawOp_from_u8 byte) (InvalidOp byte);
  match op_byte with
  | EqualCondition | InequalCondition =>
    '(b, iter) ← evaluate_condition_inst op_byte iter;
    Ok (if negb b then inl false else inr iter)
  | Op_Abort => Ok (inl false)
  | Op_UnconditionalJump => iter ← evaluate_jump_inst Unconditional iter; Ok (inr iter)
  | Op_JumpIfEqual => iter ← evaluate_jump_inst Equal iter; Ok (inr iter)
  | Op_JumpIfNotEqual => iter ← evaluate_jump_inst Inequal iter; Ok (inr iter)
  | JumpLandPad => Ok (inr iter)
  end.

(** The loop; [None] when the fuel runs out. *)
Fixpoint match_loop (fuel : nat) (iter : list Z) : option (outcome BytecodeError bool) :=
  match fuel with
  | O => None
  | S fuel =>
    match iter with
    | [] => Some (Ok true)
    | byte :: iter =>
      match match_step byte iter with
      | Ok (inl b) => Some (Ok b)
      | Ok (inr iter) => match_loop fuel iter
      | Err e => Some (Err e)
      | Panic => Some Panic
      end
    end
  end.

(** [DeviceMatcher::match_bind] on [instructions]: every round consumes a byte,
    so the default is never used ([match_loop_terminates]). *)
Definition device_match_bind (instructions : list Z) : outcome BytecodeError bool :=
  default Panic (match_loop (S (length instructions)) instructions).
End matcher.

Definition match_bytecode (bytecode : list Z) (properties : DeviceProperties) :
    outcome BytecodeError bool :=
  decoded_bind_rules ← DecodedBindRules_from_bytecode bytecode;
  device_match_bind properties (symbol_table decoded_bind_rules) (instructions decoded_bind_rules).

Record MatchBindData := mkMatchBindData {
  bind_data_symbol_table : gmap Z rstring;
  bind_data_instructions : list Z;
}.

Definition match_bind (bind_data : MatchBindData) (properties : DeviceProperties) :
    outcome BytecodeError bool :=
  device_match_bind properties (bind_data_symbol_table bind_data)
    (bind_data_instructions bind_data).
