(* ===== verification/InstructionEncoder.v ===== *)
(** The encoder of the bytecode symbol table
    ([src/devices/lib/bind/src/bytecode_encoder/symbol_table_encoder.rs]), and the encoder of
    instructions into bytecode, with its label map and the backpatching of jump offsets
    ([instruction_encoder.rs]). *)
From Stdlib Require Import ZArith Lia.
From stdpp Require Import base gmap strings countable list.
From S2P Require Import Prelude BindLibrary SymbolTable Instruction Bytecode.
Local Open Scope Z_scope.

(** [unique_key] is a [u32]; it would overflow only past 2^32 symbols. *)
Record SymbolTableEncoder := mkSymbolTableEncoder {
  encoded_symbols : gmap rstring Z;
  unique_key : Z;
  table_bytecode : list Z;
}.

Definition new_encoder : SymbolTableEncoder := mkSymbolTableEncoder ∅ SYMB_TBL_START_KEY [].

(** [unique_key] is a [u32], whose increment panics at its last value. *)
Definition add_symbol (e : SymbolTableEncoder) (value : rstring) :
    outcome BindRulesEncodeError (Z * SymbolTableEncoder) :=
  if len value >? MAX_STRING_LENGTH then Err (Instruction.InvalidStringLength value) else
  let symbol_key := unique_key e in
  if unique_key e + 1 <? u32_size then
    Ok (symbol_key,
        mkSymbolTableEncoder
          (<[value := unique_key e]> (encoded_symbols e))
          (unique_key e + 1)
          (table_bytecode e ++ to_le_bytes 4 (unique_key e) ++ value ++ [0]))
  else Panic.

(** The key of [value], which is added when missing. *)
Definition get_key (e : SymbolTableEncoder) (value : rstring) :
    outcome BindRulesEncodeError (Z * SymbolTableEncoder) :=
  match encoded_symbols e !! value with
  | Some key => Ok (key, e)
  | None => add_symbol e value
  end.

(** ** The encoder of instructions *)

(** Where a jump's offset is in the bytecode, and how many bytes separate it
    from the end of the jump instruction. *)
Record JumpInstructionOffsetInfo := mkJump {
  jump_index : Z;
  inst_offset : Z;
}.

Record LabelInfo := mkLabelInfo {
  label_index : option Z;
  jump_instructions : list JumpInstructionOffsetInfo;
}.

(** The state of [encode]: the label map of the encoder, the bytecode built so
    far, and the symbol table encoder it mutates. *)
Record EncoderState := mkEncoderState {
  label_map : gmap Z LabelInfo;
  bytecode : list Z;
  symbols : SymbolTableEncoder;
}.

(** [bytecode.push(b)] and [bytecode.extend_from_slice(bs)]. *)
Definition append_bytes (st : EncoderState) (bs : list Z) : EncoderState :=
  mkEncoderState (label_map st) (bytecode st ++ bs) (symbols st).

Definition is_symbol_key (key : Symbol) : bool :=
  match key with
  | DeprecatedKey _ | Key _ _ => true
  | _ => false
  end.

(** [value as u32] truncates a number; strings go through the symbol table. *)
Definition append_value (st : EncoderState) (symbol : Symbol) :
    outcome BindRulesEncodeError EncoderState :=
  '(value_type, value, symbols') ←
    match symbol with
    | NumberValue value => Ok (VT_NumberValue, as_u32 value, symbols st)
    | BoolValue value => Ok (VT_BoolValue, if value then 1 else 0, symbols st)
    | StringValue value =>
      '(key, e) ← get_key (symbols st) value; Ok (VT_StringValue, key, e)
    | Key key _ =>
      '(key, e) ← get_key (symbols st) key; Ok (VT_Key, key, e)
    | DeprecatedKey key => Ok (VT_NumberValue, key, symbols st)
    | EnumValue value =>
      '(key, e) ← get_key (symbols st) value; Ok (VT_EnumValue, key, e)
    end;
  Ok (mkEncoderState (label_map st)
        (bytecode st ++ RawValueType_as_u8 value_type :: to_le_bytes 4 value) symbols').

(** The type of the value on the right of a comparison; [None] for a key. *)
Definition rhs_value_type (rhs : Symbol) : option ValueType :=
  match rhs with
  | NumberValue _ => Some Number
  | StringValue _ => Some Str
  | BoolValue _ => Some Bool
  | EnumValue _ => Some Enum
  | _ => None
  end.

Definition append_value_comparison (st : EncoderState) (lhs rhs : Symbol) :
    outcome BindRulesEncodeError EncoderState :=
  if negb (is_symbol_key lhs) then Err IncorrectTypesInValueComparison else
  rhs_val_type ← ok_or (rhs_value_type rhs) IncorrectTypesInValueComparison;
  _ ← match lhs with
      | Key _ lhs_val_type =>
        if negb (bool_decide (lhs_val_type = rhs_val_type))
        then Err (EE_MismatchValueTypes lhs_val_type rhs_val_type) else Ok ()
      | _ => Ok ()
      end;
  st ← append_value st lhs;
  append_value st rhs.

(** The encoded condition is the opposite one: the matcher stops when a
    condition fails. *)
Definition append_abort_instruction (st : EncoderState) (condition : InstCondition) :
    outcome BindRulesEncodeError EncoderState :=
  match condition with
  | Always => Ok (append_bytes st [RawOp_as_u8 Op_Abort])
  | Equal lhs rhs =>
    append_value_comparison (append_bytes st [RawOp_as_u8 InequalCondition]) lhs rhs
  | NotEqual lhs rhs =>
    append_value_comparison (append_bytes st [RawOp_as_u8 EqualCondition]) lhs rhs
  end.

(** [data.index.is_some()] for the entry of [label_id]. *)
Definition label_placed (m : gmap Z LabelInfo) (label_id : Z) : bool :=
  match m !! label_id with
  | Some data => match label_index data with Some _ => true | None => false end
  | None => false
  end.

Definition append_jmp_statement (st : EncoderState) (condition : InstCondition) (label_id : Z) :
    outcome BindRulesEncodeError EncoderState :=
  let offset_index := len (bytecode st) + 1 in
  let placeholder_offset := to_le_bytes 4 0 in
  st ← match condition with
       | Always =>
         Ok (append_bytes st (RawOp_as_u8 Op_UnconditionalJump :: placeholder_offset))
       | Equal lhs rhs =>
         append_value_comparison
           (append_bytes st (RawOp_as_u8 Op_JumpIfEqual :: placeholder_offset)) lhs rhs
       | NotEqual lhs rhs =>
         append_value_comparison
           (append_bytes st (RawOp_as_u8 Op_JumpIfNotEqual :: placeholder_offset)) lhs rhs
       end;
  if label_placed (label_map st) label_id then Err (InvalidGotoLocation label_id) else
  let data := default (mkLabelInfo None []) (label_map st !! label_id) in
  let jump := mkJump offset_index (len (bytecode st) - offset_index) in
  Ok (mkEncoderState
        (<[label_id := mkLabelInfo (label_index data) (jump_instructions data ++ [jump])]>
           (label_map st))
        (bytecode st) (symbols st)).

Definition append_and_update_label (st : EncoderState) (label_id : Z) :
    outcome BindRulesEncodeError EncoderState :=
  if label_placed (label_map st) label_id then Err (DuplicateLabel label_id) else
  let data := default (mkLabelInfo None []) (label_map st !! label_id) in
  Ok (mkEncoderState
        (<[label_id := mkLabelInfo (Some (len (bytecode st))) (jump_instructions data)]>
           (label_map st))
        (bytecode st ++ [RawOp_as_u8 JumpLandPad]) (symbols st)).

(** One round of the loop of [encode]. *)
Definition encode_step (st : EncoderState) (symbolic_inst : SymbolicInstructionInfo) :
    outcome BindRulesEncodeError EncoderState :=
  match instruction (info_to_instruction symbolic_inst) with
  | Abort condition => append_abort_instruction st condition
  | Goto condition label => append_jmp_statement st condition label
  | Label label_id => append_and_update_label st label_id
  | Match _ => Err MatchNotSupported
  end.

(** [label_index - usage.index - usage.inst_offset] underflows, and panics, when
    the label is before the end of the jump; [bytecode[usage.index + i]] panics
    out of range. *)
Definition patch_jump (label_id lbl_index : Z) (bytecode : list Z)
    (usage : JumpInstructionOffsetInfo) : outcome BindRulesEncodeError (list Z) :=
  let offset := lbl_index - jump_index usage - inst_offset usage in
  if offset <? 0 then Panic else
  offset ← ok_or (try_u32 offset) (JumpOffsetOutOfRange label_id);
  try_fold (λ bytecode '(i, b), index_set bytecode (jump_index usage + i) b) bytecode
    (zip [0; 1; 2; 3] (to_le_bytes 4 offset)).

Definition patch_label (bytecode : list Z) (entry : Z * LabelInfo) :
    outcome BindRulesEncodeError (list Z) :=
  let '(label_id, data) := entry in
  match label_index data with
  | None => Err (MissingLabel label_id)
  | Some lbl_index => try_fold (patch_jump label_id lbl_index) bytecode (jump_instructions data)
  end.

Section encode.
Context `{!HashMapOrder Z LabelInfo}.

(** [InstructionEncoder::new(instructions).encode(symbol_table_encoder)]. *)
Definition encode_instructions (instructions : list SymbolicInstructionInfo)
    (symbol_table_encoder : SymbolTableEncoder) :
    outcome BindRulesEncodeError (list Z * SymbolTableEncoder) :=
  st ← try_fold encode_step (mkEncoderState ∅ [] symbol_table_encoder) instructions;
  bytecode ← try_fold patch_label (bytecode st) (hash_map_iter (label_map st));
  Ok (bytecode, symbols st).
End encode.
