(* ===== verification/EncodeV2.v ===== *)
(** The encoders of the current bytecode format
    ([src/devices/lib/bind/src/bytecode_encoder/encode_v2.rs]). *)
From Stdlib Require Import ZArith Lia.
From stdpp Require Import base gmap strings countable list.
From S2P Require Import Prelude BindLibrary SymbolTable Instruction Bytecode InstructionEncoder.
From S2P Require Import InstructionEncoder.
Local Open Scope Z_scope.

Section encode.
Context `{!HashMapOrder Z LabelInfo}.

(** The header and the sections, as both encoders lay them out; [magic] is the
    magic number of the instruction section.  A section size is the length
    [as u32]. *)
Definition assemble (table_bytecode : list Z) (magic : Z) (inst_bytecode : list Z) : list Z :=
  to_be_bytes 4 BIND_MAGIC_NUM ++ to_le_bytes 4 BYTECODE_VERSION ++
  to_be_bytes 4 SYMB_MAGIC_NUM ++ to_le_bytes 4 (as_u32 (len table_bytecode)) ++ table_bytecode ++
  to_be_bytes 4 magic ++ to_le_bytes 4 (as_u32 (len inst_bytecode)) ++ inst_bytecode.

Definition encode_to_bytecode_v2 (bind_rules : BindRules) :
    outcome BindRulesEncodeError (list Z) :=
  '(instruction_bytecode, encoder) ← encode_instructions (instructions bind_rules) new_encoder;
  Ok (assemble (table_bytecode encoder) INSTRUCTION_MAGIC_NUM instruction_bytecode).

(** The bytes appended for one node, and the symbol table encoder after it. *)
Definition append_composite_node (bytecode : list Z) (node : CompositeNode) (is_primary : bool)
    (symbol_table_encoder : SymbolTableEncoder) :
    outcome BindRulesEncodeError (list Z * SymbolTableEncoder) :=
  if bool_decide (cn_name node = []) then Err MissingCompositeNodeName else
  let bytecode :=
    bytecode ++ [RawNodeType_as_u8 (if is_primary then Primary else Additional)] in
  '(key, symbol_table_encoder) ← get_key symbol_table_encoder (cn_name node);
  let bytecode := bytecode ++ to_le_bytes 4 key in
  '(inst_bytecode, symbol_table_encoder) ←
    encode_instructions (cn_instructions node) symbol_table_encoder;
  Ok (bytecode ++ to_le_bytes 4 (as_u32 (len inst_bytecode)) ++ inst_bytecode,
      symbol_table_encoder).

(** One round of the loop over the additional nodes; [node_names] are the names
    seen so far. *)
Definition append_additional_node
    (st : list Z * SymbolTableEncoder * gset rstring) (node : CompositeNode) :
    outcome BindRulesEncodeError (list Z * SymbolTableEncoder * gset rstring) :=
  let '(inst_bytecode, encoder, node_names) := st in
  if bool_decide (cn_name node ∈ node_names)
  then Err (DuplicateCompositeNodeName (cn_name node)) else
  let node_names := {[cn_name node]} ∪ node_names in
  '(inst_bytecode, encoder) ← append_composite_node inst_bytecode node false encoder;
  Ok (inst_bytecode, encoder, node_names).

Definition encode_composite_to_bytecode (bind_rules : CompositeBindRules) :
    outcome BindRulesEncodeError (list Z) :=
  if bool_decide (device_name bind_rules = []) then Err MissingCompositeDeviceName else
  '(device_name_id, encoder) ← get_key new_encoder (device_name bind_rules);
  let inst_bytecode := to_le_bytes 4 device_name_id in
  let node_names : gset rstring := {[cn_name (primary_node bind_rules)]} in
  '(inst_bytecode, encoder) ←
    append_composite_node inst_bytecode (primary_node bind_rules) true encoder;
  '(inst_bytecode, encoder, _) ←
    try_fold append_additional_node (inst_bytecode, encoder, node_names)
      (additional_nodes bind_rules);
  Ok (assemble (table_bytecode encoder) COMPOSITE_MAGIC_NUM inst_bytecode).
End encode.
