(* ===== verification/Truncation.v ===== *)
(** The current bytecode keeps 32 bits of a number: rules whose numbers agree modulo
    2^32 have the same bytecode, although a number of the source has 64 bits and the old
    format rejects the larger ones. *)
From Stdlib Require Import ZArith Lia.
From stdpp Require Import base gmap strings countable list.
From S2P Require Import Prelude BindLibrary SymbolTable Instruction Bytecode InstructionEncoder.
From S2P Require Import InstructionEncoder EncodeV2.
Local Open Scope Z_scope.

(** The numbers of the instructions, modulo 2^32. *)
Definition cut_symbol (s : Symbol) : Symbol :=
  match s with
  | NumberValue n => NumberValue (n mod u32_size)
  | _ => s
  end.

Definition cut_symbolic (i : SymbolicInstruction) : SymbolicInstruction :=
  match i with
  | AbortIfEqual lhs rhs => AbortIfEqual (cut_symbol lhs) (cut_symbol rhs)
  | AbortIfNotEqual lhs rhs => AbortIfNotEqual (cut_symbol lhs) (cut_symbol rhs)
  | JumpIfEqual lhs rhs label => JumpIfEqual (cut_symbol lhs) (cut_symbol rhs) label
  | JumpIfNotEqual lhs rhs label => JumpIfNotEqual (cut_symbol lhs) (cut_symbol rhs) label
  | _ => i
  end.

Definition cut_info (i : SymbolicInstructionInfo) : SymbolicInstructionInfo :=
  mkSymInfo (location i) (cut_symbolic (sym_instruction i)).

Definition cut_rules (rules : BindRules) : BindRules :=
  mkBindRules (symbol_table rules) (cut_info <$> instructions rules) (use_new_bytecode rules).

Lemma append_value_cut st s : append_value st (cut_symbol s) = append_value st s.
Proof. destruct s; try done. cbn. unfold as_u32. by rewrite Z.mod_mod. Qed.

Lemma append_value_comparison_cut st lhs rhs :
  append_value_comparison st (cut_symbol lhs) (cut_symbol rhs) = append_value_comparison st lhs rhs.
Proof.
  unfold append_value_comparison.
  replace (rhs_value_type (cut_symbol rhs)) with (rhs_value_type rhs) by by destruct rhs.
  destruct lhs as [k|k ty| | | |]; cbn [cut_symbol is_symbol_key negb]; try done;
    (destruct (ok_or _ _) as [ty'|e|]; cbn [mbind outcome_bind]; [|done..]).
  - destruct (append_value st _) as [st'|e|]; cbn [mbind outcome_bind]; [apply append_value_cut|done..].
  - destruct (negb _); cbn [mbind outcome_bind]; [done|].
    destruct (append_value st _) as [st'|e|]; cbn [mbind outcome_bind]; [apply append_value_cut|done..].
Qed.

Lemma encode_step_cut st i : encode_step st (cut_info i) = encode_step st i.
Proof.
  unfold encode_step. destruct i as [l []]; cbn; unfold append_jmp_statement; cbn;
    by rewrite ?append_value_comparison_cut.
Qed.

Lemma encode_instructions_cut `{!HashMapOrder Z LabelInfo} is_ encoder :
  encode_instructions (cut_info <$> is_) encoder = encode_instructions is_ encoder.
Proof.
  unfold encode_instructions. f_equal. generalize (mkEncoderState ∅ [] encoder) as st.
  induction is_ as [|i is_ IH]; intros st; [done|]. cbn. rewrite encode_step_cut.
  destruct (encode_step st i); cbn; [apply IH|done..].
Qed.

(** C35: The current bytecode of a set of rules is that of the rules with every number
    reduced modulo 2^32: a comparison with a number that does not fit 32 bits is encoded,
    without an error, as a comparison with another number. *)
Theorem v2_numbers_truncated `{!HashMapOrder Z LabelInfo} rules :
  encode_to_bytecode_v2 (cut_rules rules) = encode_to_bytecode_v2 rules.
Proof. unfold encode_to_bytecode_v2, cut_rules. cbn [instructions]. by rewrite encode_instructions_cut. Qed.
