(* ===== verification/EncodeV1.v ===== *)
(** The old bytecode format
    ([src/devices/lib/bind/src/bytecode_encoder/encode_v1.rs]): three 32-bit
    words per instruction, divided into bit fields, and
    [CompiledBindRules::encode_to_bytecode], which chooses the format.  The
    accessors of the [bitfield!] macro are those of the vendored [bitfield]
    crate ([third_party/rust_crates/vendor/bitfield/src/lib.rs]). *)
From Stdlib Require Import ZArith Lia.
From stdpp Require Import base gmap strings countable list.
From S2P Require Import Prelude BindLibrary SymbolTable Instruction Bytecode InstructionEncoder.
From S2P Require Import InstructionEncoder EncodeV2.
Local Open Scope Z_scope.

(** ** Bit fields over a slice of words *)

(** [self.0[i / 32] >> (i % 32) & 1]. *)
Definition slice_bit (words : list Z) (i : Z) : Z :=
  Z.land (Z.shiftr (nth (Z.to_nat (i / 32)) words 0) (i mod 32)) 1.

(** The loop of [bit_range] from the most significant bit down, [n] bits from
    [lsb] up. *)
Fixpoint get_bits (words : list Z) (lsb : Z) (n : nat) : Z :=
  match n with
  | O => 0
  | S n => Z.lor (Z.shiftl (get_bits words (lsb + 1) n) 1) (slice_bit words lsb)
  end.

(** [bit_range]: the final shifts keep the low bits of the [u32]. *)
Definition bit_range (words : list Z) (msb lsb : Z) : Z :=
  let n := msb - lsb + 1 in
  let value := get_bits words lsb (Z.to_nat n) in
  Z.shiftr (as_u32 (Z.shiftl value (32 - n))) (32 - n).

(** One round of [set_bit_range]. *)
Definition set_slice_bit (words : list Z) (i : Z) (bit : Z) : list Z :=
  alter (λ w, Z.lor (Z.land w (Z.lnot (Z.shiftl 1 (i mod 32)))) (Z.shiftl bit (i mod 32)))
    (Z.to_nat (i / 32)) words.

Fixpoint set_bits (words : list Z) (lsb : Z) (value : Z) (n : nat) : list Z :=
  match n with
  | O => words
  | S n => set_bits (set_slice_bit words lsb (Z.land value 1)) (lsb + 1) (Z.shiftr value 1) n
  end.

Definition set_bit_range (words : list Z) (msb lsb : Z) (value : Z) : list Z :=
  set_bits words lsb value (Z.to_nat (msb - lsb + 1)).

(** ** Instructions *)

Inductive RawOpV1 := V1_Abort | V1_Match | V1_Goto | V1_Label.
Inductive RawCondition := RC_Always | RC_Equal | RC_NotEqual.

#[export] Instance RawOpV1_eq_dec : EqDecision RawOpV1.
Proof. solve_decision. Defined.
#[export] Instance RawCondition_eq_dec : EqDecision RawCondition.
Proof. solve_decision. Defined.

Definition RawOpV1_as_u32 (o : RawOpV1) : Z :=
  match o with
  | V1_Abort => 0
  | V1_Match => 1
  | V1_Goto => 2
  | V1_Label => 5
  end.

Definition RawCondition_as_u32 (c : RawCondition) : Z :=
  match c with
  | RC_Always => 0
  | RC_Equal => 1
  | RC_NotEqual => 2
  end.

(** The derived [FromPrimitive]. *)
Definition RawOpV1_from_u32 (z : Z) : option RawOpV1 :=
  match z with
  | 0 => Some V1_Abort
  | 1 => Some V1_Match
  | 2 => Some V1_Goto
  | 5 => Some V1_Label
  | _ => None
  end.

Definition RawCondition_from_u32 (z : Z) : option RawCondition :=
  match z with
  | 0 => Some RC_Always
  | 1 => Some RC_Equal
  | 2 => Some RC_NotEqual
  | _ => None
  end.

(** [RawInstruction<[u32; 3]>], as its words. *)
Definition RawInstruction : Type := list Z.

Definition raw_condition (r : RawInstruction) : Z := bit_range r 31 28.
Definition raw_operation (r : RawInstruction) : Z := bit_range r 27 24.
Definition parameter_a (r : RawInstruction) : Z := bit_range r 23 16.
Definition parameter_b (r : RawInstruction) : Z := bit_range r 15 0.
Definition raw_value (r : RawInstruction) : Z := bit_range r 63 32.
Definition raw_line (r : RawInstruction) : Z := bit_range r 95 88.
Definition raw_ast_location (r : RawInstruction) : Z := bit_range r 87 80.
Definition raw_extra (r : RawInstruction) : Z := bit_range r 79 64.

Definition encode_condition (condition : InstCondition) :
    outcome BindRulesEncodeError (Z * Z * Z) :=
  match condition with
  | Always => Ok (RawCondition_as_u32 RC_Always, 0, 0)
  | Equal b v =>
    b_sym ← encode_symbol b;
    v_sym ← encode_symbol v;
    Ok (RawCondition_as_u32 RC_Equal, b_sym, v_sym)
  | NotEqual b v =>
    b_sym ← encode_symbol b;
    v_sym ← encode_symbol v;
    Ok (RawCondition_as_u32 RC_NotEqual, b_sym, v_sym)
  end.

Definition to_raw_instruction (instruction : Instruction) :
    outcome BindRulesEncodeError RawInstruction :=
  '(c, o, a, b, v) ←
    match instruction with
    | Abort condition =>
      '(c, b, v) ← encode_condition condition; Ok (c, RawOpV1_as_u32 V1_Abort, 0, b, v)
    | Match condition =>
      '(c, b, v) ← encode_condition condition; Ok (c, RawOpV1_as_u32 V1_Match, 0, b, v)
    | Goto condition a =>
      '(c, b, v) ← encode_condition condition; Ok (c, RawOpV1_as_u32 V1_Goto, a, b, v)
    | Label a => Ok (RawCondition_as_u32 RC_Always, RawOpV1_as_u32 V1_Label, a, 0, 0)
    end;
  let raw_instruction := [0; 0; 0] in
  let raw_instruction := set_bit_range raw_instruction 31 28 c in
  let raw_instruction := set_bit_range raw_instruction 27 24 o in
  let raw_instruction := set_bit_range raw_instruction 23 16 a in
  let raw_instruction := set_bit_range raw_instruction 15 0 b in
  let raw_instruction := set_bit_range raw_instruction 63 32 v in
  Ok raw_instruction.

Definition encode_instruction (info : InstructionInfo) :
    outcome BindRulesEncodeError RawInstruction :=
  raw_instruction ← to_raw_instruction (instruction info);
  let raw_instruction := set_bit_range raw_instruction 95 88 (line (debug info)) in
  let raw_instruction :=
    set_bit_range raw_instruction 87 80 (RawAstLocation_as_u32 (ast_location (debug info))) in
  let raw_instruction := set_bit_range raw_instruction 79 64 (extra (debug info)) in
  Ok raw_instruction.

(** ** Programs *)

Inductive BindRulesDecodeError := InvalidBinaryLength.

(** The loop of [decode_from_bytecode_v1] over the multiples of twelve; the
    length is a multiple of twelve, so every slice is in range. *)
Fixpoint decode_words (fuel : nat) (bytes : list Z) : list RawInstruction :=
  match fuel with
  | O => []
  | S fuel =>
    match bytes with
    | [] => []
    | _ =>
      [from_le_bytes (take 4 bytes); from_le_bytes (take 4 (drop 4 bytes));
       from_le_bytes (take 4 (drop 8 bytes))] :: decode_words fuel (drop 12 bytes)
    end
  end.

Definition decode_from_bytecode_v1 (bytes : list Z) :
    outcome BindRulesDecodeError (list RawInstruction) :=
  if negb (len bytes mod 12 =? 0) then Err InvalidBinaryLength else
  Ok (decode_words (length bytes) bytes).

(** The bytes of one instruction. *)
Definition raw_bytes (r : RawInstruction) : list Z := r ≫= to_le_bytes 4.

Definition encode_to_bytecode_v1 (bind_rules : BindRules) :
    outcome BindRulesEncodeError (list Z) :=
  result ← try_map (λ inst, encode_instruction (info_to_instruction inst))
             (instructions bind_rules);
  Ok (result ≫= raw_bytes).

Section encode.
Context `{!HashMapOrder Z LabelInfo}.

(** [CompiledBindRules::encode_to_bytecode]. *)
Definition encode_to_bytecode (rules : CompiledBindRules) :
    outcome BindRulesEncodeError (list Z) :=
  match rules with
  | Bind bind_rules =>
    if use_new_bytecode bind_rules then encode_to_bytecode_v2 bind_rules
    else encode_to_bytecode_v1 bind_rules
  | CompositeBind composite_bind => encode_composite_to_bytecode composite_bind
  end.
End encode.
