(* ===== verification/Samples.v ===== *)
(** Sample sources, and what compiling them gives, on which the theorems of the
    development are instantiated. *)
From Stdlib Require Import ZArith Lia.
From stdpp Require Import base gmap strings countable list.
From S2P Require Import Prelude BindLibrary LibraryParser ParserCommon BindRules RulesParser.
From S2P Require Import RulesParser SymbolTable Instruction Compiler MatchBind.
From S2P Require Import InstructionEncoder EncodeV2 EncodeV1.
Local Open Scope Z_scope.

#[export] Instance sample_map_order : HashMapOrder Z LabelInfo := key_order_map Z LabelInfo.
#[export] Instance sample_set_order : HashSetOrder nat := key_order_set nat.

Definition ok_value {E A} (d : A) (m : outcome E A) : A :=
  match m with Ok a => a | _ => d end.

Definition is_ok {E A} (m : outcome E A) : bool := match m with Ok _ => true | _ => false end.

Lemma ok_value_Ok {E A} (d : A) (m : outcome E A) : is_ok m = true → m = Ok (ok_value d m).
Proof. by destruct m. Qed.

(** Shows that a sample computes, without writing its value out. *)
Ltac sample_ok := apply ok_value_Ok; vm_compute; reflexivity.

(** Decides a property of a sample by evaluation. *)
Ltac sample_decide := apply (bool_decide_unpack _); vm_compute; exact I.

(** ** Bind rules *)

Definition sample_library : rstring :=
  str "library acme.bus; uint speed { SLOW = 1, FAST = 0x10 }; bool hot; enum mode { A, B };".

Definition sample_rules : rstring :=
  str "using acme.bus; /* a /* nested */ comment */ acme.bus.speed == acme.bus.speed.FAST; if acme.bus.hot == true { accept acme.bus.mode { acme.bus.mode.A, acme.bus.mode.B, } } else { fuchsia.BIND_PROTOCOL != 3; }".

Definition sample_ast : RulesAst := ok_value (mkRulesAst [] []) (rules_try_from sample_rules).

(** Autobind is disabled. *)
Definition sample_bind : BindRules :=
  ok_value (mkBindRules ∅ [] true) (compile_bind sample_rules [sample_library] true true true).

Definition sample_bytecode : list Z := ok_value [] (encode_to_bytecode_v2 sample_bind).

Definition sample_props : DeviceProperties :=
  list_to_map [(NumberKey BIND_AUTOBIND, NumberValue 0);
               (StringKey (str "acme.bus.speed"), NumberValue 0x10);
               (StringKey (str "acme.bus.hot"), BoolValue true);
               (StringKey (str "acme.bus.mode"), EnumValue (str "acme.bus.mode.B"))].

(** ** Composite rules *)

Definition quote (s : string) : rstring := 0x22 :: str s ++ [0x22].

Definition sample_composite : rstring :=
  str "composite acme.board; using acme.bus; primary node " ++ quote "bus" ++
  str " { acme.bus.speed == 16; } node " ++ quote "clock" ++
  str " { if acme.bus.hot == false { true; } else { acme.bus.mode == acme.bus.mode.A; } }".

Definition sample_composite_ast : CompositeAst :=
  ok_value (mkCompositeAst (mkIdent [] []) [] (mkCompositeAstNode [] []) [])
    (composite_try_from sample_composite).

Definition sample_composite_bind : CompositeBindRules :=
  ok_value (mkCompositeBindRules [] ∅ (mkCompositeNode [] []) [])
    (compile_bind_composite sample_composite [sample_library] true true).

Definition sample_composite_bytecode : list Z :=
  ok_value [] (encode_composite_to_bytecode sample_composite_bind).

(** ** The old format *)

Definition sample_old_rules : rstring :=
  str "if fuchsia.BIND_PROTOCOL == 3 { accept fuchsia.BIND_PCI_VID { 1, 2 } } else { fuchsia.BIND_PCI_DID != 7; }".

Definition sample_old_ast : RulesAst := ok_value (mkRulesAst [] []) (rules_try_from sample_old_rules).

Definition sample_old_bind : BindRules :=
  ok_value (mkBindRules ∅ [] false) (compile_bind sample_old_rules [] true false false).

Definition sample_old_bytecode : list Z := ok_value [] (encode_to_bytecode_v1 sample_old_bind).

Definition sample_old_props : DeviceProperties :=
  list_to_map [(NumberKey 0x0001, NumberValue 3); (NumberKey 0x0100, NumberValue 2);
               (NumberKey 0x0101, NumberValue 0)].

(** ** A device specification, and a library that extends a deprecated key *)

Definition sample_device : rstring :=
  str "acme.bus.speed = 16 acme.bus.hot = true // hot
 acme.bus.mode = acme.bus.mode.B".

Definition sample_extension : rstring :=
  str "library acme.pci; using acme.bus; extend uint fuchsia.BIND_PROTOCOL { ACME = 7 };".

Definition sample_library_asts : list Ast :=
  ok_value [] (try_map library_try_from [sample_library; sample_extension]).

Definition sample_using : list Include := [mkInclude (mkIdent [str "acme"] (str "pci")) None].

Definition sample_resolved : list Ast := ok_value [] (resolve_dependencies sample_using sample_library_asts).

Definition sample_table : SymbolTable := ok_value ∅ (construct_symbol_table sample_resolved).
