(* ===== verification/DeclareCorrect.v ===== *)
(** The symbol table of a list of libraries holds the deprecated keys and what
    the libraries declare, and nothing else ([construct_symbol_table_spec]).
    Since the libraries are resolved users first, only keys of the namespace
    "fuchsia" can be extended ([extends_only_fuchsia]). *)
From Stdlib Require Import ZArith Lia.
From stdpp Require Import base gmap strings countable relations list.
From S2P Require Import Prelude ParserCommon BindLibrary LibraryParser DependencyGraph.
From S2P Require Import SymbolTable ResolveCorrect Samples.

(** ** What a library declares *)

Definition value_symbol (qualified_value : CompoundIdentifier) (value : Value) : Symbol :=
  match value with
  | NumberV _ n => NumberValue n
  | StrV _ s => StringValue s
  | BoolV _ b => BoolValue b
  | EnumV _ => EnumValue (to_string qualified_value)
  end.

Lemma deprecated_symbols_shape q s :
  get_deprecated_symbols !! q = Some s → ∃ n, s = DeprecatedKey n ∧ namespace q = [str "fuchsia"].
Proof.
  unfold get_deprecated_symbols. generalize deprecated_keys as l.
  intros l. cut (∀ t : SymbolTable,
    (∀ q s, t !! q = Some s → ∃ n, s = DeprecatedKey n ∧ namespace q = [str "fuchsia"]) →
    ∀ q s, foldl (λ t '(key, value), <[make_identifier (str "fuchsia") [key] := DeprecatedKey value]> t) t l
      !! q = Some s → ∃ n, s = DeprecatedKey n ∧ namespace q = [str "fuchsia"]).
  { intros Hl. apply Hl. by intros ? ?. }
  clear q s. induction l as [|[key value] l IH]; intros t Ht q s; [apply Ht|]. cbn. apply IH.
  intros q' s' [[<- <-]|[_ Hs]]%lookup_insert_Some; [by exists value|by apply Ht in Hs].
Qed.

Lemma deprecated_symbols_key q s : get_deprecated_symbols !! q = Some s → ∃ n, s = DeprecatedKey n.
Proof. intros (n & -> & _)%deprecated_symbols_shape. eauto. Qed.

(** [deprecated] are the keys with which the table starts. *)
Section declared.
Context (deprecated : SymbolTable).

(** The symbols of one declaration of the library [lib_name]: its key unless
    the declaration extends another key or the key is deprecated, and its
    values under the locally qualified key. *)
Inductive declares (lib_name : CompoundIdentifier) (d : Declaration) :
    CompoundIdentifier → Symbol → Prop :=
| declares_key q :
    q = nest lib_name (name (identifier d)) → extends d = false →
    deprecated !! q = None →
    declares lib_name d q (Key (to_string q) (value_type d))
| declares_value q v :
    v ∈ values d → q = nest (nest lib_name (name (identifier d))) (value_identifier v) →
    declares lib_name d q (value_symbol q v).

Definition library_declares (lib : Ast) (q : CompoundIdentifier) (s : Symbol) : Prop :=
  ∃ d, d ∈ declarations lib ∧ declares (ast_name lib) d q s.

(** ** The table built so far *)

(** [table] holds exactly the symbols [seen], and the deprecated keys. *)
Record table_holds (table : SymbolTable) (seen : CompoundIdentifier → Symbol → Prop) : Prop := {
  th_seen q s : table !! q = Some s ↔ seen q s;
  th_deprecated q n : table !! q = Some (DeprecatedKey n) ↔
    deprecated !! q = Some (DeprecatedKey n);
}.

Lemma table_holds_fold {A} (f : SymbolTable → A → outcome CompilerError SymbolTable) D l t t' seen :
  (∀ a t t' seen, a ∈ l → table_holds t seen → f t a = Ok t' →
     table_holds t' (λ q s, seen q s ∨ D a q s)) →
  table_holds t seen → try_fold f t l = Ok t' →
  table_holds t' (λ q s, seen q s ∨ ∃ a, a ∈ l ∧ D a q s).
Proof.
  revert t seen. induction l as [|a l IH]; intros t seen Hf Ht Hok; cbn in Hok.
  - injection Hok as <-. destruct Ht as [Hs Hd]. split; [|done]. intros q s. rewrite Hs. set_solver.
  - apply bind_Ok_iff in Hok as (t1 & H1 & Hok).
    eapply Hf in H1; [|set_solver|exact Ht].
    eapply IH in Hok as [Hs Hd]; [|intros; eapply Hf; [set_solver|done|done]|done].
    split; [|done]. intros q s. rewrite Hs. setoid_rewrite elem_of_cons. naive_solver.
Qed.

Lemma declare_value_holds lq v t t' seen :
  table_holds t seen → declare_value lq t v = Ok t' →
  table_holds t' (λ q s, seen q s ∨ (q = nest lq (value_identifier v) ∧ s = value_symbol q v)).
Proof.
  intros [Hs Hd] Hok. unfold declare_value in Hok.
  destruct (t !! _) eqn:Hnone in Hok; [done|]. injection Hok as <-.
  change (match v with NumberV _ n => _ | StrV _ s => _ | BoolV _ b => _ | EnumV _ => _ end)
    with (value_symbol (nest lq (value_identifier v)) v).
  split; intros q s; rewrite lookup_insert_Some; [rewrite <- Hs|rewrite <- Hd].
  - split; [|intros [Hq|[-> ->]]].
    + intros [[<- <-]|[? ?]]; [right; done|by left].
    + destruct (decide (nest lq (value_identifier v) = q)) as [<-|]; [congruence|by right].
    + by left.
  - split; [by intros [[_ ?]|[_ ?]]; [destruct v|]|].
    intros Hq. right. split; [congruence|done].
Qed.

(** Every symbol of [deprecated] is a deprecated key. *)
Hypothesis deprecated_shape : ∀ q s, deprecated !! q = Some s → ∃ n, s = DeprecatedKey n.

Lemma declare_key_holds t d q t' seen :
  table_holds t seen → declare_key t d q = Ok t' →
  table_holds t' (λ q' s, seen q' s ∨ (q' = q ∧ extends d = false ∧
    deprecated !! q = None ∧ s = Key (to_string q) (value_type d))).
Proof.
  intros Ht Hok.
  assert (t' = t → (extends d = true ∨ is_Some (deprecated !! q)) →
    table_holds t' (λ q' s, seen q' s ∨ (q' = q ∧ extends d = false ∧
      deprecated !! q = None ∧ s = Key (to_string q) (value_type d)))) as Hsame.
  { intros -> Hx. destruct Ht as [Hs Hd]. split; [|done]. intros q' s. rewrite Hs.
    split; [by left|]. intros [?|(_ & He & Hn & _)]; [done|].
    destruct Hx as [Hx|[? Hx]]; congruence. }
  unfold declare_key in Hok. destruct (t !! q) as [sym|] eqn:Hq.
  - destruct sym as [n|k vt| | | |]; try discriminate Hok.
    + injection Hok as <-. apply Hsame; [done|]. apply (th_deprecated _ _ Ht) in Hq. right. eauto.
    + destruct (extends d); [|done]. cbn in Hok. destruct (bool_decide _); [|done].
      injection Hok as <-. apply Hsame; [done|by left].
  - destruct (extends d) eqn:He; [done|]. injection Hok as <-. clear Hsame. destruct Ht as [Hs Hd].
    assert (deprecated !! q = None) as Hnd.
    { destruct (deprecated !! q) as [s|] eqn:Hdep; [|done].
      destruct (deprecated_shape _ _ Hdep) as [n ->]. apply Hd in Hdep. congruence. }
    split; intros q' s; rewrite lookup_insert_Some; [rewrite <- Hs|rewrite <- Hd].
    + split; [intros [[<- <-]|[? ?]]; [by right|by left]|]. intros [Hq'|(-> & _ & _ & ->)]; [|by left].
      right. split; [congruence|done].
    + split; [by intros [[_ ?]|[_ ?]]|]. intros Hq'. right. split; [congruence|done].
Qed.

Lemma find_qualified_local d us lq q :
  find_qualified_identifier d us lq = Ok q → extends d = false → q = lq.
Proof.
  unfold find_qualified_identifier. intros Hok He. rewrite He in Hok. cbn in Hok.
  destruct (parent (identifier d)); [done|]. by injection Hok.
Qed.

Lemma declare_holds lib_name us d t t' seen :
  table_holds t seen → declare lib_name us t d = Ok t' →
  table_holds t' (λ q s, seen q s ∨ declares lib_name d q s).
Proof.
  intros Ht Hok. unfold declare in Hok. inv_ok.
  eapply declare_key_holds in Hok1; [|done].
  eapply table_holds_fold in Hok as [Hs Hd];
    [|intros v ? ? ? _; apply declare_value_holds|done].
  split; [|done]. intros q s. rewrite Hs. split.
  - intros [[?|(-> & He & Hn & ->)]|(v & Hv & -> & ->)]; [by left|right|right].
    + apply declares_key; [|done|done]. by eapply find_qualified_local.
    + by apply declares_value.
  - intros [?|[? Heq He Hn|? v Hv Heq]]; [by left; left| |right; by exists v].
    left. right. pose proof (find_qualified_local _ _ _ _ Hok0 He). by subst.
Qed.

Lemma declare_library_holds lib t t' seen :
  table_holds t seen → declare_library t lib = Ok t' →
  table_holds t' (λ q s, seen q s ∨ library_declares lib q s).
Proof.
  intros Ht Hok. unfold declare_library in Hok.
  eapply (table_holds_fold _ (declares (ast_name lib))) in Hok; [exact Hok| |exact Ht].
  intros. by eapply declare_holds.
Qed.

End declared.

Lemma deprecated_holds : table_holds get_deprecated_symbols get_deprecated_symbols (λ q s, get_deprecated_symbols !! q = Some s).
Proof. done. Qed.

(** The table after the libraries of a list, from the deprecated keys on. *)
Lemma construct_holds libs t :
  construct_symbol_table libs = Ok t →
  table_holds get_deprecated_symbols t (λ q s, get_deprecated_symbols !! q = Some s ∨
    ∃ lib, lib ∈ libs ∧ library_declares get_deprecated_symbols lib q s).
Proof.
  intros Hok. unfold construct_symbol_table in Hok.
  eapply (table_holds_fold get_deprecated_symbols _ (library_declares get_deprecated_symbols)) in Hok; [exact Hok| |apply deprecated_holds].
  intros. eapply declare_library_holds; [exact deprecated_symbols_key|done..].
Qed.

(** C27: a symbol table that is constructed holds exactly the deprecated keys and
    the keys and values that the libraries declare. *)
Theorem construct_symbol_table_spec libs table q s :
  construct_symbol_table libs = Ok table →
  table !! q = Some s ↔
  get_deprecated_symbols !! q = Some s ∨ ∃ lib, lib ∈ libs ∧ library_declares get_deprecated_symbols lib q s.
Proof. intros Hok%construct_holds. apply Hok. Qed.

Lemma construct_symbol_table_spec_witness :
  sample_table !! mkIdent [str "acme"; str "bus"; str "speed"] (str "FAST") = Some (NumberValue 16) ↔
  get_deprecated_symbols !! mkIdent [str "acme"; str "bus"; str "speed"] (str "FAST") =
    Some (NumberValue 16) ∨
  ∃ lib, lib ∈ sample_resolved ∧
    library_declares get_deprecated_symbols lib (mkIdent [str "acme"; str "bus"; str "speed"] (str "FAST")) (NumberValue 16).
Proof.
  refine (construct_symbol_table_spec sample_resolved sample_table _ _ _). sample_ok.
Defined.

(** ** Extended keys *)

Lemma removelast_snoc {A} (l : list A) x : last l = Some x → l = removelast l ++ [x].
Proof.
  intros [l' ->]%last_Some. rewrite removelast_app by done. cbn. by rewrite app_nil_r.
Qed.

(** The key of an extending declaration is in the namespace "fuchsia" or in
    that of an included library. *)
Lemma find_qualified_extends d us lq q :
  find_qualified_identifier d us lq = Ok q → extends d = true →
  namespace q = [str "fuchsia"] ∨
  ∃ inc, inc ∈ us ∧ q = nest (include_name inc) (name (identifier d)).
Proof.
  unfold find_qualified_identifier. intros Hok He. rewrite He in Hok. cbn in Hok.
  destruct (parent (identifier d)) as [p|] eqn:Hp; [|done].
  case_bool_decide as Hf.
  - left. injection Hok as <-. subst p. unfold parent in Hp.
    destruct (last (namespace (identifier d))) as [x|] eqn:Hl; [|done].
    injection Hp as Hr ->. apply removelast_snoc in Hl. by rewrite Hr in Hl.
  - right. destruct (List.find _ us) as [inc|] eqn:Hfind; [|done]. injection Hok as <-.
    apply find_some in Hfind as [Hin _]. exists inc. split; [by apply list_elem_of_In|done].
Qed.

(** An extended key is already in the table. *)
Lemma declare_extends lib_name us d t t' :
  declare lib_name us t d = Ok t' → extends d = true →
  ∃ q, find_qualified_identifier d us (nest lib_name (name (identifier d))) = Ok q ∧
    ((∃ n, t !! q = Some (DeprecatedKey n)) ∨ ∃ k vt, t !! q = Some (Key k vt)).
Proof.
  intros Hok He. unfold declare in Hok. inv_ok. exists a. split; [done|].
  unfold declare_key in Hok1. rewrite He in Hok1.
  destruct (t !! a) as [[]|]; try done; eauto.
Qed.

(** A key in the table is a key of one of the libraries. *)
Lemma declared_key lib q k vt :
  library_declares get_deprecated_symbols lib q (Key k vt) → ∃ n, q = nest (ast_name lib) n.
Proof. intros (d & _ & Hd). inversion Hd as [? -> |? v]; [eauto|by destruct v]. Qed.

Lemma ordered_not_before using_ libs l1 lib l2 inc lib' :
  resolved_libraries using_ libs (l1 ++ lib :: l2) → lib ∈ libs →
  inc ∈ ast_using lib → ast_name lib' = include_name inc → lib' ∈ l1 ++ [lib] → False.
Proof.
  intros R Hlib Hinc Hname Hin.
  assert (depends libs (ast_name lib) (ast_name lib')) as Hdep by (exists lib, inc; done).
  assert (lib ∈ l1) as Hl.
  { apply elem_of_app in Hin as [(a & b & ->)%list_elem_of_split| ->%list_elem_of_singleton].
    - assert (lib ∈ a); [|set_solver].
      eapply (rl_order _ _ _ R a lib' (b ++ lib :: l2)); [by rewrite <- app_assoc|set_solver|done].
    - eapply (rl_order _ _ _ R); [done|set_solver|done]. }
  pose proof (NoDup_fmap_1 _ _ (rl_nodup _ _ _ R)) as Hnd.
  apply NoDup_app in Hnd as (_ & Hnd & _). by apply (Hnd lib); [|left].
Qed.

(** The declarations of a resolved library before one of its declarations, and
    the table at that point. *)
Lemma construct_prefix l1 lib l2 table d1 d d2 :
  construct_symbol_table (l1 ++ lib :: l2) = Ok table → declarations lib = d1 ++ d :: d2 →
  ∃ t t', declare (ast_name lib) (ast_using lib) t d = Ok t' ∧
    ∀ q s, t !! q = Some s → get_deprecated_symbols !! q = Some s ∨
      ∃ lib', lib' ∈ l1 ++ [lib] ∧ library_declares get_deprecated_symbols lib' q s.
Proof.
  intros Hok Hd. unfold construct_symbol_table in Hok. rewrite try_fold_app in Hok.
  apply bind_Ok_iff in Hok as (t1 & H1%construct_holds & Hok).
  cbn in Hok. apply bind_Ok_iff in Hok as (t2 & H2 & _).
  unfold declare_library in H2. rewrite Hd, try_fold_app in H2.
  apply bind_Ok_iff in H2 as (t3 & H3 & H2). cbn in H2. apply bind_Ok_iff in H2 as (t4 & H4 & _).
  exists t3, t4. split; [done|]. intros q s Hq.
  eapply (table_holds_fold get_deprecated_symbols _ (declares get_deprecated_symbols (ast_name lib))) in H3;
    [|intros; eapply declare_holds; [exact deprecated_symbols_key|done..]|exact H1].
  apply (th_seen _ _ _ H3) in Hq as [[?|(lib' & Hl & Hdec)]|(d' & Hd' & Hdec)]; [by left|right|right].
  - exists lib'. split; [set_solver|done].
  - exists lib. split; [set_solver|]. exists d'. split; [|done]. rewrite Hd. set_solver.
Qed.

(** C31: when the symbol table of resolved libraries is constructed, every
    declaration that extends a key extends a key of the namespace "fuchsia".  A
    key of any other library cannot be extended: a library is resolved before
    the libraries it uses, so their keys are not in the table yet. *)
Theorem extends_only_fuchsia `{!HashSetOrder nat} using_ libs deps table lib d :
  resolve_dependencies using_ libs = Ok deps → construct_symbol_table deps = Ok table →
  lib ∈ deps → d ∈ declarations lib → extends d = true →
  ∃ q, find_qualified_identifier d (ast_using lib) (nest (ast_name lib) (name (identifier d))) = Ok q ∧
    namespace q = [str "fuchsia"].
Proof.
  intros Hres Hok Hlib Hd He.
  destruct (resolve_Ok_libraries _ _ _ Hres) as [R _].
  assert (lib ∈ libs) as Hin by (by apply R, proj2, library_named_Some in Hlib as [_ ?]).
  apply list_elem_of_split in Hlib as (l1 & l2 & ->), Hd as (d1 & d2 & Hd).
  destruct (construct_prefix _ _ _ _ _ _ _ Hok Hd) as (t & t' & Hdec & Ht).
  destruct (declare_extends _ _ _ _ _ Hdec He) as (q & Hq & Hsym). exists q. split; [done|].
  destruct (find_qualified_extends _ _ _ _ Hq He) as [?|(inc & Hinc & ->)]; [done|].
  destruct Hsym as [[n Hn]|(k & vt & Hk)].
  - apply Ht in Hn as [Hn|(lib' & _ & d' & _ & Hd')]; [|inversion Hd'; by destruct v].
    by apply deprecated_symbols_shape in Hn as (_ & _ & ?).
  - apply Ht in Hk as [Hk|(lib' & Hl & (n & [Hn _]%nest_inj)%declared_key)].
    + by apply deprecated_symbols_shape in Hk as (_ & _ & ?).
    + exfalso. by eapply ordered_not_before.
Qed.

Definition sample_extending_library : Ast := ok_value (mkAst (mkIdent [] []) [] []) (library_try_from sample_extension).

Definition sample_extending_declaration : Declaration :=
  default (mkDeclaration (mkIdent [] []) Number false []) (head (declarations sample_extending_library)).

Lemma extends_only_fuchsia_witness :
  ∃ q, find_qualified_identifier sample_extending_declaration (ast_using sample_extending_library)
         (nest (ast_name sample_extending_library) (name (identifier sample_extending_declaration))) = Ok q ∧
    namespace q = [str "fuchsia"].
Proof.
  apply (extends_only_fuchsia sample_using sample_library_asts sample_resolved sample_table).
  - sample_ok.
  - sample_ok.
  - vm_compute. left.
  - vm_compute. left.
  - vm_compute. reflexivity.
Defined.
