(* ===== verification/Semantics.v ===== *)
(** What bind rules mean.  [eval_block] is the meaning of the source statements
    on a device's properties, [exec] the meaning of a list of instructions; the
    compiler and the bytecode interpreter are proved against them.  A property
    test can fail: comparing values of two types is an error of the matcher
    ([MismatchValueTypes]). *)
From Stdlib Require Import ZArith Lia.
From stdpp Require Import base gmap strings countable list.
From S2P Require Import Prelude BindLibrary ParserCommon Bytecode MatchBind BindRules SymbolTable.
From S2P Require Import Instruction Compiler.
Local Open Scope Z_scope.

(** ** Property tests *)

(** The property a key symbol denotes. *)
Definition property_of (key : Symbol) : option PropertyKey :=
  match key with
  | DeprecatedKey k => Some (NumberKey k)
  | Key s _ => Some (StringKey s)
  | _ => None
  end.

(** Whether the device has the property of [key] equal to [value] ([eq = true])
    or different from it ([eq = false]): a missing property differs from every
    value. *)
Definition property_test (props : DeviceProperties) (eq : bool) (key value : Symbol) :
    outcome BytecodeError bool :=
  match property_of key with
  | None => Err InvalidKeyType
  | Some k =>
    match props !! k with
    | None => Ok (negb eq)
    | Some device_value =>
      if negb (discriminant device_value =? discriminant value) then Err MismatchValueTypes
      else Ok (if eq then bool_decide (device_value = value)
               else negb (bool_decide (device_value = value)))
    end
  end.

(** ** Instructions *)

Definition eval_cond (props : DeviceProperties) (c : InstCondition) : outcome BytecodeError bool :=
  match c with
  | Always => Ok true
  | Instruction.Equal l r => property_test props true l r
  | NotEqual l r => property_test props false l r
  end.

(** [exec props skip insts]: with [skip = Some l] instructions are skipped up to
    the label [l].  Falling off the end binds the driver. *)
Fixpoint exec (props : DeviceProperties) (skip : option Z) (insts : list Instruction) :
    outcome BytecodeError bool :=
  match insts with
  | [] => match skip with None => Ok true | Some _ => Err InvalidJumpLocation end
  | i :: r =>
    match skip with
    | Some l =>
      match i with
      | Label l' => exec props (if l' =? l then None else skip) r
      | _ => exec props skip r
      end
    | None =>
      match i with
      | Label _ => exec props None r
      | Abort c => b ← eval_cond props c; if (b : bool) then Ok false else exec props None r
      | Match c => b ← eval_cond props c; if (b : bool) then Ok true else exec props None r
      | Goto c l => b ← eval_cond props c; exec props (if (b : bool) then Some l else None) r
      end
    end
  end.

(** The instructions of a compiled program. *)
Definition code (infos : list SymbolicInstructionInfo) : list Instruction :=
  map (λ i, to_instruction (sym_instruction i)) infos.

(** ** Statements *)

Section statements.
Context (props : DeviceProperties) (table : SymbolTable).

(** The symbols of a condition; [Panic] stands for an unknown identifier, which
    the compiler reports. *)
Definition eval_test (eq : bool) (key : CompoundIdentifier) (value : Value) :
    outcome BytecodeError bool :=
  match lookup_identifier table key, lookup_value table value with
  | Ok l, Ok r => property_test props eq l r
  | _, _ => Panic
  end.

Definition eval_condition (c : Condition) : outcome BytecodeError bool :=
  eval_test (match op c with Equals => true | NotEquals => false end) (lhs c) (rhs c).

(** [accept key { v1, v2, .. }]: the property has one of the values. *)
Fixpoint eval_accept (key : CompoundIdentifier) (vs : list Value) : outcome BytecodeError bool :=
  match vs with
  | [] => Ok false
  | v :: r => b ← eval_test true key v; if (b : bool) then Ok true else eval_accept key r
  end.

(** A block holds when all its statements do. *)
Fixpoint eval_statement (s : Statement) : outcome BytecodeError bool :=
  let eval_block := fix block (l : list Statement) : outcome BytecodeError bool :=
    match l with
    | [] => Ok true
    | s :: r => b ← eval_statement s; if (b : bool) then block r else Ok false
    end in
  match s with
  | ConditionStatement _ c => eval_condition c
  | Accept _ key vs => eval_accept key vs
  | If _ blocks else_block =>
    (fix go (bs : list (Condition * list Statement)) : outcome BytecodeError bool :=
       match bs with
       | [] => eval_block else_block
       | (c, block) :: r => b ← eval_condition c; if (b : bool) then eval_block block else go r
       end) blocks
  | False_ _ => Ok false
  | True_ _ => Ok true
  end.

Fixpoint eval_block (l : list Statement) : outcome BytecodeError bool :=
  match l with
  | [] => Ok true
  | s :: r => b ← eval_statement s; if (b : bool) then eval_block r else Ok false
  end.

Fixpoint eval_blocks (bs : list (Condition * list Statement)) (else_block : list Statement) :
    outcome BytecodeError bool :=
  match bs with
  | [] => eval_block else_block
  | (c, block) :: r => b ← eval_condition c; if (b : bool) then eval_block block
                                             else eval_blocks r else_block
  end.

Lemma eval_statement_if span blocks else_block :
  eval_statement (If span blocks else_block) = eval_blocks blocks else_block.
Proof.
  cbn [eval_statement]. induction blocks as [|[c b] r IH]; cbn [eval_blocks]; [done|].
  by rewrite <- IH.
Qed.
End statements.

(** ** Lemmas *)

(** The two tests of a property are opposite, and fail together. *)
Lemma property_test_negb props eq key value :
  property_test props (negb eq) key value =
  (b ← property_test props eq key value; Ok (negb b)).
Proof.
  unfold property_test. destruct (property_of key) as [k|]; [|done].
  destruct (props !! k) as [v|]; [|done].
  destruct (negb _); [done|]. cbn. destruct eq; cbn; [done|]. by rewrite negb_involutive.
Qed.

(** Skipping ignores code that does not define the label. *)
Lemma exec_skip_app props l c k :
  Label l ∉ c → exec props (Some l) (c ++ k) = exec props (Some l) k.
Proof.
  induction c as [|i c IH]; intros Hl; [done|].
  apply not_elem_of_cons in Hl as [Hi Hc]. cbn.
  destruct i as [?|?|?|l']; try by apply IH.
  destruct (Z.eqb_spec l' l) as [->|]; [done|]. by apply IH.
Qed.

Lemma exec_skip_label props l k : exec props (Some l) (Label l :: k) = exec props None k.
Proof. cbn. by rewrite Z.eqb_refl. Qed.

Lemma code_app a b : code (a ++ b) = code a ++ code b.
Proof. apply map_app. Qed.
