(* ===== verification/CompilerCorrect.v ===== *)
(** The compiler is correct: the instructions it emits decide exactly what the
    statements mean ([compile_statements_decide]), and the labels they use are
    fresh and lie after the jumps to them. *)
From Stdlib Require Import ZArith Lia.
From stdpp Require Import base gmap strings countable list.
From S2P Require Import Prelude BindLibrary ParserCommon Bytecode MatchBind BindRules SymbolTable.
From S2P Require Import Instruction Compiler Semantics.
Local Open Scope Z_scope.

(** A compiler that has handed out a label. *)
Definition next_label (c : Compiler) : Compiler := mkCompiler (emitted c) (next_label_id c + 1).

Lemma get_unique_label_Ok {B} c (k : Z * Compiler → outcome CompilerError B) r :
  (p ← get_unique_label c; k p) = Ok r → k (next_label_id c, next_label c) = Ok r.
Proof. unfold get_unique_label. by case_match. Qed.

Section compile_lemmas.
Context (table : SymbolTable).

(** The loop over the blocks of an [If], named. *)
Fixpoint compile_blocks (final_label_id : Z) (bs : list (Condition * list Statement))
    (c : Compiler) : outcome CompilerError Compiler :=
  match bs with
  | [] => Ok c
  | (condition, block_statements) :: r =>
    lhs_symbol ← lookup_identifier table (lhs condition);
    rhs_symbol ← lookup_value table (rhs condition);
    '(label_id, c) ← get_unique_label c;
    let c := push c (Some (AL_IfCondition condition))
               (if_jump condition lhs_symbol rhs_symbol label_id) in
    c ← compile_block table block_statements c;
    let c := push c None (UnconditionalJump final_label_id) in
    let c := push c None (SLabel label_id) in
    compile_blocks final_label_id r c
  end.

Lemma block_fix_eq n l c :
  (fix block (n : nat) (l : list Statement) (c : Compiler) : outcome CompilerError Compiler :=
     match l with
     | [] => Ok c
     | s :: r =>
       c ← compile_statement table n (match r with [] => false | _ => true end) s c; block n r c
     end) n l c = compile_block_from table n l c.
Proof.
  revert c. induction l as [|s l IH]; intros c; cbn; [done|].
  destruct (compile_statement _ _ _ _ _); cbn; [apply IH|done|done].
Qed.

Lemma compile_statement_if n has_next span blocks else_block c :
  compile_statement table n has_next (If span blocks else_block) c =
  if has_next then Err IfStatementMustBeTerminal else
  '(final_label_id, c) ← get_unique_label c;
  c ← compile_blocks final_label_id blocks c;
  c ← compile_block table else_block c;
  Ok (push c None (SLabel final_label_id)).
Proof.
  cbn [compile_statement]. destruct has_next; [done|].
  destruct (get_unique_label c) as [[f c1]| |]; cbn [mbind outcome_bind]; [|done|done].
  assert (∀ c, (fix go bs c :=
     match bs with
     | [] => Ok c
     | (condition, block_statements) :: r =>
       lhs_symbol ← lookup_identifier table (lhs condition);
       rhs_symbol ← lookup_value table (rhs condition);
       '(label_id, c0) ← get_unique_label c;
       let c1 := push c0 (Some (AL_IfCondition condition))
                  (if_jump condition lhs_symbol rhs_symbol label_id) in
       c2 ← (fix block (n : nat) (l : list Statement) (c : Compiler) : outcome CompilerError Compiler :=
               match l with
               | [] => Ok c
               | s :: r =>
                 c ← compile_statement table n (match r with [] => false | _ => true end) s c;
                 block n r c
               end) (length block_statements) block_statements c1;
       let c3 := push c2 None (UnconditionalJump f) in
       let c4 := push c3 None (SLabel label_id) in
       go r c4
     end) blocks c = compile_blocks f blocks c) as ->.
  - induction blocks as [|[cond b] r IH]; intros c0; cbn; [done|].
    destruct (lookup_identifier _ _); cbn; [|done|done].
    destruct (lookup_value _ _); cbn; [|done|done].
    destruct (get_unique_label c0) as [[l c2]| |]; cbn; [|done|done].
    rewrite block_fix_eq. unfold compile_block.
    destruct (compile_block_from _ _ _ _); cbn; [apply IH|done|done].
  - destruct (compile_blocks _ _ _); cbn; [|done|done]. by rewrite block_fix_eq.
Qed.

(** The labels a piece of code defines lie in [lo, hi). *)
Definition labels_within (lo hi : Z) (c : list Instruction) : Prop :=
  ∀ l, Label l ∈ c → lo <= l < hi.

(** Compiling from [c] to [c'] appended code that decides [P]: it falls through
    to what follows when [P] holds and aborts when it does not. *)
Definition emits (c c' : Compiler) (P : DeviceProperties → outcome BytecodeError bool) : Prop :=
  ∃ new, emitted c' = emitted c ++ new ∧
    next_label_id c <= next_label_id c' ∧
    labels_within (next_label_id c) (next_label_id c') (code new) ∧
    ∀ props k, exec props None (code new ++ k) =
               (b ← P props; if (b : bool) then exec props None k else Ok false).

Lemma labels_within_app lo hi a b :
  labels_within lo hi a → labels_within lo hi b → labels_within lo hi (a ++ b).
Proof. intros Ha Hb l [H|H]%elem_of_app; auto. Qed.

Lemma labels_within_weaken lo hi lo' hi' a :
  lo' <= lo → hi <= hi' → labels_within lo hi a → labels_within lo' hi' a.
Proof. intros ?? Ha l Hl. specialize (Ha l Hl). lia. Qed.

Lemma emits_seq c1 c2 c3 P Q :
  emits c1 c2 P → emits c2 c3 Q →
  emits c1 c3 (λ props, b ← P props; if (b : bool) then Q props else Ok false).
Proof.
  intros (n1 & E1 & L1 & W1 & X1) (n2 & E2 & L2 & W2 & X2).
  exists (n1 ++ n2). split; [by rewrite E2, E1, app_assoc|].
  split; [lia|]. split.
  - rewrite code_app. apply labels_within_app; eapply labels_within_weaken; [..|exact W1| | |exact W2]; lia.
  - intros props k. rewrite code_app, <- app_assoc, X1.
    destruct (P props) as [[]| |]; cbn; [apply X2|done..].
Qed.

Lemma emits_ext c c' P Q : (∀ props, P props = Q props) → emits c c' P → emits c c' Q.
Proof. intros HPQ (n & E & L & W & X). exists n. repeat split; [done|done|apply (W _ H)..|].
  intros. by rewrite X, HPQ. Qed.

Lemma emits_refl c : emits c c (λ _, Ok true).
Proof.
  exists []. rewrite app_nil_r. split; [done|]. split; [lia|]. split; [|done].
  intros l Hl. by apply elem_of_nil in Hl.
Qed.

Lemma compile_condition_emits span cond c c' :
  compile_condition table span cond c = Ok c' →
  emits c c' (λ props, eval_condition props table cond).
Proof.
  unfold compile_condition. intros H. inv_ok. rename a into l, a0 into r.
  eexists [_]. split; [done|]. split; [cbn; lia|]. split.
  { intros x Hx. apply list_elem_of_singleton in Hx. by destruct (op cond). }
  intros props k. unfold eval_condition, eval_test. rewrite Hok, Hok0.
  destruct (op cond); cbn.
  - rewrite (property_test_negb props true l r : property_test props false l r = _).
    by destruct (property_test _ _ _ _) as [[]| |].
  - rewrite (property_test_negb props true l r : property_test props false l r = _).
    by destruct (property_test _ _ _ _) as [[]| |].
Qed.

(** The jumps of an [accept] statement. *)
Lemma accept_jumps_emit key l lbl span vs c c' :
  lookup_identifier table key = Ok l →
  try_fold (λ c value,
        rhs_symbol ← lookup_value table value;
        Ok (push c (Some (AL_AcceptStatementValue key value span))
              (JumpIfEqual l rhs_symbol lbl))) c vs = Ok c' →
  ∃ new, emitted c' = emitted c ++ new ∧ next_label_id c' = next_label_id c ∧
    (∀ x, Label x ∉ code new) ∧
    ∀ props k, exec props None (code new ++ Abort Always :: Label lbl :: k) =
      (b ← eval_accept props table key vs; if (b : bool) then exec props None k else Ok false).
Proof.
  intros Hl. revert c. induction vs as [|v vs IH]; intros c H; cbn in H.
  - injection H as <-. exists []. rewrite app_nil_r. repeat split; try done.
    intros x Hx. by apply elem_of_nil in Hx.
  - apply bind_Ok_iff in H as (c1 & H1 & H). inv_ok. rename a into r.
    apply IH in H as (new & E & L & W & X).
    eexists (_ :: new). split; [rewrite E; cbn; by rewrite <- app_assoc|].
    split; [done|]. split.
    + intros x. cbn. intros [Hx|Hx]%elem_of_cons; [done|by apply W in Hx].
    + intros props k. cbn. unfold eval_test at 1. rewrite Hl, Hok.
      destruct (property_test props true l r) as [[]| |]; cbn; [|apply X|done|done].
      rewrite exec_skip_app by apply W. apply exec_skip_label.
Qed.

Lemma compile_accept_emits span key vs c c' :
  compile_accept table span key vs c = Ok c' →
  emits c c' (λ props, eval_accept props table key vs).
Proof.
  unfold compile_accept. intros H.
  apply bind_Ok_iff in H as (l & Hl & H). apply get_unique_label_Ok in H.
  apply bind_Ok_iff in H as (c1 & H1 & [= <-]).
  eapply accept_jumps_emit in H1 as (new & E & L & W & X); [|done].
  cbn in E, L. eexists (new ++ [_; _]). cbn. split; [by rewrite E, <- !app_assoc|].
  split; [lia|]. split.
  - rewrite code_app. intros x [Hx|Hx]%elem_of_app; [by apply W in Hx|].
    cbn in Hx. apply elem_of_cons in Hx as [|Hx]; [done|].
    apply list_elem_of_singleton in Hx as [= ->]. lia.
  - intros props k. rewrite code_app, <- app_assoc. apply X.
Qed.

Definition statement_emits (s : Statement) : Prop :=
  ∀ n has_next c c', compile_statement table n has_next s c = Ok c' →
    emits c c' (λ props, eval_statement props table s).

Lemma compile_block_from_emits n l c c' :
  Forall statement_emits l → compile_block_from table n l c = Ok c' →
  emits c c' (λ props, eval_block props table l).
Proof.
  intros Hl. revert c. induction Hl as [|s l Hs Hl IH]; intros c H.
  - injection H as <-. apply emits_refl.
  - cbn in H. apply bind_Ok_iff in H as (c1 & H1 & H).
    exact (emits_seq _ _ _ _ _ (Hs _ _ _ _ H1) (IH _ H)).
Qed.

(** The jump over a block is taken exactly when its condition fails. *)
Lemma exec_if_jump props cond l r lbl k :
  lookup_identifier table (lhs cond) = Ok l → lookup_value table (rhs cond) = Ok r →
  exec props None (to_instruction (if_jump cond l r lbl) :: k) =
  (b ← eval_condition props table cond; exec props (if (b : bool) then None else Some lbl) k).
Proof.
  intros Hl Hr. unfold eval_condition, eval_test, if_jump. rewrite Hl, Hr.
  pose proof (property_test_negb props true l r) as Hn. cbn in Hn.
  destruct (op cond); cbn [to_instruction exec eval_cond]; rewrite Hn;
    by destruct (property_test props true l r) as [[]| |].
Qed.

Lemma compile_blocks_emit f bs else_block c c' :
  Forall (λ b : Condition * list Statement, Forall statement_emits b.2) bs →
  f < next_label_id c → compile_blocks f bs c = Ok c' →
  ∃ new, emitted c' = emitted c ++ new ∧ next_label_id c <= next_label_id c' ∧
    labels_within (next_label_id c) (next_label_id c') (code new) ∧
    ∀ props rest k, Label f ∉ rest →
      exec props None (rest ++ Label f :: k) =
        (b ← eval_block props table else_block; if (b : bool) then exec props None k else Ok false) →
      exec props None (code new ++ rest ++ Label f :: k) =
        (b ← eval_blocks props table bs else_block;
         if (b : bool) then exec props None k else Ok false).
Proof.
  intros Hbs. revert c. induction Hbs as [|[cond blk] bs Hb Hbs IH]; intros c Hf H.
  - injection H as <-. exists []. rewrite app_nil_r. split; [done|]. split; [lia|].
    split; [|done]. intros x Hx. by apply elem_of_nil in Hx.
  - cbn in H. apply bind_Ok_iff in H as (l & Hl & H). apply bind_Ok_iff in H as (r & Hr & H).
    apply get_unique_label_Ok in H. apply bind_Ok_iff in H as (c2 & H2 & H).
    apply compile_block_from_emits in H2 as (nb & Eb & Lb & Wb & Xb); [|exact Hb].
    cbn in Eb, Lb, Wb.
    apply IH in H as (nr & Er & Lr & Wr & Xr); [|cbn; lia]. cbn in Er, Lr, Wr.
    eexists (_ :: nb ++ _ :: _ :: nr). split; [rewrite Er, Eb; by rewrite <- !app_assoc|].
    split; [lia|]. split.
    + intros x Hx. cbn in Hx. rewrite code_app in Hx.
      apply elem_of_cons in Hx as [Hx|Hx]; [unfold if_jump in Hx; by destruct (op cond)|].
      apply elem_of_app in Hx as [Hx|Hx]; [apply Wb in Hx; lia|].
      cbn in Hx. apply elem_of_cons in Hx as [|Hx]; [done|].
      apply elem_of_cons in Hx as [[= ->]|Hx]; [lia|]. apply Wr in Hx. lia.
    + intros props rest k Hrest Hexec.
      change (code (?i :: ?t)) with (to_instruction (sym_instruction i) :: code t).
      cbn [app]. rewrite code_app, <- app_assoc. cbn [sym_instruction].
      rewrite (exec_if_jump _ _ _ _ _ _ Hl Hr). cbn [eval_blocks].
      destruct (eval_condition props table cond) as [[]| |]; cbn [mbind outcome_bind]; [| |done..].
      * rewrite Xb. fold (eval_block props table blk).
        destruct (eval_block props table blk) as [[]| |]; cbn [mbind outcome_bind]; [|done..].
        cbn. replace (next_label_id c =? f) with false by lia.
        rewrite exec_skip_app by (intros Hx%Wr; lia).
        rewrite exec_skip_app by done. apply exec_skip_label.
      * rewrite exec_skip_app by (intros Hx%Wb; lia).
        cbn. rewrite Z.eqb_refl. by apply Xr.
Qed.

Lemma compile_statement_emits s : statement_emits s.
Proof.
  induction s as [span cond|span key vs|span blocks else_block Hbs Helse|span|span]
    using Statement_nested_ind; intros n has_next c c' H.
  - by apply compile_condition_emits in H.
  - by apply compile_accept_emits in H.
  - rewrite compile_statement_if in H. destruct has_next; [done|].
    apply get_unique_label_Ok in H. apply bind_Ok_iff in H as (c1 & H1 & H). apply bind_Ok_iff in H as (c2 & H2 & [= <-]).
    apply compile_block_from_emits in H2 as (ne & Ee & Le & We & Xe); [|exact Helse].
    eapply (compile_blocks_emit _ _ else_block) in H1 as (nb & Eb & Lb & Wb & Xb);
      [|exact Hbs|cbn; lia]. cbn in Eb, Lb, Wb.
    eapply emits_ext; [intros props; symmetry; apply eval_statement_if|].
    eexists (nb ++ ne ++ [_]). cbn. split; [by rewrite Ee, Eb, <- !app_assoc|].
    split; [lia|]. split.
    + rewrite !code_app. intros x [Hx|[Hx|Hx]%elem_of_app]%elem_of_app.
      * apply Wb in Hx. lia.
      * apply We in Hx. lia.
      * apply list_elem_of_singleton in Hx as [= ->]. lia.
    + intros props k. rewrite !code_app, <- !app_assoc. apply Xb.
      * intros Hx%We. lia.
      * rewrite Xe. done.
  - cbn in H. destruct (negb _); [done|]. injection H as <-.
    eexists [_]. split; [done|]. split; [cbn; lia|]. split; [|done].
    intros x Hx. by apply list_elem_of_singleton in Hx.
  - cbn in H. destruct (negb _); [done|]. injection H as <-. apply emits_refl.
Qed.

Lemma compile_block_emits l c c' :
  compile_block table l c = Ok c' → emits c c' (λ props, eval_block props table l).
Proof.
  apply compile_block_from_emits. apply Forall_forall. intros s _. apply compile_statement_emits.
Qed.
End compile_lemmas.

Lemma compile_statements_decide table stmts new_bytecode insts props :
  compile_statements table stmts new_bytecode = Ok insts →
  exec props None (code insts) = eval_block props table stmts.
Proof.
  unfold compile_statements. intros H. apply bind_Ok_iff in H as (c & Hc & [= <-]).
  apply compile_block_emits in Hc as (new & E & _ & _ & X). cbn in E. subst.
  destruct new_bytecode; cbn.
  - rewrite <- (app_nil_r (code _)), X. by destruct (eval_block _ _ _) as [[]| |].
  - rewrite code_app, X. by destruct (eval_block _ _ _) as [[]| |].
Qed.
