(* ===== verification/LabelBound.v ===== *)
(** The [u32] counter of labels does not overflow: a statement takes as many
    labels as it has blocks, and a parsed text is longer than that. *)
From Stdlib Require Import ZArith Lia.
From stdpp Require Import base gmap strings countable list.
From S2P Require Import Prelude Nom NomCorrect BindLibrary ParserCommon BindRules CommonParser.
From S2P Require Import RulesParser ParserTotal SymbolTable Instruction Compiler.
From S2P Require Import CompilerCorrect.
Local Open Scope Z_scope.

#[local] Existing Instance unbounded.

(** ** The labels of a program *)

Fixpoint statement_labels (s : Statement) : nat :=
  match s with
  | Accept _ _ _ => 1
  | If _ blocks else_block =>
    S (sum_list_with (λ b, S (sum_list_with statement_labels b.2)) blocks +
       sum_list_with statement_labels else_block)
  | _ => 0
  end.

Definition block_labels (stmts : list Statement) : nat := sum_list_with statement_labels stmts.

Section compile.
Context (table : SymbolTable).

Lemma lookup_identifier_no_panic i : no_panic (lookup_identifier table i).
Proof. unfold lookup_identifier. auto with outcomes. Qed.

Lemma lookup_value_no_panic v : no_panic (lookup_value table v).
Proof. unfold lookup_value. destruct v; auto with outcomes. Qed.
#[local] Hint Resolve lookup_identifier_no_panic lookup_value_no_panic : outcomes.

(** Goes past a lookup, which takes no label. *)
Ltac after_lookup := apply spends_after; [auto with outcomes|intros ? _].

Abbreviation takes c n m := (spends next_label_id (next_label_id c) (Z.of_nat n) m).

Lemma get_unique_label_takes {B} (key : B → Z) c n (k : Z * Compiler → outcome CompilerError B) :
  spends key (next_label_id c + 1) (Z.of_nat n) (k (next_label_id c, next_label c)) →
  spends key (next_label_id c) (Z.of_nat (S n)) (p ← get_unique_label c; k p).
Proof.
  intros Hk. unfold get_unique_label. case_match eqn:Hlt; cbn [mbind outcome_bind]; bool_props.
  - unfold next_label in Hk. destruct (k _); cbn in *; lia.
  - cbn. lia.
Qed.

Lemma compile_accept_takes span i vs c : takes c 1 (compile_accept table span i vs c).
Proof.
  unfold compile_accept. after_lookup.
  apply get_unique_label_takes. change (Z.of_nat 0) with (0 + 0).
  apply spends_bind with (key := next_label_id); [|done|intros c1 _; cbn; lia].
  change (next_label_id c + 1) with (next_label_id (next_label c)). generalize (next_label c) as c1.
  induction vs as [|v vs IH]; intros c1; [cbn; lia|]. cbn [try_fold].
  pose proof (lookup_value_no_panic v) as Hv.
  destruct (lookup_value table v) as [r| |]; [apply (IH (push c1 _ _))|done|done].
Qed.

Definition statement_takes (s : Statement) : Prop :=
  ∀ n has_next c, takes c (statement_labels s) (compile_statement table n has_next s c).

Lemma compile_block_from_takes n l c :
  Forall statement_takes l → takes c (block_labels l) (compile_block_from table n l c).
Proof.
  intros Hl. revert c. induction Hl as [|s l Hs Hl IH]; intros c; cbn; [lia|].
  rewrite Nat2Z.inj_add. eapply spends_bind; [apply Hs|lia|]. intros c1 _. apply IH.
Qed.

Lemma compile_blocks_takes f bs c :
  Forall (λ b : Condition * list Statement, Forall statement_takes b.2) bs →
  takes c (sum_list_with (λ b, S (block_labels b.2)) bs) (compile_blocks table f bs c).
Proof.
  intros Hbs. revert c. induction Hbs as [|[cond b] bs Hb Hbs IH]; intros c; cbn; [lia|].
  do 2 after_lookup. apply get_unique_label_takes. rewrite Nat2Z.inj_add.
  eapply (spends_bind next_label_id);
    [by apply (compile_block_from_takes _ _ (push (next_label c) _ _))|lia|].
  intros c2 _. apply (IH (push (push c2 _ _) _ _)).
Qed.

Lemma compile_statement_takes s : statement_takes s.
Proof.
  induction s as [span cond|span i vs|span blocks els Hblocks Hels|span|span]
    using Statement_nested_ind; intros n has_next c.
  - cbn. unfold compile_condition.
    do 2 after_lookup. cbn. lia.
  - apply compile_accept_takes.
  - rewrite compile_statement_if. destruct has_next; [done|]. cbn [statement_labels].
    apply get_unique_label_takes. rewrite Nat2Z.inj_add.
    eapply (spends_bind next_label_id); [by apply (compile_blocks_takes _ _ (next_label c))|lia|].
    intros c2 _. fold (block_labels els). rewrite <- (Z.add_0_r (Z.of_nat _)).
    eapply (spends_bind next_label_id); [by apply compile_block_from_takes|done|].
    intros c3 _. cbn. lia.
  - cbn. case_match; [done|]. cbn. lia.
  - cbn. case_match; [done|]. cbn. lia.
Qed.

(** Compiling statements with fewer than 2^32 labels does not panic. *)
Lemma compile_statements_no_panic stmts nb :
  Z.of_nat (block_labels stmts) < u32_size → no_panic (compile_statements table stmts nb).
Proof.
  intros Hlt. unfold compile_statements. apply bind_no_panic; [|by intros].
  apply (spends_no_panic next_label_id 0 (Z.of_nat (block_labels stmts))); [|lia].
  apply (compile_block_from_takes _ _ new_compiler), Forall_forall.
  intros s _. apply compile_statement_takes.
Qed.
End compile.

(** ** Parsed values are no heavier than their text *)

(** A value parsed by [p] weighs at most as much, by [w], as the text it took. *)
Definition bounded {E O} (w : O → nat) (p : Parser E O) : Prop :=
  ∀ i i' o, p i = Ok (i', o) → (w o + length (fragment i') <= length (fragment i))%nat.

Section weights.
Context {E : Type} `{!ParseError E}.

Lemma good_bounded {O} b (p : Parser E O) :
  (∀ n, good b n p) → bounded (λ _, if b then 1%nat else 0%nat) p.
Proof.
  intros Hp i i' o Hok. pose proof (good_well b i p (Hp _)) as Hw. rewrite Hok in Hw.
  destruct Hw as [Ha Hb]. apply after_length in Ha. destruct b; [specialize (Hb eq_refl)|]; lia.
Qed.

Lemma bounded_weaken {O} (v w : O → nat) (p : Parser E O) :
  bounded v p → (∀ o, w o <= v o)%nat → bounded w p.
Proof. intros Hp Hvw i i' o Hok. specialize (Hp _ _ _ Hok). specialize (Hvw o). lia. Qed.

Lemma bounded_bind {A B} (v : A → nat) (w : B → nat) (m : IResult E A) (k : NomSpan * A → IResult E B) i i' o :
  (∀ i1 a, m = Ok (i1, a) → (v a + length (fragment i1) <= length (fragment i))%nat) →
  (∀ i1 a, k (i1, a) = Ok (i', o) → (w o + length (fragment i') <= v a + length (fragment i1))%nat) →
  m ≫= k = Ok (i', o) → (w o + length (fragment i') <= length (fragment i))%nat.
Proof.
  intros Hm Hk H. apply bind_Ok_iff in H as ([i1 a] & H1 & H2).
  specialize (Hm _ _ H1). specialize (Hk _ _ H2). lia.
Qed.

Lemma pmap_bounded {A B} (w : B → nat) (f : Parser E A) (g : A → B) :
  bounded (λ a, w (g a)) f → bounded w (pmap f g).
Proof.
  intros Hf i i' o. apply (bounded_bind (λ a, w (g a))); [by apply Hf|]. by intros i1 a [= <- <-].
Qed.

Lemma preceded_bounded {A B} v (w : B → nat) (f : Parser E A) (g : Parser E B) :
  bounded (λ _, v) f → bounded w g → bounded (λ b, v + w b)%nat (preceded f g).
Proof.
  intros Hf Hg i i' o. apply (bounded_bind (λ _, v) (λ b, v + w b)%nat); [by apply Hf|].
  intros i1 a Hok%Hg. lia.
Qed.

Lemma terminated_bounded {A B} v (w : A → nat) (f : Parser E A) (g : Parser E B) :
  bounded w f → bounded (λ _, v) g → bounded (λ a, w a + v)%nat (terminated f g).
Proof.
  intros Hf Hg i i' o. apply (bounded_bind w (λ a, w a + v)%nat); [by apply Hf|]. intros i1 a H.
  apply bind_Ok_iff in H as ([i2 b] & H2%Hg & [= <- <-]). lia.
Qed.

Lemma tuple2_bounded {A B} (v : A → nat) (w : B → nat) (f : Parser E A) (g : Parser E B) :
  bounded v f → bounded w g → bounded (λ p, v p.1 + w p.2)%nat (tuple2 f g).
Proof.
  intros Hf Hg i i' o. apply (bounded_bind v (λ p, v p.1 + w p.2)%nat); [by apply Hf|]. intros i1 a H.
  apply bind_Ok_iff in H as ([i2 b] & H2%Hg & [= <- <-]). cbn. lia.
Qed.

Lemma delimited_bounded {A B C} u (w : B → nat) (f : Parser E A) (g : Parser E B) (h : Parser E C) :
  bounded (λ _, u) f → bounded w g → bounded (λ _, 0%nat) h →
  bounded (λ b, u + w b)%nat (delimited f g h).
Proof.
  intros Hf Hg Hh i i' o. apply (bounded_bind (λ _, u) (λ b, u + w b)%nat); [by apply Hf|].
  intros i1 a H. apply bind_Ok_iff in H as ([i2 b] & H2%Hg & H).
  apply bind_Ok_iff in H as ([i3 c] & H3%Hh & [= <- <-]). lia.
Qed.

Lemma many_loop_bounded {A} (w : A → nat) kind (f : Parser E A) fuel i acc i' l :
  bounded w f → many_loop kind f fuel i acc = Ok (i', l) →
  (sum_list_with w l + length (fragment i') <= sum_list_with w acc + length (fragment i))%nat.
Proof.
  intros Hf. revert i acc. induction fuel as [|fuel IH]; intros i acc; cbn; [done|].
  destruct (f i) as [[i1 o]|[|e|e]|] eqn:Hok; try done; [|by intros [= <- <-]].
  apply Hf in Hok. case_decide as Hne; [done|]. intros H%IH. rewrite sum_list_with_app in H. cbn in H. lia.
Qed.

Lemma many1_bounded {A} (w : A → nat) (f : Parser E A) :
  bounded w f → bounded (sum_list_with w) (many1 f).
Proof.
  intros Hf i i' l. unfold many1. destruct (f i) as [[i1 o]|[|e|e]|] eqn:Hok; try done.
  intros H%(many_loop_bounded w); [|done]. apply Hf in Hok. cbn in H. lia.
Qed.

Lemma separated_loop_bounded {A B} (w : A → nat) (sep : Parser E B) (f : Parser E A) fuel i acc i' l :
  bounded (λ _, 0%nat) sep → bounded w f → separated_loop sep f fuel i acc = Ok (i', l) →
  (sum_list_with w l + length (fragment i') <= sum_list_with w acc + length (fragment i))%nat.
Proof.
  intros Hs Hf. revert i acc. induction fuel as [|fuel IH]; intros i acc; cbn; [done|].
  destruct (sep i) as [[i1 o]|[|e|e]|] eqn:Hok; try done; [|by intros [= <- <-]].
  apply Hs in Hok. case_decide as Hne; [done|].
  destruct (f i1) as [[i2 o2]|[|e|e]|] eqn:Hok2; try done; [|by intros [= <- <-]].
  apply Hf in Hok2. case_decide as Hne2; [done|]. intros H%IH. rewrite sum_list_with_app in H. cbn in H. lia.
Qed.

Lemma separated_nonempty_list_bounded {A B} (w : A → nat) (sep : Parser E B) (f : Parser E A) :
  bounded (λ _, 0%nat) sep → bounded w f → bounded (sum_list_with w) (separated_nonempty_list sep f).
Proof.
  intros Hs Hf i i' l H. apply bind_Ok_iff in H as ([i1 o] & Hok%Hf & H). case_decide as Hne; [done|].
  apply (separated_loop_bounded w) in H; [|done..]. cbn in H. lia.
Qed.

Lemma alt_bounded {A} (w : A → nat) (ps : list (Parser E A)) : Forall (bounded w) ps → bounded w (alt ps).
Proof.
  unfold alt. generalize (@None E) as err. induction ps as [|p ps IH]; intros err Hps i i' o; cbn.
  - by destruct err.
  - apply Forall_cons in Hps as [Hp Hps].
    destruct (p i) as [[i1 a]|[|e|e]|] eqn:Hok; try done; [|by apply IH].
    intros [= <- <-]. by apply Hp in Hok.
Qed.
End weights.

(** ** Rules and composites *)

Lemma ws_bounded {O} (w : O → nat) (f : BindParser O) : bounded w f → bounded w (ws f).
Proof.
  intros Hf. apply (preceded_bounded 0); [|done].
  apply (good_bounded false), comment_or_whitespace_good.
Qed.

Lemma token_bounded t f : bounded (λ _, 0%nat) (token t f).
Proof.
  eapply bounded_weaken; [eapply good_bounded; intros; apply token_good|intros; cbn; lia].
Qed.

(** A parser that goes past whitespace first, and reads the span at the end. *)
Lemma from_bounded {O} (w : O → nat) i (k : NomSpan → IResult BindParserError O) i' o :
  (∀ from, k from = Ok (i', o) → (w o + length (fragment i') <= length (fragment from))%nat) →
  (from ← skip_ws i; k from) = Ok (i', o) → (w o + length (fragment i') <= length (fragment i))%nat.
Proof.
  intros Hk. unfold skip_ws. intros H. apply bind_Ok_iff in H as (from & H1 & H%Hk).
  apply bind_Ok_iff in H1 as ([i1 []] & H1 & [= <-]).
  apply (good_bounded false) in H1; [lia|apply comment_or_whitespace_good].
Qed.

Abbreviation labels_bounded p := (bounded statement_labels (p : BindParser Statement)).

Lemma good_no_labels (p : BindParser Statement) :
  (∀ n, good true n p) → (∀ i i' s, p i = Ok (i', s) → (statement_labels s <= 1)%nat) →
  labels_bounded p.
Proof.
  intros Hg Hp i i' s Hok. pose proof (good_bounded true p Hg _ _ _ Hok). specialize (Hp _ _ _ Hok).
  cbn in *. lia.
Qed.

Ltac one_label :=
  intros i i' s H; apply bind_Ok_iff in H as (from & _ & H);
  apply bind_Ok_iff in H as ([to a] & _ & H); try destruct a;
  apply bind_Ok_iff in H as (span & _ & [= _ <-]); cbn; lia.

Lemma condition_statement_labels : labels_bounded condition_statement.
Proof. apply good_no_labels; [auto with parsers|one_label]. Qed.

Lemma accept_labels : labels_bounded accept.
Proof. apply good_no_labels; [auto with parsers|one_label]. Qed.

Lemma keyword_false_labels : labels_bounded keyword_false.
Proof. apply good_no_labels; [auto with parsers|one_label]. Qed.

Lemma keyword_true_labels : labels_bounded keyword_true.
Proof. apply good_no_labels; [auto with parsers|one_label]. Qed.

(** The brace of a block pays for the label behind it. *)
Lemma statement_block_with_labels st :
  labels_bounded st → bounded (λ l, S (block_labels l)) (statement_block_with st).
Proof.
  intros Hst. unfold statement_block_with. apply (delimited_bounded 1 block_labels).
  - apply (good_bounded true). intros. apply (token_good "{").
  - by apply many1_bounded, ws_bounded.
  - apply token_bounded.
Qed.

(** The word [else] pays for the label at the end. *)
Lemma if_statement_with_labels st : labels_bounded st → labels_bounded (if_statement_with st).
Proof.
  intros Hst i i' s. apply from_bounded. intros from H.
  pose proof (statement_block_with_labels st Hst) as Hb.
  apply bind_Ok_iff in H as ([i1 blocks] & H1 & H). apply bind_Ok_iff in H as ([to els] & H2 & H).
  apply bind_Ok_iff in H as (span & _ & [= <- <-]).
  apply (separated_nonempty_list_bounded (λ b, S (block_labels b.2))) in H1; [|apply token_bounded|].
  - apply (preceded_bounded 1 (λ l, S (block_labels l))) in H2; [| |done].
    + cbn [statement_labels]. unfold block_labels in *. lia.
    + apply (good_bounded true). intros. apply (token_good "else").
  - eapply bounded_weaken; [eapply (tuple2_bounded (λ _, 0%nat)); [|exact Hb]|cbn; lia].
    eapply bounded_weaken; [apply (good_bounded true)|intros; cbn; lia].
    intros n. eapply (preceded_good true true); [apply (token_good "if")|auto with parsers].
Qed.

Lemma statement_fuel_labels n : labels_bounded (statement_fuel n).
Proof.
  induction n as [|n IH]; [by intros i i' o|]. cbn [statement_fuel]. apply alt_bounded.
  repeat constructor; auto using condition_statement_labels, if_statement_with_labels, accept_labels,
    keyword_false_labels, keyword_true_labels.
Qed.

Lemma statement_bounded : labels_bounded statement.
Proof. intros i i' s. apply statement_fuel_labels. Qed.

Lemma until_eof_loop_bounded {O} (w : O → nat) (f : BindParser O) fuel i acc i' l :
  bounded w f → until_eof_loop f fuel i acc = Ok (i', l) →
  (sum_list_with w l + length (fragment i') <= sum_list_with w acc + length (fragment i))%nat.
Proof.
  intros Hf. revert i acc. induction fuel as [|fuel IH]; intros i acc; cbn [until_eof_loop]; [done|].
  intros H. apply bind_Ok_iff in H as (rest & Hr & H). apply bind_Ok_iff in Hr as ([r []] & Hr & [= <-]).
  apply (good_bounded false) in Hr as Hlen; [|apply comment_or_whitespace_good].
  case_decide as Hnil.
  - unfold skip_ws in H. rewrite Hr in H. cbn in H. injection H as <- <-. cbn in *. lia.
  - apply bind_Ok_iff in H as ([i1 o] & Hok%Hf & H). case_decide; [done|].
    apply IH in H. rewrite sum_list_with_app in H. cbn in H. lia.
Qed.

Lemma many_until_eof_bounded {O} (w : O → nat) (f : BindParser O) :
  bounded w f → bounded (sum_list_with w) (many_until_eof f).
Proof. intros Hf i i' l H. by apply (until_eof_loop_bounded w) in H. Qed.

Lemma rules_bounded : bounded (λ ast, block_labels (statements ast)) rules.
Proof.
  intros i i' ast H. apply bind_Ok_iff in H as ([i1 us] & H1 & H).
  apply (good_bounded false) in H1; [|auto with parsers].
  apply bind_Ok_iff in H as ([i2 stmts] & H2 & H). case_decide; [done|]. injection H as <- <-.
  apply (many_until_eof_bounded statement_labels) in H2; [|apply ws_bounded, statement_bounded].
  cbn in *. unfold block_labels. lia.
Qed.

Lemma run_parser_bounded {O} (w : O → nat) (p : BindParser O) input o :
  bounded w p → run_parser p input = Ok o → (w o <= length input)%nat.
Proof.
  intros Hp. unfold run_parser. destruct (p (new_span input)) as [[i o']|[]|] eqn:Hok; try done.
  intros [= <-]. apply Hp in Hok. cbn in Hok. lia.
Qed.

(** Parsed rules have no more labels than their text has bytes. *)
Lemma rules_try_from_labels input ast : len input < 2 ^ 31 →
  rules_try_from input = Ok ast → (block_labels (statements ast) <= length input)%nat.
Proof.
  intros Hlen. rewrite rules_try_from_short by done.
  apply (run_parser_bounded (λ ast, block_labels (statements ast))), rules_bounded.
Qed.

Lemma node_bounded : bounded (λ n, block_labels n.2) node.
Proof.
  intros i i' n H. apply bind_Ok_iff in H as ([i1 ks] & H1 & H).
  apply (good_bounded true) in H1; [|intros; eapply (tuple2_good false true); eauto with parsers;
    apply (token_good "node")].
  apply bind_Ok_iff in H as ([i2 name] & H2 & H).
  apply (good_bounded true) in H2; [|intros; unfold parse_node_name; eauto with parsers].
  apply bind_Ok_iff in H as ([i3 stmts] & H3 & [= <- <-]).
  apply (statement_block_with_labels statement) in H3; [|apply statement_bounded]. cbn beta in H3. cbn [snd]. lia.
Qed.

(** Sorting the nodes loses none of their statements and adds none. *)
Lemma sort_node_statements input st n st' (P : list Statement → Prop) :
  sort_node input st n = Ok st' → P n.2 →
  Forall (λ c, P (node_statements c)) (option_list st.1.1 ++ st.1.2) →
  Forall (λ c, P (node_statements c)) (option_list st'.1.1 ++ st'.1.2).
Proof.
  destruct st as [[prim others] names], n as [[is_primary name] stmts]. cbn. intros H Hn Hst.
  case_bool_decide; [done|]. apply Forall_app in Hst as [H1 H2].
  destruct is_primary; [destruct prim; [done|]|]; injection H as <-; cbn.
  - by constructor.
  - rewrite !Forall_app. by repeat constructor.
Qed.

Lemma sort_nodes_bounded m i i' p :
  (length (fragment i) <= m)%nat → sort_nodes i = Ok (i', p) →
  Forall (λ c, block_labels (node_statements c) <= m)%nat (p.1 :: p.2).
Proof.
  intros Hm H. apply bind_Ok_iff in H as ([i1 ns] & H1 & H).
  apply (many_until_eof_bounded (λ n, block_labels n.2)) in H1; [|apply ws_bounded, node_bounded].
  case_decide; [done|]. apply bind_Ok_iff in H as ([[prim others] names] & H2 & H).
  destruct prim as [prim|]; [|done]. injection H as <- <-.
  assert (Forall (λ n, block_labels n.2 <= m)%nat ns) as Hns.
  { apply Forall_forall. intros n Hn. apply (sum_list_with_in _ (λ n, block_labels n.2)) in Hn. lia. }
  change (prim :: others) with (option_list (Some prim, others, names).1.1 ++ others).
  refine (try_fold_inv
    (λ st, Forall (λ c, block_labels (node_statements c) <= m)%nat (option_list st.1.1 ++ st.1.2))
    _ _ _ _ _ _ H2); [constructor|].
  intros st n st' Hin Hst Hok.
  eapply (sort_node_statements _ _ _ _ (λ l, block_labels l <= m)%nat Hok); [|done].
  by eapply Forall_forall in Hns.
Qed.

Lemma composite_try_from_labels input ast : len input < 2 ^ 31 →
  composite_try_from input = Ok ast →
  Forall (λ c, block_labels (node_statements c) <= length input)%nat (ast_primary_node ast :: nodes ast).
Proof.
  intros Hlen. rewrite composite_try_from_short by done. clear Hlen. unfold run_parser.
  destruct (composite (new_span input)) as [[i o']|[]|] eqn:Hok; try done. intros [= <-].
  apply bind_Ok_iff in Hok as ([i1 [[name us] [prim others]]] & H & [= <- <-]). cbn.
  apply bind_Ok_iff in H as ([i2 a] & H1 & H). apply bind_Ok_iff in H as ([i3 b] & H2 & H).
  apply bind_Ok_iff in H as ([i4 c] & H3 & [= <- <- <- ->]).
  apply (good_bounded true) in H1;
    [|intros; unfold parse_composite_name, keyword_composite; good_auto].
  apply (good_bounded false) in H2; [|auto with parsers].
  cbn in H1, H2. eapply sort_nodes_bounded in H3; [exact H3|lia].
Qed.
