(* ===== verification/CompilerShapes.v ===== *)
(** The shapes of the instructions the compiler emits: each comes from a
    statement of the source, with the symbols its operands resolve to and the
    location the debuggers expect ([compile_statements_shapes]). *)
From Stdlib Require Import ZArith Lia.
From stdpp Require Import base gmap strings countable list.
From S2P Require Import Prelude BindLibrary ParserCommon BindRules SymbolTable Instruction.
From S2P Require Import Compiler Semantics CompilerCorrect.
Local Open Scope Z_scope.

(** The right-hand sides a statement mentions. *)
Fixpoint statement_values (s : Statement) : list Value :=
  match s with
  | ConditionStatement _ c => [rhs c]
  | Accept _ _ vs => vs
  | If _ blocks else_block =>
    List.flat_map (λ b, rhs b.1 :: List.flat_map statement_values b.2) blocks ++
    List.flat_map statement_values else_block
  | False_ _ | True_ _ => []
  end.

Definition block_values (stmts : list Statement) : list Value :=
  List.flat_map statement_values stmts.

(** One instruction compiled from a source whose right-hand sides are [vals]. *)
Inductive shape (table : SymbolTable) (vals : list Value) : SymbolicInstructionInfo → Prop :=
| Shape_condition span cond l r :
    lookup_identifier table (lhs cond) = Ok l → lookup_value table (rhs cond) = Ok r →
    rhs cond ∈ vals →
    shape table vals (mkSymInfo (Some (AL_ConditionStatement (ConditionStatement span cond)))
      (match op cond with Equals => AbortIfNotEqual l r | NotEquals => AbortIfEqual l r end))
| Shape_accept_value key v span l r label :
    lookup_identifier table key = Ok l → lookup_value table v = Ok r → v ∈ vals →
    shape table vals (mkSymInfo (Some (AL_AcceptStatementValue key v span)) (JumpIfEqual l r label))
| Shape_accept_failure key l span :
    lookup_identifier table key = Ok l →
    shape table vals (mkSymInfo (Some (AL_AcceptStatementFailure key l span)) UnconditionalAbort)
| Shape_if cond l r label :
    lookup_identifier table (lhs cond) = Ok l → lookup_value table (rhs cond) = Ok r →
    rhs cond ∈ vals →
    shape table vals (mkSymInfo (Some (AL_IfCondition cond)) (if_jump cond l r label))
| Shape_false span :
    shape table vals (mkSymInfo (Some (AL_FalseStatement (False_ span))) UnconditionalAbort)
| Shape_jump label : shape table vals (mkSymInfo None (UnconditionalJump label))
| Shape_label label : shape table vals (mkSymInfo None (SLabel label)).

Create HintDb shapes.
#[export] Hint Constructors shape : shapes.

Section shapes.
Context (table : SymbolTable) (vals : list Value).

Definition shaped (c : Compiler) : Prop := Forall (shape table vals) (emitted c).

Lemma shaped_push c loc i : shaped c → shape table vals (mkSymInfo loc i) → shaped (push c loc i).
Proof. intros Hc Hi. apply Forall_app. split; [done|]. by constructor. Qed.

Definition statement_shaped (s : Statement) : Prop :=
  statement_values s ⊆ vals →
  ∀ n has_next c c', compile_statement table n has_next s c = Ok c' → shaped c → shaped c'.

Lemma compile_block_from_shaped n l c c' :
  Forall statement_shaped l → block_values l ⊆ vals →
  compile_block_from table n l c = Ok c' → shaped c → shaped c'.
Proof.
  intros Hl. revert c. induction Hl as [|s l Hs Hl IH]; intros c Hv H Hc.
  - by injection H as <-.
  - cbn in H. apply bind_Ok_iff in H as (c1 & H1 & H).
    unfold block_values in Hv. cbn in Hv.
    eapply IH; [set_solver|exact H|]. eapply Hs; [set_solver|exact H1|done].
Qed.

Lemma compile_blocks_shaped f bs c c' :
  Forall (λ b : Condition * list Statement, Forall statement_shaped b.2) bs →
  List.flat_map (λ b, rhs b.1 :: block_values b.2) bs ⊆ vals →
  compile_blocks table f bs c = Ok c' → shaped c → shaped c'.
Proof.
  intros Hbs. revert c. induction Hbs as [|[cond b] bs Hb Hbs IH]; intros c Hv H Hc.
  - by injection H as <-.
  - cbn in Hv, H.
    apply bind_Ok_iff in H as (l & Hl & H). apply bind_Ok_iff in H as (r & Hr & H).
    apply get_unique_label_Ok in H. apply bind_Ok_iff in H as (c2 & H2 & H).
    eapply IH; [set_solver|exact H|]. do 2 (apply shaped_push; [|constructor]).
    eapply compile_block_from_shaped; [exact Hb|set_solver|exact H2|].
    apply shaped_push; [done|]. constructor; [done|done|set_solver].
Qed.

Lemma accept_jumps_shaped key l lbl span vs c c' :
  lookup_identifier table key = Ok l → vs ⊆ vals →
  try_fold (λ c value,
        rhs_symbol ← lookup_value table value;
        Ok (push c (Some (AL_AcceptStatementValue key value span))
              (JumpIfEqual l rhs_symbol lbl))) c vs = Ok c' →
  shaped c → shaped c'.
Proof.
  intros Hl Hvs H Hc. revert H. apply (try_fold_inv shaped); [done|].
  intros c1 v c2 Hv Hc1 H. apply bind_Ok_iff in H as (r & Hr & [= <-]).
  apply shaped_push; [done|]. constructor; [done|done|by apply Hvs].
Qed.

Lemma compile_statement_shaped s : statement_shaped s.
Proof.
  induction s as [span cond|span key vs|span blocks else_block Hbs Helse|span|span]
    using Statement_nested_ind; intros Hv n has_next c c' H Hc.
  - apply bind_Ok_iff in H as (l & Hl & H). apply bind_Ok_iff in H as (r & Hr & [= <-]).
    apply shaped_push; [done|]. constructor; [done|done|cbn in Hv; set_solver].
  - apply bind_Ok_iff in H as (l & Hl & H). apply get_unique_label_Ok in H.
    apply bind_Ok_iff in H as (c1 & H1 & [= <-]).
    apply shaped_push; [|constructor]. apply shaped_push; [|by constructor].
    by eapply accept_jumps_shaped; [exact Hl|exact Hv|exact H1|].
  - rewrite compile_statement_if in H. destruct has_next; [done|]. cbn in Hv.
    apply get_unique_label_Ok in H. apply bind_Ok_iff in H as (c1 & H1 & H). apply bind_Ok_iff in H as (c2 & H2 & [= <-]).
    apply shaped_push; [|constructor].
    eapply compile_block_from_shaped; [exact Helse|set_solver|exact H2|].
    eapply compile_blocks_shaped; [exact Hbs| |exact H1|done]. set_solver.
  - cbn in H. destruct (negb _); [done|]. injection H as <-. by apply shaped_push; [|constructor].
  - cbn in H. destruct (negb _); [done|]. by injection H as <-.
Qed.
End shapes.

(** Everything [compile_statements] returns has a shape; the old format ends
    with the instruction that binds. *)
Lemma compile_statements_shapes table stmts nb insts :
  compile_statements table stmts nb = Ok insts →
  ∃ body, insts = body ++ (if nb then [] else [mkSymInfo None UnconditionalBind]) ∧
          Forall (shape table (block_values stmts)) body.
Proof.
  intros H. apply bind_Ok_iff in H as (c & Hc & [= <-]). exists (emitted c). split.
  - destruct nb; cbn; [by rewrite app_nil_r|done].
  - eapply compile_block_from_shaped; [|done|exact Hc|constructor].
    apply Forall_forall. intros s _. apply compile_statement_shaped.
Qed.
