(* ===== verification/SymbolTableCorrect.v ===== *)
(** The symbol table section round-trips: the encoder hands out the keys
    1, 2, .. in order, one per distinct string, and decoding the bytes it wrote
    gives back the map from keys to strings. *)
From Stdlib Require Import ZArith Lia.
From stdpp Require Import base gmap strings countable list.
From S2P Require Import Prelude Bytecode DecodeBindRules Instruction InstructionEncoder.
Local Open Scope Z_scope.

(** ** The section as a list of strings *)

(** The bytes of the strings, with keys from [k] on. *)
Fixpoint table_bytes (k : Z) (strs : list rstring) : list Z :=
  match strs with
  | [] => []
  | s :: r => to_le_bytes 4 k ++ s ++ 0 :: table_bytes (k + 1) r
  end.

(** The map the section denotes. *)
Fixpoint table_map (k : Z) (strs : list rstring) : gmap Z rstring :=
  match strs with
  | [] => ∅
  | s :: r => <[k := s]> (table_map (k + 1) r)
  end.

(** A string the format can carry: a Rust string ([utf8_valid]) that is not
    empty and has no zero byte. *)
Definition encodable (s : rstring) : Prop := s ≠ [] ∧ 0 ∉ s ∧ utf8_valid s = true.

#[export] Instance encodable_dec s : Decision (encodable s).
Proof. unfold encodable. apply _. Defined.

(** The state of the encoder after the distinct strings [strs]. *)
Record encodes (e : SymbolTableEncoder) (strs : list rstring) : Prop := {
  encodes_key : unique_key e = 1 + len strs;
  encodes_bytes : table_bytecode e = table_bytes 1 strs;
  encodes_lookup s k : encoded_symbols e !! s = Some k ↔ table_map 1 strs !! k = Some s;
  encodes_len : Forall (λ s, len s <= MAX_STRING_LENGTH) strs;
}.

Lemma table_map_lookup k strs j s :
  table_map k strs !! j = Some s ↔ k <= j ∧ strs !! Z.to_nat (j - k) = Some s.
Proof.
  revert k. induction strs as [|x strs IH]; intros k; cbn.
  - rewrite lookup_empty, lookup_nil. naive_solver.
  - destruct (decide (j = k)) as [->|Hne].
    + rewrite lookup_insert_eq, Z.sub_diag. cbn. split; [intros [= ->]; split; [lia|done]|].
      by intros [_ [= ->]].
    + rewrite lookup_insert_ne by done. rewrite IH. split.
      * intros [Hle Hs]. split; [lia|].
        replace (Z.to_nat (j - k)) with (S (Z.to_nat (j - (k + 1)))) by lia. done.
      * intros [Hle Hs]. split; [lia|].
        replace (Z.to_nat (j - k)) with (S (Z.to_nat (j - (k + 1)))) in Hs by lia. done.
Qed.

Lemma table_map_range k strs j s :
  table_map k strs !! j = Some s → k <= j < k + len strs.
Proof.
  intros [Hle Hs]%table_map_lookup. apply lookup_lt_Some in Hs. unfold len. lia.
Qed.

Lemma table_map_mono k strs strs' : strs `prefix_of` strs' → table_map k strs ⊆ table_map k strs'.
Proof.
  intros [r ->]. apply map_subseteq_spec. intros j s.
  rewrite !table_map_lookup. intros [Hle Hs]. split; [done|]. by apply lookup_app_l_Some.
Qed.

Lemma table_bytes_app k a b :
  table_bytes k (a ++ b) = table_bytes k a ++ table_bytes (k + len a) b.
Proof.
  revert k. induction a as [|s a IH]; intros k; cbn [app table_bytes].
  - unfold len. cbn. by rewrite Z.add_0_r.
  - rewrite IH, len_cons. replace (k + 1 + len a) with (k + (len a + 1)) by lia.
    by rewrite <- !app_assoc.
Qed.

Lemma table_map_snoc_eq k strs s :
  table_map k (strs ++ [s]) !! (k + len strs) = Some s.
Proof.
  apply table_map_lookup. unfold len. split; [lia|].
  replace (Z.to_nat (k + Z.of_nat (length strs) - k)) with (length strs) by lia.
  by apply list_lookup_middle.
Qed.

(** ** The encoder *)

Lemma new_encoder_encodes : encodes new_encoder [].
Proof. split; [done|done| |constructor]. intros s k. cbn. by rewrite !lookup_empty. Qed.

Lemma add_symbol_encodes e strs s k e' :
  encodes e strs → encoded_symbols e !! s = None → add_symbol e s = Ok (k, e') →
  k = 1 + len strs ∧ encodes e' (strs ++ [s]).
Proof.
  intros [Hk Hb Hl Hlen] Hnew. unfold add_symbol. rewrite Z.gtb_ltb.
  case_match eqn:Hsz; [done|]. bool_props. case_match; [|done].
  intros [= <- <-]. split; [done|]. split; cbn.
  - rewrite len_app. unfold len at 2. cbn. lia.
  - rewrite table_bytes_app, Hb, Hk. done.
  - intros s' j. rewrite Hk. destruct (decide (s' = s)) as [->|Hne].
    + rewrite lookup_insert_eq. split.
      * intros [= <-]. apply table_map_snoc_eq.
      * intros Hj. f_equal. apply table_map_lookup in Hj as [Hle Hj].
        apply lookup_snoc_Some in Hj as [[Hlt Hj]|[Heq _]]; [|unfold len; lia].
        assert (table_map 1 strs !! j = Some s) as Hold by by apply table_map_lookup.
        apply Hl in Hold. congruence.
    + rewrite lookup_insert_ne, Hl, !table_map_lookup by done.
      rewrite lookup_snoc_Some. split; [|naive_solver].
      intros [Hle Hs]. split; [done|]. left. split; [by eapply lookup_lt_Some|done].
  - apply Forall_app. split; [done|]. constructor; [lia|constructor].
Qed.

(** Asking for a key never forgets a string, and the key denotes it. *)
Lemma get_key_encodes e strs s k e' :
  encodes e strs → get_key e s = Ok (k, e') →
  ∃ strs', encodes e' strs' ∧ strs `prefix_of` strs' ∧ table_map 1 strs' !! k = Some s ∧
           (∀ x, x ∈ strs' → x ∈ strs ∨ x = s).
Proof.
  intros Henc. unfold get_key. destruct (encoded_symbols e !! s) as [k0|] eqn:Hs.
  - intros [= -> ->]. exists strs. split; [done|]. split; [done|].
    split; [by apply Henc|auto].
  - intros Hadd. destruct (add_symbol_encodes _ _ _ _ _ Henc Hs Hadd) as [-> Henc'].
    exists (strs ++ [s]). split; [done|]. split; [by exists [s]|]. split; [apply table_map_snoc_eq|].
    intros x [Hx|Hx]%elem_of_app; [auto|right]. by apply list_elem_of_singleton in Hx.
Qed.

(** ** The decoder on what the encoder wrote *)

Lemma read_string_bytes_app s acc rest :
  0 ∉ s → len (acc ++ s) <= MAX_STRING_LENGTH →
  read_string_bytes (s ++ 0 :: rest) acc = Ok (acc ++ s, rest).
Proof.
  revert acc. induction s as [|b s IH]; intros acc Hz Hlen; cbn.
  - by rewrite app_nil_r.
  - apply not_elem_of_cons in Hz as [Hb Hs].
    replace (b =? 0) with false by (symmetry; apply Z.eqb_neq; done).
    assert (len (acc ++ [b]) <= MAX_STRING_LENGTH).
    { rewrite len_app in *. rewrite len_cons in Hlen. unfold len at 2. cbn.
      pose proof (len_nonneg s). lia. }
    rewrite Z.gtb_ltb. replace (MAX_STRING_LENGTH <? len (acc ++ [b])) with false by lia.
    rewrite IH; rewrite <- ?app_assoc; done.
Qed.

Lemma read_string_app s rest :
  encodable s → len s <= MAX_STRING_LENGTH → read_string (s ++ 0 :: rest) = Ok (s, rest).
Proof.
  intros (Hne & Hz & Hutf) Hlen. unfold read_string.
  rewrite read_string_bytes_app by done. cbn.
  rewrite bool_decide_eq_false_2 by done. by rewrite Hutf.
Qed.

Lemma read_symbol_table_loop_bytes fuel k strs m :
  (length strs < fuel)%nat → 0 <= k → k + len strs < u32_size →
  Forall encodable strs → Forall (λ s, len s <= MAX_STRING_LENGTH) strs →
  (∀ j, k <= j → m !! j = None) →
  read_symbol_table_loop fuel (table_bytes k strs) m k = Some (Ok (table_map k strs ∪ m)).
Proof.
  revert fuel k m. induction strs as [|s strs IH]; intros [|fuel] k m Hfuel Hk Hmax Henc Hlen Hm;
    try (cbn in Hfuel; lia).
  - cbn. by rewrite (left_id_L ∅ (∪)).
  - apply Forall_cons in Henc as [Hs Henc]. apply Forall_cons in Hlen as [Hls Hlen].
    rewrite len_cons in Hmax. pose proof (len_nonneg strs).
    cbn [read_symbol_table_loop table_bytes].
    rewrite try_next_u32_app by (unfold is_u32; lia). rewrite Z.eqb_refl. cbn [negb].
    rewrite read_string_app by done. rewrite (proj2 (Z.ltb_lt _ _)) by lia.
    rewrite IH; [|cbn in Hfuel; lia|lia|lia|done|done|].
    + do 2 f_equal. cbn. rewrite <- insert_union_l, <- insert_union_r; [done|].
      apply eq_None_not_Some. intros [s' Hs']. apply table_map_range in Hs'. lia.
    + intros j Hj. rewrite lookup_insert_ne by lia. apply Hm. lia.
Qed.

Lemma length_table_bytes k strs : (5 * length strs <= length (table_bytes k strs))%nat.
Proof.
  revert k. induction strs as [|s strs IH]; intros k; cbn [table_bytes length]; [lia|].
  rewrite !length_app, length_to_le_bytes. cbn. specialize (IH (k + 1)). lia.
Qed.

Lemma read_symbol_table_bytes strs :
  1 + len strs < u32_size → Forall encodable strs →
  Forall (λ s, len s <= MAX_STRING_LENGTH) strs →
  read_symbol_table (table_bytes 1 strs) = Ok (table_map 1 strs).
Proof.
  intros Hmax Henc Hlen. unfold read_symbol_table, SYMB_TBL_START_KEY.
  rewrite read_symbol_table_loop_bytes; try done; try lia.
  - cbn. by rewrite (right_id_L ∅ (∪)).
  - pose proof (length_table_bytes 1 strs). lia.
Qed.
