(* ===== verification/InstructionCorrect.v ===== *)
(** The instruction encoder is correct: what [encode_instructions] returns is
    the concatenation of one piece per instruction, and after backpatching the
    offset of every jump is the number of bytes between the jump and its label,
    which is unique and lies after the jump ([encode_instructions_linked]). *)
From Stdlib Require Import ZArith Lia.
From stdpp Require Import base gmap strings countable list.
From S2P Require Import Prelude BindLibrary SymbolTable Bytecode Instruction InstructionEncoder.
From S2P Require Import InstructionEncoder DecodeBindRules SymbolTableCorrect Semantics.
Local Open Scope Z_scope.

(** ** Pieces *)

(** The bytes of one instruction: fixed, or a jump with its offset apart. *)
Inductive piece :=
| Plain (bs : list Z)
| Jump (op off : Z) (tail : list Z) (label : Z).

Definition piece_bytes (p : piece) : list Z :=
  match p with
  | Plain bs => bs
  | Jump op off tail _ => op :: to_le_bytes 4 off ++ tail
  end.

Definition bytes_of (ps : list piece) : list Z := concat (map piece_bytes ps).

(** The position of the [k]-th piece. *)
Definition pos (ps : list piece) (k : nat) : Z := len (bytes_of (take k ps)).

(** Equal up to the offset. *)
Definition same_shape (p q : piece) : Prop :=
  match p, q with
  | Plain a, Plain b => a = b
  | Jump op _ tail l, Jump op' _ tail' l' => op = op' ∧ tail = tail' ∧ l = l'
  | _, _ => False
  end.

(** The bytes of a value, with string keys in the table [tbl]. *)
Inductive value_bytes (tbl : gmap Z rstring) : Symbol → list Z → Prop :=
| VB_number n : value_bytes tbl (NumberValue n) (1 :: to_le_bytes 4 (as_u32 n))
| VB_bool (b : bool) : value_bytes tbl (BoolValue b) (3 :: to_le_bytes 4 (if b then 1 else 0))
| VB_string s k : tbl !! k = Some s → value_bytes tbl (StringValue s) (2 :: to_le_bytes 4 k)
| VB_key s t k : tbl !! k = Some s → value_bytes tbl (Key s t) (0 :: to_le_bytes 4 k)
| VB_deprecated k : value_bytes tbl (DeprecatedKey k) (1 :: to_le_bytes 4 k)
| VB_enum s k : tbl !! k = Some s → value_bytes tbl (EnumValue s) (4 :: to_le_bytes 4 k).

(** The bytes of the two operands of a comparison the encoder accepts. *)
Inductive operand_bytes (tbl : gmap Z rstring) (l r : Symbol) : list Z → Prop :=
| OB bl br : is_symbol_key l = true → is_Some (rhs_value_type r) →
    value_bytes tbl l bl → value_bytes tbl r br → operand_bytes tbl l r (bl ++ br).

Inductive piece_for (tbl : gmap Z rstring) : Instruction → piece → Prop :=
| PF_abort : piece_for tbl (Abort Always) (Plain [0x30])
| PF_abort_eq l r bs : operand_bytes tbl l r bs →
    piece_for tbl (Abort (Equal l r)) (Plain (0x02 :: bs))
| PF_abort_ne l r bs : operand_bytes tbl l r bs →
    piece_for tbl (Abort (NotEqual l r)) (Plain (0x01 :: bs))
| PF_goto off lbl : piece_for tbl (Goto Always lbl) (Jump 0x10 off [] lbl)
| PF_goto_eq l r off lbl bs : operand_bytes tbl l r bs →
    piece_for tbl (Goto (Equal l r) lbl) (Jump 0x11 off bs lbl)
| PF_goto_ne l r off lbl bs : operand_bytes tbl l r bs →
    piece_for tbl (Goto (NotEqual l r) lbl) (Jump 0x12 off bs lbl)
| PF_label l : piece_for tbl (Label l) (Plain [0x20]).

Create HintDb pieces.
#[export] Hint Constructors value_bytes operand_bytes piece_for : pieces.

Lemma value_bytes_mono tbl tbl' s bs :
  tbl ⊆ tbl' → value_bytes tbl s bs → value_bytes tbl' s bs.
Proof. intros Hsub. destruct 1; constructor; by eapply lookup_weaken. Qed.

Lemma operand_bytes_mono tbl tbl' l r bs :
  tbl ⊆ tbl' → operand_bytes tbl l r bs → operand_bytes tbl' l r bs.
Proof. intros Hsub. destruct 1. constructor; eauto using value_bytes_mono. Qed.

Lemma piece_for_mono tbl tbl' i p : tbl ⊆ tbl' → piece_for tbl i p → piece_for tbl' i p.
Proof. intros Hsub. destruct 1; constructor; eauto using operand_bytes_mono. Qed.

Lemma pieces_mono tbl tbl' insts ps :
  tbl ⊆ tbl' → Forall2 (piece_for tbl) insts ps → Forall2 (piece_for tbl') insts ps.
Proof. intros Hsub Hps. eapply Forall2_impl; [exact Hps|]. intros. by eapply piece_for_mono. Qed.

Lemma same_shape_refl p : same_shape p p.
Proof. by destruct p. Qed.

Lemma same_shape_len p q : same_shape p q → length (piece_bytes p) = length (piece_bytes q).
Proof.
  destruct p, q; cbn; try done; [by intros ->|]. intros (-> & -> & ->).
  done.
Qed.

Lemma same_shape_piece_for tbl i p q : same_shape p q → piece_for tbl i p → piece_for tbl i q.
Proof.
  destruct p, q; cbn; try done; [by intros ->|]. intros (-> & -> & ->).
  inversion 1; subst; by constructor.
Qed.

Lemma bytes_of_app a b : bytes_of (a ++ b) = bytes_of a ++ bytes_of b.
Proof. unfold bytes_of. by rewrite map_app, concat_app. Qed.

Lemma pos_app_l a b k : (k <= length a)%nat → pos (a ++ b) k = pos a k.
Proof. intros Hk. unfold pos. by rewrite take_app_le. Qed.

Lemma pos_length ps : pos ps (length ps) = len (bytes_of ps).
Proof. unfold pos. by rewrite take_ge. Qed.

Lemma pos_S ps k p : ps !! k = Some p → pos ps (S k) = pos ps k + len (piece_bytes p).
Proof.
  intros Hp. unfold pos. rewrite (take_S_r _ _ _ Hp), bytes_of_app, len_app.
  unfold bytes_of at 2. cbn. by rewrite app_nil_r.
Qed.

Lemma piece_for_nonempty tbl i p : piece_for tbl i p → 0 < len (piece_bytes p).
Proof.
  destruct 1; cbn [piece_bytes]; rewrite len_cons;
    match goal with |- 0 < len ?x + 1 => pose proof (len_nonneg x); lia end.
Qed.

(** Positions grow strictly. *)
Lemma pos_lt tbl insts ps j k :
  Forall2 (piece_for tbl) insts ps → (j < k)%nat → (k <= length ps)%nat → pos ps j < pos ps k.
Proof.
  intros Hps Hlt. induction Hlt as [|k Hlt IH]; intros Hk.
  - destruct (lookup_lt_is_Some_2 ps j) as [p Hp]; [lia|].
    rewrite (pos_S _ _ _ Hp).
    destruct (Forall2_lookup_r _ _ _ _ _ Hps Hp) as (i & _ & Hi).
    apply piece_for_nonempty in Hi. lia.
  - destruct (lookup_lt_is_Some_2 ps k) as [p Hp]; [lia|].
    rewrite (pos_S _ _ _ Hp). pose proof (len_nonneg (piece_bytes p)). lia.
Qed.

Lemma same_shape_pos ps qs k : Forall2 same_shape ps qs → pos ps k = pos qs k.
Proof.
  intros H. unfold pos, len. f_equal. revert k. induction H as [|p q ps qs Hp Hps IH]; intros k.
  - by destruct k.
  - destruct k; [done|]. cbn. unfold bytes_of in *. cbn. rewrite !length_app.
    rewrite IH. by rewrite (same_shape_len _ _ Hp).
Qed.

(** ** Appending values and comparisons *)

(** The strings a symbol puts in the table. *)
Definition symbol_strings (s : Symbol) : list rstring :=
  match s with
  | Key s _ | StringValue s | EnumValue s => [s]
  | _ => []
  end.

Definition condition_strings (c : InstCondition) : list rstring :=
  match c with
  | Always => []
  | Equal l r | NotEqual l r => symbol_strings l ++ symbol_strings r
  end.

Definition instruction_strings (i : Instruction) : list rstring :=
  match i with
  | Abort c | Match c | Goto c _ => condition_strings c
  | Label _ => []
  end.

Definition code_strings (insts : list Instruction) : list rstring :=
  insts ≫= instruction_strings.

(** The encoder appended [bs] and left the labels alone; its symbol table went
    from [strs] to [strs'], with only the strings of [new] added. *)
Record appended (st st' : EncoderState) (bs : list Z) (strs strs' new : list rstring) : Prop := {
  ap_labels : label_map st' = label_map st;
  ap_bytes : bytecode st' = bytecode st ++ bs;
  ap_encodes : encodes (symbols st') strs';
  ap_prefix : strs `prefix_of` strs';
  ap_new x : x ∈ strs' → x ∈ strs ∨ x ∈ new;
}.

Lemma appended_trans st1 st2 st3 a b s1 s2 s3 n1 n2 :
  appended st1 st2 a s1 s2 n1 → appended st2 st3 b s2 s3 n2 →
  appended st1 st3 (a ++ b) s1 s3 (n1 ++ n2).
Proof.
  intros [L1 B1 E1 P1 N1] [L2 B2 E2 P2 N2]. split.
  - by rewrite L2.
  - by rewrite B2, B1, app_assoc.
  - done.
  - by etrans.
  - intros x [Hx|Hx]%N2; [apply N1 in Hx as [|]|]; rewrite elem_of_app; auto.
Qed.

Lemma append_bytes_appended st bs strs :
  encodes (symbols st) strs → appended st (append_bytes st bs) bs strs strs [].
Proof. intros H. split; [done..|auto]. Qed.

Lemma append_value_appended st s st' strs :
  encodes (symbols st) strs → append_value st s = Ok st' →
  ∃ strs' bs, appended st st' bs strs strs' (symbol_strings s) ∧
              value_bytes (table_map 1 strs') s bs.
Proof.
  intros Henc. unfold append_value. intros H. apply bind_Ok_iff in H as ([[t v] e] & Hv & [= <-]).
  assert (∀ v' (str : rstring) t', get_key (symbols st) str = Ok (v', e) →
    symbol_strings s = [str] → t' = t → v' = v →
    (∀ tbl : gmap Z rstring, tbl !! v = Some str →
       value_bytes tbl s (RawValueType_as_u8 t :: to_le_bytes 4 v)) →
    ∃ strs' bs, appended st (mkEncoderState (label_map st)
      (bytecode st ++ RawValueType_as_u8 t :: to_le_bytes 4 v) e) bs strs strs' (symbol_strings s) ∧
      value_bytes (table_map 1 strs') s bs) as Hstring.
  { intros v' x t' Hk -> -> -> Htbl.
    destruct (get_key_encodes _ _ _ _ _ Henc Hk) as (strs' & Henc' & Hpre & Hlook & Hnew).
    exists strs', (RawValueType_as_u8 t :: to_le_bytes 4 v). split; [|by apply Htbl].
    split; try done. intros y Hy. rewrite list_elem_of_singleton. auto. }
  destruct s as [k|x vt|n|x|b|x]; cbn in Hv;
    try (apply bind_Ok_iff in Hv as ([key e'] & Hk & Hv)); injection Hv as <- <- <-;
    try (by eapply Hstring; [done|done|done|done|]; intros; constructor);
    exists strs; eexists; (split; [|constructor]); split; try done; auto.
Qed.

Lemma append_value_comparison_appended st l r st' strs :
  encodes (symbols st) strs → append_value_comparison st l r = Ok st' →
  ∃ strs' bs, appended st st' bs strs strs' (symbol_strings l ++ symbol_strings r) ∧
              operand_bytes (table_map 1 strs') l r bs.
Proof.
  intros Henc. unfold append_value_comparison.
  destruct (is_symbol_key l) eqn:Hl; [|done]. cbn [negb].
  intros H. apply bind_Ok_iff in H as (vt & Hvt%ok_or_Ok & H).
  apply bind_Ok_iff in H as (_ & _ & H). apply bind_Ok_iff in H as (st1 & H1 & H2).
  destruct (append_value_appended _ _ _ _ Henc H1) as (s1 & b1 & A1 & V1).
  destruct (append_value_appended _ _ _ _ (ap_encodes _ _ _ _ _ _ A1) H2) as (s2 & b2 & A2 & V2).
  exists s2, (b1 ++ b2). split; [by eapply appended_trans|].
  constructor; [done|by eexists| |done].
  eapply value_bytes_mono; [|exact V1]. apply table_map_mono, A2.
Qed.

(** ** The encoding loop *)

(** What [append_jmp_statement] records about the [k]-th instruction. *)
Definition jump_at (ps : list piece) (k : nat) : JumpInstructionOffsetInfo :=
  mkJump (pos ps k + 1) (pos ps (S k) - pos ps k - 1).

(** The state of [encode] after the instructions [insts]: the label map records
    every jump and every label, and a label is placed once, after the jumps to
    it. *)
Record encoding (insts : list Instruction) (ps : list piece) (strs : list rstring)
    (st : EncoderState) : Prop := {
  en_bytes : bytecode st = bytes_of ps;
  en_pieces : Forall2 (piece_for (table_map 1 strs)) insts ps;
  en_encodes : encodes (symbols st) strs;
  en_jump k c l : insts !! k = Some (Goto c l) →
    ∃ data, label_map st !! l = Some data ∧ jump_at ps k ∈ jump_instructions data;
  en_jump_inv l data j : label_map st !! l = Some data → j ∈ jump_instructions data →
    ∃ k c, insts !! k = Some (Goto c l) ∧ j = jump_at ps k;
  en_label k l : insts !! k = Some (Label l) →
    ∃ data, label_map st !! l = Some data ∧ label_index data = Some (pos ps k);
  en_label_inv l data p : label_map st !! l = Some data → label_index data = Some p →
    ∃ k, insts !! k = Some (Label l) ∧ p = pos ps k;
  en_order j k c l : insts !! j = Some (Goto c l) → insts !! k = Some (Label l) → (j < k)%nat;
  en_used l data : label_map st !! l = Some data →
    is_Some (label_index data) ∨ jump_instructions data ≠ [];
}.

Lemma encoding_length insts ps strs st : encoding insts ps strs st → length insts = length ps.
Proof. intros E. exact (Forall2_length _ _ _ (en_pieces _ _ _ _ E)). Qed.

Lemma jump_at_app ps p k : (k < length ps)%nat → jump_at (ps ++ [p]) k = jump_at ps k.
Proof. intros Hk. unfold jump_at. by rewrite !pos_app_l by lia. Qed.

Lemma label_placed_true m l :
  label_placed m l = true ↔ ∃ data p, m !! l = Some data ∧ label_index data = Some p.
Proof.
  unfold label_placed. destruct (m !! l) as [[[p|] js]|] eqn:Hm; naive_solver.
Qed.

(** Appending an instruction that is neither a jump nor a label. *)
Lemma encoding_plain insts ps strs strs' st st' i bs new :
  encoding insts ps strs st → appended st st' bs strs strs' new →
  piece_for (table_map 1 strs') i (Plain bs) →
  (∀ l, i ≠ Label l) →
  encoding (insts ++ [i]) (ps ++ [Plain bs]) strs' st'.
Proof.
  intros E A Hp Hlbl. pose proof (encoding_length _ _ _ _ E) as Hlen.
  assert (∀ c l, i ≠ Goto c l) as Hgoto by (intros c l ->; inversion Hp).
  assert (∀ k x, (insts ++ [i]) !! k = Some x → x ≠ i → (k < length ps)%nat ∧ insts !! k = Some x)
    as Hold.
  { intros k x [[Hk Hx]|[_ ->]]%lookup_snoc_Some Hne; [split; [lia|done]|done]. }
  destruct E as [Eb Ep Ee Ej Eji El Eli Eo Eu], A as [AL AB AE AP AN].
  split; rewrite ?AL.
  - rewrite AB, Eb, bytes_of_app. unfold bytes_of at 3. cbn. by rewrite app_nil_r.
  - apply Forall2_app; [|by constructor]. eapply pieces_mono; [|done]. by apply table_map_mono.
  - done.
  - intros k c l Hk. destruct (Hold _ _ Hk) as [Hlt Hk']; [intros <-; by eapply Hgoto|].
    rewrite jump_at_app by done. eauto.
  - intros l data j Hd Hj. destruct (Eji _ _ _ Hd Hj) as (k & c & Hk & ->).
    exists k, c. pose proof (lookup_lt_Some _ _ _ Hk).
    rewrite jump_at_app by lia. by rewrite lookup_app_l.
  - intros k l Hk. destruct (Hold _ _ Hk) as [Hlt Hk']; [intros <-; by eapply Hlbl|].
    rewrite pos_app_l by lia. eauto.
  - intros l data p Hd Hp'. destruct (Eli _ _ _ Hd Hp') as (k & Hk & ->).
    exists k. pose proof (lookup_lt_Some _ _ _ Hk).
    rewrite pos_app_l by lia. by rewrite lookup_app_l.
  - intros j k c l Hj Hk.
    destruct (Hold _ _ Hj) as [_ Hj']; [intros <-; by eapply Hgoto|].
    destruct (Hold _ _ Hk) as [_ Hk']; [intros <-; by eapply Hlbl|]. eauto.
  - done.
Qed.

(** Appending a label. *)
Lemma encoding_label insts ps strs st st' l :
  encoding insts ps strs st → append_and_update_label st l = Ok st' →
  encoding (insts ++ [Label l]) (ps ++ [Plain [0x20]]) strs st'.
Proof.
  intros E. pose proof (encoding_length _ _ _ _ E) as Hlen.
  unfold append_and_update_label. destruct (label_placed _ _) eqn:Hplaced; [done|].
  intros [= <-]. destruct E as [Eb Ep Ee Ej Eji El Eli Eo Eu].
  assert (∀ data p, label_map st !! l = Some data → label_index data ≠ Some p) as Hnone.
  { intros data p Hd Hi. apply not_true_iff_false in Hplaced.
    apply Hplaced, label_placed_true. eauto. }
  assert (pos (ps ++ [Plain [32]]) (length insts) = len (bytecode st)) as Hpos.
  { rewrite Hlen, pos_app_l by done. by rewrite pos_length, Eb. }
  set (data := default (mkLabelInfo None []) (label_map st !! l)).
  assert (∀ j, j ∈ jump_instructions data →
    ∃ d, label_map st !! l = Some d ∧ j ∈ jump_instructions d) as Hdata.
  { intros j. unfold data. destruct (label_map st !! l) as [d|]; cbn; [eauto|].
    intros Hj. by apply elem_of_nil in Hj. }
  split; cbn.
  - rewrite Eb, bytes_of_app. done.
  - apply Forall2_app; [done|]. constructor; [constructor|constructor].
  - done.
  - intros k c l' [[Hk Hx]|[_ ?]]%lookup_snoc_Some; [|done].
    rewrite jump_at_app by lia. destruct (Ej _ _ _ Hx) as (d & Hd & Hj).
    destruct (decide (l' = l)) as [->|Hne].
    + rewrite lookup_insert_eq. eexists. split; [done|]. cbn. unfold data. by rewrite Hd.
    + rewrite lookup_insert_ne by done. eauto.
  - intros l' d j Hd Hj.
    assert (∃ d, label_map st !! l' = Some d ∧ j ∈ jump_instructions d) as (d' & Hd' & Hj').
    { destruct (decide (l' = l)) as [->|Hne].
      - rewrite lookup_insert_eq in Hd. injection Hd as <-. by apply Hdata.
      - rewrite lookup_insert_ne in Hd by done. eauto. }
    destruct (Eji _ _ _ Hd' Hj') as (k & c & Hk & ->). pose proof (lookup_lt_Some _ _ _ Hk).
    exists k, c. rewrite jump_at_app by lia. by rewrite lookup_app_l.
  - intros k l' [[Hk Hx]|[-> [= ->]]]%lookup_snoc_Some.
    + rewrite pos_app_l by lia. destruct (El _ _ Hx) as (d & Hd & Hi).
      rewrite lookup_insert_ne by (intros <-; by eapply Hnone). eauto.
    + rewrite lookup_insert_eq. eexists. split; [done|]. cbn. by rewrite Hpos.
  - intros l' d p Hd Hi. destruct (decide (l' = l)) as [->|Hne].
    + rewrite lookup_insert_eq in Hd. injection Hd as <-. cbn in Hi. injection Hi as <-.
      exists (length insts). split; [by apply list_lookup_middle|done].
    + rewrite lookup_insert_ne in Hd by done.
      destruct (Eli _ _ _ Hd Hi) as (k & Hk & ->). pose proof (lookup_lt_Some _ _ _ Hk).
      exists k. rewrite pos_app_l by lia. by rewrite lookup_app_l.
  - intros j k c l' [[Hj Hxj]|[_ ?]]%lookup_snoc_Some; [|done].
    intros [[Hk Hxk]|[-> [= ->]]]%lookup_snoc_Some; eauto.
  - intros l' d Hd. destruct (decide (l' = l)) as [->|Hne].
    + rewrite lookup_insert_eq in Hd. injection Hd as <-. left. by eexists.
    + rewrite lookup_insert_ne in Hd by done. eauto.
Qed.

(** Recording a jump whose bytes were appended. *)
Lemma encoding_jump insts ps strs strs' st st1 c l p new :
  encoding insts ps strs st → appended st st1 (piece_bytes p) strs strs' new →
  piece_for (table_map 1 strs') (Goto c l) p →
  label_placed (label_map st1) l = false →
  encoding (insts ++ [Goto c l]) (ps ++ [p]) strs'
    (mkEncoderState
       (<[l := mkLabelInfo (label_index (default (mkLabelInfo None []) (label_map st1 !! l)))
                 (jump_instructions (default (mkLabelInfo None []) (label_map st1 !! l)) ++
                  [mkJump (len (bytecode st) + 1) (len (bytecode st1) - (len (bytecode st) + 1))])]>
          (label_map st1)) (bytecode st1) (symbols st1)).
Proof.
  intros E A Hp Hplaced. pose proof (encoding_length _ _ _ _ E) as Hlen.
  destruct E as [Eb Ep Ee Ej Eji El Eli Eo Eu], A as [AL AB AE AP AN]. rewrite AL in *.
  assert (∀ data q, label_map st !! l = Some data → label_index data ≠ Some q) as Hnone.
  { intros data q Hd Hi. apply not_true_iff_false in Hplaced.
    apply Hplaced, label_placed_true. eauto. }
  assert (bytecode st1 = bytes_of (ps ++ [p])) as Hbytes.
  { rewrite AB, Eb, bytes_of_app. unfold bytes_of at 3. cbn. by rewrite app_nil_r. }
  assert (mkJump (len (bytecode st) + 1) (len (bytecode st1) - (len (bytecode st) + 1)) =
          jump_at (ps ++ [p]) (length insts)) as ->.
  { unfold jump_at. rewrite Hlen, pos_app_l, pos_length, Eb by done.
    replace (S (length ps)) with (length (ps ++ [p])) by (rewrite length_app; cbn; lia).
    rewrite pos_length, Hbytes. by rewrite Z.sub_add_distr. }
  set (data := default (mkLabelInfo None []) (label_map st !! l)).
  assert (∀ d, label_map st !! l = Some d → data = d) as Hdata
    by (intros d Hd; unfold data; by rewrite Hd).
  assert (∀ x, x ∈ jump_instructions data →
    ∃ d, label_map st !! l = Some d ∧ x ∈ jump_instructions d) as Hold.
  { intros x. unfold data. destruct (label_map st !! l) as [d|]; cbn; [eauto|].
    intros Hx. by apply elem_of_nil in Hx. }
  split; cbn.
  - done.
  - apply Forall2_app; [|by constructor]. eapply pieces_mono; [|done]. by apply table_map_mono.
  - done.
  - intros k c' l' [[Hk Hx]|[-> [= -> ->]]]%lookup_snoc_Some.
    + rewrite (jump_at_app ps p k) by lia. destruct (Ej _ _ _ Hx) as (d & Hd & Hj).
      destruct (decide (l' = l)) as [->|Hne].
      * rewrite lookup_insert_eq. eexists. split; [done|]. cbn.
        rewrite (Hdata _ Hd). apply elem_of_app. by left.
      * rewrite lookup_insert_ne by done. eauto.
    + rewrite lookup_insert_eq. eexists. split; [done|]. cbn.
      apply elem_of_app. right. by apply list_elem_of_singleton.
  - intros l' d j Hd Hj. destruct (decide (l' = l)) as [->|Hne].
    + rewrite lookup_insert_eq in Hd. injection Hd as <-. cbn in Hj.
      apply elem_of_app in Hj as [Hj|Hj].
      * apply Hold in Hj as (d & Hd & Hj). destruct (Eji _ _ _ Hd Hj) as (k & c' & Hk & ->).
        pose proof (lookup_lt_Some _ _ _ Hk). exists k, c'.
        rewrite (jump_at_app ps p k) by lia. by rewrite lookup_app_l.
      * apply list_elem_of_singleton in Hj as ->. exists (length insts), c.
        split; [by apply list_lookup_middle|done].
    + rewrite lookup_insert_ne in Hd by done.
      destruct (Eji _ _ _ Hd Hj) as (k & c' & Hk & ->). pose proof (lookup_lt_Some _ _ _ Hk).
      exists k, c'. rewrite (jump_at_app ps p k) by lia. by rewrite lookup_app_l.
  - intros k l' [[Hk Hx]|[_ ?]]%lookup_snoc_Some; [|done].
    rewrite (pos_app_l ps [p] k) by lia. destruct (El _ _ Hx) as (d & Hd & Hi).
    rewrite lookup_insert_ne by (intros <-; by eapply Hnone). eauto.
  - intros l' d q Hd Hi. destruct (decide (l' = l)) as [->|Hne].
    + rewrite lookup_insert_eq in Hd. injection Hd as <-. cbn in Hi.
      destruct (label_map st !! l) as [d|] eqn:Hd; [|done]. by eapply Hnone in Hi.
    + rewrite lookup_insert_ne in Hd by done.
      destruct (Eli _ _ _ Hd Hi) as (k & Hk & ->). pose proof (lookup_lt_Some _ _ _ Hk).
      exists k. rewrite pos_app_l by lia. by rewrite lookup_app_l.
  - intros j k c' l' Hj [[Hk Hxk]|[_ ?]]%lookup_snoc_Some; [|done].
    apply lookup_snoc_Some in Hj as [[Hj Hxj]|[-> [= -> ->]]]; [eauto|].
    destruct (El _ _ Hxk) as (d & Hd & Hi). by eapply Hnone in Hi.
  - intros l' d Hd. destruct (decide (l' = l)) as [->|Hne].
    + rewrite lookup_insert_eq in Hd. injection Hd as <-. right. cbn.
      intros [_ ?]%app_eq_nil. done.
    + rewrite lookup_insert_ne in Hd by done. eauto.
Qed.

(** A comparison after the bytes of the operation. *)
Lemma comparison_appended st pre l r st' strs :
  encodes (symbols st) strs → append_value_comparison (append_bytes st pre) l r = Ok st' →
  ∃ strs' bs, appended st st' (pre ++ bs) strs strs' (symbol_strings l ++ symbol_strings r) ∧
              operand_bytes (table_map 1 strs') l r bs.
Proof.
  intros Henc H.
  destruct (append_value_comparison_appended (append_bytes st pre) _ _ _ _ Henc H)
    as (strs' & bs & A & V).
  exists strs', bs. split; [|done].
  exact (appended_trans _ _ _ _ _ _ _ _ _ _ (append_bytes_appended st pre strs Henc) A).
Qed.

(** One round of the loop appends the piece of its instruction. *)
Lemma encode_step_encoding insts ps strs st info st' :
  encoding insts ps strs st → encode_step st info = Ok st' →
  ∃ p strs', encoding (insts ++ [to_instruction (sym_instruction info)]) (ps ++ [p]) strs' st' ∧
    strs `prefix_of` strs' ∧
    ∀ x, x ∈ strs' → x ∈ strs ∨ x ∈ instruction_strings (to_instruction (sym_instruction info)).
Proof.
  intros E. unfold encode_step, append_abort_instruction, append_jmp_statement.
  cbn [info_to_instruction instruction].
  pose proof (en_encodes _ _ _ _ E) as Henc.
  destruct (to_instruction _) as [[|l r|l r]|?|[|l r|l r] lbl|lbl]; intros H; try done;
    try (apply bind_Ok_iff in H as (st1 & H1 & H);
         destruct (label_placed _ _) eqn:Hplaced; [done|]; injection H as <-).
  - injection H as <-. eexists _, strs. split; [|auto].
    eapply encoding_plain; [done|by apply append_bytes_appended|constructor|done].
  - destruct (comparison_appended _ _ _ _ _ _ Henc H) as (strs' & bs & A & V).
    eexists _, strs'. split; [|split; apply A].
    eapply encoding_plain; [done|exact A|by constructor|done].
  - destruct (comparison_appended _ _ _ _ _ _ Henc H) as (strs' & bs & A & V).
    eexists _, strs'. split; [|split; apply A].
    eapply encoding_plain; [done|exact A|by constructor|done].
  - injection H1 as <-. exists (Jump 0x10 0 [] lbl), strs. split; [|auto].
    eapply encoding_jump; [done|by apply append_bytes_appended|constructor|done].
  - destruct (comparison_appended _ _ _ _ _ _ Henc H1) as (strs' & bs & A & V).
    exists (Jump 0x11 0 bs lbl), strs'. split; [|split; apply A].
    eapply encoding_jump; [done|exact A|by constructor|done].
  - destruct (comparison_appended _ _ _ _ _ _ Henc H1) as (strs' & bs & A & V).
    exists (Jump 0x12 0 bs lbl), strs'. split; [|split; apply A].
    eapply encoding_jump; [done|exact A|by constructor|done].
  - eexists _, strs. split; [by eapply encoding_label|auto].
Qed.

Lemma encode_loop_encoding infos insts ps strs st st' :
  encoding insts ps strs st → try_fold encode_step st infos = Ok st' →
  ∃ ps' strs', encoding (insts ++ code infos) (ps ++ ps') strs' st' ∧
    strs `prefix_of` strs' ∧ ∀ x, x ∈ strs' → x ∈ strs ∨ x ∈ code_strings (code infos).
Proof.
  revert insts ps strs st. induction infos as [|info infos IH]; intros insts ps strs st E H.
  - injection H as <-. exists [], strs. cbn. rewrite !app_nil_r. auto.
  - cbn in H. apply bind_Ok_iff in H as (st1 & H1 & H).
    destruct (encode_step_encoding _ _ _ _ _ _ E H1) as (p & s1 & E1 & P1 & N1).
    destruct (IH _ _ _ _ E1 H) as (ps' & s2 & E2 & P2 & N2).
    exists (p :: ps'), s2. rewrite <- !app_assoc in E2. split; [done|]. split; [by etrans|].
    intros x [Hx|Hx]%N2.
    + apply N1 in Hx as [Hx|Hx]; [auto|right]. apply elem_of_app. by left.
    + right. apply elem_of_app. by right.
Qed.

(** ** Backpatching *)

Lemma index_set_middle {E A} (pre : list A) x post y i :
  i = len pre → index_set (E:=E) (pre ++ x :: post) i y = Ok (pre ++ y :: post).
Proof.
  intros ->. unfold index_set. rewrite len_app, len_cons.
  pose proof (len_nonneg pre). pose proof (len_nonneg post).
  replace ((0 <=? len pre) && (len pre <? len pre + (len post + 1))) with true by lia.
  unfold len. rewrite Nat2Z.id. by rewrite insert_app_r_alt, Nat.sub_diag by lia.
Qed.

Lemma bytes_of_split ps k p :
  ps !! k = Some p →
  bytes_of ps = bytes_of (take k ps) ++ piece_bytes p ++ bytes_of (drop (S k) ps).
Proof.
  intros Hp. rewrite <- (take_drop_middle ps k p Hp) at 1.
  rewrite bytes_of_app. done.
Qed.

Lemma bytes_of_insert ps k p :
  (k < length ps)%nat →
  bytes_of (<[k := p]> ps) = bytes_of (take k ps) ++ piece_bytes p ++ bytes_of (drop (S k) ps).
Proof. intros Hk. rewrite insert_take_drop by done. by rewrite bytes_of_app. Qed.

(** Writing the offset of a jump changes its piece only. *)
Lemma patch_jump_eq lid lbl ps k u op off tail l :
  let o := lbl - jump_index u - inst_offset u in
  ps !! k = Some (Jump op off tail l) → jump_index u = pos ps k + 1 → 0 <= o →
  patch_jump lid lbl (bytes_of ps) u =
  if o <? u32_size then Ok (bytes_of (<[k := Jump op o tail l]> ps))
  else Err (JumpOffsetOutOfRange lid).
Proof.
  intros o Hk Hi Ho. unfold patch_jump. fold o.
  replace (o <? 0) with false by lia. unfold try_u32.
  replace (0 <=? o) with true by lia. cbn [andb].
  destruct (o <? u32_size); cbn [ok_or mbind outcome_bind]; [|done].
  pose proof (lookup_lt_Some _ _ _ Hk) as Hlt.
  rewrite (bytes_of_insert ps k _ Hlt), (bytes_of_split ps k _ Hk). unfold pos in Hi.
  set (pre := bytes_of (take k ps)) in *. set (post := bytes_of (drop (S k) ps)) in *.
  cbn -[index_set u32_size]. rewrite Hi, Z.add_0_r.
  assert (∀ (q : list Z) x, len (q ++ [x]) = len q + 1) as Hsnoc
    by (intros q x; rewrite len_app; reflexivity).
  assert (∀ (q : list Z) x r, q ++ x :: r = (q ++ [x]) ++ r) as Hassoc
    by (intros q x r; by rewrite <- app_assoc).
  rewrite (Hassoc pre op).
  rewrite (index_set_middle (pre ++ [op])) by (rewrite Hsnoc; lia). cbn -[index_set].
  rewrite (Hassoc (pre ++ [op])).
  rewrite (index_set_middle (_ ++ [_])) by (rewrite !Hsnoc; lia). cbn -[index_set].
  rewrite (Hassoc ((pre ++ [op]) ++ _)).
  rewrite (index_set_middle (_ ++ [_])) by (rewrite !Hsnoc; lia). cbn -[index_set].
  rewrite (Hassoc (((pre ++ [op]) ++ _) ++ _)).
  rewrite index_set_middle by (rewrite !Hsnoc; lia). cbn. by rewrite <- !app_assoc.
Qed.

Lemma patch_jump_piece lid lbl ps k u op off tail l bs' :
  ps !! k = Some (Jump op off tail l) → jump_index u = pos ps k + 1 →
  patch_jump lid lbl (bytes_of ps) u = Ok bs' →
  is_u32 (lbl - jump_index u - inst_offset u) ∧
  bs' = bytes_of (<[k := Jump op (lbl - jump_index u - inst_offset u) tail l]> ps).
Proof.
  intros Hk Hi H. destruct (Z.ltb_spec (lbl - jump_index u - inst_offset u) 0) as [Hneg|Hpos].
  - unfold patch_jump in H. by rewrite (proj2 (Z.ltb_lt _ _) Hneg) in H.
  - rewrite (patch_jump_eq _ _ _ _ _ _ _ _ _ Hk Hi Hpos) in H.
    case_match eqn:Hlt; [|done]. injection H as <-. bool_props. done.
Qed.

Section backpatching.
Context (insts : list Instruction) (ps0 : list piece) (strs : list rstring) (st : EncoderState).
Hypothesis E : encoding insts ps0 strs st.

Lemma pos_inj j k :
  (j <= length ps0)%nat → (k <= length ps0)%nat → pos ps0 j = pos ps0 k → j = k.
Proof.
  intros Hj Hk Heq. pose proof (en_pieces _ _ _ _ E) as Hp.
  destruct (Nat.lt_trichotomy j k) as [Hlt|[->|Hlt]]; [|done|].
  - pose proof (pos_lt _ _ _ _ _ Hp Hlt Hk). lia.
  - pose proof (pos_lt _ _ _ _ _ Hp Hlt Hj). lia.
Qed.

Lemma inst_in_range k i : insts !! k = Some i → (k < length ps0)%nat.
Proof. intros Hk%lookup_lt_Some. by rewrite <- (encoding_length _ _ _ _ E). Qed.

Lemma label_unique l j k : insts !! j = Some (Label l) → insts !! k = Some (Label l) → j = k.
Proof.
  intros Hj Hk. destruct (en_label _ _ _ _ E _ _ Hj) as (d & Hd & Hpj).
  destruct (en_label _ _ _ _ E _ _ Hk) as (d' & Hd' & Hpk).
  apply inst_in_range in Hj, Hk. apply pos_inj; [lia|lia|congruence].
Qed.

(** The offset of the [k]-th piece is that of its label. *)
Definition linked_at (ps : list piece) (k : nat) : Prop :=
  ∃ op tail c l m, insts !! k = Some (Goto c l) ∧ insts !! m = Some (Label l) ∧
    ps !! k = Some (Jump op (pos ps0 m - pos ps0 (S k)) tail l) ∧
    is_u32 (pos ps0 m - pos ps0 (S k)).

Lemma jump_piece ps k c l :
  Forall2 same_shape ps ps0 → insts !! k = Some (Goto c l) →
  ∃ op off tail, ps !! k = Some (Jump op off tail l).
Proof.
  intros Hs Hk. destruct (Forall2_lookup_l _ _ _ _ _ (en_pieces _ _ _ _ E) Hk) as (p & Hp & Hpf).
  destruct (Forall2_lookup_r _ _ _ _ _ Hs Hp) as (q & Hq & Hqp).
  inversion Hpf; subst; destruct q; try done; cbn in Hqp; destruct Hqp as (-> & -> & ->); eauto.
Qed.

Lemma patch_usage ps l data lbl u bs' :
  Forall2 same_shape ps ps0 → label_map st !! l = Some data → label_index data = Some lbl →
  u ∈ jump_instructions data → patch_jump l lbl (bytes_of ps) u = Ok bs' →
  ∃ ps', bs' = bytes_of ps' ∧ Forall2 same_shape ps' ps0 ∧
    (∀ k, linked_at ps k → linked_at ps' k) ∧
    (∀ k c l', insts !! k = Some (Goto c l') → u = jump_at ps0 k → linked_at ps' k).
Proof.
  intros Hs Hd Hlbl Hu Hpatch.
  destruct (en_jump_inv _ _ _ _ E _ _ _ Hd Hu) as (k & c & Hk & ->).
  destruct (en_label_inv _ _ _ _ E _ _ _ Hd Hlbl) as (m & Hm & ->).
  destruct (jump_piece _ _ _ _ Hs Hk) as (op & off & tail & Hp).
  eapply patch_jump_piece in Hpatch as [Hu32 ->]; [|exact Hp|by rewrite (same_shape_pos _ _ _ Hs)].
  pose proof (lookup_lt_Some _ _ _ Hp) as Hlt. cbn in Hu32 |- *.
  replace (pos ps0 m - (pos ps0 k + 1) - (pos ps0 (S k) - pos ps0 k - 1))
    with (pos ps0 m - pos ps0 (S k)) in * by lia.
  set (ps' := <[k := _]> ps).
  assert (linked_at ps' k) as Hlinked.
  { exists op, tail, c, l, m. repeat split; try done; try apply Hu32.
    by apply list_lookup_insert_eq. }
  exists ps'. split; [done|]. split; [|split].
  - destruct (Forall2_lookup_l _ _ _ _ _ Hs Hp) as (q & Hq & Hpq).
    rewrite <- (list_insert_id ps0 k q Hq). apply Forall2_insert; [done|by destruct q].
  - intros j Hj. destruct (decide (j = k)) as [->|Hne]; [done|].
    destruct Hj as (op' & tail' & c' & l' & m' & Hj & Hm' & Hpj & Hu').
    exists op', tail', c', l', m'. repeat split; try done; try apply Hu'.
    unfold ps'. by rewrite list_lookup_insert_ne.
  - intros j c' l' Hj Heq. injection Heq as Heq _.
    assert (j = k) as ->; [|done]. apply inst_in_range in Hj, Hk. apply pos_inj; lia.
Qed.

Lemma patch_usages ps l data lbl us bs' :
  Forall2 same_shape ps ps0 → label_map st !! l = Some data → label_index data = Some lbl →
  (∀ u, u ∈ us → u ∈ jump_instructions data) →
  try_fold (patch_jump l lbl) (bytes_of ps) us = Ok bs' →
  ∃ ps', bs' = bytes_of ps' ∧ Forall2 same_shape ps' ps0 ∧
    (∀ k, linked_at ps k → linked_at ps' k) ∧
    (∀ k c l', insts !! k = Some (Goto c l') → jump_at ps0 k ∈ us → linked_at ps' k).
Proof.
  intros Hs Hd Hlbl. revert ps Hs. induction us as [|u us IH]; intros ps Hs Hus H.
  - injection H as <-. exists ps. repeat split; try done. intros k c l' _ Hk.
    by apply elem_of_nil in Hk.
  - cbn in H. apply bind_Ok_iff in H as (bs1 & H1 & H).
    destruct (patch_usage _ _ _ _ _ _ Hs Hd Hlbl (Hus u ltac:(constructor)) H1)
      as (ps1 & -> & Hs1 & Hmono1 & Hnew1).
    destruct (IH ps1 Hs1) as (ps2 & -> & Hs2 & Hmono2 & Hnew2);
      [intros; apply Hus; by constructor|done|].
    exists ps2. split; [done|]. split; [done|]. split; [auto|].
    intros k c l' Hk [<-|Hin]%elem_of_cons; eauto.
Qed.

Lemma patch_labels ps entries bs' :
  Forall2 same_shape ps ps0 → (∀ l d, (l, d) ∈ entries → label_map st !! l = Some d) →
  try_fold patch_label (bytes_of ps) entries = Ok bs' →
  ∃ ps', bs' = bytes_of ps' ∧ Forall2 same_shape ps' ps0 ∧
    (∀ k, linked_at ps k → linked_at ps' k) ∧
    (∀ k c l d, insts !! k = Some (Goto c l) → (l, d) ∈ entries →
       jump_at ps0 k ∈ jump_instructions d → linked_at ps' k).
Proof.
  intros Hs. revert ps Hs. induction entries as [|[l d] r IH]; intros ps Hs Hin H.
  - injection H as <-. exists ps. repeat split; try done. intros k c l d _ Hk.
    by apply elem_of_nil in Hk.
  - cbn in H. apply bind_Ok_iff in H as (bs1 & H1 & H).
    destruct (label_index d) as [lbl|] eqn:Hlbl; [|done].
    assert (label_map st !! l = Some d) as Hd by (apply Hin; constructor).
    destruct (patch_usages _ _ _ _ (jump_instructions d) bs1 Hs Hd Hlbl)
      as (ps1 & -> & Hs1 & Hmono1 & Hnew1); [done..|].
    destruct (IH ps1 Hs1) as (ps2 & -> & Hs2 & Hmono2 & Hnew2);
      [intros; apply Hin; by constructor|done|].
    exists ps2. split; [done|]. split; [done|]. split; [auto|].
    intros k c l' d' Hk [[= -> ->]|Hr]%elem_of_cons Hj; eauto.
Qed.
End backpatching.

(** ** Linked code *)

(** The number of bytes before the first label [l]. *)
Fixpoint label_distance (l : Z) (insts : list Instruction) (ps : list piece) : option Z :=
  match insts, ps with
  | Label l' :: insts, p :: ps =>
    if l' =? l then Some 0
    else d ← label_distance l insts ps; Some (len (piece_bytes p) + d)
  | _ :: insts, p :: ps => d ← label_distance l insts ps; Some (len (piece_bytes p) + d)
  | _, _ => None
  end.

(** Every jump carries the distance to its label. *)
Inductive linked (tbl : gmap Z rstring) : list Instruction → list piece → Prop :=
| linked_nil : linked tbl [] []
| linked_cons i insts p ps : piece_for tbl i p →
    (∀ c l, i = Goto c l → ∃ op off tail,
       p = Jump op off tail l ∧ label_distance l insts ps = Some off ∧ is_u32 off) →
    linked tbl insts ps → linked tbl (i :: insts) (p :: ps).

Lemma label_distance_first l insts ps m :
  length insts = length ps → insts !! m = Some (Label l) →
  (∀ m', (m' < m)%nat → insts !! m' ≠ Some (Label l)) →
  label_distance l insts ps = Some (pos ps m).
Proof.
  revert ps m. induction insts as [|i insts IH]; intros [|p ps] m Hlen Hm Hfirst; try done.
  destruct m as [|m].
  - injection Hm as ->. cbn. by rewrite Z.eqb_refl.
  - assert (label_distance l insts ps = Some (pos ps m)) as Hd.
    { apply IH; [by injection Hlen|done|]. intros m' Hm'. apply (Hfirst (S m')). lia. }
    assert (pos (p :: ps) (S m) = len (piece_bytes p) + pos ps m) as ->.
    { unfold pos. cbn. unfold bytes_of. cbn. by rewrite len_app. }
    cbn. rewrite Hd. destruct i as [?|?|?|l']; try done.
    destruct (Z.eqb_spec l' l) as [->|]; [|done].
    exfalso. apply (Hfirst 0%nat); [lia|done].
Qed.

Lemma same_shape_sym p q : same_shape p q → same_shape q p.
Proof. destruct p, q; cbn; naive_solver. Qed.

Lemma pos_drop ps n m : pos ps (n + m) = pos ps n + pos (drop n ps) m.
Proof.
  unfold pos. by rewrite <- len_app, <- bytes_of_app, take_take_drop.
Qed.

Lemma linked_intro insts ps0 ps strs st :
  encoding insts ps0 strs st → Forall2 same_shape ps ps0 →
  (∀ k c l, insts !! k = Some (Goto c l) → linked_at insts ps0 ps k) →
  linked (table_map 1 strs) insts ps.
Proof.
  intros E Hs Hall.
  assert (length insts = length ps) as Hlen.
  { by rewrite (encoding_length _ _ _ _ E), (Forall2_length _ _ _ Hs). }
  enough (∀ d n, (n + d)%nat = length insts →
    linked (table_map 1 strs) (drop n insts) (drop n ps)) as H.
  { specialize (H (length insts) 0%nat eq_refl). done. }
  induction d as [|d IH]; intros n Hn.
  - rewrite !drop_ge by lia. constructor.
  - destruct (lookup_lt_is_Some_2 insts n) as [i Hi]; [lia|].
    destruct (lookup_lt_is_Some_2 ps n) as [p Hp]; [lia|].
    rewrite (drop_S _ _ _ Hi), (drop_S _ _ _ Hp).
    destruct (Forall2_lookup_l _ _ _ _ _ Hs Hp) as (q & Hq & Hpq).
    constructor.
    + eapply same_shape_piece_for; [by apply same_shape_sym|].
      exact (Forall2_lookup_lr _ _ _ _ _ _ (en_pieces _ _ _ _ E) Hi Hq).
    + intros c l ->. destruct (Hall _ _ _ Hi) as (op & tail & c' & l' & m & Hi' & Hm & Hp' & Hu).
      rewrite Hi in Hi'. injection Hi' as <- <-. rewrite Hp in Hp'. injection Hp' as ->.
      pose proof (en_order _ _ _ _ E _ _ _ _ Hi Hm) as Hlt.
      eexists _, _, _. split; [done|]. split; [|done].
      replace m with (S n + (m - S n))%nat in Hm |- * by lia.
      rewrite (label_distance_first l _ _ (m - S n)).
      * rewrite <- !(same_shape_pos _ _ _ Hs), pos_drop. f_equal. lia.
      * rewrite !length_drop. lia.
      * by rewrite lookup_drop.
      * intros m' Hm'. rewrite lookup_drop. intros Hm2.
        pose proof (label_unique _ _ _ _ E _ _ _ Hm Hm2). lia.
    + apply IH. lia.
Qed.

(** What the encoder returns is linked code. *)
Lemma encode_instructions_linked `{!HashMapOrder Z LabelInfo} infos e strs bs e' :
  encodes e strs → encode_instructions infos e = Ok (bs, e') →
  ∃ ps strs', bs = bytes_of ps ∧ encodes e' strs' ∧ strs `prefix_of` strs' ∧
    linked (table_map 1 strs') (code infos) ps ∧
    ∀ x, x ∈ strs' → x ∈ strs ∨ x ∈ code_strings (code infos).
Proof.
  intros Henc H. unfold encode_instructions in H.
  apply bind_Ok_iff in H as (st & Hst & H). apply bind_Ok_iff in H as (bs1 & Hbs & [= <- <-]).
  assert (encoding [] [] strs (mkEncoderState ∅ [] e)) as E0.
  { split; try done; intros; by simplify_map_eq. }
  destruct (encode_loop_encoding _ _ _ _ _ _ E0 Hst) as (ps & strs' & E & Hpre & Hnew).
  cbn in E. rewrite (en_bytes _ _ _ _ E) in Hbs.
  destruct (patch_labels _ _ _ _ E ps (hash_map_iter (label_map st)) bs1)
    as (ps' & -> & Hs & _ & Hl).
  - apply Forall_Forall2_diag, Forall_true. apply same_shape_refl.
  - intros l d Hin. apply elem_of_map_to_list. by rewrite <- hash_map_iter_perm.
  - done.
  - exists ps', strs'. split; [done|]. split; [apply E|]. split; [done|]. split; [|done].
    eapply linked_intro; [done|done|]. intros k c l Hk.
    destruct (en_jump _ _ _ _ E _ _ _ Hk) as (d & Hd & Hj). eapply Hl; [done| |done].
    rewrite hash_map_iter_perm. by apply elem_of_map_to_list.
Qed.
