(* ===== verification/MatchCorrect.v ===== *)
(** The bytecode interpreter is correct on linked code: [device_match_bind] on
    the bytes of a program decides what the program means ([exec]), up to the
    truncation of numbers to 32 bits that the encoder performs. *)
From Stdlib Require Import ZArith Lia.
From stdpp Require Import base gmap strings countable list.
From S2P Require Import Prelude BindLibrary SymbolTable Bytecode DecodeBindRules MatchBind.
From S2P Require Import Instruction InstructionEncoder SymbolTableCorrect.
From S2P Require Import Semantics InstructionCorrect.
Local Open Scope Z_scope.

(** ** Truncation *)

Definition truncate_symbol (s : Symbol) : Symbol :=
  match s with
  | NumberValue n => NumberValue (as_u32 n)
  | _ => s
  end.

Definition truncate_condition (c : InstCondition) : InstCondition :=
  match c with
  | Always => Always
  | Instruction.Equal l r => Instruction.Equal l (truncate_symbol r)
  | NotEqual l r => NotEqual l (truncate_symbol r)
  end.

(** The program whose numbers are taken modulo 2^32. *)
Definition truncate_instruction (i : Instruction) : Instruction :=
  match i with
  | Abort c => Abort (truncate_condition c)
  | Match c => Match (truncate_condition c)
  | Goto c l => Goto (truncate_condition c) l
  | Label l => Label l
  end.

(** ** Well-formed programs *)

Definition condition_symbols (c : InstCondition) : list Symbol :=
  match c with
  | Always => []
  | Instruction.Equal l r | NotEqual l r => [l; r]
  end.

Definition instruction_symbols (i : Instruction) : list Symbol :=
  match i with
  | Abort c | Match c | Goto c _ => condition_symbols c
  | Label _ => []
  end.

(** The range of the [u32] a deprecated key carries. *)
Definition symbol_u32 (s : Symbol) : Prop :=
  match s with
  | DeprecatedKey k => is_u32 k
  | _ => True
  end.

Definition code_u32 (insts : list Instruction) : Prop :=
  Forall (λ i, Forall symbol_u32 (instruction_symbols i)) insts.

(** Symbol table keys are [u32]s. *)
Definition table_u32 (tbl : gmap Z rstring) : Prop := ∀ k s, tbl !! k = Some s → is_u32 k.

(** ** Reading values *)

(** The symbol the interpreter reads back. *)
Definition read_back (s : Symbol) : Symbol :=
  match s with
  | DeprecatedKey k => NumberValue k
  | Key k _ => Key k Str
  | NumberValue n => NumberValue (as_u32 n)
  | _ => s
  end.

Section reading.
Context (props : DeviceProperties) (tbl : gmap Z rstring) (Htbl : table_u32 tbl).

Lemma read_next_value_bytes s bs rest :
  value_bytes tbl s bs → symbol_u32 s →
  read_next_value tbl (bs ++ rest) = Ok (read_back s, rest).
Proof.
  unfold read_next_value. destruct 1 as [n|b|s k Hk|s t k Hk|k|s k Hk]; intros Hu; cbn [app];
    cbn [next_u8 mbind outcome_bind ok_or RawValueType_from_u8 Z.eqb Pos.eqb].
  - rewrite next_u32_app by apply as_u32_range. done.
  - rewrite next_u32_app by by destruct b. by destruct b.
  - rewrite next_u32_app by by eapply Htbl. cbn. unfold lookup_symbol_table. by rewrite Hk.
  - rewrite next_u32_app by by eapply Htbl. cbn. unfold lookup_symbol_table. by rewrite Hk.
  - by rewrite next_u32_app.
  - rewrite next_u32_app by by eapply Htbl. cbn. unfold lookup_symbol_table. by rewrite Hk.
Qed.

(** A comparison read from the bytecode is a property test. *)
Lemma read_and_evaluate_bytes (eq : bool) l r bs rest :
  operand_bytes tbl l r bs → symbol_u32 l → symbol_u32 r →
  read_and_evaluate_values props tbl (if eq then MatchBind.Equal else Inequal) (bs ++ rest) =
  (b ← property_test props eq l (truncate_symbol r); Ok (b, rest)).
Proof.
  destruct 1 as [bl br Hkey Hval Hl Hr]. intros Hul Hur.
  unfold read_and_evaluate_values, property_test. rewrite <- app_assoc.
  rewrite (read_next_value_bytes _ _ _ Hl Hul). cbn [mbind outcome_bind].
  assert (read_back r = truncate_symbol r) as Hback
    by (destruct Hval as [vt Hvt]; by destruct r).
  destruct l; try done; cbn [read_back property_of mbind outcome_bind];
    rewrite (read_next_value_bytes _ _ _ Hr Hur), Hback; cbn [mbind outcome_bind].
  all: destruct (props !! _) as [v|]; [|by destruct eq].
  all: unfold compare_symbols; destruct (negb _); [done|]; by destruct eq.
Qed.

Lemma skip_bytes_app a b d :
  0 <= d → skip_bytes (a ++ b) (len a + d) = skip_bytes b d.
Proof.
  intros Hd. induction a as [|x a IH].
  - cbn [app]. unfold len. cbn [length Z.of_nat]. by rewrite Z.add_0_l.
  - rewrite len_cons. pose proof (len_nonneg a). cbn.
    replace (len a + 1 + d <=? 0) with false by lia.
    replace (len a + 1 + d - 1) with (len a + d) by lia. done.
Qed.

Lemma skip_bytes_0 b : skip_bytes b 0 = Ok b.
Proof. by destruct b. Qed.

Lemma label_distance_nonneg l insts ps d : label_distance l insts ps = Some d → 0 <= d.
Proof.
  revert ps d. induction insts as [|i insts IH]; intros [|p ps] d; try (by destruct i); try done.
  assert ((d ← label_distance l insts ps; Some (len (piece_bytes p) + d)) = Some d → 0 <= d) as H.
  { intros (d' & Hd'%IH & [= <-])%bind_Some.
    pose proof (len_nonneg (piece_bytes p)). lia. }
  cbn. destruct i as [?|?|?|l']; try done. destruct (l' =? l); [by intros [= <-]|done].
Qed.
End reading.

(** ** Running linked code *)

Section running.
Context (props : DeviceProperties) (tbl : gmap Z rstring) (Htbl : table_u32 tbl).

(** The loop on the bytes [bs] decides [r], with any fuel above their number. *)
Definition decides (bs : list Z) (r : outcome BytecodeError bool) : Prop :=
  ∀ fuel, (length bs < fuel)%nat → match_loop props tbl fuel bs = Some r.

(** Reaching the label [l] at distance [off] leads to a state that decides [r]. *)
Definition lands (bs : list Z) (off : Z) (r : outcome BytecodeError bool) : Prop :=
  ∃ rest, skip_bytes bs off = Ok (RawOp_as_u8 JumpLandPad :: rest) ∧
          (length rest <= length bs)%nat ∧ decides rest r.

(** One round of the loop. *)
Lemma decides_step byte bs r :
  match match_step props tbl byte bs with
  | Ok (inl b) => r = Ok b
  | Ok (inr rest) => (length rest <= length bs)%nat ∧ decides rest r
  | Err e => r = Err e
  | Panic => r = Panic
  end → decides (byte :: bs) r.
Proof.
  intros H [|fuel] Hfuel; cbn in Hfuel; [lia|]. cbn [match_loop].
  destruct (match_step _ _ _ _) as [[b|rest]|e|]; [by rewrite H| |by rewrite H|by rewrite H].
  destruct H as [Hle H]. apply H. lia.
Qed.

(** A jump that reads its condition: it lands or falls through. *)
Lemma evaluate_jump_bytes (eq : bool) l r bs rest off skip fall :
  operand_bytes tbl l r bs → symbol_u32 l → symbol_u32 r → is_u32 off →
  lands rest off skip → decides rest fall →
  match
    iter ← evaluate_jump_inst props tbl (if eq then MatchBind.Equal else Inequal)
             (to_le_bytes 4 off ++ bs ++ rest); Ok (inr iter : bool + list Z)
  with
  | Ok (inl b) => (b' ← property_test props eq l (truncate_symbol r);
                   if (b' : bool) then skip else fall) = Ok b
  | Ok (inr rest') => (length rest' <= length (to_le_bytes 4 off ++ bs ++ rest))%nat ∧
      decides rest' (b' ← property_test props eq l (truncate_symbol r);
                     if (b' : bool) then skip else fall)
  | Err e => (b' ← property_test props eq l (truncate_symbol r);
              if (b' : bool) then skip else fall) = Err e
  | Panic => (b' ← property_test props eq l (truncate_symbol r);
              if (b' : bool) then skip else fall) = Panic
  end.
Proof.
  intros Hbs Hl Hr Hoff (land & Hskip & Hland & Hd) Hfall.
  unfold evaluate_jump_inst. rewrite next_u32_app by done. cbn [mbind outcome_bind].
  rewrite bool_decide_eq_false_2 by by destruct eq.
  rewrite (read_and_evaluate_bytes _ _ Htbl _ _ _ _ _ Hbs Hl Hr).
  destruct (property_test _ _ _ _) as [[]|e|]; cbn [mbind outcome_bind negb]; try done.
  - rewrite Hskip. cbn. rewrite !length_app. split; [lia|done].
  - rewrite !length_app. split; [lia|done].
Qed.

(** A condition that aborts when it holds. *)
Lemma evaluate_condition_bytes (eq : bool) l r bs rest fall :
  operand_bytes tbl l r bs → symbol_u32 l → symbol_u32 r → decides rest fall →
  decides (RawOp_as_u8 (if eq then InequalCondition else EqualCondition) :: bs ++ rest)
    (b ← property_test props eq l (truncate_symbol r);
     if (b : bool) then Ok false else fall).
Proof.
  intros Hbs Hl Hr Hfall. apply decides_step.
  assert (match_step props tbl (RawOp_as_u8 (if eq then InequalCondition else EqualCondition))
            (bs ++ rest) =
          (b ← property_test props (negb eq) l (truncate_symbol r);
           Ok (if negb b then inl false else inr rest))) as ->.
  { pose proof (read_and_evaluate_bytes props _ Htbl (negb eq) _ _ _ rest Hbs Hl Hr) as Hread.
    destruct eq; cbn in Hread |- *; rewrite Hread;
      by destruct (property_test _ _ _ _) as [[]| |]. }
  rewrite property_test_negb.
  destruct (property_test _ _ _ _) as [[]|e|]; cbn; try done.
  rewrite length_app. split; [lia|done].
Qed.

Lemma bytes_of_cons p ps : bytes_of (p :: ps) = piece_bytes p ++ bytes_of ps.
Proof. done. Qed.

Lemma exec_nil_decides : decides [] (Ok true).
Proof. intros [|fuel] H; [cbn in H; lia|done]. Qed.

(** The head instruction, given the behaviour of the rest of the program. *)
Lemma head_decides i p insts ps :
  piece_for tbl i p → Forall symbol_u32 (instruction_symbols i) →
  (∀ c l, i = Goto c l → ∃ op off tail, p = Jump op off tail l ∧ is_u32 off ∧
     lands (bytes_of ps) off (exec props (Some l) (map truncate_instruction insts))) →
  decides (bytes_of ps) (exec props None (map truncate_instruction insts)) →
  decides (piece_bytes p ++ bytes_of ps)
    (exec props None (map truncate_instruction (i :: insts))).
Proof.
  intros Hp Hu Hj Hfall.
  destruct Hp as [|l r bs Hbs|l r bs Hbs|off lbl|l r off lbl bs Hbs|l r off lbl bs Hbs|l].
  - by apply decides_step.
  - cbn in Hu. rewrite !Forall_cons in Hu. destruct Hu as (Hl & Hr & _).
    apply (evaluate_condition_bytes true _ _ _ _ _ Hbs Hl Hr Hfall).
  - cbn in Hu. rewrite !Forall_cons in Hu. destruct Hu as (Hl & Hr & _).
    apply (evaluate_condition_bytes false _ _ _ _ _ Hbs Hl Hr Hfall).
  - destruct (Hj _ _ eq_refl) as (op & off' & tail & [= <- <- <-] & Hoff & (rest & Hskip & Hlen & Hd)).
    cbn [piece_bytes app]. rewrite <- app_assoc. apply decides_step.
    change (match_step props tbl 16 ?b) with
      (iter ← evaluate_jump_inst props tbl Unconditional b; Ok (inr iter : bool + list Z)).
    unfold evaluate_jump_inst. rewrite next_u32_app by done.
    cbn [mbind outcome_bind app]. rewrite bool_decide_eq_true_2 by done.
    cbn [mbind outcome_bind negb]. rewrite Hskip. cbn. split; [lia|done].
  - cbn in Hu. rewrite !Forall_cons in Hu. destruct Hu as (Hl & Hr & _).
    destruct (Hj _ _ eq_refl) as (op & off' & tail & [= <- <- <-] & Hoff & Hland).
    cbn [piece_bytes app]. rewrite <- app_assoc. apply decides_step.
    pose proof (evaluate_jump_bytes true _ _ _ _ _ _ _ Hbs Hl Hr Hoff Hland Hfall) as Hstep.
    cbn [map truncate_instruction truncate_condition exec eval_cond].
    destruct (property_test _ _ _ _) as [[]| |]; exact Hstep.
  - cbn in Hu. rewrite !Forall_cons in Hu. destruct Hu as (Hl & Hr & _).
    destruct (Hj _ _ eq_refl) as (op & off' & tail & [= <- <- <-] & Hoff & Hland).
    cbn [piece_bytes app]. rewrite <- app_assoc. apply decides_step.
    pose proof (evaluate_jump_bytes false _ _ _ _ _ _ _ Hbs Hl Hr Hoff Hland Hfall) as Hstep.
    cbn [map truncate_instruction truncate_condition exec eval_cond].
    destruct (property_test _ _ _ _) as [[]| |]; exact Hstep.
  - apply decides_step. cbn. split; [lia|done].
Qed.

(** Linked code decides what it means, from the start and from any label. *)
Lemma linked_decides insts ps :
  linked tbl insts ps → code_u32 insts →
  decides (bytes_of ps) (exec props None (map truncate_instruction insts)) ∧
  ∀ l off, label_distance l insts ps = Some off →
    lands (bytes_of ps) off (exec props (Some l) (map truncate_instruction insts)).
Proof.
  induction 1 as [|i insts p ps Hp Hj Hlink IH]; intros Hu.
  - split; [apply exec_nil_decides|done].
  - apply Forall_cons in Hu as [Hi Hu]. destruct (IH Hu) as [IHfall IHland]. split.
    + apply head_decides; try done. intros c l ->.
      destruct (Hj _ _ eq_refl) as (op & off & tail & -> & Hd & Hoff). eauto 10.
    + intros l off Hd. rewrite bytes_of_cons.
      assert (∀ d, label_distance l insts ps = Some d → off = len (piece_bytes p) + d →
        lands (piece_bytes p ++ bytes_of ps) off
          (exec props (Some l) (map truncate_instruction insts))) as Hskip.
      { intros d Hdist ->. destruct (IHland _ _ Hdist) as (rest & Hs & Hlen & Hdec).
        exists rest. rewrite skip_bytes_app by by eapply label_distance_nonneg.
        rewrite length_app. split; [done|]. split; [lia|done]. }
      destruct i as [c|c|c l'|l']; cbn [label_distance] in Hd;
        try (apply bind_Some in Hd as (d & Hdist & [= <-]); by eapply Hskip).
      cbn [map truncate_instruction exec]. destruct (Z.eqb_spec l' l) as [->|Hne].
      * injection Hd as <-. inversion Hp; subst. exists (bytes_of ps). cbn.
        split; [done|]. split; [lia|done].
      * apply bind_Some in Hd as (d & Hdist & [= <-]). by eapply Hskip.
Qed.

Lemma device_match_bind_linked insts ps :
  linked tbl insts ps → code_u32 insts →
  device_match_bind props tbl (bytes_of ps) = exec props None (map truncate_instruction insts).
Proof.
  intros Hl Hu. destruct (linked_decides _ _ Hl Hu) as [H _].
  unfold device_match_bind. rewrite H by lia. done.
Qed.
End running.
