(* ===== verification/BytecodeCorrect.v ===== *)
(** End to end: decoding and matching what the encoders produced.
    [match_encoded] is the correctness of the current bytecode format for a
    driver, [composite_encoded] for a composite driver. *)
From Stdlib Require Import ZArith Lia.
From stdpp Require Import base gmap strings countable list.
From S2P Require Import Prelude BindLibrary ParserCommon SymbolTable Bytecode DecodeBindRules.
From S2P Require Import MatchBind BindRules Instruction InstructionEncoder.
From S2P Require Import EncodeV2 Compiler SymbolTableCorrect Semantics CompilerCorrect.
From S2P Require Import InstructionCorrect MatchCorrect.
Local Open Scope Z_scope.

(** ** Section headers *)

Lemma index_app_middle {E A} (pre : list A) x post i :
  i = len pre → index (E:=E) (pre ++ x :: post) i = Ok x.
Proof.
  intros ->. unfold index, len. rewrite (proj2 (Z.leb_le _ _)) by lia.
  by rewrite Nat2Z.id, list_lookup_middle.
Qed.

Lemma get_u32_bytes_app pre w post i :
  length w = 4%nat → i = len pre → get_u32_bytes (pre ++ w ++ post) i = Ok w.
Proof.
  intros Hw ->. destruct w as [|b0 [|b1 [|b2 [|b3 [|]]]]]; try done.
  unfold get_u32_bytes. rewrite Z.gtb_ltb, !len_app.
  pose proof (len_nonneg post). replace (len [b0; b1; b2; b3]) with 4 by done.
  replace (_ <? _) with false by lia. cbn [app].
  assert (∀ (q : list Z) x, len (q ++ [x]) = len q + 1) as Hsnoc
    by (intros q x; rewrite len_app; reflexivity).
  assert (∀ (q : list Z) x r, q ++ x :: r = (q ++ [x]) ++ r) as Hassoc
    by (intros q x r; by rewrite <- app_assoc).
  rewrite (index_app_middle pre b0 _ (len pre)) by done. cbn [mbind outcome_bind].
  rewrite (Hassoc pre b0), (index_app_middle _ b1 _ (len pre + 1)) by (rewrite !Hsnoc; lia).
  cbn [mbind outcome_bind].
  rewrite (Hassoc _ b1), (index_app_middle _ b2 _ (len pre + 2)) by (rewrite !Hsnoc; lia).
  cbn [mbind outcome_bind].
  rewrite (Hassoc _ b2), (index_app_middle _ b3 _ (len pre + 3)) by (rewrite !Hsnoc; lia). done.
Qed.

Lemma get_u32_bytes_0 w post : length w = 4%nat → get_u32_bytes (w ++ post) 0 = Ok w.
Proof. intros Hw. by apply (get_u32_bytes_app []). Qed.

Lemma read_and_remove_header_app magic val rest :
  is_u32 magic → is_u32 val →
  read_and_remove_header (to_be_bytes 4 magic ++ to_le_bytes 4 val ++ rest) magic =
  Ok (val, rest).
Proof.
  intros Hm Hv. unfold read_and_remove_header.
  rewrite get_u32_bytes_0 by apply length_to_be_bytes.
  cbn [mbind outcome_bind]. rewrite from_to_be_bytes_u32 by done.
  rewrite Z.eqb_refl. cbn [negb].
  rewrite (get_u32_bytes_app (to_be_bytes 4 magic) (to_le_bytes 4 val))
    by (unfold len; by rewrite ?length_to_le_bytes, ?length_to_be_bytes).
  cbn [mbind outcome_bind]. rewrite app_assoc.
  replace HEADER_SZ with (len (to_be_bytes 4 magic ++ to_le_bytes 4 val))
    by (unfold len; by rewrite length_app, length_to_be_bytes, length_to_le_bytes).
  rewrite split_off_app. cbn [mbind outcome_bind]. by rewrite from_to_le_bytes_u32.
Qed.

Lemma len_assemble tb magic ib : len (assemble tb magic ib) = 24 + len tb + len ib.
Proof.
  unfold assemble. rewrite !len_app.
  assert (∀ x, len (to_be_bytes 4 x) = 4) as Hbe by (intros; unfold len; by rewrite length_to_be_bytes).
  assert (∀ x, len (to_le_bytes 4 x) = 4) as Hle by (intros; unfold len; by rewrite length_to_le_bytes).
  rewrite !Hbe, !Hle. lia.
Qed.

(** The decoder splits the sections the encoders assembled. *)
Lemma decode_assemble tb magic ib :
  is_u32 (len tb) → is_u32 (len ib) →
  get_symbol_table_and_instruction_bytecode (assemble tb magic ib) =
  (tbl ← read_symbol_table tb;
   Ok (tbl, to_be_bytes 4 magic ++ to_le_bytes 4 (len ib) ++ ib)).
Proof.
  intros Htb Hib. pose proof (len_assemble tb magic ib) as Hasm. unfold is_u32 in Htb, Hib.
  unfold get_symbol_table_and_instruction_bytecode.
  change MINIMUM_BYTECODE_SZ with 24. replace (_ <? 24) with false by lia.
  unfold assemble. rewrite !as_u32_small by (unfold is_u32; lia).
  rewrite read_and_remove_header_app by done. cbn [mbind outcome_bind].
  change (negb (BYTECODE_VERSION =? BYTECODE_VERSION)) with false. cbn match.
  rewrite read_and_remove_header_app by (try done; unfold is_u32; lia).
  cbn [mbind outcome_bind].
  rewrite !len_app. unfold HEADER_SZ.
  replace (len (to_be_bytes 4 magic)) with 4 by (unfold len; by rewrite length_to_be_bytes).
  replace (len (to_le_bytes 4 (len ib))) with 4 by (unfold len; by rewrite length_to_le_bytes).
  replace (_ <? _) with false by lia.
  rewrite split_off_app. done.
Qed.

(** ** Drivers *)

(** What the format can carry: deprecated keys that are [u32]s and strings that
    are not empty and have no zero byte.  Numbers are always accepted, and
    truncated. *)
Definition symbol_carried (s : Symbol) : Prop := symbol_u32 s ∧ Forall encodable (symbol_strings s).

Definition code_symbols (insts : list Instruction) : list Symbol := insts ≫= instruction_symbols.

Definition carried (insts : list Instruction) : Prop := Forall symbol_carried (code_symbols insts).

#[export] Instance symbol_carried_dec s : Decision (symbol_carried s).
Proof. unfold symbol_carried. destruct s; cbn; unfold is_u32; apply _. Defined.
#[export] Instance carried_dec insts : Decision (carried insts).
Proof. unfold carried. apply _. Defined.

Lemma carried_cons i insts :
  carried (i :: insts) ↔ Forall symbol_carried (instruction_symbols i) ∧ carried insts.
Proof. unfold carried, code_symbols. cbn. apply Forall_app. Qed.

Lemma carried_u32 insts : carried insts → code_u32 insts.
Proof.
  induction insts as [|i insts IH]; intros H; constructor; apply carried_cons in H as [Hi H].
  - eapply Forall_impl; [exact Hi|]. by intros s [? _].
  - by apply IH.
Qed.

Lemma carried_strings insts : carried insts → Forall encodable (code_strings insts).
Proof.
  induction insts as [|i insts IH]; intros H; [constructor|].
  apply carried_cons in H as [Hi H]. apply Forall_app. split; [|by apply IH].
  assert (∀ c, Forall symbol_carried (condition_symbols c) → Forall encodable (condition_strings c))
    as Hc.
  { intros [|l r|l r]; cbn; [constructor|..];
      intros [[_ Hl] [[_ Hr] _]%Forall_cons]%Forall_cons; by apply Forall_app. }
  destruct i as [c|c|c l|l]; cbn in *; [auto..|constructor].
Qed.

Lemma table_map_u32 strs : 1 + len strs <= u32_size → table_u32 (table_map 1 strs).
Proof. intros H k s Hk%table_map_range. unfold is_u32. lia. Qed.

Lemma len_table_bytes k strs : 5 * len strs <= len (table_bytes k strs).
Proof. unfold len. pose proof (length_table_bytes k strs). lia. Qed.

Section correctness.
Context `{!HashMapOrder Z LabelInfo}.

(** Decoding and matching the bytes of a program gives what its instructions
    mean, numbers taken modulo 2^32. *)
Lemma match_encoded rules bc props :
  encode_to_bytecode_v2 rules = Ok bc → len bc < u32_size →
  carried (code (Instruction.instructions rules)) →
  match_bytecode bc props =
  exec props None (map truncate_instruction (code (Instruction.instructions rules))).
Proof.
  intros H Hlen Hcar. pose proof (carried_strings _ Hcar) as Hstr. unfold encode_to_bytecode_v2 in H.
  apply bind_Ok_iff in H as ([ib e] & Henc & [= <-]).
  destruct (encode_instructions_linked _ _ _ _ _ new_encoder_encodes Henc)
    as (ps & strs & -> & He & _ & Hlink & Hnew).
  rewrite (encodes_bytes _ _ He) in *.
  pose proof (len_assemble (table_bytes 1 strs) INSTRUCTION_MAGIC_NUM (bytes_of ps)) as Hasm.
  pose proof (len_table_bytes 1 strs). pose proof (len_nonneg strs).
  pose proof (len_nonneg (bytes_of ps)).
  unfold match_bytecode, DecodedBindRules_from_bytecode.
  rewrite decode_assemble by (unfold is_u32; lia).
  rewrite read_symbol_table_bytes; [|lia| |apply He].
  2:{ rewrite Forall_forall in Hstr |- *. intros x [Hx|Hx]%Hnew; [by apply elem_of_nil in Hx|auto]. }
  cbn [mbind outcome_bind]. unfold DecodedBindRules_new.
  rewrite read_and_remove_header_app by (try done; unfold is_u32; lia).
  cbn [mbind outcome_bind]. rewrite Z.eqb_refl. cbn.
  apply device_match_bind_linked; [apply table_map_u32; lia|done|by apply carried_u32].
Qed.

(** ** Composite drivers *)

Lemma linked_mono tbl tbl' insts ps : tbl ⊆ tbl' → linked tbl insts ps → linked tbl' insts ps.
Proof. intros Hsub. induction 1; constructor; eauto using piece_for_mono. Qed.

Definition node_bytes (t : RawNodeType) (key : Z) (insts : list Z) : list Z :=
  RawNodeType_as_u8 t :: to_le_bytes 4 key ++ to_le_bytes 4 (len insts) ++ insts.

(** The node [bytes] was encoded from [node], with the symbols of [tbl]. *)
Definition node_encodes (tbl : gmap Z rstring) (node : CompositeNode) (dec : Node) : Prop :=
  tbl !! name_id dec = Some (cn_name node) ∧
  ∃ ps, node_instructions dec = bytes_of ps ∧ linked tbl (code (cn_instructions node)) ps.

Definition decoded_bytes (t : RawNodeType) (dec : Node) : list Z :=
  node_bytes t (name_id dec) (node_instructions dec).

Definition node_strings (node : CompositeNode) : list rstring :=
  cn_name node :: code_strings (code (cn_instructions node)).

Lemma node_encodes_mono tbl tbl' node dec :
  tbl ⊆ tbl' → node_encodes tbl node dec → node_encodes tbl' node dec.
Proof.
  intros Hsub [Hn (ps & Hps & Hl)]. split; [by eapply lookup_weaken|].
  exists ps. split; [done|by eapply linked_mono].
Qed.

Lemma len_node_bytes t key insts : len (node_bytes t key insts) = 9 + len insts.
Proof.
  unfold node_bytes. rewrite len_cons, !len_app. unfold len at 1 2.
  rewrite !length_to_le_bytes. lia.
Qed.

(** Encoding a node appends its bytes; the size field is exact when the
    bytecode is shorter than 4 GiB. *)
Lemma append_composite_node_encodes bs node prim e strs bs' e' :
  encodes e strs → append_composite_node bs node prim e = Ok (bs', e') →
  len bs' < u32_size →
  ∃ dec strs', bs' = bs ++ decoded_bytes (if prim then Primary else Additional) dec ∧
    encodes e' strs' ∧ strs `prefix_of` strs' ∧ node_encodes (table_map 1 strs') node dec ∧
    (∀ x, x ∈ strs' → x ∈ strs ∨ x ∈ node_strings node).
Proof.
  intros Henc H Hlen. unfold append_composite_node in H. case_bool_decide; [done|].
  apply bind_Ok_iff in H as ([key e1] & Hkey & H).
  apply bind_Ok_iff in H as ([ib e2] & Hib & [<- <-]%Ok_pair_inj).
  destruct (get_key_encodes _ _ _ _ _ Henc Hkey) as (s1 & E1 & P1 & L1 & N1).
  destruct (encode_instructions_linked _ _ _ _ _ E1 Hib) as (ps & s2 & -> & E2 & P2 & Hl & N2).
  exists (mkNode key (bytes_of ps)), s2. split; [|split_and!; [done|by etrans| |]].
  - pose proof (len_nonneg bs). pose proof (len_nonneg (bytes_of ps)).
    rewrite !len_app in Hlen.
    pose proof (len_nonneg [RawNodeType_as_u8 (if prim then Primary else Additional)]).
    pose proof (len_nonneg (to_le_bytes 4 key)).
    pose proof (len_nonneg (to_le_bytes 4 (as_u32 (len (bytes_of ps))))).
    unfold decoded_bytes, node_bytes. cbn [name_id node_instructions].
    rewrite (as_u32_small (len (bytes_of ps))) by (unfold is_u32; lia).
    by rewrite <- !app_assoc.
  - split; [|by eexists]. eapply lookup_weaken; [exact L1|]. by apply table_map_mono.
  - intros x Hx. unfold node_strings. rewrite elem_of_cons.
    destruct (N2 _ Hx) as [Hx'|Hx']; [destruct (N1 _ Hx')|]; auto.
Qed.

Lemma append_additional_nodes_grow nodes st st' :
  try_fold append_additional_node st nodes = Ok st' → len st.1.1 <= len st'.1.1.
Proof.
  apply (try_fold_inv (λ s, len st.1.1 <= len s.1.1)); [lia|].
  intros [[b e] names] node [[b' e'] names'] _ Hle H. cbn in *. case_bool_decide; [done|].
  apply bind_Ok_iff in H as ([b1 e1] & H1 & [= -> -> <-]).
  unfold append_composite_node in H1. case_bool_decide; [done|].
  apply bind_Ok_iff in H1 as ([key e2] & _ & H1).
  apply bind_Ok_iff in H1 as ([ib e3] & _ & [= <- <-]).
  unfold len in *. rewrite !length_app. lia.
Qed.

(** The loop over the additional nodes appends their bytes in order. *)
Lemma append_additional_nodes_encode nodes bs e strs names bs' e' names' :
  encodes e strs →
  try_fold append_additional_node (bs, e, names) nodes = Ok (bs', e', names') →
  len bs' < u32_size →
  ∃ decs strs', bs' = bs ++ (decs ≫= decoded_bytes Additional) ∧
    encodes e' strs' ∧ strs `prefix_of` strs' ∧
    Forall2 (node_encodes (table_map 1 strs')) nodes decs ∧
    (∀ x, x ∈ strs' → x ∈ strs ∨ x ∈ nodes ≫= node_strings).
Proof.
  revert bs e strs names. induction nodes as [|node nodes IH];
    intros bs e strs names Henc H Hlen; cbn in H.
  - injection H as <- <- <-. exists [], strs. rewrite app_nil_r. split_and!; auto.
  - apply bind_Ok_iff in H as ([[bs1 e1] names1] & H1 & H).
    case_bool_decide; [done|]. apply bind_Ok_iff in H1 as ([b1 e1'] & H1 & [= -> -> <-]).
    assert (len bs1 < u32_size) as Hlen1.
    { apply append_additional_nodes_grow in H. cbn in H. lia. }
    destruct (append_composite_node_encodes _ _ _ _ _ _ _ Henc H1 Hlen1)
      as (dec & s1 & -> & E1 & P1 & D1 & N1).
    destruct (IH _ _ _ _ E1 H Hlen) as (decs & s2 & -> & E2 & P2 & D2 & N2).
    exists (dec :: decs), s2. split_and!; [|done|by etrans| |].
    + by rewrite bind_cons, <- app_assoc.
    + constructor; [|done]. eapply node_encodes_mono; [|done]. by apply table_map_mono.
    + intros x Hx. rewrite bind_cons, elem_of_app.
      destruct (N2 _ Hx) as [Hx'|]; [destruct (N1 _ Hx')|]; auto.
Qed.

(** ** Decoding nodes *)

(** What the decoder needs of a node. *)
Definition node_decodes (tbl : gmap Z rstring) (dec : Node) : Prop :=
  is_u32 (name_id dec) ∧ is_u32 (len (node_instructions dec)) ∧ is_Some (tbl !! name_id dec).

Lemma verify_and_read_node_header_bytes t key ib rest :
  is_u32 key → is_u32 (len ib) →
  verify_and_read_node_header (node_bytes t key ib ++ rest) t = Ok (key, len ib).
Proof.
  intros Hk Hib. unfold verify_and_read_node_header.
  rewrite len_app, len_node_bytes. pose proof (len_nonneg rest). unfold is_u32 in Hib.
  unfold NODE_TYPE_HEADER_SZ. replace (_ <? 9) with false by lia.
  assert (index (E:=BytecodeError) (node_bytes t key ib ++ rest) 0 =
    Ok (RawNodeType_as_u8 t)) as -> by done.
  cbn [mbind outcome_bind]. rewrite RawNodeType_from_as.
  assert (get_u32_bytes (node_bytes t key ib ++ rest) 1 = Ok (to_le_bytes 4 key)) as ->.
  { unfold node_bytes. rewrite <- app_comm_cons, <- !app_assoc.
    by apply (get_u32_bytes_app [RawNodeType_as_u8 t]). }
  assert (get_u32_bytes (node_bytes t key ib ++ rest) 5 = Ok (to_le_bytes 4 (len ib))) as ->.
  { unfold node_bytes. rewrite <- app_comm_cons, <- !app_assoc.
    by apply (get_u32_bytes_app (RawNodeType_as_u8 t :: to_le_bytes 4 key)). }
  cbn [mbind outcome_bind]. rewrite !from_to_le_bytes_u32 by done. by destruct t.
Qed.

Lemma split_off_node_bytes t dec rest tbl :
  node_decodes tbl dec →
  split_off_node (decoded_bytes t dec ++ rest) t tbl = Ok (dec, rest).
Proof.
  intros (Hk & Hib & Hin). unfold split_off_node, decoded_bytes.
  rewrite verify_and_read_node_header_bytes by done. cbn [mbind outcome_bind].
  rewrite len_app, len_node_bytes. pose proof (len_nonneg rest).
  unfold NODE_TYPE_HEADER_SZ. replace (_ <? _) with false by lia.
  rewrite bool_decide_eq_true_2 by done. cbn [negb].
  set (hd := RawNodeType_as_u8 t :: to_le_bytes 4 (name_id dec) ++
               to_le_bytes 4 (len (node_instructions dec))).
  assert (node_bytes t (name_id dec) (node_instructions dec) ++ rest =
          hd ++ node_instructions dec ++ rest) as ->.
  { unfold node_bytes, hd. cbn [app]. by rewrite <- !app_assoc. }
  replace 9 with (len hd) by (unfold hd; by rewrite len_cons, len_app).
  rewrite split_off_app. cbn [mbind outcome_bind]. rewrite split_off_app. by destruct dec.
Qed.

Lemma read_additional_nodes_bytes fuel decs tbl acc :
  (length decs < fuel)%nat → Forall (node_decodes tbl) decs →
  read_additional_nodes fuel (decs ≫= decoded_bytes Additional) tbl acc = Some (Ok (acc ++ decs)).
Proof.
  revert fuel acc. induction decs as [|dec decs IH]; intros [|fuel] acc Hf Hd; cbn in Hf; try lia.
  - cbn. by rewrite app_nil_r.
  - apply Forall_cons in Hd as [Hdec Hd]. cbn [read_additional_nodes].
    rewrite bind_cons, split_off_node_bytes by done.
    rewrite IH by (done || lia). by rewrite <- app_assoc.
Qed.

Lemma length_decoded_bytes t decs : (length decs <= length (decs ≫= decoded_bytes t))%nat.
Proof.
  induction decs as [|dec decs IH]; [done|]. rewrite bind_cons, length_app.
  pose proof (len_node_bytes t (name_id dec) (node_instructions dec)).
  unfold decoded_bytes, len in *. cbn. lia.
Qed.

(** The body of the composite section. *)
Definition composite_body (id : Z) (prim : Node) (decs : list Node) : list Z :=
  to_le_bytes 4 id ++ decoded_bytes Primary prim ++ (decs ≫= decoded_bytes Additional).

(** The composite section decodes into the nodes it was laid out from. *)
Lemma decode_composite_section tbl id prim decs :
  let body := composite_body id prim decs in
  is_u32 id → is_u32 (len body) → is_Some (tbl !! id) →
  node_decodes tbl prim → Forall (node_decodes tbl) decs →
  DecodedCompositeBindRules_new tbl
    (to_be_bytes 4 COMPOSITE_MAGIC_NUM ++ to_le_bytes 4 (len body) ++ body) =
  Ok (mkDecodedCompositeBindRules tbl id prim decs).
Proof.
  intros body Hid Hlen Hin Hprim Hdecs. unfold DecodedCompositeBindRules_new.
  rewrite read_and_remove_header_app by done. cbn [mbind outcome_bind].
  rewrite Z.eqb_refl. cbn [negb].
  assert (get_u32_bytes body 0 = Ok (to_le_bytes 4 id)) as ->
    by (apply get_u32_bytes_0, length_to_le_bytes).
  cbn [mbind outcome_bind].
  rewrite from_to_le_bytes_u32 by done.
  rewrite bool_decide_eq_true_2 by done. cbn [negb].
  assert (split_off (E:=BytecodeError) body 4 = Ok (to_le_bytes 4 id,
    decoded_bytes Primary prim ++ (decs ≫= decoded_bytes Additional))) as ->
    by apply (split_off_app (to_le_bytes 4 id)).
  cbn [mbind outcome_bind].
  rewrite split_off_node_bytes by done. cbn [mbind outcome_bind].
  rewrite read_additional_nodes_bytes; [done| |done].
  pose proof (length_decoded_bytes Additional decs). lia.
Qed.

Lemma len_decoded_bytes_elem t decs d :
  d ∈ decs → len (node_instructions d) <= len (decs ≫= decoded_bytes t).
Proof.
  induction 1 as [d decs|d d' decs _ IH]; rewrite bind_cons, len_app; unfold decoded_bytes at 1;
    rewrite len_node_bytes; [|pose proof (len_nonneg (node_instructions d')); lia].
  pose proof (len_nonneg (decs ≫= decoded_bytes t)). lia.
Qed.

Lemma len_composite_body_elem id prim decs d :
  d ∈ prim :: decs → len (node_instructions d) <= len (composite_body id prim decs).
Proof.
  unfold composite_body. rewrite !len_app. unfold decoded_bytes at 1. rewrite len_node_bytes.
  pose proof (len_nonneg (to_le_bytes 4 id)). pose proof (len_nonneg (node_instructions prim)).
  pose proof (len_nonneg (decs ≫= decoded_bytes Additional)).
  intros [->|Hd]%elem_of_cons; [lia|].
  pose proof (len_decoded_bytes_elem Additional decs d Hd). lia.
Qed.

(** A decoded node that matches a device exactly when the node of the source
    does, and has its name. *)
Definition node_agrees (tbl : gmap Z rstring) (node : CompositeNode) (dec : Node) : Prop :=
  tbl !! name_id dec = Some (cn_name node) ∧
  ∀ props, device_match_bind props tbl (node_instructions dec) =
           exec props None (map truncate_instruction (code (cn_instructions node))).

Definition node_carried (node : CompositeNode) : Prop :=
  encodable (cn_name node) ∧ carried (code (cn_instructions node)).

Lemma node_encodes_agrees tbl node dec :
  table_u32 tbl → node_carried node → node_encodes tbl node dec → node_agrees tbl node dec.
Proof.
  intros Htbl [_ Hc] [Hn (ps & Hps & Hl)]. split; [done|]. intros props. rewrite Hps.
  by apply device_match_bind_linked; [| |apply carried_u32].
Qed.

Lemma node_carried_strings nodes :
  Forall node_carried nodes → Forall encodable (nodes ≫= node_strings).
Proof.
  induction 1 as [|n nodes [Hn Hc] _ IH]; [constructor|]. rewrite bind_cons.
  apply Forall_app. split; [|done]. constructor; [done|by apply carried_strings].
Qed.

(** What the composite encoder lays out. *)
Lemma encode_composite_layout rules bc :
  encode_composite_to_bytecode rules = Ok bc → len bc < u32_size →
  ∃ e strs id prim decs,
    bc = assemble (table_bytes 1 strs) COMPOSITE_MAGIC_NUM (composite_body id prim decs) ∧
    encodes e strs ∧ table_map 1 strs !! id = Some (device_name rules) ∧
    Forall2 (node_encodes (table_map 1 strs))
      (Instruction.primary_node rules :: Instruction.additional_nodes rules) (prim :: decs) ∧
    ∀ x, x ∈ strs → x = device_name rules ∨
      x ∈ (Instruction.primary_node rules :: Instruction.additional_nodes rules) ≫= node_strings.
Proof.
  intros H Hlen. unfold encode_composite_to_bytecode in H. case_bool_decide; [done|].
  apply bind_Ok_iff in H as ([id e0] & Hid & H).
  apply bind_Ok_iff in H as ([b1 e1] & H1 & H).
  apply bind_Ok_iff in H as ([[b2 e2] names] & H2 & [= <-]).
  pose proof (len_assemble (table_bytecode e2) COMPOSITE_MAGIC_NUM b2) as Hasm.
  pose proof (len_nonneg (table_bytecode e2)). pose proof (len_nonneg b2).
  pose proof (append_additional_nodes_grow _ _ _ H2) as Hgrow. cbn in Hgrow.
  destruct (get_key_encodes _ _ _ _ _ new_encoder_encodes Hid) as (s0 & E0 & P0 & L0 & N0).
  destruct (append_composite_node_encodes _ _ _ _ _ _ _ E0 H1)
    as (prim & s1 & -> & E1 & P1 & D1 & N1); [lia|].
  destruct (append_additional_nodes_encode _ _ _ _ _ _ _ _ E1 H2)
    as (decs & s2 & -> & E2 & P2 & D2 & N2); [lia|].
  exists e2, s2, id, prim, decs. rewrite (encodes_bytes _ _ E2). split_and!.
  - unfold composite_body. by rewrite app_assoc.
  - done.
  - eapply lookup_weaken; [exact L0|]. apply table_map_mono. by etrans.
  - constructor; [|done]. eapply node_encodes_mono; [|exact D1]. by apply table_map_mono.
  - intros x Hx. rewrite bind_cons, elem_of_app.
    destruct (N2 _ Hx) as [Hx1|]; [destruct (N1 _ Hx1) as [Hx0|]; [destruct (N0 _ Hx0) as [Hn|]|]|]; auto.
    by apply elem_of_nil in Hn.
Qed.

(** Decoding what the composite encoder produced gives the device name and the
    nodes in order, each with its name and its meaning. *)
Lemma composite_encoded rules bc :
  encode_composite_to_bytecode rules = Ok bc → len bc < u32_size →
  encodable (device_name rules) →
  Forall node_carried (Instruction.primary_node rules :: Instruction.additional_nodes rules) →
  ∃ dec, DecodedRules_new bc = Ok (Composite dec) ∧
    DecodeBindRules.composite_symbol_table dec !! device_name_id dec = Some (device_name rules) ∧
    Forall2 (node_agrees (DecodeBindRules.composite_symbol_table dec))
      (Instruction.primary_node rules :: Instruction.additional_nodes rules)
      (DecodeBindRules.primary_node dec :: DecodeBindRules.additional_nodes dec).
Proof.
  intros H Hlen Hdev Hnodes.
  destruct (encode_composite_layout _ _ H Hlen) as (e & strs & id & prim & decs & -> & He & Hid & Hn & Hs).
  rewrite len_assemble in Hlen. pose proof (len_table_bytes 1 strs). pose proof (len_nonneg strs).
  pose proof (len_nonneg (composite_body id prim decs)).
  assert (table_u32 (table_map 1 strs)) as Hu32 by (apply table_map_u32; lia).
  assert (Forall (node_decodes (table_map 1 strs)) (prim :: decs)) as Hdec.
  { apply Forall_forall. intros d Hd. destruct (list_elem_of_lookup_1 _ _ Hd) as [k Hk].
    destruct (Forall2_lookup_r _ _ _ _ _ Hn Hk) as (node & _ & Hname & _).
    split; [by eapply Hu32|]. split; [|by eexists].
    pose proof (len_composite_body_elem id prim decs d Hd).
    pose proof (len_nonneg (node_instructions d)). unfold is_u32. lia. }
  apply Forall_cons in Hdec as [Hprim Hdecs].
  exists (mkDecodedCompositeBindRules (table_map 1 strs) id prim decs). split_and!; [|done|].
  - unfold DecodedRules_new. rewrite decode_assemble by (unfold is_u32; lia).
    rewrite read_symbol_table_bytes; [|lia| |apply He].
    + cbn [mbind outcome_bind]. rewrite get_u32_bytes_0 by apply length_to_be_bytes.
      cbn [mbind outcome_bind]. rewrite from_to_be_bytes_u32, Z.eqb_refl by done.
      rewrite decode_composite_section; [done|by eapply Hu32|unfold is_u32; lia|by eexists|done|done].
    + pose proof (node_carried_strings _ Hnodes) as Hstr. rewrite Forall_forall in Hstr |- *.
      intros x [->|Hx]%Hs; [done|by apply Hstr].
  - apply Forall2_same_length_lookup. split; [by eapply Forall2_length|].
    intros k node dec Hk Hk'. apply node_encodes_agrees; [done| |].
    + by eapply Forall_lookup_1 in Hnodes.
    + by eapply Forall2_lookup_lr.
Qed.
End correctness.
