(* ===== verification/EncoderTotal.v ===== *)
(** The encoder never panics, whatever the instructions
    ([encode_instructions_no_panic]), and it accepts every program whose labels
    are well placed and whose comparisons are typed
    ([encode_instructions_succeeds]). *)
From Stdlib Require Import ZArith Lia.
From stdpp Require Import base gmap strings countable list.
From S2P Require Import Prelude BindLibrary SymbolTable Bytecode Instruction InstructionEncoder.
From S2P Require Import InstructionEncoder EncodeV2 SymbolTableCorrect Semantics.
From S2P Require Import InstructionCorrect.
Local Open Scope Z_scope.

(** ** Backpatching *)

Section backpatching.
Context (insts : list Instruction) (ps0 : list piece) (strs : list rstring) (st : EncoderState).
Hypothesis E : encoding insts ps0 strs st.

Lemma pos_mono j k : (j <= k)%nat → (k <= length ps0)%nat → pos ps0 j <= pos ps0 k.
Proof.
  intros Hjk Hk. destruct (Nat.eq_dec j k) as [->|]; [lia|].
  pose proof (pos_lt _ _ _ j k (en_pieces _ _ _ _ E) ltac:(lia) Hk). lia.
Qed.

(** The offset of some jump to [l] does not fit. *)
Definition overflows (l : Z) : Prop :=
  ∃ k m c, insts !! k = Some (Goto c l) ∧ insts !! m = Some (Label l) ∧
    u32_size <= pos ps0 m - pos ps0 (S k).

Lemma overflows_big l : overflows l → u32_size <= len (bytes_of ps0).
Proof.
  intros (k & m & c & Hk & Hm & Hmax). apply (inst_in_range _ _ _ _ E) in Hk, Hm.
  pose proof (pos_mono m (length ps0) ltac:(lia) ltac:(lia)) as Hend. rewrite pos_length in Hend.
  pose proof (pos_mono 0 (S k) ltac:(lia) ltac:(lia)) as Hstart.
  change (pos ps0 0) with 0 in Hstart. lia.
Qed.

(** Patching a recorded jump succeeds, unless the offset does not fit. *)
Lemma patch_usage_total ps l data lbl u :
  Forall2 same_shape ps ps0 → label_map st !! l = Some data → label_index data = Some lbl →
  u ∈ jump_instructions data →
  (∃ bs', patch_jump l lbl (bytes_of ps) u = Ok bs') ∨
  (patch_jump l lbl (bytes_of ps) u = Err (JumpOffsetOutOfRange l) ∧ overflows l).
Proof.
  intros Hs Hd Hlbl Hu.
  destruct (en_jump_inv _ _ _ _ E _ _ _ Hd Hu) as (k & c & Hk & ->).
  destruct (en_label_inv _ _ _ _ E _ _ _ Hd Hlbl) as (m & Hm & ->).
  destruct (jump_piece _ _ _ _ E _ _ _ _ Hs Hk) as (op & off & tail & Hp).
  pose proof (en_order _ _ _ _ E _ _ _ _ Hk Hm) as Hlt.
  pose proof (inst_in_range _ _ _ _ E _ _ Hm).
  pose proof (pos_mono (S k) m ltac:(lia) ltac:(lia)).
  erewrite patch_jump_eq; [|exact Hp|by rewrite (same_shape_pos _ _ _ Hs)|cbn; lia].
  cbn. case_match eqn:Hmax; [left; by eexists|right]. bool_props. split; [done|].
  exists k, m, c. split_and!; [done|done|lia].
Qed.

Lemma patch_usages_total ps l data lbl us :
  Forall2 same_shape ps ps0 → label_map st !! l = Some data → label_index data = Some lbl →
  (∀ u, u ∈ us → u ∈ jump_instructions data) →
  (∃ bs', try_fold (patch_jump l lbl) (bytes_of ps) us = Ok bs') ∨
  (try_fold (patch_jump l lbl) (bytes_of ps) us = Err (JumpOffsetOutOfRange l) ∧
   overflows l).
Proof.
  intros Hs Hd Hlbl. revert ps Hs. induction us as [|u us IH]; intros ps Hs Hus.
  - left. by eexists.
  - assert (u ∈ jump_instructions data) as Hu by (apply Hus; constructor).
    destruct (patch_usage_total _ _ _ _ _ Hs Hd Hlbl Hu) as [[bs1 H1]|[H1 Hmax]];
      cbn; rewrite H1; [|by right].
    destruct (patch_usage _ _ _ _ E _ _ _ _ _ _ Hs Hd Hlbl Hu H1) as (ps1 & -> & Hs1 & _).
    cbn. apply IH; [done|]. intros v Hv. apply Hus. by constructor.
Qed.

Lemma patch_labels_total ps entries :
  Forall2 same_shape ps ps0 → (∀ l d, (l, d) ∈ entries → label_map st !! l = Some d) →
  (∃ bs', try_fold patch_label (bytes_of ps) entries = Ok bs') ∨
  (∃ l d, (l, d) ∈ entries ∧ label_index d = None ∧
     try_fold patch_label (bytes_of ps) entries = Err (MissingLabel l)) ∨
  (∃ l, try_fold patch_label (bytes_of ps) entries = Err (JumpOffsetOutOfRange l) ∧
     overflows l).
Proof.
  intros Hs. revert ps Hs. induction entries as [|[l d] r IH]; intros ps Hs Hin.
  - left. by eexists.
  - assert (label_map st !! l = Some d) as Hd by (apply Hin; constructor).
    cbn. destruct (label_index d) as [lbl|] eqn:Hlbl.
    2:{ right. left. exists l, d. split_and!; [constructor|done|done]. }
    destruct (patch_usages_total ps l d lbl (jump_instructions d) Hs Hd Hlbl)
      as [[bs1 H1]|[H1 Hmax]]; [done|rewrite H1|rewrite H1; right; right; by eexists].
    destruct (patch_usages _ _ _ _ E _ _ _ _ _ _ Hs Hd Hlbl (λ u H, H) H1) as (ps1 & -> & Hs1 & _).
    cbn. destruct (IH ps1 Hs1) as [?|[(l' & d' & Hl' & Hd' & ->)|?]];
      [intros; apply Hin; by constructor|by left| |by right; right].
    right. left. exists l', d'. split_and!; [by constructor|done|done].
Qed.
End backpatching.

(** ** No panic *)

(** The next key of the symbol table, which the encoder spends. *)
Definition next_key (st : EncoderState) : Z := unique_key (symbols st).

Lemma get_key_spends e s : spends (λ p, unique_key p.2) (unique_key e) 1 (get_key e s).
Proof. unfold get_key, add_symbol. repeat case_match; cbn; lia. Qed.

Lemma append_value_spends st s :
  spends next_key (next_key st) (len (symbol_strings s)) (append_value st s).
Proof.
  unfold append_value. replace (len (symbol_strings s)) with (len (symbol_strings s) + 0) by lia.
  apply spends_bind with (key := λ p, unique_key p.2); [|done|].
  - destruct s as [| | | | |]; cbn; try (unfold next_key, len; cbn; lia);
      (replace (len [_]) with (1 + 0) by done; eapply spends_bind; [apply get_key_spends|done|]);
      intros [] _; cbn; lia.
  - intros [[? ?] e] _. cbn. unfold next_key. cbn. lia.
Qed.

Lemma append_value_comparison_spends st l r :
  spends next_key (next_key st) (len (symbol_strings l ++ symbol_strings r))
    (append_value_comparison st l r).
Proof.
  unfold append_value_comparison. case_match; [done|].
  destruct (rhs_value_type r); cbn [ok_or mbind outcome_bind]; [|done].
  destruct (match l with Key _ _ => _ | _ => _ end) as [u|e|] eqn:Hm; cbn [mbind outcome_bind]; [|done|].
  - rewrite len_app. eapply spends_bind; [apply append_value_spends|apply len_nonneg|].
    intros st1 _. apply append_value_spends.
  - by repeat case_match.
Qed.

Lemma encode_step_spends st info :
  spends next_key (next_key st) (len (instruction_strings (to_instruction (sym_instruction info))))
    (encode_step st info).
Proof.
  unfold encode_step. cbn [info_to_instruction instruction].
  destruct (to_instruction (sym_instruction info)) as [c|c|c l|l]; [|done| |].
  - destruct c as [|x y|x y]; cbn [append_abort_instruction instruction_strings condition_strings];
      [cbn; unfold next_key, len; cbn; lia|apply (append_value_comparison_spends (append_bytes st _))..].
  - unfold append_jmp_statement.
    replace (len (instruction_strings (Goto c l))) with (len (instruction_strings (Goto c l)) + 0) by lia.
    apply spends_bind with (key := next_key); [|done|intros st1 _; case_match; cbn; unfold next_key; cbn; lia].
    destruct c as [|x y|x y]; cbn [instruction_strings condition_strings];
      [cbn; unfold next_key, len; cbn; lia|apply (append_value_comparison_spends (append_bytes st _))..].
  - unfold append_and_update_label. case_match; [done|]. cbn. unfold next_key, len. cbn. lia.
Qed.

Lemma code_strings_cons info infos :
  len (code_strings (code (info :: infos))) =
  len (instruction_strings (to_instruction (sym_instruction info))) + len (code_strings (code infos)).
Proof. unfold code_strings. cbn [code map]. by rewrite bind_cons, len_app. Qed.

Lemma code_strings_length insts : len (code_strings insts) <= 2 * len insts.
Proof.
  assert (∀ s, len (symbol_strings s) <= 1) as Hs by (intros []; unfold len; cbn; lia).
  assert (∀ i, len (instruction_strings i) <= 2) as Hi.
  { intros [[|l r|l r]|[|l r|l r]|[|l r|l r] lbl|lbl]; cbn [instruction_strings condition_strings]; try (unfold len; cbn; lia);
      rewrite len_app; pose proof (Hs l); pose proof (Hs r); lia. }
  induction insts as [|i insts IH]; [done|]. unfold code_strings in *.
  rewrite bind_cons, len_app, len_cons. specialize (Hi i). lia.
Qed.

Lemma encode_loop_spends infos st :
  spends next_key (next_key st) (len (code_strings (code infos))) (try_fold encode_step st infos).
Proof.
  revert st. induction infos as [|info infos IH]; intros st; [cbn; unfold len; cbn; lia|].
  rewrite code_strings_cons. cbn [try_fold].
  eapply spends_bind; [apply encode_step_spends|apply len_nonneg|]. intros st1 _. apply IH.
Qed.

(** The state of the encoder before the first instruction. *)
Lemma encoding_start e strs : encodes e strs → encoding [] [] strs (mkEncoderState ∅ [] e).
Proof. intros He. split; try done; intros; by simplify_map_eq. Qed.

Lemma label_map_entries `{!HashMapOrder Z LabelInfo} st l d :
  (l, d) ∈ hash_map_iter (label_map st) → label_map st !! l = Some d.
Proof. intros Hin. apply elem_of_map_to_list. by rewrite <- hash_map_iter_perm. Qed.

Lemma encode_instructions_spends `{!HashMapOrder Z LabelInfo} infos e strs :
  encodes e strs →
  spends (λ p, unique_key p.2) (unique_key e) (len (code_strings (code infos)))
    (encode_instructions infos e).
Proof.
  intros He. unfold encode_instructions. rewrite <- (Z.add_0_r (len _)).
  apply spends_bind with (key := next_key);
    [apply (encode_loop_spends infos (mkEncoderState ∅ [] e))|done|].
  intros st Hst. destruct (encode_loop_encoding _ _ _ _ _ _ (encoding_start _ _ He) Hst)
    as (ps & strs' & E & _).
  cbn in E. rewrite (en_bytes _ _ _ _ E).
  destruct (patch_labels_total _ _ _ _ E ps (hash_map_iter (label_map st)))
    as [[? ->]|[(? & ? & _ & _ & ->)|(? & -> & _)]]; [..|cbn; unfold next_key; lia|done|done].
  - apply Forall_Forall2_diag, Forall_true. apply same_shape_refl.
  - intros. by apply label_map_entries.
Qed.

(** ** Success *)

(** Labels are unique, and every jump goes forward to a label. *)
Record well_labelled (insts : list Instruction) : Prop := {
  wl_unique j k l : insts !! j = Some (Label l) → insts !! k = Some (Label l) → j = k;
  wl_forward j c l : insts !! j = Some (Goto c l) → ∃ k, (j < k)%nat ∧ insts !! k = Some (Label l);
}.

(** A comparison the encoder accepts: a key on the left, a value on the right
    whose type is the key's. *)
Definition comparison_typed (l r : Symbol) : Prop :=
  match l with
  | DeprecatedKey _ => is_Some (rhs_value_type r)
  | Key _ vt => rhs_value_type r = Some vt
  | _ => False
  end.

#[export] Instance comparison_typed_dec l r : Decision (comparison_typed l r).
Proof. unfold comparison_typed. destruct l; apply _. Defined.

Definition condition_typed (c : InstCondition) : Prop :=
  match c with
  | Always => True
  | Equal l r | NotEqual l r => comparison_typed l r
  end.

(** The instructions of the new format: no [Match], typed conditions. *)
Definition instruction_typed (i : Instruction) : Prop :=
  match i with
  | Abort c | Goto c _ => condition_typed c
  | Label _ => True
  | Match _ => False
  end.

Definition short (s : rstring) : Prop := len s <= MAX_STRING_LENGTH.

#[export] Instance condition_typed_dec c : Decision (condition_typed c).
Proof. destruct c; cbn; apply _. Defined.

#[export] Instance short_dec s : Decision (short s).
Proof. unfold short. apply _. Defined.

Lemma get_key_succeeds e s :
  short s → unique_key e + 1 < u32_size → ∃ k e', get_key e s = Ok (k, e').
Proof.
  intros Hs Hk. unfold get_key, add_symbol, short in *. case_match; [eauto|].
  rewrite Z.gtb_ltb. replace (_ <? len s) with false by lia. case_match; [eauto|lia].
Qed.

Lemma append_value_succeeds st s :
  Forall short (symbol_strings s) → next_key st + len (symbol_strings s) < u32_size →
  ∃ st', append_value st s = Ok st'.
Proof.
  intros Hs Hk. unfold append_value.
  destruct s as [k|x vt|n|x|b|x]; cbn in *; eauto;
    apply Forall_cons in Hs as [Hs _];
    destruct (get_key_succeeds (symbols st) x Hs Hk) as (k & e & ->); cbn; eauto.
Qed.

Lemma append_value_comparison_succeeds st l r :
  comparison_typed l r → Forall short (symbol_strings l ++ symbol_strings r) →
  next_key st + len (symbol_strings l ++ symbol_strings r) < u32_size →
  ∃ st', append_value_comparison st l r = Ok st'.
Proof.
  intros Ht [Hl Hr]%Forall_app Hk. unfold append_value_comparison. rewrite len_app in Hk.
  pose proof (len_nonneg (symbol_strings r)).
  destruct (append_value_succeeds st l Hl) as [st1 H1]; [lia|].
  pose proof (append_value_spends st l) as Hsp. rewrite H1 in Hsp. cbn in Hsp.
  destruct (append_value_succeeds st1 r Hr) as [st2 H2]; [lia|].
  destruct l as [k|x vt| | | |]; try done; cbn [is_symbol_key negb].
  - destruct Ht as [vt ->]. cbn [ok_or mbind outcome_bind]. rewrite H1. cbn. eauto.
  - cbn in Ht. rewrite Ht. cbn [ok_or mbind outcome_bind].
    rewrite bool_decide_eq_true_2 by done. cbn [negb mbind outcome_bind]. rewrite H1. cbn. eauto.
Qed.

Lemma append_bytes_label_map st bs : label_map (append_bytes st bs) = label_map st.
Proof. done. Qed.

Lemma append_value_comparison_label_map st l r st' :
  append_value_comparison st l r = Ok st' → label_map st' = label_map st.
Proof.
  assert (∀ st s st', append_value st s = Ok st' → label_map st' = label_map st) as Hv.
  { intros st0 s st0' H. apply bind_Ok_iff in H as ([[? ?] ?] & _ & [= <-]). done. }
  unfold append_value_comparison. intros H. case_match; [done|].
  apply bind_Ok_iff in H as (? & _ & H). apply bind_Ok_iff in H as (? & _ & H).
  apply bind_Ok_iff in H as (st1 & H1 & H2). by rewrite (Hv _ _ _ H2), (Hv _ _ _ H1).
Qed.

(** A label the loop has not reached is not placed. *)
Lemma label_not_placed insts ps strs st l :
  encoding insts ps strs st → (∀ k, insts !! k ≠ Some (Label l)) → label_placed (label_map st) l = false.
Proof.
  intros E Hl. destruct (label_placed _ _) eqn:Hp; [|done].
  apply label_placed_true in Hp as (d & p & Hd & Hi).
  destruct (en_label_inv _ _ _ _ E _ _ _ Hd Hi) as (k & Hk & _). by apply Hl in Hk.
Qed.

Lemma encode_step_succeeds insts ps strs st info :
  let i := to_instruction (sym_instruction info) in
  encoding insts ps strs st → instruction_typed i → Forall short (instruction_strings i) →
  next_key st + len (instruction_strings i) < u32_size →
  (∀ l, i = Label l ∨ (∃ c, i = Goto c l) → ∀ k, insts !! k ≠ Some (Label l)) →
  ∃ st', encode_step st info = Ok st'.
Proof.
  intros i E Ht Hs Hk Hl. unfold encode_step. cbn [info_to_instruction instruction]. fold i.
  destruct i as [c|c|c lbl|lbl].
  - destruct c as [|l r|l r]; cbn; [eauto|..]; by apply append_value_comparison_succeeds.
  - done.
  - assert (label_placed (label_map st) lbl = false) as Hp
      by (eapply label_not_placed; [exact E|apply Hl; eauto]).
    unfold append_jmp_statement. destruct c as [|l r|l r]; cbn [mbind outcome_bind].
    + rewrite append_bytes_label_map, Hp. eauto.
    + destruct (append_value_comparison_succeeds
        (append_bytes st (RawOp_as_u8 Op_JumpIfEqual :: to_le_bytes 4 0)) l r) as [st' H]; [done..|].
      rewrite H. apply append_value_comparison_label_map in H.
      rewrite append_bytes_label_map in H. cbn [mbind outcome_bind]. rewrite H, Hp. eauto.
    + destruct (append_value_comparison_succeeds
        (append_bytes st (RawOp_as_u8 Op_JumpIfNotEqual :: to_le_bytes 4 0)) l r) as [st' H]; [done..|].
      rewrite H. apply append_value_comparison_label_map in H.
      rewrite append_bytes_label_map in H. cbn [mbind outcome_bind]. rewrite H, Hp. eauto.
  - assert (label_placed (label_map st) lbl = false) as Hp
      by (eapply label_not_placed; [exact E|apply Hl; eauto]).
    unfold append_and_update_label. rewrite Hp. eauto.
Qed.

Lemma well_labelled_new insts i rest l :
  well_labelled (insts ++ i :: rest) → (i = Label l ∨ ∃ c, i = Goto c l) →
  ∀ k, insts !! k ≠ Some (Label l).
Proof.
  intros [Hu Hf] Hi k Hk. pose proof (lookup_lt_Some _ _ _ Hk) as Hlt.
  assert ((insts ++ i :: rest) !! k = Some (Label l)) as Hk' by by apply lookup_app_l_Some.
  assert ((insts ++ i :: rest) !! length insts = Some i) as Hn by by apply list_lookup_middle.
  destruct Hi as [->|[c ->]].
  - specialize (Hu _ _ _ Hk' Hn). lia.
  - destruct (Hf _ _ _ Hn) as (m & Hm & Hlm). specialize (Hu _ _ _ Hk' Hlm). lia.
Qed.

Lemma encode_loop_succeeds infos insts ps strs st :
  encoding insts ps strs st → well_labelled (insts ++ code infos) →
  Forall instruction_typed (code infos) → Forall short (code_strings (code infos)) →
  next_key st + len (code_strings (code infos)) < u32_size →
  ∃ st', try_fold encode_step st infos = Ok st'.
Proof.
  revert insts ps strs st. induction infos as [|info infos IH]; intros insts ps strs st E Hw Ht Hs Hk.
  - eauto.
  - rewrite code_strings_cons in Hk. pose proof (len_nonneg (code_strings (code infos))).
    cbn [code map] in Hw, Ht, Hs. apply Forall_cons in Ht as [Hti Ht].
    unfold code_strings in Hs. rewrite bind_cons in Hs. apply Forall_app in Hs as [Hsi Hs].
    destruct (encode_step_succeeds _ _ _ _ info E Hti Hsi) as [st1 H1]; [lia|..].
    { intros l. by apply well_labelled_new with (rest := code infos). }
    cbn. rewrite H1. cbn.
    destruct (encode_step_encoding _ _ _ _ _ _ E H1) as (p & s1 & E1 & _ & _).
    pose proof (encode_step_spends st info) as Hsp. rewrite H1 in Hsp. cbn in Hsp.
    eapply IH; [exact E1| |done|done|lia]. by rewrite <- app_assoc.
Qed.

Lemma piece_for_size tbl i p : piece_for tbl i p → len (piece_bytes p) <= 15.
Proof.
  assert (∀ s bs, value_bytes tbl s bs → len bs = 5) as Hv by (by destruct 1).
  assert (∀ l r bs, operand_bytes tbl l r bs → len bs = 10) as Ho.
  { destruct 1 as [bl br _ _ H1 H2]. rewrite len_app, (Hv _ _ H1), (Hv _ _ H2). done. }
  destruct 1; cbn [piece_bytes]; rewrite ?len_cons, ?len_app;
    try match goal with H : operand_bytes _ _ _ _ |- _ => rewrite (Ho _ _ _ H) end;
    unfold len; rewrite ?length_to_le_bytes; cbn; lia.
Qed.

Lemma pieces_size tbl insts ps :
  Forall2 (piece_for tbl) insts ps → len (bytes_of ps) <= 15 * len insts.
Proof.
  induction 1 as [|i p insts ps Hp _ IH]; [done|].
  change (bytes_of (p :: ps)) with (piece_bytes p ++ bytes_of ps).
  rewrite len_app, len_cons. apply piece_for_size in Hp. lia.
Qed.

(** Enough for the encoder to succeed; an instruction takes at most 15 bytes. *)
Definition encodes_well (insts : list Instruction) : Prop :=
  well_labelled insts ∧ Forall instruction_typed insts ∧ Forall short (code_strings insts) ∧
  15 * len insts < u32_size.

Lemma encode_instructions_succeeds `{!HashMapOrder Z LabelInfo} infos e strs :
  encodes e strs → encodes_well (code infos) →
  unique_key e + len (code_strings (code infos)) < u32_size →
  ∃ bs e', encode_instructions infos e = Ok (bs, e').
Proof.
  intros He (Hw & Ht & Hs & Hmax) Hkey. unfold encode_instructions.
  destruct (encode_loop_succeeds infos _ _ _ _ (encoding_start _ _ He)) as [st Hst]; [done..|].
  rewrite Hst. cbn [mbind outcome_bind].
  destruct (encode_loop_encoding _ _ _ _ _ _ (encoding_start _ _ He) Hst) as (ps & strs' & E & _).
  cbn in E. rewrite (en_bytes _ _ _ _ E).
  destruct (patch_labels_total _ _ _ _ E ps (hash_map_iter (label_map st)))
    as [[bs ->]|[(l & d & Hin & Hnone & _)|(l & _ & Hbig)]].
  - apply Forall_Forall2_diag, Forall_true. apply same_shape_refl.
  - intros. by apply label_map_entries.
  - cbn. eauto.
  - exfalso. apply label_map_entries in Hin.
    destruct (en_used _ _ _ _ E _ _ Hin) as [[? ?]|Hused]; [congruence|].
    destruct (jump_instructions d) as [|j js] eqn:Hj; [done|].
    destruct (en_jump_inv _ _ _ _ E _ _ j Hin) as (k & c & Hk & _); [rewrite Hj; constructor|].
    destruct (wl_forward _ Hw _ _ _ Hk) as (m & _ & Hm).
    destruct (en_label _ _ _ _ E _ _ Hm) as (d' & Hd' & Hi). congruence.
  - exfalso. apply (overflows_big _ _ _ _ E) in Hbig.
    pose proof (pieces_size _ _ _ (en_pieces _ _ _ _ E)). lia.
Qed.
