(* ===== verification/CompilerLabels.v ===== *)
(** The labels of compiled code are well placed: every label the compiler emits
    is defined once, and every jump goes forward to its label
    ([compile_statements_well_labelled]).  With typed comparisons and short
    strings, the encoder therefore accepts what the compiler emits. *)
From Stdlib Require Import ZArith Lia.
From stdpp Require Import base gmap strings countable list.
From S2P Require Import Prelude BindLibrary ParserCommon Bytecode BindRules SymbolTable.
From S2P Require Import InstructionEncoder Instruction Compiler Semantics.
From S2P Require Import CompilerCorrect InstructionCorrect EncoderTotal.
Local Open Scope Z_scope.

(** ** Forward jumps *)

(** Every jump goes to a label further on, or to one of [F]. *)
Fixpoint forward (F : Z → Prop) (c : list Instruction) : Prop :=
  match c with
  | [] => True
  | Goto _ l :: r => (Label l ∈ r ∨ F l) ∧ forward F r
  | _ :: r => forward F r
  end.

(** The labels defined, in order. *)
Definition labels (c : list Instruction) : list Z :=
  omap (λ i, match i with Label l => Some l | _ => None end) c.

Lemma labels_app a b : labels (a ++ b) = labels a ++ labels b.
Proof. apply omap_app. Qed.

Lemma elem_of_labels l c : l ∈ labels c ↔ Label l ∈ c.
Proof.
  unfold labels. rewrite list_elem_of_omap. split.
  - intros ([] & Hx & [= ->]). done.
  - intros H. by exists (Label l).
Qed.

Lemma forward_weaken (F G : Z → Prop) c : (∀ l, F l → G l) → forward F c → forward G c.
Proof.
  intros HFG. induction c as [|i c IH]; [done|].
  destruct i; cbn; try apply IH. intros [[?|?] ?]; auto.
Qed.

Lemma forward_app (F : Z → Prop) a b :
  forward (λ l, Label l ∈ b ∨ F l) a → forward F b → forward F (a ++ b).
Proof.
  intros Ha Hb. induction a as [|i a IH]; [done|].
  destruct i; cbn in *; try by apply IH.
  destruct Ha as [Hl Ha]. split; [|by apply IH]. rewrite elem_of_app. tauto.
Qed.

(** Closed code: unique labels in [lo, hi), and jumps that stay inside except
    those to [F]. *)
Record labelled (F : Z → Prop) (lo hi : Z) (c : list Instruction) : Prop := {
  lb_le : lo <= hi;
  lb_range : labels_within lo hi c;
  lb_nodup : NoDup (labels c);
  lb_forward : forward F c;
}.

Lemma labelled_app F lo mid hi a b :
  labelled F lo mid a → labelled F mid hi b → labelled F lo hi (a ++ b).
Proof.
  intros [L1 R1 N1 F1] [L2 R2 N2 F2]. split; [lia| | |].
  - apply labels_within_app; eapply labels_within_weaken; [..|exact R1| | |exact R2]; lia.
  - rewrite labels_app. apply NoDup_app. split_and!; [done| |done].
    intros x Hx%elem_of_labels%R1 Hy%elem_of_labels%R2. lia.
  - apply forward_app; [|done]. eapply forward_weaken; [|exact F1]. auto.
Qed.

Lemma labelled_nil F lo : labelled F lo lo [].
Proof. split; [lia| |constructor|done]. by intros l ?%elem_of_nil. Qed.

(** Closing the label [f] after code that jumps to it. *)
Lemma labelled_close F f lo hi c :
  f < lo → labelled (λ l, l = f ∨ F l) lo hi c → labelled F f hi (c ++ [Label f]).
Proof.
  intros Hf [L R N Fw]. split; [lia| | |].
  - intros l [Hl|Hl]%elem_of_app; [apply R in Hl; lia|].
    apply list_elem_of_singleton in Hl as [= ->]. lia.
  - rewrite labels_app. apply NoDup_app. split_and!; [done| |cbn; apply NoDup_singleton].
    intros x Hx%elem_of_labels%R Hy. cbn in Hy. apply list_elem_of_singleton in Hy. lia.
  - apply forward_app; [|done]. eapply forward_weaken; [|exact Fw].
    intros l [->|]; [left; by apply list_elem_of_singleton|by right].
Qed.

Lemma labelled_weaken (F G : Z → Prop) lo hi c :
  (∀ l, F l → G l) → labelled F lo hi c → labelled G lo hi c.
Proof. intros HFG [L R N Fw]. split; try done. by eapply forward_weaken. Qed.

Lemma labelled_well_labelled lo hi c : labelled (λ _, False) lo hi c → well_labelled c.
Proof.
  intros [_ _ N Fw]. clear lo hi. split.
  - clear Fw. revert N. induction c as [|i c IH]; intros N j k l Hj Hk; [done|].
    assert (NoDup (labels c)) as Nc by (destruct i; [done..|by apply NoDup_cons in N as [_ ?]]).
    assert (∀ m, i = Label l → c !! m ≠ Some (Label l)) as Hnot.
    { intros m -> Hm. apply NoDup_cons in N as [Hn _].
      apply Hn, elem_of_labels. by eapply list_elem_of_lookup_2. }
    destruct j as [|j], k as [|k]; cbn in Hj, Hk; [done| | |f_equal; by eapply IH].
    + injection Hj as ->. by apply Hnot in Hk.
    + injection Hk as ->. by apply Hnot in Hj.
  - clear N. induction c as [|i c IH]; intros j cnd l Hj; [done|]. destruct j as [|j]; cbn in Hj.
    + injection Hj as ->. destruct Fw as [[Hl|[]] _].
      apply list_elem_of_lookup_1 in Hl as [k Hk]. exists (S k). split; [lia|done].
    + destruct (IH ltac:(destruct i; cbn in Fw; tauto) _ _ _ Hj) as (k & Hk & Hl).
      exists (S k). split; [lia|done].
Qed.

(** ** What the compiler emits *)

Section compile_labels.
Context (table : SymbolTable).

(** Compiling from [c] to [c'] emitted closed code, apart from jumps to [F]. *)
Definition emits_labelled (F : Z → Prop) (c c' : Compiler) : Prop :=
  ∃ new, emitted c' = emitted c ++ new ∧ labelled F (next_label_id c) (next_label_id c') (code new).

Lemma emits_labelled_refl F c : emits_labelled F c c.
Proof. exists []. rewrite app_nil_r. split; [done|apply labelled_nil]. Qed.

Lemma emits_labelled_trans F c1 c2 c3 :
  emits_labelled F c1 c2 → emits_labelled F c2 c3 → emits_labelled F c1 c3.
Proof.
  intros (a & Ea & La) (b & Eb & Lb). exists (a ++ b). split; [by rewrite Eb, Ea, app_assoc|].
  rewrite code_app. by eapply labelled_app.
Qed.

Lemma emits_labelled_weaken (F G : Z → Prop) c c' :
  (∀ l, F l → G l) → emits_labelled F c c' → emits_labelled G c c'.
Proof. intros HFG (a & Ea & La). exists a. split; [done|by eapply labelled_weaken]. Qed.

(** An instruction that is no label, and jumps, if at all, to [F]. *)
Lemma emits_labelled_push F c loc i :
  (∀ l, to_instruction i ≠ Label l) → (∀ cnd l, to_instruction i = Goto cnd l → F l) →
  emits_labelled F c (push c loc i).
Proof.
  intros Hl Hg. eexists [_]. split; [done|]. cbn. split; [lia| | |].
  - intros l Hin. apply list_elem_of_singleton in Hin. by destruct (Hl l).
  - destruct (to_instruction i) eqn:Hi; cbn; [constructor..|by destruct (Hl label)].
  - destruct (to_instruction i) eqn:Hi; cbn; try done. split; [right; by eapply Hg|done].
Qed.

(** A label taken by [get_unique_label] and placed at the end. *)
Lemma emits_labelled_label F c c' :
  emits_labelled (λ l, l = next_label_id c ∨ F l) (next_label c) c' →
  emits_labelled F c (push c' None (SLabel (next_label_id c))).
Proof.
  intros (a & Ea & La). eexists (a ++ [_]). split; [cbn; by rewrite Ea, <- app_assoc|].
  rewrite code_app. eapply labelled_close; [|exact La]. cbn. lia.
Qed.

Lemma accept_jumps_labelled F key l lbl span vs c c' :
  F lbl →
  try_fold (λ c value,
        rhs_symbol ← lookup_value table value;
        Ok (push c (Some (AL_AcceptStatementValue key value span))
              (JumpIfEqual l rhs_symbol lbl))) c vs = Ok c' →
  emits_labelled F c c'.
Proof.
  intros HF. revert c. induction vs as [|v vs IH]; intros c H; cbn in H.
  - injection H as <-. apply emits_labelled_refl.
  - apply bind_Ok_iff in H as (c1 & H1 & H). apply bind_Ok_iff in H1 as (r & _ & [= <-]).
    eapply emits_labelled_trans; [|by apply IH].
    apply emits_labelled_push; cbn; [done|]. by intros ? ? [= _ <-].
Qed.

Definition statement_labelled (s : Statement) : Prop :=
  ∀ n has_next c c', compile_statement table n has_next s c = Ok c' →
    emits_labelled (λ _, False) c c'.

Lemma compile_block_from_labelled n l c c' :
  Forall statement_labelled l → compile_block_from table n l c = Ok c' →
  emits_labelled (λ _, False) c c'.
Proof.
  intros Hl. revert c. induction Hl as [|s l Hs Hl IH]; intros c H.
  - injection H as <-. apply emits_labelled_refl.
  - cbn in H. apply bind_Ok_iff in H as (c1 & H1 & H).
    by eapply emits_labelled_trans; [eapply Hs|apply IH].
Qed.

(** The jump over a block leads to the label after it; the jump out of it leads
    to the end of the whole [If]. *)
Lemma compile_blocks_labelled f bs c c' :
  Forall (λ b : Condition * list Statement, Forall statement_labelled b.2) bs →
  compile_blocks table f bs c = Ok c' → emits_labelled (λ l, l = f) c c'.
Proof.
  intros Hbs. revert c. induction Hbs as [|[cond blk] bs Hb Hbs IH]; intros c H.
  - injection H as <-. apply emits_labelled_refl.
  - cbn in H. apply bind_Ok_iff in H as (l & _ & H). apply bind_Ok_iff in H as (r & _ & H).
    apply get_unique_label_Ok in H. apply bind_Ok_iff in H as (c2 & H2 & H).
    eapply emits_labelled_trans; [|by apply IH]. apply emits_labelled_label.
    eapply emits_labelled_trans with
      (c2 := push (next_label c) (Some (AL_IfCondition cond))
               (if_jump cond l r (next_label_id c))); [|eapply emits_labelled_trans].
    + apply emits_labelled_push; unfold if_jump; destruct (op cond); cbn; try done;
        intros ? ? [= _ <-]; by left.
    + apply emits_labelled_weaken with (F := λ _, False); [done|].
      by eapply compile_block_from_labelled; [exact Hb|exact H2].
    + apply emits_labelled_push; cbn; [done|]. intros ? ? [= _ <-]. by right.
Qed.

Lemma compile_statement_labelled s : statement_labelled s.
Proof.
  induction s as [span cond|span key vs|span blocks else_block Hbs Helse|span|span]
    using Statement_nested_ind; intros n has_next c c' H.
  - apply bind_Ok_iff in H as (l & _ & H). apply bind_Ok_iff in H as (r & _ & [= <-]).
    by apply emits_labelled_push; destruct (op cond).
  - apply bind_Ok_iff in H as (l & _ & H). apply get_unique_label_Ok in H.
    apply bind_Ok_iff in H as (c1 & H1 & [= <-]). apply emits_labelled_label. eapply emits_labelled_trans.
    + eapply accept_jumps_labelled; [|exact H1]. by left.
    + by apply emits_labelled_push.
  - rewrite compile_statement_if in H. destruct has_next; [done|].
    apply get_unique_label_Ok in H. apply bind_Ok_iff in H as (c1 & H1 & H). apply bind_Ok_iff in H as (c2 & H2 & [= <-]).
    apply emits_labelled_label. eapply emits_labelled_trans.
    + eapply emits_labelled_weaken; [|by eapply compile_blocks_labelled]. auto.
    + eapply emits_labelled_weaken; [|by eapply compile_block_from_labelled]. done.
  - cbn in H. destruct (negb _); [done|]. injection H as <-. by apply emits_labelled_push.
  - cbn in H. destruct (negb _); [done|]. injection H as <-. apply emits_labelled_refl.
Qed.
End compile_labels.

(** What [compile_statements] returns for the new format is well labelled. *)
Lemma compile_statements_well_labelled table stmts insts :
  compile_statements table stmts true = Ok insts → well_labelled (code insts).
Proof.
  intros H. apply bind_Ok_iff in H as (c & Hc & [= <-]).
  assert (emits_labelled (λ _, False) new_compiler c) as (new & E & L).
  { eapply compile_block_from_labelled; [|exact Hc].
    apply Forall_forall. intros s _. apply compile_statement_labelled. }
  cbn in E. subst. by eapply labelled_well_labelled.
Qed.
