(* ===== verification/EndToEnd.v ===== *)
(** From bind source to the decision of the matcher: what the compiler emits is
    carried by the bytecode when the symbols of the source are, so that
    compiling, encoding, decoding and matching compute the meaning of the
    statements ([compile_bind_correct], [compile_bind_composite_correct]). *)
From Stdlib Require Import ZArith Lia.
From stdpp Require Import base gmap strings countable list.
From S2P Require Import Prelude BindLibrary ParserCommon SymbolTable Bytecode DecodeBindRules.
From S2P Require Import MatchBind BindRules Instruction InstructionEncoder.
From S2P Require Import EncodeV2 Compiler CompilerShapes SymbolTableCorrect Semantics.
From S2P Require Import CompilerCorrect InstructionCorrect MatchCorrect BytecodeCorrect.
From S2P Require Import RulesParser Samples.
Local Open Scope Z_scope.

(** ** The symbols the compiler emits *)

Section symbols.
Context (P : Symbol → Prop) (table : SymbolTable).

Definition value_satisfies (v : Value) : Prop :=
  match v with
  | NumericLiteral n => P (NumberValue n)
  | StringLiteral s => P (StringValue s)
  | BoolLiteral b => P (BoolValue b)
  | Identifier _ => True
  end.

(** Every symbol of the source satisfies [P]. *)
Definition source_satisfies (stmts : list Statement) : Prop :=
  map_Forall (λ _ s, P s) table ∧ Forall value_satisfies (block_values stmts).

Lemma lookup_identifier_satisfies i s :
  map_Forall (λ _ s, P s) table → lookup_identifier table i = Ok s → P s.
Proof. intros Htable H%ok_or_Ok. exact (Htable _ _ H). Qed.

Lemma lookup_value_satisfies v s :
  map_Forall (λ _ s, P s) table → value_satisfies v → lookup_value table v = Ok s → P s.
Proof. intros Htable. destruct v; cbn; intros Hv H; inv_ok; try done. exact (Htable _ _ H). Qed.

Lemma shape_satisfies stmts info :
  source_satisfies stmts → shape table (block_values stmts) info →
  Forall P (instruction_symbols (to_instruction (sym_instruction info))).
Proof.
  intros [Ht Hv]. rewrite Forall_forall in Hv.
  destruct 1; cbn; unfold if_jump; try destruct (op cond); cbn; repeat constructor;
    eauto using lookup_identifier_satisfies, lookup_value_satisfies.
Qed.

Lemma compile_statements_satisfy stmts nb insts :
  source_satisfies stmts → compile_statements table stmts nb = Ok insts →
  Forall P (code_symbols (code insts)).
Proof.
  intros Hs H. destruct (compile_statements_shapes _ _ _ _ H) as (body & -> & Hbody).
  unfold code_symbols. rewrite code_app, bind_app. apply Forall_app. split; [|by destruct nb].
  clear H. induction Hbody as [|info body Hi _ IH]; [constructor|]. cbn [code map]. rewrite bind_cons.
  apply Forall_app. split; [by eapply shape_satisfies|exact IH].
Qed.
End symbols.

(** ** Symbols the bytecode represents exactly *)

(** [symbol_carried], and numbers fit in 32 bits. *)
Definition symbol_exact (s : Symbol) : Prop :=
  symbol_carried s ∧ match s with NumberValue n => is_u32 n | _ => True end.

#[export] Instance symbol_exact_dec s : Decision (symbol_exact s).
Proof. unfold symbol_exact, is_u32. destruct s; apply _. Defined.
#[export] Instance source_exact_dec table stmts : Decision (source_satisfies symbol_exact table stmts).
Proof.
  unfold source_satisfies. apply and_dec; [apply _|].
  apply Forall_dec. intros []; cbn; apply _.
Defined.

Lemma symbol_exact_truncate s : symbol_exact s → truncate_symbol s = s.
Proof. intros [_ H]. destruct s; cbn; try done. by rewrite as_u32_small. Qed.

Lemma exact_truncate insts :
  Forall symbol_exact (code_symbols insts) → map truncate_instruction insts = insts.
Proof.
  assert (∀ c, Forall symbol_exact (condition_symbols c) → truncate_condition c = c) as Hc.
  { intros [|l r|l r]; cbn; [done|..];
      intros [_ [Hr _]%Forall_cons]%Forall_cons; by rewrite symbol_exact_truncate. }
  induction insts as [|i insts IH]; intros H; [done|].
  unfold code_symbols in H. rewrite bind_cons in H. apply Forall_app in H as [Hi H].
  cbn. rewrite (IH H). f_equal. destruct i; cbn in *; by rewrite ?Hc.
Qed.

Lemma exact_carried insts : Forall symbol_exact (code_symbols insts) → carried insts.
Proof. intros H. eapply Forall_impl; [exact H|]. by intros s [? _]. Qed.

(** Bytecode of exactly represented symbols decides what the program means. *)
Definition autobind_test (disabled : bool) (props : DeviceProperties) : outcome BytecodeError bool :=
  if disabled then property_test props true (DeprecatedKey BIND_AUTOBIND) (NumberValue 0) else Ok true.

Lemma exec_disable_autobind props insts :
  exec props None (code (disable_autobind :: insts)) =
  (b ← autobind_test true props; if (b : bool) then exec props None (code insts) else Ok false).
Proof.
  cbn [code map exec]. cbn [sym_instruction disable_autobind to_instruction eval_cond].
  rewrite (property_test_negb props true). unfold autobind_test.
  by destruct (property_test _ _ _ _) as [[]| |].
Qed.

Section end_to_end.
Context `{!HashMapOrder Z LabelInfo, !HashSetOrder nat}.

(** C1: End-to-end correctness of a driver's bind rules.  If the rules compile
    to the current bytecode and the symbols of the source fit the format, then
    matching a device against the bytecode gives the meaning of the statements
    of the parsed source, preceded by the autobind test when autobind is
    disabled. *)
Theorem compile_bind_correct rules_str libraries lint disable ast rules bc props :
  rules_try_from rules_str = Ok ast →
  compile_bind rules_str libraries lint disable true = Ok rules →
  encode_to_bytecode_v2 rules = Ok bc → len bc < u32_size →
  source_satisfies symbol_exact (Instruction.symbol_table rules) (statements ast) →
  match_bytecode bc props =
  (b ← autobind_test disable props;
   if (b : bool) then eval_block props (Instruction.symbol_table rules) (statements ast)
   else Ok false).
Proof.
  intros Hast H Hbc Hlen Hsrc. unfold compile_bind in H. rewrite Hast in H.
  apply bind_Ok_iff in H as (? & [= <-] & H).
  apply bind_Ok_iff in H as (table & _ & H). apply bind_Ok_iff in H as (insts & Hi & H).
  injection H as <-.
  cbn [Instruction.symbol_table] in *.
  pose proof (compile_statements_satisfy _ _ _ _ _ Hsrc Hi) as Hex.
  apply compile_statements_decide with (props := props) in Hi.
  set (infos := if disable then disable_autobind :: insts else insts) in *.
  assert (Forall symbol_exact (code_symbols (code infos))) as Hexi.
  { unfold infos. destruct disable; [|done]. unfold code_symbols. cbn [code map].
    rewrite bind_cons. apply Forall_app. split; [|done]. by repeat constructor. }
  erewrite match_encoded; [|exact Hbc|done|by apply exact_carried].
  rewrite exact_truncate by done. cbn [Instruction.instructions].
  rewrite <- Hi. unfold infos. destruct disable; [apply exec_disable_autobind|done].
Qed.

(** The node [dec] of the bytecode has the name of [node] and matches a device
    exactly when the statements of [node] hold of it. *)
Definition node_means (table : SymbolTable) (tbl : gmap Z rstring) (node : CompositeAstNode)
    (dec : Node) : Prop :=
  tbl !! name_id dec = Some (node_name node) ∧
  ∀ props, device_match_bind props tbl (node_instructions dec) =
           eval_block props table (node_statements node).

(** Compiling a node, as both the primary and the additional nodes are. *)
Definition node_compiles (table : SymbolTable) (node : CompositeAstNode) (cn : CompositeNode) :
    Prop :=
  cn_name cn = node_name node ∧
  compile_statements table (node_statements node) true = Ok (cn_instructions cn).

Definition node_exact (table : SymbolTable) (node : CompositeAstNode) : Prop :=
  encodable (node_name node) ∧ source_satisfies symbol_exact table (node_statements node).

Lemma node_compiles_carried table node cn :
  node_compiles table node cn → node_exact table node → node_carried cn.
Proof.
  intros [Hn Hc] [He Hs]. split; [by rewrite Hn|].
  by eapply exact_carried, compile_statements_satisfy.
Qed.

Lemma node_agrees_means table tbl node cn dec :
  node_compiles table node cn → node_exact table node → node_agrees tbl cn dec →
  node_means table tbl node dec.
Proof.
  intros [Hn Hc] [_ Hs] [Hname Hex]. split; [by rewrite Hname, Hn|]. intros props.
  rewrite Hex, exact_truncate by by eapply compile_statements_satisfy.
  by eapply compile_statements_decide.
Qed.

Lemma compile_bind_composite_nodes rules_str libraries lint ast rules :
  composite_try_from rules_str = Ok ast →
  compile_bind_composite rules_str libraries lint true = Ok rules →
  device_name rules = to_string (composite_name ast) ∧
  Forall2 (node_compiles (Instruction.composite_symbol_table rules))
    (ast_primary_node ast :: nodes ast)
    (Instruction.primary_node rules :: Instruction.additional_nodes rules).
Proof.
  intros Hast H. unfold compile_bind_composite in H. rewrite Hast in H.
  apply bind_Ok_iff in H as (? & [= <-] & H). apply bind_Ok_iff in H as (table & _ & H).
  apply bind_Ok_iff in H as (prim & Hp & H). apply bind_Ok_iff in H as (add & Ha & H).
  injection H as <-. split; [done|]. cbn. constructor; [done|].
  apply try_map_Ok in Ha. eapply Forall2_impl; [exact Ha|].
  intros node cn H. by apply bind_Ok_iff in H as (insts & Hi & [= <-]).
Qed.

(** C2: End-to-end correctness of a composite driver's bind rules.  Decoding the
    bytecode of compiled composite rules gives the composite's name and its
    nodes, in source order with their names, and each node matches a device
    exactly when the statements of the node hold of it.  The bytecode has to be
    shorter than 2^32 bytes, the composite's name and the names, keys and
    strings of the nodes strings that the symbol table can hold, and the numbers
    of the nodes less than 2^32. *)
Theorem compile_bind_composite_correct rules_str libraries lint ast rules bc :
  composite_try_from rules_str = Ok ast →
  compile_bind_composite rules_str libraries lint true = Ok rules →
  encode_composite_to_bytecode rules = Ok bc → len bc < u32_size →
  encodable (to_string (composite_name ast)) →
  Forall (node_exact (Instruction.composite_symbol_table rules)) (ast_primary_node ast :: nodes ast) →
  ∃ dec, DecodedRules_new bc = Ok (Composite dec) ∧
    DecodeBindRules.composite_symbol_table dec !! device_name_id dec =
      Some (to_string (composite_name ast)) ∧
    Forall2 (node_means (Instruction.composite_symbol_table rules)
               (DecodeBindRules.composite_symbol_table dec))
      (ast_primary_node ast :: nodes ast)
      (DecodeBindRules.primary_node dec :: DecodeBindRules.additional_nodes dec).
Proof.
  intros Hast H Hbc Hlen Hname Hex.
  destruct (compile_bind_composite_nodes _ _ _ _ _ Hast H) as [Hdev Hc].
  rewrite <- Hdev in Hname |- *.
  destruct (composite_encoded _ _ Hbc Hlen Hname) as (dec & Hdec & Hd & Hn).
  { apply Forall_lookup. intros k cn Hk.
    destruct (Forall2_lookup_r _ _ _ _ _ Hc Hk) as (node & Hnode & Hcn).
    eapply node_compiles_carried; [exact Hcn|]. by eapply Forall_lookup_1 in Hex. }
  exists dec. split_and!; [done|done|].
  apply Forall2_same_length_lookup. split.
  - rewrite (Forall2_length _ _ _ Hc). by eapply Forall2_length.
  - intros k node d Hk Hd'. destruct (Forall2_lookup_l _ _ _ _ _ Hc Hk) as (cn & Hcn & Hnc).
    eapply node_agrees_means; [exact Hnc|by eapply Forall_lookup_1 in Hex|].
    by eapply Forall2_lookup_lr.
Qed.
End end_to_end.

Lemma compile_bind_correct_witness :
  match_bytecode sample_bytecode sample_props = Ok true ∧
  match_bytecode sample_bytecode sample_props =
  (b ← autobind_test true sample_props;
   if (b : bool) then
     eval_block sample_props (Instruction.symbol_table sample_bind) (statements sample_ast)
   else Ok false).
Proof.
  split; [vm_compute; reflexivity|].
  apply (compile_bind_correct sample_rules [sample_library] true true sample_ast sample_bind).
  - sample_ok.
  - sample_ok.
  - sample_ok.
  - vm_compute. reflexivity.
  - sample_decide.
Defined.

Lemma compile_bind_composite_correct_witness :
  ∃ dec, DecodedRules_new sample_composite_bytecode = Ok (Composite dec) ∧
    DecodeBindRules.composite_symbol_table dec !! device_name_id dec =
      Some (to_string (composite_name sample_composite_ast)) ∧
    Forall2 (node_means (Instruction.composite_symbol_table sample_composite_bind)
               (DecodeBindRules.composite_symbol_table dec))
      (ast_primary_node sample_composite_ast :: nodes sample_composite_ast)
      (DecodeBindRules.primary_node dec :: DecodeBindRules.additional_nodes dec).
Proof.
  apply (compile_bind_composite_correct sample_composite [sample_library] true sample_composite_ast
    sample_composite_bind).
  - sample_ok.
  - sample_ok.
  - sample_ok.
  - vm_compute. reflexivity.
  - sample_decide.
  - sample_decide.
Defined.
