(* ===== verification/DecodeCorrect.v ===== *)
(** The decoder and the matcher are total: on any bytes they return a result or
    an error, and never panic.  The decoder accepts exactly the well-formed
    layouts ([read_symbol_table_iff], [decode_iff]). *)
From Stdlib Require Import ZArith Lia.
From stdpp Require Import base gmap strings countable list.
From S2P Require Import Prelude BindLibrary SymbolTable Bytecode DecodeBindRules MatchBind.
From S2P Require Import Instruction InstructionEncoder EncodeV2.
From S2P Require Import SymbolTableCorrect Semantics InstructionCorrect MatchCorrect.
From S2P Require Import BytecodeCorrect Samples.
Local Open Scope Z_scope.

(** ** The decoder never panics *)

Lemma index_no_panic {E A} (l : list A) i : 0 <= i < len l → no_panic (index (E:=E) l i).
Proof.
  intros Hi. unfold index. rewrite (proj2 (Z.leb_le _ _)) by lia.
  destruct (lookup_lt_is_Some_2 l (Z.to_nat i)) as [x ->]; [unfold len in Hi; lia|done].
Qed.

Lemma get_u32_bytes_no_panic bs i : 0 <= i → no_panic (get_u32_bytes bs i).
Proof.
  intros Hi. unfold get_u32_bytes. rewrite Z.gtb_ltb. case_match eqn:Hlt; [done|]. bool_props.
  repeat (apply bind_no_panic; [apply index_no_panic; lia|intros ? _]). done.
Qed.

Lemma get_u32_bytes_Ok bs i w : 0 <= i → get_u32_bytes bs i = Ok w → i + 4 <= len bs.
Proof. intros Hi. unfold get_u32_bytes. rewrite Z.gtb_ltb. case_match eqn:Hlt; [done|]. by bool_props. Qed.

Lemma to_from_le_bytes_4 w :
  all_u8 w → length w = 4%nat → to_le_bytes 4 (from_le_bytes w) = w.
Proof. intros Hall <-. by apply to_from_le_bytes. Qed.

Lemma get_u32_bytes_take bs i w :
  0 <= i → get_u32_bytes bs i = Ok w → w = take 4 (drop (Z.to_nat i) bs).
Proof.
  intros Hi H. pose proof (get_u32_bytes_Ok _ _ _ Hi H) as Hlen.
  rewrite <- (take_drop (Z.to_nat i) bs), <- (take_drop 4 (drop (Z.to_nat i) bs)) in H.
  rewrite get_u32_bytes_app in H.
  - by injection H as <-.
  - rewrite length_take, length_drop. unfold len in Hlen. lia.
  - unfold len in *. rewrite length_take. lia.
Qed.

Lemma be_bytes_take (bs : list Z) :
  all_u8 bs → (4 <= length bs)%nat → to_be_bytes 4 (from_be_bytes (take 4 bs)) = take 4 bs.
Proof.
  intros Hall Hlen. unfold to_be_bytes, from_be_bytes.
  assert (length (reverse (take 4 bs)) = 4%nat) as H4
    by (rewrite length_reverse, length_take; lia).
  rewrite to_from_le_bytes_4; [by rewrite reverse_involutive| |done].
  apply Forall_reverse, Forall_take, Hall.
Qed.

Lemma read_and_remove_header_Ok bs magic v rest :
  all_u8 bs → read_and_remove_header bs magic = Ok (v, rest) →
  bs = to_be_bytes 4 magic ++ to_le_bytes 4 v ++ rest ∧ is_u32 v.
Proof.
  intros Hall H. unfold read_and_remove_header in H.
  apply bind_Ok_iff in H as (w1 & Hw1 & H). destruct (Z.eqb_spec (from_be_bytes w1) magic) as [<-|];
    [|done]. cbn [negb] in H. apply bind_Ok_iff in H as (w2 & Hw2 & H).
  assert (4 + 4 <= len bs) as Hlen by (apply get_u32_bytes_Ok in Hw2; lia).
  apply get_u32_bytes_take in Hw1 as ->; [|lia]. apply get_u32_bytes_take in Hw2 as ->; [|lia].
  apply bind_Ok_iff in H as ([a b] & Hs & [= <- <-]).
  assert (all_u8 (drop 4 bs)) as Hall4 by by apply Forall_drop.
  assert (length (take 4 (drop 4 bs)) = 4%nat) as Hl
    by (rewrite length_take, length_drop; unfold len in Hlen; lia).
  assert (all_u8 (take 4 (drop 4 bs))) as Hall2 by by apply Forall_take.
  change (Z.to_nat 0) with 0%nat. change (Z.to_nat 4) with 4%nat. rewrite drop_0.
  rewrite be_bytes_take by (done || unfold len in Hlen; lia).
  pose proof (from_le_bytes_range _ Hall2) as Hrange. unfold len in Hrange. rewrite Hl in Hrange.
  split; [|done]. rewrite to_from_le_bytes_4 by done.
  unfold split_off in Hs. case_match; [|done]. injection Hs as _ <-.
  change (Z.to_nat HEADER_SZ) with (4 + 4)%nat. rewrite <- drop_drop.
  by rewrite !take_drop.
Qed.

#[export] Hint Extern 1 (no_panic (get_u32_bytes _ _)) =>
  apply get_u32_bytes_no_panic; lia : outcomes.

Lemma read_and_remove_header_no_panic bs magic : no_panic (read_and_remove_header bs magic).
Proof.
  unfold read_and_remove_header. step_no_panic.
  apply split_off_no_panic. apply get_u32_bytes_Ok in H0; [|lia]. unfold HEADER_SZ. lia.
Qed.

Lemma verify_and_read_node_header_no_panic bs t : no_panic (verify_and_read_node_header bs t).
Proof.
  unfold verify_and_read_node_header, NODE_TYPE_HEADER_SZ. case_match eqn:Hlt; [done|]. bool_props.
  apply bind_no_panic; [apply index_no_panic; lia|]. intros b _.
  apply bind_no_panic; [by repeat case_match|]. intros _ _. step_no_panic.
Qed.

Lemma read_string_bytes_no_panic iter acc : no_panic (read_string_bytes iter acc).
Proof.
  revert acc. induction iter as [|b iter IH]; intros acc; cbn; [done|].
  case_match; [done|]. case_match; [done|]. apply IH.
Qed.
#[export] Hint Resolve read_and_remove_header_no_panic verify_and_read_node_header_no_panic
  read_string_bytes_no_panic : outcomes.

Lemma read_string_no_panic iter : no_panic (read_string iter).
Proof. unfold read_string. step_no_panic. Qed.
#[export] Hint Resolve read_string_no_panic : outcomes.

(** Reading a string consumes its bytes and the terminator. *)
Lemma read_string_bytes_Ok iter acc s rest :
  read_string_bytes iter acc = Ok (s, rest) →
  ∃ r, s = acc ++ r ∧ iter = r ++ 0 :: rest ∧ 0 ∉ r ∧
       (len acc <= MAX_STRING_LENGTH → len s <= MAX_STRING_LENGTH).
Proof.
  revert acc. induction iter as [|b iter IH]; intros acc H; cbn in H; [done|].
  destruct (Z.eqb_spec b 0) as [->|Hb].
  - injection H as <- <-. exists []. rewrite app_nil_r. split_and!; try done. by intros ?%elem_of_nil.
  - rewrite Z.gtb_ltb in H. case_match eqn:Hlt; [done|]. bool_props.
    apply IH in H as (r & -> & -> & Hr & Hlen). exists (b :: r).
    rewrite <- app_assoc in *. split_and!; [done..| |auto].
    by intros [|]%elem_of_cons.
Qed.

Lemma read_string_Ok iter s rest :
  read_string iter = Ok (s, rest) →
  iter = s ++ 0 :: rest ∧ encodable s ∧ len s <= MAX_STRING_LENGTH.
Proof.
  unfold read_string. intros H. apply bind_Ok_iff in H as ([s' r'] & Hs & H).
  case_bool_decide as Hne; [done|]. destruct (utf8_valid s') eqn:Hu; [|done]. injection H as <- <-.
  apply read_string_bytes_Ok in Hs as (r & -> & -> & Hz & Hlen).
  split; [done|]. split; [done|]. apply Hlen. done.
Qed.

(** A round reads a key, a string of at least a byte, and a terminator. *)
Lemma read_entry_length iter key it s rest :
  try_next_u32 iter = Ok (Some key, it) → read_string it = Ok (s, rest) →
  (length rest + 6 <= length iter)%nat.
Proof.
  intros Hn (-> & (Hne & _) & _)%read_string_Ok. destruct s as [|b s]; [done|].
  destruct iter as [|b0 [|b1 [|b2 [|b3 r]]]]; try done. injection Hn as _ ->.
  cbn. rewrite length_app. cbn. lia.
Qed.

Lemma read_symbol_table_loop_total fuel iter m k :
  (length iter < fuel)%nat → k + len iter <= u32_size →
  ∃ r, read_symbol_table_loop fuel iter m k = Some r ∧ no_panic r.
Proof.
  revert iter m k. induction fuel as [|fuel IH]; intros iter m k Hf Hk; [lia|].
  cbn [read_symbol_table_loop]. pose proof (try_next_u32_no_panic iter).
  destruct (try_next_u32 iter) as [[[key|] it]|e|] eqn:Hn; try done; try (by eexists).
  case_match; [by eexists|]. pose proof (read_string_no_panic it).
  destruct (read_string it) as [[s rest]|e|] eqn:Hs; try done; try (by eexists).
  pose proof (read_entry_length _ _ _ _ _ Hn Hs). unfold len in *.
  rewrite (proj2 (Z.ltb_lt _ _)) by lia. apply IH; lia.
Qed.

(** Enough fuel: the default of [read_symbol_table] is never used. *)
Lemma read_symbol_table_terminates bs :
  len bs < u32_size → is_Some (read_symbol_table_loop (S (length bs)) bs ∅ SYMB_TBL_START_KEY).
Proof.
  intros Hlen. destruct (read_symbol_table_loop_total (S (length bs)) bs ∅ 1) as (r & Hr & _);
    [lia|lia|by exists r].
Qed.

Lemma read_symbol_table_no_panic bs : len bs < u32_size → no_panic (read_symbol_table bs).
Proof.
  intros Hlen. unfold read_symbol_table, SYMB_TBL_START_KEY.
  by destruct (read_symbol_table_loop_total (S (length bs)) bs ∅ 1) as (r & -> & Hr); [lia|lia|].
Qed.

(** The size of the table section is a [u32], so the keys do not run out. *)
Lemma get_symbol_table_and_instruction_bytecode_no_panic bs :
  all_u8 bs → no_panic (get_symbol_table_and_instruction_bytecode bs).
Proof.
  intros Hall. unfold get_symbol_table_and_instruction_bytecode. case_match; [done|].
  apply bind_no_panic; [auto with outcomes|]. intros [ver b1] Hver. case_match; [done|].
  apply read_and_remove_header_Ok in Hver as [-> _]; [|done].
  apply Forall_app in Hall as [_ Hall]. apply Forall_app in Hall as [_ Hall].
  apply bind_no_panic; [auto with outcomes|]. intros [sz b2] Hsz. case_match eqn:Hle; [done|].
  apply read_and_remove_header_Ok in Hsz as [-> Hsz]; [|done]. bool_props. unfold HEADER_SZ in *.
  apply bind_no_panic; [apply split_off_no_panic; lia|]. intros [tb b3] Hs.
  apply split_off_Ok in Hs as [-> Htb]; [|apply Hsz].
  apply bind_no_panic; [apply read_symbol_table_no_panic; unfold is_u32 in Hsz; lia|by intros].
Qed.

Lemma verify_and_read_node_header_Ok bs t r :
  verify_and_read_node_header bs t = Ok r → NODE_TYPE_HEADER_SZ <= len bs.
Proof. unfold verify_and_read_node_header. case_match eqn:Hlt; [done|]. by bool_props. Qed.

Lemma split_off_node_no_panic bs t tbl : no_panic (split_off_node bs t tbl).
Proof.
  unfold split_off_node. apply bind_no_panic; [auto with outcomes|]. intros [id sz] Hh.
  apply verify_and_read_node_header_Ok in Hh.
  case_match eqn:Hsz; [done|]. case_match; [done|]. bool_props.
  apply bind_no_panic; [by apply split_off_no_panic|]. intros [a b] Hab.
  apply split_off_Ok in Hab as [-> Ha]; [|done]. rewrite len_app in Hsz.
  apply bind_no_panic; [apply split_off_no_panic; lia|]. by intros [].
Qed.

Lemma split_off_node_shrinks bs t tbl node rest :
  split_off_node bs t tbl = Ok (node, rest) → (length rest < length bs)%nat.
Proof.
  unfold split_off_node. intros H. apply bind_Ok_iff in H as ([id sz] & Hh & H).
  apply verify_and_read_node_header_Ok in Hh.
  case_match; [done|]. case_match; [done|].
  apply bind_Ok_iff in H as ([a b] & Hab & H). apply bind_Ok_iff in H as ([c d] & Hcd & [= <- <-]).
  apply split_off_Ok in Hab as [-> Ha]; [|done].
  unfold split_off in Hcd. case_match; [|done]. injection Hcd as <- <-.
  rewrite length_app, length_drop. unfold len, NODE_TYPE_HEADER_SZ in *. lia.
Qed.
#[export] Hint Resolve get_symbol_table_and_instruction_bytecode_no_panic
  split_off_node_no_panic : outcomes.

Lemma read_additional_nodes_total fuel bs tbl acc :
  (length bs < fuel)%nat →
  ∃ r, read_additional_nodes fuel bs tbl acc = Some r ∧ no_panic r.
Proof.
  revert bs acc. induction fuel as [|fuel IH]; intros bs acc Hf; [lia|].
  cbn [read_additional_nodes]. destruct bs as [|b bs]; [by eexists|].
  pose proof (split_off_node_no_panic (b :: bs) Additional tbl).
  destruct (split_off_node (b :: bs) Additional tbl) as [[node rest]|e|] eqn:Hn;
    try done; try (by eexists).
  apply IH. apply split_off_node_shrinks in Hn. lia.
Qed.

Lemma DecodedBindRules_new_no_panic tbl bs : no_panic (DecodedBindRules_new tbl bs).
Proof. unfold DecodedBindRules_new. step_no_panic. Qed.

Lemma DecodedCompositeBindRules_new_no_panic tbl bs :
  no_panic (DecodedCompositeBindRules_new tbl bs).
Proof.
  unfold DecodedCompositeBindRules_new. apply bind_no_panic; [auto with outcomes|]. intros [sz b] _.
  case_match; [done|]. apply bind_no_panic; [auto with outcomes|]. intros w Hw.
  case_match; [done|]. apply get_u32_bytes_Ok in Hw; [|lia].
  apply bind_no_panic; [apply split_off_no_panic; lia|]. intros [b1 b2] _.
  apply bind_no_panic; [auto with outcomes|]. intros [node b3] _.
  destruct (read_additional_nodes_total (S (length b3)) b3 tbl []) as (r & -> & Hr); [lia|].
  apply bind_no_panic; [done|]. by intros.
Qed.
#[export] Hint Resolve DecodedBindRules_new_no_panic DecodedCompositeBindRules_new_no_panic : outcomes.

(** The decoder is total: whatever the bytes, decoding terminates with
    decoded rules or an error and never panics (no index out of range, no
    [split_off] past the end, no endless loop). *)
Theorem DecodedRules_new_no_panic bytecode :
  all_u8 bytecode → no_panic (DecodedRules_new bytecode).
Proof. intros Hall. unfold DecodedRules_new. step_no_panic. Qed.

(** ** The matcher never panics *)

Section matcher.
Context (properties : DeviceProperties) (table : gmap Z rstring).

Lemma read_next_value_no_panic iter : no_panic (read_next_value table iter).
Proof.
  unfold read_next_value, lookup_symbol_table. step_no_panic. destruct a; step_no_panic.
Qed.

Lemma read_and_evaluate_values_no_panic c iter :
  c ≠ Unconditional → no_panic (read_and_evaluate_values properties table c iter).
Proof.
  intros Hc. unfold read_and_evaluate_values.
  apply bind_no_panic; [apply read_next_value_no_panic|]. intros [key it] _.
  apply bind_no_panic; [by destruct key|]. intros k _.
  apply bind_no_panic; [apply read_next_value_no_panic|]. intros [v it'] _.
  apply bind_no_panic; [|by intros]. destruct (properties !! k); [|done].
  unfold compare_symbols. case_match; [done|]. by destruct c.
Qed.

Lemma skip_bytes_no_panic iter n : no_panic (skip_bytes iter n).
Proof.
  revert n. induction iter as [|b iter IH]; intros n; cbn; case_match; done.
Qed.
#[local] Hint Resolve skip_bytes_no_panic : outcomes.

Lemma match_step_no_panic byte iter : no_panic (match_step properties table byte iter).
Proof.
  assert (∀ c, no_panic (evaluate_jump_inst properties table c iter)) as Hj.
  { intros c. unfold evaluate_jump_inst. apply bind_no_panic; [auto with outcomes|]. intros [off it] _.
    apply bind_no_panic; [|intros [] _; step_no_panic].
    case_bool_decide; [done|by apply read_and_evaluate_values_no_panic]. }
  assert (∀ op, op = EqualCondition ∨ op = InequalCondition →
    no_panic (evaluate_condition_inst properties table op iter)) as Hc.
  { intros op [-> | ->]; by apply read_and_evaluate_values_no_panic. }
  unfold match_step. apply bind_no_panic; [auto with outcomes|]. intros op _.
  destruct op; (apply bind_no_panic || done); auto; by intros [].
Qed.

Lemma read_next_value_shrinks iter s rest :
  read_next_value table iter = Ok (s, rest) → (length rest <= length iter)%nat.
Proof.
  unfold read_next_value. intros H. destruct iter as [|b iter]; [done|].
  apply bind_Ok_iff in H as ([t it] & [= <- <-] & H). apply bind_Ok_iff in H as (vt & _ & H).
  apply bind_Ok_iff in H as ([v it2] & Hv & H). apply bind_Ok_iff in H as (sy & _ & [= <- <-]).
  apply next_u32_length in Hv. cbn. lia.
Qed.

Lemma read_and_evaluate_values_shrinks c iter b rest :
  read_and_evaluate_values properties table c iter = Ok (b, rest) →
  (length rest <= length iter)%nat.
Proof.
  unfold read_and_evaluate_values. intros H. apply bind_Ok_iff in H as ([k it] & Hk & H).
  apply bind_Ok_iff in H as (pk & _ & H). apply bind_Ok_iff in H as ([v it2] & Hv & H).
  apply bind_Ok_iff in H as (b' & _ & [= <- <-]).
  apply read_next_value_shrinks in Hk, Hv. lia.
Qed.

Lemma skip_bytes_shrinks iter n rest :
  skip_bytes iter n = Ok rest → (length rest <= length iter)%nat.
Proof.
  revert n. induction iter as [|b iter IH]; intros n H; cbn in H; case_match;
    try done; try (injection H as <-; done). apply IH in H. cbn. lia.
Qed.

Lemma match_step_shrinks byte iter rest :
  match_step properties table byte iter = Ok (inr rest) → (length rest <= length iter)%nat.
Proof.
  assert (∀ c r, evaluate_jump_inst properties table c iter = Ok r → (length r <= length iter)%nat)
    as Hj.
  { unfold evaluate_jump_inst. intros c r H. apply bind_Ok_iff in H as ([off it] & Hn & H).
    apply next_u32_length in Hn. apply bind_Ok_iff in H as ([tk it2] & He & H).
    assert (length it2 <= length it)%nat as Hle.
    { case_bool_decide; [by injection He as _ <-|by apply read_and_evaluate_values_shrinks in He]. }
    destruct tk; cbn [negb] in H; [|injection H as <-; lia].
    apply bind_Ok_iff in H as (it3 & Hs%skip_bytes_shrinks & H).
    destruct it3 as [|b it3]; [done|]. cbn in H. case_match; [done|]. injection H as <-. cbn in Hs. lia. }
  unfold match_step. intros H. apply bind_Ok_iff in H as (op & _ & H).
  destruct op; try (apply bind_Ok_iff in H as (it & Hit & [= <-]); by eapply Hj);
    try (by injection H as <-);
    try (apply bind_Ok_iff in H as ([b it] & Hit & H); destruct b; cbn in H; [|done];
         injection H as <-; by apply read_and_evaluate_values_shrinks in Hit).
  done.
Qed.

(** Every round consumes a byte. *)
Lemma match_loop_total fuel iter :
  (length iter < fuel)%nat →
  ∃ r, match_loop properties table fuel iter = Some r ∧ no_panic r.
Proof.
  revert iter. induction fuel as [|fuel IH]; intros iter Hf; [lia|].
  destruct iter as [|b iter]; cbn [match_loop]; [by eexists|].
  pose proof (match_step_no_panic b iter).
  destruct (match_step properties table b iter) as [[r|rest]|e|] eqn:Hs; try done; try (by eexists).
  apply IH. apply match_step_shrinks in Hs. cbn in Hf. lia.
Qed.

Lemma match_loop_terminates iter :
  is_Some (match_loop properties table (S (length iter)) iter).
Proof. destruct (match_loop_total (S (length iter)) iter) as (r & Hr & _); [lia|by exists r]. Qed.

Lemma device_match_bind_no_panic iter : no_panic (device_match_bind properties table iter).
Proof.
  unfold device_match_bind.
  by destruct (match_loop_total (S (length iter)) iter) as (r & -> & Hr); [lia|].
Qed.
End matcher.

(** C22: The matcher is total: on any bytes and any device it terminates with a
    decision or an error; the panics of the interpreter ([compare_symbols] on an
    unconditional comparison, [evaluate_condition_inst] on another operation)
    are unreachable. *)
Theorem match_bytecode_no_panic bytecode properties :
  all_u8 bytecode → no_panic (match_bytecode bytecode properties).
Proof.
  intros Hall. unfold match_bytecode, DecodedBindRules_from_bytecode. step_no_panic.
  apply device_match_bind_no_panic.
Qed.

(** ** The decoder accepts exactly the layouts of the encoder *)

Lemma try_next_u32_Ok iter key rest :
  all_u8 iter → try_next_u32 iter = Ok (Some key, rest) →
  iter = to_le_bytes 4 key ++ rest ∧ is_u32 key.
Proof.
  destruct iter as [|b0 [|b1 [|b2 [|b3 r]]]]; cbn [try_next_u32 next_u8 mbind outcome_bind]; try done.
  intros Hall H.
  assert (key = from_le_bytes [b0; b1; b2; b3] ∧ rest = r) as [-> ->] by by injection H as <- <-.
  change (all_u8 ([b0; b1; b2; b3] ++ r)) in Hall. apply Forall_app in Hall as [H4 _].
  split; [|apply (from_le_bytes_range _ H4)].
  by rewrite to_from_le_bytes_4.
Qed.

Lemma try_next_u32_None iter rest : try_next_u32 iter = Ok (None, rest) → iter = [].
Proof. by destruct iter as [|b0 [|b1 [|b2 [|b3 r]]]]. Qed.

(** Strings of a well-formed table section. *)
Definition table_string (s : rstring) : Prop := encodable s ∧ len s <= MAX_STRING_LENGTH.

Lemma read_symbol_table_loop_Ok fuel iter m k tbl :
  all_u8 iter → (∀ j, k <= j → m !! j = None) →
  read_symbol_table_loop fuel iter m k = Some (Ok tbl) →
  ∃ strs, iter = table_bytes k strs ∧ Forall table_string strs ∧ tbl = table_map k strs ∪ m ∧
          (strs = [] ∨ k + len strs <= u32_size).
Proof.
  revert iter m k. induction fuel as [|fuel IH]; intros iter m k Hall Hm H; [done|].
  cbn [read_symbol_table_loop] in H.
  destruct (try_next_u32 iter) as [[[key|] it]|e|] eqn:Hn; try done.
  2:{ injection H as <-. apply try_next_u32_None in Hn as ->.
      exists []. cbn. rewrite (left_id_L ∅ (∪)). auto. }
  destruct (Z.eqb_spec key k) as [->|]; [|done]. cbn [negb] in H.
  apply try_next_u32_Ok in Hn as [-> Hk]; [|done]. apply Forall_app in Hall as [_ Hall].
  destruct (read_string it) as [[s rest]|e|] eqn:Hs; try done.
  case_match; [|done]. apply read_string_Ok in Hs as (-> & Henc & Hlen).
  apply Forall_app in Hall as [_ Hall]. apply Forall_cons in Hall as [_ Hall].
  apply IH in H as (strs & -> & Hstrs & -> & Hmax); [|done|].
  - exists (s :: strs). split_and!; [done|by constructor| |].
    + cbn. rewrite <- insert_union_l, <- insert_union_r; [done|].
      apply eq_None_not_Some. intros [s' Hs']. apply table_map_range in Hs'. lia.
    + right. rewrite len_cons. unfold is_u32 in Hk. destruct Hmax as [-> | Hmax]; [unfold len; cbn; lia|lia].
  - intros j Hj. rewrite lookup_insert_ne by lia. apply Hm. lia.
Qed.

Lemma read_symbol_table_iff bs tbl :
  all_u8 bs → len bs < u32_size →
  read_symbol_table bs = Ok tbl ↔
  ∃ strs, bs = table_bytes 1 strs ∧ Forall table_string strs ∧ tbl = table_map 1 strs.
Proof.
  intros Hall Hmax. split.
  - intros H. unfold read_symbol_table, SYMB_TBL_START_KEY in H.
    destruct (read_symbol_table_loop _ _ _ _) as [r|] eqn:Hr; cbn in H; [|done]. subst r.
    apply read_symbol_table_loop_Ok in Hr as (strs & -> & Hstrs & -> & _); [|done|by intros].
    exists strs. by rewrite (right_id_L ∅ (∪)).
  - intros (strs & -> & Hstrs & ->). pose proof (len_table_bytes 1 strs).
    apply read_symbol_table_bytes; [unfold u32_size in *; lia|..]; eapply Forall_impl; try exact Hstrs; by intros ? [].
Qed.

(** C21: The decoder accepts exactly the well-formed driver layouts: bytes decode
    into rules if and only if they are the header, a symbol table section of
    non-empty, zero-free, valid UTF-8 strings of at most 255 bytes under the
    keys 1, 2, ..., and an instruction section, with exact sizes; the decoded
    table is the table of those strings. *)
Theorem decode_iff bc tbl insts :
  all_u8 bc →
  DecodedBindRules_from_bytecode bc = Ok (mkDecodedBindRules tbl insts) ↔
  ∃ strs, bc = assemble (table_bytes 1 strs) INSTRUCTION_MAGIC_NUM insts ∧
    Forall table_string strs ∧ tbl = table_map 1 strs ∧
    is_u32 (len (table_bytes 1 strs)) ∧ is_u32 (len insts).
Proof.
  intros Hall. unfold DecodedBindRules_from_bytecode, DecodedBindRules_new. split.
  - intros H. apply bind_Ok_iff in H as ([t ib] & H & Hnew).
    unfold get_symbol_table_and_instruction_bytecode in H. case_match; [done|].
    apply bind_Ok_iff in H as ([ver b1] & Hver & H).
    apply read_and_remove_header_Ok in Hver as [-> _]; [|done].
    apply Forall_app in Hall as [_ Hall]. apply Forall_app in Hall as [_ Hall].
    destruct (Z.eqb_spec ver BYTECODE_VERSION) as [->|]; [|done]. cbn [negb] in H.
    apply bind_Ok_iff in H as ([sz b2] & Hsz & H).
    apply read_and_remove_header_Ok in Hsz as [-> Hsz]; [|done].
    apply Forall_app in Hall as [_ Hall]. apply Forall_app in Hall as [_ Hall].
    case_match; [done|]. apply bind_Ok_iff in H as ([tb b3] & Hs & H).
    apply split_off_Ok in Hs as [-> Htb]; [|apply Hsz]. apply Forall_app in Hall as [Hallt Hall].
    apply bind_Ok_iff in H as (t' & Ht & H). injection H as -> ->.
    apply bind_Ok_iff in Hnew as ([isz b4] & Hisz & Hnew).
    apply read_and_remove_header_Ok in Hisz as [-> Hisz]; [|done].
    destruct (Z.eqb_spec (len b4) isz) as [<-|]; [|done]. injection Hnew as -> ->.
    subst sz. apply read_symbol_table_iff in Ht as (strs & -> & Hstrs & ->); [|done|apply Hsz].
    exists strs. split_and!; try done. unfold assemble. by rewrite !as_u32_small by done.
  - intros (strs & -> & Hstrs & -> & Htb & Hib). rewrite decode_assemble by done.
    unfold assemble, all_u8 in Hall. rewrite !Forall_app in Hall.
    rewrite (proj2 (read_symbol_table_iff (table_bytes 1 strs) (table_map 1 strs)
      ltac:(apply Hall) ltac:(apply Htb))) by (by exists strs).
    cbn [mbind outcome_bind]. rewrite read_and_remove_header_app by done.
    cbn [mbind outcome_bind]. by rewrite Z.eqb_refl.
Qed.

Definition sample_decoded : DecodedBindRules :=
  ok_value (mkDecodedBindRules ∅ []) (DecodedBindRules_from_bytecode sample_bytecode).

Lemma DecodedRules_new_no_panic_witness : no_panic (DecodedRules_new sample_composite_bytecode).
Proof. apply DecodedRules_new_no_panic. sample_decide. Defined.

Lemma match_bytecode_no_panic_witness : no_panic (match_bytecode sample_bytecode sample_props).
Proof. apply match_bytecode_no_panic. sample_decide. Defined.

Lemma decode_iff_witness :
  DecodedBindRules_from_bytecode sample_bytecode =
    Ok (mkDecodedBindRules (DecodeBindRules.symbol_table sample_decoded)
          (DecodeBindRules.instructions sample_decoded)) ↔
  ∃ strs, sample_bytecode =
      assemble (table_bytes 1 strs) INSTRUCTION_MAGIC_NUM (DecodeBindRules.instructions sample_decoded) ∧
    Forall table_string strs ∧ DecodeBindRules.symbol_table sample_decoded = table_map 1 strs ∧
    is_u32 (len (table_bytes 1 strs)) ∧ is_u32 (len (DecodeBindRules.instructions sample_decoded)).
Proof.
  apply decode_iff. sample_decide.
Defined.
