(* ===== verification/EncodeV1Correct.v ===== *)
(** The old bytecode format: what its decoder reads back from encoded rules
    ([v1_roundtrip]), and that its 8-bit labels collide ([v1_label_collision]). *)
From Stdlib Require Import ZArith Lia.
From stdpp Require Import base gmap strings countable list.
From S2P Require Import Prelude SymbolTable Instruction InstructionEncoder EncodeV1 MatchCorrect.
From S2P Require Import Samples.
Local Open Scope Z_scope.

(** ** Lemmas on bit fields *)

Definition raw_bit (words : list Z) (i : Z) : bool :=
  Z.testbit (nth (Z.to_nat (i / 32)) words 0) (i mod 32).

Lemma slice_bit_spec words i j :
  0 <= j → Z.testbit (slice_bit words i) j = (j =? 0) && raw_bit words i.
Proof.
  intros Hj. unfold slice_bit, raw_bit. pose proof (Z.mod_pos_bound i 32 ltac:(lia)).
  rewrite Z.land_spec, Z.shiftr_spec by lia.
  destruct (Z.eqb_spec j 0) as [->|Hne]; cbn [andb].
  - by rewrite andb_true_r.
  - change 1 with (2 ^ 0). rewrite Z.pow2_bits_false by lia. apply andb_false_r.
Qed.

Lemma get_bits_spec words lsb n j :
  0 <= j → Z.testbit (get_bits words lsb n) j = (j <? Z.of_nat n) && raw_bit words (lsb + j).
Proof.
  revert lsb j. induction n as [|n IH]; intros lsb j Hj; cbn [get_bits].
  - rewrite Z.bits_0. by rewrite (proj2 (Z.ltb_ge j (Z.of_nat 0))) by lia.
  - rewrite Z.lor_spec, slice_bit_spec, Z.shiftl_spec by lia.
    destruct (Z.eqb_spec j 0) as [->|Hne].
    + rewrite Z.testbit_neg_r by lia. rewrite Z.add_0_r.
      by rewrite (proj2 (Z.ltb_lt 0 (Z.of_nat (S n)))) by lia.
    + rewrite IH by lia. rewrite orb_false_r. f_equal; [|f_equal; lia].
      destruct (Z.ltb_spec (j - 1) (Z.of_nat n)), (Z.ltb_spec j (Z.of_nat (S n))); lia.
Qed.

Lemma bit_range_spec words msb lsb j :
  0 <= lsb <= msb → msb - lsb < 32 → 0 <= j →
  Z.testbit (bit_range words msb lsb) j = (j <=? msb - lsb) && raw_bit words (lsb + j).
Proof.
  intros Hlm Hw Hj. unfold bit_range. rewrite Z.shiftr_spec by lia.
  unfold as_u32, u32_size. destruct (Z.leb_spec j (msb - lsb)) as [Hle|Hgt].
  - rewrite Z.mod_pow2_bits_low, Z.shiftl_spec, get_bits_spec by lia.
    rewrite Z.add_simpl_r. by rewrite (proj2 (Z.ltb_lt _ _)) by lia.
  - by rewrite Z.mod_pow2_bits_high by lia.
Qed.

Lemma set_slice_bit_spec words i b j :
  0 <= i < 96 → 0 <= j < 96 → length words = 3%nat → b = 0 ∨ b = 1 →
  raw_bit (set_slice_bit words i b) j = if j =? i then b =? 1 else raw_bit words j.
Proof.
  intros Hi Hj Hlen Hb. unfold raw_bit, set_slice_bit.
  pose proof (Z.mod_pos_bound i 32 ltac:(lia)). pose proof (Z.mod_pos_bound j 32 ltac:(lia)).
  rewrite !nth_lookup, list_lookup_alter.
  destruct (decide (Z.to_nat (i / 32) = Z.to_nat (j / 32))) as [Heq|Hne].
  - assert (i / 32 = j / 32) as Hq.
    { pose proof (Z.div_pos i 32 ltac:(lia) ltac:(lia)).
      pose proof (Z.div_pos j 32 ltac:(lia) ltac:(lia)). lia. }
    assert (Z.to_nat (j / 32) < length words)%nat as Hlt.
    { rewrite Hlen. pose proof (Z.div_lt_upper_bound j 32 3 ltac:(lia) ltac:(lia)).
      pose proof (Z.div_pos j 32 ltac:(lia) ltac:(lia)). lia. }
    rewrite Heq. apply lookup_lt_is_Some_2 in Hlt as [w Hw]. rewrite Hw. cbn.
    rewrite Z.lor_spec, Z.land_spec, Z.lnot_spec by lia.
    pose proof (Z.div_mod i 32 ltac:(lia)) as Hdi. pose proof (Z.div_mod j 32 ltac:(lia)) as Hdj.
    rewrite Z.shiftl_1_l, Z.pow2_bits_eqb, Z.shiftl_spec by lia.
    destruct (Z.eqb_spec j i) as [->|Hne].
    + rewrite Z.eqb_refl, Z.sub_diag. cbn [negb]. rewrite andb_false_r.
      by destruct Hb as [-> | ->].
    + assert (i mod 32 ≠ j mod 32) as Hm by lia. rewrite (proj2 (Z.eqb_neq _ _) Hm).
      cbn [negb]. rewrite andb_true_r.
      destruct (Z.ltb_spec (j mod 32 - i mod 32) 0); [by rewrite (Z.testbit_neg_r b), orb_false_r|].
      destruct Hb as [-> | ->]; [by rewrite Z.bits_0, orb_false_r|].
      change 1 with (2 ^ 0). by rewrite Z.pow2_bits_false, orb_false_r by lia.
  - destruct (Z.eqb_spec j i) as [->|]; [done|]. done.
Qed.

Lemma length_set_bits words lsb v n : length (set_bits words lsb v n) = length words.
Proof.
  revert words lsb v. induction n as [|n IH]; intros; cbn; [done|].
  rewrite IH. unfold set_slice_bit. apply length_alter.
Qed.

Lemma land_1 v : Z.land v 1 = v mod 2.
Proof. change 1 with (Z.ones 1). by rewrite Z.land_ones. Qed.

Lemma set_bits_spec words lsb v n j :
  0 <= lsb → lsb + Z.of_nat n <= 96 → 0 <= j < 96 → length words = 3%nat →
  raw_bit (set_bits words lsb v n) j =
  if (lsb <=? j) && (j <? lsb + Z.of_nat n) then Z.testbit v (j - lsb) else raw_bit words j.
Proof.
  revert words lsb v. induction n as [|n IH]; intros words lsb v Hl Hn Hj Hlen; cbn [set_bits].
  - destruct (Z.leb_spec lsb j), (Z.ltb_spec j (lsb + Z.of_nat 0)); (done || lia).
  - assert (Z.land v 1 = 0 ∨ Z.land v 1 = 1) as Hb.
    { rewrite land_1.
      pose proof (Z.mod_pos_bound v 2 ltac:(lia)). lia. }
    rewrite IH, set_slice_bit_spec; try lia; try done.
    2:{ unfold set_slice_bit. by rewrite length_alter. }
    destruct (Z.eqb_spec j lsb) as [->|Hne].
    + replace (lsb + 1 <=? lsb) with false by lia. cbn [andb].
      rewrite Z.leb_refl, (proj2 (Z.ltb_lt _ _)) by lia. cbn [andb]. rewrite Z.sub_diag.
      rewrite land_1.
      rewrite <- Z.bit0_mod. by destruct (Z.testbit v 0).
    + replace (lsb + 1 <=? j) with (lsb <=? j)
        by (destruct (Z.leb_spec lsb j), (Z.leb_spec (lsb + 1) j); lia).
      replace (lsb + 1 + Z.of_nat n) with (lsb + Z.of_nat (S n)) by lia.
      destruct (Z.leb_spec lsb j); cbn [andb]; [|done].
      destruct (j <? _); [|done]. rewrite Z.shiftr_spec by lia. f_equal. lia.
Qed.

(** Reading a field back. *)
Lemma bit_range_set_same words msb lsb v :
  0 <= lsb <= msb → msb < 96 → msb - lsb < 32 → length words = 3%nat →
  bit_range (set_bit_range words msb lsb v) msb lsb = v mod 2 ^ (msb - lsb + 1).
Proof.
  intros Hlm Hm Hw Hlen. apply Z.bits_inj'. intros j Hj. rewrite bit_range_spec by lia.
  destruct (Z.leb_spec j (msb - lsb)) as [Hle|Hgt]; cbn [andb].
  - unfold set_bit_range. rewrite set_bits_spec by lia. rewrite Z.mod_pow2_bits_low by lia.
    rewrite (proj2 (Z.leb_le lsb (lsb + j))), (proj2 (Z.ltb_lt _ _)) by lia.
    cbn [andb]. f_equal. lia.
  - by rewrite Z.mod_pow2_bits_high by lia.
Qed.

(** Writing a field leaves the others alone. *)
Lemma bit_range_set_other words msb lsb msb' lsb' v :
  0 <= lsb <= msb → msb < 96 → 0 <= lsb' <= msb' → msb' < 96 → msb' - lsb' < 32 →
  msb < lsb' ∨ msb' < lsb → length words = 3%nat →
  bit_range (set_bit_range words msb lsb v) msb' lsb' = bit_range words msb' lsb'.
Proof.
  intros Hlm Hm Hlm' Hm' Hw Hdisj Hlen. apply Z.bits_inj'. intros j Hj.
  rewrite !bit_range_spec by lia. destruct (Z.leb_spec j (msb' - lsb')) as [Hle|]; [|done].
  cbn [andb]. unfold set_bit_range. rewrite set_bits_spec by lia.
  destruct (Z.leb_spec lsb (lsb' + j)); cbn [andb]; [|done].
  by rewrite (proj2 (Z.ltb_ge _ _)) by lia.
Qed.

Lemma bit_range_range words msb lsb :
  0 <= lsb <= msb → msb - lsb < 32 → 0 <= bit_range words msb lsb < 2 ^ (msb - lsb + 1).
Proof.
  intros Hlm Hw.
  assert (bit_range words msb lsb = bit_range words msb lsb mod 2 ^ (msb - lsb + 1)) as ->.
  { apply Z.bits_inj'. intros j Hj. rewrite bit_range_spec by lia.
    destruct (Z.leb_spec j (msb - lsb)) as [Hle|Hgt]; cbn [andb].
    - rewrite Z.mod_pow2_bits_low, bit_range_spec by lia. by replace (j <=? _) with true by lia.
    - by rewrite Z.mod_pow2_bits_high by lia. }
  apply Z.mod_pos_bound. lia.
Qed.

(** ** The fields of an encoded instruction *)

Lemma length_set_bit_range words msb lsb v : length (set_bit_range words msb lsb v) = length words.
Proof. apply length_set_bits. Qed.

(** Read a field through the chain of setters of an encoded instruction. *)
Ltac read_field :=
  repeat first
  [ rewrite bit_range_set_same by (rewrite ?length_set_bit_range; (lia || done))
  | rewrite bit_range_set_other by (rewrite ?length_set_bit_range; (lia || done)) ].

(** The condition, key and value an instruction carries. *)
Definition instruction_condition (i : Instruction) : InstCondition :=
  match i with
  | Abort c | Match c | Goto c _ => c
  | Label _ => Always
  end.

Definition instruction_op (i : Instruction) : RawOpV1 :=
  match i with
  | Abort _ => V1_Abort
  | Match _ => V1_Match
  | Goto _ _ => V1_Goto
  | Label _ => V1_Label
  end.

Definition instruction_label (i : Instruction) : Z :=
  match i with
  | Goto _ l | Label l => l
  | _ => 0
  end.

Lemma to_raw_instruction_eq i :
  to_raw_instruction i =
  ('(c, b, v) ← encode_condition (instruction_condition i);
   Ok (set_bit_range (set_bit_range (set_bit_range (set_bit_range (set_bit_range [0; 0; 0]
         31 28 c) 27 24 (RawOpV1_as_u32 (instruction_op i))) 23 16 (instruction_label i))
         15 0 b) 63 32 v)).
Proof.
  unfold to_raw_instruction. destruct i as [c|c|c l|l]; cbn [instruction_condition]; [..|done];
    by destruct (encode_condition c) as [[[? ?] ?]| |].
Qed.

(** Deprecated keys are [u32]s. *)
Definition condition_u32 (c : InstCondition) : Prop :=
  match c with
  | Always => True
  | Equal l r | NotEqual l r => symbol_u32 l ∧ symbol_u32 r
  end.

#[export] Instance symbol_u32_dec s : Decision (symbol_u32 s).
Proof. unfold symbol_u32, is_u32. destruct s; apply _. Defined.
#[export] Instance condition_u32_dec c : Decision (condition_u32 c).
Proof. destruct c; apply _. Defined.

Lemma encode_symbol_u32 s x :
  encode_symbol s = Ok x → symbol_u32 s → is_u32 x.
Proof.
  intros H Hk. destruct s; cbn in H; try done; [injection H as <-; by apply Hk|].
  apply ok_or_Ok in H. unfold try_u32 in H. case_match eqn:Hr; [|done]. injection H as <-.
  bool_props. done.
Qed.

Lemma encode_condition_range c cc b v :
  encode_condition c = Ok (cc, b, v) → condition_u32 c → 0 <= cc < 16 ∧ is_u32 b ∧ is_u32 v.
Proof.
  destruct c as [|l r|l r]; cbn; intros H Hk.
  - injection H as <- <- <-. unfold is_u32, u32_size. lia.
  - apply bind_Ok_iff in H as (x & Hx & H). apply bind_Ok_iff in H as (y & Hy & [= <- <- <-]).
    destruct Hk. split_and!; [lia|lia|..]; eapply encode_symbol_u32; eauto.
  - apply bind_Ok_iff in H as (x & Hx & H). apply bind_Ok_iff in H as (y & Hy & [= <- <- <-]).
    destruct Hk. split_and!; [lia|lia|..]; eapply encode_symbol_u32; eauto.
Qed.

(** What the fields of an encoded instruction hold: labels are cut to 8 bits,
    keys and [extra] to 16 bits, lines to 8 bits. *)
Lemma encode_instruction_fields info r :
  encode_instruction info = Ok r → condition_u32 (instruction_condition (instruction info)) →
  ∃ c b v, encode_condition (instruction_condition (instruction info)) = Ok (c, b, v) ∧
    length r = 3%nat ∧
    raw_condition r = c ∧ raw_operation r = RawOpV1_as_u32 (instruction_op (instruction info)) ∧
    parameter_a r = instruction_label (instruction info) mod 2 ^ 8 ∧
    parameter_b r = b mod 2 ^ 16 ∧ raw_value r = v ∧
    raw_line r = line (debug info) mod 2 ^ 8 ∧
    raw_ast_location r = RawAstLocation_as_u32 (ast_location (debug info)) ∧
    raw_extra r = extra (debug info) mod 2 ^ 16.
Proof.
  intros H Hu. apply bind_Ok_iff in H as (r0 & H0 & [= <-]).
  rewrite to_raw_instruction_eq in H0. apply bind_Ok_iff in H0 as ([[c b] v] & Hc & [= <-]).
  destruct (encode_condition_range _ _ _ _ Hc Hu) as (Hcc & Hb & Hv).
  exists c, b, v. split; [done|]. split; [by rewrite !length_set_bit_range|].
  unfold raw_condition, raw_operation, parameter_a, parameter_b, raw_value, raw_line,
    raw_ast_location, raw_extra.
  split_and!; read_field; cbn [Z.sub Z.add Z.opp Z.pos_sub];
    try done; try (apply Z.mod_small; unfold is_u32, u32_size in *; lia).
  - by destruct (instruction_op _).
  - by destruct (ast_location _).
Qed.

(** ** Words *)

Lemma is_u32_bits x : (∀ j, 32 <= j → Z.testbit x j = false) → is_u32 x.
Proof.
  intros H. assert (x = x mod 2 ^ 32) as Hx.
  { apply Z.bits_inj'. intros j Hj. destruct (Z.ltb_spec j 32).
    - by rewrite Z.mod_pow2_bits_low by lia.
    - rewrite Z.mod_pow2_bits_high by lia. by apply H. }
  rewrite Hx. by apply Z.mod_pos_bound.
Qed.

Lemma u32_testbit_high x j : is_u32 x → 32 <= j → Z.testbit x j = false.
Proof.
  intros Hx Hj. rewrite <- (Z.mod_small x (2 ^ 32)) by apply Hx.
  by rewrite Z.mod_pow2_bits_high by lia.
Qed.

Lemma set_bits_u32 words lsb v n : 0 <= lsb → Forall is_u32 words → Forall is_u32 (set_bits words lsb v n).
Proof.
  revert words lsb v. induction n as [|n IH]; intros words lsb v Hl Hw; [done|].
  apply IH; [lia|]. unfold set_slice_bit. apply Forall_alter; [done|].
  intros w _ Hu. apply is_u32_bits. intros j Hj.
  pose proof (Z.mod_pos_bound lsb 32 ltac:(lia)).
  rewrite Z.lor_spec, Z.land_spec, (u32_testbit_high w), Z.shiftl_spec by (done || lia).
  rewrite land_1. cbn [andb orb]. rewrite <- (Z.mod_small (v mod 2) (2 ^ 1)) by
    (pose proof (Z.mod_pos_bound v 2); lia).
  by rewrite Z.mod_pow2_bits_high by lia.
Qed.

Lemma encode_instruction_words info r :
  encode_instruction info = Ok r → length r = 3%nat ∧ Forall is_u32 r.
Proof.
  intros H. apply bind_Ok_iff in H as (r0 & H0 & [= <-]).
  rewrite to_raw_instruction_eq in H0. apply bind_Ok_iff in H0 as ([[c b] v] & _ & [= <-]).
  split; [by rewrite !length_set_bit_range|].
  unfold set_bit_range. do 8 (apply set_bits_u32; [lia|]). by repeat constructor.
Qed.

Lemma decode_words_bytes fuel rs :
  (length rs <= fuel)%nat → Forall (λ r, length r = 3%nat ∧ Forall is_u32 r) rs →
  decode_words fuel (rs ≫= raw_bytes) = rs.
Proof.
  revert fuel. induction rs as [|r rs IH]; intros fuel Hf H; [by destruct fuel|].
  destruct fuel as [|fuel]; [cbn in Hf; lia|].
  apply Forall_cons in H as [[Hlen Hu] H]. rewrite bind_cons.
  destruct r as [|a [|b [|c [|]]]]; try done.
  rewrite !Forall_cons in Hu. destruct Hu as (Ha & Hb & Hc & _).
  assert (raw_bytes [a; b; c] = to_le_bytes 4 a ++ to_le_bytes 4 b ++ to_le_bytes 4 c) as ->
    by (unfold raw_bytes; by rewrite !bind_cons, app_nil_r).
  transitivity ([from_le_bytes (to_le_bytes 4 a); from_le_bytes (to_le_bytes 4 b);
                 from_le_bytes (to_le_bytes 4 c)] :: decode_words fuel (rs ≫= raw_bytes)); [done|].
  rewrite !from_to_le_bytes_u32 by done. rewrite IH by (done || cbn in Hf; lia). done.
Qed.

Lemma length_raw_bytes rs :
  Forall (λ r, length r = 3%nat) rs → length (rs ≫= raw_bytes) = (12 * length rs)%nat.
Proof.
  induction 1 as [|r rs Hr _ IH]; [done|]. rewrite bind_cons, length_app, IH.
  destruct r as [|a [|b [|c [|]]]]; try done.
  assert (length (raw_bytes [a; b; c]) = 12%nat) as -> by done. cbn. lia.
Qed.

(** The fields of a raw instruction hold those of [info]: its condition with the
    key and the value, its operation, its label, and its debug information.
    Labels and lines are cut to 8 bits, keys and [extra] to 16 bits. *)
Record raw_holds (info : InstructionInfo) (r : RawInstruction) : Prop := {
  rh_condition : ∃ b, encode_condition (instruction_condition (instruction info)) =
    Ok (raw_condition r, b, raw_value r) ∧ parameter_b r = b mod 2 ^ 16;
  rh_operation : raw_operation r = RawOpV1_as_u32 (instruction_op (instruction info));
  rh_label : parameter_a r = instruction_label (instruction info) mod 2 ^ 8;
  rh_line : raw_line r = line (debug info) mod 2 ^ 8;
  rh_location : raw_ast_location r = RawAstLocation_as_u32 (ast_location (debug info));
  rh_extra : raw_extra r = extra (debug info) mod 2 ^ 16;
}.

(** C29: decoding the old bytecode of some rules gives back one raw instruction
    per instruction, whose fields hold the instruction's operation, condition,
    key, value, label and debug information, cut to the width of the field. *)
Theorem v1_roundtrip rules bytes :
  encode_to_bytecode_v1 rules = Ok bytes →
  Forall (λ info, condition_u32 (instruction_condition (instruction (info_to_instruction info))))
    (instructions rules) →
  ∃ raws, decode_from_bytecode_v1 bytes = Ok raws ∧
    Forall2 (λ info r, raw_holds (info_to_instruction info) r) (instructions rules) raws.
Proof.
  intros H Hu. apply bind_Ok_iff in H as (raws & Hr & [= <-]). apply try_map_Ok in Hr.
  assert (Forall (λ r, length r = 3%nat ∧ Forall is_u32 r) raws) as Hw.
  { clear Hu. induction Hr; constructor; [by eapply encode_instruction_words|done]. }
  exists raws. split.
  - unfold decode_from_bytecode_v1, len. rewrite length_raw_bytes by (eapply Forall_impl; [exact Hw|naive_solver]).
    rewrite Nat2Z.inj_mul, Z.mul_comm, Z_mod_mult. cbn [negb Z.eqb].
    rewrite decode_words_bytes; [done|lia|done].
  - clear Hw. induction Hr as [|info r infos raws Hi Hr IH]; [constructor|].
    apply Forall_cons in Hu as [Hui Hu]. constructor; [|by apply IH].
    destruct (encode_instruction_fields _ _ Hi Hui)
      as (c & b & v & Hc & _ & <- & ? & ? & ? & <- & ? & ? & ?).
    split; eauto.
Qed.

Lemma v1_roundtrip_witness :
  ∃ raws, decode_from_bytecode_v1 sample_old_bytecode = Ok raws ∧
    Forall2 (λ info r, raw_holds (info_to_instruction info) r) (instructions sample_old_bind) raws.
Proof.
  apply v1_roundtrip.
  - vm_compute. reflexivity.
  - sample_decide.
Defined.

(** A field takes only the low bits of a value. *)
Lemma set_bits_low words lsb v w n :
  (∀ i, 0 <= i < Z.of_nat n → Z.testbit v i = Z.testbit w i) →
  set_bits words lsb v n = set_bits words lsb w n.
Proof.
  revert words lsb v w. induction n as [|n IH]; intros words lsb v w H; [done|]. cbn.
  assert (Z.land v 1 = Z.land w 1) as ->.
  { apply Z.bits_inj'. intros i Hi. rewrite !Z.land_spec.
    destruct (Z.eq_dec i 0) as [->|]; [by rewrite H by lia|].
    replace (Z.testbit 1 i) with false; [by rewrite !andb_false_r|].
    symmetry. apply Z.bits_above_log2; cbn; lia. }
  apply IH. intros i Hi. rewrite !Z.shiftr_spec by lia. apply H. lia.
Qed.

Lemma set_bit_range_mod words msb lsb v w :
  v mod 2 ^ (msb - lsb + 1) = w mod 2 ^ (msb - lsb + 1) → 
  set_bit_range words msb lsb v = set_bit_range words msb lsb w.
Proof.
  intros H. apply set_bits_low. intros i Hi.
  rewrite <- (Z.mod_pow2_bits_low v (msb - lsb + 1) i), H by lia. apply Z.mod_pow2_bits_low. lia.
Qed.

(** C34: the old format keeps eight bits of a label: jumps to labels that differ
    by a multiple of 256 have the same encoding. *)
Theorem v1_label_collision c l k dbg :
  encode_instruction (mkInfo (Goto c (l + 256 * k)) dbg) = encode_instruction (mkInfo (Goto c l) dbg).
Proof.
  unfold encode_instruction. cbn [instruction debug]. rewrite !to_raw_instruction_eq.
  cbn [instruction_condition instruction_op instruction_label].
  destruct (encode_condition c) as [[[cc b] v]| |]; [|done|done]. cbn [mbind outcome_bind].
  erewrite (set_bit_range_mod _ 23 16 (l + 256 * k) l); [done|].
  change (2 ^ (23 - 16 + 1)) with 256. rewrite Z.mul_comm. apply Z_mod_plus_full.
Qed.
