(* ===== verification/Determinism.v ===== *)
(** Hash maps and sets iterate in an order that changes from run to run.  The
    bytecode does not depend on it ([encode_order_independent]), and neither
    does a symbol table that is built ([symbol_table_order_independent]).
    Whether one is built does depend on it: a library may extend a key of the
    library fuchsia without using it, so nothing orders the two. *)
From Stdlib Require Import ZArith Lia.
From stdpp Require Import base gmap strings countable list.
From S2P Require Import Prelude BindLibrary ParserCommon BindRules LibraryParser DependencyGraph.
From S2P Require Import SymbolTable ResolveCorrect DeclareCorrect Bytecode Instruction.
From S2P Require Import InstructionEncoder EncodeV2 EncodeV1.
From S2P Require Import SymbolTableCorrect Semantics InstructionCorrect EncoderTotal Samples.
Local Open Scope Z_scope.

(** ** The bytecode *)

Section backpatching.
Context (insts : list Instruction) (ps0 : list piece) (strs : list rstring) (st : EncoderState).
Hypothesis E : encoding insts ps0 strs st.

Definition patched (ps : list piece) : Prop :=
  Forall2 same_shape ps ps0 ∧ ∀ k c l, insts !! k = Some (Goto c l) → linked_at insts ps0 ps k.

(** There is one way to link the jumps. *)
Lemma patched_unique ps ps' : patched ps → patched ps' → ps = ps'.
Proof.
  intros [Hs Hl] [Hs' Hl']. apply list_eq_same_length with (length ps0).
  - by rewrite (Forall2_length _ _ _ Hs').
  - by rewrite (Forall2_length _ _ _ Hs).
  - intros k p p' Hk Hp Hp'.
    destruct (Forall2_lookup_l _ _ _ _ _ Hs Hp) as (q & Hq & Hpq).
    destruct (Forall2_lookup_l _ _ _ _ _ Hs' Hp') as (q' & Hq' & Hpq'). simplify_eq.
    destruct (Forall2_lookup_r _ _ _ _ _ (en_pieces _ _ _ _ E) Hq) as (i & Hi & Hf).
    destruct q as [bs|op off tail l].
    + destruct p, p'; try done. cbn in *. congruence.
    + assert (∃ c, i = Goto c l) as [c ->] by (inversion Hf; eauto).
      destruct (Hl _ _ _ Hi) as (op1 & t1 & c1 & l1 & m1 & H1 & Hm1 & Hj1 & _).
      destruct (Hl' _ _ _ Hi) as (op2 & t2 & c2 & l2 & m2 & H2 & Hm2 & Hj2 & _).
      simplify_eq. rewrite (label_unique _ _ _ _ E _ _ _ Hm1 Hm2) in *. naive_solver.
Qed.

Lemma patch_labels_indexed bs entries bs' l d :
  try_fold patch_label bs entries = Ok bs' → (l, d) ∈ entries → is_Some (label_index d).
Proof.
  revert bs. induction entries as [|[l' d'] r IH]; intros bs H Hin; [by apply elem_of_nil in Hin|].
  cbn in H. apply bind_Ok_iff in H as (bs1 & H1 & H).
  apply elem_of_cons in Hin as [[= -> ->]|Hin]; [|by eapply IH].
  destruct (label_index d'); [by eexists|done].
Qed.

Lemma patch_labels_patched entries bs' :
  entries ≡ₚ map_to_list (label_map st) → try_fold patch_label (bytes_of ps0) entries = Ok bs' →
  ∃ ps, bs' = bytes_of ps ∧ patched ps.
Proof.
  intros Hp H. destruct (patch_labels _ _ _ _ E ps0 entries bs') as (ps & -> & Hs & _ & Hl); [|..|done|].
  - apply Forall_Forall2_diag, Forall_true. apply same_shape_refl.
  - intros l d Hin. apply elem_of_map_to_list. by rewrite <- Hp.
  - exists ps. split; [done|]. split; [done|]. intros k c l Hk.
    destruct (en_jump _ _ _ _ E _ _ _ Hk) as (d & Hd & Hj). eapply Hl; [done| |done].
    rewrite Hp. by apply elem_of_map_to_list.
Qed.

(** Backpatching in any other order gives the same bytes. *)
Lemma patch_labels_order e1 e2 bs' :
  e1 ≡ₚ map_to_list (label_map st) → e2 ≡ₚ map_to_list (label_map st) →
  try_fold patch_label (bytes_of ps0) e1 = Ok bs' → try_fold patch_label (bytes_of ps0) e2 = Ok bs'.
Proof.
  intros Hp1 Hp2 H1. destruct (patch_labels_patched _ _ Hp1 H1) as (ps1 & -> & P1).
  destruct (patch_labels_total _ _ _ _ E ps0 e2) as [[bs2 H2]|[(l & d & Hin & Hnone & _)|(l & _ & Hbig)]].
  - apply Forall_Forall2_diag, Forall_true. apply same_shape_refl.
  - intros l d Hin. apply elem_of_map_to_list. by rewrite <- Hp2.
  - destruct (patch_labels_patched _ _ Hp2 H2) as (ps2 & -> & P2).
    by rewrite (patched_unique _ _ P1 P2).
  - assert ((l, d) ∈ e1) as Hin1 by (by rewrite Hp1, <- Hp2).
    destruct (patch_labels_indexed _ _ _ _ _ H1 Hin1). congruence.
  - destruct Hbig as (k & m & c & Hk & Hm & Hmax).
    destruct (proj2 P1 _ _ _ Hk) as (? & ? & c' & l' & m' & Hk' & Hm' & _ & Hu). simplify_eq.
    rewrite (label_unique _ _ _ _ E _ _ _ Hm' Hm) in Hu. unfold is_u32 in Hu. lia.
Qed.
End backpatching.

Section orders.
Context (O1 O2 : HashMapOrder Z LabelInfo).

Lemma encode_instructions_order infos e strs r :
  encodes e strs → encode_instructions (HashMapOrder0 := O1) infos e = Ok r →
  encode_instructions (HashMapOrder0 := O2) infos e = Ok r.
Proof.
  intros He H. unfold encode_instructions in *.
  apply bind_Ok_iff in H as (st & Hst & H). rewrite Hst. cbn [mbind outcome_bind].
  apply bind_Ok_iff in H as (bs & Hbs & <-%Ok_inj).
  destruct (encode_loop_encoding _ _ _ _ _ _ (encoding_start _ _ He) Hst) as (ps & strs' & E & _).
  rewrite (en_bytes _ _ _ _ E) in *.
  rewrite (patch_labels_order _ _ _ _ E _ (hash_map_iter (label_map st)) bs
    (hash_map_iter_perm _) (hash_map_iter_perm _) Hbs). done.
Qed.

Lemma append_composite_node_order bs node prim e strs r :
  encodes e strs → append_composite_node (HashMapOrder0 := O1) bs node prim e = Ok r →
  append_composite_node (HashMapOrder0 := O2) bs node prim e = Ok r ∧ ∃ strs', encodes r.2 strs'.
Proof.
  intros He H. unfold append_composite_node in *. case_bool_decide as Hname; [done|].
  apply bind_Ok_iff in H as ([key e1] & Hk & H). rewrite Hk. cbn [mbind outcome_bind].
  apply bind_Ok_iff in H as ([ib e2] & Hib & <-%Ok_inj).
  destruct (get_key_encodes _ _ _ _ _ He Hk) as (s1 & E1 & _).
  destruct (encode_instructions_linked _ _ _ _ _ E1 Hib) as (_ & s2 & _ & E2 & _).
  rewrite (encode_instructions_order _ _ _ _ E1 Hib). split; [done|by exists s2].
Qed.

Lemma additional_nodes_order nodes bs e names strs r :
  encodes e strs →
  try_fold (append_additional_node (HashMapOrder0 := O1)) (bs, e, names) nodes = Ok r →
  try_fold (append_additional_node (HashMapOrder0 := O2)) (bs, e, names) nodes = Ok r.
Proof.
  revert bs e names strs. induction nodes as [|node nodes IH]; intros bs e names strs He H; [done|].
  cbn in H |- *. case_bool_decide; [done|].
  apply bind_Ok_iff in H as (st & Hst & H). apply bind_Ok_iff in Hst as ([bs2 e2] & H2 & <-%Ok_inj).
  destruct (append_composite_node_order _ _ _ _ _ _ He H2) as [-> [s2 E2]]. cbn in *. by eapply IH.
Qed.

(** C32: the bytecode does not depend on the order in which the hash map of the
    labels is iterated: rules that encode under one order encode to the same
    bytes under every other. *)
Theorem encode_order_independent rules bc :
  encode_to_bytecode (HashMapOrder0 := O1) rules = Ok bc →
  encode_to_bytecode (HashMapOrder0 := O2) rules = Ok bc.
Proof.
  intros H. destruct rules as [r|r]; cbn [encode_to_bytecode] in *.
  - destruct (use_new_bytecode r); [|done]. unfold encode_to_bytecode_v2 in *.
    apply bind_Ok_iff in H as (p & Hp & H).
    by rewrite (encode_instructions_order _ _ _ _ new_encoder_encodes Hp).
  - unfold encode_composite_to_bytecode in *. case_bool_decide; [done|].
    apply bind_Ok_iff in H as ([id e] & Hid & H). rewrite Hid. cbn [mbind outcome_bind].
    destruct (get_key_encodes _ _ _ _ _ new_encoder_encodes Hid) as (s1 & E1 & _).
    apply bind_Ok_iff in H as ([bs e2] & H2 & H).
    destruct (append_composite_node_order _ _ _ _ _ _ E1 H2) as [-> [s2 E2]]. cbn [snd mbind outcome_bind] in *.
    apply bind_Ok_iff in H as (p & Hp & H). by rewrite (additional_nodes_order _ _ _ _ _ _ E2 Hp).
Qed.
End orders.

(** The opposite orders. *)
Definition reverse_order_map K A `{Countable K} : HashMapOrder K A :=
  {| hash_map_iter := λ m, reverse (map_to_list m);
     hash_map_iter_perm := λ m, reverse_Permutation (map_to_list m) |}.

Definition reverse_order_set K `{Countable K} : HashSetOrder K :=
  {| hash_set_iter := λ s, reverse (elements s);
     hash_set_iter_perm := λ s, reverse_Permutation (elements s) |}.

Lemma encode_order_independent_witness :
  encode_to_bytecode (HashMapOrder0 := reverse_order_map Z LabelInfo) (Bind sample_bind) =
    Ok sample_bytecode.
Proof.
  apply (encode_order_independent (key_order_map Z LabelInfo)). sample_ok.
Defined.

(** ** The symbol table *)

(** C33: two symbol tables built for the same rules and libraries are equal,
    whatever the order of iteration in the dependency graph. *)
Theorem symbol_table_order_independent (O1 O2 : HashSetOrder nat) using_ libraries lint t1 t2 :
  get_symbol_table_from_libraries (HashSetOrder0 := O1) using_ libraries lint = Ok t1 →
  get_symbol_table_from_libraries (HashSetOrder0 := O2) using_ libraries lint = Ok t2 →
  t1 = t2.
Proof.
  unfold get_symbol_table_from_libraries. intros H1 H2.
  apply bind_Ok_iff in H1 as (asts & Hasts & H1). rewrite Hasts in H2. cbn [mbind outcome_bind] in H2.
  apply bind_Ok_iff in H1 as (d1 & Hd1 & H1), H2 as (d2 & Hd2 & H2).
  apply resolve_Ok_libraries in Hd1 as [R1 _], Hd2 as [R2 _].
  apply construct_holds in H1, H2. apply map_eq. intros q. apply option_eq. intros s.
  rewrite (th_seen _ _ _ H1), (th_seen _ _ _ H2).
  by setoid_rewrite (rl_needed _ _ _ R1); setoid_rewrite (rl_needed _ _ _ R2).
Qed.

Lemma symbol_table_order_independent_witness :
  ok_value ∅ (get_symbol_table_from_libraries (HashSetOrder0 := key_order_set nat)
    sample_using [sample_library; sample_extension] true) =
  ok_value ∅ (get_symbol_table_from_libraries (HashSetOrder0 := reverse_order_set nat)
    sample_using [sample_library; sample_extension] true).
Proof.
  apply (symbol_table_order_independent (key_order_set nat) (reverse_order_set nat)
    sample_using [sample_library; sample_extension] true); sample_ok.
Defined.
