(* ===== verification/Pipeline.v ===== *)
(** The whole compiler is total: compiling any text never panics
    ([compile_no_panic]), encoding never panics ([encode_to_bytecode_no_panic]),
    and compiled rules of the current format always encode when their
    comparisons are well typed and small enough ([compile_bind_encodes]). *)
From Stdlib Require Import ZArith Lia.
From stdpp Require Import base gmap strings countable list.
From S2P Require Import Prelude BindLibrary ParserCommon BindRules RulesParser LibraryParser.
From S2P Require Import RulesParser ParserTotal DependencyGraph SymbolTable ResolveCorrect.
From S2P Require Import Instruction Compiler Bytecode InstructionEncoder.
From S2P Require Import EncodeV2 EncodeV1 Semantics CompilerCorrect LabelBound CompilerShapes.
From S2P Require Import BytecodeCorrect.
From S2P Require Import SymbolTableCorrect InstructionCorrect EncoderTotal CompilerLabels Samples.
Local Open Scope Z_scope.

(** ** Compilation *)

Lemma map_err_no_panic {E F A} (f : E → F) (m : outcome E A) : no_panic m → no_panic (map_err f m).
Proof. by destruct m. Qed.
#[export] Hint Resolve map_err_no_panic : outcomes.

Lemma resolve_dependencies_no_panic `{!HashSetOrder nat} using_ libs :
  no_panic (resolve_dependencies using_ libs).
Proof.
  intros Hp. pose proof (resolve_dependencies_outcome using_ libs) as H. by rewrite Hp in H.
Qed.

Lemma declare_no_panic lib_name us t d : no_panic (declare lib_name us t d).
Proof.
  unfold declare. apply bind_no_panic; [unfold find_qualified_identifier; by repeat case_match|].
  intros q _. apply bind_no_panic; [unfold declare_key; by repeat case_match|].
  intros t' _. apply try_fold_no_panic. intros t1 v _. unfold declare_value. by case_match.
Qed.

Lemma construct_symbol_table_no_panic libs : no_panic (construct_symbol_table libs).
Proof.
  apply try_fold_no_panic. intros t lib _. apply try_fold_no_panic. intros. apply declare_no_panic.
Qed.

Lemma lint_library_no_panic ast : no_panic (lint_library ast).
Proof. unfold lint_library. by repeat case_match. Qed.

Lemma get_symbol_table_no_panic `{!HashSetOrder nat} using_ libraries lint :
  Forall (λ lib, len lib < 2 ^ 31) libraries →
  no_panic (get_symbol_table_from_libraries using_ libraries lint).
Proof.
  intros Hlibs. unfold get_symbol_table_from_libraries. apply bind_no_panic.
  - apply try_map_no_panic. intros lib Hlib. rewrite Forall_forall in Hlibs. specialize (Hlibs lib Hlib).
    apply bind_no_panic; [auto with outcomes|]. intros ast _.
    apply bind_no_panic; [|by intros]. destruct lint; [|done].
    apply map_err_no_panic, lint_library_no_panic.
  - intros asts _. apply bind_no_panic; [apply resolve_dependencies_no_panic|].
    intros. apply construct_symbol_table_no_panic.
Qed.

(** C19: compiling never panics when the text of the rules and that of each library are
    shorter than 2^31 bytes: parsing, resolving dependencies, building the symbol table
    and compiling the statements all end with a result or an error.  On such texts the
    counters of lines, of nested comments and of labels do not overflow. *)
Theorem compile_no_panic `{!HashSetOrder nat} rules_str libraries lint disable new :
  len rules_str < 2 ^ 31 → Forall (λ lib, len lib < 2 ^ 31) libraries →
  no_panic (compile rules_str libraries lint disable new).
Proof.
  intros Hlen Hlibs. unfold compile. pose proof (composite_try_from_total rules_str Hlen) as Hc.
  assert (Z.of_nat (length rules_str) < u32_size) as Hlabels by (unfold len, u32_size in *; lia).
  destruct (composite_try_from rules_str) as [ast| |] eqn:Hast; [| |done];
    (apply bind_no_panic; [|by intros]).
  - unfold compile_bind_composite. rewrite Hast. cbn [map_err mbind outcome_bind].
    apply composite_try_from_labels in Hast as [Hp Hns]%Forall_cons; [|done].
    apply bind_no_panic; [by apply get_symbol_table_no_panic|]. intros table _.
    apply bind_no_panic; [apply compile_statements_no_panic; lia|]. intros prim _.
    apply bind_no_panic; [|by intros]. apply try_map_no_panic. intros node Hnode.
    eapply Forall_forall in Hns; [|exact Hnode].
    apply bind_no_panic; [apply compile_statements_no_panic; lia|by intros].
  - unfold compile_bind. apply bind_no_panic; [auto with outcomes|]. intros ast Hr.
    destruct (rules_try_from rules_str) as [ast'| |] eqn:Hr'; try done. injection Hr as ->.
    apply rules_try_from_labels in Hr'; [|done].
    apply bind_no_panic; [by apply get_symbol_table_no_panic|]. intros table _.
    apply bind_no_panic; [apply compile_statements_no_panic; lia|by intros].
Qed.

Lemma compile_no_panic_witness : no_panic (compile sample_rules [sample_library] true true true).
Proof. apply compile_no_panic; [by vm_compute|by repeat constructor; vm_compute]. Defined.

(** ** Encoding *)

Section encode.
Context `{!HashMapOrder Z LabelInfo}.

Lemma encode_symbol_no_panic s : no_panic (encode_symbol s).
Proof. unfold encode_symbol. destruct s; auto with outcomes. Qed.
#[local] Hint Resolve encode_symbol_no_panic : outcomes.

Lemma encode_condition_no_panic c : no_panic (encode_condition c).
Proof. unfold encode_condition. destruct c; step_no_panic. Qed.
#[local] Hint Resolve encode_condition_no_panic : outcomes.

Lemma encode_instruction_no_panic info : no_panic (encode_instruction info).
Proof.
  unfold encode_instruction, to_raw_instruction. apply bind_no_panic; [|by intros].
  apply bind_no_panic; [|by intros [[[[] ?] ?] ?]].
  destruct (instruction info); try done; apply bind_no_panic; auto with outcomes; by intros [[] ?].
Qed.

Lemma append_composite_node_spends bs node prim e strs :
  encodes e strs →
  spends (λ p, unique_key p.2) (unique_key e) (len (node_strings node))
    (append_composite_node bs node prim e) ∧
  ∀ bs' e', append_composite_node bs node prim e = Ok (bs', e') → ∃ strs', encodes e' strs'.
Proof.
  intros He. unfold append_composite_node, node_strings. case_bool_decide as Hname; [done|]. split.
  - rewrite len_cons, Z.add_comm. eapply spends_bind; [apply get_key_spends|apply len_nonneg|].
    intros [key e1] Hk. destruct (get_key_encodes _ _ _ _ _ He Hk) as (s1 & E1 & _).
    rewrite <- (Z.add_0_r (len _)).
    eapply spends_bind; [by eapply encode_instructions_spends|done|]. intros [] _. cbn. lia.
  - intros bs' e' H. apply bind_Ok_iff in H as ([key e1] & Hk & H).
    apply bind_Ok_iff in H as ([ib e2] & Hib & [_ <-]%Ok_pair_inj).
    destruct (get_key_encodes _ _ _ _ _ He Hk) as (s1 & E1 & _).
    destruct (encode_instructions_linked _ _ _ _ _ E1 Hib) as (_ & s2 & _ & E2 & _). eauto.
Qed.

Lemma additional_nodes_spend nodes bs e names strs :
  encodes e strs →
  spends (λ st, unique_key st.1.2) (unique_key e) (len (nodes ≫= node_strings))
    (try_fold append_additional_node (bs, e, names) nodes).
Proof.
  revert bs e names strs. induction nodes as [|node nodes IH]; intros bs e names strs He;
    [cbn; unfold len; cbn; lia|]. rewrite bind_cons, len_app. cbn [try_fold append_additional_node].
  destruct (append_composite_node_spends bs node false e strs He) as [Hp He'].
  case_bool_decide as Hname; [done|].
  eapply (spends_bind (λ st, unique_key st.1.2)); [|apply len_nonneg|].
  - rewrite <- (Z.add_0_r (len _)). eapply spends_bind; [exact Hp|done|]. intros [] _. cbn. lia.
  - intros [[bs1 e1] names1] H. apply bind_Ok_iff in H as ([bs2 e2] & H2 & [= <- <- <-]).
    destruct (He' _ _ H2) as [s' E']. by eapply IH.
Qed.

(** The strings that the rules put in the symbol table. *)
Definition rules_strings (rules : CompiledBindRules) : list rstring :=
  match rules with
  | Bind r => code_strings (code (instructions r))
  | CompositeBind r =>
    device_name r :: (primary_node r :: additional_nodes r) ≫= node_strings
  end.

(** C20: encoding rules that mention fewer than 2^32 - 1 strings never panics, in
    the old format, the current format and for composites: the offsets of jumps
    never underflow and the bytes to patch are always there.  The bound on the
    strings is what the counter of symbol keys, a [u32], needs: each string
    mentioned takes at most one key. *)
Theorem encode_to_bytecode_no_panic rules :
  len (rules_strings rules) + 1 < u32_size → no_panic (encode_to_bytecode rules).
Proof.
  destruct rules as [r|r]; cbn [encode_to_bytecode rules_strings]; intros Hlen.
  - destruct (use_new_bytecode r).
    + unfold encode_to_bytecode_v2. apply bind_no_panic; [|by intros []].
      eapply spends_no_panic; [eapply encode_instructions_spends, new_encoder_encodes|].
      change (unique_key new_encoder) with 1. lia.
    + unfold encode_to_bytecode_v1. apply bind_no_panic; [|by intros].
      apply try_map_no_panic. intros. apply encode_instruction_no_panic.
  - unfold encode_composite_to_bytecode. case_bool_decide; [done|].
    rewrite len_cons, bind_cons, len_app in Hlen.
    pose proof (len_nonneg (node_strings (primary_node r))).
    pose proof (len_nonneg (additional_nodes r ≫= node_strings)).
    pose proof (get_key_spends new_encoder (device_name r)) as Sk.
    change (unique_key new_encoder) with 1 in Sk.
    apply bind_no_panic; [eapply spends_no_panic; [exact Sk|lia]|]. intros [id e] Hid.
    rewrite Hid in Sk. cbn in Sk.
    destruct (get_key_encodes _ _ _ _ _ new_encoder_encodes Hid) as (s1 & E1 & _).
    destruct (append_composite_node_spends (to_le_bytes 4 id) (primary_node r) true e s1 E1) as [Sp He].
    apply bind_no_panic; [eapply spends_no_panic; [exact Sp|lia]|]. intros [bs e2] H2.
    rewrite H2 in Sp. cbn in Sp. destruct (He _ _ H2) as [s2 E2].
    apply bind_no_panic; [|by intros [[] ?]].
    eapply spends_no_panic; [by eapply additional_nodes_spend|lia].
Qed.

(** ** Compiled rules encode *)

(** The code of the current format has no [Match] instruction. *)
Lemma shape_no_match table vals info c :
  shape table vals info → to_instruction (sym_instruction info) ≠ Match c.
Proof. destruct 1; cbn; unfold if_jump; by repeat case_match. Qed.

Definition instruction_condition_typed (i : Instruction) : Prop :=
  match i with
  | Abort c | Goto c _ | Match c => condition_typed c
  | Label _ => True
  end.

#[export] Instance instruction_condition_typed_dec i : Decision (instruction_condition_typed i).
Proof. destruct i; cbn; apply _. Defined.

Lemma shapes_typed table vals insts :
  Forall (shape table vals) insts → Forall instruction_condition_typed (code insts) →
  Forall instruction_typed (code insts).
Proof.
  induction 1 as [|info insts Hi Hs IH]; cbn [code map]; [done|].
  intros [Ht Hts]%Forall_cons. constructor; [|by apply IH].
  destruct (to_instruction _) eqn:Heq; try done. by eapply shape_no_match in Heq.
Qed.

Lemma well_labelled_cons i insts :
  (∀ l, i ≠ Label l) → (∀ c l, i ≠ Goto c l) → well_labelled insts → well_labelled (i :: insts).
Proof.
  intros Hl Hg [Hu Hf]. split.
  - intros [|j] [|k] l; cbn; intros Hj Hk; simplify_eq; try (by destruct (Hl l)).
    f_equal. by eapply Hu.
  - intros [|j] c l; cbn; intros Hj; simplify_eq; [by destruct (Hg c l)|].
    destruct (Hf _ _ _ Hj) as (k & ? & ?). exists (S k). split; [lia|done].
Qed.

(** C18: bind rules compiled to the current format encode, as long as every
    comparison is between a key and a value of the key's type, the strings fit
    in the symbol table and the code has at most 2^32 / 15 instructions.  The
    labels and jumps the compiler emits are never the cause of an error. *)
Theorem compile_bind_encodes `{!HashSetOrder nat} rules_str libraries lint disable rules :
  compile_bind rules_str libraries lint disable true = Ok rules →
  Forall instruction_condition_typed (code (instructions rules)) →
  Forall short (code_strings (code (instructions rules))) →
  15 * len (code (instructions rules)) < u32_size →
  ∃ bc, encode_to_bytecode (Bind rules) = Ok bc.
Proof.
  intros H Ht Hs Hlen. unfold compile_bind in H.
  apply bind_Ok_iff in H as (ast & _ & H). apply bind_Ok_iff in H as (table & _ & H).
  apply bind_Ok_iff in H as (insts & Hi & [= <-]). cbn [instructions encode_to_bytecode use_new_bytecode] in *.
  destruct (compile_statements_shapes _ _ _ _ Hi) as (body & Hb & Hshape).
  rewrite app_nil_r in Hb. subst body.
  pose proof (compile_statements_well_labelled _ _ _ Hi) as Hw.
  unfold encode_to_bytecode_v2. cbn [instructions].
  destruct (encode_instructions_succeeds (if disable then disable_autobind :: insts else insts)
    new_encoder [] new_encoder_encodes) as (bs & e & ->); [| |cbn; eauto].
  2:{ pose proof (code_strings_length
        (code (if disable then disable_autobind :: insts else insts))) as Hcs.
      change (unique_key new_encoder) with 1. unfold u32_size in *. lia. }
  split_and!; [| |done|done].
  - destruct disable; [|done]. by apply well_labelled_cons.
  - destruct disable; [|by eapply shapes_typed].
    cbn [code map] in *. apply Forall_cons in Ht as [_ Ht]. constructor; [|by eapply shapes_typed].
    by eexists.
Qed.
End encode.

Lemma encode_to_bytecode_no_panic_witness :
  no_panic (encode_to_bytecode (CompositeBind sample_composite_bind)).
Proof. apply encode_to_bytecode_no_panic. vm_compute. reflexivity. Defined.

Lemma compile_bind_encodes_witness : ∃ bc, encode_to_bytecode (Bind sample_bind) = Ok bc.
Proof.
  apply (compile_bind_encodes sample_rules [sample_library] true true).
  - sample_ok.
  - sample_decide.
  - sample_decide.
  - vm_compute. reflexivity.
Defined.
