(* ===== verification/Debugger.v ===== *)
(** The debugger of the old bytecode format
    ([src/devices/lib/bind/src/debugger/debugger.rs]).  The lines the logging
    functions print are returned; the two warnings of [get_device_property] are
    not modelled, but the error that formatting one of them can raise is. *)
From Stdlib Require Import ZArith Lia.
From stdpp Require Import base gmap strings countable list.
From S2P Require Import Prelude Format SymbolTable Instruction EncodeV1.
Local Open Scope Z_scope.

Inductive DebuggerError :=
| BindFlagsNotSupported
| InvalidCondition (z : Z)
| IncorrectCondition
| InvalidOperation (z : Z)
| InvalidAstLocation (z : Z)
| IncorrectAstLocation
| DE_MissingLabel
| MissingBindProtocol
| NoOutcome
| DuplicateKey (k : Z)
| InvalidDeprecatedKey (k : Z).

Inductive DebuggerOutput :=
| Out_ConditionStatement (key : Z) (condition : RawCondition) (success : bool) (line : Z)
| Out_FalseStatement (line : Z)
| Out_AcceptStatementSuccess (key value line : Z)
| Out_AcceptStatementFailure (key line : Z)
| Out_IfCondition (key : Z) (condition : RawCondition) (success : bool) (line : Z).

#[export] Instance DebuggerError_eq_dec : EqDecision DebuggerError.
Proof. solve_decision. Defined.
#[export] Instance DebuggerOutput_eq_dec : EqDecision DebuggerOutput.
Proof. solve_decision. Defined.

Abbreviation DevicePropertyMap := (gmap Z Z).

Definition construct_property_map (properties : list DeviceProperty) :
    outcome DebuggerError DevicePropertyMap :=
  try_fold (λ (m : DevicePropertyMap) p,
    match m !! prop_key p with
    | Some _ => Err (DuplicateKey (prop_key p))
    | None => Ok (<[prop_key p := prop_value p]> m)
    end) ∅ properties.

Definition key_string (key : Z) : outcome DebuggerError rstring :=
  match get_deprecated_key_identifiers !! key with
  | Some identifier =>
    Ok (str "`" ++ identifier ++ str "` [" ++ fmt_hex_width 6 key ++ str "]")
  | None => Err (InvalidDeprecatedKey key)
  end.

(** [condition_needs_actual_value]. *)
Definition condition_needs_actual_value (success : bool) (condition : RawCondition) :
    outcome DebuggerError bool :=
  match condition with
  | RC_Equal => Ok (negb success)
  | RC_NotEqual => Ok success
  | RC_Always => Err IncorrectCondition
  end.

Section debugger.
Context (properties : DevicePropertyMap).

(** A missing property is 0, except [BIND_PROTOCOL], which is an error. *)
Definition get_device_property (key : Z) : outcome DebuggerError DeviceProperty :=
  match properties !! key with
  | Some value => Ok (mkProperty key value)
  | None =>
    if key =? BIND_PROTOCOL then Err MissingBindProtocol else
    if key =? BIND_AUTOBIND then Ok (mkProperty BIND_AUTOBIND 0) else
    _ ← key_string key;
    Ok (mkProperty key 0)
  end.

Definition flip (condition : RawCondition) : outcome DebuggerError RawCondition :=
  match condition with
  | RC_Equal => Ok RC_NotEqual
  | RC_NotEqual => Ok RC_Equal
  | RC_Always => Err IncorrectCondition
  end.

(** What [output_instruction] appends to the output. *)
Definition output_instruction (instruction : RawInstruction) (condition_succeeds : bool) :
    outcome DebuggerError (list DebuggerOutput) :=
  condition ← ok_or (RawCondition_from_u32 (raw_condition instruction))
                (InvalidCondition (raw_condition instruction));
  operation ← ok_or (RawOpV1_from_u32 (raw_operation instruction))
                (InvalidOperation (raw_operation instruction));
  ast_location ← ok_or (RawAstLocation_from_u32 (raw_ast_location instruction))
                   (InvalidAstLocation (raw_ast_location instruction));
  match operation, condition with
  | V1_Abort, RC_Equal | V1_Abort, RC_NotEqual =>
    if negb (bool_decide (ast_location = Loc_ConditionStatement)) then Err IncorrectAstLocation else
    condition ← flip condition;
    Ok [Out_ConditionStatement (parameter_b instruction) condition (negb condition_succeeds)
          (raw_line instruction)]
  | V1_Abort, RC_Always =>
    match ast_location with
    | Loc_AcceptStatementFailure =>
      Ok [Out_AcceptStatementFailure (raw_extra instruction) (raw_line instruction)]
    | Loc_FalseStatement => Ok [Out_FalseStatement (raw_line instruction)]
    | _ => Err IncorrectAstLocation
    end
  | V1_Goto, RC_Equal =>
    match ast_location with
    | Loc_AcceptStatementValue =>
      Ok (if condition_succeeds
          then [Out_AcceptStatementSuccess (parameter_b instruction) (raw_value instruction)
                  (raw_line instruction)]
          else [])
    | Loc_IfCondition =>
      Ok [Out_IfCondition (parameter_b instruction) RC_NotEqual (negb condition_succeeds)
            (raw_line instruction)]
    | _ => Err IncorrectAstLocation
    end
  | V1_Goto, RC_NotEqual =>
    if negb (bool_decide (ast_location = Loc_IfCondition)) then Err IncorrectAstLocation else
    Ok [Out_IfCondition (parameter_b instruction) RC_Equal (negb condition_succeeds)
          (raw_line instruction)]
  | _, _ => Ok []
  end.

(** The condition of an instruction, with the properties matched so far. *)
Definition evaluate_condition (instruction : RawInstruction) (condition : RawCondition)
    (matched_properties : gset DeviceProperty) :
    outcome DebuggerError (bool * gset DeviceProperty) :=
  if bool_decide (condition = RC_Always) then Ok (true, matched_properties) else
  let key := parameter_b instruction in
  if key =? BIND_FLAGS then Err BindFlagsNotSupported else
  device_property ← get_device_property key;
  let matched_properties := {[device_property]} ∪ matched_properties in
  match condition with
  | RC_Equal => Ok (prop_value device_property =? raw_value instruction, matched_properties)
  | RC_NotEqual =>
    Ok (negb (prop_value device_property =? raw_value instruction), matched_properties)
  | RC_Always => Panic
  end.

(** [evaluate_bind_rules]: [jump] is the label being looked for after a taken
    jump, [output] the output so far. *)
Fixpoint evaluate_bind_rules (jump : option Z) (instructions : list RawInstruction)
    (matched_properties : gset DeviceProperty) (output : list DebuggerOutput) :
    outcome DebuggerError (option (gset DeviceProperty) * list DebuggerOutput) :=
  match instructions with
  | [] => match jump with Some _ => Err DE_MissingLabel | None => Err NoOutcome end
  | instruction :: rest =>
    match jump with
    | Some label =>
      if bool_decide (RawOpV1_from_u32 (raw_operation instruction) = Some V1_Label) &&
         (parameter_a instruction =? label)
      then evaluate_bind_rules None rest matched_properties output
      else evaluate_bind_rules jump rest matched_properties output
    | None =>
      condition ← ok_or (RawCondition_from_u32 (raw_condition instruction))
                    (InvalidCondition (raw_condition instruction));
      operation ← ok_or (RawOpV1_from_u32 (raw_operation instruction))
                    (InvalidOperation (raw_operation instruction));
      '(condition_succeeds, matched_properties) ←
        evaluate_condition instruction condition matched_properties;
      out ← output_instruction instruction condition_succeeds;
      let output := output ++ out in
      if negb condition_succeeds then evaluate_bind_rules None rest matched_properties output else
      match operation with
      | V1_Abort => Ok (None, output)
      | V1_Match => Ok (Some matched_properties, output)
      | V1_Goto => evaluate_bind_rules (Some (parameter_a instruction)) rest matched_properties output
      | V1_Label => evaluate_bind_rules None rest matched_properties output
      end
    end
  end.

(** ** Logging *)

Definition actual_value_string (key : Z) : outcome DebuggerError rstring :=
  match properties !! key with
  | Some value =>
    k ← key_string key;
    Ok (str "Actual value of " ++ k ++ str " was " ++ fmt_hex_width 10 value ++ str ".")
  | None => k ← key_string key; Ok (str "Device had no value for " ++ k ++ str ".")
  end.

Definition outcome_string (success : bool) : rstring :=
  if success then str "succeeded" else str "failed".

(** The line with the actual value, when [condition_needs_actual_value]. *)
Definition log_actual_value (key : Z) (condition : RawCondition) (success : bool) :
    outcome DebuggerError (list rstring) :=
  needs ← condition_needs_actual_value success condition;
  if (needs : bool) then s ← actual_value_string key; Ok [9 :: s] else Ok [].

Definition log_condition_statement (key : Z) (condition : RawCondition) (success : bool) (line : Z) :
    outcome DebuggerError (list rstring) :=
  let first := str "Line " ++ fmt_dec line ++ str ": Condition statement " ++
               outcome_string success ++ str "." in
  rest ← log_actual_value key condition success;
  Ok (first :: rest).

Definition log_false_statement (line : Z) : list rstring :=
  [str "Line " ++ fmt_dec line ++ str ": False statement reached."].

Definition log_accept_statement_success (key value line : Z) :
    outcome DebuggerError (list rstring) :=
  k ← key_string key;
  Ok [str "Line " ++ fmt_dec line ++ str ": Accept statement succeeded."; 
      9 :: str "The value of " ++ k ++ str " was " ++ fmt_hex_width 10 value ++ str "."].

Definition log_accept_statement_failure (key line : Z) : outcome DebuggerError (list rstring) :=
  s ← actual_value_string key;
  Ok [str "Line " ++ fmt_dec line ++ str ": Accept statement failed."; 9 :: s].

Definition log_if_condition (key : Z) (condition : RawCondition) (success : bool) (line : Z) :
    outcome DebuggerError (list rstring) :=
  let first := str "Line " ++ fmt_dec line ++ str ": If statement condition " ++
               outcome_string success ++ str "." in
  rest ← log_actual_value key condition success;
  Ok (first :: rest).

(** [log_output]: the lines printed. *)
Definition log_output (output : list DebuggerOutput) : outcome DebuggerError (list rstring) :=
  lines ← try_map (λ o,
    match o with
    | Out_ConditionStatement key condition success line =>
      log_condition_statement key condition success line
    | Out_FalseStatement line => Ok (log_false_statement line)
    | Out_AcceptStatementSuccess key value line => log_accept_statement_success key value line
    | Out_AcceptStatementFailure key line => log_accept_statement_failure key line
    | Out_IfCondition key condition success line => log_if_condition key condition success line
    end) output;
  Ok (concat lines).
End debugger.

(** [debug]. *)
Definition debug (instructions : list RawInstruction) (properties : list DeviceProperty) :
    outcome DebuggerError (option (gset DeviceProperty)) :=
  map ← construct_property_map properties;
  '(matched_properties, output) ← evaluate_bind_rules map None instructions ∅ [];
  _ ← log_output map output;
  Ok matched_properties.
