(* ===== verification/OfflineDebugger.v ===== *)
(** The offline debugger
    ([src/devices/lib/bind/src/debugger/offline_debugger.rs]): it runs the
    symbolic instructions of compiled bind rules on a device specification and
    reports which statements succeeded.  The lines the logging functions print
    are returned. *)
From Stdlib Require Import ZArith Lia.
From stdpp Require Import base gmap strings countable list.
From S2P Require Import Prelude Format BindLibrary ParserCommon BindRules SymbolTable Instruction.
From S2P Require Import DeviceSpecification.
Local Open Scope Z_scope.

Inductive OfflineError :=
| OE_ParserError (e : BindParserError)
| OE_CompilerError (e : CompilerError)
| OE_DuplicateKey (i : CompoundIdentifier)
| OE_MissingLabel
| OE_NoOutcome
| OE_IncorrectAstLocation
| OE_InvalidAstLocation
| OE_UnknownKey (i : CompoundIdentifier)
| OE_InvalidValueSymbol (s : Symbol).

Record DeviceValue := mkDeviceValue {
  dv_symbol : option Symbol;
  dv_identifier : option CompoundIdentifier;
}.

Abbreviation OfflinePropertyMap := (gmap Symbol DeviceValue).

(** [DebuggerOutput]; the references are the values they point to. *)
Inductive OfflineOutput :=
| OO_ConditionStatement (statement : Statement) (success : bool)
| OO_FalseStatement (statement : Statement)
| OO_AcceptStatementSuccess (identifier : CompoundIdentifier) (value : Value)
    (value_symbol : Symbol) (span : Span)
| OO_AcceptStatementFailure (identifier : CompoundIdentifier) (span : Span)
| OO_IfCondition (condition : Condition) (success : bool).

(** One round of the loop of [construct_property_map]; the state is the map and
    the keys seen. *)
Definition add_device_property (symbol_table : SymbolTable)
    (st : OfflinePropertyMap * gset CompoundIdentifier) (p : Property) :
    outcome OfflineError (OfflinePropertyMap * gset CompoundIdentifier) :=
  let '(property_map, keys_seen) := st in
  if bool_decide (property_key p ∈ keys_seen) then Err (OE_DuplicateKey (property_key p)) else
  let keys_seen := {[property_key p]} ∪ keys_seen in
  match symbol_table !! property_key p with
  | Some key_symbol =>
    let device_value :=
      match property_value p with
      | NumericLiteral n => mkDeviceValue (Some (NumberValue n)) None
      | StringLiteral s => mkDeviceValue (Some (StringValue s)) None
      | BoolLiteral b => mkDeviceValue (Some (BoolValue b)) None
      | Identifier identifier =>
        match symbol_table !! identifier with
        | Some symbol => mkDeviceValue (Some symbol) (Some identifier)
        | None => mkDeviceValue None (Some identifier)
        end
      end in
    Ok (<[key_symbol := device_value]> property_map, keys_seen)
  | None => Ok (property_map, keys_seen)
  end.

(** [Debugger::construct_property_map]. *)
Definition construct_offline_map (properties : list Property) (symbol_table : SymbolTable) :
    outcome OfflineError OfflinePropertyMap :=
  '(property_map, _) ← try_fold (add_device_property symbol_table) (∅, ∅) properties;
  Ok property_map.

Section debugger.
Context (device_properties : OfflinePropertyMap) (symbol_table : SymbolTable).

Definition device_property_matches (lhs rhs : Symbol) : bool :=
  match device_properties !! lhs with
  | Some (mkDeviceValue (Some value_symbol) _) => bool_decide (value_symbol = rhs)
  | _ => false
  end.

(** What the four output functions append to the output. *)
Definition output_abort_if (location : option AstLocation) (aborts : bool) :
    outcome OfflineError (list OfflineOutput) :=
  match location with
  | Some (AL_ConditionStatement statement) => Ok [OO_ConditionStatement statement (negb aborts)]
  | _ => Err OE_IncorrectAstLocation
  end.

Definition output_jump_if_equal (location : option AstLocation) (rhs : Symbol)
    (jump_succeeds : bool) : outcome OfflineError (list OfflineOutput) :=
  match location with
  | Some (AL_AcceptStatementValue identifier value span) =>
    Ok (if jump_succeeds then [OO_AcceptStatementSuccess identifier value rhs span] else [])
  | Some (AL_IfCondition condition) => Ok [OO_IfCondition condition (negb jump_succeeds)]
  | _ => Err OE_IncorrectAstLocation
  end.

Definition output_jump_if_not_equal (location : option AstLocation) (jump_succeeds : bool) :
    outcome OfflineError (list OfflineOutput) :=
  match location with
  | Some (AL_IfCondition condition) => Ok [OO_IfCondition condition (negb jump_succeeds)]
  | _ => Err OE_IncorrectAstLocation
  end.

Definition output_unconditional_abort (location : option AstLocation) :
    outcome OfflineError (list OfflineOutput) :=
  match location with
  | Some (AL_FalseStatement statement) => Ok [OO_FalseStatement statement]
  | Some (AL_AcceptStatementFailure identifier _ span) =>
    Ok [OO_AcceptStatementFailure identifier span]
  | _ => Err OE_IncorrectAstLocation
  end.

(** [evaluate_bind_rules]: [jump] is the label being looked for after a taken
    jump. *)
Fixpoint evaluate_offline (jump : option Z) (instructions : list SymbolicInstructionInfo)
    (output : list OfflineOutput) : outcome OfflineError (bool * list OfflineOutput) :=
  match instructions with
  | [] => match jump with Some _ => Err OE_MissingLabel | None => Err OE_NoOutcome end
  | instruction :: rest =>
    match jump with
    | Some label =>
      if bool_decide (sym_instruction instruction = SLabel label)
      then evaluate_offline None rest output
      else evaluate_offline jump rest output
    | None =>
      match sym_instruction instruction with
      | AbortIfEqual lhs rhs =>
        let aborts := device_property_matches lhs rhs in
        out ← output_abort_if (location instruction) aborts;
        if aborts then Ok (false, output ++ out) else evaluate_offline None rest (output ++ out)
      | AbortIfNotEqual lhs rhs =>
        let aborts := negb (device_property_matches lhs rhs) in
        out ← output_abort_if (location instruction) aborts;
        if aborts then Ok (false, output ++ out) else evaluate_offline None rest (output ++ out)
      | SLabel _ => evaluate_offline None rest output
      | UnconditionalJump label => evaluate_offline (Some label) rest output
      | JumpIfEqual lhs rhs label =>
        let jump_succeeds := device_property_matches lhs rhs in
        out ← output_jump_if_equal (location instruction) rhs jump_succeeds;
        evaluate_offline (if jump_succeeds then Some label else None) rest (output ++ out)
      | JumpIfNotEqual lhs rhs label =>
        let jump_succeeds := negb (device_property_matches lhs rhs) in
        out ← output_jump_if_not_equal (location instruction) jump_succeeds;
        evaluate_offline (if jump_succeeds then Some label else None) rest (output ++ out)
      | UnconditionalAbort =>
        out ← output_unconditional_abort (location instruction);
        Ok (false, output ++ out)
      | UnconditionalBind => Ok (true, output)
      end
    end
  end.

(** ** Logging *)

Definition quoted (s : rstring) : rstring := 0x22 :: s ++ [0x22].
Definition backquoted (s : rstring) : rstring := str "`" ++ s ++ str "`".
Definition bracketed (s : rstring) : rstring := str "[" ++ s ++ str "]".

Definition value_symbol_string (symbol : Symbol) : outcome OfflineError rstring :=
  match symbol with
  | DeprecatedKey _ | Key _ _ => Err (OE_InvalidValueSymbol symbol)
  | NumberValue n => Ok (str "0x" ++ fmt_hex n)
  | StringValue s => Ok (quoted s)
  | BoolValue b => Ok (if b then str "true" else str "false")
  | EnumValue s => Ok (quoted s)
  end.

Definition condition_needs_value (success : bool) (op : ConditionOp) : bool :=
  match op with
  | Equals => negb success
  | NotEquals => success
  end.

Definition offline_value_string (key_identifier : CompoundIdentifier) :
    outcome OfflineError rstring :=
  key_symbol ← ok_or (symbol_table !! key_identifier) (OE_UnknownKey key_identifier);
  let value := default (mkDeviceValue None None) (device_properties !! key_symbol) in
  let key := backquoted (to_string key_identifier) in
  match dv_symbol value, dv_identifier value with
  | Some symbol, Some identifier =>
    s ← value_symbol_string symbol;
    Ok (str "Actual value of " ++ key ++ str " was " ++ backquoted (to_string identifier) ++
        str " " ++ bracketed s ++ str ".")
  | Some symbol, None =>
    s ← value_symbol_string symbol;
    Ok (str "Actual value of " ++ key ++ str " was literal " ++ s ++ str ".")
  | None, Some identifier =>
    Ok (str "Actual value of " ++ key ++ str " was " ++ backquoted (to_string identifier) ++ str ".")
  | None, None => Ok (str "Device had no value for " ++ key ++ str ".")
  end.

Definition outcome_text (success : bool) : rstring :=
  if success then str "succeeded" else str "failed".

(** The line of a condition, and its actual value when needed. *)
Definition log_condition (what : rstring) (span : Span) (key : CompoundIdentifier)
    (op : ConditionOp) (success : bool) : outcome OfflineError (list rstring) :=
  let first := str "Line " ++ fmt_dec (span_line span) ++ what ++ outcome_text success ++
               str ": " ++ span_fragment span in
  if condition_needs_value success op
  then s ← offline_value_string key; Ok [first; 9 :: s] else Ok [first].

Definition log_offline_condition_statement (statement : Statement) (success : bool) :
    outcome OfflineError (list rstring) :=
  match statement with
  | ConditionStatement span condition =>
    log_condition (str ": Condition statement ") span (lhs condition) (op condition) success
  | _ => Err OE_InvalidAstLocation
  end.

Definition log_abort_statement (statement : Statement) : list rstring :=
  match statement with
  | False_ span => [str "Line " ++ fmt_dec (span_line span) ++ str ": Abort statement reached."]
  | _ => []
  end.

(** The [expect] is a panic. *)
Definition log_offline_accept_success (identifier : CompoundIdentifier) (value : Value)
    (value_symbol : Symbol) (span : Span) : outcome OfflineError (list rstring) :=
  let value_identifier_prog :=
    match value with Identifier identifier => Some identifier | _ => None end in
  key_symbol ← ok_or (symbol_table !! identifier) (OE_UnknownKey identifier);
  match device_properties !! key_symbol with
  | None => Panic
  | Some device_value =>
    value_literal ← value_symbol_string value_symbol;
    let value_string :=
      match value_identifier_prog, dv_identifier device_value with
      | Some identifier_prog, Some identifier_value =>
        if bool_decide (identifier_prog = identifier_value)
        then backquoted (to_string identifier_prog) ++ str " " ++ bracketed value_literal
        else backquoted (to_string identifier_prog) ++ str " (" ++
             backquoted (to_string identifier_value) ++ str ") " ++ bracketed value_literal
      | Some identifier_prog, None =>
        backquoted (to_string identifier_prog) ++ str " " ++ bracketed value_literal
      | None, Some identifier_value =>
        backquoted (to_string identifier_value) ++ str " " ++ bracketed value_literal
      | None, None => value_literal
      end in
    Ok [str "Line " ++ fmt_dec (span_line span) ++ str ": Accept statement succeeded.";
        9 :: str "Value of " ++ backquoted (to_string identifier) ++ str " was " ++ value_string ++
        str "."]
  end.

Definition log_offline_accept_failure (identifier : CompoundIdentifier) (span : Span) :
    outcome OfflineError (list rstring) :=
  s ← offline_value_string identifier;
  Ok [str "Line " ++ fmt_dec (span_line span) ++ str ": Accept statement failed."; 9 :: s].

Definition log_offline_if_condition (condition : Condition) (success : bool) :
    outcome OfflineError (list rstring) :=
  log_condition (str ": If statement condition ") (cond_span condition) (lhs condition)
    (op condition) success.

Definition log_offline (output : list OfflineOutput) : outcome OfflineError (list rstring) :=
  lines ← try_map (λ o,
    match o with
    | OO_ConditionStatement statement success => log_offline_condition_statement statement success
    | OO_FalseStatement statement => Ok (log_abort_statement statement)
    | OO_AcceptStatementSuccess identifier value value_symbol span =>
      log_offline_accept_success identifier value value_symbol span
    | OO_AcceptStatementFailure identifier span => log_offline_accept_failure identifier span
    | OO_IfCondition condition success => log_offline_if_condition condition success
    end) output;
  Ok (concat lines).
End debugger.

Definition debug_from_device_specification (symbol_table : SymbolTable)
    (instructions : list SymbolicInstructionInfo) (device_specification : DeviceSpecification) :
    outcome OfflineError bool :=
  device_properties ← construct_offline_map (properties device_specification) symbol_table;
  '(binds, output) ← evaluate_offline device_properties None instructions [];
  _ ← log_offline device_properties symbol_table output;
  Ok binds.

Definition debug_from_str (bind_rules : BindRules) (device_file : rstring) : outcome OfflineError bool :=
  device_specification ← map_err OE_ParserError (DeviceSpecification_from_str device_file);
  debug_from_device_specification (symbol_table bind_rules) (instructions bind_rules) device_specification.
