(* ===== verification/OfflineDebuggerCorrect.v ===== *)
(** The offline debugger agrees with the meaning of the statements, and so with
    the matcher; on compiled rules its [expect] cannot fail. *)
From Stdlib Require Import ZArith Lia.
From stdpp Require Import base gmap strings countable list.
From S2P Require Import Prelude Format BindLibrary ParserCommon BindRules SymbolTable Instruction.
From S2P Require Import Bytecode MatchBind Compiler InstructionEncoder EncodeV2 Semantics.
From S2P Require Import CompilerCorrect CompilerShapes MatchCorrect BytecodeCorrect EndToEnd.
From S2P Require Import DeviceSpecification ParserTotal OfflineDebugger Samples.
Local Open Scope Z_scope.

(** ** Decisions *)

Section agreement.
Context (m : OfflinePropertyMap) (props : DeviceProperties).

(** The debugger's map and the matcher's properties give the same value to the
    keys a program tests. *)
Definition key_agrees (l : Symbol) : Prop :=
  match property_of l with
  | Some k => props !! k = (m !! l ≫= dv_symbol)
  | None => True
  end.

#[export] Instance key_agrees_dec l : Decision (key_agrees l).
Proof. unfold key_agrees. destruct (property_of l); apply _. Defined.

Definition device_agrees (insts : list Instruction) : Prop := Forall key_agrees (code_symbols insts).

Lemma property_test_matches insts (eq : bool) l r b :
  device_agrees insts → l ∈ code_symbols insts → property_test props eq l r = Ok b →
  b = if eq then device_property_matches m l r else negb (device_property_matches m l r).
Proof.
  intros Hag Hl. unfold property_test, device_property_matches.
  destruct (property_of l) as [k|] eqn:Hk; [|done].
  unfold device_agrees in Hag. rewrite Forall_forall in Hag. apply Hag in Hl.
  unfold key_agrees in Hl. rewrite Hk in Hl. rewrite Hl.
  destruct (m !! l) as [[[v|] i]|]; cbn; [|by intros [= <-]; destruct eq..].
  case_match; [done|]. intros [= <-]. by destruct eq.
Qed.

Lemma device_agrees_tail i insts : device_agrees (i :: insts) → device_agrees insts.
Proof. unfold device_agrees, code_symbols. rewrite bind_cons. by intros [_ ?]%Forall_app. Qed.

(** A test the meaning decides is decided alike by the debugger. *)
Lemma head_test_matches i insts c (eq : bool) l r b :
  device_agrees (i :: insts) → (i = Abort c ∨ ∃ lbl, i = Goto c lbl) →
  c = (if eq then Instruction.Equal l r else NotEqual l r) → property_test props eq l r = Ok b →
  b = if eq then device_property_matches m l r else negb (device_property_matches m l r).
Proof.
  intros Hag Hi ->. apply (property_test_matches (i :: insts)); [done|].
  unfold code_symbols. rewrite bind_cons. apply elem_of_app. left.
  destruct Hi as [->|[lbl ->]]; destruct eq; constructor.
Qed.

Ltac test_matches Hag Hx :=
  match type of Hx with
  | property_test _ ?e ?l ?r = Ok _ =>
    eapply (head_test_matches _ _ _ e l r) in Hx;
      [|exact Hag|first [left; reflexivity|right; eexists; reflexivity]|reflexivity]
  end.

Definition bind_info : SymbolicInstructionInfo := mkSymInfo None UnconditionalBind.

(** The debugger follows the meaning of the compiled program. *)
Lemma evaluate_offline_exec table vals body jump out b :
  Forall (shape table vals) body → device_agrees (code (body ++ [bind_info])) →
  exec props jump (code (body ++ [bind_info])) = Ok b →
  ∃ out', evaluate_offline m jump (body ++ [bind_info]) out = Ok (b, out').
Proof.
  intros Hbody. revert jump out. induction Hbody as [|info body Hs Hbody IH]; intros jump out Hag H.
  - cbn in H. destruct jump; [done|]. injection H as <-. cbn. eauto.
  - cbn [app code map] in Hag, H. fold (code (body ++ [bind_info])) in Hag, H.
    pose proof (device_agrees_tail _ _ Hag) as Hag'.
    destruct jump as [lbl|].
    + destruct Hs; cbn in *; unfold if_jump in *; try destruct (op cond); cbn in *; try (by apply IH).
      destruct (Z.eqb_spec label lbl) as [->|Hne].
      * rewrite bool_decide_eq_true_2 by done. by apply IH.
      * rewrite bool_decide_eq_false_2 by (by intros [= ->]). by apply IH.
    + destruct Hs as [span cond l r|key v span l r label|key l span|cond l r label|span|label|label];
        unfold if_jump in *; try destruct (op cond); cbn in *;
        try solve [injection H as <-; eauto | eauto];
        apply bind_Ok_iff in H as (x & Hx & H); test_matches Hag Hx; subst x;
        destruct (device_property_matches m l r) eqn:Hmt; cbn in *;
        try (injection H as <-); eauto.
Qed.
End agreement.

(** C28: The offline debugger predicts the matcher.  Take statements whose symbols the
    current bytecode can hold exactly, compiled in both ways without disabled autobind and
    encoded in less than 2^32 bytes, and a device specification whose map gives the tested
    keys the values that the device has.  If the matcher decides [b], so does the debugger:
    its evaluation ends with [b], and it can report nothing else.  When the matcher fails,
    because two values have different types, nothing is said about the debugger. *)
Theorem offline_debugger_agrees `{!HashMapOrder Z LabelInfo} table stmts infos insts bc props spec m b :
  compile_statements table stmts false = Ok infos →
  compile_statements table stmts true = Ok insts →
  encode_to_bytecode_v2 (mkBindRules table insts true) = Ok bc → len bc < u32_size →
  source_satisfies symbol_exact table stmts →
  construct_offline_map (properties spec) table = Ok m → device_agrees m props (code infos) →
  match_bytecode bc props = Ok b →
  (∃ out, evaluate_offline m None infos [] = Ok (b, out)) ∧
  ∀ d, debug_from_device_specification table infos spec = Ok d → d = b.
Proof.
  intros Hi Hn Hbc Hlen Hsrc Hmap Hag Hm.
  assert (∃ out, evaluate_offline m None infos [] = Ok (b, out)) as [out Hout].
  { pose proof (compile_statements_satisfy _ _ _ _ _ Hsrc Hn) as Hex.
    rewrite (match_encoded _ _ _ Hbc Hlen (exact_carried _ Hex)) in Hm.
    cbn [Instruction.instructions] in Hm.
    rewrite exact_truncate in Hm by done.
    rewrite (compile_statements_decide _ _ _ _ props Hn) in Hm.
    rewrite <- (compile_statements_decide _ _ _ _ props Hi) in Hm.
    destruct (compile_statements_shapes _ _ _ _ Hi) as (body & -> & Hbody).
    by eapply evaluate_offline_exec. }
  split; [by exists out|]. intros d. unfold debug_from_device_specification. rewrite Hmap. cbn [mbind outcome_bind].
  rewrite Hout. cbn [mbind outcome_bind]. destruct (log_offline _ _ _); [|done|done]. by intros [= <-].
Qed.

(** ** No panic *)

Section no_panic.
Context (m : OfflinePropertyMap) (table : SymbolTable).

(** A reported success of an [accept] statement has the value it reports. *)
Definition output_valued (o : OfflineOutput) : Prop :=
  match o with
  | OO_AcceptStatementSuccess identifier _ _ _ =>
    ∃ l dv, table !! identifier = Some l ∧ m !! l = Some dv
  | _ => True
  end.

Lemma matches_valued l r : device_property_matches m l r = true → is_Some (m !! l).
Proof. unfold device_property_matches. destruct (m !! l); [by eexists|done]. Qed.

Lemma evaluate_offline_output vals infos jump out b out' :
  Forall (λ i, shape table vals i ∨ i = bind_info ∨ i = disable_autobind) infos →
  evaluate_offline m jump infos out = Ok (b, out') →
  Forall output_valued out → Forall output_valued out'.
Proof.
  intros Hinfos. revert jump out. induction Hinfos as [|info infos Hs _ IH]; intros jump out H Hout.
  - by destruct jump.
  - assert (∀ o jump, evaluate_offline m jump infos (out ++ o) = Ok (b, out') →
      Forall output_valued o → Forall output_valued out') as IHo.
    { intros o j Ho Hv. eapply IH; [exact Ho|]. by apply Forall_app. }
    destruct jump as [lbl|]; cbn in H; [case_match; by eapply IH|].
    destruct Hs as [Hs|[-> | ->]]; [|by injection H as _ <-|done].
    destruct Hs as [span cond l r|key v span l r label Hl|key l span|cond l r label|span|label|label];
      unfold if_jump in *; try destruct (op cond); cbn in H;
      try (by eapply IH); try (injection H as _ <-; apply Forall_app; by repeat constructor);
      destruct (device_property_matches m l r) eqn:Hmt; cbn in H;
      try (injection H as _ <-; apply Forall_app; by repeat constructor);
      (eapply IHo; [exact H|]); repeat constructor; try done.
    apply ok_or_Ok in Hl. destruct (matches_valued _ _ Hmt) as [dv Hdv]. by exists l, dv.
Qed.

Lemma value_symbol_string_no_panic s : no_panic (value_symbol_string s).
Proof. by destruct s. Qed.
#[local] Hint Resolve value_symbol_string_no_panic : outcomes.

Lemma offline_value_string_no_panic i : no_panic (offline_value_string m table i).
Proof. unfold offline_value_string. step_no_panic. repeat case_match; step_no_panic. Qed.
#[local] Hint Resolve offline_value_string_no_panic : outcomes.

Lemma log_offline_no_panic out : Forall output_valued out → no_panic (log_offline m table out).
Proof.
  intros Hout. unfold log_offline. apply bind_no_panic; [|by intros].
  apply try_map_no_panic. intros o Ho. rewrite Forall_forall in Hout. specialize (Hout _ Ho).
  destruct o as [s b|s|i v vs sp|i sp|c b]; cbn.
  - unfold log_offline_condition_statement, log_condition. case_match; step_no_panic.
  - done.
  - destruct Hout as (l & dv & Hl & Hdv). unfold log_offline_accept_success.
    rewrite Hl. cbn. rewrite Hdv. step_no_panic.
  - unfold log_offline_accept_failure. step_no_panic.
  - unfold log_offline_if_condition, log_condition. step_no_panic.
Qed.

Lemma evaluate_offline_no_panic infos jump out : no_panic (evaluate_offline m jump infos out).
Proof.
  revert jump out. induction infos as [|info infos IH]; intros jump out; cbn; [by destruct jump|].
  destruct jump; [case_match; apply IH|].
  destruct (sym_instruction info); try apply IH; try done;
    (apply bind_no_panic;
     [unfold output_abort_if, output_jump_if_equal, output_jump_if_not_equal,
        output_unconditional_abort; by repeat case_match|intros ? _]);
    try case_match; try done; apply IH.
Qed.
End no_panic.

Lemma construct_offline_map_no_panic ps table : no_panic (construct_offline_map ps table).
Proof.
  unfold construct_offline_map. apply bind_no_panic; [|by intros []].
  apply try_fold_no_panic. intros [pm ks] p _. cbn. by repeat case_match.
Qed.

(** The offline debugger never panics on bind rules that compile, whatever
    the text of the device specification, if it is shorter than 2^31 bytes: the [expect]
    in the report of a successful [accept] is unreachable. *)
Theorem debug_from_str_no_panic `{!HashSetOrder nat} rules_str libraries lint disable new rules
    device_file :
  compile_bind rules_str libraries lint disable new = Ok rules → len device_file < 2 ^ 31 →
  no_panic (debug_from_str rules device_file).
Proof.
  intros H Hlen. unfold compile_bind in H.
  apply bind_Ok_iff in H as (ast & _ & H). apply bind_Ok_iff in H as (table & _ & H).
  apply bind_Ok_iff in H as (infos & Hi & [= <-]).
  destruct (compile_statements_shapes _ _ _ _ Hi) as (body & -> & Hbody).
  unfold debug_from_str. apply bind_no_panic.
  { pose proof (DeviceSpecification_from_str_total device_file Hlen). by destruct (DeviceSpecification_from_str _). }
  intros spec _. unfold debug_from_device_specification. cbn [Instruction.symbol_table Instruction.instructions].
  apply bind_no_panic; [apply construct_offline_map_no_panic|]. intros m _.
  apply bind_no_panic; [apply evaluate_offline_no_panic|]. intros [b out] Hout.
  apply bind_no_panic; [|by intros]. eapply log_offline_no_panic, evaluate_offline_output;
    [|exact Hout|constructor].
  assert (Forall (λ i, shape table (block_values (statements ast)) i ∨ i = bind_info ∨ i = disable_autobind)
    (body ++ (if new then [] else [bind_info]))) as Hall.
  { apply Forall_app. split; [eapply Forall_impl; [exact Hbody|by left]|].
    destruct new; constructor; [right; by left|done]. }
  destruct disable; [constructor; [right; by right|exact Hall]|exact Hall].
Qed.

Definition sample_specification : DeviceSpecification :=
  ok_value new_device_specification (DeviceSpecification_from_str sample_device).
Definition sample_offline_map : OfflinePropertyMap :=
  ok_value ∅ (construct_offline_map (properties sample_specification) (Instruction.symbol_table sample_bind)).

Lemma offline_debugger_agrees_witness :
  let infos := ok_value [] (compile_statements (Instruction.symbol_table sample_bind) (statements sample_ast) false) in
  (∃ out, evaluate_offline sample_offline_map None infos [] = Ok (true, out)) ∧
  ∀ d, debug_from_device_specification (Instruction.symbol_table sample_bind) infos sample_specification = Ok d → d = true.
Proof.
  apply (offline_debugger_agrees (Instruction.symbol_table sample_bind) (statements sample_ast) _
    (ok_value [] (compile_statements (Instruction.symbol_table sample_bind) (statements sample_ast) true))
    (ok_value [] (encode_to_bytecode_v2 (mkBindRules (Instruction.symbol_table sample_bind)
       (ok_value [] (compile_statements (Instruction.symbol_table sample_bind) (statements sample_ast) true))
       true)))
    sample_props).
  - sample_ok.
  - sample_ok.
  - sample_ok.
  - vm_compute. reflexivity.
  - sample_decide.
  - sample_ok.
  - sample_decide.
  - vm_compute. reflexivity.
Defined.

Lemma debug_from_str_no_panic_witness : no_panic (debug_from_str sample_bind sample_device).
Proof.
  apply (debug_from_str_no_panic sample_rules [sample_library] true true true); [sample_ok|by vm_compute].
Defined.
