(* ===== verification/DebuggerCorrect.v ===== *)
(** The debugger of the old format agrees with the meaning of the instructions
    it was encoded from, as long as the fields of the format are wide enough:
    labels below 2^8 and keys below 2^16. *)
From Stdlib Require Import ZArith Lia.
From stdpp Require Import base gmap strings countable list.
From S2P Require Import Prelude Format BindLibrary ParserCommon BindRules SymbolTable Instruction.
From S2P Require Import Bytecode MatchBind Compiler Semantics CompilerCorrect CompilerShapes.
From S2P Require Import MatchCorrect BytecodeCorrect EncodeV1 EncodeV1Correct Debugger Samples.
Local Open Scope Z_scope.

(** ** Fields *)

Definition condition_raw (c : InstCondition) : RawCondition :=
  match c with
  | Always => RC_Always
  | Instruction.Equal _ _ => RC_Equal
  | NotEqual _ _ => RC_NotEqual
  end.

Lemma RawOpV1_from_as o : RawOpV1_from_u32 (RawOpV1_as_u32 o) = Some o.
Proof. by destruct o. Qed.

(** What the debugger reads off an encoded instruction. *)
Record reads (info : SymbolicInstructionInfo) (r : RawInstruction) : Prop := {
  rd_condition : RawCondition_from_u32 (raw_condition r) =
    Some (condition_raw (instruction_condition (to_instruction (sym_instruction info))));
  rd_operation : RawOpV1_from_u32 (raw_operation r) =
    Some (instruction_op (to_instruction (sym_instruction info)));
  rd_location : RawAstLocation_from_u32 (raw_ast_location r) =
    Some (ast_location (Instruction.debug (info_to_instruction info)));
  rd_label : parameter_a r = instruction_label (to_instruction (sym_instruction info)) mod 2 ^ 8;
  rd_operands l v : (instruction_condition (to_instruction (sym_instruction info)) =
      Instruction.Equal l v ∨ instruction_condition (to_instruction (sym_instruction info)) = NotEqual l v) →
    ∃ k x, encode_symbol l = Ok k ∧ encode_symbol v = Ok x ∧
      parameter_b r = k mod 2 ^ 16 ∧ raw_value r = x;
}.

Lemma encode_instruction_reads info r :
  encode_instruction (info_to_instruction info) = Ok r →
  Forall symbol_u32 (instruction_symbols (to_instruction (sym_instruction info))) → reads info r.
Proof.
  intros H Hu. set (i := to_instruction (sym_instruction info)) in *.
  assert (condition_u32 (instruction_condition i)) as Hc.
  { destruct i as [[]|[]|[] ?|]; cbn in *; try done; rewrite !Forall_cons in Hu; naive_solver. }
  destruct (encode_instruction_fields _ _ H Hc)
    as (c & b & v & Hcond & _ & Hrc & Hro & Hra & Hrb & Hrv & _ & Hrl & _).
  change (instruction (info_to_instruction info)) with i in *.
  split; fold i; rewrite ?Hrc, ?Hro, ?Hrl, ?Hra, ?RawOpV1_from_as, ?RawAstLocation_from_as; try done.
  - destruct (instruction_condition i); cbn in *; inv_ok; done.
  - intros l x [Heq|Heq]; rewrite Heq in Hcond; cbn in Hcond;
      apply bind_Ok_iff in Hcond as (k & Hk & Hcond); apply bind_Ok_iff in Hcond as (y & Hy & Hcond);
      injection Hcond as _ <- <-; eauto 10.
Qed.

(** ** Decisions *)

Section agreement.
Context (m : DevicePropertyMap) (props : DeviceProperties).

(** The value the debugger uses for a key, when it has one. *)
Definition known_key (k : Z) : Prop :=
  is_u32 k ∧ k < 2 ^ 16 ∧ k ≠ BIND_FLAGS ∧
  (is_Some (m !! k) ∨
   k ≠ BIND_PROTOCOL ∧ (k = BIND_AUTOBIND ∨ is_Some (get_deprecated_key_identifiers !! k))).

(** The keys a program tests are known to the debugger, and the matcher sees
    the same numbers: 0 for a key the device does not have. *)
Definition number_agrees (l : Symbol) : Prop :=
  match l with
  | DeprecatedKey k =>
    known_key k ∧ props !! NumberKey k = Some (NumberValue (default 0 (m !! k)))
  | _ => True
  end.

#[export] Instance number_agrees_dec l : Decision (number_agrees l).
Proof. unfold number_agrees, known_key, is_u32. destruct l; apply _. Defined.

Definition numbers_agree (insts : list Instruction) : Prop := Forall number_agrees (code_symbols insts).

Lemma numbers_agree_key insts k :
  numbers_agree insts → DeprecatedKey k ∈ code_symbols insts →
  known_key k ∧ props !! NumberKey k = Some (NumberValue (default 0 (m !! k))).
Proof. intros H Hk. unfold numbers_agree in H. rewrite Forall_forall in H. exact (H _ Hk). Qed.

Lemma get_device_property_known k :
  known_key k → get_device_property m k = Ok (mkProperty k (default 0 (m !! k))).
Proof.
  intros (_ & _ & _ & Hk). unfold get_device_property. destruct (m !! k) as [v|] eqn:Hm; [done|].
  destruct Hk as [[? ?]|[Hp Hk]]; [done|]. rewrite (proj2 (Z.eqb_neq _ _) Hp).
  destruct (Z.eqb_spec k BIND_AUTOBIND) as [->|Hne]; [done|].
  destruct Hk as [?|[s Hs]]; [done|]. unfold key_string.
  change (@lookup Z (list Z) _ _ k get_deprecated_key_identifiers = Some s) in Hs. by rewrite Hs.
Qed.

Definition labels_narrow (insts : list Instruction) : Prop :=
  Forall (λ i, 0 <= instruction_label i < 2 ^ 8) insts.

Lemma numbers_agree_tail i insts : numbers_agree (i :: insts) → numbers_agree insts.
Proof. unfold numbers_agree, code_symbols. rewrite bind_cons. by intros [_ ?]%Forall_app. Qed.

(** The debugger decides a condition as the meaning does. *)
Lemma evaluate_condition_agrees info r insts ms b :
  reads info r → numbers_agree (to_instruction (sym_instruction info) :: insts) →
  eval_cond props (instruction_condition (to_instruction (sym_instruction info))) = Ok b →
  ∃ ms', evaluate_condition m r
    (condition_raw (instruction_condition (to_instruction (sym_instruction info)))) ms = Ok (b, ms').
Proof.
  intros Hr Hag. set (i := to_instruction (sym_instruction info)) in *.
  assert (∀ eq l v, instruction_condition i = (if eq : bool then Instruction.Equal l v else NotEqual l v) →
    property_test props eq l v = Ok b →
    ∃ ms', evaluate_condition m r (if eq then RC_Equal else RC_NotEqual) ms = Ok (b, ms')) as Htest.
  { intros eq l v Hi Ht. destruct (rd_operands _ _ Hr l v) as (k & x & Hk & Hx & Hb & Hv);
      [fold i; rewrite Hi; destruct eq; auto|].
    unfold property_test in Ht. destruct l as [k'|? ?| | | |]; cbn in Hk, Ht; try done.
    injection Hk as ->.
    assert (DeprecatedKey k ∈ code_symbols (i :: insts)) as Hin.
    { unfold code_symbols. rewrite bind_cons. apply elem_of_app. left.
      destruct i as [c|c|c ?|]; cbn in Hi; subst; destruct eq; try constructor; done. }
    destruct (numbers_agree_key _ _ Hag Hin) as [Hkn Hp]. rewrite Hp in Ht.
    destruct (Hkn) as (Hku & Hk16 & Hflags & _). unfold is_u32 in Hku.
    rewrite Z.mod_small in Hb by lia. unfold evaluate_condition.
    rewrite bool_decide_eq_false_2 by (by destruct eq). rewrite Hb.
    rewrite (proj2 (Z.eqb_neq _ _) Hflags), get_device_property_known by done.
    cbn [mbind outcome_bind prop_value]. rewrite Hv.
    destruct v as [|? ?|n| | |]; cbn in Hx, Ht; try done.
    apply ok_or_Ok in Hx. unfold try_u32 in Hx. case_match; [|done]. injection Hx as ->.
    injection Ht as <-. destruct eq; eexists; do 2 f_equal.
    - by destruct (Z.eqb_spec (default 0 (m !! k)) x) as [->|];
        [rewrite bool_decide_eq_true_2|rewrite bool_decide_eq_false_2 by (by intros [= ?])].
    - f_equal. by destruct (Z.eqb_spec (default 0 (m !! k)) x) as [->|];
        [rewrite bool_decide_eq_true_2|rewrite bool_decide_eq_false_2 by (by intros [= ?])]. }
  destruct (instruction_condition i) as [|l v|l v] eqn:Hi; cbn [eval_cond condition_raw].
  - intros [= <-]. by eexists.
  - by apply (Htest true).
  - by apply (Htest false).
Qed.

(** A located instruction is reported without an error. *)
Lemma output_instruction_shape table vals info r b :
  shape table vals info → reads info r → ∃ out, output_instruction r b = Ok out.
Proof.
  intros Hs Hr. unfold output_instruction.
  rewrite (rd_condition _ _ Hr), (rd_operation _ _ Hr), (rd_location _ _ Hr).
  cbn [ok_or mbind outcome_bind].
  destruct Hs; cbn; unfold if_jump; try destruct (op cond); cbn; eauto.
Qed.

Definition v1_bind : SymbolicInstructionInfo := mkSymInfo None UnconditionalBind.

(** The debugger follows the meaning of the encoded program. *)
Lemma evaluate_bind_rules_exec table vals body raws jump ms out b :
  Forall (shape table vals) body → Forall2 reads (body ++ [v1_bind]) raws →
  numbers_agree (code (body ++ [v1_bind])) → labels_narrow (code (body ++ [v1_bind])) →
  (∀ l, jump = Some l → 0 <= l < 2 ^ 8) →
  exec props jump (code (body ++ [v1_bind])) = Ok b →
  ∃ ms' out', evaluate_bind_rules m jump raws ms out = Ok (if b then Some ms' else None, out').
Proof.
  intros Hbody. revert raws jump ms out.
  induction Hbody as [|info body Hs Hbody IH]; intros raws jump ms out Hr Hag Hlb Hj H.
  - cbn in H. destruct jump; [done|]. injection H as <-.
    apply Forall2_cons_inv_l in Hr as (r & rs & Hr & Hnil & ->).
    apply Forall2_nil_inv_l in Hnil as ->. cbn [evaluate_bind_rules].
    rewrite (rd_condition _ _ Hr), (rd_operation _ _ Hr). cbn.
    unfold output_instruction. rewrite (rd_condition _ _ Hr), (rd_operation _ _ Hr), (rd_location _ _ Hr).
    cbn. eauto.
  - apply Forall2_cons_inv_l in Hr as (r & rs & Hr & Hrs & ->).
    cbn [app code map] in Hag, Hlb, H. fold (code (body ++ [v1_bind])) in Hag, Hlb, H.
    set (i := to_instruction (sym_instruction info)) in *.
    apply Forall_cons in Hlb as [Hli Hlb]. pose proof (numbers_agree_tail _ _ Hag) as Hag'.
    pose proof (rd_label _ _ Hr) as Ha. rewrite Z.mod_small in Ha by exact Hli. fold i in Ha.
    cbn [evaluate_bind_rules]. destruct jump as [lbl|].
    + rewrite (rd_operation _ _ Hr), Ha. fold i.
      destruct i as [c|c|c l|l]; cbn in H |- *; try (by apply IH).
      destruct (Z.eqb_spec l lbl) as [->|]; by apply IH.
    + rewrite (rd_condition _ _ Hr), (rd_operation _ _ Hr). fold i. cbn [ok_or mbind outcome_bind].
      assert (∃ x, eval_cond props (instruction_condition i) = Ok x) as [x Hx].
      { destruct i as [c|c|c l|l]; cbn in H; [apply bind_Ok_iff in H as (x & ? & _); by exists x..|].
        by exists true. }
      destruct (evaluate_condition_agrees _ _ _ ms _ Hr Hag Hx) as [ms' Hms]. fold i in Hms.
      rewrite Hms. cbn [mbind outcome_bind].
      destruct (output_instruction_shape _ _ _ _ x Hs Hr) as [o Ho]. rewrite Ho.
      cbn [mbind outcome_bind].
      destruct i as [c|c|c l|l]; cbn in H, Hx |- *.
      * rewrite Hx in H. cbn in H. destruct x; cbn; [injection H as <-; eauto|by apply IH].
      * rewrite Hx in H. cbn in H. destruct x; cbn; [injection H as <-; eauto|by apply IH].
      * rewrite Hx in H. cbn in H. destruct x; cbn; [|by apply IH].
        rewrite Ha. apply IH; try done. by intros ? [= <-].
      * injection Hx as <-. by apply IH.
Qed.
End agreement.


