(* ===== verification/StateError.v ===== *)
(** Stateful Rust code that can fail: a state monad over [outcome] in which the
    state survives an error, as the fields of [&mut self] do when a method returns
    early with [?].  [wp] is the total-correctness reading of such a computation:
    it does not panic, and its result and final state satisfy one of the two
    postconditions. *)
From Stdlib Require Import ZArith Lia.
From stdpp Require Import base list.
From S2P Require Import Prelude.

Definition st (S E A : Type) : Type := S → S * outcome E A.

#[export] Instance st_ret S E : MRet (st S E) := fun _ a s => (s, Ok a).
#[export] Instance st_bind S E : MBind (st S E) := fun A B f m s =>
  match m s with
  | (s', Ok a) => f a s'
  | (s', Err e) => (s', Err e)
  | (s', Panic) => (s', Panic)
  end.

Section operations.
Context {S E : Type}.

Definition get : st S E S := λ s, (s, Ok s).
Definition put (s : S) : st S E unit := λ _, (s, Ok tt).
Definition modify (f : S → S) : st S E unit := λ s, (f s, Ok tt).
Definition lift {A} (o : outcome E A) : st S E A := λ s, (s, o).
Definition throw {A} (e : E) : st S E A := λ s, (s, Err e).
Definition panic {A} : st S E A := λ s, (s, Panic).

(** A read-only method of the state. *)
Definition reads {A} (f : S → outcome E A) : st S E A := λ s, (s, f s).

(** [.unwrap()] and [.expect(..)]: an error is a panic, whatever its type. *)
Definition unwrap {F A} (m : st S F A) : st S E A := λ s,
  match m s with
  | (s', Ok a) => (s', Ok a)
  | (s', _) => (s', Panic)
  end.

(** A [Result] kept as a value, to be matched on. *)
Definition attempt {F A} (m : st S F A) : st S E (A + F) := λ s,
  match m s with
  | (s', Ok a) => (s', Ok (inl a))
  | (s', Err e) => (s', Ok (inr e))
  | (s', Panic) => (s', Panic)
  end.

(** A method of a field of the state, with the conversion of its errors. *)
Definition zoom {T F A} (view : S → T) (update : T → S → S) (f : F → E) (m : st T F A) : st S E A :=
  λ s, let '(t, r) := m (view s) in (update t s, map_err f r).

Definition wp {A} (m : st S E A) (s : S) (Q : A → S → Prop) (R : E → S → Prop) : Prop :=
  match m s with
  | (s', Ok a) => Q a s'
  | (s', Err e) => R e s'
  | (_, Panic) => False
  end.
End operations.

(** The result of an [outcome] of any error type that is never [Err]. *)
Definition infallible {E F A} (o : outcome F A) : outcome E A :=
  match o with
  | Ok a => Ok a
  | _ => Panic
  end.

Section rules.
Context {S E : Type}.


Lemma st_bind_Ok {A B} (m : st S E A) (f : A → st S E B) s s' a :
  m s = (s', Ok a) → (m ≫= f) s = f a s'.
Proof. intros H. unfold mbind, st_bind. by rewrite H. Qed.

Lemma st_bind_Err {A B} (m : st S E A) (f : A → st S E B) s s' e :
  m s = (s', Err e) → (m ≫= f) s = (s', Err e).
Proof. intros H. unfold mbind, st_bind. by rewrite H. Qed.

Lemma st_bind_Panic {A B} (m : st S E A) (f : A → st S E B) s s' :
  m s = (s', Panic) → (m ≫= f) s = (s', Panic).
Proof. intros H. unfold mbind, st_bind. by rewrite H. Qed.

Lemma wp_bind {A B} (m : st S E A) (f : A → st S E B) s (Q : B → S → Prop) (R : E → S → Prop) :
  wp m s (λ a s', wp (f a) s' Q R) R → wp (m ≫= f) s Q R.
Proof. unfold wp at 1. unfold wp at 2, mbind, st_bind. by destruct (m s) as [? []]. Qed.

Lemma wp_mono {A} (m : st S E A) s (Q Q' : A → S → Prop) (R R' : E → S → Prop) :
  wp m s Q R → (∀ a s', Q a s' → Q' a s') → (∀ e s', R e s' → R' e s') → wp m s Q' R'.
Proof. unfold wp. destruct (m s) as [? []]; naive_solver. Qed.

Lemma wp_ret {A} (a : A) s (Q : A → S → Prop) (R : E → S → Prop) : Q a s → wp (mret a : st S E A) s Q R.
Proof. done. Qed.

Lemma wp_run {A} (m : st S E A) s s' a (Q : A → S → Prop) (R : E → S → Prop) :
  m s = (s', Ok a) → Q a s' → wp m s Q R.
Proof. unfold wp. by intros ->. Qed.

Lemma wp_throw {A} (m : st S E A) s s' e (Q : A → S → Prop) (R : E → S → Prop) :
  m s = (s', Err e) → R e s' → wp m s Q R.
Proof. unfold wp. by intros ->. Qed.

Lemma wp_reads {A} (f : S → outcome E A) s a (Q : A → S → Prop) (R : E → S → Prop) :
  f s = Ok a → Q a s → wp (reads f) s Q R.
Proof. unfold wp, reads. by intros ->. Qed.

Lemma wp_lift {A} (o : outcome E A) s a (Q : A → S → Prop) (R : E → S → Prop) :
  o = Ok a → Q a s → wp (lift o) s Q R.
Proof. unfold wp, lift. by intros ->. Qed.

Lemma wp_unwrap {F A} (m : st S F A) s (Q : A → S → Prop) (R : E → S → Prop) :
  wp m s Q (λ _ _, False) → wp (unwrap m) s Q R.
Proof. unfold wp, unwrap. by destruct (m s) as [? []]. Qed.

Lemma wp_attempt {F A} (m : st S F A) s (Q : A + F → S → Prop) (R : E → S → Prop) :
  wp m s (λ a, Q (inl a)) (λ e, Q (inr e)) → wp (attempt m) s Q R.
Proof. unfold wp, attempt. by destruct (m s) as [? []]. Qed.

Lemma wp_zoom {T F A} (view : S → T) (update : T → S → S) (f : F → E) (m : st T F A) s
    (Q : A → S → Prop) (R : E → S → Prop) :
  wp m (view s) (λ a t, Q a (update t s)) (λ e t, R (f e) (update t s)) →
  wp (zoom view update f m) s Q R.
Proof. unfold wp, zoom. by destruct (m (view s)) as [? []]. Qed.

Lemma wp_Ok {A} (m : st S E A) s s' a (Q : A → S → Prop) (R : E → S → Prop) :
  wp m s Q R → m s = (s', Ok a) → Q a s'.
Proof. unfold wp. intros H Hm. by rewrite Hm in H. Qed.

Lemma wp_Err {A} (m : st S E A) s s' e (Q : A → S → Prop) (R : E → S → Prop) :
  wp m s Q R → m s = (s', Err e) → R e s'.
Proof. unfold wp. intros H Hm. by rewrite Hm in H. Qed.

Lemma wp_no_panic {A} (m : st S E A) s (Q : A → S → Prop) (R : E → S → Prop) :
  wp m s Q R → no_panic (m s).2.
Proof. unfold wp. by destruct (m s) as [? []]. Qed.
End rules.

(** ** Properties of the state that every step keeps *)

Section keeps.
Context {S E : Type}.

(** Whatever [m] returns, it leaves [P] true. *)
Definition keeps {A} (P : S → Prop) (m : st S E A) : Prop := ∀ s, P s → P (m s).1.

Lemma keeps_bind {A B} (P : S → Prop) (m : st S E A) (f : A → st S E B) :
  keeps P m → (∀ a, keeps P (f a)) → keeps P (m ≫= f).
Proof.
  intros Hm Hf s Hs. specialize (Hm s Hs). unfold mbind, st_bind.
  destruct (m s) as [s' [a|e|]]; [by apply Hf|done|done].
Qed.

Lemma keeps_same {A} (P : S → Prop) (m : st S E A) : (∀ s, (m s).1 = s) → keeps P m.
Proof. intros Hm s Hs. by rewrite Hm. Qed.

Lemma keeps_unwrap {F A} (P : S → Prop) (m : st S F A) :
  (∀ s, P s → P (m s).1) → keeps P (unwrap m : st S E A).
Proof. intros Hm s Hs. specialize (Hm s Hs). unfold unwrap. by destruct (m s) as [s' []]. Qed.

Lemma keeps_attempt {F A} (P : S → Prop) (m : st S F A) :
  (∀ s, P s → P (m s).1) → keeps P (attempt m : st S E (A + F)).
Proof. intros Hm s Hs. specialize (Hm s Hs). unfold attempt. by destruct (m s) as [s' []]. Qed.

Lemma keeps_modify (P : S → Prop) (f : S → S) : (∀ s, P s → P (f s)) → keeps P (modify f : st S E unit).
Proof. intros Hf s Hs. by apply Hf. Qed.

Lemma keeps_zoom {T F A} (P : S → Prop) (view : S → T) (update : T → S → S) (f : F → E) (m : st T F A) :
  (∀ s, P s → P (update (m (view s)).1 s)) → keeps P (zoom view update f m).
Proof. intros Hm s Hs. specialize (Hm s Hs). unfold zoom. by destruct (m (view s)). Qed.
End keeps.

Create HintDb keeps.

(** Goes through a computation step by step. *)
Ltac keep :=
  repeat match goal with
  | |- keeps _ (_ ≫= _) => apply keeps_bind; [|intros ?]
  | |- keeps _ (let '(_, _) := ?x in _) => destruct x
  | |- keeps _ (if ?x then _ else _) => destruct x
  | |- keeps _ (match ?x with _ => _ end) => destruct x
  | |- keeps _ (mret _) => by apply keeps_same
  | |- keeps _ get => by apply keeps_same
  | |- keeps _ (lift _) => by apply keeps_same
  | |- keeps _ (throw _) => by apply keeps_same
  | |- keeps _ panic => by apply keeps_same
  | |- keeps _ (reads _) => by apply keeps_same
  | |- keeps _ _ => solve [eauto with keeps]
  end.
