(* ===== verification/InspectFormat.v ===== *)
(** The Inspect VMO format ([src/lib/diagnostics/inspect/format/rust/src]): block
    types, constants, size arithmetic ([utils.rs]), the bit fields of block headers
    and payloads ([bitfields.rs], over the [bitfield] crate), errors, and the two
    containers a block lives in ([container.rs]): a mapped VMO
    ([src/lib/shared-buffer]) and a byte slice. *)
From Stdlib Require Import ZArith Lia.
From stdpp Require Import base gmap strings list.
From S2P Require Import Prelude Format.
Local Open Scope Z_scope.

(** ** Block types *)

Inductive BlockType :=
| Free | Reserved | Header | NodeValue | IntValue | UintValue | DoubleValue | BufferValue
| Extent | Name | Tombstone | ArrayValue | LinkValue | BoolValue | StringReference.

#[export] Instance BlockType_eq_dec : EqDecision BlockType.
Proof. solve_decision. Defined.

Definition BlockType_to_u8 (t : BlockType) : Z :=
  match t with
  | Free => 0 | Reserved => 1 | Header => 2 | NodeValue => 3 | IntValue => 4
  | UintValue => 5 | DoubleValue => 6 | BufferValue => 7 | Extent => 8 | Name => 9
  | Tombstone => 10 | ArrayValue => 11 | LinkValue => 12 | BoolValue => 13
  | StringReference => 14
  end.

Definition BlockType_from_u8 (n : Z) : option BlockType :=
  match n with
  | 0 => Some Free | 1 => Some Reserved | 2 => Some Header | 3 => Some NodeValue
  | 4 => Some IntValue | 5 => Some UintValue | 6 => Some DoubleValue
  | 7 => Some BufferValue | 8 => Some Extent | 9 => Some Name | 10 => Some Tombstone
  | 11 => Some ArrayValue | 12 => Some LinkValue | 13 => Some BoolValue
  | 14 => Some StringReference
  | _ => None
  end.

Definition BlockType_fmt (t : BlockType) : rstring :=
  match t with
  | Free => str "FREE"
  | Reserved => str "RESERVED"
  | Header => str "HEADER"
  | NodeValue => str "NODE_VALUE"
  | IntValue => str "INT_VALUE"
  | UintValue => str "UINT_VALUE"
  | DoubleValue => str "DOUBLE_VALUE"
  | BufferValue => str "BUFFER_VALUE"
  | Extent => str "EXTENT"
  | Name => str "NAME"
  | Tombstone => str "TOMBSTONE"
  | ArrayValue => str "ARRAY_VALUE"
  | LinkValue => str "LINK_VALUE"
  | BoolValue => str "BOOL_VALUE"
  | StringReference => str "STRING_REFERENCE"
  end.

Definition is_any_value (t : BlockType) : bool :=
  match t with
  | NodeValue | IntValue | UintValue | DoubleValue | BufferValue | ArrayValue | LinkValue
  | BoolValue => true
  | _ => false
  end.

Definition is_numeric_value (t : BlockType) : bool :=
  match t with
  | IntValue | UintValue | DoubleValue => true
  | _ => false
  end.

Definition is_valid_for_array (t : BlockType) : bool :=
  bool_decide (t = StringReference) || is_numeric_value t.

Definition array_element_size (t : BlockType) : option Z :=
  if is_numeric_value t then Some 8
  else if bool_decide (t = StringReference) then Some 4
  else None.

Inductive PropertyFormat := PF_String | PF_Bytes.
Inductive ArrayFormat := AF_Default | LinearHistogram | ExponentialHistogram.
Inductive LinkNodeDisposition := Child | Inline.

#[export] Instance PropertyFormat_eq_dec : EqDecision PropertyFormat.
Proof. solve_decision. Defined.
#[export] Instance ArrayFormat_eq_dec : EqDecision ArrayFormat.
Proof. solve_decision. Defined.
#[export] Instance LinkNodeDisposition_eq_dec : EqDecision LinkNodeDisposition.
Proof. solve_decision. Defined.

Definition PropertyFormat_to_u8 (f : PropertyFormat) : Z :=
  match f with PF_String => 0 | PF_Bytes => 1 end.
Definition PropertyFormat_from_u8 (n : Z) : option PropertyFormat :=
  match n with 0 => Some PF_String | 1 => Some PF_Bytes | _ => None end.
Definition ArrayFormat_to_u8 (f : ArrayFormat) : Z :=
  match f with AF_Default => 0 | LinearHistogram => 1 | ExponentialHistogram => 2 end.
Definition ArrayFormat_from_u8 (n : Z) : option ArrayFormat :=
  match n with
  | 0 => Some AF_Default | 1 => Some LinearHistogram | 2 => Some ExponentialHistogram
  | _ => None
  end.
Definition LinkNodeDisposition_to_u8 (d : LinkNodeDisposition) : Z :=
  match d with Child => 0 | Inline => 1 end.
Definition LinkNodeDisposition_from_u8 (n : Z) : option LinkNodeDisposition :=
  match n with 0 => Some Child | 1 => Some Inline | _ => None end.

(** ** Errors of the format crate *)

Inductive FormatError :=
| ArrayCapacityExceeded (slots order max_capacity : Z)
| ArrayIndexOutOfBounds (index : Z)
| ExpectedLockState (locked : bool)
| Format_InvalidBlockOrder (order : Z)
| InvalidBlockSwap
| InvalidBlockTypeNumber (index number : Z)
| InvalidFlags (value_type : rstring) (flags index : Z)
| FailedToConvertArraySlotsToUsize
| NameNotUtf8
| InvalidArrayType (index : Z)
| UnexpectedBlockType (expected actual : BlockType)
| UnexpectedBlockTypeRepr (expected : rstring) (actual : BlockType)
| InvalidReferenceCount.

#[export] Instance FormatError_eq_dec : EqDecision FormatError.
Proof. solve_decision. Defined.

(** ** Constants *)

Definition PAGE_SIZE_BYTES : Z := 4096.
Definition HEADER_SIZE_BYTES : Z := 8.
Definition ROOT_INDEX : Z := 0.
Definition HEADER_INDEX : Z := 0.
Definition HEADER_MAGIC_NUMBER : Z := 0x50534e49.
Definition HEADER_VERSION_NUMBER : Z := 2.
Definition NUM_ORDERS : Z := 8.
Definition MIN_ORDER_SHIFT : Z := 4.
Definition MIN_ORDER_SIZE : Z := Z.shiftl 1 MIN_ORDER_SHIFT.
Definition MAX_ORDER_SHIFT : Z := MIN_ORDER_SHIFT + NUM_ORDERS - 1.
Definition MAX_ORDER_SIZE : Z := Z.shiftl 1 MAX_ORDER_SHIFT.
Definition MINIMUM_VMO_SIZE_BYTES : Z := 4 * 1024.
Definition ARRAY_PAYLOAD_METADATA_SIZE_BYTES : Z := 8.
Definition STRING_REFERENCE_TOTAL_LENGTH_BYTES : Z := 4.
Definition VMO_FROZEN : Z := u64_size - 1 - 1.

(** ** Size arithmetic *)

Definition leading_zeros (x : Z) : Z := if x =? 0 then 64 else 63 - Z.log2 x.

Definition fit_order {E} (size : Z) : outcome E Z :=
  if size =? 0 then Panic
  else
    let bits := 64 - leading_zeros (size - 1) in
    Ok (if bits <? MIN_ORDER_SHIFT then 0 else bits - MIN_ORDER_SHIFT).

Definition index_for_offset {E} (offset : Z) : outcome E Z :=
  match try_u32 (offset / MIN_ORDER_SIZE) with
  | Some index => Ok index
  | None => Panic
  end.

Definition offset_for_index (index : Z) : Z := index * MIN_ORDER_SIZE.

(** The orders a block can have are below 16, so the shift loses no bit. *)
Definition order_to_size (order : Z) : Z := Z.shiftl MIN_ORDER_SIZE order.

Definition block_size_for_payload (payload_size : Z) : Z :=
  Z.min MAX_ORDER_SIZE (Z.max (payload_size + HEADER_SIZE_BYTES) MIN_ORDER_SIZE).

Definition payload_size_for_order (order : Z) : Z := order_to_size order - HEADER_SIZE_BYTES.

Definition array_capacity (order : Z) (entry_type : BlockType) : option Z :=
  size ← array_element_size entry_type;
  Some ((order_to_size order - HEADER_SIZE_BYTES - ARRAY_PAYLOAD_METADATA_SIZE_BYTES) / size).

(** ** Bit fields *)

(** [BitRange] of a 64-bit integer, for a result type of [result_bit_len] bits. *)
Definition shl (width x n : Z) : Z := Z.shiftl x n mod 2 ^ width.

Definition bit_range (result_bit_len self msb lsb : Z) : Z :=
  let bit_len := 64 in
  let result :=
    Z.shiftr (shl bit_len self (bit_len - msb - 1)) (bit_len - msb - 1 + lsb)
    mod 2 ^ result_bit_len in
  Z.shiftr (shl result_bit_len result (result_bit_len - (msb - lsb + 1)))
    (result_bit_len - (msb - lsb + 1)).

Definition set_bit_range (self msb lsb value : Z) : Z :=
  let bit_len := 64 in
  let mask :=
    shl bit_len (Z.shiftr (shl bit_len (Z.ones 64) (bit_len - msb - 1)) (bit_len - msb - 1 + lsb))
      lsb in
  Z.lor (Z.land self (Z.lnot mask mod 2 ^ 64)) (Z.land (shl bit_len value lsb) mask).

(** [BlockHeader], a 64-bit integer. *)
Definition order_bits (h : Z) : Z := bit_range 8 h 3 0.
Definition set_order_bits (h v : Z) : Z := set_bit_range h 3 0 v.
Definition block_type_bits (h : Z) : Z := bit_range 8 h 15 8.
Definition set_block_type_bits (h v : Z) : Z := set_bit_range h 15 8 v.
Definition header_version_bits (h : Z) : Z := bit_range 32 h 31 16.
Definition set_header_version_bits (h v : Z) : Z := set_bit_range h 31 16 v.
Definition header_magic_bits (h : Z) : Z := bit_range 32 h 63 32.
Definition set_header_magic_bits (h v : Z) : Z := set_bit_range h 63 32 v.
Definition value_name_index_bits (h : Z) : Z := bit_range 32 h 63 40.
Definition set_value_name_index_bits (h v : Z) : Z := set_bit_range h 63 40 v.
Definition value_parent_index_bits (h : Z) : Z := bit_range 32 h 39 16.
Definition set_value_parent_index_bits (h v : Z) : Z := set_bit_range h 39 16 v.
Definition free_next_index_bits (h : Z) : Z := bit_range 32 h 39 16.
Definition set_free_next_index_bits (h v : Z) : Z := set_bit_range h 39 16 v.
Definition name_length_bits (h : Z) : Z := bit_range 16 h 27 16.
Definition set_name_length_bits (h v : Z) : Z := set_bit_range h 27 16 v.
Definition extent_next_index_bits (h : Z) : Z := bit_range 32 h 39 16.
Definition set_extent_next_index_bits (h v : Z) : Z := set_bit_range h 39 16 v.
Definition string_reference_count_bits (h : Z) : Z := bit_range 32 h 63 40.
Definition set_string_reference_count_bits (h v : Z) : Z := set_bit_range h 63 40 v.

(** [Payload], a 64-bit integer. *)
Definition total_length_bits (p : Z) : Z := bit_range 32 p 31 0.
Definition set_total_length_bits (p v : Z) : Z := set_bit_range p 31 0 v.
Definition property_extent_index_bits (p : Z) : Z := bit_range 32 p 59 32.
Definition set_property_extent_index_bits (p v : Z) : Z := set_bit_range p 59 32 v.
Definition property_flags_bits (p : Z) : Z := bit_range 8 p 63 60.
Definition set_property_flags_bits (p v : Z) : Z := set_bit_range p 63 60 v.
Definition numeric_value_bits (p : Z) : Z := bit_range 64 p 63 0.
Definition set_numeric_value_bits (p v : Z) : Z := set_bit_range p 63 0 v.
Definition header_generation_count_bits (p : Z) : Z := bit_range 64 p 63 0.
Definition set_header_generation_count_bits (p v : Z) : Z := set_bit_range p 63 0 v.
Definition array_entry_type_bits (p : Z) : Z := bit_range 8 p 3 0.
Definition set_array_entry_type_bits (p v : Z) : Z := set_bit_range p 3 0 v.
Definition array_flags_bits (p : Z) : Z := bit_range 8 p 7 4.
Definition set_array_flags_bits (p v : Z) : Z := set_bit_range p 7 4 v.
Definition array_slots_count_bits (p : Z) : Z := bit_range 8 p 15 8.
Definition set_array_slots_count_bits (p v : Z) : Z := set_bit_range p 15 8 v.
Definition content_index_bits (p : Z) : Z := bit_range 32 p 19 0.
Definition set_content_index_bits (p v : Z) : Z := set_bit_range p 19 0 v.
Definition disposition_flags_bits (p : Z) : Z := bit_range 8 p 63 60.
Definition set_disposition_flags_bits (p v : Z) : Z := set_bit_range p 63 60 v.

(** ** Containers *)

(** A container a block can be read from.  [read_bytes c offset n] is what a zeroed
    buffer of [n] bytes holds after [read_bytes(offset, &mut bytes)].  A client relies on
    the law: inside the container the bytes read are those of the container. *)
Class ReadableBlockContainer (C : Type) := {
  container_len : C → Z;
  container_byte : C → Z → Z;
  read_bytes : ∀ {E}, C → Z → Z → outcome E (list Z);
  read_bytes_inside : ∀ E (c : C) offset n,
    0 <= offset → 0 <= n → offset + n <= container_len c → container_len c < u64_size →
    read_bytes (E := E) c offset n = Ok (container_byte c <$> seqZ offset n);
}.

Definition overlap (offset copy_len range_len : Z) : option Z :=
  if range_len <? offset then None
  else if (offset + copy_len <? u64_size) && (offset + copy_len <=? range_len)
  then Some copy_len
  else Some (range_len - offset).

(** A mapped VMO; bytes never written are zero. *)
Record Mapping := mkMapping { mapping_len : Z; mapping_bytes : gmap Z Z }.

Definition mapping_byte (m : Mapping) (a : Z) : Z := default 0 (mapping_bytes m !! a).

Definition read_at {E} (m : Mapping) (offset n : Z) : outcome E (list Z) :=
  match overlap offset n (mapping_len m) with
  | Some to_copy =>
    Ok ((mapping_byte m <$> seqZ offset to_copy) ++ replicate (Z.to_nat (n - to_copy)) 0)
  | None => Panic
  end.

Fixpoint store (bytes : gmap Z Z) (offset : Z) (src : list Z) : gmap Z Z :=
  match src with
  | [] => bytes
  | b :: src => store (<[offset := b]> bytes) (offset + 1) src
  end.

(** The mapping after the write, and the number of bytes written. *)
Definition write_at {E} (m : Mapping) (offset : Z) (src : list Z) : outcome E (Mapping * Z) :=
  match overlap offset (len src) (mapping_len m) with
  | Some to_copy =>
    Ok (mkMapping (mapping_len m)
          (store (mapping_bytes m) offset (take (Z.to_nat to_copy) src)), to_copy)
  | None => Panic
  end.

(** A byte slice, the container of the reader's copies. *)
Definition slice_byte (c : list Z) (a : Z) : Z := nth (Z.to_nat a) c 0.

Definition slice_read_bytes {E} (c : list Z) (offset n : Z) : outcome E (list Z) :=
  if len c <=? offset then Ok (replicate (Z.to_nat n) 0)
  else
    let upper_bound := Z.min (len c) (n + offset) in
    let bytes_read := upper_bound - offset in
    Ok ((slice_byte c <$> seqZ offset bytes_read) ++ replicate (Z.to_nat (n - bytes_read)) 0).

(** ** Containers satisfy their law *)

Lemma read_at_inside E (m : Mapping) offset n :
  0 <= offset → 0 <= n → offset + n <= mapping_len m → mapping_len m < u64_size →
  read_at (E := E) m offset n = Ok (mapping_byte m <$> seqZ offset n).
Proof.
  intros H0 Hn Hle Hlt. unfold read_at, overlap.
  rewrite (proj2 (Z.ltb_ge _ _)), (proj2 (Z.ltb_lt _ _)), (proj2 (Z.leb_le _ _)) by lia. cbn.
  by rewrite Z.sub_diag, app_nil_r.
Qed.

Lemma slice_read_inside E (c : list Z) offset n :
  0 <= offset → 0 <= n → offset + n <= len c → len c < u64_size →
  slice_read_bytes (E := E) c offset n = Ok (slice_byte c <$> seqZ offset n).
Proof.
  intros H0 Hn Hle _. unfold slice_read_bytes. destruct (Z.leb_spec (len c) offset).
  - by replace n with 0 by lia.
  - rewrite Z.min_r by lia. replace (n + offset - offset) with n by lia.
    by rewrite Z.sub_diag, app_nil_r.
Qed.

#[export] Instance Mapping_container : ReadableBlockContainer Mapping := {
  container_len := mapping_len;
  container_byte := mapping_byte;
  read_bytes E := read_at;
  read_bytes_inside := read_at_inside;
}.

#[export] Instance slice_container : ReadableBlockContainer (list Z) := {
  container_len := len;
  container_byte := slice_byte;
  read_bytes E := slice_read_bytes;
  read_bytes_inside := slice_read_inside;
}.

Lemma store_lookup bytes offset src a :
  default 0 (store bytes offset src !! a) =
  if (offset <=? a) && (a <? offset + len src) then slice_byte src (a - offset)
  else default 0 (bytes !! a).
Proof.
  revert bytes offset. induction src as [|b src IH]; intros bytes offset; cbn [store].
  - change (len []) with 0. destruct (Z.leb_spec offset a), (Z.ltb_spec a (offset + 0)); done || lia.
  - rewrite IH, len_cons. pose proof (len_nonneg src).
    destruct (Z.leb_spec (offset + 1) a), (Z.ltb_spec a (offset + 1 + len src)),
      (Z.leb_spec offset a), (Z.ltb_spec a (offset + (len src + 1))); cbn; try lia.
    + unfold slice_byte. by replace (Z.to_nat (a - offset)) with (S (Z.to_nat (a - (offset + 1)))) by lia.
    + by rewrite lookup_insert_ne by lia.
    + replace a with offset by lia. by rewrite lookup_insert_eq, Z.sub_diag.
    + by rewrite lookup_insert_ne by lia.
Qed.

Lemma write_at_inside E (m : Mapping) offset src :
  0 <= offset → offset + len src <= mapping_len m → mapping_len m < u64_size →
  write_at (E := E) m offset src =
  Ok (mkMapping (mapping_len m) (store (mapping_bytes m) offset src), len src).
Proof.
  intros H0 Hle Hlt. pose proof (len_nonneg src). unfold write_at, overlap.
  rewrite (proj2 (Z.ltb_ge _ _)), (proj2 (Z.ltb_lt _ _)), (proj2 (Z.leb_le _ _)) by lia. cbn.
  unfold len. rewrite Nat2Z.id. by rewrite take_ge by lia.
Qed.

(** ** Bit fields *)

Lemma testbit_shl w x n i : 0 <= w → 0 <= n → 0 <= i →
  Z.testbit (shl w x n) i = (i <? w) && (n <=? i) && Z.testbit x (i - n).
Proof.
  intros Hw Hn Hi. unfold shl. destruct (Z.ltb_spec i w).
  - rewrite Z.mod_pow2_bits_low, Z.shiftl_spec by lia. destruct (Z.leb_spec n i); [done|].
    cbn. apply Z.testbit_neg_r. lia.
  - by rewrite Z.mod_pow2_bits_high by lia.
Qed.

Ltac bits_case :=
  repeat match goal with
  | |- context [Z.ltb ?x ?y] => destruct (Z.ltb_spec x y)
  | |- context [Z.leb ?x ?y] => destruct (Z.leb_spec x y)
  end; cbn [andb orb negb].

Lemma testbit_bit_range r self msb lsb i :
  0 <= lsb <= msb → msb < 64 → msb - lsb < r → 0 <= i →
  Z.testbit (bit_range r self msb lsb) i = (i <=? msb - lsb) && Z.testbit self (i + lsb).
Proof.
  intros Hl Hm Hr Hi. unfold bit_range. cbn zeta.
  rewrite Z.shiftr_spec, testbit_shl by lia.
  destruct (Z.leb_spec i (msb - lsb)).
  - rewrite Z.mod_pow2_bits_low, Z.shiftr_spec, testbit_shl by lia.
    bits_case; try lia. f_equal. lia.
  - bits_case; try lia; done.
Qed.

Lemma field_spec r self msb lsb :
  0 <= lsb <= msb → msb < 64 → msb - lsb < r →
  bit_range r self msb lsb = (self / 2 ^ lsb) mod 2 ^ (msb - lsb + 1).
Proof.
  intros Hl Hm Hr. apply Z.bits_inj'. intros i Hi. rewrite testbit_bit_range by lia.
  rewrite <- Z.shiftr_div_pow2 by lia. destruct (Z.leb_spec i (msb - lsb)).
  - by rewrite Z.mod_pow2_bits_low, Z.shiftr_spec by lia.
  - by rewrite Z.mod_pow2_bits_high by lia.
Qed.

Lemma testbit_set_bit_range self msb lsb v i :
  0 <= lsb <= msb → msb < 64 → 0 <= i < 64 →
  Z.testbit (set_bit_range self msb lsb v) i =
  if (lsb <=? i) && (i <=? msb) then Z.testbit v (i - lsb) else Z.testbit self i.
Proof.
  intros Hl Hm Hi. unfold set_bit_range. cbn zeta.
  rewrite Z.lor_spec, !Z.land_spec, Z.mod_pow2_bits_low, Z.lnot_spec by lia.
  rewrite !(testbit_shl 64 _ lsb) by lia.
  destruct (Z.leb_spec lsb i); cbn [andb].
  - rewrite Z.shiftr_spec, testbit_shl, Z.ones_spec_low by lia. bits_case; try lia.
    + by rewrite andb_false_r, orb_false_l, andb_true_r.
    + by rewrite andb_true_r, andb_false_r, orb_false_r.
  - bits_case; try lia. by rewrite andb_true_r, orb_false_r.
Qed.

Lemma bit_range_nonneg r self msb lsb :
  0 <= lsb <= msb → msb < 64 → msb - lsb < r → 0 <= bit_range r self msb lsb < 2 ^ (msb - lsb + 1).
Proof. intros. rewrite field_spec by lia. apply Z.mod_pos_bound. apply Z.pow_pos_nonneg; lia. Qed.

(** A field set is read back, cut to its width; the fields beside it are not changed. *)
Lemma field_set r self msb lsb v :
  0 <= lsb <= msb → msb < 64 → msb - lsb < r →
  bit_range r (set_bit_range self msb lsb v) msb lsb = v mod 2 ^ (msb - lsb + 1).
Proof.
  intros Hl Hm Hr. apply Z.bits_inj'. intros i Hi. rewrite testbit_bit_range by lia.
  destruct (Z.leb_spec i (msb - lsb)).
  - rewrite testbit_set_bit_range, Z.mod_pow2_bits_low by lia.
    bits_case; try lia. f_equal. lia.
  - by rewrite Z.mod_pow2_bits_high by lia.
Qed.

Lemma field_set_other r self msb lsb msb' lsb' v :
  0 <= lsb <= msb → msb < 64 → 0 <= lsb' <= msb' → msb' < 64 → msb - lsb < r →
  msb < lsb' ∨ msb' < lsb →
  bit_range r (set_bit_range self msb' lsb' v) msb lsb = bit_range r self msb lsb.
Proof.
  intros Hl Hm Hl' Hm' Hr Hd. apply Z.bits_inj'. intros i Hi. rewrite !testbit_bit_range by lia.
  destruct (Z.leb_spec i (msb - lsb)); [|done]. cbn [andb].
  rewrite testbit_set_bit_range by lia. bits_case; try lia; done.
Qed.

Lemma bit_range_zero r msb lsb :
  0 <= lsb <= msb → msb < 64 → msb - lsb < r → bit_range r 0 msb lsb = 0.
Proof. intros. rewrite field_spec by lia. by rewrite Z.div_0_l, Z.mod_0_l by lia. Qed.

Lemma u64_bits x : (∀ i, 64 <= i → Z.testbit x i = false) → is_u64 x.
Proof.
  intros H. replace x with (x mod 2 ^ 64); [by apply Z.mod_pos_bound|].
  apply Z.bits_inj'. intros i Hi. destruct (Z.lt_ge_cases i 64).
  - by rewrite Z.mod_pow2_bits_low by lia.
  - by rewrite Z.mod_pow2_bits_high, H by lia.
Qed.

Lemma testbit_u64 x i : is_u64 x → 64 <= i → Z.testbit x i = false.
Proof.
  intros Hx Hi. rewrite <- (Z.mod_small x (2 ^ 64)) by apply Hx.
  by rewrite Z.mod_pow2_bits_high by lia.
Qed.

Lemma set_bit_range_u64 self msb lsb v :
  0 <= lsb → is_u64 self → is_u64 (set_bit_range self msb lsb v).
Proof.
  intros Hl Hs. apply u64_bits. intros i Hi. unfold set_bit_range. cbn zeta.
  rewrite Z.lor_spec, !Z.land_spec, (testbit_u64 self) by (lia || done).
  rewrite !(testbit_shl 64 _ lsb) by lia. by rewrite (proj2 (Z.ltb_ge i 64)).
Qed.
