(* ===== verification/InspectBlock.v ===== *)
(** Blocks of an Inspect VMO ([src/lib/diagnostics/inspect/format/rust/src/block.rs]).
    A [Block] is its index and its container; readers take any container, writers
    thread the mapped VMO.  The checks under [cfg!(debug_assertions)] are on.  A
    [f64] is its bit pattern, which [to_bits] and [from_bits] expose. *)
From Stdlib Require Import ZArith Lia.
From stdpp Require Import base gmap strings list.
From S2P Require Import Prelude Format StateError InspectFormat.
Local Open Scope Z_scope.

(** [Display] of the errors. *)
Definition FormatError_fmt (e : FormatError) : rstring :=
  match e with
  | ArrayCapacityExceeded slots order max_capacity =>
    fmt_dec slots ++ str " exceeds the maximum number of slots for order " ++ fmt_dec order
      ++ str ": " ++ fmt_dec max_capacity
  | ArrayIndexOutOfBounds index => str "Array index out of bounds: " ++ fmt_dec index
  | ExpectedLockState locked =>
    str "Expected lock state locked=" ++ (if locked then str "true" else str "false")
  | Format_InvalidBlockOrder order => str "Invalid order " ++ fmt_dec order
  | InvalidBlockSwap => str "Cannot swap blocks of different order or container"
  | InvalidBlockTypeNumber index number =>
    str "Invalid block type at index " ++ fmt_dec index ++ str ": " ++ fmt_dec number
  | InvalidFlags value_type flags index =>
    str "Invalid " ++ value_type ++ str " flags=" ++ fmt_dec flags ++ str " at index "
      ++ fmt_dec index
  | FailedToConvertArraySlotsToUsize => str "Failed to convert array slots to usize"
  | NameNotUtf8 => str "Name is not utf8"
  | InvalidArrayType index =>
    str "Expected a valid entry type for the array at index " ++ fmt_dec index
  | UnexpectedBlockType expected actual =>
    str "Invalid block type. Expected: " ++ BlockType_fmt expected ++ str ", actual: "
      ++ BlockType_fmt actual
  | UnexpectedBlockTypeRepr expected actual =>
    str "Invalid block type. Expected: " ++ expected ++ str ", got: " ++ BlockType_fmt actual
  | InvalidReferenceCount =>
    str "Invalid reference count. Reference count must be in range (0, 2^32)"
  end.

(** [i64::from_le_bytes] of the bytes of a [u64]. *)
Definition as_i64 (x : Z) : Z := if x <? 2 ^ 63 then x else x - u64_size.

(** [self.index + 1], a [u32]. *)
Definition index_after {E} (index : Z) : outcome E Z :=
  if index + 1 <? u32_size then Ok (index + 1) else Panic.

Definition header_offset (index : Z) : Z := offset_for_index index.
Definition payload_offset (index : Z) : Z := offset_for_index index + HEADER_SIZE_BYTES.

(** ** Reading *)

Section readable.
Context {C : Type} `{ReadableBlockContainer C}.
Implicit Types (c : C) (index : Z).

Definition read_header c index : outcome FormatError Z :=
  bytes ← read_bytes c (header_offset index) 8; Ok (from_le_bytes bytes).

Definition read_payload c index : outcome FormatError Z :=
  bytes ← read_bytes c (payload_offset index) 8; Ok (from_le_bytes bytes).

Definition order c index : outcome FormatError Z :=
  header ← read_header c index; Ok (order_bits header).

Definition check_type_eq index (actual_num : Z) (expected : BlockType) : outcome FormatError unit :=
  actual ← ok_or (BlockType_from_u8 actual_num) (InvalidBlockTypeNumber index actual_num);
  if bool_decide (actual = expected) then Ok tt else Err (UnexpectedBlockType expected actual).

Definition check_type c index (t : BlockType) : outcome FormatError unit :=
  header ← read_header c index; check_type_eq index (block_type_bits header) t.

Definition block_type c index : outcome FormatError BlockType :=
  header ← read_header c index;
  match BlockType_from_u8 (block_type_bits header) with
  | Some t => Ok t
  | None => Panic
  end.

Definition block_type_or c index : outcome FormatError BlockType :=
  header ← read_header c index;
  ok_or (BlockType_from_u8 (block_type_bits header))
    (InvalidBlockTypeNumber index (block_type_bits header)).

(** The loop over [options], with the message [wanted] built so far. *)
Fixpoint check_multi_type_from (wanted : rstring) c index (options : list BlockType) :
    outcome FormatError unit :=
  match options with
  | [] => t ← block_type c index; Err (UnexpectedBlockTypeRepr wanted t)
  | b :: options =>
    match check_type c index b with
    | Ok _ => Ok tt
    | Err e => check_multi_type_from (wanted ++ FormatError_fmt e ++ str "|") c index options
    | Panic => Panic
    end
  end.

Definition check_multi_type c index (options : list BlockType) : outcome FormatError unit :=
  check_multi_type_from [] c index options.

Definition check_any_value c index : outcome FormatError unit :=
  t ← block_type c index;
  if is_any_value t then Ok tt else Err (UnexpectedBlockTypeRepr (str "*_VALUE") t).

Definition header_magic c index : outcome FormatError Z :=
  _ ← check_type c index Header; header ← read_header c index; Ok (header_magic_bits header).

Definition header_version c index : outcome FormatError Z :=
  _ ← check_type c index Header; header ← read_header c index; Ok (header_version_bits header).

Definition header_generation_count c index : outcome FormatError Z :=
  _ ← check_type c index Header;
  payload ← read_payload c index; Ok (header_generation_count_bits payload).

Definition header_is_locked c index : outcome FormatError bool :=
  _ ← check_type c index Header;
  payload ← read_payload c index;
  Ok (Z.land (header_generation_count_bits payload) 1 =? 1).

Definition double_value c index : outcome FormatError Z :=
  _ ← check_type c index DoubleValue;
  payload ← read_payload c index; Ok (numeric_value_bits payload).

Definition int_value c index : outcome FormatError Z :=
  _ ← check_type c index IntValue;
  payload ← read_payload c index; Ok (as_i64 (numeric_value_bits payload)).

Definition uint_value c index : outcome FormatError Z :=
  _ ← check_type c index UintValue;
  payload ← read_payload c index; Ok (numeric_value_bits payload).

Definition bool_value c index : outcome FormatError bool :=
  _ ← check_type c index BoolValue;
  payload ← read_payload c index; Ok (negb (numeric_value_bits payload =? 0)).

Definition property_extent_index c index : outcome FormatError Z :=
  _ ← check_type c index BufferValue;
  payload ← read_payload c index; Ok (property_extent_index_bits payload).

Definition total_length c index : outcome FormatError Z :=
  _ ← check_multi_type c index [BufferValue; StringReference];
  payload ← read_payload c index; Ok (total_length_bits payload).

Definition property_format c index : outcome FormatError PropertyFormat :=
  _ ← check_type c index BufferValue;
  payload ← read_payload c index;
  let raw_format := property_flags_bits payload in
  ok_or (PropertyFormat_from_u8 raw_format) (InvalidFlags (str "property") raw_format index).

Definition next_extent c index : outcome FormatError Z :=
  _ ← check_multi_type c index [Extent; StringReference];
  header ← read_header c index; Ok (extent_next_index_bits header).

Definition extent_contents c index : outcome FormatError (list Z) :=
  _ ← check_type c index Extent;
  o ← order c index;
  read_bytes c (payload_offset index) (payload_size_for_order o).

Definition name_index c index : outcome FormatError Z :=
  _ ← check_any_value c index;
  header ← read_header c index; Ok (value_name_index_bits header).

Definition array_format c index : outcome FormatError ArrayFormat :=
  _ ← check_type c index ArrayValue;
  payload ← read_payload c index;
  let raw_flags := array_flags_bits payload in
  ok_or (ArrayFormat_from_u8 raw_flags) (InvalidFlags (str "array") raw_flags index).

Definition array_slots c index : outcome FormatError Z :=
  _ ← check_type c index ArrayValue;
  payload ← read_payload c index; Ok (array_slots_count_bits payload).

Definition array_entry_type c index : outcome FormatError BlockType :=
  _ ← check_type c index ArrayValue;
  payload ← read_payload c index;
  let array_type_raw := array_entry_type_bits payload in
  array_type ← ok_or (BlockType_from_u8 array_type_raw) (InvalidBlockTypeNumber index array_type_raw);
  if is_valid_for_array array_type then Ok array_type else Err (InvalidArrayType index).

Definition check_array_entry_type c index (expected : BlockType) : outcome FormatError unit :=
  actual ← array_entry_type c index;
  if bool_decide (actual = expected) then Ok tt else Err (UnexpectedBlockType expected actual).

Definition check_array_format index (entry_type : BlockType) (format_type : ArrayFormat) :
    outcome FormatError unit :=
  if is_valid_for_array entry_type then
    match entry_type, format_type with
    | StringReference, AF_Default => Ok tt
    | StringReference, _ => Err (InvalidArrayType index)
    | _, _ => Ok tt
    end
  else Err (InvalidArrayType index).

Definition check_array_index c index (slot_index : Z) : outcome FormatError unit :=
  slots ← array_slots c index;
  if slots <=? slot_index then Err (ArrayIndexOutOfBounds slot_index) else Ok tt.

Definition array_entry_type_size c index : outcome FormatError Z :=
  block_type ← array_entry_type c index;
  ok_or (array_element_size block_type) (InvalidArrayType index).

Definition array_get_string_index_slot c index (slot_index : Z) : outcome FormatError Z :=
  _ ← check_array_entry_type c index StringReference;
  _ ← check_array_index c index slot_index;
  entry_type_size ← array_entry_type_size c index;
  next ← index_after index;
  bytes ← read_bytes c (offset_for_index next + slot_index * entry_type_size) entry_type_size;
  Ok (from_le_bytes bytes).

(** The eight bytes of a numeric slot. *)
Definition array_get_slot (entry_type : BlockType) c index (slot_index : Z) : outcome FormatError Z :=
  _ ← check_array_entry_type c index entry_type;
  _ ← check_array_index c index slot_index;
  next ← index_after index;
  bytes ← read_bytes c (offset_for_index next + slot_index * 8) 8;
  Ok (from_le_bytes bytes).

Definition array_get_int_slot c index (slot_index : Z) : outcome FormatError Z :=
  bits ← array_get_slot IntValue c index slot_index; Ok (as_i64 bits).

Definition array_get_double_slot c index (slot_index : Z) : outcome FormatError Z :=
  array_get_slot DoubleValue c index slot_index.

Definition array_get_uint_slot c index (slot_index : Z) : outcome FormatError Z :=
  array_get_slot UintValue c index slot_index.

Definition link_content_index c index : outcome FormatError Z :=
  _ ← check_type c index LinkValue;
  payload ← read_payload c index; Ok (content_index_bits payload).

Definition link_node_disposition c index : outcome FormatError LinkNodeDisposition :=
  _ ← check_type c index LinkValue;
  payload ← read_payload c index;
  let flag := disposition_flags_bits payload in
  ok_or (LinkNodeDisposition_from_u8 flag) (InvalidFlags (str "disposition type") flag index).

Definition parent_index c index : outcome FormatError Z :=
  _ ← check_any_value c index;
  header ← read_header c index; Ok (value_parent_index_bits header).

Definition child_count c index : outcome FormatError Z :=
  _ ← check_multi_type c index [NodeValue; Tombstone];
  payload ← read_payload c index; Ok (numeric_value_bits payload).

Definition free_next_index c index : outcome FormatError Z :=
  _ ← check_type c index Free;
  header ← read_header c index; Ok (free_next_index_bits header).

Definition name_length c index : outcome FormatError Z :=
  _ ← check_type c index Name;
  header ← read_header c index; Ok (name_length_bits header).

Definition name_contents c index : outcome FormatError rstring :=
  _ ← check_type c index Name;
  length ← name_length c index;
  bytes ← read_bytes c (payload_offset index) length;
  if utf8_valid bytes then Ok bytes else Err NameNotUtf8.

Definition string_reference_count c index : outcome FormatError Z :=
  _ ← check_type c index StringReference;
  header ← read_header c index; Ok (string_reference_count_bits header).

Definition inline_string_reference c index : outcome FormatError (list Z) :=
  _ ← check_type c index StringReference;
  o ← order c index;
  let max_len_inlined := payload_size_for_order o - STRING_REFERENCE_TOTAL_LENGTH_BYTES in
  length ← total_length c index;
  read_bytes c (payload_offset index + STRING_REFERENCE_TOTAL_LENGTH_BYTES)
    (Z.min length max_len_inlined).

Definition check_locked c index (value : bool) : outcome FormatError unit :=
  payload ← read_payload c index;
  if Bool.eqb (Z.land (header_generation_count_bits payload) 1 =? 1) value then Ok tt
  else Err (ExpectedLockState value).

(** Blocks of the same container: the indices after the swap. *)
Definition swap c index (other : Z) : outcome FormatError (Z * Z) :=
  o ← order c index;
  o' ← order c other;
  if o =? o' then Ok (other, index) else Err InvalidBlockSwap.
End readable.

(** The block at [index_to_check], copied into a buffer. *)
Definition check_type_at {C} `{ReadableBlockContainer C} (c : C) (index_to_check : Z) (t : BlockType) :
    outcome FormatError unit :=
  fill ← read_bytes c (offset_for_index index_to_check) MIN_ORDER_SIZE;
  check_type fill 0 t.

(** ** Writing *)

(** [write_bytes] of the mapping: the number of bytes written. *)
Definition write_bytes (offset : Z) (bytes : list Z) : st Mapping FormatError Z := λ m,
  match write_at m offset bytes with
  | Ok (m', n) => (m', Ok n)
  | Err e => (m, Err e)
  | Panic => (m, Panic)
  end.

Definition write_header (index header : Z) : st Mapping FormatError unit :=
  _ ← write_bytes (header_offset index) (to_le_bytes 8 header); mret tt.

Definition write_payload_from_bytes (index : Z) (bytes : list Z) : st Mapping FormatError unit :=
  _ ← write_bytes (payload_offset index) bytes; mret tt.

Definition write_payload (index payload : Z) : st Mapping FormatError unit :=
  write_payload_from_bytes index (to_le_bytes 8 payload).

Definition write (index header payload : Z) : st Mapping FormatError unit :=
  _ ← write_header index header; write_payload index payload.

(** A reader of the block, as a step of a writer. *)
Definition block_reads {A} (f : Mapping → Z → outcome FormatError A) (index : Z) :
    st Mapping FormatError A := reads (λ m, f m index).

Definition new_free (index order next_free : Z) : st Mapping FormatError Z :=
  if NUM_ORDERS <=? order then throw (Format_InvalidBlockOrder order)
  else
    let header := set_order_bits 0 order in
    let header := set_block_type_bits header (BlockType_to_u8 Free) in
    let header := set_free_next_index_bits header next_free in
    _ ← write_header index header;
    mret index.

Definition set_order (index order : Z) : st Mapping FormatError unit :=
  if NUM_ORDERS <=? order then throw (Format_InvalidBlockOrder order)
  else
    header ← block_reads read_header index;
    write_header index (set_order_bits header order).

(** [self.index] becomes 0: the result is the block's new index. *)
Definition become_header (index : Z) : st Mapping FormatError Z :=
  _ ← reads (λ m, check_type m index Reserved);
  let header := set_order_bits 0 0 in
  let header := set_block_type_bits header (BlockType_to_u8 Header) in
  let header := set_header_magic_bits header HEADER_MAGIC_NUMBER in
  let header := set_header_version_bits header HEADER_VERSION_NUMBER in
  _ ← write 0 header 0;
  mret 0.

Definition set_header_magic (index value : Z) : st Mapping FormatError unit :=
  _ ← reads (λ m, check_type m index Header);
  header ← block_reads read_header index;
  write_header index (set_header_magic_bits header value).

Definition freeze_header (index : Z) : st Mapping FormatError Z :=
  _ ← reads (λ m, check_type m index Header);
  payload ← block_reads read_payload index;
  let value := header_generation_count_bits payload in
  _ ← write_payload index (set_header_generation_count_bits payload VMO_FROZEN);
  mret value.

Definition thaw_header (index gen : Z) : st Mapping FormatError unit :=
  _ ← reads (λ m, check_type m index Header);
  write_payload index (set_header_generation_count_bits 0 gen).

Definition increment_generation_count (index : Z) : st Mapping FormatError unit :=
  payload ← block_reads read_payload index;
  let value := header_generation_count_bits payload in
  let new_value := if value =? u64_size - 1 then 0 else value + 1 in
  write_payload index (set_header_generation_count_bits payload new_value).

Definition lock_header (index : Z) : st Mapping FormatError unit :=
  _ ← reads (λ m, check_type m index Header);
  _ ← reads (λ m, check_locked m index false);
  increment_generation_count index.

Definition unlock_header (index : Z) : st Mapping FormatError unit :=
  _ ← reads (λ m, check_type m index Header);
  _ ← reads (λ m, check_locked m index true);
  increment_generation_count index.

Definition become_tombstone (index : Z) : st Mapping FormatError unit :=
  header ← block_reads read_header index;
  _ ← lift (check_type_eq index (block_type_bits header) NodeValue);
  let new_header := set_order_bits 0 (order_bits header) in
  let new_header := set_block_type_bits new_header (BlockType_to_u8 Tombstone) in
  write_header index new_header.

Definition become_reserved (index : Z) : st Mapping FormatError unit :=
  header ← block_reads read_header index;
  _ ← lift (check_type_eq index (block_type_bits header) Free);
  let new_header := set_order_bits 0 (order_bits header) in
  let new_header := set_block_type_bits new_header (BlockType_to_u8 Reserved) in
  write_header index new_header.

Definition become_free (index next : Z) : st Mapping FormatError unit :=
  header ← block_reads read_header index;
  let new_header := set_order_bits 0 (order_bits header) in
  let new_header := set_block_type_bits new_header (BlockType_to_u8 Free) in
  let new_header := set_free_next_index_bits new_header next in
  write_header index new_header.

Definition write_value_header (index : Z) (t : BlockType) (name_index parent_index : Z) :
    st Mapping FormatError unit :=
  if negb (is_any_value t) then throw (UnexpectedBlockTypeRepr (str "*_VALUE") t)
  else
    header ← block_reads read_header index;
    _ ← lift (check_type_eq index (block_type_bits header) Reserved);
    let new_header := set_order_bits 0 (order_bits header) in
    let new_header := set_block_type_bits new_header (BlockType_to_u8 t) in
    let new_header := set_value_name_index_bits new_header name_index in
    let new_header := set_value_parent_index_bits new_header parent_index in
    write_header index new_header.

Definition become_array_value (index slots : Z) (format : ArrayFormat) (entry_type : BlockType)
    (name_index parent_index : Z) : st Mapping FormatError unit :=
  _ ← lift (check_array_format index entry_type format);
  o ← block_reads order index;
  max_capacity ← lift (ok_or (array_capacity o entry_type) (InvalidArrayType index));
  if max_capacity <? slots then throw (ArrayCapacityExceeded slots o max_capacity)
  else
    _ ← write_value_header index ArrayValue name_index parent_index;
    let payload := set_array_entry_type_bits 0 (BlockType_to_u8 entry_type) in
    let payload := set_array_flags_bits payload (ArrayFormat_to_u8 format) in
    if u8_size <=? slots then panic
    else
      let payload := set_array_slots_count_bits payload slots in
      write_payload index payload.

Definition array_clear (index start_slot_index : Z) : st Mapping FormatError unit :=
  slots ← block_reads array_slots index;
  if slots <? start_slot_index then panic
  else
    let array_slots := slots - start_slot_index in
    type_size ← block_reads array_entry_type_size index;
    next ← lift (index_after index);
    _ ← write_bytes (offset_for_index next + start_slot_index * type_size)
          (replicate (Z.to_nat (array_slots * type_size)) 0);
    mret tt.

Definition array_set_string_slot (index slot_index string_index : Z) : st Mapping FormatError unit :=
  _ ← reads (λ m, check_array_entry_type m index StringReference);
  _ ← reads (λ m, check_array_index m index slot_index);
  _ ← reads (λ m, check_type_at m string_index StringReference);
  type_size ← block_reads array_entry_type_size index;
  next ← lift (index_after index);
  _ ← write_bytes (offset_for_index next + slot_index * type_size) (to_le_bytes 4 string_index);
  mret tt.

(** The setters of numeric slots write the eight bytes of the value. *)
Definition array_set_slot (entry_type : BlockType) (index slot_index value : Z) :
    st Mapping FormatError unit :=
  _ ← reads (λ m, check_array_entry_type m index entry_type);
  _ ← reads (λ m, check_array_index m index slot_index);
  type_size ← block_reads array_entry_type_size index;
  next ← lift (index_after index);
  _ ← write_bytes (offset_for_index next + slot_index * type_size) (to_le_bytes 8 value);
  mret tt.

Definition array_set_int_slot : Z → Z → Z → st Mapping FormatError unit := array_set_slot IntValue.
Definition array_set_double_slot : Z → Z → Z → st Mapping FormatError unit := array_set_slot DoubleValue.
Definition array_set_uint_slot : Z → Z → Z → st Mapping FormatError unit := array_set_slot UintValue.

Definition become_extent (index next_extent_index : Z) : st Mapping FormatError unit :=
  _ ← reads (λ m, check_type m index Reserved);
  header ← block_reads read_header index;
  let header := set_block_type_bits header (BlockType_to_u8 Extent) in
  let header := set_extent_next_index_bits header next_extent_index in
  write_header index header.

Definition set_extent_next_index (index next_extent_index : Z) : st Mapping FormatError unit :=
  _ ← reads (λ m, check_multi_type m index [Extent; StringReference]);
  header ← block_reads read_header index;
  write_header index (set_extent_next_index_bits header next_extent_index).

Definition extent_set_contents (index : Z) (value : list Z) : st Mapping FormatError Z :=
  _ ← reads (λ m, check_type m index Extent);
  o ← block_reads order index;
  let max_bytes := payload_size_for_order o in
  let bytes := if max_bytes <? len value then take (Z.to_nat (Z.min (len value) max_bytes)) value
               else value in
  _ ← write_payload_from_bytes index bytes;
  mret (len bytes).

Definition set_double_value (index value : Z) : st Mapping FormatError unit :=
  _ ← reads (λ m, check_type m index DoubleValue);
  write_payload index (set_numeric_value_bits 0 value).

Definition become_double_value (index value name_index parent_index : Z) : st Mapping FormatError unit :=
  _ ← write_value_header index DoubleValue name_index parent_index;
  set_double_value index value.

Definition set_int_value (index value : Z) : st Mapping FormatError unit :=
  _ ← reads (λ m, check_type m index IntValue);
  write_payload index (set_numeric_value_bits 0 (from_le_bytes (to_le_bytes 8 value))).

Definition become_int_value (index value name_index parent_index : Z) : st Mapping FormatError unit :=
  _ ← write_value_header index IntValue name_index parent_index;
  set_int_value index value.

Definition set_uint_value (index value : Z) : st Mapping FormatError unit :=
  _ ← reads (λ m, check_type m index UintValue);
  write_payload index (set_numeric_value_bits 0 value).

Definition become_uint_value (index value name_index parent_index : Z) : st Mapping FormatError unit :=
  _ ← write_value_header index UintValue name_index parent_index;
  set_uint_value index value.

Definition set_bool_value (index : Z) (value : bool) : st Mapping FormatError unit :=
  _ ← reads (λ m, check_type m index BoolValue);
  write_payload index (set_numeric_value_bits 0 (if value then 1 else 0)).

Definition become_bool_value (index : Z) (value : bool) (name_index parent_index : Z) :
    st Mapping FormatError unit :=
  _ ← write_value_header index BoolValue name_index parent_index;
  set_bool_value index value.

Definition become_node (index name_index parent_index : Z) : st Mapping FormatError unit :=
  _ ← write_value_header index NodeValue name_index parent_index;
  write_payload index 0.

Definition become_property (index name_index parent_index : Z) (format : PropertyFormat) :
    st Mapping FormatError unit :=
  _ ← write_value_header index BufferValue name_index parent_index;
  write_payload index (set_property_flags_bits 0 (PropertyFormat_to_u8 format)).

Definition become_string_reference (index : Z) : st Mapping FormatError unit :=
  _ ← reads (λ m, check_type m index Reserved);
  header ← block_reads read_header index;
  let new_header := set_order_bits 0 (order_bits header) in
  let new_header := set_block_type_bits new_header (BlockType_to_u8 StringReference) in
  let new_header := set_extent_next_index_bits new_header 0 in
  let new_header := set_string_reference_count_bits new_header 0 in
  write_header index new_header.

Definition set_total_length (index length : Z) : st Mapping FormatError unit :=
  _ ← reads (λ m, check_multi_type m index [BufferValue; StringReference]);
  payload ← block_reads read_payload index;
  write_payload index (set_total_length_bits payload length).

Definition set_property_extent_index (index extent : Z) : st Mapping FormatError unit :=
  _ ← reads (λ m, check_type m index BufferValue);
  payload ← block_reads read_payload index;
  write_payload index (set_property_extent_index_bits payload extent).

Definition set_child_count (index count : Z) : st Mapping FormatError unit :=
  _ ← reads (λ m, check_multi_type m index [NodeValue; Tombstone]);
  write_payload index count.

Definition increment_string_reference_count (index : Z) : st Mapping FormatError unit :=
  _ ← reads (λ m, check_type m index StringReference);
  header ← block_reads read_header index;
  let cur := string_reference_count_bits header in
  if u32_size <=? cur + 1 then throw InvalidReferenceCount
  else write_header index (set_string_reference_count_bits header (cur + 1)).

Definition decrement_string_reference_count (index : Z) : st Mapping FormatError unit :=
  _ ← reads (λ m, check_type m index StringReference);
  header ← block_reads read_header index;
  let cur := string_reference_count_bits header in
  if cur <? 1 then throw InvalidReferenceCount
  else write_header index (set_string_reference_count_bits header (cur - 1)).

Definition write_string_reference_inline (index : Z) (value : list Z) : st Mapping FormatError Z :=
  _ ← reads (λ m, check_type m index StringReference);
  _ ← set_total_length index (as_u32 (len value));
  o ← block_reads order index;
  let max_len := payload_size_for_order o - STRING_REFERENCE_TOTAL_LENGTH_BYTES in
  let to_inline := take (Z.to_nat (Z.min (len value) max_len)) value in
  write_bytes (payload_offset index + STRING_REFERENCE_TOTAL_LENGTH_BYTES) to_inline.

(** The bytes of a cut name, last byte first: the loop that deletes a fragment of a
    character.  It underflows when no ASCII byte is left. *)
Fixpoint delete_fragment {E} (rev_bytes : list Z) : outcome E (list Z) :=
  match rev_bytes with
  | [] => Panic
  | b :: rest => if Z.land b 0x80 =? 0 then Ok rev_bytes else delete_fragment rest
  end.

Definition become_name (index : Z) (name : rstring) : st Mapping FormatError unit :=
  _ ← reads (λ m, check_type m index Reserved);
  o ← block_reads order index;
  let max_len := payload_size_for_order o in
  bytes ← lift (if max_len <? len name
                then rev_bytes ← delete_fragment (reverse (take (Z.to_nat (Z.min (len name) max_len)) name));
                     Ok (reverse rev_bytes)
                else Ok name);
  header ← block_reads read_header index;
  let header := set_block_type_bits header (BlockType_to_u8 Name) in
  if 2 ^ 16 <=? len bytes then panic
  else
    let header := set_name_length_bits header (len bytes) in
    _ ← write_header index header;
    write_payload_from_bytes index bytes.

Definition set_free_next_index (index next_free : Z) : st Mapping FormatError unit :=
  _ ← reads (λ m, check_type m index Free);
  header ← block_reads read_header index;
  write_header index (set_free_next_index_bits header next_free).

Definition become_link (index name_index parent_index content_index : Z)
    (disposition_flags : LinkNodeDisposition) : st Mapping FormatError unit :=
  _ ← write_value_header index LinkValue name_index parent_index;
  let payload := set_content_index_bits 0 content_index in
  let payload := set_disposition_flags_bits payload (LinkNodeDisposition_to_u8 disposition_flags) in
  write_payload index payload.

Definition set_parent (index new_parent_index : Z) : st Mapping FormatError unit :=
  _ ← reads (λ m, check_any_value m index);
  header ← block_reads read_header index;
  write_header index (set_value_parent_index_bits header new_parent_index).
