(* ===== verification/InspectHeap.v ===== *)
(** The buddy allocator of an Inspect VMO
    ([src/lib/diagnostics/inspect/rust/src/writer/heap.rs]).  The state is the [Heap]
    with its mapped VMO; a [Block] of the heap is its index.  Every loop has a fuel
    and panics without it; the theorems show that the fuel suffices. *)
From Stdlib Require Import ZArith Lia.
From stdpp Require Import base gmap strings list.
From S2P Require Import Prelude StateError InspectFormat InspectBlock.
Local Open Scope Z_scope.

(** Errors of the writer. *)
Inductive Error :=
| Fidl (message : rstring)
| AllocateVmo (status : Z)
| VmoSize (status : Z)
| FreeFailed (value_type : rstring) (index : Z) (error : Error)
| CreateFailed (value_type : rstring) (error : Error)
| NoOp (message : rstring)
| CreateHeap (error : Error)
| CreateState (error : Error)
| BlockAlreadyFree (index : Z)
| InvalidIndex (index : Z) (reason : rstring)
| HeapMaxSizeReached
| BlockSizeTooBig (size : Z)
| InvalidBlockType (index : Z) (t : BlockType)
| Writer_InvalidBlockTypeNumber (index number : Z)
| Writer_UnexpectedBlockType (expected actual : BlockType)
| Writer_UnexpectedBlockTypeRepr (expected : rstring) (actual : BlockType)
| Writer_ExpectedLockState (locked : bool)
| InvalidBlockOrder (order : Z)
| InvalidBlockOrderAtIndex (order index : Z)
| Writer_InvalidBlockSwap
| NonNumericArrayType (index : Z)
| Writer_ArrayCapacityExceeded (slots order max_capacity : Z)
| Writer_InvalidFlags (value_type : rstring) (flags index : Z)
| Writer_NameNotUtf8
| Writer_FailedToConvertArraySlotsToUsize
| VmoFormat (error : FormatError)
| AdoptionIntoWrongVmo
| AdoptAncestor.

Record Heap := mkHeap {
  mapping : Mapping;
  current_size_bytes : Z;
  free_head_per_order : list Z;
  allocated_blocks : Z;
  deallocated_blocks : Z;
  failed_allocations : Z;
}.

Definition set_mapping (m : Mapping) (h : Heap) : Heap :=
  mkHeap m (current_size_bytes h) (free_head_per_order h) (allocated_blocks h)
    (deallocated_blocks h) (failed_allocations h).
Definition set_free_heads (l : list Z) (h : Heap) : Heap :=
  mkHeap (mapping h) (current_size_bytes h) l (allocated_blocks h)
    (deallocated_blocks h) (failed_allocations h).
Definition set_current_size (n : Z) (h : Heap) : Heap :=
  mkHeap (mapping h) n (free_head_per_order h) (allocated_blocks h)
    (deallocated_blocks h) (failed_allocations h).
Definition count_allocated (h : Heap) : Heap :=
  mkHeap (mapping h) (current_size_bytes h) (free_head_per_order h) (allocated_blocks h + 1)
    (deallocated_blocks h) (failed_allocations h).
Definition count_deallocated (h : Heap) : Heap :=
  mkHeap (mapping h) (current_size_bytes h) (free_head_per_order h) (allocated_blocks h)
    (deallocated_blocks h + 1) (failed_allocations h).
Definition count_failed (h : Heap) : Heap :=
  mkHeap (mapping h) (current_size_bytes h) (free_head_per_order h) (allocated_blocks h)
    (deallocated_blocks h) (failed_allocations h + 1).

(** A method of a block of the heap. *)
Definition on_block {A} (m : st Mapping FormatError A) : st Heap Error A :=
  zoom mapping set_mapping VmoFormat m.

(** A method of a block that returns no [Result]. *)
Definition block_get {A} (f : Mapping → Z → outcome FormatError A) (h : Heap) (index : Z) :
    outcome Error A := infallible (f (mapping h) index).

Definition maximum_size (h : Heap) : Z := mapping_len (mapping h).

(** [self.free_head_per_order[order]], read and written. *)
Definition free_head (order : Z) : st Heap Error Z :=
  reads (λ h, Prelude.index (free_head_per_order h) order).
Definition set_free_head (order index : Z) : st Heap Error unit :=
  h ← get;
  l ← lift (index_set (free_head_per_order h) order index);
  modify (set_free_heads l).

Definition get_block (h : Heap) (index : Z) : outcome Error Z :=
  let offset := offset_for_index index in
  if current_size_bytes h <=? offset then
    Err (InvalidIndex index (str "offset exceeds current size"))
  else
    order ← block_get order h index;
    if current_size_bytes h - offset <? order_to_size order then
      Err (InvalidIndex index (str "order exceeds current size"))
    else Ok index.

Definition bytes (h : Heap) : outcome Error (list Z) :=
  read_at (mapping h) 0 (current_size_bytes h).

Definition is_free_block (h : Heap) (index expected_order : Z) : outcome Error bool :=
  if current_size_bytes h / MIN_ORDER_SIZE <=? index then Ok false
  else
    match get_block h index with
    | Err _ => Ok false
    | Panic => Panic
    | Ok block =>
      t ← block_get block_type h block;
      if bool_decide (t = Free) then
        o ← block_get order h block; Ok (o =? expected_order)
      else Ok false
    end.

(** The loop of [grow_heap]; the result is the last index written. *)
Fixpoint grow_loop (fuel : nat) (min_index last_index curr_index : Z) : st Heap Error Z :=
  match fuel with
  | O => panic
  | S fuel =>
    step ← lift (index_for_offset MAX_ORDER_SIZE);
    if curr_index <? step then panic
    else
      let curr_index := curr_index - step in
      _ ← unwrap (on_block (new_free curr_index (NUM_ORDERS - 1) last_index));
      if curr_index <=? min_index then mret curr_index
      else grow_loop fuel min_index curr_index curr_index
  end.

Definition grow_heap (requested_size : Z) : st Heap Error unit :=
  h ← get;
  let mapping_size := mapping_len (mapping h) in
  if mapping_size <? requested_size then
    _ ← modify count_failed;
    throw HeapMaxSizeReached
  else
    let new_size := Z.min mapping_size requested_size in
    min_index ← lift (index_for_offset (current_size_bytes h));
    last_index ← free_head (NUM_ORDERS - 1);
    curr_index ← lift (index_for_offset (new_size - new_size mod PAGE_SIZE_BYTES));
    last_index ← grow_loop (S (Z.to_nat curr_index)) min_index last_index curr_index;
    _ ← set_free_head (NUM_ORDERS - 1) last_index;
    modify (set_current_size new_size).

Definition new (m : Mapping) : Heap * outcome Error unit :=
  grow_heap PAGE_SIZE_BYTES
    (mkHeap m 0 (replicate (Z.to_nat NUM_ORDERS) 0) 0 0 0).

(** The loop of [remove_free] over the free list. *)
Fixpoint remove_free_loop (fuel : nat) (order index next_index : Z) : st Heap Error bool :=
  match fuel with
  | O => panic
  | S fuel =>
    free ← reads (λ h, is_free_block h next_index order);
    if negb free then mret false
    else
      curr_block ← unwrap (reads (λ h, get_block h next_index));
      next_index ← on_block (block_reads free_next_index curr_block);
      if next_index =? index then
        next ← on_block (block_reads free_next_index index);
        _ ← on_block (set_free_next_index curr_block next);
        mret true
      else remove_free_loop fuel order index next_index
  end.

Definition remove_free (index : Z) : st Heap Error bool :=
  h ← get;
  o ← lift (block_get order h index);
  if NUM_ORDERS <=? o then mret false
  else
    next_index ← free_head o;
    if next_index =? index then
      next ← on_block (block_reads free_next_index index);
      _ ← set_free_head o next;
      mret true
    else remove_free_loop (S (Z.to_nat (current_size_bytes h / MIN_ORDER_SIZE))) o index next_index.

Definition buddy {E} (index order : Z) : outcome E Z :=
  size ← index_for_offset (order_to_size order); Ok (Z.lxor index size).

Definition split_block (index : Z) : st Heap Error unit :=
  o ← reads (λ h, block_get order h index);
  if NUM_ORDERS <=? o then throw (InvalidBlockOrderAtIndex o index)
  else
    _ ← remove_free index;
    o ← reads (λ h, block_get order h index);
    if o <? 1 then panic
    else
      buddy_index ← lift (buddy index (o - 1));
      _ ← on_block (set_order index (o - 1));
      _ ← on_block (become_free index buddy_index);
      _ ← on_block (set_order buddy_index (o - 1));
      head ← free_head (o - 1);
      _ ← on_block (become_free buddy_index head);
      set_free_head (o - 1) index.

(** [(min_fit_order..NUM_ORDERS).find(..)]. *)
Fixpoint find_order (h : Heap) (orders : list Z) : outcome Error (option Z) :=
  match orders with
  | [] => Ok None
  | i :: orders =>
    head ← Prelude.index (free_head_per_order h) i;
    free ← is_free_block h head i;
    if free : bool then Ok (Some i) else find_order h orders
  end.

(** The loop [while block.order() > min_fit_order]. *)
Fixpoint split_loop (fuel : nat) (index min_fit_order : Z) : st Heap Error unit :=
  match fuel with
  | O => panic
  | S fuel =>
    o ← reads (λ h, block_get order h index);
    if min_fit_order <? o then
      _ ← split_block index;
      split_loop fuel index min_fit_order
    else mret tt
  end.

Definition allocate_block (min_size : Z) : st Heap Error Z :=
  min_fit_order ← lift (fit_order min_size);
  if NUM_ORDERS <=? min_fit_order then throw (InvalidBlockOrder min_fit_order)
  else
    order_found ← reads (λ h, find_order h (seqZ min_fit_order (NUM_ORDERS - min_fit_order)));
    next_order ← match order_found with
                 | Some order => mret order
                 | None =>
                   h ← get;
                   _ ← grow_heap (current_size_bytes h + PAGE_SIZE_BYTES);
                   mret (NUM_ORDERS - 1)
                 end;
    next_block_index ← free_head next_order;
    block ← unwrap (reads (λ h, get_block h next_block_index));
    _ ← split_loop 16 block min_fit_order;
    _ ← remove_free block;
    _ ← unwrap (on_block (become_reserved block));
    _ ← modify count_allocated;
    mret block.

(** The body of the merging loop of [free_block]: the next block to free and its
    buddy. *)
Definition merge_buddies (block_to_free buddy_block : Z) : st Heap Error (Z * Z) :=
  _ ← remove_free buddy_block;
  '(block_to_free, buddy_block) ←
    (if buddy_block <? block_to_free
     then on_block (reads (λ m, swap m block_to_free buddy_block))
     else mret (block_to_free, buddy_block));
  o ← reads (λ h, block_get order h block_to_free);
  _ ← on_block (set_order block_to_free (o + 1));
  o ← reads (λ h, block_get order h block_to_free);
  buddy_index ← lift (buddy block_to_free o);
  buddy_block ← unwrap (reads (λ h, get_block h buddy_index));
  mret (block_to_free, buddy_block).

(** The merging loop; the result is the block to free. *)
Fixpoint merge_loop (fuel : nat) (block_to_free buddy_block : Z) : st Heap Error Z :=
  match fuel with
  | O => panic
  | S fuel =>
    t ← reads (λ h, block_get block_type h buddy_block);
    o ← reads (λ h, block_get order h block_to_free);
    buddy_order ← reads (λ h, block_get order h buddy_block);
    if bool_decide (t = Free) && (o <? NUM_ORDERS - 1) && (o =? buddy_order) then
      '(block_to_free, buddy_block) ← merge_buddies block_to_free buddy_block;
      merge_loop fuel block_to_free buddy_block
    else mret block_to_free
  end.

Definition free_block (block : Z) : st Heap Error unit :=
  t ← reads (λ h, block_get block_type h block);
  if bool_decide (t = Free) then throw (BlockAlreadyFree block)
  else
    o ← reads (λ h, block_get order h block);
    buddy_index ← lift (buddy block o);
    buddy_block ← unwrap (reads (λ h, get_block h buddy_index));
    block_to_free ← merge_loop 9 block buddy_block;
    o ← reads (λ h, block_get order h block_to_free);
    head ← free_head o;
    _ ← on_block (become_free block_to_free head);
    o ← reads (λ h, block_get order h block_to_free);
    _ ← set_free_head o block_to_free;
    modify count_deallocated.
