(* ===== verification/InspectState.v ===== *)
(** The state of an Inspect writer
    ([src/lib/diagnostics/inspect/rust/src/writer/state.rs]): values, names, string
    references, properties with their extents, lazy nodes, transactions and the lock
    around every operation.  A block is its index; a callback is known by a number; the
    counter of string reference ids, a [static] of [string_reference.rs], is kept with
    the state. *)
From Stdlib Require Import ZArith Lia.
From Stdlib Require Import SpecFloat.
From stdpp Require Import base gmap strings list.
From S2P Require Import Prelude Format StateError InspectFormat InspectBlock InspectHeap.
Local Open Scope Z_scope.

(** ** Arithmetic of metrics *)

Definition i64_min : Z := - 2 ^ 63.
Definition i64_max : Z := 2 ^ 63 - 1.

Definition checked_i64 (x : Z) : option Z :=
  if (i64_min <=? x) && (x <=? i64_max) then Some x else None.
Definition checked_u64 (x : Z) : option Z :=
  if (0 <=? x) && (x <? u64_size) then Some x else None.

Definition safe_sub_u64 (a b : Z) : Z := default 0 (checked_u64 (a - b)).
Definition safe_add_u64 (a b : Z) : Z := default (u64_size - 1) (checked_u64 (a + b)).
Definition safe_sub_i64 (a b : Z) : Z := default i64_min (checked_i64 (a - b)).
Definition safe_add_i64 (a b : Z) : Z := default i64_max (checked_i64 (a + b)).

Lemma checked_u64_fits x : 0 <= x < u64_size → checked_u64 x = Some x.
Proof.
  intros [??]. unfold checked_u64. by rewrite (proj2 (Z.leb_le 0 x)), (proj2 (Z.ltb_lt x u64_size)).
Qed.

(** An overflow panics. *)
Definition arith {E} (o : option Z) : outcome E Z :=
  match o with
  | Some x => Ok x
  | None => Panic
  end.

(** A [f64] as its bits. *)
Definition f64_of_bits (b : Z) : spec_float :=
  let sign := Z.testbit b 63 in
  let exponent := Z.shiftr b 52 mod 2 ^ 11 in
  let mantissa := b mod 2 ^ 52 in
  if exponent =? 0 then
    match mantissa with Zpos p => S754_finite sign p (-1074) | _ => S754_zero sign end
  else if exponent =? 2047 then
    if mantissa =? 0 then S754_infinity sign else S754_nan
  else
    match mantissa + 2 ^ 52 with Zpos p => S754_finite sign p (exponent - 1075) | _ => S754_nan end.

(** The bits of a number, [nan] when it is not one. *)
Definition f64_to_bits (nan : Z) (f : spec_float) : Z :=
  let sign (s : bool) := if s then 2 ^ 63 else 0 in
  match f with
  | S754_zero s => sign s
  | S754_infinity s => sign s + Z.shiftl 2047 52
  | S754_nan => nan
  | S754_finite s m e =>
    if Zpos m <? 2 ^ 52 then sign s + Zpos m
    else sign s + Z.shiftl (e + 1075) 52 + (Zpos m - 2 ^ 52)
  end.

(** The sign and the payload of a NaN that an operation gives are not specified by the
    language: the machine computes them from the operands. *)
Inductive float_op := Float_add | Float_sub | Float_mul.

Class FloatNaN := {
  nan_bits : float_op → Z → Z → Z;
  nan_bits_nan op a b : f64_of_bits (nan_bits op a b) = S754_nan;
  nan_bits_u64 op a b : 0 <= nan_bits op a b < u64_size
}.

(** The machine that always gives the same quiet NaN. *)
Definition quiet_nan : FloatNaN.
Proof. by refine {| nan_bits _ _ _ := Z.shiftl 4095 51 |}. Defined.

Section f64.
Context `{!FloatNaN}.

Definition safe_sub_f64 (a b : Z) : Z :=
  f64_to_bits (nan_bits Float_sub a b) (SFsub 53 1024 (f64_of_bits a) (f64_of_bits b)).
Definition safe_add_f64 (a b : Z) : Z :=
  f64_to_bits (nan_bits Float_add a b) (SFadd 53 1024 (f64_of_bits a) (f64_of_bits b)).
End f64.

(** ** State *)

Record StringRef := mkStringRef { data : rstring; reference_id : Z }.

Record InnerState := mkInnerState {
  heap : Heap;
  next_unique_link_id : Z;
  transaction_count : Z;
  string_reference_ids : gmap Z Z;
  callbacks : gmap rstring Z;
  next_string_reference_id : Z;
}.

Definition set_heap (h : Heap) (s : InnerState) : InnerState :=
  mkInnerState h (next_unique_link_id s) (transaction_count s) (string_reference_ids s)
    (callbacks s) (next_string_reference_id s).
Definition set_next_unique_link_id (n : Z) (s : InnerState) : InnerState :=
  mkInnerState (heap s) n (transaction_count s) (string_reference_ids s)
    (callbacks s) (next_string_reference_id s).
Definition set_transaction_count (n : Z) (s : InnerState) : InnerState :=
  mkInnerState (heap s) (next_unique_link_id s) n (string_reference_ids s)
    (callbacks s) (next_string_reference_id s).
Definition set_string_reference_ids (f : gmap Z Z → gmap Z Z) (s : InnerState) : InnerState :=
  mkInnerState (heap s) (next_unique_link_id s) (transaction_count s)
    (f (string_reference_ids s)) (callbacks s) (next_string_reference_id s).
Definition set_callbacks (f : gmap rstring Z → gmap rstring Z) (s : InnerState) : InnerState :=
  mkInnerState (heap s) (next_unique_link_id s) (transaction_count s)
    (string_reference_ids s) (f (callbacks s)) (next_string_reference_id s).
Definition set_next_string_reference_id (n : Z) (s : InnerState) : InnerState :=
  mkInnerState (heap s) (next_unique_link_id s) (transaction_count s)
    (string_reference_ids s) (callbacks s) n.

Definition InnerState_new (h : Heap) (next_id : Z) : InnerState := mkInnerState h 0 0 ∅ ∅ next_id.

(** Methods of the heap and of its blocks. *)
Definition on_heap {A} (m : st Heap Error A) : st InnerState Error A := zoom heap set_heap id m.
Definition on_blk {A} (m : st Mapping FormatError A) : st InnerState Error A := on_heap (on_block m).
Definition blk {A} (f : Mapping → Z → outcome FormatError A) (index : Z) : st InnerState Error A :=
  on_blk (block_reads f index).
(** A method of a block that returns no [Result]. *)
Definition blk_get {A} (f : Mapping → Z → outcome FormatError A) (index : Z) : st InnerState Error A :=
  reads (λ s, block_get f (heap s) index).
Definition heap_block (index : Z) : st InnerState Error Z := reads (λ s, get_block (heap s) index).

(** The rounds a walk over the blocks of the heap can take. *)
Definition heap_fuel (s : InnerState) : nat :=
  S (Z.to_nat (current_size_bytes (heap s) / MIN_ORDER_SIZE)).

(** [StringReference::new]: a fresh id. *)
Definition StringReference_new (data : rstring) : st InnerState Error StringRef :=
  s ← get;
  let id := next_string_reference_id s in
  _ ← modify (set_next_string_reference_id ((id + 1) mod u64_size));
  mret (mkStringRef data id).

(** ** Extents *)

Fixpoint free_extents_loop (fuel : nat) (index : Z) : st InnerState Error unit :=
  match fuel with
  | O => panic
  | S fuel =>
    if index =? ROOT_INDEX then mret tt
    else
      block ← unwrap (heap_block index);
      next ← blk next_extent block;
      _ ← on_heap (free_block block);
      free_extents_loop fuel next
  end.

Definition free_extents (head_extent_index : Z) : st InnerState Error unit :=
  s ← get; free_extents_loop (heap_fuel s) head_extent_index.

(** The loop of [write_extents], from the extent to be filled with [value]. *)
Fixpoint write_extents_loop (fuel : nat) (extent_block : Z) (value : list Z) : st InnerState Error unit :=
  match fuel with
  | O => panic
  | S fuel =>
    _ ← on_blk (become_extent extent_block 0);
    bytes_written ← on_blk (extent_set_contents extent_block value);
    let value := drop (Z.to_nat bytes_written) value in
    if 0 <? len value then
      block ← on_heap (allocate_block (block_size_for_payload (len value)));
      _ ← on_blk (set_extent_next_index extent_block block);
      write_extents_loop fuel block value
    else mret tt
  end.

Definition write_extents (value : list Z) : st InnerState Error Z :=
  if len value =? 0 then mret ROOT_INDEX
  else
    extent_block ← on_heap (allocate_block (block_size_for_payload (len value)));
    _ ← write_extents_loop (S (length value)) extent_block value;
    mret extent_block.

Definition inner_set_property_value (block : Z) (value : list Z) : st InnerState Error unit :=
  first ← blk property_extent_index block;
  _ ← free_extents first;
  extent_index ← write_extents value;
  if u32_size <=? len value then panic
  else
    _ ← on_blk (set_total_length block (len value));
    on_blk (set_property_extent_index block extent_index).

(** ** String references *)

(** [inline_string_reference]: the number of bytes written, when there are more. *)
Definition state_inline_string_reference (block : Z) (value : list Z) : st InnerState Error (option Z) :=
  bytes_written ← on_blk (write_string_reference_inline block value);
  mret (if bytes_written <? len value then Some bytes_written else None).

Definition write_string_reference_payload (block : Z) (value : rstring) : st InnerState Error unit :=
  written ← state_inline_string_reference block value;
  head_extent ← match written with
                | Some written => write_extents (drop (Z.to_nat written) value)
                | None => mret 0
                end;
  _ ← on_blk (set_extent_next_index block head_extent);
  if u32_size <=? len value then panic
  else on_blk (set_total_length block (len value)).

Definition create_string_reference (string_reference : StringRef) : st InnerState Error Z :=
  s ← get;
  match string_reference_ids s !! reference_id string_reference with
  | None =>
    block ← on_heap (allocate_block (block_size_for_payload
              (len (data string_reference) + STRING_REFERENCE_TOTAL_LENGTH_BYTES)));
    _ ← on_blk (become_string_reference block);
    _ ← write_string_reference_payload block (data string_reference);
    _ ← modify (set_string_reference_ids <[reference_id string_reference := block]>);
    mret block
  | Some index => heap_block index
  end.

Section hashed.
Context `{!HashMapOrder Z Z}.

Definition maybe_free_string_reference (block : Z) : st InnerState Error unit :=
  count ← blk string_reference_count block;
  if negb (count =? 0) then mret tt
  else
    first_extent ← blk next_extent block;
    _ ← on_heap (free_block block);
    s ← get;
    _ ← match list_find (λ p : Z * Z, p.2 = block) (hash_map_iter (string_reference_ids s)) with
        | Some (_, (id, _)) => modify (set_string_reference_ids (delete id))
        | None => mret tt
        end;
    if first_extent =? 0 then mret tt else free_extents first_extent.

Definition release_string_reference (block : Z) : st InnerState Error unit :=
  _ ← on_blk (decrement_string_reference_count block);
  maybe_free_string_reference block.
End hashed.

Fixpoint read_string_loop (fuel : nat) (next : Z) (content : list Z) : st InnerState Error (list Z) :=
  match fuel with
  | O => panic
  | S fuel =>
    if next =? 0 then mret content
    else
      next_block ← heap_block next;
      more ← blk extent_contents next_block;
      next ← blk next_extent next_block;
      read_string_loop fuel next (content ++ more)
  end.

Definition read_string_reference (block : Z) : st InnerState Error rstring :=
  content ← blk inline_string_reference block;
  next ← blk next_extent block;
  s ← get;
  content ← read_string_loop (heap_fuel s) next content;
  length ← blk total_length block;
  let content := take (Z.to_nat length) content in
  if utf8_valid content then mret content else throw Writer_NameNotUtf8.

Definition load_key_string (index : Z) : st InnerState Error rstring :=
  block ← heap_block index;
  t ← blk_get block_type block;
  match t with
  | StringReference => read_string_reference block
  | Name =>
    r ← attempt (blk name_contents block);
    match r with
    | inl name => mret name
    | inr _ => throw Writer_NameNotUtf8
    end
  | wrong_type => throw (InvalidBlockType index wrong_type)
  end.

(** ** Values *)

(** [child_count + 1] and [child_count - 1] of a [u64]. *)
Definition count_up {E} (n : Z) : outcome E Z := if n + 1 <? u64_size then Ok (n + 1) else Panic.
Definition count_down {E} (n : Z) : outcome E Z := if 0 <? n then Ok (n - 1) else Panic.

(** The parent of a new value counts it. *)
Definition adopt_value (parent_index : Z) : st InnerState Error unit :=
  parent_block ← heap_block parent_index;
  t ← blk_get block_type parent_block;
  match t with
  | NodeValue | Tombstone =>
    count ← unwrap (blk child_count parent_block);
    count ← lift (count_up count);
    on_blk (set_child_count parent_block count)
  | Header => mret tt
  | t => throw (InvalidBlockType parent_index t)
  end.

Section values.
Context `{!HashMapOrder Z Z}.

(** The new value block and the block of its name. *)
Definition allocate_reserved_value (name : StringRef) (parent_index block_size : Z) :
    st InnerState Error (Z * Z) :=
  block ← on_heap (allocate_block block_size);
  r ← attempt (create_string_reference name);
  match r with
  | inl name_block =>
    _ ← on_blk (increment_string_reference_count name_block);
    result ← attempt (adopt_value parent_index);
    match result with
    | inl _ => mret (block, name_block)
    | inr err =>
      _ ← release_string_reference name_block;
      _ ← on_heap (free_block block);
      throw err
    end
  | inr err =>
    _ ← on_heap (free_block block);
    throw err
  end.

(** The parent of a deleted value: one child less; a tombstone without children goes. *)
Definition disown_value (parent_index : Z) : st InnerState Error unit :=
  parent ← unwrap (heap_block parent_index);
  count ← unwrap (blk child_count parent);
  count ← lift (count_down count);
  t ← blk_get block_type parent;
  if bool_decide (t = Tombstone) && (count =? 0) then unwrap (on_heap (free_block parent))
  else unwrap (on_blk (set_child_count parent count)).

Definition delete_value (block : Z) : st InnerState Error unit :=
  parent_index ← blk parent_index block;
  _ ← (if negb (parent_index =? ROOT_INDEX) then disown_value parent_index else mret tt);
  name_index ← blk name_index block;
  name ← unwrap (heap_block name_index);
  t ← blk_get block_type name;
  _ ← match t with
      | StringReference => release_string_reference name
      | _ => unwrap (on_heap (free_block name))
      end;
  t ← blk_get block_type block;
  keep ← (if bool_decide (t = NodeValue) then
            count ← blk child_count block; mret (negb (count =? 0))
          else mret false);
  if keep : bool then on_blk (become_tombstone block)
  else on_heap (free_block block).

Definition create_node (name : StringRef) (parent_index : Z) : st InnerState Error Z :=
  '(block, name_block) ← allocate_reserved_value name parent_index MIN_ORDER_SIZE;
  _ ← on_blk (become_node block name_block parent_index);
  mret block.

Definition free_value (index : Z) : st InnerState Error unit :=
  block ← heap_block index;
  unwrap (delete_value block).

(** ** Properties *)

Definition create_property (name : StringRef) (value : list Z) (format : PropertyFormat)
    (parent_index : Z) : st InnerState Error Z :=
  '(block, name_block) ← allocate_reserved_value name parent_index MIN_ORDER_SIZE;
  _ ← on_blk (become_property block name_block parent_index format);
  r ← attempt (inner_set_property_value block value);
  match r with
  | inl _ => mret block
  | inr err =>
    _ ← unwrap (on_heap (free_block block));
    _ ← unwrap (on_heap (free_block name_block));
    throw err
  end.

Definition free_property (index : Z) : st InnerState Error unit :=
  block ← heap_block index;
  extent ← blk property_extent_index block;
  _ ← free_extents extent;
  delete_value block.

Definition set_property (block_index : Z) (value : list Z) : st InnerState Error unit :=
  block ← heap_block block_index;
  inner_set_property_value block value.

(** ** Moving a value *)

Fixpoint check_lineage_loop (fuel : nat) (being_reparented being_checked : Z) :
    st InnerState Error unit :=
  match fuel with
  | O => panic
  | S fuel =>
    if being_checked =? ROOT_INDEX then mret tt
    else if being_checked =? being_reparented then throw AdoptAncestor
    else
      block ← heap_block being_checked;
      parent ← blk parent_index block;
      check_lineage_loop fuel being_reparented parent
  end.

Definition check_lineage (being_reparented new_parent : Z) : st InnerState Error unit :=
  if being_reparented =? ROOT_INDEX then throw AdoptAncestor
  else s ← get; check_lineage_loop (heap_fuel s) being_reparented new_parent.

Definition reparent (being_reparented new_parent : Z) : st InnerState Error unit :=
  _ ← check_lineage being_reparented new_parent;
  being_reparented_block ← heap_block being_reparented;
  original_parent_idx ← blk parent_index being_reparented_block;
  _ ← (if negb (original_parent_idx =? ROOT_INDEX) then
         original_parent_block ← heap_block original_parent_idx;
         child_count ← blk child_count original_parent_block;
         child_count ← lift (count_down child_count);
         on_blk (set_child_count original_parent_block child_count)
       else mret tt);
  _ ← on_blk (set_parent being_reparented_block new_parent);
  if negb (new_parent =? ROOT_INDEX) then
    new_parent_block ← heap_block new_parent;
    child_count ← blk child_count new_parent_block;
    child_count ← lift (count_up child_count);
    on_blk (set_child_count new_parent_block child_count)
  else mret tt.

(** ** Booleans, metrics and arrays *)

Definition create_bool (name : StringRef) (value : bool) (parent_index : Z) : st InnerState Error Z :=
  '(block, name_block) ← allocate_reserved_value name parent_index MIN_ORDER_SIZE;
  _ ← on_blk (become_bool_value block value name_block parent_index);
  mret block.

Definition set_bool (block_index : Z) (value : bool) : st InnerState Error unit :=
  block ← heap_block block_index;
  on_blk (set_bool_value block value).

(** The macro [metric_fns], over the accessors of the type. *)
Section metric_fns.
Context (become_value : Z → Z → Z → Z → st Mapping FormatError unit).
Context (set_value : Z → Z → st Mapping FormatError unit).
Context (value_of : Mapping → Z → outcome FormatError Z).
Context (safe_add safe_sub : Z → Z → Z).

Definition create_metric (name : StringRef) (value parent_index : Z) : st InnerState Error Z :=
  '(block, name_block) ← allocate_reserved_value name parent_index MIN_ORDER_SIZE;
  _ ← on_blk (become_value block value name_block parent_index);
  mret block.

Definition set_metric (block_index value : Z) : st InnerState Error unit :=
  block ← heap_block block_index;
  on_blk (set_value block value).

Definition add_metric (block_index value : Z) : st InnerState Error unit :=
  block ← heap_block block_index;
  current_value ← blk value_of block;
  on_blk (set_value block (safe_add current_value value)).

Definition subtract_metric (block_index value : Z) : st InnerState Error unit :=
  block ← heap_block block_index;
  current_value ← blk value_of block;
  let new_value := safe_sub current_value value in
  on_blk (set_value block new_value).

Definition get_metric (block_index : Z) : st InnerState Error Z :=
  block ← heap_block block_index;
  blk value_of block.
End metric_fns.

Definition create_int_metric := create_metric become_int_value.
Definition set_int_metric := set_metric set_int_value.
Definition add_int_metric := add_metric set_int_value int_value safe_add_i64.
Definition subtract_int_metric := subtract_metric set_int_value int_value safe_sub_i64.
Definition get_int_metric := get_metric int_value.
Definition create_uint_metric := create_metric become_uint_value.
Definition set_uint_metric := set_metric set_uint_value.
Definition add_uint_metric := add_metric set_uint_value uint_value safe_add_u64.
Definition subtract_uint_metric := subtract_metric set_uint_value uint_value safe_sub_u64.
Definition get_uint_metric := get_metric uint_value.
Definition create_double_metric := create_metric become_double_value.
Definition set_double_metric := set_metric set_double_value.
Definition add_double_metric `{!FloatNaN} := add_metric set_double_value double_value safe_add_f64.
Definition subtract_double_metric `{!FloatNaN} := subtract_metric set_double_value double_value safe_sub_f64.
Definition get_double_metric := get_metric double_value.

(** The macro [array_fns]; the three types have eight bytes. *)
Section array_fns.
Context (entry_type : BlockType).
Context (array_set : Z → Z → Z → st Mapping FormatError unit).
Context (array_get : Mapping → Z → Z → outcome FormatError Z).
Context (safe_add safe_sub : Z → Z → Z).

Definition create_array (name : StringRef) (slots : Z) (array_format : ArrayFormat)
    (parent_index : Z) : st InnerState Error Z :=
  slot_bytes ← lift (arith (checked_u64 (slots * 8)));
  block_size ← lift (arith (checked_u64 (slot_bytes + MIN_ORDER_SIZE)));
  if MAX_ORDER_SIZE <? block_size then throw (BlockSizeTooBig block_size)
  else
    '(block, name_block) ← allocate_reserved_value name parent_index block_size;
    _ ← on_blk (become_array_value block slots array_format entry_type name_block parent_index);
    mret block.

Definition set_array_slot (block_index slot_index value : Z) : st InnerState Error unit :=
  block ← heap_block block_index;
  on_blk (array_set block slot_index value).

Definition add_array_slot (block_index slot_index value : Z) : st InnerState Error unit :=
  block ← heap_block block_index;
  previous_value ← blk (λ m i, array_get m i slot_index) block;
  let new_value := safe_add previous_value value in
  on_blk (array_set block slot_index new_value).

Definition subtract_array_slot (block_index slot_index value : Z) : st InnerState Error unit :=
  block ← heap_block block_index;
  previous_value ← blk (λ m i, array_get m i slot_index) block;
  let new_value := safe_sub previous_value value in
  on_blk (array_set block slot_index new_value).
End array_fns.

Definition create_int_array := create_array IntValue.
Definition set_array_int_slot := set_array_slot array_set_int_slot.
Definition add_array_int_slot := add_array_slot array_set_int_slot array_get_int_slot safe_add_i64.
Definition subtract_array_int_slot := subtract_array_slot array_set_int_slot array_get_int_slot safe_sub_i64.
Definition create_uint_array := create_array UintValue.
Definition set_array_uint_slot := set_array_slot array_set_uint_slot.
Definition add_array_uint_slot := add_array_slot array_set_uint_slot array_get_uint_slot safe_add_u64.
Definition subtract_array_uint_slot := subtract_array_slot array_set_uint_slot array_get_uint_slot safe_sub_u64.
Definition create_double_array := create_array DoubleValue.
Definition set_array_double_slot := set_array_slot array_set_double_slot.
Definition add_array_double_slot `{!FloatNaN} := add_array_slot array_set_double_slot array_get_double_slot safe_add_f64.
Definition subtract_array_double_slot `{!FloatNaN} := subtract_array_slot array_set_double_slot array_get_double_slot safe_sub_f64.

Definition clear_array (block_index start_slot_index : Z) : st InnerState Error unit :=
  block ← heap_block block_index;
  on_blk (array_clear block start_slot_index).

(** ** Lazy nodes *)

Definition unique_link_name (prefix : rstring) : st InnerState Error rstring :=
  s ← get;
  let id := next_unique_link_id s in
  _ ← modify (set_next_unique_link_id ((id + 1) mod u64_size));
  mret (prefix ++ str "-" ++ fmt_dec id).

Definition allocate_link (name : StringRef) (content : rstring) (disposition : LinkNodeDisposition)
    (parent_index : Z) : st InnerState Error Z :=
  '(value_block, name_block) ← allocate_reserved_value name parent_index MIN_ORDER_SIZE;
  result ← attempt (content ← StringReference_new content;
                    content_block ← create_string_reference content;
                    _ ← on_blk (increment_string_reference_count content_block);
                    on_blk (become_link value_block name_block parent_index content_block disposition));
  match result with
  | inl _ => mret value_block
  | inr err =>
    _ ← delete_value value_block;
    throw err
  end.

Definition create_lazy_node (name : StringRef) (parent_index : Z) (disposition : LinkNodeDisposition)
    (callback : Z) : st InnerState Error Z :=
  content ← unique_link_name (data name);
  link ← allocate_link name content disposition parent_index;
  _ ← modify (set_callbacks <[content := callback]>);
  mret link.

Definition free_lazy_node (index : Z) : st InnerState Error unit :=
  block ← heap_block index;
  content_index ← blk link_content_index block;
  content_block ← heap_block content_index;
  content ← load_key_string content_block;
  _ ← delete_value block;
  t ← blk_get block_type content_block;
  _ ← match t with
      | StringReference => release_string_reference content_block
      | _ => unwrap (on_heap (free_block content_block))
      end;
  modify (set_callbacks (delete content)).

(** ** Locking *)

(** [LockedStateGuard]: the header is locked while the guard lives, unless a
    transaction holds it already; an error of the unlock in [drop] is only logged. *)
Definition lock_guard : st InnerState Error unit :=
  s ← get;
  if transaction_count s =? 0 then on_blk (lock_header HEADER_INDEX) else mret tt.

Definition drop_guard : st InnerState Error unit :=
  s ← get;
  if transaction_count s =? 0 then
    _ ← attempt (F := Error) (on_blk (unlock_header HEADER_INDEX)); mret tt
  else mret tt.

(** A method called through [try_lock]. *)
Definition locked {A} (op : st InnerState Error A) : st InnerState Error A :=
  _ ← lock_guard;
  r ← attempt op;
  _ ← drop_guard;
  match r with
  | inl a => mret a
  | inr e => throw e
  end.

Definition begin_transaction : st InnerState Error unit :=
  s ← get;
  _ ← (if transaction_count s =? 0 then
         _ ← unwrap (on_blk (reads (λ m, check_locked m HEADER_INDEX false)));
         unwrap (on_blk (lock_header HEADER_INDEX))
       else mret tt);
  modify (set_transaction_count (transaction_count s + 1)).

Definition end_transaction : st InnerState Error unit :=
  s ← get;
  if transaction_count s <? 1 then panic
  else
    let n := transaction_count s - 1 in
    _ ← modify (set_transaction_count n);
    if n =? 0 then
      _ ← unwrap (on_blk (reads (λ m, check_locked m HEADER_INDEX true)));
      unwrap (on_blk (unlock_header HEADER_INDEX))
    else mret tt.
End values.

(** [State::create]. *)
Definition State_create (next_id : Z) : st Heap Error InnerState :=
  block ← allocate_block 16;
  _ ← on_block (become_header block);
  h ← get;
  mret (InnerState_new h next_id).

(** [frozen_vmo_copy]: the size and the copy-on-write child of the VMO come from the
    kernel. *)
Section frozen.
Context (vmo_get_size : outcome Z Z) (vmo_create_child : Mapping → option Mapping).

Definition frozen_vmo_copy : st InnerState Error (option Mapping) :=
  old ← on_blk (freeze_header HEADER_INDEX);
  s ← get;
  match vmo_get_size with
  | Ok _ =>
    let ret := vmo_create_child (mapping (heap s)) in
    _ ← on_blk (thaw_header HEADER_INDEX old);
    mret ret
  | Err status => throw (VmoSize status)
  | Panic => panic
  end.
End frozen.
