(* ===== verification/InspectReader.v ===== *)
(** Reading an Inspect VMO
    ([src/lib/diagnostics/inspect/rust/src/reader/snapshot.rs] and [reader/mod.rs]):
    the scan of the blocks of a buffer and the tree built from them.  The hierarchy
    types are those of [src/lib/diagnostics/hierarchy]. *)
From Stdlib Require Import ZArith Lia.
From Stdlib Require Import SpecFloat.
From stdpp Require Import base gmap strings list sorting.
From S2P Require Import Prelude StateError InspectFormat InspectBlock InspectHeap InspectState.
Local Open Scope Z_scope.

(** ** Hierarchies *)

Record Bucket := mkBucket { bucket_floor : Z; bucket_ceiling : Z; bucket_count : Z }.

Inductive ArrayContent :=
| Values (values : list Z)
| Buckets (buckets : list Bucket).

Inductive Property :=
| Property_String (name value : rstring)
| Property_Bytes (name : rstring) (value : list Z)
| Property_Int (name : rstring) (value : Z)
| Property_Uint (name : rstring) (value : Z)
| Property_Double (name : rstring) (value : Z)
| Property_Bool (name : rstring) (value : bool)
| Property_DoubleArray (name : rstring) (value : ArrayContent)
| Property_IntArray (name : rstring) (value : ArrayContent)
| Property_UintArray (name : rstring) (value : ArrayContent)
| Property_StringList (name : rstring) (value : list rstring).

Record LinkData := mkLink {
  link_name : rstring; link_content : rstring; link_disposition : LinkNodeDisposition }.

Inductive PartialNodeHierarchy :=
| mkHierarchy (name : rstring) (properties : list Property)
    (children : list PartialNodeHierarchy) (links : list LinkData).

Definition hierarchy_empty : PartialNodeHierarchy := mkHierarchy [] [] [] [].
Definition hierarchy_children (h : PartialNodeHierarchy) : list PartialNodeHierarchy :=
  match h with mkHierarchy _ _ children _ => children end.
Definition hierarchy_set_name (name : rstring) (h : PartialNodeHierarchy) : PartialNodeHierarchy :=
  match h with mkHierarchy _ p c l => mkHierarchy name p c l end.
Definition push_property (p : Property) (h : PartialNodeHierarchy) : PartialNodeHierarchy :=
  match h with mkHierarchy n ps c l => mkHierarchy n (ps ++ [p]) c l end.
Definition push_child (x : PartialNodeHierarchy) (h : PartialNodeHierarchy) : PartialNodeHierarchy :=
  match h with mkHierarchy n ps c l => mkHierarchy n ps (c ++ [x]) l end.
Definition push_link (x : LinkData) (h : PartialNodeHierarchy) : PartialNodeHierarchy :=
  match h with mkHierarchy n ps c l => mkHierarchy n ps c (l ++ [x]) end.

Inductive ReaderError :=
| MissingHeader
| ParentIndexNotFound (index : Z)
| MalformedTree
| Reader_VmoFormat (error : FormatError)
| AttemptedToReadTooManyArraySlots (index : Z)
| UnexpectedArrayEntryFormat (t : BlockType)
| ParseName (index : Z)
| GetLinkContent (index : Z)
| GetExtent (index : Z)
| InconsistentSnapshot
| MissingHeaderOrLocked
| NoOpInspector
| Reader_Vmo (status : Z)
| MissingHistogramElements (histogram_type : ArrayFormat) (expected actual : Z).

(** ** Array contents *)

(** What [ArrayContent::new] needs of an entry type: addition and multiplication (checked
    for integers) and the bounds. *)
Record Arith := mkArith {
  arith_add : Z → Z → option Z; arith_mul : Z → Z → option Z; arith_min : Z; arith_max : Z }.

Definition arith_i64 : Arith :=
  mkArith (λ a b, checked_i64 (a + b)) (λ a b, checked_i64 (a * b)) i64_min i64_max.
Definition arith_u64 : Arith :=
  mkArith (λ a b, checked_u64 (a + b)) (λ a b, checked_u64 (a * b)) 0 (u64_size - 1).
Definition arith_f64 `{!FloatNaN} : Arith :=
  mkArith (λ a b, Some (safe_add_f64 a b))
    (λ a b, Some (f64_to_bits (nan_bits Float_mul a b) (SFmul 53 1024 (f64_of_bits a) (f64_of_bits b))))
    0xFFEFFFFFFFFFFFFF 0x7FEFFFFFFFFFFFFF.

(** The buckets between the first and the last. *)
Fixpoint linear_buckets (T : Arith) (floor step_size : Z) (counts : list Z) :
    outcome ReaderError (list Bucket * Z) :=
  match counts with
  | [] => Ok ([], floor)
  | count :: counts =>
    ceiling ← arith (arith_add T floor step_size);
    '(rest, last) ← linear_buckets T ceiling step_size counts;
    Ok (mkBucket floor ceiling count :: rest, last)
  end.

Definition buckets_for_linear_hist (T : Arith) (values : list Z) : outcome ReaderError (list Bucket) :=
  if len values <? 5 then Err (MissingHistogramElements LinearHistogram 5 (len values))
  else
    floor ← Prelude.index values 0;
    step_size ← Prelude.index values 1;
    underflow ← Prelude.index values 2;
    overflow ← Prelude.index values (len values - 1);
    '(inner, last) ← linear_buckets T floor step_size (take (length values - 4) (drop 3 values));
    Ok (mkBucket (arith_min T) floor underflow :: inner ++ [mkBucket last (arith_max T) overflow]).

Fixpoint exponential_buckets (T : Arith) (floor step_multiplier offset current_floor : Z)
    (counts : list Z) : outcome ReaderError (list Bucket * Z) :=
  match counts with
  | [] => Ok ([], current_floor)
  | count :: counts =>
    ceiling ← arith (arith_add T floor offset);
    offset ← arith (arith_mul T offset step_multiplier);
    '(rest, last) ← exponential_buckets T floor step_multiplier offset ceiling counts;
    Ok (mkBucket current_floor ceiling count :: rest, last)
  end.

Definition buckets_for_exp_hist (T : Arith) (values : list Z) : outcome ReaderError (list Bucket) :=
  if len values <? 6 then Err (MissingHistogramElements ExponentialHistogram 6 (len values))
  else
    floor ← Prelude.index values 0;
    initial_step ← Prelude.index values 1;
    step_multiplier ← Prelude.index values 2;
    underflow ← Prelude.index values 3;
    overflow ← Prelude.index values (len values - 1);
    '(inner, last) ← exponential_buckets T floor step_multiplier initial_step floor
                       (take (length values - 5) (drop 4 values));
    Ok (mkBucket (arith_min T) floor underflow :: inner ++ [mkBucket last (arith_max T) overflow]).

Definition ArrayContent_new (T : Arith) (values : list Z) (format : ArrayFormat) :
    outcome ReaderError ArrayContent :=
  match format with
  | AF_Default => Ok (Values values)
  | LinearHistogram => buckets ← buckets_for_linear_hist T values; Ok (Buckets buckets)
  | ExponentialHistogram => buckets ← buckets_for_exp_hist T values; Ok (Buckets buckets)
  end.

(** ** Lossy UTF-8 *)

Definition replacement : rstring := [0xEF; 0xBF; 0xBD].

(** [String::from_utf8_lossy]: each maximal prefix of a character that is cut short, and
    each byte that starts none, becomes U+FFFD. *)
Fixpoint from_utf8_lossy (bs : list Z) : rstring :=
  match bs with
  | [] => []
  | b0 :: r0 =>
    if b0 <? 0x80 then b0 :: from_utf8_lossy r0
    else if in_range 0xC2 0xDF b0 then
      match r0 with
      | b1 :: r1 => if utf8_cont b1 then b0 :: b1 :: from_utf8_lossy r1
                    else replacement ++ from_utf8_lossy r0
      | [] => replacement
      end
    else if in_range 0xE0 0xEF b0 then
      match r0 with
      | b1 :: r1 =>
        if in_range (if b0 =? 0xE0 then 0xA0 else 0x80) (if b0 =? 0xED then 0x9F else 0xBF) b1 then
          match r1 with
          | b2 :: r2 => if utf8_cont b2 then b0 :: b1 :: b2 :: from_utf8_lossy r2
                        else replacement ++ from_utf8_lossy r1
          | [] => replacement
          end
        else replacement ++ from_utf8_lossy r0
      | [] => replacement
      end
    else if in_range 0xF0 0xF4 b0 then
      match r0 with
      | b1 :: r1 =>
        if in_range (if b0 =? 0xF0 then 0x90 else 0x80) (if b0 =? 0xF4 then 0x8F else 0xBF) b1 then
          match r1 with
          | b2 :: r2 =>
            if utf8_cont b2 then
              match r2 with
              | b3 :: r3 => if utf8_cont b3 then b0 :: b1 :: b2 :: b3 :: from_utf8_lossy r3
                            else replacement ++ from_utf8_lossy r2
              | [] => replacement
              end
            else replacement ++ from_utf8_lossy r1
          | [] => replacement
          end
        else replacement ++ from_utf8_lossy r0
      | [] => replacement
      end
    else replacement ++ from_utf8_lossy r0
  end.

(** ** Snapshots *)

(** [.ok()]. *)
Definition ok_opt {E F A} (o : outcome E A) : outcome F (option A) :=
  match o with
  | Ok a => Ok (Some a)
  | Err _ => Ok None
  | Panic => Panic
  end.

Inductive BackingBuffer :=
| Map_buffer (m : Mapping)
| Vector_buffer (v : list Z).

Definition buffer_len (b : BackingBuffer) : Z :=
  match b with Map_buffer m => mapping_len m | Vector_buffer v => len v end.
Definition buffer_byte (b : BackingBuffer) (a : Z) : Z :=
  match b with Map_buffer m => mapping_byte m a | Vector_buffer v => slice_byte v a end.
Definition buffer_read_bytes {E} (b : BackingBuffer) (offset n : Z) : outcome E (list Z) :=
  match b with
  | Map_buffer m => read_at m offset n
  | Vector_buffer v => slice_read_bytes v offset n
  end.

Lemma buffer_read_inside E (b : BackingBuffer) offset n :
  0 <= offset → 0 <= n → offset + n <= buffer_len b → buffer_len b < u64_size →
  buffer_read_bytes (E := E) b offset n = Ok (buffer_byte b <$> seqZ offset n).
Proof. destruct b; [apply read_at_inside|apply slice_read_inside]. Qed.

#[export] Instance BackingBuffer_container : ReadableBlockContainer BackingBuffer := {
  container_len := buffer_len;
  container_byte := buffer_byte;
  read_bytes E := buffer_read_bytes;
  read_bytes_inside := buffer_read_inside;
}.

(** [header_generation_count] of the 16 bytes of a header block. *)
Definition snapshot_generation_count (bytes : list Z) : outcome ReaderError (option Z) :=
  if len bytes <? 16 then Ok None
  else
    let block := take 16 bytes in
    t ← match block_type_or block 0 with
        | Ok t => Ok t
        | Err _ => Ok Reserved
        | Panic => Panic
        end;
    if bool_decide (t = Header) then
      magic ← infallible (header_magic block 0);
      if magic =? HEADER_MAGIC_NUMBER then
        version ← infallible (header_version block 0);
        if version <=? HEADER_VERSION_NUMBER then
          is_locked ← infallible (header_is_locked block 0);
          if negb is_locked then
            match header_generation_count block 0 with
            | Ok gen => Ok (Some gen)
            | Err _ => Ok None
            | Panic => Panic
            end
          else Ok None
        else Ok None
      else Ok None
    else Ok None.

(** [Snapshot::try_from] of bytes. *)
Definition Snapshot_try_from_bytes (bytes : list Z) : outcome ReaderError BackingBuffer :=
  generation ← snapshot_generation_count bytes;
  match generation with
  | Some _ => Ok (Vector_buffer bytes)
  | None => Err MissingHeaderOrLocked
  end.

(** What the kernel answers to the calls of one attempt to read a VMO: the first read of
    the header, a mapping of the VMO, its size, the read of all bytes, and the second read
    of the header. *)
Record VmoReads := mkVmoReads {
  first_header : Z + list Z;
  vmo_mapped : Z + Mapping;
  vmo_size : Z + Z;
  vmo_contents : Z → Z + list Z;
  second_header : Z + list Z;
}.

(** [.map_err(ReaderError::Vmo)?]. *)
Definition vmo_result {A} (r : Z + A) : outcome ReaderError A :=
  match r with
  | inl status => Err (Reader_Vmo status)
  | inr a => Ok a
  end.

Definition try_once_with_callback (vmo : VmoReads) : outcome ReaderError BackingBuffer :=
  header_bytes ← vmo_result (first_header vmo);
  generation ← snapshot_generation_count header_bytes;
  match generation with
  | Some gen =>
    match (if gen =? VMO_FROZEN then vmo_mapped vmo else inl 0) with
    | inr m => Ok (Map_buffer m)
    | inl _ =>
      size ← vmo_result (vmo_size vmo);
      buffer ← vmo_result (vmo_contents vmo size);
      header_bytes ← vmo_result (second_header vmo);
      generation ← snapshot_generation_count header_bytes;
      match generation with
      | None => Err InconsistentSnapshot
      | Some new_generation =>
        if negb (new_generation =? gen) then Err InconsistentSnapshot
        else Ok (Vector_buffer buffer)
      end
    end
  | None => Err InconsistentSnapshot
  end.

Definition SNAPSHOT_TRIES : Z := 1024.

(** The attempts of [try_from_with_callback], from the [i]-th on. *)
Fixpoint try_from_loop (fuel : nat) (vmo : Z → VmoReads) (i : Z) : outcome ReaderError BackingBuffer :=
  match fuel with
  | O => Panic
  | S fuel =>
    match try_once_with_callback (vmo i) with
    | Ok snapshot => Ok snapshot
    | Err e => if SNAPSHOT_TRIES <=? i then Err e else try_from_loop fuel vmo (i + 1)
    | Panic => Panic
    end
  end.

Definition try_from_with_callback (vmo : Z → VmoReads) : outcome ReaderError BackingBuffer :=
  try_from_loop (Z.to_nat (SNAPSHOT_TRIES + 1)) vmo 0.

Definition snapshot_get_block (b : BackingBuffer) (index : Z) : option Z :=
  if offset_for_index index <? buffer_len b then Some index else None.

(** [BlockIterator::next] at [offset]: the block found and the next offset. *)
Definition iterator_next (b : BackingBuffer) (offset : Z) : outcome ReaderError (option (Z * Z)) :=
  if buffer_len b <=? offset then Ok None
  else
    index ← index_for_offset offset;
    o ← infallible (order b index);
    if buffer_len b - offset <? order_to_size o then Ok None
    else Ok (Some (index, offset + order_to_size o)).

(** [snapshot.scan()]: the indices the iterator yields from [offset] on. *)
Fixpoint scan_from (b : BackingBuffer) (fuel : nat) (offset : Z) : outcome ReaderError (list Z) :=
  match fuel with
  | O => Panic
  | S fuel =>
    next ← iterator_next b offset;
    match next with
    | None => Ok []
    | Some (block, offset) => rest ← scan_from b fuel offset; Ok (block :: rest)
    end
  end.

Definition scan (b : BackingBuffer) : outcome ReaderError (list Z) :=
  scan_from b (S (Z.to_nat (buffer_len b))) 0.

(** ** Scanning *)

Record ScannedNode := mkScannedNode {
  partial_hierarchy : PartialNodeHierarchy;
  child_nodes_count : Z;
  node_parent_index : Z;
  initialized : bool;
}.

Definition ScannedNode_new : ScannedNode := mkScannedNode hierarchy_empty 0 0 false.
Definition initialize (name : rstring) (parent_index : Z) (n : ScannedNode) : ScannedNode :=
  mkScannedNode (hierarchy_set_name name (partial_hierarchy n)) (child_nodes_count n) parent_index true.
Definition is_complete (n : ScannedNode) : bool :=
  len (hierarchy_children (partial_hierarchy n)) =? child_nodes_count n.
Definition is_initialized (n : ScannedNode) : bool := initialized n.
Definition on_hierarchy (f : PartialNodeHierarchy → PartialNodeHierarchy) (n : ScannedNode) : ScannedNode :=
  mkScannedNode (f (partial_hierarchy n)) (child_nodes_count n) (node_parent_index n) (initialized n).
Definition count_child (n : ScannedNode) : ScannedNode :=
  mkScannedNode (partial_hierarchy n) (child_nodes_count n + 1) (node_parent_index n) (initialized n).

Definition parsed_nodes : Type := gmap Z ScannedNode.

(** [get_or_create_scanned_node!], and an update of the node. *)
Definition update_node (index : Z) (f : ScannedNode → ScannedNode) (nodes : parsed_nodes) : parsed_nodes :=
  <[index := f (default ScannedNode_new (nodes !! index))]> nodes.

Definition ScanResult_new : parsed_nodes := {[0 := initialize (str "root") 0 ScannedNode_new]}.

(** The errors of blocks, as the reader's. *)
Definition fmt_err {A} (o : outcome FormatError A) : outcome ReaderError A := map_err Reader_VmoFormat o.

Section scanning.
Context `{!FloatNaN} (b : BackingBuffer).

(** The contents of the extents from [extent_index] on, up to [total_length] bytes. *)
Fixpoint read_extents_loop (fuel : nat) (total_length extent_index : Z) (buffer : list Z) :
    outcome ReaderError (list Z) :=
  match fuel with
  | O => Panic
  | S fuel =>
    if (extent_index =? 0) || (total_length <=? len buffer) then Ok buffer
    else
      extent ← ok_or (snapshot_get_block b extent_index) (GetExtent extent_index);
      content ← fmt_err (extent_contents b extent);
      let extent_length := Z.min (total_length - len buffer) (len content) in
      next ← fmt_err (next_extent b extent);
      read_extents_loop fuel total_length next (buffer ++ take (Z.to_nat extent_length) content)
  end.

(** The rest of the buffer keeps its zeros. *)
Definition read_extents (total_length first_extent : Z) : outcome ReaderError (list Z) :=
  buffer ← read_extents_loop (S (Z.to_nat total_length)) total_length first_extent [];
  Ok (buffer ++ replicate (Z.to_nat (total_length - len buffer)) 0).

Definition load_name (block : Z) : outcome ReaderError (option rstring) := ok_opt (name_contents b block).

Definition string_from_utf8 (bytes : list Z) : option rstring := if utf8_valid bytes then Some bytes else None.

Definition load_string_reference (block : Z) : outcome ReaderError (option rstring) :=
  data ← ok_opt (inline_string_reference b block);
  match data with
  | None => Ok None
  | Some data =>
    total ← ok_opt (total_length b block);
    match total with
    | None => Ok None
    | Some total =>
      if len data =? total then Ok (string_from_utf8 data)
      else
        extent ← ok_opt (next_extent b block);
        match extent with
        | None => Ok None
        | Some extent_index =>
          if total <? len data then Panic
          else
            more ← ok_opt (read_extents (total - len data) extent_index);
            match more with
            | None => Ok None
            | Some more => Ok (string_from_utf8 (data ++ more))
            end
        end
    end
  end.

Definition get_name (index : Z) : outcome ReaderError (option rstring) :=
  match snapshot_get_block b index with
  | None => Ok None
  | Some block =>
    t ← infallible (block_type b block);
    match t with
    | Name => load_name block
    | StringReference => load_string_reference block
    | _ => Ok None
    end
  end.

Definition parse_name (index : Z) : outcome ReaderError rstring :=
  name ← get_name index; ok_or name (ParseName index).

Definition parse_node (block : Z) (nodes : parsed_nodes) : outcome ReaderError parsed_nodes :=
  name_index ← fmt_err (name_index b block);
  name ← parse_name name_index;
  parent_index ← fmt_err (parent_index b block);
  let nodes := update_node block (initialize name parent_index) nodes in
  Ok (if negb (parent_index =? block) then update_node parent_index count_child nodes else nodes).

Definition parse_numeric_property (block : Z) (nodes : parsed_nodes) : outcome ReaderError parsed_nodes :=
  name_index ← fmt_err (name_index b block);
  name ← parse_name name_index;
  parent_index ← fmt_err (parent_index b block);
  t ← infallible (block_type b block);
  match t with
  | IntValue =>
    value ← fmt_err (int_value b block);
    Ok (update_node parent_index (on_hierarchy (push_property (Property_Int name value))) nodes)
  | UintValue =>
    value ← fmt_err (uint_value b block);
    Ok (update_node parent_index (on_hierarchy (push_property (Property_Uint name value))) nodes)
  | DoubleValue =>
    value ← fmt_err (double_value b block);
    Ok (update_node parent_index (on_hierarchy (push_property (Property_Double name value))) nodes)
  | _ => Ok (update_node parent_index id nodes)
  end.

Definition parse_bool_property (block : Z) (nodes : parsed_nodes) : outcome ReaderError parsed_nodes :=
  name_index ← fmt_err (name_index b block);
  name ← parse_name name_index;
  parent_index ← fmt_err (parent_index b block);
  t ← infallible (block_type b block);
  match t with
  | BoolValue =>
    value ← fmt_err (bool_value b block);
    Ok (update_node parent_index (on_hierarchy (push_property (Property_Bool name value))) nodes)
  | _ => Ok (update_node parent_index id nodes)
  end.

(** [value_indexes.map(|i| get(i).unwrap()).collect()]. *)
Definition slot_values {A} (get : Z → outcome FormatError A) (slots : Z) : outcome ReaderError (list A) :=
  try_map (λ i, infallible (get i)) (seqZ 0 slots).

Definition string_slot (block i : Z) : outcome ReaderError rstring :=
  string_idx ← infallible (array_get_string_index_slot b block i);
  if string_idx =? 0 then Ok []
  else
    match snapshot_get_block b string_idx with
    | None => Panic
    | Some block =>
      value ← load_string_reference block;
      match value with
      | Some value => Ok value
      | None => Panic
      end
    end.

(** A numeric array: its slots, then its format. *)
Definition numeric_array (T : Arith) (get : BackingBuffer → Z → Z → outcome FormatError Z) (block slots : Z) :
    outcome ReaderError ArrayContent :=
  values ← slot_values (get b block) slots;
  format ← infallible (array_format b block);
  ArrayContent_new T values format.

Definition parse_array_property (block : Z) (nodes : parsed_nodes) : outcome ReaderError parsed_nodes :=
  name_index ← fmt_err (name_index b block);
  name ← parse_name name_index;
  parent_index ← fmt_err (parent_index b block);
  slots ← fmt_err (array_slots b block);
  o ← infallible (order b block);
  entry_type ← fmt_err (array_entry_type b block);
  capacity ← match array_capacity o entry_type with Some n => Ok n | None => Panic end;
  if capacity <? slots then Err (AttemptedToReadTooManyArraySlots block)
  else
    parsed_property ←
      match entry_type with
      | IntValue =>
        content ← numeric_array arith_i64 array_get_int_slot block slots;
        Ok (Property_IntArray name content)
      | UintValue =>
        content ← numeric_array arith_u64 array_get_uint_slot block slots;
        Ok (Property_UintArray name content)
      | DoubleValue =>
        content ← numeric_array arith_f64 array_get_double_slot block slots;
        Ok (Property_DoubleArray name content)
      | StringReference =>
        values ← try_map (string_slot block) (seqZ 0 slots);
        Ok (Property_StringList name values)
      | t => Err (UnexpectedArrayEntryFormat t)
      end;
    Ok (update_node parent_index (on_hierarchy (push_property parsed_property)) nodes).

Definition parse_property (block : Z) (nodes : parsed_nodes) : outcome ReaderError parsed_nodes :=
  name_index ← fmt_err (name_index b block);
  name ← parse_name name_index;
  parent_index ← fmt_err (parent_index b block);
  total ← fmt_err (total_length b block);
  extent_index ← fmt_err (property_extent_index b block);
  buffer ← read_extents total extent_index;
  format ← fmt_err (property_format b block);
  let p := match format with
           | PF_String => Property_String name (from_utf8_lossy buffer)
           | PF_Bytes => Property_Bytes name buffer
           end in
  Ok (update_node parent_index (on_hierarchy (push_property p)) nodes).

Definition parse_link (block : Z) (nodes : parsed_nodes) : outcome ReaderError parsed_nodes :=
  name_index ← fmt_err (name_index b block);
  name ← parse_name name_index;
  link_content_index ← fmt_err (link_content_index b block);
  content ← parse_name link_content_index;
  disposition ← fmt_err (link_node_disposition b block);
  parent_index ← fmt_err (parent_index b block);
  Ok (update_node parent_index (on_hierarchy (push_link (mkLink name content disposition))) nodes).

(** The body of the loop of [scan_blocks]. *)
Definition scan_block (block : Z) (nodes : parsed_nodes) : outcome ReaderError parsed_nodes :=
  t ← fmt_err (block_type_or b block);
  if (block =? 0) && negb (bool_decide (t = Header)) then Err MissingHeader
  else
    match t with
    | NodeValue => parse_node block nodes
    | IntValue | UintValue | DoubleValue => parse_numeric_property block nodes
    | BoolValue => parse_bool_property block nodes
    | ArrayValue => parse_array_property block nodes
    | BufferValue => parse_property block nodes
    | LinkValue => parse_link block nodes
    | _ => Ok nodes
    end.

(** The loop of [scan_blocks] over [snapshot.scan()]. *)
Fixpoint scan_loop (fuel : nat) (offset : Z) (nodes : parsed_nodes) : outcome ReaderError parsed_nodes :=
  match fuel with
  | O => Panic
  | S fuel =>
    next ← iterator_next b offset;
    match next with
    | None => Ok nodes
    | Some (block, offset) =>
      nodes ← scan_block block nodes;
      scan_loop fuel offset nodes
    end
  end.

Definition scan_blocks : outcome ReaderError parsed_nodes :=
  scan_loop (S (Z.to_nat (buffer_len b))) 0 ScanResult_new.
End scanning.

(** ** Building the tree *)

(** A [BTreeMap] iterates in the order of its keys. *)
Definition key_le (p q : Z * ScannedNode) : Prop := p.1 <= q.1.

#[export] Instance key_le_dec p q : Decision (key_le p q).
Proof. unfold key_le. apply _. Defined.

Definition btree_iter (nodes : parsed_nodes) : list (Z * ScannedNode) :=
  merge_sort key_le (map_to_list nodes).

(** The split of the nodes into complete, pending and uninitialized ones; the root, when
    it is complete already. *)
Fixpoint split_nodes (l : list (Z * ScannedNode)) (complete : list ScannedNode) (pending : parsed_nodes)
    (uninitialized : gset Z) : PartialNodeHierarchy + list ScannedNode * parsed_nodes * gset Z :=
  match l with
  | [] => inr (complete, pending, uninitialized)
  | (index, n) :: l =>
    if negb (is_initialized n) then split_nodes l complete pending ({[index]} ∪ uninitialized)
    else if is_complete n then
      if index =? 0 then inl (partial_hierarchy n)
      else split_nodes l (n :: complete) pending uninitialized
    else split_nodes l complete (<[index := n]> pending) uninitialized
  end.

(** The loop over the stack of complete nodes, its top first. *)
Fixpoint reduce_loop (fuel : nat) (complete : list ScannedNode) (pending : parsed_nodes)
    (uninitialized : gset Z) : outcome ReaderError PartialNodeHierarchy :=
  match fuel with
  | O => Panic
  | S fuel =>
    match complete with
    | [] => Err MalformedTree
    | n :: complete =>
      let parent := node_parent_index n in
      if bool_decide (parent ∈ uninitialized) then reduce_loop fuel complete pending uninitialized
      else
        match pending !! parent with
        | None => Err (ParentIndexNotFound parent)
        | Some p =>
          let p := on_hierarchy (push_child (partial_hierarchy n)) p in
          if is_complete p then
            if parent =? 0 then Ok (partial_hierarchy p)
            else reduce_loop fuel (p :: complete) (delete parent pending) uninitialized
          else reduce_loop fuel complete (<[parent := p]> pending) uninitialized
        end
    end
  end.

Definition reduce (nodes : parsed_nodes) : outcome ReaderError PartialNodeHierarchy :=
  match split_nodes (btree_iter nodes) [] ∅ ∅ with
  | inl root => Ok root
  | inr (complete, pending, uninitialized) => reduce_loop (S (size nodes)) complete pending uninitialized
  end.

Definition read_snapshot `{!FloatNaN} (b : BackingBuffer) : outcome ReaderError PartialNodeHierarchy :=
  nodes ← scan_blocks b; reduce nodes.

(** [PartialNodeHierarchy::try_from(Vec<u8>)]. *)
Definition read_bytes_hierarchy `{!FloatNaN} (bytes : list Z) : outcome ReaderError PartialNodeHierarchy :=
  snapshot ← Snapshot_try_from_bytes bytes; read_snapshot snapshot.
