(* ===== verification/InspectMemory.v ===== *)
(** The memory of blocks: the header and payload words of the blocks of a container,
    what the readers return of them and what the writers of [InspectBlock] change.
    Client files reason with [header], [payload], [put_header] and [put_payload]
    instead of bytes. *)
From Stdlib Require Import ZArith Lia.
From stdpp Require Import base gmap strings list.
From S2P Require Import Prelude StateError InspectFormat InspectBlock.
Local Open Scope Z_scope.

(** ** Words of a container *)

Section words.
Context {C : Type} `{ReadableBlockContainer C}.
Implicit Types (c : C).

Definition word c (a : Z) : Z := from_le_bytes (container_byte c <$> seqZ a 8).
Definition header c (i : Z) : Z := word c (16 * i).
Definition payload c (i : Z) : Z := word c (16 * i + 8).

(** The sixteen bytes of the smallest block at [i] are in the container. *)
Definition inside c (i : Z) : Prop :=
  0 <= i ∧ 16 * i + 16 <= container_len c ∧ container_len c < u64_size.

Lemma read_header_inside c i : inside c i → read_header c i = Ok (header c i).
Proof.
  intros (H0 & H1 & H2). unfold read_header, header_offset, offset_for_index.
  change MIN_ORDER_SIZE with 16. rewrite read_bytes_inside by lia. cbn.
  unfold header, word. by rewrite Z.mul_comm.
Qed.

Lemma read_payload_inside c i : inside c i → read_payload c i = Ok (payload c i).
Proof.
  intros (H0 & H1 & H2). unfold read_payload, payload_offset, offset_for_index.
  change MIN_ORDER_SIZE with 16. change HEADER_SIZE_BYTES with 8. rewrite read_bytes_inside by lia. cbn.
  unfold payload, word. by rewrite (Z.mul_comm i).
Qed.

Lemma order_inside c i : inside c i → order c i = Ok (order_bits (header c i)).
Proof. intros Hi. unfold order. by rewrite read_header_inside. Qed.

(** The type of a block, when its number is one. *)
Definition typ c (i : Z) : option BlockType := BlockType_from_u8 (block_type_bits (header c i)).

Lemma block_type_inside c i t : inside c i → typ c i = Some t → block_type c i = Ok t.
Proof. intros Hi Ht. unfold typ in Ht. unfold block_type. rewrite read_header_inside by done. cbn. by rewrite Ht. Qed.

Lemma check_type_inside c i t : inside c i → typ c i = Some t → check_type c i t = Ok tt.
Proof.
  intros Hi Ht. unfold typ in Ht. unfold check_type. rewrite read_header_inside by done. cbn.
  unfold check_type_eq. rewrite Ht. cbn. by rewrite bool_decide_true.
Qed.

Lemma free_next_index_inside c i :
  inside c i → typ c i = Some Free → free_next_index c i = Ok (free_next_index_bits (header c i)).
Proof.
  intros Hi Ht. unfold free_next_index. rewrite (check_type_inside _ _ Free) by done. cbn.
  by rewrite read_header_inside.
Qed.
End words.

(** ** Writes to a mapped VMO *)

Definition put_bytes (m : Mapping) (offset : Z) (src : list Z) : Mapping :=
  mkMapping (mapping_len m) (store (mapping_bytes m) offset src).
Definition put_header (m : Mapping) (i w : Z) : Mapping := put_bytes m (16 * i) (to_le_bytes 8 w).
Definition put_payload (m : Mapping) (i w : Z) : Mapping := put_bytes m (16 * i + 8) (to_le_bytes 8 w).

Lemma put_bytes_byte m offset src a :
  mapping_byte (put_bytes m offset src) a =
  if (offset <=? a) && (a <? offset + len src) then slice_byte src (a - offset) else mapping_byte m a.
Proof. apply store_lookup. Qed.

Lemma put_bytes_byte_other m offset src a :
  a < offset ∨ offset + len src <= a → mapping_byte (put_bytes m offset src) a = mapping_byte m a.
Proof.
  intros Ha. rewrite put_bytes_byte.
  destruct (Z.leb_spec offset a), (Z.ltb_spec a (offset + len src)); cbn; done || lia.
Qed.

Lemma len_to_le_bytes n x : len (to_le_bytes n x) = Z.of_nat n.
Proof. unfold len. by rewrite length_to_le_bytes. Qed.

Lemma word_ext {C C'} `{ReadableBlockContainer C, ReadableBlockContainer C'} (c : C) (c' : C') a b :
  (∀ d, 0 <= d < 8 → container_byte c (a + d) = container_byte c' (b + d)) → word c a = word c' b.
Proof.
  intros Hm. unfold word. f_equal.
  replace (seqZ a 8) with ((Z.add a) <$> seqZ 0 8) by (rewrite fmap_add_seqZ; by rewrite Z.add_0_r).
  replace (seqZ b 8) with ((Z.add b) <$> seqZ 0 8) by (rewrite fmap_add_seqZ; by rewrite Z.add_0_r).
  rewrite <- !list_fmap_compose. apply list_fmap_ext. intros i x Hx.
  apply lookup_seqZ in Hx as [-> Hx]. cbn. apply Hm. lia.
Qed.

(** The bytes written are read back. *)
Lemma put_bytes_read m a bs : mapping_byte (put_bytes m a bs) <$> seqZ a (len bs) = bs.
Proof.
  apply list_eq. intros n. rewrite list_lookup_fmap. destruct (decide (n < length bs)%nat).
  - rewrite lookup_seqZ_lt by (unfold len; lia). cbn. rewrite put_bytes_byte.
    rewrite (proj2 (Z.leb_le _ _)), (proj2 (Z.ltb_lt _ _)) by (unfold len; lia). cbn [andb].
    unfold slice_byte. replace (Z.to_nat (a + Z.of_nat n - a)) with n by lia.
    rewrite nth_lookup. by destruct (lookup_lt_is_Some_2 bs n) as [x ->].
  - rewrite lookup_seqZ_ge by (unfold len; lia). symmetry. apply lookup_ge_None_2. lia.
Qed.

Lemma word_put_same m a w : word (put_bytes m a (to_le_bytes 8 w)) a = w mod 2 ^ 64.
Proof.
  unfold word. cbn [container_byte Mapping_container].
  pose proof (put_bytes_read m a (to_le_bytes 8 w)) as Hr. rewrite len_to_le_bytes in Hr.
  change (Z.of_nat 8) with 8 in Hr. rewrite Hr. by rewrite from_to_le_bytes.
Qed.

Lemma word_put_other m a b bs :
  b + 8 <= a ∨ a + len bs <= b → word (put_bytes m a bs) b = word m b.
Proof. intros Hab. apply word_ext. intros d Hd. apply put_bytes_byte_other. lia. Qed.

Section puts.
Implicit Types (m : Mapping).

Lemma header_put_header m i w j :
  header (put_header m i w) j = if decide (i = j) then w mod 2 ^ 64 else header m j.
Proof.
  unfold header, put_header. case_decide as Hij.
  - subst. apply word_put_same.
  - apply word_put_other. rewrite len_to_le_bytes. lia.
Qed.

Lemma header_put_payload m i w j : header (put_payload m i w) j = header m j.
Proof. apply word_put_other. rewrite len_to_le_bytes. lia. Qed.

Lemma payload_put_header m i w j : payload (put_header m i w) j = payload m j.
Proof. apply word_put_other. rewrite len_to_le_bytes. lia. Qed.

Lemma payload_put_payload m i w j :
  payload (put_payload m i w) j = if decide (i = j) then w mod 2 ^ 64 else payload m j.
Proof.
  unfold payload, put_payload. case_decide as Hij.
  - subst. apply word_put_same.
  - apply word_put_other. rewrite len_to_le_bytes. lia.
Qed.

Lemma put_header_byte m i w a :
  a / 16 ≠ i → mapping_byte (put_header m i w) a = mapping_byte m a.
Proof.
  intros Ha. apply put_bytes_byte_other. rewrite len_to_le_bytes.
  pose proof (Z.div_mod a 16). pose proof (Z.mod_pos_bound a 16). lia.
Qed.

Lemma inside_put_bytes m a bs i : inside (put_bytes m a bs) i ↔ inside m i.
Proof. done. Qed.

(** The writers of words, as state transformers. *)
Lemma write_bytes_inside m a bs :
  0 <= a → a + len bs <= mapping_len m → mapping_len m < u64_size →
  write_bytes a bs m = (put_bytes m a bs, Ok (len bs)).
Proof. intros. unfold write_bytes. by rewrite write_at_inside. Qed.

Lemma write_header_inside m i w : inside m i → write_header i w m = (put_header m i w, Ok tt).
Proof.
  intros (H0 & H1 & H2). cbn in H1, H2. unfold write_header, header_offset, offset_for_index.
  change MIN_ORDER_SIZE with 16.
  erewrite st_bind_Ok; [|apply write_bytes_inside; rewrite ?len_to_le_bytes; lia].
  unfold put_header. by rewrite (Z.mul_comm i).
Qed.

Lemma write_payload_inside m i w : inside m i → write_payload i w m = (put_payload m i w, Ok tt).
Proof.
  intros (H0 & H1 & H2). cbn in H1, H2.
  unfold write_payload, write_payload_from_bytes, payload_offset, offset_for_index.
  change MIN_ORDER_SIZE with 16. change HEADER_SIZE_BYTES with 8.
  erewrite st_bind_Ok; [|apply write_bytes_inside; rewrite ?len_to_le_bytes; lia].
  unfold put_payload. by rewrite (Z.mul_comm i).
Qed.
End puts.

(** ** Fields of words *)

Lemma bit_range_mod64 r x msb lsb :
  0 <= lsb <= msb → msb < 64 → msb - lsb < r → bit_range r (x mod 2 ^ 64) msb lsb = bit_range r x msb lsb.
Proof.
  intros Hl Hm Hr. apply Z.bits_inj'. intros i Hi. rewrite !testbit_bit_range by lia.
  destruct (Z.leb_spec i (msb - lsb)); [|done]. by rewrite Z.mod_pow2_bits_low by lia.
Qed.

Create HintDb bitfields.
#[export] Hint Unfold order_bits set_order_bits block_type_bits set_block_type_bits
  header_version_bits set_header_version_bits header_magic_bits set_header_magic_bits
  value_name_index_bits set_value_name_index_bits value_parent_index_bits
  set_value_parent_index_bits free_next_index_bits set_free_next_index_bits name_length_bits
  set_name_length_bits extent_next_index_bits set_extent_next_index_bits
  string_reference_count_bits set_string_reference_count_bits total_length_bits
  set_total_length_bits property_extent_index_bits set_property_extent_index_bits
  property_flags_bits set_property_flags_bits numeric_value_bits set_numeric_value_bits
  header_generation_count_bits set_header_generation_count_bits array_entry_type_bits
  set_array_entry_type_bits array_flags_bits set_array_flags_bits array_slots_count_bits
  set_array_slots_count_bits content_index_bits set_content_index_bits disposition_flags_bits
  set_disposition_flags_bits : bitfields.

(** Reads a field of a word built with setters. *)
Ltac fields :=
  autounfold with bitfields;
  repeat first
    [ rewrite bit_range_mod64 by lia | rewrite field_set by lia
    | rewrite field_set_other by lia | rewrite bit_range_zero by lia ].

Lemma order_bits_range h : 0 <= order_bits h < 16.
Proof. apply (bit_range_nonneg 8 h 3 0); lia. Qed.

Lemma free_next_index_bits_range h : 0 <= free_next_index_bits h < 2 ^ 24.
Proof. apply (bit_range_nonneg 32 h 39 16); lia. Qed.

Lemma set_free_next_read h n :
  0 <= n < 2 ^ 24 → free_next_index_bits (set_free_next_index_bits h n mod 2 ^ 64) = n.
Proof. intros Hn. fields. by apply Z.mod_small. Qed.

(** The header [become_free] and [new_free] write. *)
Definition free_header (k next : Z) : Z :=
  set_free_next_index_bits (set_block_type_bits (set_order_bits 0 k) (BlockType_to_u8 Free)) next.

Lemma free_header_order k n : 0 <= k < 16 → order_bits (free_header k n mod 2 ^ 64) = k.
Proof. intros Hk. unfold free_header. fields. by apply Z.mod_small. Qed.

Lemma free_header_type k n : BlockType_from_u8 (block_type_bits (free_header k n mod 2 ^ 64)) = Some Free.
Proof. unfold free_header. fields. done. Qed.

Lemma free_header_next k n : 0 <= n < 2 ^ 24 → free_next_index_bits (free_header k n mod 2 ^ 64) = n.
Proof. intros Hn. unfold free_header. fields. by apply Z.mod_small. Qed.

(** ** The writers of free blocks *)

Section free_blocks.
Implicit Types (m : Mapping).

Lemma new_free_inside m i k n :
  inside m i → k < 8 → new_free i k n m = (put_header m i (free_header k n), Ok i).
Proof.
  intros Hi Hk. unfold new_free. change NUM_ORDERS with 8. rewrite (proj2 (Z.leb_gt _ _)) by lia.
  erewrite st_bind_Ok by (by apply write_header_inside). done.
Qed.

Lemma become_free_inside m i n : inside m i →
  become_free i n m = (put_header m i (free_header (order_bits (header m i)) n), Ok tt).
Proof.
  intros Hi. unfold become_free, block_reads.
  erewrite st_bind_Ok by (unfold reads; by rewrite read_header_inside). cbn zeta.
  by rewrite write_header_inside.
Qed.

Lemma set_order_inside m i k : inside m i → k < 8 →
  set_order i k m = (put_header m i (set_order_bits (header m i) k), Ok tt).
Proof.
  intros Hi Hk. unfold set_order. change NUM_ORDERS with 8. rewrite (proj2 (Z.leb_gt _ _)) by lia.
  unfold block_reads. erewrite st_bind_Ok by (unfold reads; by rewrite read_header_inside).
  by rewrite write_header_inside.
Qed.

Lemma set_free_next_index_inside m i n : inside m i → typ m i = Some Free →
  set_free_next_index i n m = (put_header m i (set_free_next_index_bits (header m i) n), Ok tt).
Proof.
  intros Hi Ht. unfold set_free_next_index, block_reads.
  erewrite st_bind_Ok by (unfold reads; by rewrite (check_type_inside _ _ Free)).
  erewrite st_bind_Ok by (unfold reads; by rewrite read_header_inside).
  by rewrite write_header_inside.
Qed.

(** The header [become_reserved] writes. *)
Definition reserved_header (k : Z) : Z :=
  set_block_type_bits (set_order_bits 0 k) (BlockType_to_u8 Reserved).

Lemma become_reserved_inside m i : inside m i → typ m i = Some Free →
  become_reserved i m = (put_header m i (reserved_header (order_bits (header m i))), Ok tt).
Proof.
  intros Hi Ht. unfold become_reserved, block_reads.
  erewrite st_bind_Ok by (unfold reads; by rewrite read_header_inside).
  erewrite st_bind_Ok.
  2:{ unfold lift, check_type_eq. unfold typ in Ht. rewrite Ht. cbn. by rewrite bool_decide_true. }
  by rewrite write_header_inside.
Qed.
End free_blocks.
