(* ===== verification/InspectBuddy.v ===== *)
(** Buddy layouts: how blocks of power-of-two sizes tile the units of a heap.  A
    [layout] maps the index of each block to its order and to whether it is free.
    [tiles] is the geometry (aligned, disjoint, nothing left over); splitting a block,
    merging it with its buddy and growing the heap keep it.  [coalesced] says that no
    two free buddies are left unmerged.

    Free lists: [core] relates the memory and the list heads to a layout: the header of
    each block gives its order and whether it is free, and for each order the list from
    its head visits every free block of that order once, ending in the pointer 0.  The
    last pointer is not followed as a list end by the code, it is only seen not to be a
    free block of the order, or to be one already visited: block 0 may be free itself and
    the list may be a cycle. *)
From Stdlib Require Import ZArith Lia.
From stdpp Require Import base gmap list.
From S2P Require Import Prelude StateError InspectFormat InspectBlock InspectMemory.
Local Open Scope Z_scope.

Abbreviation layout := (gmap Z (Z * bool)).

Record tiles (N : Z) (B : layout) : Prop := {
  tile_ok : ∀ i k f, B !! i = Some (k, f) → 0 <= k < 8 ∧ 0 <= i ∧ i + 2 ^ k <= N ∧ (2 ^ k | i);
  tile_cover : ∀ u, 0 <= u < N → ∃ i k f, B !! i = Some (k, f) ∧ i <= u < i + 2 ^ k;
  tile_disjoint : ∀ i k f j k' f',
    B !! i = Some (k, f) → B !! j = Some (k', f') → i < j → i + 2 ^ k <= j;
}.

Definition coalesced (B : layout) : Prop :=
  ∀ i k, k < 7 → B !! i = Some (k, true) → B !! Z.lxor i (2 ^ k) ≠ Some (k, true).

(** ** Powers of two *)

Lemma pow2_pos k : 0 <= k → 0 < 2 ^ k.
Proof. intros. by apply Z.pow_pos_nonneg. Qed.

Lemma pow2_succ k : 0 <= k → 2 ^ (k + 1) = 2 * 2 ^ k.
Proof. intros. rewrite Z.pow_add_r by lia. lia. Qed.

Lemma pow2_divide k k' : 0 <= k <= k' → (2 ^ k | 2 ^ k').
Proof. intros. exists (2 ^ (k' - k)). rewrite <- Z.pow_add_r by lia. f_equal. lia. Qed.

(** Aligned intervals that meet are nested. *)
Lemma aligned_nested k i k' j :
  0 <= k <= k' → (2 ^ k | i) → (2 ^ k' | j) → i < j + 2 ^ k' → j < i + 2 ^ k →
  j <= i ∧ i + 2 ^ k <= j + 2 ^ k'.
Proof.
  intros Hk [a ->] Hj Hij Hji.
  destruct (pow2_divide k k' Hk) as [c Hc]. destruct Hj as [b ->].
  pose proof (pow2_pos k ltac:(lia)) as Hp. rewrite Hc in *.
  assert (a < b * c + c) by nia. assert (b * c < a + 1) by nia. nia.
Qed.

Lemma testbit_aligned i k : 0 <= k → Z.testbit i k = false → (2 ^ k | i) → (2 ^ (k + 1) | i).
Proof.
  intros Hk Ht [q ->]. rewrite pow2_succ by done.
  rewrite Z.mul_pow2_bits, Z.sub_diag in Ht by done.
  rewrite Z.bit0_odd, <- Z.negb_even in Ht. apply negb_false_iff, Z.even_spec in Ht as [q' ->].
  exists q'. lia.
Qed.

Lemma aligned_testbit i k : 0 <= k → (2 ^ (k + 1) | i) → Z.testbit i k = false.
Proof.
  intros Hk [q ->]. rewrite Z.mul_pow2_bits by lia. apply Z.testbit_neg_r. lia.
Qed.

Lemma lxor_pow2_clear i k : 0 <= k → Z.testbit i k = false → Z.lxor i (2 ^ k) = i + 2 ^ k.
Proof.
  intros Hk Ht. symmetry. apply Z.add_nocarry_lxor. apply Z.bits_inj'. intros n Hn.
  rewrite Z.land_spec, Z.bits_0, Z.pow2_bits_eqb by done.
  destruct (Z.eqb_spec k n) as [->|]; [by rewrite Ht|by rewrite andb_false_r].
Qed.

Lemma lxor_pow2_twice i k : Z.lxor (Z.lxor i (2 ^ k)) (2 ^ k) = i.
Proof. by rewrite Z.lxor_assoc, Z.lxor_nilpotent, Z.lxor_0_r. Qed.

Lemma lxor_pow2_set i k : 0 <= k → Z.testbit i k = true → Z.lxor i (2 ^ k) = i - 2 ^ k.
Proof.
  intros Hk Ht. pose proof (lxor_pow2_clear (Z.lxor i (2 ^ k)) k Hk) as Hc.
  rewrite lxor_pow2_twice, Z.lxor_spec, Z.pow2_bits_eqb, Z.eqb_refl, Ht in Hc by done.
  specialize (Hc eq_refl). lia.
Qed.

(** A block and its buddy are the two halves of an aligned block. *)
Lemma buddy_halves i k : 0 <= k → (2 ^ k | i) →
  (Z.lxor i (2 ^ k) = i + 2 ^ k ∧ (2 ^ (k + 1) | i)) ∨
  (Z.lxor i (2 ^ k) = i - 2 ^ k ∧ (2 ^ (k + 1) | i - 2 ^ k)).
Proof.
  intros Hk Hi. destruct (Z.testbit i k) eqn:Ht; [right|left].
  - rewrite lxor_pow2_set by done. split; [done|].
    apply testbit_aligned; [done| |by apply Z.divide_sub_r].
    rewrite <- (lxor_pow2_set i k) by done.
    by rewrite Z.lxor_spec, Z.pow2_bits_eqb, Z.eqb_refl, Ht by done.
  - rewrite lxor_pow2_clear by done. split; [done|]. by apply testbit_aligned.
Qed.

(** ** Blocks of a layout *)

Section tilings.
Context (N : Z) (B : layout) (HB : tiles N B).

Lemma tile_unique i k f j k' f' u :
  B !! i = Some (k, f) → B !! j = Some (k', f') → i <= u < i + 2 ^ k → j <= u < j + 2 ^ k' → i = j.
Proof using HB.
  intros Hi Hj Hiu Hju. destruct (Z.lt_trichotomy i j) as [Hl|[->|Hl]]; [|done|].
  - pose proof (tile_disjoint _ _ HB _ _ _ _ _ _ Hi Hj Hl). lia.
  - pose proof (tile_disjoint _ _ HB _ _ _ _ _ _ Hj Hi Hl). lia.
Qed.

(** No block starts inside another. *)
Lemma tile_inside_None i k f u : B !! i = Some (k, f) → i < u < i + 2 ^ k → B !! u = None.
Proof using HB.
  intros Hi Hu. destruct (B !! u) as [[k' f']|] eqn:Hu'; [|done].
  destruct (tile_ok _ _ HB _ _ _ Hu') as (Hk & _).
  pose proof (pow2_pos k' ltac:(lia)).
  pose proof (tile_unique i k f u k' f' u Hi Hu' ltac:(lia) ltac:(lia)). lia.
Qed.

(** The buddy of a block is a block, and not a larger one. *)
Lemma buddy_tile i k f : (256 | N) → B !! i = Some (k, f) →
  ∃ k' f', B !! Z.lxor i (2 ^ k) = Some (k', f') ∧ k' <= k.
Proof using HB.
  intros HN Hi. destruct (tile_ok _ _ HB _ _ _ Hi) as (Hk & H0 & HiN & Hal).
  pose proof (pow2_pos k ltac:(lia)) as Hp.
  set (j := Z.lxor i (2 ^ k)).
  assert (∃ b, (2 ^ (k + 1) | b) ∧ 0 <= b ∧ b + 2 * 2 ^ k <= N ∧
            (i = b ∧ j = b + 2 ^ k ∨ j = b ∧ i = b + 2 ^ k)) as (b & Hb & Hb0 & HbN & Hij).
  { assert (∀ b, (2 ^ (k + 1) | b) → b < N → b + 2 * 2 ^ k <= N) as Hfit.
    { intros b Hb Hlt. rewrite <- pow2_succ by lia.
      assert (2 ^ (k + 1) | N) as [q ->].
      { apply Z.divide_trans with 256; [|done]. apply (pow2_divide (k + 1) 8). lia. }
      destruct Hb as [b' ->]. pose proof (pow2_pos (k + 1) ltac:(lia)).
      assert (b' < q) by (apply (Z.mul_lt_mono_pos_r (2 ^ (k + 1))); done).
      transitivity ((b' + 1) * 2 ^ (k + 1)); [lia|]. apply Z.mul_le_mono_nonneg_r; lia. }
    destruct (buddy_halves i k) as [[Hj Hd]|[Hj Hd]]; [lia|done|..]; fold j in Hj.
    - exists i. split; [done|]. split; [lia|]. split; [apply Hfit; [done|lia]|lia].
    - exists (i - 2 ^ k). split; [done|].
      assert (0 <= i - 2 ^ k).
      { destruct Hal as [q ->]. rewrite pow2_succ in Hd by lia. destruct Hd as [q' Hq].
        assert (q - 1 = q' * 2) by nia. assert (0 <= q) by nia. assert (1 <= q) by lia. nia. }
      split; [lia|]. split; [apply Hfit; [done|lia]|lia]. }
  destruct (tile_cover _ _ HB j) as (j' & k' & f' & Hj' & Hju); [lia|].
  destruct (tile_ok _ _ HB _ _ _ Hj') as (Hk' & _ & _ & Hal').
  assert ((2 ^ k | b)) as Hbk.
  { apply Z.divide_trans with (2 ^ (k + 1)); [apply pow2_divide; lia|done]. }
  assert ((2 ^ k | j)) as Hjk.
  { destruct Hij as [[_ ->]|[-> _]]; [|done]. apply Z.divide_add_r; [done|apply Z.divide_refl]. }
  assert (k' <= k) as Hle.
  { apply Z.nlt_ge. intros Hlt.
    destruct (aligned_nested (k + 1) b k' j') as [Hn1 Hn2]; rewrite ?pow2_succ in * by lia; try done; try lia.
    pose proof (tile_unique i k f j' k' f' i Hi Hj' ltac:(lia) ltac:(lia)) as Heq. subst j'.
    rewrite Hj' in Hi. injection Hi. lia. }
  assert (j' = j) as ->.
  { destruct (aligned_nested k' j' k j) as [Hn1 Hn2]; try done; lia. }
  by exists k', f'.
Qed.
End tilings.

(** ** Operations on layouts *)

Ltac layout_cases :=
  repeat match goal with
  | H : <[_ := _]> _ !! _ = Some _ |- _ =>
    apply lookup_insert_Some in H as [[? ?]|[? H]]; simplify_eq
  | H : delete _ _ !! _ = Some _ |- _ => apply lookup_delete_Some in H as [? H]
  end.

Lemma tiles_nil : tiles 0 ∅.
Proof. split; [done| |done]. lia. Qed.

Lemma tiles_flip N B i k f g : tiles N B → B !! i = Some (k, f) → tiles N (<[i := (k, g)]> B).
Proof.
  intros HB Hi. split.
  - intros j k' f' Hj. layout_cases; eauto using tile_ok.
  - intros u Hu. destruct (tile_cover _ _ HB u Hu) as (j & k' & f' & Hj & Hju).
    destruct (decide (i = j)) as [<-|Hne].
    + exists i, k, g. rewrite lookup_insert_eq. split; [done|]. rewrite Hi in Hj. by simplify_eq.
    + exists j, k', f'. by rewrite lookup_insert_ne.
  - intros j k1 f1 j' k2 f2 H1 H2 Hlt. layout_cases; eauto using tile_disjoint; lia.
Qed.

Lemma tiles_split N B i k f g g' : tiles N B → 0 <= k → B !! i = Some (k + 1, f) →
  tiles N (<[i + 2 ^ k := (k, g)]> (<[i := (k, g')]> B)).
Proof.
  intros HB Hk Hi. destruct (tile_ok _ _ HB _ _ _ Hi) as (Hk8 & H0 & HiN & Hal).
  pose proof (pow2_pos k Hk) as Hp.
  assert (2 ^ k | i) as Hik.
  { apply Z.divide_trans with (2 ^ (k + 1)); [apply pow2_divide; lia|done]. }
  rewrite pow2_succ in HiN by done. split.
  - intros j k' f' Hj. layout_cases; [| |by eauto using tile_ok].
    + split_and!; try lia. apply Z.divide_add_r; [done|apply Z.divide_refl].
    + split_and!; try lia. done.
  - intros u Hu. destruct (tile_cover _ _ HB u Hu) as (j & k' & f' & Hj & Hju).
    destruct (decide (j = i)) as [->|Hne].
    + rewrite Hi in Hj. injection Hj as <- <-. rewrite pow2_succ in Hju by done.
      destruct (Z.lt_ge_cases u (i + 2 ^ k)).
      * exists i, k, g'. rewrite lookup_insert_ne, lookup_insert_eq by lia. split; [done|lia].
      * exists (i + 2 ^ k), k, g. rewrite lookup_insert_eq. split; [done|lia].
    + exists j, k', f'. rewrite !lookup_insert_ne; [done|done|]. intros <-.
      by rewrite (tile_inside_None _ _ HB i (k + 1) f) in Hj by (rewrite ?pow2_succ; done || lia).
  - intros j k1 f1 j' k2 f2 H1 H2 Hlt.
    pose proof (λ j k' f' Hj, tile_disjoint _ _ HB i (k + 1) f j k' f' Hi Hj) as Ha.
    pose proof (λ j k' f' Hj, tile_disjoint _ _ HB j k' f' i (k + 1) f Hj Hi) as Hb.
    rewrite pow2_succ in Ha by done.
    layout_cases; try (by eauto using tile_disjoint); clear Hi;
      repeat match goal with
      | H : B !! _ = Some _ |- _ => pose proof (Ha _ _ _ H); pose proof (Hb _ _ _ H); clear H
      end; lia.
Qed.

Lemma tiles_merge N B i k f f' g : tiles N B → B !! i = Some (k, f) → k < 7 →
  (2 ^ (k + 1) | i) → B !! (i + 2 ^ k) = Some (k, f') →
  tiles N (<[i := (k + 1, g)]> (delete (i + 2 ^ k) B)).
Proof.
  intros HB Hi Hk7 Hal Hj. destruct (tile_ok _ _ HB _ _ _ Hi) as (Hk8 & H0 & HiN & _).
  destruct (tile_ok _ _ HB _ _ _ Hj) as (_ & _ & HjN & _).
  pose proof (pow2_pos k ltac:(lia)) as Hp. pose proof (pow2_succ k ltac:(lia)) as Hs. split.
  - intros u k' f1 Hu. layout_cases; [|by eauto using tile_ok]. split_and!; try lia. done.
  - intros u Hu. destruct (tile_cover _ _ HB u Hu) as (v & k' & f1 & Hv & Hvu).
    destruct (decide (v = i)) as [->|Hne]; [|destruct (decide (v = i + 2 ^ k)) as [->|Hne']].
    + exists i, (k + 1), g. rewrite lookup_insert_eq. split; [done|].
      rewrite Hi in Hv. simplify_eq. lia.
    + exists i, (k + 1), g. rewrite lookup_insert_eq. split; [done|].
      rewrite Hj in Hv. simplify_eq. lia.
    + exists v, k', f1. by rewrite lookup_insert_ne, lookup_delete_ne.
  - intros u k1 f1 v k2 f2 H1 H2 Hlt.
    pose proof (λ j k' f' Hj, tile_disjoint _ _ HB _ _ _ j k' f' Hi Hj) as Ha.
    pose proof (λ j k' f' Hj', tile_disjoint _ _ HB _ _ _ j k' f' Hj Hj') as Hb.
    pose proof (λ j k' f' Hj', tile_disjoint _ _ HB j k' f' _ _ _ Hj' Hi) as Hc.
    layout_cases; try (by eauto using tile_disjoint); clear Hi Hj;
      repeat match goal with
      | H : B !! _ = Some _ |- _ =>
        pose proof (Ha _ _ _ H); pose proof (Hb _ _ _ H); pose proof (Hc _ _ _ H); clear H
      end; lia.
Qed.

Lemma tiles_grow N B f g : tiles N B → 0 <= N → (256 | N) →
  tiles (N + 256) (<[N := (7, f)]> (<[N + 128 := (7, g)]> B)).
Proof.
  intros HB H0 HN. assert (∀ i k h, B !! i = Some (k, h) → i + 2 ^ k <= N ∧ i < N) as Hlt.
  { intros i k h Hi. destruct (tile_ok _ _ HB _ _ _ Hi) as (? & ? & ? & ?).
    pose proof (pow2_pos k ltac:(lia)). lia. }
  assert (128 | N) as H128 by (apply Z.divide_trans with 256; [by exists 2|done]).
  split.
  - intros i k h Hi. layout_cases; change (2 ^ 7) with 128.
    + split_and!; try lia. done.
    + split_and!; try lia. apply Z.divide_add_r; [done|apply Z.divide_refl].
    + destruct (tile_ok _ _ HB _ _ _ Hi) as (? & ? & ? & ?). split_and!; try lia. done.
  - intros u Hu. destruct (Z.lt_ge_cases u N) as [Hl|Hg].
    + destruct (tile_cover _ _ HB u) as (i & k & h & Hi & Hiu); [lia|].
      exists i, k, h. destruct (Hlt _ _ _ Hi). by rewrite !lookup_insert_ne by lia.
    + destruct (Z.lt_ge_cases u (N + 128)).
      * exists N, 7, f. rewrite lookup_insert_eq. change (2 ^ 7) with 128. split; [done|lia].
      * exists (N + 128), 7, g. rewrite lookup_insert_ne, lookup_insert_eq by lia.
        change (2 ^ 7) with 128. split; [done|lia].
  - intros i k1 f1 j k2 f2 H1 H2 Hij. layout_cases; change (2 ^ 7) with 128 in *; try lia;
      repeat match goal with H : B !! _ = Some _ |- _ => pose proof (Hlt _ _ _ H); revert H end;
      intros; try lia.
    by eauto using tile_disjoint.
Qed.

(** In a coalesced layout an aligned gap as large as a block lies in one free block. *)
Section gaps.
Context (N : Z) (B : layout) (HB : tiles N B) (HN : (256 | N)) (Hco : coalesced B).
Context (x k : Z) (Hk : 0 <= k < 8) (Hx : 0 <= x) (HxN : x + 2 ^ k <= N) (Hal : (2 ^ k | x)).
Hypothesis gap : ∀ i k' , B !! i = Some (k', false) → i + 2 ^ k' <= x ∨ x + 2 ^ k <= i.

Lemma gap_no_small_block i k' f : B !! i = Some (k', f) → x <= i < x + 2 ^ k → k <= k'.
Proof using HB HN Hco Hk Hal gap.
  intros Hi Hix. destruct (tile_ok _ _ HB _ _ _ Hi) as (Hk' & _).
  apply Z.nlt_ge. intros Hlt. revert i f Hi Hix. revert Hlt. pattern k'.
  apply Z_lt_induction with (x := k'); [|lia]. clear k' Hk'. intros k' IH Hlt i f Hi Hix.
  destruct (tile_ok _ _ HB _ _ _ Hi) as (Hk' & H0 & HiN & Hali).
  pose proof (pow2_pos k' ltac:(lia)) as Hp.
  assert (∀ b, (2 ^ (k' + 1) | b) → x < b + 2 ^ (k' + 1) → b < x + 2 ^ k →
            x <= b ∧ b + 2 ^ (k' + 1) <= x + 2 ^ k) as Hnest.
  { intros b Hb Hb1 Hb2. destruct (aligned_nested (k' + 1) b k x); try done; lia. }
  assert (x <= Z.lxor i (2 ^ k') < x + 2 ^ k) as Hj.
  { destruct (buddy_halves i k') as [[-> Hd]|[-> Hd]]; [lia|done|..];
      destruct (Hnest _ Hd); rewrite ?pow2_succ in * by lia; lia. }
  destruct (buddy_tile N B HB i k' f HN Hi) as (k1 & f1 & HB1 & Hle).
  destruct (tile_ok _ _ HB _ _ _ HB1) as (Hk1 & _).
  destruct (Z.lt_ge_cases k1 k') as [Hlt1|Hge1].
  - destruct (IH k1 ltac:(lia) ltac:(lia) _ _ HB1 Hj).
  - assert (k1 = k') as -> by lia.
    assert (∀ j h, B !! j = Some (k', h) → x <= j < x + 2 ^ k → h = true) as Hfree.
    { intros j [] Hh Hjx; [done|]. destruct (gap _ _ Hh); lia. }
    rewrite (Hfree _ _ HB1 Hj) in HB1. rewrite (Hfree _ _ Hi Hix) in Hi.
    by destruct (Hco i k' ltac:(lia) Hi).
Qed.

Lemma gap_free_block : ∃ i k', k <= k' ∧ B !! i = Some (k', true).
Proof using HB HN Hco Hk Hx HxN Hal gap.
  pose proof (pow2_pos k ltac:(lia)) as Hp.
  destruct (tile_cover _ _ HB x) as (i & k' & f & Hi & Hix); [lia|].
  destruct (tile_ok _ _ HB _ _ _ Hi) as (Hk' & H0 & HiN & Hali).
  assert (k <= k') as Hle.
  { apply Z.nlt_ge. intros Hlt.
    destruct (aligned_nested k' i k x) as [Hn1 Hn2]; try done; [lia..|].
    pose proof (gap_no_small_block i k' f Hi). lia. }
  exists i, k'. split; [done|]. destruct f; [done|]. destruct (gap _ _ Hi); lia.
Qed.
End gaps.

(** ** Free lists *)

Fixpoint chain (m : Mapping) (hd : Z) (l : list Z) : Prop :=
  match l with
  | [] => hd = 0
  | x :: l => hd = x ∧ chain m (free_next_index_bits (header m x)) l
  end.

Definition upd (L : Z → list Z) (k : Z) (l : list Z) : Z → list Z :=
  λ k', if decide (k' = k) then l else L k'.

Lemma upd_eq L k l : upd L k l k = l.
Proof. unfold upd. by rewrite decide_True. Qed.
Lemma upd_ne L k l k' : k' ≠ k → upd L k l k' = L k'.
Proof. intros. unfold upd. by rewrite decide_False. Qed.

(** What the header at [i] says. *)
Definition block_header (m : Mapping) (i k : Z) (f : bool) : Prop :=
  order_bits (header m i) = k ∧ ∃ t, typ m i = Some t ∧ (t = Free ↔ f = true).

Record core (m : Mapping) (N : Z) (heads : list Z) (B : layout) (L : Z → list Z) : Prop := {
  core_len : 0 <= N ∧ 16 * N <= mapping_len m ∧ mapping_len m <= 2 ^ 28;
  core_heads : length heads = 8%nat;
  core_block : ∀ i k f, B !! i = Some (k, f) → 0 <= k < 8 ∧ 0 <= i ∧ i + 2 ^ k <= N;
  core_header : ∀ i k f, B !! i = Some (k, f) → block_header m i k f;
  core_nodup : ∀ k, NoDup (L k);
  core_list : ∀ k i, i ∈ L k ↔ B !! i = Some (k, true);
  core_chain : ∀ k hd, 0 <= k → heads !! Z.to_nat k = Some hd → chain m hd (L k);
}.

Lemma chain_ext m m' hd l :
  (∀ x, x ∈ l → header m' x = header m x) → chain m hd l → chain m' hd l.
Proof.
  revert hd. induction l as [|x l IH]; intros hd Hm; [done|].
  intros [-> Hc]. split; [done|]. rewrite Hm by left. apply IH; [|done].
  intros y Hy. apply Hm. by right.
Qed.

Lemma block_header_ext m m' i k f :
  header m' i = header m i → block_header m i k f → block_header m' i k f.
Proof. unfold block_header, typ. by intros ->. Qed.

Section cores.
Context {m : Mapping} {N : Z} {heads : list Z} {B : layout} {L : Z → list Z}.
Hypothesis HC : core m N heads B L.

Lemma core_inside i k f : B !! i = Some (k, f) → inside m i.
Proof using HC.
  intros Hi. destruct (core_block _ _ _ _ _ HC _ _ _ Hi) as (Hk & H0 & HN).
  pose proof (pow2_pos k ltac:(lia)). destruct (core_len _ _ _ _ _ HC) as (? & ? & Hl).
  change (2 ^ 28) with 268435456 in Hl. unfold inside, u64_size. cbn [container_len Mapping_container].
  split_and!; lia.
Qed.

Lemma core_unit_inside i : 0 <= i < N → inside m i.
Proof using HC.
  intros Hi. destruct (core_len _ _ _ _ _ HC) as (? & ? & Hl).
  change (2 ^ 28) with 268435456 in Hl. unfold inside, u64_size. cbn [container_len Mapping_container].
  split_and!; lia.
Qed.

Lemma core_index_24 i : 0 <= i < N → 0 <= i < 2 ^ 24.
Proof using HC.
  intros Hi. destruct (core_len _ _ _ _ _ HC) as (? & ? & Hl).
  change (2 ^ 28) with 268435456 in Hl. change (2 ^ 24) with 16777216. lia.
Qed.

Lemma core_mem k i : i ∈ L k → 0 <= k < 8 ∧ 0 <= i < N ∧ B !! i = Some (k, true).
Proof using HC.
  intros Hi. apply (core_list _ _ _ _ _ HC) in Hi.
  destruct (core_block _ _ _ _ _ HC _ _ _ Hi) as (Hk & H0 & HN).
  pose proof (pow2_pos k ltac:(lia)). split_and!; try lia. done.
Qed.

Lemma core_free i k : B !! i = Some (k, true) → order_bits (header m i) = k ∧ typ m i = Some Free.
Proof using HC.
  intros Hi. destruct (core_header _ _ _ _ _ HC _ _ _ Hi) as (Ho & t & Ht & Hf).
  split; [done|]. by rewrite Ht, (proj2 Hf).
Qed.

Lemma core_used i k : B !! i = Some (k, false) →
  order_bits (header m i) = k ∧ ∃ t, typ m i = Some t ∧ t ≠ Free.
Proof using HC.
  intros Hi. destruct (core_header _ _ _ _ _ HC _ _ _ Hi) as (Ho & t & Ht & Hf).
  split; [done|]. exists t. split; [done|]. intros ->. by apply proj1 in Hf; discriminate Hf.
Qed.

(** Every list is shorter than the heap. *)
Lemma core_list_length k : Z.of_nat (length (L k)) <= N.
Proof using HC.
  destruct (core_len _ _ _ _ _ HC) as (H0 & _).
  assert (L k ⊆+ seqZ 0 N) as Hsub.
  { apply NoDup_submseteq; [by eapply core_nodup|]. intros i Hi.
    apply core_mem in Hi as (_ & Hi & _). apply elem_of_seqZ. lia. }
  apply submseteq_length in Hsub. rewrite length_seqZ in Hsub. lia.
Qed.

(** The memory may change outside the headers of the blocks, and the heap may grow. *)
Lemma core_ext m' N' :
  mapping_len m' = mapping_len m → N <= N' → 16 * N' <= mapping_len m →
  (∀ i, is_Some (B !! i) → header m' i = header m i) → core m' N' heads B L.
Proof using HC.
  intros Hlen HN HN' Hm. destruct HC as [(H0 & Hl & H28) Hh Hb Hhd Hnd Hls Hch]. split.
  - rewrite Hlen. lia.
  - done.
  - intros i k f Hi. destruct (Hb _ _ _ Hi) as (? & ? & ?). split_and!; lia.
  - intros i k f Hi. eapply block_header_ext; [apply Hm; by eexists|by apply Hhd].
  - done.
  - done.
  - intros k hd Hk Hhdk. eapply chain_ext; [|by apply Hch]. intros x Hx.
    apply Hm. apply Hls in Hx. by eexists.
Qed.

(** A free block put at the head of its list. *)
Lemma core_push m' i k hd :
  mapping_len m' = mapping_len m → (∀ j, is_Some (B !! j) → header m' j = header m j) →
  B !! i = None → 0 <= k < 8 → 0 <= i → i + 2 ^ k <= N →
  heads !! Z.to_nat k = Some hd → header m' i = free_header k hd mod 2 ^ 64 →
  core m' N (<[Z.to_nat k := i]> heads) (<[i := (k, true)]> B) (upd L k (i :: L k)).
Proof using HC.
  intros Hlen Hm Hi Hk H0 HiN Hhd Hhi.
  pose proof (core_chain _ _ _ _ _ HC k hd ltac:(lia) Hhd) as Hck.
  assert (0 <= hd < 2 ^ 24) as Hhd24.
  { destruct (L k) as [|y l] eqn:HLk; cbn in Hck; [subst; lia|].
    destruct Hck as [-> _]. apply core_index_24. apply (core_mem k). rewrite HLk. left. }
  destruct (core_ext m' N Hlen) as [Hl' Hh' Hb' Hhd' Hnd' Hls' Hch'];
    [lia|apply (core_len _ _ _ _ _ HC)|done|].
  split; [done|by rewrite length_insert|..].
  - intros j k' f Hj. layout_cases; [split_and!; lia|by eauto].
  - intros j k' f Hj. layout_cases; [|by eauto]. unfold block_header, typ. rewrite Hhi.
    rewrite free_header_order, free_header_type by lia. split; [done|]. by exists Free.
  - intros k'. destruct (decide (k' = k)) as [->|Hne]; [rewrite upd_eq|by rewrite upd_ne].
    constructor; [|done]. rewrite Hls'. by rewrite Hi.
  - intros k' j. destruct (decide (k' = k)) as [->|Hne].
    + rewrite upd_eq, elem_of_cons, Hls'. destruct (decide (i = j)) as [->|Hij].
      * rewrite lookup_insert_eq. naive_solver.
      * rewrite lookup_insert_ne by done. naive_solver.
    + rewrite upd_ne, Hls' by done. destruct (decide (i = j)) as [->|Hij].
      * rewrite lookup_insert_eq, Hi. naive_solver.
      * by rewrite lookup_insert_ne.
  - intros k' hd' Hk' Hhk'. destruct (decide (k' = k)) as [->|Hne].
    + rewrite upd_eq. rewrite list_lookup_insert_eq in Hhk' by (apply lookup_lt_Some in Hhd; done).
      injection Hhk' as <-. split; [done|]. rewrite Hhi, free_header_next by done.
      by apply Hch'; [lia|].
    + rewrite upd_ne by done. rewrite list_lookup_insert_ne in Hhk' by lia. by apply Hch'.
Qed.

(** A free block taken off its list, wherever it is in it. *)
Lemma core_remove m' heads' i k l1 l2 :
  mapping_len m' = mapping_len m → length heads' = 8%nat → L k = l1 ++ i :: l2 →
  (∀ j k' f, j ≠ i → B !! j = Some (k', f) → block_header m' j k' f) →
  (∀ k' hd, 0 <= k' → heads' !! Z.to_nat k' = Some hd → chain m' hd (upd L k (l1 ++ l2) k')) →
  core m' N heads' (delete i B) (upd L k (l1 ++ l2)).
Proof using HC.
  intros Hlen Hh' HLk Hbh Hch.
  pose proof (core_nodup _ _ _ _ _ HC k) as Hnd. rewrite HLk in Hnd.
  destruct (core_mem k i) as (_ & _ & Hi); [rewrite HLk; set_solver|].
  split; [rewrite Hlen; apply HC|done|..].
  - intros j k' f Hj. layout_cases. by eapply core_block.
  - intros j k' f Hj. layout_cases. by apply Hbh.
  - intros k'. destruct (decide (k' = k)) as [->|Hne]; [rewrite upd_eq|rewrite upd_ne by done; apply HC].
    apply NoDup_app in Hnd as (H1 & H12 & H2). apply NoDup_cons in H2 as [H2i H2].
    apply NoDup_app. split_and!; [done| |done]. intros x Hx Hx2. apply (H12 x Hx). by right.
  - intros k' j. rewrite lookup_delete_Some. destruct (decide (k' = k)) as [->|Hne].
    + rewrite upd_eq, <- (core_list _ _ _ _ _ HC k j), HLk, elem_of_app, elem_of_app, elem_of_cons.
      apply NoDup_app in Hnd as (H1 & H12 & H2). apply NoDup_cons in H2 as [H2i H2].
      specialize (H12 j). split; [|naive_solver].
      intros [Hj|Hj]; (split; [|by auto]); intros <-; [|done]. apply (H12 Hj). by left.
    + rewrite upd_ne, (core_list _ _ _ _ _ HC) by done. split; [|naive_solver].
      intros Hj. split; [|done]. intros <-. rewrite Hi in Hj. by injection Hj as <-.
  - done.
Qed.

Lemma core_remove_head i k l :
  0 <= k < 8 → L k = i :: l →
  core m N (<[Z.to_nat k := free_next_index_bits (header m i)]> heads) (delete i B) (upd L k l).
Proof using HC.
  intros Hk HLk. apply (core_remove _ _ i k [] l); [done| |done|by eauto using core_header|].
  - rewrite length_insert. apply HC.
  - intros k' hd Hk' Hhd. destruct (decide (k' = k)) as [->|Hne].
    + rewrite upd_eq. rewrite list_lookup_insert_eq in Hhd.
      2:{ rewrite (core_heads _ _ _ _ _ HC). lia. }
      injection Hhd as <-. destruct (lookup_lt_is_Some_2 heads (Z.to_nat k)) as [hd Hhd].
      { rewrite (core_heads _ _ _ _ _ HC). lia. }
      pose proof (core_chain _ _ _ _ _ HC k hd Hk' Hhd) as Hc. rewrite HLk in Hc. apply Hc.
    + rewrite upd_ne by done. rewrite list_lookup_insert_ne in Hhd by lia. by eapply core_chain.
Qed.

Lemma chain_skip m0 x i w hd l1 l2 :
  NoDup (l1 ++ x :: i :: l2) → chain m0 hd (l1 ++ x :: i :: l2) →
  free_next_index_bits (w mod 2 ^ 64) = free_next_index_bits (header m0 i) →
  chain (put_header m0 x w) hd (l1 ++ x :: l2).
Proof.
  intros Hnd Hc Hw. revert hd Hc Hnd. induction l1 as [|y l1 IH]; intros hd; cbn [app chain].
  - intros (-> & _ & Hc) Hnd. split; [done|]. rewrite header_put_header, decide_True by done.
    rewrite Hw. eapply chain_ext; [|done]. intros z Hz. rewrite header_put_header, decide_False; [done|].
    intros ->. apply NoDup_cons in Hnd as [Hx _]. apply Hx. by right.
  - intros [-> Hc] Hnd. apply NoDup_cons in Hnd as [Hy Hnd]. split; [done|].
    rewrite header_put_header, decide_False by set_solver. by apply IH.
Qed.

Lemma core_remove_mid x i k l1 l2 :
  L k = l1 ++ x :: i :: l2 →
  core (put_header m x (set_free_next_index_bits (header m x) (free_next_index_bits (header m i))))
    N heads (delete i B) (upd L k (l1 ++ x :: l2)).
Proof using HC.
  intros HLk. set (w := set_free_next_index_bits _ _).
  assert (free_next_index_bits (w mod 2 ^ 64) = free_next_index_bits (header m i)) as Hw.
  { apply set_free_next_read, free_next_index_bits_range. }
  pose proof (core_remove (put_header m x w) heads i k (l1 ++ [x]) l2) as Hrem.
  rewrite <- !app_assoc in Hrem. cbn [app] in Hrem.
  pose proof (core_nodup _ _ _ _ _ HC k) as Hnd. rewrite HLk in Hnd.
  destruct (core_mem k x) as (Hk & _ & Hx); [rewrite HLk; set_solver|].
  apply Hrem; [done|apply HC|done|..].
  - intros j k' f Hji Hj. pose proof (core_header _ _ _ _ _ HC _ _ _ Hj) as Hbh.
    destruct (decide (x = j)) as [->|Hne].
    + unfold block_header, typ. rewrite header_put_header, decide_True by done.
      unfold block_header, typ in Hbh. revert Hbh. unfold w. fields. done.
    + eapply block_header_ext; [|done]. by rewrite header_put_header, decide_False.
  - intros k' hd Hk' Hhd. pose proof (core_chain _ _ _ _ _ HC k' hd Hk' Hhd) as Hc.
    destruct (decide (k' = k)) as [->|Hne].
    + rewrite upd_eq. rewrite HLk in Hc. by apply chain_skip with i.
    + rewrite upd_ne by done. eapply chain_ext; [|done]. intros y Hy.
      rewrite header_put_header, decide_False; [done|]. intros ->.
      apply (core_mem k') in Hy as (_ & _ & Hy). rewrite Hx in Hy. by injection Hy.
Qed.

(** A block that is not free, added to the layout or dropped from it. *)
Lemma core_use m' i k :
  mapping_len m' = mapping_len m → (∀ j, is_Some (B !! j) → header m' j = header m j) →
  B !! i = None → 0 <= k < 8 → 0 <= i → i + 2 ^ k <= N → block_header m' i k false →
  core m' N heads (<[i := (k, false)]> B) L.
Proof using HC.
  intros Hlen Hm Hi Hk H0 HiN Hhi.
  destruct (core_ext m' N Hlen) as [Hl' Hh' Hb' Hhd' Hnd' Hls' Hch'];
    [lia|apply (core_len _ _ _ _ _ HC)|done|].
  split; [done|done|..|done| |done].
  - intros j k' f Hj. layout_cases; [split_and!; lia|by eauto].
  - intros j k' f Hj. layout_cases; by eauto.
  - intros k' j. rewrite Hls'. destruct (decide (i = j)) as [->|Hij].
    + rewrite lookup_insert_eq, Hi. naive_solver.
    + by rewrite lookup_insert_ne.
Qed.

Lemma core_forget i k : B !! i = Some (k, false) → core m N heads (delete i B) L.
Proof using HC.
  intros Hi. destruct HC as [Hl Hh Hb Hhd Hnd Hls Hch]. split; [done|done|..|done| |done].
  - intros j k' f Hj. layout_cases. by eauto.
  - intros j k' f Hj. layout_cases. by eauto.
  - intros k' j. rewrite Hls, lookup_delete_Some. split; [|naive_solver].
    intros Hj. split; [|done]. intros <-. by rewrite Hi in Hj.
Qed.
End cores.
