(* ===== verification/InspectHeapCorrect.v ===== *)
(** Correctness of the Inspect heap: its invariant, and that allocating, freeing and
    growing keep it, never panic, and leave the bytes of the blocks in use alone. *)
From Stdlib Require Import ZArith Lia.
From stdpp Require Import base gmap strings list.
From S2P Require Import Prelude StateError InspectFormat InspectBlock InspectMemory.
From S2P Require Import InspectBuddy InspectHeap.
Local Open Scope Z_scope.

(** ** Used blocks and what is kept of them *)

(** The allocated blocks: index and order. *)
Definition used (B : layout) : gmap Z Z := omap (λ b : Z * bool, if b.2 then None else Some b.1) B.

Lemma used_lookup B i k : used B !! i = Some k ↔ B !! i = Some (k, false).
Proof.
  unfold used. rewrite lookup_omap. destruct (B !! i) as [[k' []]|]; cbn; naive_solver.
Qed.

(** A unit that is in no block of [U]. *)
Definition outside (U : gmap Z Z) (u : Z) : Prop := ∀ i k, U !! i = Some k → u < i ∨ i + 2 ^ k <= u.

(** The free blocks of [B] meet no block of [U]. *)
Definition apart (U : gmap Z Z) (B : layout) : Prop :=
  ∀ x k u, B !! x = Some (k, true) → x <= u < x + 2 ^ k → outside U u.

Record kept (U : gmap Z Z) (m m' : Mapping) : Prop := {
  kept_len : mapping_len m' = mapping_len m;
  kept_byte : ∀ a, ¬ outside U (a / 16) → mapping_byte m' a = mapping_byte m a;
}.

(** Steps inside an operation: the counters of the heap do not move either. *)
Record quiet (U : gmap Z Z) (h h' : Heap) : Prop := {
  quiet_kept : kept U (mapping h) (mapping h');
  quiet_allocated : allocated_blocks h' = allocated_blocks h;
  quiet_deallocated : deallocated_blocks h' = deallocated_blocks h;
  quiet_failed : failed_allocations h' = failed_allocations h;
}.

Lemma kept_refl U m : kept U m m.
Proof. by split. Qed.

Lemma kept_trans U m1 m2 m3 : kept U m1 m2 → kept U m2 m3 → kept U m1 m3.
Proof.
  intros [Hl1 Hb1] [Hl2 Hb2]. split; [congruence|]. intros a Ha. by rewrite Hb2, Hb1.
Qed.

Lemma quiet_refl U h : quiet U h h.
Proof. split; [apply kept_refl|done..]. Qed.

Lemma quiet_trans U h1 h2 h3 : quiet U h1 h2 → quiet U h2 h3 → quiet U h1 h3.
Proof.
  intros [Hk1 ? ? ?] [Hk2 ? ? ?]. split; [by eapply kept_trans|congruence..].
Qed.

Lemma kept_put_header U m i w : outside U i → kept U m (put_header m i w).
Proof.
  intros Hi. split; [done|]. intros a Ha. apply put_header_byte. intros Heq. by rewrite Heq in Ha.
Qed.

Lemma quiet_set_mapping U h m : kept U (mapping h) m → quiet U h (set_mapping m h).
Proof. intros Hk. by split. Qed.

Lemma quiet_set_free_heads U h l : quiet U h (set_free_heads l h).
Proof. split; [apply kept_refl|done..]. Qed.

Lemma apart_delete U B i : apart U B → apart U (delete i B).
Proof. intros Ha x k u Hx Hu. layout_cases. by eapply Ha. Qed.

Lemma apart_push U B i k : apart U B → (∀ u, i <= u < i + 2 ^ k → outside U u) →
  apart U (<[i := (k, true)]> B).
Proof. intros Ha Hi x k' u Hx Hu. layout_cases; [by apply Hi|by eapply Ha]. Qed.

Lemma tiles_apart N B : tiles N B → apart (used B) B.
Proof.
  intros HB x k u Hx Hu i k' Hi. apply used_lookup in Hi.
  destruct (Z.lt_trichotomy x i) as [Hl|[->|Hl]].
  - pose proof (tile_disjoint _ _ HB _ _ _ _ _ _ Hx Hi Hl). lia.
  - by rewrite Hi in Hx.
  - pose proof (tile_disjoint _ _ HB _ _ _ _ _ _ Hi Hx Hl). lia.
Qed.

(** ** Running block operations in the heap *)

Lemma wp_on_block {A} (m : st Mapping FormatError A) h m' a (Q : A → Heap → Prop) R :
  m (mapping h) = (m', Ok a) → Q a (set_mapping m' h) → wp (on_block m) h Q R.
Proof. intros Hm HQ. apply wp_zoom. unfold wp. by rewrite Hm. Qed.

Lemma wp_block_reads {A} (f : Mapping → Z → outcome FormatError A) h i a (Q : A → Heap → Prop) R :
  f (mapping h) i = Ok a → Q a h → wp (on_block (block_reads f i)) h Q R.
Proof.
  intros Hf HQ. eapply wp_on_block; [unfold block_reads, reads; by rewrite Hf|]. by destruct h.
Qed.

Lemma wp_free_head h k hd (Q : Z → Heap → Prop) R :
  0 <= k → free_head_per_order h !! Z.to_nat k = Some hd → Q hd h → wp (free_head k) h Q R.
Proof.
  intros Hk Hhd HQ. eapply wp_reads; [|done]. unfold Prelude.index.
  by rewrite (proj2 (Z.leb_le _ _)), Hhd by lia.
Qed.

Lemma wp_set_free_head h k i (Q : unit → Heap → Prop) R :
  0 <= k < 8 → length (free_head_per_order h) = 8%nat →
  Q tt (set_free_heads (<[Z.to_nat k := i]> (free_head_per_order h)) h) → wp (set_free_head k i) h Q R.
Proof.
  intros Hk Hl HQ. apply wp_bind. unfold get, wp at 1. apply wp_bind. eapply wp_lift.
  { unfold index_set. rewrite (proj2 (Z.leb_le _ _)), (proj2 (Z.ltb_lt _ _)) by (unfold len; lia). done. }
  done.
Qed.

(** ** The heap and its layout *)

Definition hcore (h : Heap) (N : Z) (B : layout) (L : Z → list Z) : Prop :=
  current_size_bytes h = 16 * N ∧ core (mapping h) N (free_head_per_order h) B L.

Lemma block_order h i : inside (mapping h) i → block_get order h i = Ok (order_bits (header (mapping h) i)).
Proof. intros Hi. unfold block_get. by rewrite order_inside. Qed.

Lemma order_to_size_spec k : 0 <= k → order_to_size k = 16 * 2 ^ k.
Proof. intros Hk. unfold order_to_size. rewrite Z.shiftl_mul_pow2 by done. done. Qed.

Section runs.
Context {h : Heap} {N : Z} {B : layout} {L : Z → list Z}.
Hypothesis HC : hcore h N B L.

Lemma get_block_run i k f : B !! i = Some (k, f) → get_block h i = Ok i.
Proof using HC.
  destruct HC as [Hsz Hcore]. intros Hi. destruct (core_block _ _ _ _ _ Hcore _ _ _ Hi) as (Hk & H0 & HN).
  pose proof (pow2_pos k ltac:(lia)). unfold get_block, offset_for_index. change MIN_ORDER_SIZE with 16.
  rewrite (proj2 (Z.leb_gt _ _)) by lia. rewrite block_order by (by eapply core_inside).
  rewrite (proj1 (core_header _ _ _ _ _ Hcore _ _ _ Hi)). cbn. rewrite order_to_size_spec by lia.
  by rewrite (proj2 (Z.ltb_ge _ _)) by lia.
Qed.

Lemma block_type_run i k f : B !! i = Some (k, f) →
  ∃ t, block_get block_type h i = Ok t ∧ bool_decide (t = Free) = f.
Proof using HC.
  destruct HC as [Hsz Hcore]. intros Hi. destruct (core_header _ _ _ _ _ Hcore _ _ _ Hi) as (Ho & t & Ht & Hf).
  exists t. split.
  - unfold block_get. by rewrite (block_type_inside _ _ t) by (done || by eapply core_inside).
  - destruct f; [by apply bool_decide_true, Hf|apply bool_decide_false].
    intros Hfree. by apply Hf in Hfree.
Qed.

Lemma block_order_run i k f : B !! i = Some (k, f) → block_get order h i = Ok k.
Proof using HC.
  destruct HC as [Hsz Hcore]. intros Hi. rewrite block_order by (by eapply core_inside).
  by rewrite (proj1 (core_header _ _ _ _ _ Hcore _ _ _ Hi)).
Qed.

Lemma is_free_block_run i k f k' : B !! i = Some (k, f) →
  is_free_block h i k' = Ok (f && (k =? k')).
Proof using HC.
  intros Hi. destruct HC as [Hsz Hcore]. destruct (core_block _ _ _ _ _ Hcore _ _ _ Hi) as (Hk & H0 & HN).
  pose proof (pow2_pos k ltac:(lia)). unfold is_free_block. change MIN_ORDER_SIZE with 16.
  rewrite Hsz, Z.mul_comm, Z.div_mul by lia. rewrite (proj2 (Z.leb_gt _ _)) by lia.
  rewrite (get_block_run _ _ _ Hi). destruct (block_type_run _ _ _ Hi) as (t & -> & Ht).
  cbn. rewrite Ht. destruct f; [|done]. by rewrite (block_order_run _ _ _ Hi).
Qed.
End runs.

(** ** Taking a block off its free list *)

Lemma chain_next m hd l1 x y l2 :
  chain m hd (l1 ++ x :: y :: l2) → free_next_index_bits (header m x) = y.
Proof.
  revert hd. induction l1 as [|z l1 IH]; intros hd; cbn [app chain].
  - by intros (-> & -> & _).
  - intros [-> Hc]. by eapply IH.
Qed.

Section remove.
Context {h : Heap} {N : Z} {B : layout} {L : Z → list Z}.
Hypothesis HC : hcore h N B L.

Lemma list_pointer k l1 x y l2 : L k = l1 ++ x :: y :: l2 →
  free_next_index_bits (header (mapping h) x) = y.
Proof using HC.
  intros HLk. destruct HC as [_ Hcore].
  destruct (core_mem Hcore k x) as (Hk & _); [rewrite HLk; set_solver|].
  destruct (lookup_lt_is_Some_2 (free_head_per_order h) (Z.to_nat k)) as [hd Hhd].
  { rewrite (core_heads _ _ _ _ _ Hcore). lia. }
  pose proof (core_chain _ _ _ _ _ Hcore k hd ltac:(lia) Hhd) as Hc. rewrite HLk in Hc.
  by eapply chain_next.
Qed.

Lemma free_next_run k i : i ∈ L k →
  free_next_index (mapping h) i = Ok (free_next_index_bits (header (mapping h) i)).
Proof using HC.
  intros Hi. destruct HC as [_ Hcore]. destruct (core_mem Hcore k i Hi) as (_ & _ & HBi).
  apply free_next_index_inside; [by eapply core_inside|]. by eapply core_free.
Qed.

Lemma remove_free_loop_wp fuel k i pre x mid post (Q : bool → Heap → Prop) R :
  L k = pre ++ x :: mid ++ i :: post → (length mid < fuel)%nat →
  (∀ l1 y l2, L k = l1 ++ y :: i :: l2 →
     Q true (set_mapping (put_header (mapping h) y (set_free_next_index_bits (header (mapping h) y)
               (free_next_index_bits (header (mapping h) i)))) h)) →
  wp (remove_free_loop fuel k i x) h Q R.
Proof using HC.
  intros HLk Hfuel HQ. revert fuel pre x HLk Hfuel.
  pose proof (core_nodup _ _ _ _ _ (proj2 HC) k) as Hnd.
  induction mid as [|y mid IH]; intros fuel pre x HLk Hfuel; (destruct fuel as [|fuel]; [cbn in Hfuel; lia|]);
    cbn [remove_free_loop app] in *.
  all: assert (x ∈ L k) as Hx by (rewrite HLk; set_solver).
  all: destruct (core_mem (proj2 HC) k x Hx) as (_ & _ & HBx).
  all: apply wp_bind; eapply wp_reads; [by apply (is_free_block_run HC _ _ _ k HBx)|].
  all: rewrite Z.eqb_refl; cbn [andb negb].
  all: apply wp_bind, wp_unwrap; eapply wp_reads; [by apply (get_block_run HC _ _ _ HBx)|].
  all: apply wp_bind; eapply wp_block_reads; [by apply (free_next_run k)|].
  - rewrite (list_pointer k pre x i post) by done. rewrite Z.eqb_refl.
    apply wp_bind. eapply wp_block_reads; [apply (free_next_run k); rewrite HLk; set_solver|].
    apply wp_bind. eapply wp_on_block.
    { apply set_free_next_index_inside; [by eapply core_inside; [apply HC|]|by eapply core_free; [apply HC|]]. }
    apply wp_ret. by eapply HQ.
  - rewrite (list_pointer k pre x y (mid ++ i :: post)) by done.
    rewrite (proj2 (Z.eqb_neq y i)).
    + apply (IH fuel (pre ++ [x]) y); [by rewrite <- app_assoc|cbn in Hfuel; lia].
    + intros ->. rewrite HLk in Hnd. apply NoDup_app in Hnd as (_ & _ & Hnd).
      apply NoDup_cons in Hnd as [_ Hnd]. cbn in Hnd. apply NoDup_cons in Hnd as [Hnd _].
      apply Hnd. set_solver.
Qed.

Lemma remove_free_wp U i k (Q : bool → Heap → Prop) R :
  apart U B → B !! i = Some (k, true) →
  (∀ h' L', hcore h' N (delete i B) L' → quiet U h h' →
     (∀ x, x = i ∨ B !! x = None → header (mapping h') x = header (mapping h) x) → Q true h') →
  wp (remove_free i) h Q R.
Proof using HC.
  intros Hap Hi HQ. pose proof HC as [Hsz Hcore].
  destruct (core_block _ _ _ _ _ Hcore _ _ _ Hi) as (Hk & H0 & HiN).
  apply wp_bind. unfold get, wp at 1. apply wp_bind.
  eapply wp_lift; [by apply (block_order_run HC _ _ _ Hi)|].
  change NUM_ORDERS with 8. rewrite (proj2 (Z.leb_gt _ _)) by lia.
  destruct (lookup_lt_is_Some_2 (free_head_per_order h) (Z.to_nat k)) as [hd Hhd].
  { rewrite (core_heads _ _ _ _ _ Hcore). lia. }
  apply wp_bind. eapply wp_free_head; [lia|done|].
  pose proof (core_chain _ _ _ _ _ Hcore k hd ltac:(lia) Hhd) as Hc.
  assert (i ∈ L k) as HiL by (by apply (core_list _ _ _ _ _ Hcore)).
  pose proof (core_nodup _ _ _ _ _ Hcore k) as Hnd.
  destruct (list_elem_of_split _ _ HiL) as (l1 & l2 & HLk). destruct l1 as [|x l1].
  - rewrite HLk in Hc. destruct Hc as [-> _]. rewrite Z.eqb_refl.
    apply wp_bind. eapply wp_block_reads; [by apply (free_next_run k)|].
    apply wp_bind. apply wp_set_free_head; [done|apply Hcore|]. apply wp_ret.
    eapply HQ; [split; [done|by apply (core_remove_head Hcore)]|apply quiet_set_free_heads|done].
  - rewrite HLk in Hc. destruct Hc as [-> _]. rewrite (proj2 (Z.eqb_neq x i)).
    2:{ intros ->. rewrite HLk in Hnd. apply NoDup_cons in Hnd as [Hnd _]. set_solver. }
    apply (remove_free_loop_wp _ k i [] x l1 l2); [done| |].
    + pose proof (core_list_length Hcore k) as Hlen. rewrite HLk in Hlen. cbn in Hlen.
      rewrite length_app in Hlen. change MIN_ORDER_SIZE with 16.
      rewrite Hsz, Z.mul_comm, Z.div_mul by lia. lia.
    + intros l y l' HLk'. assert (y ∈ L k) as Hy by (rewrite HLk'; set_solver).
      destruct (core_mem Hcore k y Hy) as (_ & _ & HBy).
      eapply HQ; [split; [done|by apply (core_remove_mid Hcore _ _ _ _ _ HLk')]| |].
      * apply quiet_set_mapping, kept_put_header. apply (Hap y k y HBy).
        pose proof (pow2_pos k). lia.
      * cbn [mapping set_mapping]. intros z Hz. rewrite header_put_header, decide_False; [done|]. intros ->.
        destruct Hz as [->|Hz]; [|by rewrite HBy in Hz]. rewrite HLk' in Hnd. apply NoDup_app in Hnd as (_ & _ & Hnd).
        apply NoDup_cons in Hnd as [Hnd _]. set_solver.
Qed.
End remove.

(** ** Splitting *)

Lemma buddy_run {E} i k : 0 <= k < 16 → buddy (E := E) i k = Ok (Z.lxor i (2 ^ k)).
Proof.
  intros Hk. unfold buddy, index_for_offset. change MIN_ORDER_SIZE with 16.
  rewrite order_to_size_spec, Z.mul_comm, Z.div_mul by lia. unfold try_u32.
  pose proof (pow2_pos k ltac:(lia)). pose proof (Z.pow_lt_mono_r 2 k 32). unfold u32_size.
  by rewrite (proj2 (Z.leb_le _ _)), (proj2 (Z.ltb_lt _ _)) by lia.
Qed.

Lemma set_order_read h k : 0 <= k < 16 → order_bits (set_order_bits h k mod 2 ^ 64) = k.
Proof. intros Hk. fields. by apply Z.mod_small. Qed.

Ltac headers :=
  rewrite ?header_put_header; repeat case_decide; try done; try lia.

(** Two blocks put on the list of their order, the first before the second. *)
Lemma core_push_two m N heads B L m' i j k hd :
  core m N heads B L → mapping_len m' = mapping_len m →
  (∀ x, is_Some (B !! x) → header m' x = header m x) →
  B !! i = None → B !! j = None → i ≠ j → 0 <= k < 8 → 0 <= i → i + 2 ^ k <= N → 0 <= j → j + 2 ^ k <= N →
  heads !! Z.to_nat k = Some hd →
  header m' j = free_header k hd mod 2 ^ 64 → header m' i = free_header k j mod 2 ^ 64 →
  ∃ L', core m' N (<[Z.to_nat k := i]> heads) (<[i := (k, true)]> (<[j := (k, true)]> B)) L'.
Proof.
  intros HC Hlen Hm Hi Hj Hij Hk H0i HiN H0j HjN Hhd Hhj Hhi.
  pose proof (core_push HC m' j k hd Hlen Hm Hj Hk H0j HjN Hhd Hhj) as HC1.
  assert (Z.to_nat k < length heads)%nat by (rewrite (core_heads _ _ _ _ _ HC); lia).
  eexists. erewrite <- (list_insert_insert_eq heads).
  apply (core_push HC1 m' i k j); try done; [by rewrite lookup_insert_ne|].
  by apply list_lookup_insert_eq.
Qed.

Lemma split_block_wp U h N B L i k (Q : unit → Heap → Prop) R :
  hcore h N B L → apart U B → 0 <= k → B !! i = Some (k + 1, true) → (2 ^ (k + 1) | i) →
  B !! (i + 2 ^ k) = None →
  (∀ h' L', hcore h' N (<[i := (k, true)]> (<[i + 2 ^ k := (k, true)]> B)) L' →
     quiet U h h' → Q tt h') →
  wp (split_block i) h Q R.
Proof.
  intros HC Hap Hk Hi Hal Hj HQ. pose proof HC as [Hsz Hcore].
  destruct (core_block _ _ _ _ _ Hcore _ _ _ Hi) as (Hk8 & H0 & HiN).
  pose proof (pow2_pos k Hk) as Hp. rewrite pow2_succ in HiN by done.
  assert (∀ u, i <= u < i + 2 * 2 ^ k → outside U u) as Hout.
  { intros u Hu. apply (Hap i (k + 1) u Hi). rewrite pow2_succ by done. lia. }
  apply wp_bind. eapply wp_reads; [by apply (block_order_run HC _ _ _ Hi)|].
  change NUM_ORDERS with 8. rewrite (proj2 (Z.leb_gt _ _)) by lia.
  apply wp_bind, (remove_free_wp HC U i (k + 1)); [done|done|]. intros h1 L1 HC1 Hq1 Hh1.
  specialize (Hh1 i (or_introl eq_refl)).
  pose proof HC1 as [Hsz1 Hcore1].
  assert (inside (mapping h1) i) as Hini by (apply (core_unit_inside Hcore1); lia).
  assert (inside (mapping h1) (i + 2 ^ k)) as Hinj by (apply (core_unit_inside Hcore1); lia).
  apply wp_bind. eapply wp_reads.
  { by rewrite block_order, Hh1, (proj1 (core_header _ _ _ _ _ Hcore _ _ _ Hi)) by done. }
  rewrite (proj2 (Z.ltb_ge _ _)) by lia. replace (k + 1 - 1) with k by lia.
  apply wp_bind. eapply wp_lift; [by apply buddy_run; lia|].
  rewrite lxor_pow2_clear by (done || by apply aligned_testbit). set (j := i + 2 ^ k) in *.
  apply wp_bind. eapply wp_on_block; [apply set_order_inside; [done|lia]|].
  apply wp_bind. eapply wp_on_block; [by apply become_free_inside|].
  apply wp_bind. eapply wp_on_block; [apply set_order_inside; [done|lia]|].
  destruct (lookup_lt_is_Some_2 (free_head_per_order h1) (Z.to_nat k)) as [hd Hhd].
  { rewrite (core_heads _ _ _ _ _ Hcore1). lia. }
  apply wp_bind. eapply wp_free_head; [lia|done|].
  apply wp_bind. eapply wp_on_block; [by apply become_free_inside|].
  cbn [mapping set_mapping].
  assert (∀ m w, order_bits (header (put_header m i (set_order_bits w k)) i) = k) as Hoi.
  { intros. headers. apply set_order_read. lia. }
  assert (∀ m w, order_bits (header (put_header m j (set_order_bits w k)) j) = k) as Hoj.
  { intros. headers. apply set_order_read. lia. }
  rewrite Hoi, Hoj. apply wp_set_free_head; [lia|apply Hcore1|].
  cbn [mapping set_mapping free_head_per_order].
  set (m' := put_header (put_header _ j _) j (free_header k hd)).
  destruct (core_push_two (mapping h1) N (free_head_per_order h1) (delete i B) L1 m' i j k hd)
    as [L' HC']; [done|done| |by rewrite lookup_delete_eq|by rewrite lookup_delete_ne by lia|lia..|done| | |].
  { intros x [? Hx]. layout_cases. unfold m'. headers. subst x. by rewrite Hj in Hx. }
  { unfold m'. headers. }
  { unfold m'. headers. }
  rewrite insert_insert_ne, insert_delete_eq, insert_insert_ne in HC' by lia.
  apply (HQ _ L'); [done|]. eapply quiet_trans; [done|].
  apply (quiet_trans _ _ (set_mapping m' h1)); [|apply quiet_set_free_heads].
  apply quiet_set_mapping. unfold m'.
  do 3 (eapply kept_trans; [|apply kept_put_header, Hout; lia]). apply kept_put_header, Hout. lia.
Qed.

Definition coalesced_but (i : Z) (B : layout) : Prop :=
  ∀ x k, k < 7 → B !! x = Some (k, true) → x ≠ i → Z.lxor x (2 ^ k) ≠ i →
    B !! Z.lxor x (2 ^ k) ≠ Some (k, true).

Lemma coalesced_but_of B i : coalesced B → coalesced_but i B.
Proof. intros H x k Hk Hx _ _. by apply H. Qed.

Lemma used_insert_free B i k : (∀ k', B !! i ≠ Some (k', false)) → used (<[i := (k, true)]> B) = used B.
Proof.
  intros Hi. apply map_eq. intros x. apply option_eq. intros k'. rewrite !used_lookup.
  destruct (decide (i = x)) as [->|Hne]; [rewrite lookup_insert_eq|by rewrite lookup_insert_ne].
  split; [done|]. by intros ?%Hi.
Qed.

Lemma used_insert_used B i k : used (<[i := (k, false)]> B) = <[i := k]> (used B).
Proof.
  apply map_eq. intros x. apply option_eq. intros k'. rewrite used_lookup.
  destruct (decide (i = x)) as [->|Hne].
  - rewrite !lookup_insert_eq. naive_solver.
  - rewrite !lookup_insert_ne by done. by rewrite used_lookup.
Qed.

Lemma used_delete B i : used (delete i B) = delete i (used B).
Proof.
  apply map_eq. intros x. apply option_eq. intros k'.
  by rewrite used_lookup, !lookup_delete_Some, used_lookup.
Qed.

Lemma coalesced_but_split B i k :
  0 <= k → (2 ^ (k + 1) | i) → coalesced_but i B →
  coalesced_but i (<[i := (k, true)]> (<[i + 2 ^ k := (k, true)]> B)).
Proof.
  intros Hk Hal Hco x k' Hk' Hx Hxi Hyi Hy.
  assert (Z.lxor i (2 ^ k) = i + 2 ^ k) as Hj.
  { apply lxor_pow2_clear; [done|]. by apply aligned_testbit. }
  rewrite lookup_insert_ne in Hx, Hy by done. rewrite lookup_insert_Some in Hx, Hy.
  destruct Hx as [[<- Hx]|[Hxj Hx]].
  - injection Hx as <-. apply Hyi. by rewrite <- Hj, lxor_pow2_twice.
  - destruct Hy as [[Hyj Hy]|[Hyj Hy]]; [|by destruct (Hco x k' Hk' Hx Hxi Hyi)].
    injection Hy as <-. apply Hxi. by rewrite <- (lxor_pow2_twice i k), Hj, Hyj, lxor_pow2_twice.
Qed.

Lemma split_loop_wp fuel h N B L i k min_order (Q : unit → Heap → Prop) R :
  hcore h N B L → tiles N B → coalesced_but i B → B !! i = Some (k, true) →
  0 <= min_order <= k → (Z.to_nat (k - min_order) < fuel)%nat →
  (∀ h' B' L', hcore h' N B' L' → tiles N B' → coalesced_but i B' → B' !! i = Some (min_order, true) →
     used B' = used B → quiet (used B) h h' → Q tt h') →
  wp (split_loop fuel i min_order) h Q R.
Proof.
  revert h B L k. induction fuel as [|fuel IH]; [lia|]. intros h B L k HC HB Hco Hi Hmin Hfuel HQ.
  cbn [split_loop]. apply wp_bind. eapply wp_reads; [by apply (block_order_run HC _ _ _ Hi)|].
  destruct (Z.ltb_spec min_order k) as [Hlt|Hge].
  - destruct (tile_ok _ _ HB _ _ _ Hi) as (Hk8 & H0 & HiN & Hal).
    replace k with (k - 1 + 1) in Hi, Hal by lia. pose proof (pow2_pos (k - 1) ltac:(lia)) as Hp.
    assert (B !! (i + 2 ^ (k - 1)) = None) as Hj.
    { apply (tile_inside_None _ _ HB i _ _ _ Hi). rewrite pow2_succ; lia. }
    apply wp_bind. apply (split_block_wp (used B) h N B L i (k - 1)); [done|by eapply tiles_apart|lia|done|done|done|].
    intros h1 L1 HC1 Hq1.
    assert (used (<[i := (k - 1, true)]> (<[i + 2 ^ (k - 1) := (k - 1, true)]> B)) = used B) as Hus.
    { rewrite used_insert_free, used_insert_free; [done|by rewrite Hj|].
      intros k'. rewrite lookup_insert_ne by lia. by rewrite Hi. }
    eapply (IH h1 _ L1 (k - 1)); [done| | |by rewrite lookup_insert_eq|lia|lia|].
    + rewrite insert_insert_ne by lia. by eapply tiles_split; [|lia|].
    + by apply coalesced_but_split; [lia| |].
    + intros h' B' L' HC' HB' Hco' Hi' Hus' Hq'. rewrite Hus in Hus', Hq'.
      eapply HQ; [done..|]. by eapply quiet_trans.
  - assert (k = min_order) as -> by lia. apply wp_ret. by eapply HQ; [..|apply quiet_refl].
Qed.

(** ** Growing *)

Lemma index_for_offset_run {E} u : 0 <= u < u32_size → index_for_offset (E := E) (16 * u) = Ok u.
Proof.
  intros Hu. unfold index_for_offset, try_u32. change MIN_ORDER_SIZE with 16.
  rewrite Z.mul_comm, Z.div_mul by lia.
  by rewrite (proj2 (Z.leb_le _ _)), (proj2 (Z.ltb_lt _ _)) by lia.
Qed.

Lemma coalesced_insert_top B i f : coalesced B → coalesced (<[i := (7, f)]> B).
Proof.
  intros Hco x k Hk Hx Hy. layout_cases; try lia. by destruct (Hco x k Hk Hx).
Qed.

Lemma quiet_set_current_size U h n : quiet U h (set_current_size n h).
Proof. split; [apply kept_refl|done..]. Qed.

Lemma wp_new_free h i k n (Q : Z → Heap → Prop) R : inside (mapping h) i → k < 8 →
  Q i (set_mapping (put_header (mapping h) i (free_header k n)) h) →
  wp (unwrap (E := Error) (on_block (new_free i k n))) h Q R.
Proof. intros Hi Hk HQ. eapply wp_unwrap, wp_on_block; [by apply new_free_inside|done]. Qed.

(** One page more: two free blocks of the largest order. *)
Lemma grow_loop_wp h u hd fuel (Q : Z → Heap → Prop) R :
  0 <= u → u + 256 < u32_size → inside (mapping h) u → inside (mapping h) (u + 128) →
  Q u (set_mapping (put_header (put_header (mapping h) (u + 128) (free_header 7 hd)) u
         (free_header 7 (u + 128))) h) →
  wp (grow_loop (S (S fuel)) u hd (u + 256)) h Q R.
Proof.
  intros H0 H32 Hu Hu' HQ. change MAX_ORDER_SIZE with (16 * 128).
  assert (index_for_offset (E := Error) (16 * 128) = Ok 128) as Hstep by done.
  cbn [grow_loop]. change MAX_ORDER_SIZE with (16 * 128).
  apply wp_bind. eapply wp_lift; [exact Hstep|]. rewrite (proj2 (Z.ltb_ge _ _)) by lia.
  replace (u + 256 - 128) with (u + 128) by lia.
  apply wp_bind, wp_new_free; [done|done|]. rewrite (proj2 (Z.leb_gt _ _)) by lia.
  apply wp_bind. eapply wp_lift; [exact Hstep|]. rewrite (proj2 (Z.ltb_ge _ _)) by lia.
  replace (u + 128 - 128) with u by lia.
  apply wp_bind, wp_new_free; [done|done|]. by rewrite (proj2 (Z.leb_le _ _)) by lia.
Qed.

Lemma grow_heap_wp U h N B L (Q : unit → Heap → Prop) R :
  hcore h N B L → tiles N B → 0 <= N → (256 | N) → (∀ u, N <= u → outside U u) →
  (mapping_len (mapping h) < 16 * N + 4096 → R HeapMaxSizeReached (count_failed h)) →
  (∀ h' L', hcore h' (N + 256) (<[N := (7, true)]> (<[N + 128 := (7, true)]> B)) L' →
     quiet U h h' → Q tt h') →
  wp (grow_heap (current_size_bytes h + PAGE_SIZE_BYTES)) h Q R.
Proof.
  intros [Hsz HC] HB H0 HN Hout HR HQ. rewrite Hsz. change PAGE_SIZE_BYTES with 4096.
  apply wp_bind. unfold get, wp at 1. destruct (Z.ltb_spec (mapping_len (mapping h)) (16 * N + 4096)) as [Hlt|Hge].
  { apply wp_bind. unfold modify, wp at 1. unfold throw, wp. by apply HR. }
  destruct (core_len _ _ _ _ _ HC) as (_ & _ & H28). change (2 ^ 28) with 268435456 in H28.
  assert (N + 256 < u32_size) as H32 by (unfold u32_size; lia).
  rewrite Z.min_r by lia. rewrite Hsz.
  apply wp_bind. eapply wp_lift; [apply index_for_offset_run; lia|].
  destruct (lookup_lt_is_Some_2 (free_head_per_order h) 7) as [hd Hhd].
  { rewrite (core_heads _ _ _ _ _ HC). lia. }
  apply wp_bind. eapply wp_free_head; [done|done|].
  assert ((16 * N + 4096) mod PAGE_SIZE_BYTES = 0) as ->.
  { change PAGE_SIZE_BYTES with 4096. destruct HN as [q ->]. replace (16 * (q * 256) + 4096) with ((q + 1) * 4096) by lia.
    by apply Z.mod_mul. }
  apply wp_bind. eapply wp_lift.
  { replace (16 * N + 4096 - 0) with (16 * (N + 256)) by lia. apply index_for_offset_run. lia. }
  replace (Z.to_nat (N + 256)) with (S (Z.to_nat (N + 255))) by lia.
  assert (∀ u, N <= u < N + 256 → inside (mapping h) u) as Hin.
  { intros u Hu. unfold inside, u64_size. cbn [container_len Mapping_container]. split_and!; lia. }
  apply wp_bind, grow_loop_wp; [done|done|apply Hin; lia..|].
  apply wp_bind, wp_set_free_head; [done|apply HC|]. cbn [mapping set_mapping free_head_per_order].
  set (m' := put_header (put_header _ _ _) _ _). unfold modify, wp.
  assert (∀ x k f, B !! x = Some (k, f) → x < N) as Hlt.
  { intros x k f Hx. destruct (tile_ok _ _ HB _ _ _ Hx) as (? & ? & ? & _).
    pose proof (pow2_pos k ltac:(lia)). lia. }
  assert (∀ x, N <= x → B !! x = None) as HNone.
  { intros x Hx. destruct (B !! x) as [[]|] eqn:E; [|done]. apply Hlt in E. lia. }
  assert (core (mapping h) (N + 256) (free_head_per_order h) B L) as HC1.
  { apply (core_ext HC); [done|lia|lia|done]. }
  destruct (core_push_two (mapping h) (N + 256) (free_head_per_order h) B L m' N (N + 128) 7 hd)
    as [L' HC']; [done|done| |by apply HNone; lia|by apply HNone; lia|lia..|done| | |].
  { intros x [[k f] Hx]. apply Hlt in Hx. unfold m'. headers. }
  { unfold m'. headers. }
  { unfold m'. headers. }
  apply (HQ _ L'); [split; [cbn; lia|done]|].
  apply (quiet_trans _ _ (set_mapping m' h)); [|split; [apply kept_refl|done..]].
  apply quiet_set_mapping.
  eapply kept_trans; [|apply kept_put_header, Hout; lia]. apply kept_put_header, Hout. lia.
Qed.

(** ** The invariant *)

(** The blocks in use are those of [U] (index and order); the heap is tiled by them and
    by free blocks that are all in their lists and merged as far as they can be. *)
Definition heap_inv (h : Heap) (U : gmap Z Z) : Prop :=
  ∃ N B L, hcore h N B L ∧ tiles N B ∧ coalesced B ∧ 0 < N ∧ (256 | N) ∧ used B = U.

Lemma new_wp m (Q : unit → Heap → Prop) R :
  4096 <= mapping_len m <= 2 ^ 28 →
  (∀ h, heap_inv h ∅ → current_size_bytes h = 4096 → mapping_len (mapping h) = mapping_len m →
     (allocated_blocks h, deallocated_blocks h, failed_allocations h) = (0, 0, 0) → Q tt h) →
  wp (λ _, new m) (mkHeap m 0 (replicate 8 0) 0 0 0) Q R.
Proof.
  intros Hlen HQ. set (h := mkHeap m 0 (replicate 8 0) 0 0 0).
  assert (hcore h 0 ∅ (λ _, [])) as HC.
  { split; [done|]. split; [cbn; lia|done|done|done|intros; constructor|set_solver|].
    intros k hd _ Hhd. by apply (lookup_replicate 8 0) in Hhd as [-> _]. }
  change (wp (grow_heap (current_size_bytes h + PAGE_SIZE_BYTES)) h Q R).
  apply (grow_heap_wp ∅ h 0 ∅ (λ _, [])); [done|apply tiles_nil|done|by exists 0|done| |].
  - cbn. lia.
  - intros h' L' HC' Hq. pose proof HC' as [Hsz _]. apply HQ.
    + exists 256, (<[0 := (7, true)]> (<[128 := (7, true)]> ∅)), L'. split_and!; try done.
      * by apply (tiles_grow 0 ∅); [apply tiles_nil| |exists 0].
      * by apply coalesced_insert_top, coalesced_insert_top.
    + done.
    + apply Hq.
    + destruct Hq as [_ Ha Hd Hf]. cbn in Ha, Hd, Hf. by rewrite Ha, Hd, Hf.
Qed.

(** ** Orders *)

Lemma fit_order_spec {E} size : 0 < size →
  ∃ k, fit_order (E := E) size = Ok k ∧ 0 <= k ∧ size <= 16 * 2 ^ k ∧ (k = 0 ∨ 16 * 2 ^ (k - 1) < size).
Proof.
  intros Hs. unfold fit_order, leading_zeros, MIN_ORDER_SHIFT.
  rewrite (proj2 (Z.eqb_neq _ _)) by lia. eexists. split; [done|].
  destruct (Z.eqb_spec (size - 1) 0).
  { replace (64 - 64 <? 4) with true by done. change (2 ^ 0) with 1. lia. }
  pose proof (Z.log2_spec (size - 1) ltac:(lia)) as [Hlo Hhi]. unfold Z.succ in Hhi.
  replace (64 - (63 - Z.log2 (size - 1))) with (Z.log2 (size - 1) + 1) by lia.
  pose proof (Z.log2_nonneg (size - 1)) as Hnn. revert Hlo Hhi Hnn.
  generalize (Z.log2 (size - 1)) as b. intros b Hlo Hhi Hnn.
  destruct (Z.ltb_spec (b + 1) 4).
  - pose proof (Z.pow_le_mono_r 2 (b + 1) 3). change (2 ^ 0) with 1. change (2 ^ 3) with 8 in *. lia.
  - assert (16 * 2 ^ (b + 1 - 4) = 2 ^ (b + 1)) as ->.
    { change 16 with (2 ^ 4). rewrite <- Z.pow_add_r by lia. f_equal. lia. }
    split_and!; [lia|lia|]. destruct (Z.eq_dec b 3) as [->|]; [by left|right].
    assert (16 * 2 ^ (b + 1 - 4 - 1) = 2 ^ b) as ->; [|lia].
    change 16 with (2 ^ 4). rewrite <- Z.pow_add_r by lia. f_equal. lia.
Qed.

(** ** Finding a free block *)

Section find.
Context {h : Heap} {N : Z} {B : layout} {L : Z → list Z}.
Context (HC : hcore h N B L) (HB : tiles N B) (HN : 0 < N).

Lemma head_free k hd : 0 <= k < 8 → free_head_per_order h !! Z.to_nat k = Some hd →
  is_free_block h hd k = Ok (negb (bool_decide (L k = []))) ∧ (L k ≠ [] → B !! hd = Some (k, true)).
Proof using HC HB HN.
  intros Hk Hhd. pose proof HC as [_ Hcore].
  pose proof (core_chain _ _ _ _ _ Hcore k hd ltac:(lia) Hhd) as Hc.
  destruct (L k) as [|x l] eqn:HLk; cbn in Hc.
  - subst hd. split; [|done]. destruct (tile_cover _ _ HB 0) as (i & k' & f & Hi & Hi0); [lia|].
    destruct (tile_ok _ _ HB _ _ _ Hi) as (_ & Hi' & _). assert (i = 0) as -> by lia.
    rewrite (is_free_block_run HC _ _ _ k Hi). destruct f; [|done]. cbn.
    destruct (Z.eqb_spec k' k) as [->|]; [|done].
    apply (core_list _ _ _ _ _ Hcore) in Hi. by rewrite HLk in Hi; apply elem_of_nil in Hi.
  - destruct Hc as [-> _]. destruct (core_mem Hcore k x) as (_ & _ & Hx); [rewrite HLk; left|].
    split; [|done]. by rewrite (is_free_block_run HC _ _ _ k Hx), Z.eqb_refl.
Qed.

Lemma find_order_run ks : (∀ k, k ∈ ks → 0 <= k < 8) →
  (∃ k hd, find_order h ks = Ok (Some k) ∧ k ∈ ks ∧ free_head_per_order h !! Z.to_nat k = Some hd ∧
     B !! hd = Some (k, true)) ∨
  (find_order h ks = Ok None ∧ ∀ k i, k ∈ ks → B !! i ≠ Some (k, true)).
Proof using HC HB HN.
  intros Hks. pose proof HC as [_ Hcore]. induction ks as [|k ks IH]; cbn [find_order].
  { right. split; [done|]. intros k i Hk. by apply elem_of_nil in Hk. }
  destruct (lookup_lt_is_Some_2 (free_head_per_order h) (Z.to_nat k)) as [hd Hhd].
  { rewrite (core_heads _ _ _ _ _ Hcore). pose proof (Hks k). set_solver by lia. }
  assert (0 <= k < 8) as Hk by (apply Hks; left).
  unfold Prelude.index. rewrite (proj2 (Z.leb_le _ _)), Hhd by lia. cbn [mbind outcome_bind].
  destruct (head_free k hd Hk Hhd) as [-> Hfree]. cbn [mbind outcome_bind].
  case_bool_decide as HLk; cbn [negb].
  - destruct IH as [(k' & hd' & Hf & Hk' & Hhd' & HBk')|[Hf Hno]].
    { intros k' Hk'. apply Hks. by right. }
    + left. exists k', hd'. split_and!; try done. by right.
    + right. split; [done|]. intros k' i Hk'. apply elem_of_cons in Hk' as [->|Hk']; [|by apply Hno].
      intros Hi. apply (core_list _ _ _ _ _ Hcore) in Hi. rewrite HLk in Hi. by apply elem_of_nil in Hi.
  - left. exists k, hd. split_and!; [done|by left|done|by apply Hfree].
Qed.
End find.
