(* ===== verification/InspectHeapSafety.v ===== *)
(** Allocating and freeing blocks of the Inspect heap, and the heap as a state machine:
    allocations, frees and the writes of clients into their blocks, in any order.  Every
    reachable heap keeps the invariant of [InspectHeapCorrect], from which clients get
    disjoint blocks, operations that do not panic, and counters that count the blocks in
    use. *)
From Stdlib Require Import ZArith Lia.
From stdpp Require Import base gmap strings list relations.
From S2P Require Import Prelude StateError InspectFormat InspectBlock InspectHeap InspectMemory InspectBuddy.
From S2P Require Import InspectHeapCorrect.
Local Open Scope Z_scope.

(** ** Allocation *)

(** What a successful allocation of a block [i] of order [k] does. *)
Record allocated (U : gmap Z Z) (h h' : Heap) (k i : Z) : Prop := {
  allocated_new : U !! i = None;
  allocated_inv : heap_inv h' (<[i := k]> U);
  allocated_type : typ (mapping h') i = Some Reserved;
  allocated_kept : kept U (mapping h) (mapping h');
  allocated_count : allocated_blocks h' = allocated_blocks h + 1;
  allocated_same : deallocated_blocks h' = deallocated_blocks h ∧ failed_allocations h' = failed_allocations h;
}.

(** Every aligned place for a block of order [k] meets a block in use. *)
Definition no_room (U : gmap Z Z) (h : Heap) (k : Z) : Prop :=
  ∀ x, 0 <= x → (2 ^ k | x) → 16 * (x + 2 ^ k) <= current_size_bytes h →
    ∃ i k', U !! i = Some k' ∧ i < x + 2 ^ k ∧ x < i + 2 ^ k'.

Lemma coalesced_use B i k : coalesced_but i B → coalesced (<[i := (k, false)]> B).
Proof.
  intros Hco x k' Hk' Hx Hy. layout_cases. by destruct (Hco x k' Hk' Hx).
Qed.

Lemma reserved_header_read k : 0 <= k < 16 →
  order_bits (reserved_header k mod 2 ^ 64) = k ∧
  BlockType_from_u8 (block_type_bits (reserved_header k mod 2 ^ 64)) = Some Reserved.
Proof. intros Hk. unfold reserved_header. split; fields; [by apply Z.mod_small|done]. Qed.

(** The end of [allocate_block], once a list with a free block is found. *)
Lemma take_block_wp h N B L i k next_order min_order (Q : Z → Heap → Prop) R :
  hcore h N B L → tiles N B → coalesced B → 0 < N → (256 | N) →
  0 <= next_order → free_head_per_order h !! Z.to_nat next_order = Some i →
  B !! i = Some (k, true) → 0 <= min_order <= k →
  (∀ h', allocated (used B) h h' min_order i → Q i h') →
  wp (next_block_index ← free_head next_order;
      block ← unwrap (reads (λ h, get_block h next_block_index));
      _ ← split_loop 16 block min_order;
      _ ← remove_free block;
      _ ← unwrap (on_block (become_reserved block));
      _ ← modify count_allocated;
      mret block) h Q R.
Proof.
  intros HC HB Hco HN H256 Hno Hhd Hi Hmin HQ.
  destruct (tile_ok _ _ HB _ _ _ Hi) as (Hk & H0 & HiN & _).
  apply wp_bind. eapply wp_free_head; [done..|].
  apply wp_bind, wp_unwrap. eapply wp_reads; [by apply (get_block_run HC _ _ _ Hi)|].
  apply wp_bind, (split_loop_wp 16 h N B L i k min_order); [done|done| |done|done|lia|].
  { by apply coalesced_but_of. }
  intros h1 B1 L1 HC1 HB1 Hco1 Hi1 Hus Hq1. pose proof (tiles_apart _ _ HB1) as Hap. rewrite Hus in Hap.
  apply wp_bind, (remove_free_wp HC1 (used B) i min_order); [done|done|]. intros h2 L2 HC2 Hq2 Hh2.
  specialize (Hh2 i (or_introl eq_refl)).
  pose proof HC1 as [_ Hcore1]. pose proof HC2 as [Hsz2 Hcore2].
  destruct (core_free Hcore1 _ _ Hi1) as [Ho1 Ht1]. destruct (tile_ok _ _ HB1 _ _ _ Hi1) as (_ & _ & Hi1N & _).
  pose proof (pow2_pos min_order ltac:(lia)) as Hp.
  assert (outside (used B) i) as Hout by (apply (Hap i min_order i Hi1); lia).
  apply wp_bind, wp_unwrap. eapply wp_on_block.
  { apply become_reserved_inside; [apply (core_unit_inside Hcore2); lia|].
    unfold typ. rewrite Hh2. exact Ht1. }
  rewrite Hh2, Ho1. apply wp_bind. unfold modify, wp at 1. apply wp_ret.
  set (m' := put_header _ _ _). destruct (reserved_header_read min_order) as [Hro Hrt]; [lia|].
  assert (typ m' i = Some Reserved) as Ht' by (unfold typ, m'; headers).
  pose proof (quiet_trans _ _ _ _ Hq1 Hq2) as [Hkept Ha Hd Hf].
  apply HQ. split; cbn; try done; [|..|by rewrite Ha].
  - destruct (used B !! i) as [k'|] eqn:E; [|done]. apply used_lookup in E. by rewrite Hi in E.
  - exists N, (<[i := (min_order, false)]> B1), L2. split_and!; try done.
    + split; [done|]. rewrite <- insert_delete_eq. change (mapping _) with m'.
      apply (core_use Hcore2); [done| |by rewrite lookup_delete_eq|lia..|].
      * intros j [? Hj]. layout_cases. unfold m'. headers.
      * unfold block_header. split; [unfold m'; headers|]. by exists Reserved.
    + by eapply tiles_flip.
    + by apply coalesced_use.
    + by rewrite used_insert_used, Hus.
  - eapply kept_trans; [done|]. by apply kept_put_header.
Qed.

Lemma tiles_no_room h N B L k :
  hcore h N B L → tiles N B → coalesced B → (256 | N) → 0 <= k < 8 →
  (∀ k' i, k <= k' < 8 → B !! i ≠ Some (k', true)) → no_room (used B) h k.
Proof.
  intros [Hsz _] HB Hco H256 Hk Hno x Hx Hal HxN.
  destruct (decide (map_Exists (λ i k', i < x + 2 ^ k ∧ x < i + 2 ^ k') (used B))) as [He|Hne].
  { apply map_Exists_lookup_1 in He as (i & k' & Hi & H1 & H2). by exists i, k'. }
  destruct (gap_free_block N B HB H256 Hco x k) as (i & k' & Hk' & Hi); try done; [lia| |].
  - intros i k' Hi%used_lookup. destruct (Z.lt_ge_cases i (x + 2 ^ k)); [|by right].
    destruct (Z.lt_ge_cases x (i + 2 ^ k')); [|by left].
    destruct Hne. by apply (map_Exists_lookup_2 _ _ i k').
  - destruct (tile_ok _ _ HB _ _ _ Hi) as (Hk8 & _). destruct (Hno k' i); [lia|done].
Qed.

Lemma allocated_quiet U h h1 h' k i : quiet U h h1 → allocated U h1 h' k i → allocated U h h' k i.
Proof.
  intros [Hk Ha Hd Hf] [Hn Hi Ht Hk' Hc [Hs1 Hs2]].
  split; [done|done|done|by eapply kept_trans|congruence|]. by rewrite Hs1, Hs2.
Qed.

Lemma allocate_block_wp h U min_size :
  heap_inv h U → 0 < min_size →
  wp (allocate_block min_size) h
    (λ i h', ∃ k, 0 <= k < 8 ∧ min_size <= 16 * 2 ^ k ∧ (k = 0 ∨ 16 * 2 ^ (k - 1) < min_size) ∧
       allocated U h h' k i)
    (λ e h', (2048 < min_size ∧ (∃ k, e = InvalidBlockOrder k) ∧ h' = h) ∨
       (e = HeapMaxSizeReached ∧ h' = count_failed h ∧
        mapping_len (mapping h) < current_size_bytes h + PAGE_SIZE_BYTES ∧
        ∃ k, 0 <= k < 8 ∧ (k = 0 ∨ 16 * 2 ^ (k - 1) < min_size) ∧ no_room U h k)).
Proof.
  intros (N & B & L & HC & HB & Hco & HN & H256 & <-) Hs.
  destruct (fit_order_spec (E := Error) min_size Hs) as (k & Hfit & H0 & Hle & Hmin).
  apply wp_bind. eapply wp_lift; [exact Hfit|]. change NUM_ORDERS with 8.
  destruct (Z.leb_spec 8 k) as [H8|H8].
  { unfold throw, wp. left. split; [|by eauto].
    pose proof (Z.pow_le_mono_r 2 7 (k - 1)). change (2 ^ 7) with 128 in *. lia. }
  apply wp_bind. destruct (find_order_run HC HB HN (seqZ k (8 - k))) as [Hf|[Hf Hno]].
  { intros k' Hk'%elem_of_seqZ. lia. }
  - destruct Hf as (k' & i & Hf & Hk'%elem_of_seqZ & Hhd & Hi).
    eapply wp_reads; [exact Hf|]. apply wp_bind, wp_ret.
    apply (take_block_wp h N B L i k' k' k); try done; [lia..|]. intros h' Hal. by exists k.
  - eapply wp_reads; [exact Hf|]. apply wp_bind. apply wp_bind. unfold get, wp at 1.
    apply wp_bind, (grow_heap_wp (used B) h N B L); [done|done|lia|done|..].
    + intros u Hu i k' Hi%used_lookup. destruct (tile_ok _ _ HB _ _ _ Hi). lia.
    + intros Hlt. right. split_and!; [done|done|by rewrite (proj1 HC)|]. exists k. split_and!; try done.
      apply (tiles_no_room h N B L); try done. intros k' i Hk'. apply Hno, elem_of_seqZ. lia.
    + intros h1 L1 HC1 Hq1. apply wp_ret. change (NUM_ORDERS - 1) with 7.
      set (B1 := <[N := (7, true)]> _) in *. assert (tiles (N + 256) B1) as HB1 by (apply tiles_grow; [done|lia|done]).
      assert (∀ x, N <= x → B !! x = None) as HNone.
      { intros x Hx. destruct (B !! x) as [[k' f]|] eqn:E; [|done].
        destruct (tile_ok _ _ HB _ _ _ E) as (? & ? & ? & _). pose proof (pow2_pos k'). lia. }
      assert (used B1 = used B) as Hus.
      { unfold B1. rewrite !used_insert_free; [done|by rewrite HNone by lia|].
        intros k'. by rewrite lookup_insert_ne, HNone by lia. }
      destruct (lookup_lt_is_Some_2 (free_head_per_order h1) (Z.to_nat 7)) as [hd Hhd].
      { rewrite (core_heads _ _ _ _ _ (proj2 HC1)). lia. }
      assert (B1 !! hd = Some (7, true)) as Hi.
      { apply (head_free HC1 HB1 ltac:(lia) 7 hd); [lia|done|]. intros HL.
        assert (N ∈ L1 7) as Hin.
        { apply (core_list _ _ _ _ _ (proj2 HC1)). unfold B1. by rewrite lookup_insert_eq. }
        rewrite HL in Hin. by apply elem_of_nil in Hin. }
      apply (take_block_wp h1 (N + 256) B1 L1 hd 7 7 k); try done; [|lia| |lia|].
      * unfold B1. by apply coalesced_insert_top, coalesced_insert_top.
      * apply Z.divide_add_r; [done|apply Z.divide_refl].
      * rewrite Hus. intros h' Hal. exists k. split_and!; try done. by eapply allocated_quiet.
Qed.

(** ** Freeing *)

(** A block [i] of order [k] that is being freed: it is not in the layout, but the
    layout with it tiles the heap. *)
Record hole (h : Heap) (N : Z) (B : layout) (L : Z → list Z) (i k : Z) : Prop := {
  hole_core : hcore h N B L;
  hole_None : B !! i = None;
  hole_tiles : tiles N (<[i := (k, false)]> B);
  hole_coalesced : coalesced B;
  hole_order : order_bits (header (mapping h) i) = k;
}.

Lemma coalesced_delete B i : coalesced B → coalesced (delete i B).
Proof. intros Hco x k Hk Hx Hy. layout_cases. by destruct (Hco x k Hk Hx). Qed.

Lemma lxor_pow2_ne i k : 0 <= k → Z.lxor i (2 ^ k) ≠ i.
Proof.
  intros Hk Heq. pose proof (pow2_pos k Hk).
  assert (Z.lxor i (Z.lxor i (2 ^ k)) = 2 ^ k) as Hx.
  { by rewrite <- Z.lxor_assoc, Z.lxor_nilpotent, Z.lxor_0_l. }
  rewrite Heq, Z.lxor_nilpotent in Hx. lia.
Qed.

Lemma coalesced_push B i k : 0 <= k → coalesced B →
  (k < 7 → B !! Z.lxor i (2 ^ k) ≠ Some (k, true)) → coalesced (<[i := (k, true)]> B).
Proof.
  intros Hk0 Hco Hi x k' Hk' Hx Hy. rewrite lookup_insert_Some in Hx, Hy.
  destruct Hx as [[<- Hx]|[Hxi Hx]].
  - injection Hx as <-. destruct Hy as [[Hy _]|[_ Hy]]; [by apply (lxor_pow2_ne i k)|].
    by apply Hi in Hy.
  - destruct Hy as [[Hyi Hy]|[_ Hy]]; [|by destruct (Hco x k' Hk' Hx)].
    injection Hy as <-. apply Hi; [done|]. by rewrite Hyi, lxor_pow2_twice.
Qed.

Lemma hole_outside h N B L i k u : hole h N B L i k → i <= u < i + 2 ^ k → outside (used B) u.
Proof.
  intros [_ Hi HB _ _] Hu x k' Hx%used_lookup. pose proof (lookup_insert_eq B i (k, false)) as Hii.
  assert (i ≠ x) as Hne by (intros ->; by rewrite Hi in Hx).
  assert (<[i := (k, false)]> B !! x = Some (k', false)) as Hx' by (by rewrite lookup_insert_ne).
  destruct (Z.lt_ge_cases i x).
  - pose proof (tile_disjoint _ _ HB _ _ _ _ _ _ Hii Hx'). lia.
  - pose proof (tile_disjoint _ _ HB _ _ _ _ _ _ Hx' Hii). lia.
Qed.

(** The buddy of a hole is a block of the layout. *)
Lemma hole_buddy h N B L i k : hole h N B L i k → (256 | N) →
  ∃ k' f, B !! Z.lxor i (2 ^ k) = Some (k', f) ∧ k' <= k.
Proof.
  intros [_ Hi HB _ _] HN. pose proof (lookup_insert_eq B i (k, false)) as Hii.
  destruct (tile_ok _ _ HB _ _ _ Hii) as (Hk & _).
  destruct (buddy_tile _ _ HB i k false HN Hii) as (k' & f & Hj & Hle).
  rewrite lookup_insert_ne in Hj by (symmetry; apply lxor_pow2_ne; lia). by exists k', f.
Qed.

Lemma hole_inside h N B L i k : hole h N B L i k → 0 <= k < 8 ∧ 0 <= i ∧ i + 2 ^ k <= N ∧ (2 ^ k | i) ∧
  inside (mapping h) i.
Proof.
  intros [[_ HC] Hi HB _ _]. destruct (tile_ok _ _ HB i k false) as (Hk & H0 & HiN & Hal);
    [by rewrite lookup_insert_eq|]. split_and!; try lia; [done|].
  pose proof (pow2_pos k ltac:(lia)). apply (core_unit_inside HC). lia.
Qed.

(** The hole and its free buddy, merged. *)
Lemma hole_merge_tiles N B i k f b : tiles N (<[i := (k, false)]> B) → B !! i = None → k < 7 →
  B !! Z.lxor i (2 ^ k) = Some (k, f) → b = Z.min i (Z.lxor i (2 ^ k)) →
  tiles N (<[b := (k + 1, false)]> (delete (Z.lxor i (2 ^ k)) B)).
Proof.
  intros HB Hi Hk7 Hj ->. pose proof (lookup_insert_eq B i (k, false)) as Hii.
  destruct (tile_ok _ _ HB _ _ _ Hii) as (Hk & _ & _ & Hal). pose proof (pow2_pos k ltac:(lia)) as Hp.
  assert (<[i := (k, false)]> B !! Z.lxor i (2 ^ k) = Some (k, f)) as Hj'.
  { rewrite lookup_insert_ne; [done|]. symmetry. apply lxor_pow2_ne. lia. }
  destruct (buddy_halves i k) as [[Heq Hd]|[Heq Hd]]; [lia|done|..]; rewrite Heq in *.
  - rewrite Z.min_l by lia. pose proof (tiles_merge N _ i k false f false HB Hii Hk7 Hd Hj') as HB'.
    rewrite delete_insert_ne, insert_insert_eq in HB' by lia. done.
  - rewrite Z.min_r by lia. pose proof (tiles_merge N _ (i - 2 ^ k) k f false false HB Hj' Hk7 Hd) as HB'.
    replace (i - 2 ^ k + 2 ^ k) with i in HB' by lia. specialize (HB' Hii).
    rewrite delete_insert_eq, delete_id in HB' by done. by rewrite insert_delete_eq.
Qed.

(** One round of merging, from the removal of the buddy on. *)
Lemma merge_buddies_wp h N B L i k (Q : Z * Z → Heap → Prop) R :
  hole h N B L i k → (256 | N) → k < 7 → B !! Z.lxor i (2 ^ k) = Some (k, true) →
  (∀ h' B' L' b, hole h' N B' L' b (k + 1) → used B' = used B → quiet (used B) h h' →
     Q (b, Z.lxor b (2 ^ (k + 1))) h') →
  wp (merge_buddies i (Z.lxor i (2 ^ k))) h Q R.
Proof.
  intros Hh HN Hk7 Hj HQ. destruct (hole_inside _ _ _ _ _ _ Hh) as (Hk & H0 & HiN & Hal & Hin).
  pose proof Hh as [HC Hi HB Hco Ho]. set (j := Z.lxor i (2 ^ k)) in *.
  pose proof (pow2_pos k ltac:(lia)) as Hp. pose proof (lxor_pow2_ne i k ltac:(lia)) as Hij. fold j in Hij.
  assert (apart (used B) B) as Hap.
  { intros x kx u Hx Hu. pose proof (tiles_apart _ _ HB) as Ha. rewrite used_insert_used in Ha.
    intros y ky Hy. apply (Ha x kx u); [|done|].
    - rewrite lookup_insert_ne; [done|]. intros ->. by rewrite Hi in Hx.
    - rewrite lookup_insert_ne; [done|]. intros ->. apply used_lookup in Hy. by rewrite Hi in Hy. }
  assert (∀ u, j <= u < j + 2 ^ k → outside (used B) u) as Hjout by (intros u Hu; by apply (Hap j k u)).
  apply wp_bind, (remove_free_wp HC (used B) j k); [done|done|]. intros h1 L1 HC1 Hq1 Hh1.
  pose proof (Hh1 j (or_introl eq_refl)) as Hhj. pose proof (Hh1 i (or_intror Hi)) as Hhi.
  pose proof HC as [_ Hcore]. pose proof HC1 as [Hsz1 Hcore1].
  destruct (core_free Hcore _ _ Hj) as [Hoj _].
  destruct (core_block _ _ _ _ _ Hcore _ _ _ Hj) as (_ & Hj0 & HjN).
  assert (∀ u, 0 <= u < N → inside (mapping h1) u) as Hin1 by (intros; by apply (core_unit_inside Hcore1)).
  apply wp_bind. set (b := Z.min i j).
  apply (wp_mono _ _ (λ p h', p.1 = b ∧ h' = h1) _ (λ _ _, False)); [|..|done].
  { destruct (Z.ltb_spec j i).
    - eapply wp_on_block with (m' := mapping h1) (a := (j, i)).
      + unfold reads, swap. rewrite !order_inside by (apply Hin1; lia). cbn [mbind outcome_bind].
        by rewrite Hhj, Hhi, Hoj, Ho, Z.eqb_refl.
      + cbn. split; [lia|by destruct h1].
    - apply wp_ret. cbn. split; [lia|done]. }
  intros [b' j'] h' [Hb ->]. cbn in Hb. subst b'.
  assert (inside (mapping h1) b) as Hinb by (apply Hin1; lia).
  assert (order_bits (header (mapping h1) b) = k) as Hob.
  { unfold b. destruct (Z.min_spec i j) as [[_ ->]|[_ ->]]; congruence. }
  apply wp_bind. eapply wp_reads; [by rewrite block_order, Hob|].
  apply wp_bind. eapply wp_on_block; [apply set_order_inside; [done|lia]|].
  set (h2 := set_mapping _ h1).
  assert (hole h2 N (delete j B) L1 b (k + 1)) as Hh2.
  { split.
    - split; [done|]. apply (core_ext Hcore1); [done|lia|apply Hcore1|].
      intros x [? Hx]. layout_cases. cbn. headers. subst x.
      unfold b in *. destruct (Z.min_spec i j) as [[_ Hm]|[_ Hm]]; rewrite Hm in *; congruence.
    - unfold b. destruct (Z.min_spec i j) as [[_ ->]|[_ ->]]; [by rewrite lookup_delete_ne|by rewrite lookup_delete_eq].
    - by eapply hole_merge_tiles.
    - by apply coalesced_delete.
    - cbn. headers. apply set_order_read. lia. }
  destruct (hole_buddy _ _ _ _ _ _ Hh2 HN) as (k' & f & Hbj & Hk').
  pose proof Hh2 as [HC2 _ _ _ Ho2].
  apply wp_bind. eapply wp_reads; [by rewrite block_order, Ho2|].
  apply wp_bind. eapply wp_lift; [apply buddy_run; lia|].
  apply wp_bind, wp_unwrap. eapply wp_reads; [by apply (get_block_run HC2 _ _ _ Hbj)|].
  apply wp_ret. apply (HQ h2 (delete j B) L1); [done| |].
  - rewrite used_delete. apply delete_id. destruct (used B !! j) eqn:E; [|done].
    apply used_lookup in E. by rewrite Hj in E.
  - eapply quiet_trans; [exact Hq1|]. apply quiet_set_mapping, kept_put_header.
    unfold b. destruct (Z.min_spec i j) as [[_ ->]|[_ ->]]; [|apply Hjout; lia].
    apply (hole_outside _ _ _ _ _ _ i Hh). lia.
Qed.

Lemma merge_loop_wp fuel h N B L i k (Q : Z → Heap → Prop) R :
  hole h N B L i k → (256 | N) → (Z.to_nat (7 - k) < fuel)%nat →
  (∀ h' B' L' b k', hole h' N B' L' b k' → used B' = used B → quiet (used B) h h' →
     (k' < 7 → B' !! Z.lxor b (2 ^ k') ≠ Some (k', true)) → Q b h') →
  wp (merge_loop fuel i (Z.lxor i (2 ^ k))) h Q R.
Proof.
  revert h B L i k. induction fuel as [|fuel IH]; [lia|]. intros h B L i k Hh HN Hfuel HQ.
  cbn [merge_loop]. destruct (hole_inside _ _ _ _ _ _ Hh) as (Hk & _ & _ & _ & Hin).
  destruct (hole_buddy _ _ _ _ _ _ Hh HN) as (k' & f & Hj & Hle). pose proof Hh as [HC _ _ _ Ho].
  destruct (block_type_run HC _ _ _ Hj) as (t & Ht & Hf).
  apply wp_bind. eapply wp_reads; [exact Ht|].
  apply wp_bind. eapply wp_reads; [by rewrite block_order, Ho|].
  apply wp_bind. eapply wp_reads; [by apply (block_order_run HC _ _ _ Hj)|].
  rewrite Hf. change (NUM_ORDERS - 1) with 7.
  destruct (f && (k <? 7) && (k =? k')) eqn:Hcond.
  - apply andb_prop in Hcond as [[-> Hk7%Z.ltb_lt]%andb_prop <-%Z.eqb_eq].
    apply wp_bind, (merge_buddies_wp h N B L); [done..|]. intros h1 B1 L1 b Hh1 Hus Hq1.
    apply (IH h1 B1 L1); [done|done|lia|]. intros h' B' L' b' k' Hh' Hus' Hq' Hlast.
    rewrite Hus in Hus', Hq'. eapply HQ; [done|done| |done]. by eapply quiet_trans.
  - apply wp_ret. eapply HQ; [done|done|apply quiet_refl|]. intros Hk7 Heq. rewrite Hj in Heq.
    injection Heq as -> ->. by rewrite Z.eqb_refl, (proj2 (Z.ltb_lt _ _)) in Hcond.
Qed.

(** What freeing a block [i] does. *)
Record freed (U : gmap Z Z) (h h' : Heap) (i : Z) : Prop := {
  freed_inv : heap_inv h' (delete i U);
  freed_kept : kept (delete i U) (mapping h) (mapping h');
  freed_count : deallocated_blocks h' = deallocated_blocks h + 1;
  freed_same : allocated_blocks h' = allocated_blocks h ∧ failed_allocations h' = failed_allocations h;
}.

Lemma free_block_wp h U i k :
  heap_inv h U → U !! i = Some k → wp (free_block i) h (λ _ h', freed U h h' i) (λ _ _, False).
Proof.
  intros (N & B & L & HC & HB & Hco & HN & H256 & <-) Hi%used_lookup.
  destruct (block_type_run HC _ _ _ Hi) as (t & Ht & Hf).
  apply wp_bind. eapply wp_reads; [exact Ht|]. rewrite Hf.
  apply wp_bind. eapply wp_reads; [by apply (block_order_run HC _ _ _ Hi)|].
  destruct (tile_ok _ _ HB _ _ _ Hi) as (Hk & _).
  apply wp_bind. eapply wp_lift; [apply buddy_run; lia|].
  destruct (buddy_tile N B HB i k false H256 Hi) as (k' & f & Hj & _).
  apply wp_bind, wp_unwrap. eapply wp_reads; [by apply (get_block_run HC _ _ _ Hj)|].
  pose proof HC as [Hsz Hcore].
  assert (hole h N (delete i B) L i k) as Hh.
  { split; [|by rewrite lookup_delete_eq| | |].
    - split; [done|]. by eapply core_forget.
    - by rewrite insert_delete_id.
    - by apply coalesced_delete.
    - by eapply core_used. }
  apply wp_bind, (merge_loop_wp 9 h N (delete i B) L); [done|done|lia|].
  rewrite used_delete. intros h1 B1 L1 b kb Hh1 Hus Hq1 Hlast.
  destruct (hole_inside _ _ _ _ _ _ Hh1) as (Hkb & Hb0 & HbN & _ & Hinb).
  pose proof Hh1 as [[Hsz1 Hcore1] Hb HB1 Hco1 Hob].
  apply wp_bind. eapply wp_reads; [by rewrite block_order, Hob|].
  destruct (lookup_lt_is_Some_2 (free_head_per_order h1) (Z.to_nat kb)) as [hd Hhd].
  { rewrite (core_heads _ _ _ _ _ Hcore1). lia. }
  apply wp_bind. eapply wp_free_head; [lia|done|].
  apply wp_bind. eapply wp_on_block; [by apply become_free_inside|]. rewrite Hob.
  set (m' := put_header _ _ _).
  assert (header m' b = free_header kb hd mod 2 ^ 64) as Hhb by (unfold m'; headers).
  apply wp_bind. eapply wp_reads.
  { rewrite block_order by done. cbn [mapping set_mapping]. by rewrite Hhb, free_header_order by lia. }
  apply wp_bind, wp_set_free_head; [done|apply Hcore1|]. unfold modify, wp.
  destruct Hq1 as [Hkept Ha Hd Hfl]. split; cbn; [|..|by rewrite Hd|done].
  - exists N, (<[b := (kb, true)]> B1), (upd L1 kb (b :: L1 kb)). split_and!; try done.
    + split; [done|]. apply (core_push Hcore1) with hd; try done. intros j [? Hj1].
      change (header m' j = header (mapping h1) j). unfold m'. rewrite header_put_header, decide_False; [done|].
      intros ->. by rewrite Hb in Hj1.
    + pose proof (tiles_flip _ _ b kb false true HB1 (lookup_insert_eq _ _ _)) as HB2.
      by rewrite insert_insert_eq in HB2.
    + apply coalesced_push; [lia|done|done].
    + rewrite used_insert_free; [done|]. by rewrite Hb.
  - eapply kept_trans; [done|]. apply kept_put_header. rewrite <- Hus.
    apply (hole_outside _ _ _ _ _ _ b Hh1). pose proof (pow2_pos kb). lia.
Qed.

(** ** Reachable heaps *)

(** ** Clients *)

(** A client may write its blocks, if the headers keep their orders and do not become
    free; this is what every [become_*] and [set_*] of a block in use does. *)
Record client_write (U : gmap Z Z) (m m' : Mapping) : Prop := {
  client_len : mapping_len m' = mapping_len m;
  client_byte : ∀ a, outside U (a / 16) → mapping_byte m' a = mapping_byte m a;
  client_header : ∀ i k, U !! i = Some k → block_header m' i k false;
}.

Inductive heap_step : Heap * gmap Z Z → Heap * gmap Z Z → Prop :=
| step_allocate h U min_size h' i k :
    0 < min_size → allocate_block min_size h = (h', Ok i) → order (mapping h') i = Ok k →
    heap_step (h, U) (h', <[i := k]> U)
| step_allocate_error h U min_size h' e :
    0 < min_size → allocate_block min_size h = (h', Err e) → heap_step (h, U) (h', U)
| step_free h U i k h' r :
    U !! i = Some k → free_block i h = (h', r) → heap_step (h, U) (h', delete i U)
| step_write h U m' :
    client_write U (mapping h) m' → heap_step (h, U) (set_mapping m' h, U).

(** The heaps a program can reach from [Heap::new]. *)
Definition reachable (m : Mapping) (h : Heap) (U : gmap Z Z) : Prop :=
  ∃ h0, new m = (h0, Ok tt) ∧ rtc heap_step (h0, ∅) (h, U).

(** What the holders of the blocks [U] can rely on. *)
Record safe_heap (h : Heap) (U : gmap Z Z) : Prop := {
  safe_size : (PAGE_SIZE_BYTES | current_size_bytes h) ∧ PAGE_SIZE_BYTES <= current_size_bytes h <= maximum_size h;
  safe_block : ∀ i k, U !! i = Some k →
    0 <= k < NUM_ORDERS ∧ 0 <= i ∧ (2 ^ k | i) ∧ 16 * (i + 2 ^ k) <= current_size_bytes h;
  safe_disjoint : ∀ i k j k', U !! i = Some k → U !! j = Some k' → i < j → i + 2 ^ k <= j;
  safe_get_block : ∀ i k, U !! i = Some k → get_block h i = Ok i ∧ order (mapping h) i = Ok k;
  safe_allocate : ∀ min_size, 0 < min_size → no_panic (allocate_block min_size h).2;
  safe_free : ∀ i k, U !! i = Some k → (free_block i h).2 = Ok tt;
  safe_count : allocated_blocks h = deallocated_blocks h + Z.of_nat (size U);
}.

Lemma core_client m N heads B L m' :
  core m N heads B L → mapping_len m' = mapping_len m →
  (∀ i k, B !! i = Some (k, true) → header m' i = header m i) →
  (∀ i k, B !! i = Some (k, false) → block_header m' i k false) → core m' N heads B L.
Proof.
  intros [Hl Hh Hb Hhd Hnd Hls Hch] Hlen Hfree Hused. split; [by rewrite Hlen|done|done|..|done|done|].
  - intros i k [] Hi; [|by apply Hused]. eapply block_header_ext; [by eapply Hfree|by apply Hhd].
  - intros k hd Hk Hhdk. eapply chain_ext; [|by apply Hch]. intros x Hx%Hls. by eapply Hfree.
Qed.

Lemma heap_inv_client h U m' :
  heap_inv h U → client_write U (mapping h) m' → heap_inv (set_mapping m' h) U.
Proof.
  intros (N & B & L & [Hsz HC] & HB & Hco & HN & H256 & <-) [Hlen Hbyte Hhdr].
  exists N, B, L. split_and!; try done. split; [done|]. apply (core_client (mapping h)); try done.
  - intros i k Hi. apply word_ext. intros d Hd. apply Hbyte.
    assert ((16 * i + d) / 16 = i) as ->.
    { symmetry. apply Z.div_unique with d; lia. }
    destruct (tile_ok _ _ HB _ _ _ Hi) as (Hk & _). apply (tiles_apart _ _ HB i k i Hi).
    pose proof (pow2_pos k). lia.
  - intros i k Hi. by apply Hhdr, used_lookup.
Qed.

Lemma heap_inv_new m : 4096 <= mapping_len m <= 2 ^ 28 →
  ∃ h, new m = (h, Ok tt) ∧ heap_inv h ∅ ∧ (allocated_blocks h, deallocated_blocks h) = (0, 0).
Proof.
  intros Hm.
  pose proof (new_wp m (λ _ h, heap_inv h ∅ ∧ (allocated_blocks h, deallocated_blocks h) = (0, 0))
                (λ _ _, False) Hm) as Hwp.
  unfold wp in Hwp. destruct (new m) as [h [[]|e|]]; [|exfalso..].
  - exists h. split; [done|]. apply Hwp. intros h' Hi _ _ Hc. split; [done|]. by injection Hc as -> -> _.
  - apply Hwp. intros h' Hi _ _ Hc. split; [done|]. by injection Hc as -> -> _.
  - apply Hwp. intros h' Hi _ _ Hc. split; [done|]. by injection Hc as -> -> _.
Qed.

Lemma allocated_order U h h' k i : allocated U h h' k i → order (mapping h') i = Ok k.
Proof.
  intros [_ (N & B & L & [Hsz HC] & HB & _ & _ & _ & Hus) _ _ _ _].
  assert (B !! i = Some (k, false)) as Hi by (apply used_lookup; by rewrite Hus, lookup_insert_eq).
  rewrite order_inside by (by eapply core_inside). by rewrite (proj1 (core_header _ _ _ _ _ HC _ _ _ Hi)).
Qed.

(** The counters follow the blocks in use. *)
Definition heap_ok (h : Heap) (U : gmap Z Z) : Prop :=
  heap_inv h U ∧ allocated_blocks h = deallocated_blocks h + Z.of_nat (size U).

Lemma heap_step_ok h U h' U' : heap_step (h, U) (h', U') → heap_ok h U → heap_ok h' U'.
Proof.
  intros Hstep [Hinv Hcnt]. inversion Hstep as [? ? s ? i k Hs Ha Ho|? ? s ? e Hs Ha|? ? i k ? r Hi Hf|? ? m' Hw]; subst.
  - destruct (wp_Ok _ _ _ _ _ _ (allocate_block_wp _ _ _ Hinv Hs) Ha) as (k' & _ & _ & _ & Hal).
    rewrite (allocated_order _ _ _ _ _ Hal) in Ho. injection Ho as ->.
    destruct Hal as [Hnew Hinv' _ _ Hc [Hd _]]. split; [done|]. rewrite map_size_insert_None by done. lia.
  - destruct (wp_Err _ _ _ _ _ _ (allocate_block_wp _ _ _ Hinv Hs) Ha) as [(_ & _ & ->)|(_ & -> & _)]; by split.
  - pose proof (free_block_wp _ _ _ _ Hinv Hi) as Hwp. unfold wp in Hwp. rewrite Hf in Hwp.
    destruct r as [[]|e|]; [|done..]. destruct Hwp as [Hinv' _ Hd [Ha _]]. split; [done|].
    rewrite map_size_delete_Some by (by eexists). match type of Hi with ?V !! _ = _ => assert (0 < size V)%nat end; [|lia].
    apply Nat.neq_0_lt_0, map_size_non_empty_iff. intros ->. by rewrite lookup_empty in Hi.
  - split; [by apply heap_inv_client|done].
Qed.

Lemma reachable_ok m h U : 4096 <= mapping_len m <= 2 ^ 28 → reachable m h U → heap_ok h U.
Proof.
  intros Hm (h0 & Hnew & Hsteps). destruct (heap_inv_new m Hm) as (h1 & Hnew1 & Hinv & Hc).
  rewrite Hnew1 in Hnew. injection Hnew as ->. injection Hc as Ha Hd.
  assert (heap_ok h0 ∅) as Hok by (split; [done|by rewrite Ha, Hd]). clear -Hok Hsteps.
  remember (h0, ∅) as s eqn:Hs. remember (h, U) as s' eqn:Hs'. revert h0 Hs Hok.
  generalize (∅ : gmap Z Z) as U0. 
  induction Hsteps as [s|s [h1 U1] s' Hst Hsteps IH]; intros U0 h0 Hs Hok; subst.
  - by injection Hs as -> ->.
  - eapply IH; [done..|]. by eapply heap_step_ok.
Qed.

Lemma heap_ok_safe h U : heap_ok h U → safe_heap h U.
Proof.
  intros [Hinv Hcnt]. pose proof Hinv as (N & B & L & HC & HB & Hco & HN & H256 & Hus).
  pose proof HC as [Hsz Hcore]. destruct (core_len _ _ _ _ _ Hcore) as (_ & Hlen & _).
  assert (∀ i k, U !! i = Some k → B !! i = Some (k, false)) as HU.
  { intros i k Hi. apply used_lookup. by rewrite Hus. }
  change PAGE_SIZE_BYTES with 4096. split; change PAGE_SIZE_BYTES with 4096; unfold maximum_size.
  - destruct H256 as [q ->]. rewrite Hsz. split; [exists q|]; lia.
  - intros i k Hi%HU. destruct (tile_ok _ _ HB _ _ _ Hi) as (? & ? & ? & ?).
    change NUM_ORDERS with 8. split_and!; try lia. done.
  - intros i k j k' Hi%HU Hj%HU. by eapply tile_disjoint.
  - intros i k Hi%HU. split; [by eapply get_block_run|].
    rewrite order_inside by (by eapply core_inside).
    by rewrite (proj1 (core_header _ _ _ _ _ Hcore _ _ _ Hi)).
  - intros s Hs. by eapply wp_no_panic, allocate_block_wp.
  - intros i k Hi. pose proof (free_block_wp h U i k Hinv Hi) as Hwp. unfold wp in Hwp.
    by destruct (free_block i h) as [? [[]| |]].
  - done.
Qed.

(** ** Guarantees to clients *)

(** A heap of two pages with one block in use. *)
Lemma sample_heap : ∃ h i k, reachable (mkMapping 8192 ∅) h {[i := k]}.
Proof.
  assert (4096 <= mapping_len (mkMapping 8192 ∅) <= 2 ^ 28) as Hm by (cbn; lia).
  destruct (heap_inv_new _ Hm) as (h & Hnew & Hinv & _).
  pose proof (allocate_block_wp h ∅ 16 Hinv ltac:(lia)) as Hwp. unfold wp in Hwp.
  destruct (allocate_block 16 h) as [h1 [i|e|]] eqn:Ha; [| |done].
  - destruct Hwp as (k & _ & _ & _ & Hal). exists h1, i, k, h.
    split; [done|]. apply rtc_once. eapply step_allocate; [|exact Ha|by eapply allocated_order]. lia.
  - exfalso. destruct Hwp as [(Hbig & _)|(_ & _ & _ & k & Hk & Hmin & Hno)]; [lia|].
    destruct Hinv as (N & B & L & [Hsz _] & _ & _ & HN & H256 & _).
    destruct (Hno 0) as (? & ? & Hx & _); [lia|apply Z.divide_0_r| |by rewrite lookup_empty in Hx].
    rewrite Hsz. destruct Hmin as [->|Hmin]; [change (2 ^ 0) with 1; lia|].
    destruct (Z.eq_dec k 0) as [->|]; [change (2 ^ 0) with 1; lia|].
    pose proof (pow2_pos (k - 1) ltac:(lia)). lia.
Qed.

(** C6: In every heap a program can reach by allocating, freeing and writing its blocks, in
    any order, the blocks tile the memory, the free list of each order visits exactly the
    free blocks of that order, no two free buddies are left unmerged, and the blocks that
    are not free are those in use.  These are aligned, disjoint and inside the heap, their
    headers are intact, allocating never panics, freeing a block in use succeeds, and the
    counters differ by the number of blocks in use. *)
Theorem heap_always_safe m h U :
  MINIMUM_VMO_SIZE_BYTES <= mapping_len m <= 2 ^ 28 → reachable m h U →
  (∃ N B L, hcore h N B L ∧ tiles N B ∧ coalesced B ∧ used B = U) ∧ safe_heap h U.
Proof.
  intros Hm Hr. pose proof (reachable_ok m h U Hm Hr) as Hok. split; [|by apply heap_ok_safe].
  destruct Hok as [(N & B & L & HC & HB & Hco & _ & _ & HU) _]. by exists N, B, L.
Qed.

Lemma heap_always_safe_witness : ∃ h i k, reachable (mkMapping 8192 ∅) h {[i := k]} ∧
  ∃ N B L, hcore h N B L ∧ tiles N B ∧ coalesced B ∧ used B = {[i := k]} ∧ safe_heap h {[i := k]}.
Proof.
  destruct sample_heap as (h & i & k & Hr). exists h, i, k. split; [exact Hr|].
  destruct (heap_always_safe (mkMapping 8192 ∅) h {[i := k]}) as [(N & B & L & HC & HB & Hco & HU) Hs]; [by split|exact Hr|].
  by exists N, B, L.
Defined.

(** C10: Allocating in a reachable heap returns a block that was not in use, of the smallest
    order that fits, reserved, and leaves every byte of the blocks in use alone; it fails
    only for more than 2048 bytes, or when the VMO is exhausted and no aligned place of the
    size is free: free buddies are always merged. *)
Theorem allocate_block_correct m h U min_size :
  MINIMUM_VMO_SIZE_BYTES <= mapping_len m <= 2 ^ 28 → reachable m h U → 0 < min_size →
  match allocate_block min_size h with
  | (h', Ok i) =>
    ∃ k, reachable m h' (<[i := k]> U) ∧ U !! i = None ∧
      min_size <= order_to_size k ∧ (k = 0 ∨ order_to_size (k - 1) < min_size) ∧
      block_type (mapping h') i = Ok Reserved ∧ kept U (mapping h) (mapping h')
  | (h', Err (InvalidBlockOrder _)) => MAX_ORDER_SIZE < min_size ∧ h' = h
  | (h', Err HeapMaxSizeReached) =>
    h' = count_failed h ∧ maximum_size h < current_size_bytes h + PAGE_SIZE_BYTES ∧
    ∃ k, 0 <= k ∧ (k = 0 ∨ order_to_size (k - 1) < min_size) ∧ no_room U h k
  | _ => False
  end.
Proof.
  intros Hm Hr Hs. destruct (reachable_ok m h U Hm Hr) as [Hinv _].
  pose proof (allocate_block_wp h U min_size Hinv Hs) as Hwp. unfold wp in Hwp.
  destruct (allocate_block min_size h) as [h' [i|e|]] eqn:Ha; [| |done].
  - destruct Hwp as (k & Hk & Hle & Hmin & Hal). exists k. rewrite !order_to_size_spec by lia.
    pose proof (allocated_order _ _ _ _ _ Hal) as Ho. destruct Hal as [Hnew Hinv' Ht Hkept _ _].
    split_and!; try done.
    + destruct Hr as (h0 & Hn & Hsteps). exists h0. split; [done|]. eapply rtc_r; [done|].
      by eapply step_allocate.
    + destruct Hmin as [->|]; [by left|]. destruct (Z.eq_dec k 0); [by left|right].
      by rewrite order_to_size_spec by lia.
    + destruct Hinv' as (N & B & L & [_ HC] & _ & _ & _ & _ & Hus).
      assert (B !! i = Some (k, false)) as Hi by (apply used_lookup; by rewrite Hus, lookup_insert_eq).
      apply block_type_inside; [by eapply core_inside|done].
  - destruct Hwp as [(Hbig & [k ->] & ->)|(-> & -> & Hlen & k & Hk & Hmin & Hno)]; [done|].
    split_and!; [done|done|]. exists k. split_and!; [lia| |done].
    destruct Hmin as [->|]; [by left|]. destruct (Z.eq_dec k 0); [by left|right].
    by rewrite order_to_size_spec by lia.
Qed.

Lemma allocate_block_correct_witness :
  ∃ h, reachable (mkMapping 8192 ∅) h ∅ ∧
    match allocate_block 100 h with
    | (_, Ok i) => (∅ : gmap Z Z) !! i = None
    | (_, Err _) => True
    | (_, Panic) => False
    end.
Proof.
  assert (4096 <= mapping_len (mkMapping 8192 ∅) <= 2 ^ 28) as Hm by (cbn; lia).
  destruct (heap_inv_new _ Hm) as (h & Hnew & _).
  assert (reachable (mkMapping 8192 ∅) h ∅) as Hr by (exists h; split; [done|constructor]).
  exists h. split; [done|].
  pose proof (allocate_block_correct (mkMapping 8192 ∅) h ∅ 100 Hm Hr ltac:(lia)) as Hc.
  destruct (allocate_block 100 h) as [h' [i|e|]]; [|done|done].
  destruct Hc as (k & _ & Hc & _). exact Hc.
Defined.

(** C11: Freeing a block in use of a reachable heap succeeds, and leaves every byte of the
    other blocks in use alone. *)
Theorem free_block_correct m h U i k :
  MINIMUM_VMO_SIZE_BYTES <= mapping_len m <= 2 ^ 28 → reachable m h U → U !! i = Some k →
  ∃ h', free_block i h = (h', Ok tt) ∧ reachable m h' (delete i U) ∧
    kept (delete i U) (mapping h) (mapping h') ∧ deallocated_blocks h' = deallocated_blocks h + 1.
Proof.
  intros Hm Hr Hi. destruct (reachable_ok m h U Hm Hr) as [Hinv _].
  pose proof (free_block_wp h U i k Hinv Hi) as Hwp. unfold wp in Hwp.
  destruct (free_block i h) as [h' [[]|e|]] eqn:Hf; [|done..]. exists h'. destruct Hwp as [_ Hk Hd _].
  split_and!; try done. destruct Hr as (h0 & Hn & Hsteps). exists h0. split; [done|].
  eapply rtc_r; [done|]. by eapply step_free.
Qed.

Lemma free_block_correct_witness :
  ∃ h i k h', reachable (mkMapping 8192 ∅) h {[i := k]} ∧ free_block i h = (h', Ok tt).
Proof.
  destruct sample_heap as (h & i & k & Hr).
  destruct (free_block_correct (mkMapping 8192 ∅) h {[i := k]} i k) as (h' & Hf & _);
    [by split|exact Hr|by rewrite lookup_singleton_eq|]. by exists h, i, k, h'.
Defined.
