(* ===== verification/InspectScan.v ===== *)
(** Scanning the bytes of a heap: a reader of a copy of the bytes finds exactly the
    blocks the heap manages, in order, and reads of them what the writer would. *)
From Stdlib Require Import ZArith Lia.
From stdpp Require Import base gmap strings list sorting.
From S2P Require Import Prelude StateError InspectFormat InspectBlock InspectMemory.
From S2P Require Import InspectBuddy InspectHeap InspectHeapCorrect InspectHeapSafety.
From S2P Require Import InspectHeapSafety InspectState InspectReader.
Local Open Scope Z_scope.

(** ** The copy of the bytes *)

(** [b] holds the first [n] bytes of [m]. *)
Record copy_of (m : Mapping) (n : Z) (b : BackingBuffer) : Prop := {
  copy_len : buffer_len b = n;
  copy_byte : ∀ a, 0 <= a < n → buffer_byte b a = mapping_byte m a;
}.

Lemma slice_byte_fmap_seqZ f n a : 0 <= a < n → slice_byte (f <$> seqZ 0 n) a = f a.
Proof.
  intros Ha. unfold slice_byte. apply nth_lookup_Some. rewrite list_lookup_fmap, lookup_seqZ_lt by lia.
  cbn. f_equal. f_equal. lia.
Qed.

Lemma heap_bytes_copy h N B L bs :
  hcore h N B L → bytes h = Ok bs → copy_of (mapping h) (16 * N) (Vector_buffer bs).
Proof.
  intros [Hsz HC] Hb. destruct (core_len _ _ _ _ _ HC) as (H0 & H1 & H2). change (2 ^ 28) with 268435456 in H2.
  unfold bytes in Hb. rewrite Hsz, read_at_inside in Hb by (unfold u64_size; lia). injection Hb as <-.
  split; cbn.
  - unfold len. rewrite length_fmap, length_seqZ. lia.
  - intros a Ha. by apply slice_byte_fmap_seqZ.
Qed.

Section copies.
Context {m : Mapping} {n : Z} {b : BackingBuffer}.
Context (Hcopy : copy_of m n b) (Hn : n < u64_size).

Lemma copy_header i : 0 <= i → 16 * i + 8 <= n → header b i = header m i.
Proof using Hcopy.
  intros H0 Hi. apply word_ext. intros d Hd. apply (copy_byte _ _ _ Hcopy). lia.
Qed.

Lemma copy_payload i : 0 <= i → 16 * i + 16 <= n → payload b i = payload m i.
Proof using Hcopy.
  intros H0 Hi. apply word_ext. intros d Hd. apply (copy_byte _ _ _ Hcopy). lia.
Qed.

Lemma copy_inside i : 0 <= i → 16 * i + 16 <= n → inside b i.
Proof using Hcopy Hn.
  intros H0 Hi. unfold inside. change (container_len b) with (buffer_len b).
  rewrite (copy_len _ _ _ Hcopy). lia.
Qed.
End copies.

(** ** Scanning *)

Section scans.
Context `{!FloatNaN} {h : Heap} {N : Z} {B : layout} {L : Z → list Z} {b : BackingBuffer}.
Context (HC : hcore h N B L) (HB : tiles N B) (Hcopy : copy_of (mapping h) (16 * N) b).

Lemma scan_small : 16 * N < u64_size ∧ N < u32_size.
Proof using HC.
  destruct HC as [_ Hcore]. destruct (core_len _ _ _ _ _ Hcore) as (H0 & H1 & H2).
  change (2 ^ 28) with 268435456 in H2. unfold u64_size, u32_size. lia.
Qed.

Lemma copy_block i k f : B !! i = Some (k, f) →
  0 <= i ∧ 16 * i + 16 <= 16 * N ∧ inside b i ∧ header b i = header (mapping h) i ∧
  payload b i = payload (mapping h) i.
Proof using HC HB Hcopy.
  intros Hi. destruct (tile_ok _ _ HB _ _ _ Hi) as (Hk & H0 & HiN & _).
  pose proof (pow2_pos k ltac:(lia)). destruct scan_small.
  split_and!; [lia|lia|eapply copy_inside|eapply copy_header|eapply copy_payload]; (done || lia).
Qed.

Lemma iterator_next_block i k f : B !! i = Some (k, f) →
  iterator_next b (16 * i) = Ok (Some (i, 16 * (i + 2 ^ k))).
Proof using HC HB Hcopy.
  intros Hi. destruct (copy_block i k f Hi) as (H0 & HiN & Hin & Hh & _). destruct scan_small as [_ H32].
  destruct (tile_ok _ _ HB _ _ _ Hi) as (Hk & _ & HkN & _).
  unfold iterator_next. rewrite (copy_len _ _ _ Hcopy), (proj2 (Z.leb_gt _ _)) by lia.
  rewrite index_for_offset_run by lia. cbn [mbind outcome_bind]. rewrite order_inside by done.
  rewrite Hh, (proj1 (core_header _ _ _ _ _ (proj2 HC) _ _ _ Hi)). cbn [mbind outcome_bind infallible].
  rewrite order_to_size_spec, (proj2 (Z.ltb_ge _ _)) by lia. do 3 f_equal. lia.
Qed.

Lemma iterator_next_end : iterator_next b (16 * N) = Ok None.
Proof using Hcopy.
  unfold iterator_next. by rewrite (copy_len _ _ _ Hcopy), (proj2 (Z.leb_le _ _)) by lia.
Qed.

(** The unit after a block starts the next one, or ends the heap. *)
Lemma next_boundary i k f : B !! i = Some (k, f) → i + 2 ^ k = N ∨ is_Some (B !! (i + 2 ^ k)).
Proof using HB.
  intros Hi. destruct (tile_ok _ _ HB _ _ _ Hi) as (Hk & H0 & HiN & _). pose proof (pow2_pos k ltac:(lia)).
  destruct (Z.eq_dec (i + 2 ^ k) N) as [|Hne]; [by left|right].
  destruct (tile_cover _ _ HB (i + 2 ^ k)) as (j & k' & f' & Hj & Hju); [lia|].
  replace (i + 2 ^ k) with j; [by eexists|].
  destruct (Z.lt_trichotomy j i) as [Hl|[->|Hl]].
  - pose proof (tile_disjoint _ _ HB _ _ _ _ _ _ Hj Hi Hl). lia.
  - rewrite Hi in Hj. simplify_eq. lia.
  - pose proof (tile_disjoint _ _ HB _ _ _ _ _ _ Hi Hj Hl). lia.
Qed.

Lemma scan_from_blocks fuel u : u = N ∨ is_Some (B !! u) → (Z.to_nat (N - u) < fuel)%nat →
  ∃ l, scan_from b fuel (16 * u) = Ok l ∧ StronglySorted Z.lt l ∧
    ∀ i, i ∈ l ↔ u <= i ∧ is_Some (B !! i).
Proof using HC HB Hcopy.
  revert u. induction fuel as [|fuel IH]; intros u Hu Hfuel; [lia|]. cbn [scan_from].
  destruct Hu as [->|[[k f] Hu]].
  - rewrite iterator_next_end. cbn. exists []. split; [done|]. split; [constructor|].
    intros i. rewrite elem_of_nil. split; [done|]. intros [Hle [[k f] Hi]].
    destruct (tile_ok _ _ HB _ _ _ Hi) as (Hk & _ & HiN & _). pose proof (pow2_pos k). lia.
  - destruct (tile_ok _ _ HB _ _ _ Hu) as (Hk & _ & HuN & _). pose proof (pow2_pos k ltac:(lia)).
    rewrite (iterator_next_block _ _ _ Hu). cbn [mbind outcome_bind].
    destruct (IH (u + 2 ^ k)) as (l & -> & Hsort & Hl); [by eapply next_boundary|lia|].
    exists (u :: l). split; [done|]. split.
    + constructor; [done|]. apply Forall_forall. intros i Hi%Hl. lia.
    + intros i. rewrite elem_of_cons, Hl. split.
      * intros [->|[Hle Hi]]; [split; [lia|by eexists]|split; [lia|done]].
      * intros [Hle [[k' f'] Hi]]. destruct (decide (i = u)) as [->|Hne]; [by left|right].
        pose proof (tile_disjoint _ _ HB _ _ _ _ _ _ Hu Hi ltac:(lia)). split; [lia|by eexists].
Qed.

Lemma scan_blocks_list : 0 < N →
  ∃ l, scan b = Ok l ∧ StronglySorted Z.lt l ∧ ∀ i, i ∈ l ↔ is_Some (B !! i).
Proof using HC HB Hcopy.
  intros HN. destruct (scan_from_blocks (S (Z.to_nat (buffer_len b))) 0) as (l & Hs & Hsort & Hl).
  - right. destruct (tile_cover _ _ HB 0) as (i & k & f & Hi & Hi0); [lia|].
    destruct (tile_ok _ _ HB _ _ _ Hi) as (_ & H0 & _). replace 0 with i by lia. by eexists.
  - rewrite (copy_len _ _ _ Hcopy). lia.
  - exists l. split; [exact Hs|]. split; [done|]. intros i. rewrite Hl. split; [naive_solver|].
    intros Hi. split; [|done]. destruct Hi as [[k f] Hi]. by destruct (tile_ok _ _ HB _ _ _ Hi) as (_ & ? & _).
Qed.

(** The loop of [scan_blocks] is a fold over the scan. *)
Lemma scan_loop_fold fuel offset l nodes : scan_from b fuel offset = Ok l →
  scan_loop b fuel offset nodes = try_fold (λ nodes block, scan_block b block nodes) nodes l.
Proof.
  clear. revert offset l nodes. induction fuel as [|fuel IH]; intros offset l nodes; [done|].
  cbn [scan_from scan_loop]. destruct (iterator_next b offset) as [[[block next]|]|e|]; cbn; [|by intros [= <-]|done|done].
  rewrite bind_Ok_iff. intros (rest & Hrest & [= <-]). cbn [try_fold].
  destruct (scan_block b block nodes); cbn; [|done|done]. by apply IH.
Qed.
End scans.

(** C14: The scan of a copy of the bytes of a reachable heap finds every block in use, and
    besides them only free blocks; the blocks follow each other without gaps to the end of
    the bytes. *)
Theorem scan_finds_blocks m h U bs :
  MINIMUM_VMO_SIZE_BYTES <= mapping_len m <= 2 ^ 28 → reachable m h U → bytes h = Ok bs →
  ∃ l, scan (Vector_buffer bs) = Ok l ∧ StronglySorted Z.lt l ∧
    (∀ i k, U !! i = Some k → i ∈ l ∧ order (Vector_buffer bs) i = Ok k) ∧
    (∀ i, i ∈ l → U !! i = None → block_type (Vector_buffer bs) i = Ok Free) ∧
    (∀ u, 0 <= 16 * u < len bs → ∃ i k, i ∈ l ∧ order (Vector_buffer bs) i = Ok k ∧ i <= u < i + 2 ^ k).
Proof.
  intros Hm Hr Hbs. destruct (reachable_ok m h U Hm Hr) as [(N & B & L & HC & HB & _ & HN & _ & <-) _].
  pose proof (heap_bytes_copy _ _ _ _ _ HC Hbs) as Hcopy.
  destruct (scan_blocks_list HC HB Hcopy HN) as (l & Hs & Hsort & Hl). exists l.
  assert (∀ i k f, B !! i = Some (k, f) → order (Vector_buffer bs) i = Ok k) as Ho.
  { intros i k f Hi. destruct (copy_block HC HB Hcopy i k f Hi) as (_ & _ & Hin & Hh & _).
    rewrite order_inside by done. by rewrite Hh, (proj1 (core_header _ _ _ _ _ (proj2 HC) _ _ _ Hi)). }
  split_and!; [done|done|..].
  - intros i k Hi%used_lookup. split; [apply Hl; by eexists|by eapply Ho].
  - intros i [[k []] Hi]%Hl HU; [|by rewrite (proj2 (used_lookup B i k) Hi) in HU].
    destruct (copy_block HC HB Hcopy i k true Hi) as (_ & _ & Hin & Hh & _).
    apply block_type_inside; [done|]. unfold typ. rewrite Hh. by apply (core_free (proj2 HC) i k).
  - intros u Hu. pose proof (copy_len _ _ _ Hcopy) as Hlen. cbn in Hlen.
    destruct (tile_cover _ _ HB u) as (i & k & f & Hi & Hiu); [lia|].
    exists i, k. split_and!; [apply Hl; by eexists|by eapply Ho|lia|lia].
Qed.

Lemma scan_finds_blocks_witness :
  ∃ h bs l, reachable (mkMapping 4096 ∅) h ∅ ∧ bytes h = Ok bs ∧ scan (Vector_buffer bs) = Ok l.
Proof.
  assert (4096 <= mapping_len (mkMapping 4096 ∅) <= 2 ^ 28) as Hm by (cbn; lia).
  destruct (heap_inv_new _ Hm) as (h & Hnew & Hinv & _).
  assert (reachable (mkMapping 4096 ∅) h ∅) as Hr by (exists h; split; [done|constructor]).
  assert (∃ bs, bytes h = Ok bs) as [bs Hbs].
  { destruct Hinv as (N & B & L & [Hsz HC] & _). destruct (core_len _ _ _ _ _ HC) as (H0 & H1 & H2).
    change (2 ^ 28) with 268435456 in H2. unfold bytes. rewrite Hsz.
    rewrite read_at_inside by (unfold u64_size; lia). by eexists. }
  destruct (scan_finds_blocks (mkMapping 4096 ∅) h ∅ bs Hm Hr Hbs) as (l & Hl & _).
  by exists h, bs, l.
Defined.
