(* ===== verification/InspectSnapshot.v ===== *)
(** Reading a VMO while a writer changes it: the generation count of the header is the
    lock of the format.  The writer is a step relation over the memory; a reader's reads
    see the memory at different times.  A snapshot whose two header reads agree on a count
    that is not the frozen one is the memory at one moment at which no writer held the
    lock; when both say frozen and the VMO cannot be mapped, nothing is known of it. *)
From Stdlib Require Import ZArith Lia.
From stdpp Require Import base gmap strings list.
From S2P Require Import Prelude StateError InspectFormat InspectBlock InspectHeap InspectState InspectMemory InspectReader.
Local Open Scope Z_scope.

(** ** The writer *)

Definition generation (m : Mapping) : Z := header_generation_count_bits (payload m 0).

(** The memory, and the generation count that is put aside while the VMO is frozen for a
    copy. *)
Record Writer := mkWriter { memory : Mapping; frozen : option Z }.

(** The writer locks and unlocks the header, writes behind the header while it holds the
    lock, and freezes and thaws the header around a copy, for which it holds the lock too.
    A copy that fails, and leaves the header frozen, is not among the steps. *)
Inductive writer_step : Writer → Writer → Prop :=
| writer_lock m m' : lock_header HEADER_INDEX m = (m', Ok tt) → writer_step (mkWriter m None) (mkWriter m' None)
| writer_unlock m m' : unlock_header HEADER_INDEX m = (m', Ok tt) → writer_step (mkWriter m None) (mkWriter m' None)
| writer_write m m' :
    check_locked m HEADER_INDEX true = Ok tt → mapping_len m' = mapping_len m →
    (∀ a, 0 <= a < 16 → mapping_byte m' a = mapping_byte m a) →
    writer_step (mkWriter m None) (mkWriter m' None)
| writer_freeze m m' old :
    check_locked m HEADER_INDEX true = Ok tt → freeze_header HEADER_INDEX m = (m', Ok old) →
    writer_step (mkWriter m None) (mkWriter m' (Some old))
| writer_thaw m m' old :
    thaw_header HEADER_INDEX old m = (m', Ok tt) → writer_step (mkWriter m (Some old)) (mkWriter m' None).

(** A run of the writer: at each moment it may do nothing. *)
Record writer_run (trace : nat → Writer) : Prop := {
  run_start : frozen (trace 0%nat) = None ∧ 16 <= mapping_len (memory (trace 0%nat)) < u64_size;
  run_step : ∀ t, trace (S t) = trace t ∨ writer_step (trace t) (trace (S t));
}.

(** Bytes [0..n) of the memory. *)
Definition read_now (m : Mapping) (n : Z) : list Z := mapping_byte m <$> seqZ 0 n.

(** An attempt between the moments [t0] and [t1]: the header is read at both, and byte [a] of
    the contents at the moment [when a] between them. *)
Record observes (trace : nat → Writer) (vmo : VmoReads) (t0 t1 : nat) (when : Z → nat) (n : Z) : Prop := {
  observes_first : first_header vmo = inr (read_now (memory (trace t0)) 16);
  observes_size : vmo_size vmo = inr n;
  observes_contents : vmo_contents vmo n = inr ((λ a, mapping_byte (memory (trace (when a))) a) <$> seqZ 0 n);
  observes_second : second_header vmo = inr (read_now (memory (trace t1)) 16);
  observes_order : ∀ a, 0 <= a < n → (t0 <= when a <= t1)%nat;
}.

Lemma header_inside (m : Mapping) : 16 <= mapping_len m < u64_size → inside m HEADER_INDEX.
Proof. intros Hm. change (0 <= 0 ∧ 16 * 0 + 16 <= mapping_len m ∧ mapping_len m < u64_size). lia. Qed.

Lemma land_1_odd x : (Z.land x 1 =? 1) = Z.odd x.
Proof. rewrite (Z.land_ones _ 1), Zmod_odd by lia. by destruct (Z.odd _). Qed.

Lemma check_locked_run m v : 16 <= mapping_len m < u64_size →
  check_locked m HEADER_INDEX v = Ok tt ↔ Z.odd (generation m) = v.
Proof.
  intros Hm. unfold check_locked. rewrite read_payload_inside by (by apply header_inside). cbn [mbind outcome_bind].
  change (payload m HEADER_INDEX) with (payload m 0). fold (generation m).
  rewrite land_1_odd. destruct (Z.odd _), v; cbn; done.
Qed.

Lemma generation_range m : 0 <= generation m < u64_size.
Proof. apply (bit_range_nonneg 64 _ 63 0); lia. Qed.

Lemma increment_generation_run m : 16 <= mapping_len m < u64_size →
  ∃ m', increment_generation_count HEADER_INDEX m = (m', Ok tt) ∧
    generation m' = (generation m + 1) mod u64_size ∧ mapping_len m' = mapping_len m.
Proof.
  intros Hm. unfold increment_generation_count, block_reads.
  erewrite st_bind_Ok by (unfold reads; by rewrite read_payload_inside by (by apply header_inside)).
  cbn zeta. rewrite write_payload_inside by (by apply header_inside). eexists. split; [done|]. split; [|done].
  pose proof (generation_range m) as Hr. unfold generation at 1. rewrite payload_put_payload, decide_True by done.
  change (payload m HEADER_INDEX) with (payload m 0). fold (generation m).
  set (v := if generation m =? u64_size - 1 then 0 else generation m + 1).
  assert (v = (generation m + 1) mod u64_size) as <-.
  { unfold v. destruct (Z.eqb_spec (generation m) (u64_size - 1)) as [->|]; [done|].
    symmetry. apply Z.mod_small. lia. }
  assert (0 <= v < u64_size) as Hv by (unfold v; destruct (Z.eqb_spec (generation m) (u64_size - 1)); lia).
  clearbody v. fields. by apply Z.mod_small.
Qed.

Lemma put_generation_generation m p w : 0 <= w < u64_size →
  generation (put_payload m 0 (set_header_generation_count_bits p w)) = w.
Proof.
  intros Hw. unfold generation. rewrite payload_put_payload, decide_True by done. fields. by apply Z.mod_small.
Qed.

Lemma freeze_header_inv m m' old : 16 <= mapping_len m < u64_size → freeze_header HEADER_INDEX m = (m', Ok old) →
  old = generation m ∧ generation m' = VMO_FROZEN ∧ mapping_len m' = mapping_len m.
Proof.
  intros Hm. pose proof (header_inside m Hm) as Hi. unfold freeze_header, block_reads, mbind, st_bind, reads.
  destruct (check_type m HEADER_INDEX Header); [|done|done]. rewrite read_payload_inside by done. cbn zeta.
  rewrite write_payload_inside by done. intros [= <- <-]. split_and!; [done|by apply put_generation_generation|done].
Qed.

Lemma thaw_header_inv m m' old : 16 <= mapping_len m < u64_size → 0 <= old < u64_size →
  thaw_header HEADER_INDEX old m = (m', Ok tt) → generation m' = old ∧ mapping_len m' = mapping_len m.
Proof.
  intros Hm Hold. pose proof (header_inside m Hm) as Hi. unfold thaw_header, mbind, st_bind, reads.
  destruct (check_type m HEADER_INDEX Header); [|done|done].
  rewrite write_payload_inside by done. intros [= <-]. split; [by apply put_generation_generation|done].
Qed.

(** The count of the lock: the one that is put aside, or the one in the header. *)
Definition lock_count (w : Writer) : Z := default (generation (memory w)) (frozen w).

Definition writer_ok (w : Writer) : Prop :=
  16 <= mapping_len (memory w) < u64_size ∧
  ∀ old, frozen w = Some old → 0 <= old < u64_size ∧ generation (memory w) = VMO_FROZEN.

(** What a step does to it. *)
Lemma writer_step_count w w' : writer_ok w → writer_step w w' →
  writer_ok w' ∧
  (lock_count w' = (lock_count w + 1) mod u64_size ∨ (lock_count w' = lock_count w ∧ (frozen w = None → Z.odd (lock_count w) = true))).
Proof.
  intros [Hm Hfr] Hstep. unfold writer_ok. destruct Hstep as [m m' Hlock|m m' Hlock|m m' Hlock Hlen Hb|m m' old Hlock Hf|m m' old Ht];
    unfold lock_count; cbn [memory frozen default from_option id] in *.
  1,2: destruct (increment_generation_run m Hm) as (m1 & Hinc & Hg & Hl); unfold lock_header, unlock_header, mbind, st_bind, reads in Hlock;
    destruct (check_type m HEADER_INDEX Header); try done; destruct (check_locked m HEADER_INDEX _); try done;
    rewrite Hinc in Hlock; injection Hlock as <-; (split; [by rewrite Hl|by left]).
  - split; [by rewrite Hlen|]. right. apply check_locked_run in Hlock; [|done]. split; [|done].
    unfold generation. f_equal. apply word_ext. intros d Hd. apply Hb. lia.
  - apply check_locked_run in Hlock; [|done]. destruct (freeze_header_inv m m' old Hm Hf) as (-> & Hg & ->).
    split; [|by right]. split; [done|]. intros old [= <-]. split; [apply generation_range|done].
  - destruct (Hfr old eq_refl) as [Hold _]. destruct (thaw_header_inv m m' old Hm Hold Ht) as [Hg ->]. by split; [|right].
Qed.

Lemma writer_run_ok trace t : writer_run trace → writer_ok (trace t).
Proof.
  intros [[Hs Hl] Hrun]. induction t as [|t IH]; [split; [done|]; intros old; by rewrite Hs|].
  destruct (Hrun t) as [-> |Hstep]; [done|]. by apply (writer_step_count _ _ IH).
Qed.

Lemma lock_count_range w : writer_ok w → 0 <= lock_count w < u64_size.
Proof.
  intros [_ Hfr]. unfold lock_count. destruct (frozen w) as [old|]; [by apply Hfr|apply generation_range].
Qed.

(** From an unlocked moment on: either nothing happened, or the count moved by fewer
    steps than it has values. *)
Lemma writer_run_count trace t0 d : writer_run trace → frozen (trace t0) = None → Z.odd (lock_count (trace t0)) = false →
  (∀ d', (d' <= d)%nat → trace (t0 + d')%nat = trace t0) ∨
  ∃ c, 1 <= c <= Z.of_nat d ∧ lock_count (trace (t0 + d)%nat) = (lock_count (trace t0) + c) mod u64_size.
Proof.
  intros Hrun Hfr Heven. induction d as [|d IH].
  - left. intros d' Hd'. by replace d' with 0%nat by lia; rewrite Nat.add_0_r.
  - replace (t0 + S d)%nat with (S (t0 + d)) by lia.
    destruct (run_step _ Hrun (t0 + d)%nat) as [Heq|Hstep].
    + rewrite Heq. destruct IH as [IH|(c & Hc & IH)]; [left|right; exists c; split; [lia|done]].
      intros d' Hd'. destruct (decide (d' = S d)) as [->|]; [|apply IH; lia].
      replace (t0 + S d)%nat with (S (t0 + d)) by lia. rewrite Heq. apply IH. lia.
    + destruct (writer_step_count _ _ (writer_run_ok trace (t0 + d) Hrun) Hstep) as (_ & Hg).
      right. destruct IH as [IH|(c & Hc & IH)].
      * rewrite (IH d) in Hg by lia. exists 1. split; [lia|]. destruct Hg as [Hg|[_ Hodd]]; [done|]. rewrite Hodd in Heven; done.
      * destruct Hg as [Hg|[Hg _]].
        -- exists (c + 1). split; [lia|]. rewrite Hg, IH.
           rewrite Zplus_mod_idemp_l. f_equal. lia.
        -- exists c. split; [lia|]. by rewrite Hg.
Qed.

(** ** The reader's header *)

Lemma read_now_len m n : 0 <= n → len (read_now m n) = n.
Proof. intros. unfold read_now, len. rewrite length_fmap, length_seqZ. lia. Qed.

Lemma read_now_byte m n a : 0 <= a < n → slice_byte (read_now m n) a = mapping_byte m a.
Proof.
  intros Ha. unfold read_now, slice_byte. apply nth_lookup_Some. rewrite list_lookup_fmap, lookup_seqZ_lt by lia.
  cbn. do 2 f_equal. lia.
Qed.

(** When the reader takes the 16 bytes for the header of an unlocked VMO. *)
Definition readable_header {C} `{ReadableBlockContainer C} (c : C) : bool :=
  bool_decide (typ c 0 = Some Header) &&
  (header_magic_bits (header c 0) =? HEADER_MAGIC_NUMBER) &&
  (header_version_bits (header c 0) <=? HEADER_VERSION_NUMBER) &&
  negb (Z.odd (header_generation_count_bits (payload c 0))).

Lemma snapshot_generation_run bs :
  snapshot_generation_count bs =
  Ok (if (16 <=? len bs) && readable_header (take 16 bs)
      then Some (header_generation_count_bits (payload (take 16 bs) 0)) else None).
Proof.
  unfold snapshot_generation_count. rewrite Z.ltb_antisym. destruct (Z.leb_spec 16 (len bs)) as [Hlen|]; [|done].
  cbn [negb andb]. set (b := take 16 bs). assert (len b = 16) as Hb by (unfold b, len in *; rewrite length_take; lia).
  assert (inside b 0) as Hin by (change (0 <= 0 ∧ 16 * 0 + 16 <= len b ∧ len b < u64_size); rewrite Hb; done).
  assert (block_type_or b 0 = ok_or (typ b 0) (InvalidBlockTypeNumber 0 (block_type_bits (header b 0)))) as ->.
  { unfold block_type_or. by rewrite read_header_inside. }
  unfold readable_header. destruct (typ b 0) as [t|] eqn:Ht; cbn [ok_or mbind outcome_bind].
  2:{ rewrite !bool_decide_false by done. done. }
  destruct (decide (t = Header)) as [->|]; [|by rewrite !bool_decide_false by congruence].
  rewrite !bool_decide_true by done. cbn [andb].
  unfold header_magic, header_version, header_is_locked, header_generation_count.
  rewrite (check_type_inside b 0 Header), read_header_inside, read_payload_inside by done.
  cbn [infallible mbind outcome_bind]. rewrite land_1_odd.
  destruct (_ =? HEADER_MAGIC_NUMBER); [|done]. destruct (_ <=? HEADER_VERSION_NUMBER); [|done]. by destruct (Z.odd _).
Qed.

Lemma read_now_take m : take 16 (read_now m 16) = read_now m 16.
Proof. apply take_ge. pose proof (read_now_len m 16 ltac:(lia)). unfold len in *. lia. Qed.

Lemma read_now_header m : header (read_now m 16) 0 = header m 0 ∧ payload (read_now m 16) 0 = payload m 0.
Proof. split; apply word_ext; intros d Hd; apply read_now_byte; lia. Qed.

Lemma snapshot_generation_now m :
  snapshot_generation_count (read_now m 16) = Ok (if readable_header m then Some (generation m) else None).
Proof.
  rewrite snapshot_generation_run, read_now_take, read_now_len by lia. cbn [Z.leb andb Z.compare].
  destruct (read_now_header m) as [Hh Hp]. unfold readable_header, typ, generation. by rewrite Hh, Hp.
Qed.

Lemma snapshot_generation_some m gen :
  snapshot_generation_count (read_now m 16) = Ok (Some gen) → gen = generation m ∧ Z.odd gen = false.
Proof.
  rewrite snapshot_generation_now. destruct (readable_header m) eqn:Hr; [|done]. intros [= <-]. split; [done|].
  unfold readable_header in Hr. fold (generation m) in Hr. destruct (Z.odd (generation m)); [|done].
  by rewrite andb_false_r in Hr.
Qed.

(** A header the reader knows, whoever holds the lock. *)
Definition known_header (m : Mapping) : Prop :=
  typ m 0 = Some Header ∧ header_magic_bits (header m 0) = HEADER_MAGIC_NUMBER ∧
  header_version_bits (header m 0) <= HEADER_VERSION_NUMBER.

Lemma known_readable m : known_header m → Z.odd (generation m) = false → readable_header m = true.
Proof.
  intros (Ht & Hm & Hv) Ho. unfold readable_header. fold (generation m). rewrite bool_decide_true, Hm, Ho by done.
  rewrite Z.eqb_refl, (proj2 (Z.leb_le _ _)) by done. done.
Qed.

(** What an attempt returns without mapping the VMO are the contents that were read, and the
    two headers said the same. *)
Lemma attempt_reads trace vmo t0 t1 when n buffer : observes trace vmo t0 t1 when n →
  try_once_with_callback vmo = Ok (Vector_buffer buffer) →
  buffer = (λ a, mapping_byte (memory (trace (when a))) a) <$> seqZ 0 n ∧
  generation (memory (trace t1)) = generation (memory (trace t0)) ∧ Z.odd (generation (memory (trace t0))) = false.
Proof.
  intros [H1 Hs Hc H2 _]. unfold try_once_with_callback. rewrite H1. cbn [vmo_result mbind outcome_bind].
  destruct (snapshot_generation_count (read_now (memory (trace t0)) 16)) as [[gen|]|e|] eqn:Hg1; cbn [mbind outcome_bind]; [|done..].
  destruct (snapshot_generation_some _ _ Hg1) as [-> Heven].
  destruct (if generation (memory (trace t0)) =? VMO_FROZEN then _ else _) as [st|mm]; [|done].
  rewrite Hs. cbn [vmo_result mbind outcome_bind]. rewrite Hc, H2. cbn [vmo_result mbind outcome_bind].
  destruct (snapshot_generation_count (read_now (memory (trace t1)) 16)) as [[gen|]|e|] eqn:Hg2; cbn [mbind outcome_bind]; [|done..].
  destruct (snapshot_generation_some _ _ Hg2) as [-> _].
  destruct (Z.eqb_spec (generation (memory (trace t1))) (generation (memory (trace t0)))) as [Heq|]; cbn [negb]; [|done].
  by intros [= <-].
Qed.

Lemma count_no_wrap g c : 0 <= g < u64_size → 1 <= c < u64_size → (g + c) mod u64_size ≠ g.
Proof.
  intros Hg Hc Heq. destruct (Z.lt_ge_cases (g + c) u64_size).
  - rewrite Z.mod_small in Heq by lia. lia.
  - replace (g + c) with (g + c - u64_size + 1 * u64_size) in Heq by lia.
    rewrite Z.mod_add, Z.mod_small in Heq by (unfold u64_size in *; lia). lia.
Qed.

(** C7: A snapshot of a VMO that is being written, copied by one attempt of a reader whose
    first header read does not say frozen, is the memory at one moment at which no writer
    held the lock: whenever the bytes were read between the two reads of the header, if
    fewer than 2^64 steps of the writer fell in between.  The writer may also make frozen
    copies, none of which fails. *)
Theorem snapshot_consistent trace vmo t0 t1 when n buffer :
  writer_run trace → observes trace vmo t0 t1 when n → (t0 <= t1)%nat → Z.of_nat (t1 - t0) < u64_size →
  generation (memory (trace t0)) ≠ VMO_FROZEN →
  try_once_with_callback vmo = Ok (Vector_buffer buffer) →
  buffer = read_now (memory (trace t0)) n ∧ frozen (trace t0) = None ∧
  check_locked (memory (trace t0)) HEADER_INDEX false = Ok tt.
Proof.
  intros Hrun Hobs Ht Hd Hfrozen Hok. destruct (attempt_reads _ _ _ _ _ _ _ Hobs Hok) as (-> & Heq & Heven).
  pose proof (writer_run_ok trace t0 Hrun) as [Hm Hfr0]. pose proof (writer_run_ok trace t1 Hrun) as [_ Hfr1].
  assert (∀ t, generation (memory (trace t)) = generation (memory (trace t0)) → frozen (trace t) = None) as Hthawed.
  { intros t Hg. destruct (frozen (trace t)) as [old|] eqn:E; [|done]. destruct (writer_run_ok trace t Hrun) as [_ Hfr].
    destruct (Hfr old E) as [_ Hg']. congruence. }
  pose proof (Hthawed t0 eq_refl) as Hf0. pose proof (Hthawed t1 Heq) as Hf1. split; [|split; [done|by apply check_locked_run]].
  assert (∀ t, frozen (trace t) = None → lock_count (trace t) = generation (memory (trace t))) as Hcount
    by (intros t Hf; unfold lock_count; by rewrite Hf).
  destruct (writer_run_count trace t0 (t1 - t0) Hrun Hf0) as [Hsame|(c & Hc1 & Hgc)]; [by rewrite Hcount| |].
  - unfold read_now. apply list_fmap_ext. intros i a Ha. apply lookup_seqZ in Ha as [-> Hi].
    destruct (observes_order _ _ _ _ _ _ Hobs (0 + Z.of_nat i)%Z) as [Hw Hw']; [lia|]. revert Hw Hw'.
    generalize (when (0 + Z.of_nat i)%Z) as w. intros w Hw Hw'.
    replace w with (t0 + (w - t0))%nat by lia. by rewrite Hsame by lia.
  - exfalso. replace (t0 + (t1 - t0))%nat with t1 in Hgc by lia. rewrite !Hcount, Heq in Hgc by done.
    apply (count_no_wrap (generation (memory (trace t0))) c); [apply generation_range|lia|done].
Qed.

(** C38: When the VMO cannot be mapped and both reads of the header say frozen, the reader
    returns the bytes as they were read, whenever that was: the two frozen headers may
    belong to two copies with writes in between. *)
Theorem frozen_reads_unchecked trace vmo t0 t1 when n status :
  observes trace vmo t0 t1 when n → known_header (memory (trace t0)) → known_header (memory (trace t1)) →
  generation (memory (trace t0)) = VMO_FROZEN → generation (memory (trace t1)) = VMO_FROZEN →
  vmo_mapped vmo = inl status →
  try_once_with_callback vmo = Ok (Vector_buffer ((λ a, mapping_byte (memory (trace (when a))) a) <$> seqZ 0 n)).
Proof.
  intros [H1 Hs Hc H2 _] Hk0 Hk1 Hg0 Hg1 Hmap. unfold try_once_with_callback. rewrite H1, H2. cbn [vmo_result mbind outcome_bind].
  rewrite !snapshot_generation_now, !known_readable by (done || by rewrite ?Hg0, ?Hg1). cbn [mbind outcome_bind].
  rewrite Hg0, Hg1, Z.eqb_refl, Hmap, Hs. cbn [vmo_result mbind outcome_bind]. rewrite Hc. done.
Qed.

(** ** Attempts *)

Lemma try_once_no_panic vmo : try_once_with_callback vmo ≠ Panic.
Proof.
  unfold try_once_with_callback. destruct (first_header vmo) as [|bs]; [done|]. cbn [vmo_result mbind outcome_bind].
  rewrite snapshot_generation_run. cbn [mbind outcome_bind]. destruct (_ && _); [|done].
  destruct (if _ =? VMO_FROZEN then _ else _); [|done].
  destruct (vmo_size vmo) as [|n]; [done|]. cbn [vmo_result mbind outcome_bind].
  destruct (vmo_contents vmo n) as [|buf]; [done|]. cbn [vmo_result mbind outcome_bind].
  destruct (second_header vmo) as [|bs']; [done|]. cbn [vmo_result mbind outcome_bind].
  rewrite snapshot_generation_run. cbn [mbind outcome_bind]. destruct (_ && _); [|done]. by destruct (negb _).
Qed.

Definition attempt_fails (vmo : Z → VmoReads) (j : Z) : Prop := ∃ e, try_once_with_callback (vmo j) = Err e.

Lemma try_from_loop_spec fuel vmo i :
  0 <= i <= SNAPSHOT_TRIES → SNAPSHOT_TRIES - i < Z.of_nat fuel →
  (∃ j, i <= j <= SNAPSHOT_TRIES ∧ (∀ k, i <= k < j → attempt_fails vmo k) ∧
     try_from_loop fuel vmo i = try_once_with_callback (vmo j) ∧
     (j = SNAPSHOT_TRIES ∨ ∃ s, try_once_with_callback (vmo j) = Ok s)).
Proof.
  revert i. induction fuel as [|fuel IH]; intros i Hi Hf; [lia|]. cbn [try_from_loop].
  destruct (try_once_with_callback (vmo i)) as [s|e|] eqn:Ht.
  - exists i. split_and!; [lia..| |congruence|by eauto]. intros k Hk. lia.
  - destruct (Z.leb_spec SNAPSHOT_TRIES i) as [Hle|Hlt].
    + exists i. split_and!; [lia..| |congruence|left; lia]. intros k Hk. lia.
    + destruct (IH (i + 1)) as (j & Hj & Hk & Heq & Hend); [lia..|].
      exists j. split_and!; [lia..| |done|done]. intros k Hr.
      destruct (decide (k = i)) as [->|]; [by exists e|apply Hk; lia].
  - by apply try_once_no_panic in Ht.
Qed.

(** C25: Reading a VMO ends after at most 1025 attempts: the outcome is that of an attempt
    before which all failed, and it is a snapshot or the error of the last attempt.  It
    never panics. *)
Theorem try_from_attempts vmo :
  ∃ j, 0 <= j <= SNAPSHOT_TRIES ∧ (∀ k, 0 <= k < j → attempt_fails vmo k) ∧
    try_from_with_callback vmo = try_once_with_callback (vmo j) ∧
    ((∃ s, try_from_with_callback vmo = Ok s) ∨ (j = SNAPSHOT_TRIES ∧ ∃ e, try_from_with_callback vmo = Err e)).
Proof.
  destruct (try_from_loop_spec (Z.to_nat (SNAPSHOT_TRIES + 1)) vmo 0) as (j & Hj & Hk & Heq & Hend);
    [unfold SNAPSHOT_TRIES; lia..|].
  fold (try_from_with_callback vmo) in Heq. exists j. split_and!; [lia..|done|done|]. rewrite Heq.
  pose proof (try_once_no_panic (vmo j)). destruct (try_once_with_callback (vmo j)) eqn:Ht; [by eauto| |done].
  destruct Hend as [->|[s ?]]; [by eauto|done].
Qed.

(** ** Frozen copies *)

Definition put_generation (m : Mapping) (w : Z) : Mapping :=
  put_payload m 0 (set_header_generation_count_bits (payload m 0) w).

Lemma put_payload_header m w : known_header m → known_header (put_payload m 0 w).
Proof. unfold known_header, typ. by rewrite header_put_payload. Qed.

Lemma freeze_header_run m : 16 <= mapping_len m < u64_size → known_header m →
  freeze_header HEADER_INDEX m = (put_generation m VMO_FROZEN, Ok (generation m)).
Proof.
  intros Hm (Ht & _). unfold freeze_header, block_reads. pose proof (header_inside m Hm) as Hi.
  erewrite st_bind_Ok by (unfold reads; by rewrite (check_type_inside _ _ Header)).
  erewrite st_bind_Ok by (unfold reads; by rewrite read_payload_inside).
  cbn zeta. erewrite st_bind_Ok by (by rewrite write_payload_inside). done.
Qed.

Lemma thaw_header_run m gen : 16 <= mapping_len m < u64_size → known_header m →
  thaw_header HEADER_INDEX gen m = (put_payload m 0 (set_header_generation_count_bits 0 gen), Ok tt).
Proof.
  intros Hm (Ht & _). unfold thaw_header. pose proof (header_inside m Hm) as Hi.
  erewrite st_bind_Ok by (unfold reads; by rewrite (check_type_inside _ _ Header)).
  by rewrite write_payload_inside.
Qed.

Lemma put_payload_other m w a : ~ 8 <= a < 16 → mapping_byte (put_payload m 0 w) a = mapping_byte m a.
Proof. intros Ha. apply put_bytes_byte_other. rewrite len_to_le_bytes. lia. Qed.

(** C15: A frozen copy of the VMO: the child is taken from memory that differs from the VMO
    only in the generation count, which says frozen and lets a reader of the child map it;
    afterwards the generation count and the other bytes of the VMO are as before, so the
    lock is still held by who held it. *)
Theorem frozen_vmo_copy_spec size create s :
  16 <= mapping_len (mapping (heap s)) < u64_size → known_header (mapping (heap s)) →
  ∃ copied s', frozen_vmo_copy (Ok size) create s = (s', Ok (create copied)) ∧
    snapshot_generation_count (read_now copied 16) = Ok (Some VMO_FROZEN) ∧
    (∀ a, ~ 8 <= a < 16 → mapping_byte copied a = mapping_byte (mapping (heap s)) a) ∧
    generation (mapping (heap s')) = generation (mapping (heap s)) ∧
    (∀ a, ~ 8 <= a < 16 → mapping_byte (mapping (heap s')) a = mapping_byte (mapping (heap s)) a).
Proof.
  intros Hm Hk. set (m := mapping (heap s)) in *. exists (put_generation m VMO_FROZEN).
  eexists. split; [|split_and!].
  - unfold frozen_vmo_copy.
    erewrite st_bind_Ok by (unfold on_blk, on_heap, on_block, zoom; fold m; rewrite freeze_header_run by done; done).
    erewrite st_bind_Ok by done. erewrite st_bind_Ok; [done|].
    unfold on_blk, on_heap, on_block, zoom. cbn. rewrite thaw_header_run; [done..|]. by apply put_payload_header.
  - rewrite snapshot_generation_now, known_readable; [|by apply put_payload_header|].
    all: unfold put_generation; rewrite put_generation_generation; done.
  - intros a Ha. by apply put_payload_other.
  - cbn. apply put_generation_generation. apply generation_range.
  - intros a Ha. cbn. unfold put_generation. by rewrite !put_payload_other.
Qed.

(** C36: While the VMO is frozen for a copy, its own header says frozen although the writer
    holds the lock: a reader that was refused a moment before now maps the live VMO and
    never reads the header again. *)
Theorem frozen_snapshot_live m m' gen vmo vmo' live :
  16 <= mapping_len m < u64_size → known_header m → check_locked m HEADER_INDEX true = Ok tt →
  freeze_header HEADER_INDEX m = (m', Ok gen) →
  first_header vmo = inr (read_now m 16) →
  first_header vmo' = inr (read_now m' 16) → vmo_mapped vmo' = inr live →
  try_once_with_callback vmo = Err InconsistentSnapshot ∧
  try_once_with_callback vmo' = Ok (Map_buffer live).
Proof.
  intros Hm Hk Hl Hf H1 H2 Hlive. rewrite freeze_header_run in Hf by done. injection Hf as <- <-.
  apply check_locked_run in Hl; [|done]. unfold try_once_with_callback. rewrite H1, H2.
  cbn [vmo_result mbind outcome_bind]. rewrite !snapshot_generation_now. cbn [mbind outcome_bind]. split.
  - unfold readable_header. fold (generation m). by rewrite Hl, andb_false_r.
  - rewrite known_readable; [|by apply put_payload_header|].
    + unfold put_generation. by rewrite put_generation_generation, Hlive.
    + unfold put_generation. by rewrite put_generation_generation.
Qed.

(** C37: When the size of the VMO cannot be read, a frozen copy fails and the VMO stays
    frozen: the generation count of the lock is lost. *)
Theorem frozen_copy_failure_freezes status create s :
  16 <= mapping_len (mapping (heap s)) < u64_size → known_header (mapping (heap s)) →
  ∃ s', frozen_vmo_copy (Err status) create s = (s', Err (VmoSize status)) ∧
    generation (mapping (heap s')) = VMO_FROZEN.
Proof.
  intros Hm Hk. set (m := mapping (heap s)) in *. eexists. split.
  - unfold frozen_vmo_copy.
    erewrite st_bind_Ok by (unfold on_blk, on_heap, on_block, zoom; fold m; rewrite freeze_header_run by done; done).
    by erewrite st_bind_Ok.
  - cbn. by apply put_generation_generation.
Qed.

(** ** An example *)

(** A header as [become_header] writes it, unlocked; then locked, then unlocked again. *)
Definition header_example : Mapping :=
  (become_header 0 (put_header (mkMapping 32 ∅) 0 (reserved_header 0))).1.
Definition header_locked : Mapping := (lock_header 0 header_example).1.
Definition header_written : Mapping := put_bytes header_locked 16 [1; 2; 3].
Definition header_unlocked : Mapping := (unlock_header 0 header_written).1.

Definition header_frozen : Mapping := (freeze_header 0 header_locked).1.

(** The writer makes a frozen copy before it writes, and another one after. *)
Definition example_trace (t : nat) : Writer :=
  match t with
  | 0%nat => mkWriter header_example None
  | 1%nat => mkWriter header_locked None
  | 2%nat => mkWriter header_frozen (Some 1)
  | 3%nat => mkWriter (thaw_header 0 1 header_frozen).1 None
  | 4%nat => mkWriter header_written None
  | 5%nat => mkWriter (freeze_header 0 header_written).1 (Some 1)
  | 6%nat => mkWriter (thaw_header 0 1 (freeze_header 0 header_written).1).1 None
  | _ => mkWriter header_unlocked None
  end.

Definition example_reads : VmoReads :=
  mkVmoReads (inr (read_now header_unlocked 16)) (inl 0) (inr 32)
    (λ n, inr (read_now header_unlocked n)) (inr (read_now header_unlocked 16)).

Lemma example_known : known_header header_example ∧ known_header header_locked.
Proof. split; (split; [vm_compute; reflexivity|split; vm_compute; [reflexivity|discriminate]]). Qed.

Lemma example_run : writer_run example_trace.
Proof.
  split; [split; [done|vm_compute; split; [discriminate|reflexivity]]|].
  intros [|[|[|[|[|[|[|t]]]]]]]; cbn [example_trace].
  - right. apply writer_lock. vm_compute. reflexivity.
  - right. apply writer_freeze; vm_compute; reflexivity.
  - right. apply writer_thaw; vm_compute; reflexivity.
  - right. apply writer_write; [vm_compute; reflexivity|done|].
    intros a Ha. unfold header_written. rewrite put_bytes_byte_other by lia. reflexivity.
  - right. apply writer_freeze; vm_compute; reflexivity.
  - right. apply writer_thaw; vm_compute; reflexivity.
  - right. apply writer_unlock. vm_compute. reflexivity.
  - by left.
Qed.

Lemma snapshot_consistent_witness :
  read_now header_unlocked 32 = read_now (memory (example_trace 7)) 32 ∧ frozen (example_trace 7) = None ∧
  check_locked (memory (example_trace 7)) HEADER_INDEX false = Ok tt.
Proof.
  apply (snapshot_consistent example_trace example_reads 7 9 (λ _, 8%nat) 32).
  - apply example_run.
  - split; [reflexivity..|]. intros a _. lia.
  - lia.
  - vm_compute. reflexivity.
  - vm_compute. discriminate.
  - vm_compute. reflexivity.
Defined.

(** Bytes 16 and 17 before and after the write: a buffer that was never in memory. *)
Definition torn_time (a : Z) : nat := if a <? 17 then 2%nat else 5%nat.
Definition torn_reads : VmoReads :=
  mkVmoReads (inr (read_now header_frozen 16)) (inl 0) (inr 32)
    (λ n, inr ((λ a, mapping_byte (memory (example_trace (torn_time a))) a) <$> seqZ 0 n))
    (inr (read_now (memory (example_trace 5)) 16)).

Lemma frozen_reads_unchecked_witness :
  ∃ buffer, try_once_with_callback torn_reads = Ok (Vector_buffer buffer) ∧
    (slice_byte buffer 16, slice_byte buffer 17) = (0, 2) ∧
    ∀ t, (mapping_byte (memory (example_trace t)) 16, mapping_byte (memory (example_trace t)) 17) ≠ (0, 2).
Proof.
  eexists. split; [|split].
  - apply (frozen_reads_unchecked example_trace torn_reads 2 5 torn_time 32 0);
      [|vm_compute; (split; [reflexivity|split; [reflexivity|discriminate]])..|vm_compute; reflexivity|vm_compute; reflexivity|reflexivity].
    split; [reflexivity..|]. intros a _. unfold torn_time. destruct (a <? 17); lia.
  - vm_compute. reflexivity.
  - intros [|[|[|[|[|[|[|t]]]]]]]; vm_compute; discriminate.
Defined.

Definition example_state : InnerState := InnerState_new (mkHeap header_locked 32 [] 0 0 0) 0.

Lemma frozen_vmo_copy_spec_witness :
  ∃ copied s', frozen_vmo_copy (Ok 32) Some example_state = (s', Ok (Some copied)) ∧
    snapshot_generation_count (read_now copied 16) = Ok (Some VMO_FROZEN) ∧
    (∀ a, ~ 8 <= a < 16 → mapping_byte copied a = mapping_byte header_locked a) ∧
    generation (mapping (heap s')) = generation header_locked ∧
    (∀ a, ~ 8 <= a < 16 → mapping_byte (mapping (heap s')) a = mapping_byte header_locked a).
Proof.
  apply (frozen_vmo_copy_spec 32 Some example_state).
  - vm_compute. split; [discriminate|reflexivity].
  - apply example_known.
Defined.

Lemma frozen_snapshot_live_witness :
  ∃ m', freeze_header HEADER_INDEX header_locked = (m', Ok 1) ∧
  try_once_with_callback (mkVmoReads (inr (read_now header_locked 16)) (inl 0) (inl 0) (λ _, inl 0) (inl 0))
    = Err InconsistentSnapshot ∧
  try_once_with_callback (mkVmoReads (inr (read_now m' 16)) (inr m') (inl 0) (λ _, inl 0) (inl 0))
    = Ok (Map_buffer m').
Proof.
  exists (freeze_header HEADER_INDEX header_locked).1. split; [vm_compute; reflexivity|].
  apply (frozen_snapshot_live header_locked (freeze_header HEADER_INDEX header_locked).1 1).
  - vm_compute. split; [discriminate|reflexivity].
  - apply example_known.
  - vm_compute. reflexivity.
  - vm_compute. reflexivity.
  - reflexivity.
  - reflexivity.
  - reflexivity.
Defined.

Lemma frozen_copy_failure_freezes_witness :
  ∃ s', frozen_vmo_copy (Err 5) Some example_state = (s', Err (VmoSize 5)) ∧
    generation (mapping (heap s')) = VMO_FROZEN.
Proof.
  apply (frozen_copy_failure_freezes 5 Some example_state).
  - vm_compute. split; [discriminate|reflexivity].
  - apply example_known.
Defined.
