(* ===== verification/InspectObjects.v ===== *)
(** The objects of an Inspect VMO: what the block at an index holds, as a value
    ([obj]), when the bytes of a container represent it ([obj_at]), what the readers of
    [InspectBlock] return of it, and how the writers change it ([updates]). *)
From Stdlib Require Import ZArith Lia.
From stdpp Require Import base gmap strings list.
From S2P Require Import Prelude StateError InspectFormat InspectBlock InspectMemory.
Local Open Scope Z_scope.

(** ** Objects *)

Inductive body :=
| B_Node (count : Z)
| B_Int (value : Z)
| B_Uint (value : Z)
| B_Double (bits : Z)
| B_Bool (value : bool)
| B_Buffer (format : PropertyFormat) (total extent : Z)
| B_Array (entry : BlockType) (format : ArrayFormat) (values : list Z)
| B_Link (content : Z) (disposition : LinkNodeDisposition).

Inductive obj :=
| O_Header (generation : Z)
| O_Reserved
| O_Tombstone (count : Z)
| O_Value (name parent : Z) (b : body)
| O_Extent (next : Z) (content : list Z)
| O_String (count next total : Z) (inlined : list Z).

#[export] Instance body_eq_dec : EqDecision body.
Proof. solve_decision. Defined.
#[export] Instance obj_eq_dec : EqDecision obj.
Proof. solve_decision. Defined.

Definition body_type (b : body) : BlockType :=
  match b with
  | B_Node _ => NodeValue
  | B_Int _ => IntValue
  | B_Uint _ => UintValue
  | B_Double _ => DoubleValue
  | B_Bool _ => BoolValue
  | B_Buffer _ _ _ => BufferValue
  | B_Array _ _ _ => ArrayValue
  | B_Link _ _ => LinkValue
  end.

Definition obj_type (o : obj) : BlockType :=
  match o with
  | O_Header _ => Header
  | O_Reserved => Reserved
  | O_Tombstone _ => Tombstone
  | O_Value _ _ b => body_type b
  | O_Extent _ _ => Extent
  | O_String _ _ _ _ => StringReference
  end.

(** The payload word of a value. *)
Definition body_word (p : Z) (b : body) : Prop :=
  match b with
  | B_Node c => numeric_value_bits p = c
  | B_Int v => as_i64 (numeric_value_bits p) = v
  | B_Uint v => numeric_value_bits p = v
  | B_Double v => numeric_value_bits p = v
  | B_Bool v => negb (numeric_value_bits p =? 0) = v
  | B_Buffer f t e =>
    PropertyFormat_from_u8 (property_flags_bits p) = Some f ∧ total_length_bits p = t ∧
    property_extent_index_bits p = e
  | B_Array en f vs =>
    BlockType_from_u8 (array_entry_type_bits p) = Some en ∧ is_numeric_value en = true ∧
    ArrayFormat_from_u8 (array_flags_bits p) = Some f ∧ array_slots_count_bits p = len vs
  | B_Link c d =>
    content_index_bits p = c ∧ LinkNodeDisposition_from_u8 (disposition_flags_bits p) = Some d
  end.

Section objects.
Context {C : Type} `{ReadableBlockContainer C}.
Implicit Types (c : C).

Definition bytes_at c (a : Z) (bs : list Z) : Prop := container_byte c <$> seqZ a (len bs) = bs.

(** The slots of an array, after the first 16 bytes. *)
Definition slots_at c (i k : Z) (vs : list Z) : Prop :=
  16 + 8 * len vs <= 16 * 2 ^ k ∧ ∀ j v, vs !! j = Some v → word c (16 * (i + 1) + 8 * Z.of_nat j) = v.

Definition body_at c (i k : Z) (b : body) : Prop :=
  body_word (payload c i) b ∧ match b with B_Array _ _ vs => slots_at c i k vs | _ => True end.

Definition obj_at c (i k : Z) (o : obj) : Prop :=
  order_bits (header c i) = k ∧ typ c i = Some (obj_type o) ∧
  match o with
  | O_Header generation =>
    header_magic_bits (header c i) = HEADER_MAGIC_NUMBER ∧ header_version_bits (header c i) = HEADER_VERSION_NUMBER ∧
    header_generation_count_bits (payload c i) = generation
  | O_Reserved => True
  | O_Tombstone count => numeric_value_bits (payload c i) = count
  | O_Value name parent b =>
    value_name_index_bits (header c i) = name ∧ value_parent_index_bits (header c i) = parent ∧
    body_at c i k b
  | O_Extent next content =>
    extent_next_index_bits (header c i) = next ∧ len content <= 16 * 2 ^ k - 8 ∧
    bytes_at c (16 * i + 8) content
  | O_String count next total inlined =>
    string_reference_count_bits (header c i) = count ∧ extent_next_index_bits (header c i) = next ∧
    total_length_bits (payload c i) = total ∧ len inlined <= 16 * 2 ^ k - 12 ∧
    bytes_at c (16 * i + 12) inlined
  end.

(** The block is in the container. *)
Definition block_inside c (i k : Z) : Prop :=
  0 <= i ∧ 0 <= k < 8 ∧ 16 * (i + 2 ^ k) <= container_len c ∧ container_len c <= 2 ^ 28.

Lemma block_inside_inside c i k : block_inside c i k → inside c i.
Proof.
  intros (H0 & Hk & H1 & H2). assert (0 < 2 ^ k) by (apply Z.pow_pos_nonneg; lia).
  unfold inside, u64_size. lia.
Qed.
End objects.

Lemma bytes_at_ext {C C'} `{ReadableBlockContainer C, ReadableBlockContainer C'} (c : C) (c' : C') a bs :
  (∀ d, a <= d < a + len bs → container_byte c d = container_byte c' d) → bytes_at c a bs → bytes_at c' a bs.
Proof.
  intros Hm Hb. unfold bytes_at in *. rewrite <- Hb at 2. apply list_fmap_ext. intros n x Hx.
  apply lookup_seqZ in Hx as [-> Hx]. symmetry. apply Hm. lia.
Qed.

(** An object depends on the bytes of its block only. *)
Lemma obj_at_ext {C C'} `{ReadableBlockContainer C, ReadableBlockContainer C'} (c : C) (c' : C') i k o :
  0 <= k → (∀ a, 16 * i <= a < 16 * (i + 2 ^ k) → container_byte c a = container_byte c' a) →
  obj_at c i k o → obj_at c' i k o.
Proof.
  intros Hk Hm. assert (0 < 2 ^ k) as Hp by (apply Z.pow_pos_nonneg; lia).
  assert (header c i = header c' i) as Hh by (apply word_ext; intros; apply Hm; lia).
  assert (payload c i = payload c' i) as Hpl by (apply word_ext; intros; apply Hm; lia).
  unfold obj_at, typ. rewrite Hh. intros (Ho & Ht & Hf). split_and!; [done..|].
  destruct o as [g| |n|name parent b|next content|n next total inl]; [by rewrite <- Hpl|done|by rewrite <- Hpl|..].
  - destruct Hf as (? & ? & Hb & Hs). split_and!; [done..|]. split; [by rewrite <- Hpl|].
    destruct b; try done. destruct Hs as [Hl Hs]. split; [done|]. intros j v Hj. rewrite <- (Hs j v Hj).
    apply lookup_lt_Some in Hj. unfold len in Hl. symmetry. apply word_ext. intros. apply Hm. lia.
  - destruct Hf as (? & ? & Hb). split_and!; [done..|]. apply (bytes_at_ext c c'); [|exact Hb]. intros. apply Hm. lia.
  - destruct Hf as (? & ? & ? & ? & Hb). rewrite <- Hpl. split_and!; [done..|].
    apply (bytes_at_ext c c'); [|exact Hb]. intros. apply Hm. lia.
Qed.

(** ** Readers *)

Section readers.
Context {C : Type} `{ReadableBlockContainer C}.
Context {c : C} {i k : Z}.
Context (Hin : block_inside c i k).

Lemma check_type_other t t' : typ c i = Some t → t ≠ t' → ∃ e, check_type c i t' = Err e.
Proof using Hin.
  intros Ht Hne. unfold typ in Ht. unfold check_type.
  rewrite read_header_inside by (by eapply block_inside_inside). cbn. unfold check_type_eq. rewrite Ht. cbn.
  rewrite bool_decide_false by done. by eexists.
Qed.

Lemma check_multi_type_inside t opts : typ c i = Some t → t ∈ opts → check_multi_type c i opts = Ok tt.
Proof using Hin.
  intros Ht. unfold check_multi_type. generalize (@nil Z) as w.
  induction opts as [|t' opts IH]; intros w Hel; [by apply elem_of_nil in Hel|]. cbn [check_multi_type_from].
  destruct (decide (t = t')) as [<-|Hne].
  - rewrite check_type_inside; [done| |done]. by eapply block_inside_inside.
  - destruct (check_type_other t t' Ht Hne) as [e ->]. apply IH. by apply elem_of_cons in Hel as [?|?].
Qed.

Lemma check_any_value_at t : typ c i = Some t → is_any_value t = true → check_any_value c i = Ok tt.
Proof using Hin.
  intros Ht Hv. unfold check_any_value. rewrite (block_type_inside c i t); [|by eapply block_inside_inside|done].
  cbn. by rewrite Hv.
Qed.

Lemma body_type_any_value b : is_any_value (body_type b) = true.
Proof. by destruct b. Qed.

(** Reads the fields of an object. *)
Ltac read_obj Hat :=
  let Hi := fresh "Hi" in
  pose proof (block_inside_inside _ _ _ Hin) as Hi;
  destruct Hat as (? & ? & Hat);
  first [rewrite (check_any_value_at _ ltac:(eassumption) (body_type_any_value _))
        |erewrite check_multi_type_inside by (try eassumption; rewrite !elem_of_cons; cbn; tauto)
        |erewrite check_type_inside by eassumption | idtac];
  cbn [mbind outcome_bind]; rewrite ?read_header_inside, ?read_payload_inside by done;
  cbn [mbind outcome_bind]; cbn [body_word body_at] in Hat.

Lemma block_type_at o : obj_at c i k o → block_type c i = Ok (obj_type o).
Proof using Hin. intros (_ & Ht & _). apply block_type_inside; [by eapply block_inside_inside|done]. Qed.

Lemma block_type_or_at o : obj_at c i k o → block_type_or c i = Ok (obj_type o).
Proof using Hin.
  intros (_ & Ht & _). unfold block_type_or. rewrite read_header_inside by (by eapply block_inside_inside).
  cbn. unfold typ in Ht. by rewrite Ht.
Qed.

Lemma order_at o : obj_at c i k o → order c i = Ok k.
Proof using Hin. intros (<- & _). apply order_inside. by eapply block_inside_inside. Qed.

Lemma child_count_at o n : obj_at c i k o → (o = O_Tombstone n ∨ ∃ nm p, o = O_Value nm p (B_Node n)) →
  child_count c i = Ok n.
Proof using Hin.
  intros Hat [->|(nm & p & ->)]; unfold child_count; read_obj Hat; [by rewrite Hat|].
  destruct Hat as (_ & _ & Hb & _). cbn in Hb. by rewrite Hb.
Qed.

Lemma parent_index_at n p b : obj_at c i k (O_Value n p b) → parent_index c i = Ok p.
Proof using Hin. intros Hat. unfold parent_index. read_obj Hat. by destruct Hat as (_ & -> & _). Qed.

Lemma name_index_at n p b : obj_at c i k (O_Value n p b) → name_index c i = Ok n.
Proof using Hin. intros Hat. unfold name_index. read_obj Hat. by destruct Hat as (-> & _). Qed.

Lemma int_value_at n p v : obj_at c i k (O_Value n p (B_Int v)) → int_value c i = Ok v.
Proof using Hin. intros Hat. unfold int_value. read_obj Hat. by destruct Hat as (_ & _ & -> & _). Qed.

Lemma uint_value_at n p v : obj_at c i k (O_Value n p (B_Uint v)) → uint_value c i = Ok v.
Proof using Hin. intros Hat. unfold uint_value. read_obj Hat. by destruct Hat as (_ & _ & -> & _). Qed.

Lemma double_value_at n p v : obj_at c i k (O_Value n p (B_Double v)) → double_value c i = Ok v.
Proof using Hin. intros Hat. unfold double_value. read_obj Hat. by destruct Hat as (_ & _ & -> & _). Qed.

Lemma bool_value_at n p v : obj_at c i k (O_Value n p (B_Bool v)) → bool_value c i = Ok v.
Proof using Hin. intros Hat. unfold bool_value. read_obj Hat. by destruct Hat as (_ & _ & -> & _). Qed.

Lemma property_extent_index_at n p f t e :
  obj_at c i k (O_Value n p (B_Buffer f t e)) → property_extent_index c i = Ok e.
Proof using Hin. intros Hat. unfold property_extent_index. read_obj Hat. by destruct Hat as (_ & _ & (_ & _ & ->) & _). Qed.

Lemma property_format_at n p f t e :
  obj_at c i k (O_Value n p (B_Buffer f t e)) → property_format c i = Ok f.
Proof using Hin. intros Hat. unfold property_format. read_obj Hat. by destruct Hat as (_ & _ & (-> & _) & _). Qed.

Lemma total_length_at o t : obj_at c i k o →
  (∃ n p f e, o = O_Value n p (B_Buffer f t e)) ∨ (∃ n next inl, o = O_String n next t inl) →
  total_length c i = Ok t.
Proof using Hin.
  intros Hat [(n & p & f & e & ->)|(n & next & inl & ->)]; unfold total_length; read_obj Hat.
  - by destruct Hat as (_ & _ & (_ & -> & _) & _).
  - by destruct Hat as (_ & _ & -> & _).
Qed.

Lemma next_extent_at o next : obj_at c i k o →
  (∃ content, o = O_Extent next content) ∨ (∃ n t inl, o = O_String n next t inl) →
  next_extent c i = Ok next.
Proof using Hin.
  intros Hat [(content & ->)|(n & t & inl & ->)]; unfold next_extent; read_obj Hat.
  - by destruct Hat as (-> & _).
  - by destruct Hat as (_ & -> & _).
Qed.

Lemma string_reference_count_at n next t inl :
  obj_at c i k (O_String n next t inl) → string_reference_count c i = Ok n.
Proof using Hin. intros Hat. unfold string_reference_count. read_obj Hat. by destruct Hat as (-> & _). Qed.

Lemma link_content_index_at n p x d :
  obj_at c i k (O_Value n p (B_Link x d)) → link_content_index c i = Ok x.
Proof using Hin. intros Hat. unfold link_content_index. read_obj Hat. by destruct Hat as (_ & _ & (-> & _) & _). Qed.

Lemma link_node_disposition_at n p x d :
  obj_at c i k (O_Value n p (B_Link x d)) → link_node_disposition c i = Ok d.
Proof using Hin. intros Hat. unfold link_node_disposition. read_obj Hat. by destruct Hat as (_ & _ & (_ & ->) & _). Qed.

Lemma payload_size_at : payload_size_for_order k = 16 * 2 ^ k - 8.
Proof using Hin.
  destruct Hin as (_ & Hk & _). unfold payload_size_for_order, order_to_size, HEADER_SIZE_BYTES.
  change MIN_ORDER_SIZE with 16. rewrite Z.shiftl_mul_pow2 by lia. done.
Qed.

(** The contents of an extent are what was written, and what else the block holds. *)
Lemma extent_contents_at next content : obj_at c i k (O_Extent next content) →
  ∃ rest, extent_contents c i = Ok (content ++ rest) ∧ len (content ++ rest) = 16 * 2 ^ k - 8.
Proof using Hin.
  intros Hat. pose proof (order_at _ Hat) as Ho. unfold extent_contents.
  pose proof (block_inside_inside _ _ _ Hin) as Hi. destruct Hat as (? & Ht & Hn & Hl & Hb).
  rewrite (check_type_inside c i Extent) by done. cbn [mbind outcome_bind]. rewrite Ho. cbn [mbind outcome_bind].
  rewrite payload_size_at. destruct Hin as (Hi0 & Hk & Hi1 & Hi2). change (2 ^ 28) with 268435456 in Hi2.
  unfold payload_offset, offset_for_index. change MIN_ORDER_SIZE with 16. change HEADER_SIZE_BYTES with 8.
  pose proof (len_nonneg content). rewrite read_bytes_inside by (unfold u64_size; lia).
  exists (container_byte c <$> seqZ (16 * i + 8 + len content) (16 * 2 ^ k - 8 - len content)).
  rewrite <- Hb at 1. rewrite <- fmap_app, <- seqZ_app by lia.
  replace (len content + (16 * 2 ^ k - 8 - len content)) with (16 * 2 ^ k - 8) by lia.
  split; [do 2 f_equal; f_equal; lia|].
  unfold len. rewrite length_app, length_fmap, length_seqZ. unfold len in *. lia.
Qed.

Lemma inline_string_reference_at n next t inl : obj_at c i k (O_String n next t inl) →
  len inl = Z.min t (16 * 2 ^ k - 12) → inline_string_reference c i = Ok inl.
Proof using Hin.
  intros Hat Hl. pose proof (order_at _ Hat) as Ho.
  pose proof (total_length_at _ t Hat ltac:(right; by repeat eexists)) as Htl. unfold inline_string_reference.
  pose proof (block_inside_inside _ _ _ Hin) as Hi. destruct Hat as (? & Ht & Hn & ? & ? & Hl' & Hb).
  rewrite (check_type_inside c i StringReference) by done. cbn [mbind outcome_bind].
  rewrite Ho. cbn [mbind outcome_bind]. rewrite Htl. cbn [mbind outcome_bind].
  rewrite payload_size_at. destruct Hin as (Hi0 & Hk & Hi1 & Hi2). change (2 ^ 28) with 268435456 in Hi2.
  unfold payload_offset, offset_for_index. change MIN_ORDER_SIZE with 16. change HEADER_SIZE_BYTES with 8.
  change STRING_REFERENCE_TOTAL_LENGTH_BYTES with 4.
  replace (16 * 2 ^ k - 8 - 4) with (16 * 2 ^ k - 12) by lia. rewrite <- Hl. pose proof (len_nonneg inl).
  rewrite read_bytes_inside by (unfold u64_size; lia). f_equal.
  replace (i * 16 + 8 + 4) with (16 * i + 12) by lia. exact Hb.
Qed.

Section arrays.
Context {n p : Z} {en : BlockType} {f : ArrayFormat} {vs : list Z}.
Context (Hat : obj_at c i k (O_Value n p (B_Array en f vs))).

Lemma array_slots_at : array_slots c i = Ok (len vs).
Proof using Hin Hat.
  pose proof Hat as Hat'. unfold array_slots. read_obj Hat'. by destruct Hat' as (_ & _ & (_ & _ & _ & ->) & _).
Qed.

Lemma array_format_at : array_format c i = Ok f.
Proof using Hin Hat.
  pose proof Hat as Hat'. unfold array_format. read_obj Hat'. by destruct Hat' as (_ & _ & (_ & _ & -> & _) & _).
Qed.

Lemma array_entry_type_at : array_entry_type c i = Ok en.
Proof using Hin Hat.
  pose proof Hat as Hat'. unfold array_entry_type. read_obj Hat'.
  destruct Hat' as (_ & _ & (-> & Hn & _) & _). cbn. unfold is_valid_for_array. by rewrite Hn, orb_true_r.
Qed.

Lemma array_element_size_at : array_element_size en = Some 8.
Proof using Hat. destruct Hat as (_ & _ & _ & _ & (_ & Hn & _) & _). unfold array_element_size. by rewrite Hn. Qed.

Lemma array_entry_type_size_at : array_entry_type_size c i = Ok 8.
Proof using Hin Hat.
  unfold array_entry_type_size. rewrite array_entry_type_at. cbn. by rewrite array_element_size_at.
Qed.

Lemma check_array_entry_type_at : check_array_entry_type c i en = Ok tt.
Proof using Hin Hat.
  unfold check_array_entry_type. rewrite array_entry_type_at. cbn. by rewrite bool_decide_true.
Qed.

Lemma check_array_index_at j : j < len vs → check_array_index c i j = Ok tt.
Proof using Hin Hat.
  intros Hj. unfold check_array_index. rewrite array_slots_at. cbn. by rewrite (proj2 (Z.leb_gt _ _)).
Qed.

Lemma index_after_at : index_after (E := FormatError) i = Ok (i + 1).
Proof using Hin.
  destruct Hin as (Hi0 & Hk & Hi1 & Hi2). change (2 ^ 28) with 268435456 in Hi2.
  assert (0 < 2 ^ k) by (apply Z.pow_pos_nonneg; lia). unfold index_after, u32_size.
  by rewrite (proj2 (Z.ltb_lt _ _)) by lia.
Qed.

Lemma array_get_slot_at j v : vs !! j = Some v → array_get_slot en c i (Z.of_nat j) = Ok v.
Proof using Hin Hat.
  intros Hj. pose proof (lookup_lt_Some _ _ _ Hj) as Hlt. unfold array_get_slot.
  rewrite check_array_entry_type_at. cbn [mbind outcome_bind].
  rewrite check_array_index_at by (unfold len; lia). cbn [mbind outcome_bind]. rewrite index_after_at. cbn [mbind outcome_bind].
  destruct Hat as (_ & _ & _ & _ & _ & Hl & Hs). rewrite <- (Hs j v Hj). unfold len in Hl.
  destruct Hin as (Hi0 & Hk & Hi1 & Hi2). change (2 ^ 28) with 268435456 in Hi2.
  unfold offset_for_index. change MIN_ORDER_SIZE with 16.
  rewrite read_bytes_inside by (unfold u64_size; lia). cbn. unfold word.
  do 4 f_equal. lia.
Qed.
End arrays.
End readers.

(** ** Writers *)

Definition bytes_ok (m : Mapping) : Prop := ∀ a, is_u8 (mapping_byte m a).

(** A write inside a block. *)
Record changed (m m' : Mapping) (i k : Z) : Prop := {
  changed_len : mapping_len m' = mapping_len m;
  changed_byte : ∀ a, a < 16 * i ∨ 16 * (i + 2 ^ k) <= a → mapping_byte m' a = mapping_byte m a;
  changed_ok : bytes_ok m';
}.

(** The operation returns [a] on a block that holds [o], and leaves it with [o']. *)
Definition updates {A} (op : st Mapping FormatError A) (i k : Z) (o : obj) (a : A) (o' : obj) : Prop :=
  ∀ m, block_inside m i k → bytes_ok m → obj_at m i k o →
    ∃ m', op m = (m', Ok a) ∧ changed m m' i k ∧ obj_at m' i k o'.

Lemma changed_trans m1 m2 m3 i k : changed m1 m2 i k → changed m2 m3 i k → changed m1 m3 i k.
Proof.
  intros [Hl1 Hb1 _] [Hl2 Hb2 Ho]. split; [congruence| |done]. intros a Ha. by rewrite Hb2, Hb1.
Qed.

Lemma changed_inside m m' i k : changed m m' i k → block_inside m i k → block_inside m' i k.
Proof. intros [Hl _ _]. unfold block_inside. cbn. by rewrite Hl. Qed.

Lemma updates_bind {A B} (op : st Mapping FormatError A) (f : A → st Mapping FormatError B) i k o a o' b o'' :
  updates op i k o a o' → updates (f a) i k o' b o'' → updates (op ≫= f) i k o b o''.
Proof.
  intros H1 H2 m Hin Hok Hat. destruct (H1 m Hin Hok Hat) as (m1 & Hop & Hc & Hat1).
  destruct (H2 m1) as (m2 & Hop2 & Hc2 & Hat2); [by eapply changed_inside|by destruct Hc|done|].
  exists m2. split_and!; [by rewrite (st_bind_Ok _ _ _ _ _ Hop)|by eapply changed_trans|done].
Qed.

Lemma updates_ret {A} (a : A) i k o : updates (mret a) i k o a o.
Proof. intros m Hin Hok Hat. by exists m. Qed.

Lemma updates_reads {A} (f : Mapping → outcome FormatError A) i k o a :
  (∀ m, block_inside m i k → obj_at m i k o → f m = Ok a) → updates (reads f) i k o a o.
Proof. intros Hf m Hin Hok Hat. exists m. unfold reads. rewrite Hf by done. by split_and!. Qed.

Lemma bytes_ok_put m a bs : bytes_ok m → all_u8 bs → bytes_ok (put_bytes m a bs).
Proof.
  intros Hm Hbs x. rewrite put_bytes_byte. destruct (_ && _) eqn:E; [|apply Hm].
  unfold slice_byte. destruct (nth_in_or_default (Z.to_nat (x - a)) bs 0) as [Hin| ->]; [|done].
  eapply Forall_forall in Hbs; [exact Hbs|]. by apply list_elem_of_In.
Qed.

Lemma changed_put_bytes m i k a bs :
  bytes_ok m → all_u8 bs → 16 * i <= a → a + len bs <= 16 * (i + 2 ^ k) → changed m (put_bytes m a bs) i k.
Proof.
  intros Hm Hbs Ha Hl. split; [done| |by apply bytes_ok_put]. intros x Hx. apply put_bytes_byte_other. lia.
Qed.

Section words.
Context {m : Mapping} {i k : Z}.
Context (Hin : block_inside m i k) (Hok : bytes_ok m).

Lemma changed_put_header w : changed m (put_header m i w) i k.
Proof using Hin Hok.
  destruct Hin as (_ & Hk & _). assert (0 < 2 ^ k) by (apply Z.pow_pos_nonneg; lia).
  apply changed_put_bytes; [done|apply to_le_bytes_u8|lia|rewrite len_to_le_bytes; lia].
Qed.

Lemma changed_put_payload w : changed m (put_payload m i w) i k.
Proof using Hin Hok.
  destruct Hin as (_ & Hk & _). assert (0 < 2 ^ k) by (apply Z.pow_pos_nonneg; lia).
  apply changed_put_bytes; [done|apply to_le_bytes_u8|lia|rewrite len_to_le_bytes; lia].
Qed.
End words.

Lemma put_header_bytes_at m i w a bs : 16 * i + 8 <= a → bytes_at m a bs → bytes_at (put_header m i w) a bs.
Proof.
  intros Ha. apply bytes_at_ext. intros d Hd. symmetry. apply put_bytes_byte_other. rewrite len_to_le_bytes. lia.
Qed.

Lemma put_header_body_at m i k w b : body_at m i k b → body_at (put_header m i w) i k b.
Proof.
  intros [Hb Hs]. split; [by rewrite payload_put_header|]. destruct b; try done. destruct Hs as [Hl Hs].
  split; [done|]. intros j v Hj. rewrite <- (Hs j v Hj). apply word_put_other. rewrite len_to_le_bytes. lia.
Qed.

Lemma typ_put_header m i w : typ (put_header m i w) i = BlockType_from_u8 (block_type_bits (w mod 2 ^ 64)).
Proof. unfold typ. by rewrite header_put_header, decide_True. Qed.

Lemma typ_put_payload m i w : typ (put_payload m i w) i = typ m i.
Proof. unfold typ. by rewrite header_put_payload. Qed.

Lemma BlockType_roundtrip t : BlockType_from_u8 (BlockType_to_u8 t) = Some t.
Proof. by destruct t. Qed.

Lemma BlockType_small t : BlockType_to_u8 t mod 2 ^ 8 = BlockType_to_u8 t ∧ BlockType_to_u8 t mod 2 ^ 4 = BlockType_to_u8 t.
Proof. by destruct t. Qed.

(** The words of a block after writes to them. *)
Ltac written :=
  rewrite ?typ_put_payload, ?typ_put_header, ?header_put_payload, ?header_put_header, ?payload_put_payload,
    ?payload_put_header, ?decide_True by done.

(** A reader at the head of a writer. *)
Ltac reading :=
  erewrite st_bind_Ok by
    (unfold block_reads, reads, lift; first
      [ rewrite read_header_inside by done; reflexivity
      | rewrite read_payload_inside by done; reflexivity
      | erewrite check_type_inside by eassumption; reflexivity
      | erewrite check_multi_type_inside by (try eassumption; rewrite !elem_of_cons; cbn; tauto); reflexivity ]).

Lemma check_type_eq_ok i n t : BlockType_from_u8 n = Some t → check_type_eq i n t = Ok tt.
Proof. unfold check_type_eq. intros ->. cbn. by rewrite bool_decide_true. Qed.

(** The header of a value. *)
Definition value_header (k : Z) (t : BlockType) (n p : Z) : Z :=
  set_value_parent_index_bits (set_value_name_index_bits
    (set_block_type_bits (set_order_bits 0 k) (BlockType_to_u8 t)) n) p.

Lemma value_header_fields k t n p : 0 <= k < 16 → 0 <= n < 2 ^ 24 → 0 <= p < 2 ^ 24 →
  order_bits (value_header k t n p mod 2 ^ 64) = k ∧
  BlockType_from_u8 (block_type_bits (value_header k t n p mod 2 ^ 64)) = Some t ∧
  value_name_index_bits (value_header k t n p mod 2 ^ 64) = n ∧
  value_parent_index_bits (value_header k t n p mod 2 ^ 64) = p.
Proof.
  intros Hk Hn Hp. unfold value_header. split_and!; fields; try (by apply Z.mod_small).
  change (15 - 8 + 1) with 8. by rewrite (proj1 (BlockType_small t)), BlockType_roundtrip.
Qed.

Lemma write_value_header_run m i k t n p :
  block_inside m i k → obj_at m i k O_Reserved → is_any_value t = true →
  write_value_header i t n p m = (put_header m i (value_header k t n p), Ok tt).
Proof.
  intros Hin (Ho & Ht & _) Hv. pose proof (block_inside_inside _ _ _ Hin) as Hi.
  unfold write_value_header. rewrite Hv. cbn [negb]. reading.
  erewrite st_bind_Ok by (unfold lift; by rewrite check_type_eq_ok). cbn zeta.
  rewrite write_header_inside by done. by rewrite Ho.
Qed.

(** A value whose payload word is [w]. *)
Lemma put_value_at m i k n p b w :
  0 <= k < 8 → 0 <= n < 2 ^ 24 → 0 <= p < 2 ^ 24 → body_word (w mod 2 ^ 64) b →
  (∀ en f vs, b = B_Array en f vs → slots_at m i k vs) →
  obj_at (put_payload (put_header m i (value_header k (body_type b) n p)) i w) i k (O_Value n p b).
Proof.
  intros Hk Hn Hp Hw Hs. destruct (value_header_fields k (body_type b) n p) as (? & ? & ? & ?); [lia..|].
  unfold obj_at. written. split_and!; [done..|]. unfold body_at. written. split; [done|]. destruct b; try done.
  destruct (Hs _ _ _ eq_refl) as [Hl Hsl]. split; [done|]. intros j v Hj. rewrite <- (Hsl j v Hj).
  unfold put_payload, put_header. rewrite !word_put_other; rewrite ?len_to_le_bytes; lia || done.
Qed.

Section values.
Context {i k n p : Z}.
Context (Hn : 0 <= n < 2 ^ 24) (Hp : 0 <= p < 2 ^ 24).

Lemma become_value_updates t w b (op : st Mapping FormatError unit) :
  t = body_type b → body_word (w mod 2 ^ 64) b → (∀ en f vs, b ≠ B_Array en f vs) →
  (∀ m, inside m i → typ m i = Some t → op m = (put_payload m i w, Ok tt)) →
  updates (_ ← write_value_header i t n p; op) i k O_Reserved tt (O_Value n p b).
Proof using Hn Hp.
  intros -> Hw Hb Hop m Hin Hok Hat. pose proof (block_inside_inside _ _ _ Hin) as Hi. pose proof Hin as (_ & Hk & _).
  eexists. split_and!.
  - erewrite st_bind_Ok by (apply (write_value_header_run m i k); [done..|apply body_type_any_value]).
    apply Hop; [done|]. written. by apply (value_header_fields k (body_type b) n p); lia.
  - pose proof (changed_put_header Hin Hok (value_header k (body_type b) n p)) as Hc.
    eapply changed_trans; [exact Hc|]. apply changed_put_payload; [done|by destruct Hc].
  - apply put_value_at; try done. intros en f vs ->. by destruct (Hb en f vs).
Qed.

Lemma become_node_updates : updates (become_node i n p) i k O_Reserved tt (O_Value n p (B_Node 0)).
Proof using Hn Hp.
  apply (become_value_updates NodeValue 0); [done| |done|]; [cbn; fields; done|].
  intros m Hi _. by apply write_payload_inside.
Qed.

Lemma set_numeric_word v : numeric_value_bits (set_numeric_value_bits 0 v mod 2 ^ 64) = v mod 2 ^ 64.
Proof. by fields. Qed.

Lemma as_i64_mod v : - 2 ^ 63 <= v < 2 ^ 63 → as_i64 (v mod 2 ^ 64) = v.
Proof.
  intros Hv. unfold as_i64, u64_size. destruct (Z.lt_ge_cases v 0).
  - rewrite <- (Z.mod_add v 1), Z.mod_small by lia. destruct (Z.ltb_spec (v + 1 * 2 ^ 64) (2 ^ 63)); lia.
  - rewrite Z.mod_small by lia. destruct (Z.ltb_spec v (2 ^ 63)); lia.
Qed.

Lemma become_int_updates v : - 2 ^ 63 <= v < 2 ^ 63 →
  updates (become_int_value i v n p) i k O_Reserved tt (O_Value n p (B_Int v)).
Proof using Hn Hp.
  intros Hv. eapply (become_value_updates IntValue); [done| |done|].
  2:{ intros m Hi Ht. unfold set_int_value. reading. by rewrite write_payload_inside. }
  cbn [body_word]. rewrite set_numeric_word, from_to_le_bytes. change (256 ^ Z.of_nat 8) with (2 ^ 64).
  rewrite Zmod_mod. by apply as_i64_mod.
Qed.

Lemma become_uint_updates v : is_u64 v →
  updates (become_uint_value i v n p) i k O_Reserved tt (O_Value n p (B_Uint v)).
Proof using Hn Hp.
  intros Hv. eapply (become_value_updates UintValue); [done| |done|].
  2:{ intros m Hi Ht. unfold set_uint_value. reading. by rewrite write_payload_inside. }
  cbn. rewrite set_numeric_word. by apply Z.mod_small.
Qed.

Lemma become_double_updates v :
  updates (become_double_value i v n p) i k O_Reserved tt (O_Value n p (B_Double (v mod 2 ^ 64))).
Proof using Hn Hp.
  eapply (become_value_updates DoubleValue); [done| |done|].
  2:{ intros m Hi Ht. unfold set_double_value. reading. by rewrite write_payload_inside. }
  cbn. by rewrite set_numeric_word.
Qed.

Lemma become_bool_updates v :
  updates (become_bool_value i v n p) i k O_Reserved tt (O_Value n p (B_Bool v)).
Proof using Hn Hp.
  eapply (become_value_updates BoolValue); [done| |done|].
  2:{ intros m Hi Ht. unfold set_bool_value. reading. by rewrite write_payload_inside. }
  cbn. rewrite set_numeric_word. by destruct v.
Qed.

Lemma become_property_updates f :
  updates (become_property i n p f) i k O_Reserved tt (O_Value n p (B_Buffer f 0 0)).
Proof using Hn Hp.
  eapply (become_value_updates BufferValue); [done| |done|].
  2:{ intros m Hi _. by apply write_payload_inside. }
  cbn. split_and!; fields; [by destruct f|done|done].
Qed.

Lemma become_link_updates x d : 0 <= x < 2 ^ 20 →
  updates (become_link i n p x d) i k O_Reserved tt (O_Value n p (B_Link x d)).
Proof using Hn Hp.
  intros Hx. eapply (become_value_updates LinkValue); [done| |done|].
  2:{ intros m Hi _. by apply write_payload_inside. }
  cbn. split; fields; [by apply Z.mod_small|by destruct d].
Qed.
End values.

(** ** Writers of payloads *)

Lemma put_payload_value_at m i k n p b b' w :
  obj_at m i k (O_Value n p b) → body_type b' = body_type b → body_word (w mod 2 ^ 64) b' →
  (∀ en f vs, b' ≠ B_Array en f vs) → obj_at (put_payload m i w) i k (O_Value n p b').
Proof.
  intros (Ho & Ht & Hn & Hp & _) Hb Hw Hna. unfold obj_at. written. cbn in Ht |- *. rewrite Hb.
  split_and!; [done..|]. split; [by written|]. by destruct b'; try destruct (Hna _ _ _ eq_refl).
Qed.

(** An operation that checks the type and writes a payload. *)
Lemma set_payload_updates i k n p b b' w (op : st Mapping FormatError unit) :
  body_type b' = body_type b → (∀ en f vs, b' ≠ B_Array en f vs) →
  (∀ m, block_inside m i k → obj_at m i k (O_Value n p b) →
     op m = (put_payload m i (w (payload m i)), Ok tt) ∧ body_word (w (payload m i) mod 2 ^ 64) b') →
  updates op i k (O_Value n p b) tt (O_Value n p b').
Proof.
  intros Hb Hna Hop m Hin Hok Hat. destruct (Hop m Hin Hat) as [Hrun Hw]. eexists. split_and!; [exact Hrun| |].
  - by apply changed_put_payload.
  - by eapply put_payload_value_at.
Qed.

Section setters.
Context {i k n p : Z}.

Lemma set_int_updates v v' : - 2 ^ 63 <= v' < 2 ^ 63 →
  updates (set_int_value i v') i k (O_Value n p (B_Int v)) tt (O_Value n p (B_Int v')).
Proof.
  intros Hv. eapply (set_payload_updates _ _ _ _ _ _ (λ _, _)); [done..|]. intros m Hin (_ & Ht & _).
  pose proof (block_inside_inside _ _ _ Hin) as Hi.
  split; [unfold set_int_value; reading; by rewrite write_payload_inside|].
  cbn [body_word]. rewrite set_numeric_word, from_to_le_bytes. change (256 ^ Z.of_nat 8) with (2 ^ 64).
  rewrite Zmod_mod. by apply as_i64_mod.
Qed.

Lemma set_uint_updates v v' : is_u64 v' →
  updates (set_uint_value i v') i k (O_Value n p (B_Uint v)) tt (O_Value n p (B_Uint v')).
Proof.
  intros Hv. eapply (set_payload_updates _ _ _ _ _ _ (λ _, _)); [done..|]. intros m Hin (_ & Ht & _).
  pose proof (block_inside_inside _ _ _ Hin) as Hi.
  split; [unfold set_uint_value; reading; by rewrite write_payload_inside|].
  cbn [body_word]. rewrite set_numeric_word. by apply Z.mod_small.
Qed.

Lemma set_double_updates v v' :
  updates (set_double_value i v') i k (O_Value n p (B_Double v)) tt (O_Value n p (B_Double (v' mod 2 ^ 64))).
Proof.
  eapply (set_payload_updates _ _ _ _ _ _ (λ _, _)); [done..|]. intros m Hin (_ & Ht & _).
  pose proof (block_inside_inside _ _ _ Hin) as Hi.
  split; [unfold set_double_value; reading; by rewrite write_payload_inside|].
  cbn [body_word]. by rewrite set_numeric_word.
Qed.

Lemma set_bool_updates v v' :
  updates (set_bool_value i v') i k (O_Value n p (B_Bool v)) tt (O_Value n p (B_Bool v')).
Proof.
  eapply (set_payload_updates _ _ _ _ _ _ (λ _, _)); [done..|]. intros m Hin (_ & Ht & _).
  pose proof (block_inside_inside _ _ _ Hin) as Hi.
  split; [unfold set_bool_value; reading; by rewrite write_payload_inside|].
  cbn [body_word]. rewrite set_numeric_word. by destruct v'.
Qed.

Lemma set_child_count_node_updates c c' : is_u64 c' →
  updates (set_child_count i c') i k (O_Value n p (B_Node c)) tt (O_Value n p (B_Node c')).
Proof.
  intros Hc. eapply (set_payload_updates _ _ _ _ _ _ (λ _, _)); [done..|]. intros m Hin (_ & Ht & _).
  pose proof (block_inside_inside _ _ _ Hin) as Hi.
  split; [unfold set_child_count; reading; by rewrite write_payload_inside|].
  cbn [body_word]. fields. rewrite field_spec by lia. rewrite Z.div_1_r. by apply Z.mod_small.
Qed.

Lemma set_child_count_tombstone_updates c c' : is_u64 c' →
  updates (set_child_count i c') i k (O_Tombstone c) tt (O_Tombstone c').
Proof.
  intros Hc m Hin Hok (Ho & Ht & _). pose proof (block_inside_inside _ _ _ Hin) as Hi. eexists. split_and!.
  - unfold set_child_count. reading. by rewrite write_payload_inside.
  - by apply changed_put_payload.
  - unfold obj_at. written. split_and!; [done..|]. fields. rewrite field_spec by lia. rewrite Z.div_1_r. by apply Z.mod_small.
Qed.

Lemma set_total_length_buffer_updates f t e t' : is_u32 t' →
  updates (set_total_length i t') i k (O_Value n p (B_Buffer f t e)) tt (O_Value n p (B_Buffer f t' e)).
Proof.
  intros Hv. eapply (set_payload_updates _ _ _ _ _ _ (λ w, set_total_length_bits w t')); [done..|].
  intros m Hin (_ & Ht & _ & _ & (Hf & Htl & He) & _). pose proof (block_inside_inside _ _ _ Hin) as Hi.
  split; [unfold set_total_length; do 2 reading; by rewrite write_payload_inside|].
  revert Hf Htl He. cbn [body_word]. fields. intros Hf Htl He. split_and!; [done| |done]. by apply Z.mod_small.
Qed.

Lemma set_property_extent_index_updates f t e e' : 0 <= e' < 2 ^ 28 →
  updates (set_property_extent_index i e') i k (O_Value n p (B_Buffer f t e)) tt (O_Value n p (B_Buffer f t e')).
Proof.
  intros Hv. eapply (set_payload_updates _ _ _ _ _ _ (λ w, set_property_extent_index_bits w e')); [done..|].
  intros m Hin (_ & Ht & _ & _ & (Hf & Htl & He) & _). pose proof (block_inside_inside _ _ _ Hin) as Hi.
  split; [unfold set_property_extent_index; do 2 reading; by rewrite write_payload_inside|].
  revert Hf Htl He. cbn [body_word]. fields. intros Hf Htl He. split_and!; [done|done|]. by apply Z.mod_small.
Qed.

(** ** Writers of headers *)

Lemma set_parent_updates b p' : 0 <= p' < 2 ^ 24 →
  updates (set_parent i p') i k (O_Value n p b) tt (O_Value n p' b).
Proof.
  intros Hp m Hin Hok (Ho & Ht & Hn & _ & Hb). pose proof (block_inside_inside _ _ _ Hin) as Hi. eexists. split_and!.
  - unfold set_parent. erewrite st_bind_Ok.
    2:{ unfold reads. by rewrite (check_any_value_at Hin _ Ht (body_type_any_value b)). }
    reading. by rewrite write_header_inside.
  - by apply changed_put_header.
  - revert Ho Ht Hn. unfold obj_at, typ. written. fields. intros Ho Ht Hn.
    split_and!; [done..| |by apply put_header_body_at]. by apply Z.mod_small.
Qed.

Lemma become_tombstone_updates c :
  updates (become_tombstone i) i k (O_Value n p (B_Node c)) tt (O_Tombstone c).
Proof.
  intros m Hin Hok (Ho & Ht & Hn & _ & Hb & _). pose proof (block_inside_inside _ _ _ Hin) as Hi.
  pose proof Hin as (_ & Hk & _). eexists. split_and!.
  - unfold become_tombstone. reading. erewrite st_bind_Ok by (unfold lift; by rewrite check_type_eq_ok). cbn zeta.
    by rewrite write_header_inside.
  - by apply changed_put_header.
  - cbn in Hb. unfold obj_at. written. rewrite Ho. split_and!; fields; [apply Z.mod_small; lia|done|done].
Qed.

Lemma become_extent_updates next : 0 <= next < 2 ^ 24 →
  updates (become_extent i next) i k O_Reserved tt (O_Extent next []).
Proof.
  intros Hn m Hin Hok (Ho & Ht & _). pose proof (block_inside_inside _ _ _ Hin) as Hi.
  pose proof Hin as (_ & Hk & _). assert (0 < 2 ^ k) by (apply Z.pow_pos_nonneg; lia). eexists. split_and!.
  - unfold become_extent. do 2 reading. cbn zeta. by rewrite write_header_inside.
  - by apply changed_put_header.
  - revert Ho. unfold obj_at. written. fields. intros Ho. split_and!; [done|done|by apply Z.mod_small|change (len []) with 0; lia|done].
Qed.

Lemma set_extent_next_updates next content next' : 0 <= next' < 2 ^ 24 →
  updates (set_extent_next_index i next') i k (O_Extent next content) tt (O_Extent next' content).
Proof.
  intros Hn m Hin Hok (Ho & Ht & _ & Hl & Hb). pose proof (block_inside_inside _ _ _ Hin) as Hi. eexists. split_and!.
  - unfold set_extent_next_index. do 2 reading. by rewrite write_header_inside.
  - by apply changed_put_header.
  - revert Ho Ht. unfold obj_at, typ. written. fields. intros Ho Ht.
    split_and!; [done|done|by apply Z.mod_small|done|]. apply put_header_bytes_at; [lia|done].
Qed.

Lemma set_string_next_updates c next t inl next' : 0 <= next' < 2 ^ 24 →
  updates (set_extent_next_index i next') i k (O_String c next t inl) tt (O_String c next' t inl).
Proof.
  intros Hn m Hin Hok (Ho & Ht & Hc & _ & Htl & Hl & Hb). pose proof (block_inside_inside _ _ _ Hin) as Hi. eexists. split_and!.
  - unfold set_extent_next_index. do 2 reading. by rewrite write_header_inside.
  - by apply changed_put_header.
  - revert Ho Ht Hc. unfold obj_at, typ. written. fields. intros Ho Ht Hc.
    split_and!; [done|done|done|by apply Z.mod_small|done|done|]. apply put_header_bytes_at; [lia|done].
Qed.

Lemma string_count_updates c next t inl c' (op : st Mapping FormatError unit) : 0 <= c' < 2 ^ 24 →
  (∀ m, block_inside m i k → obj_at m i k (O_String c next t inl) →
    op m = (put_header m i (set_string_reference_count_bits (header m i) c'), Ok tt)) →
  updates op i k (O_String c next t inl) tt (O_String c' next t inl).
Proof.
  intros Hc Hop m Hin Hok Hat. eexists. split_and!; [by apply Hop|by apply changed_put_header|].
  destruct Hat as (Ho & Ht & _ & Hn & Htl & Hl & Hb).
  revert Ho Ht Hn. unfold obj_at, typ. written. fields. intros Ho Ht Hn.
  split_and!; [done|done|by apply Z.mod_small|done|done|done|]. apply put_header_bytes_at; [lia|done].
Qed.

Lemma increment_updates c next t inl : 0 <= c → c + 1 < 2 ^ 24 →
  updates (increment_string_reference_count i) i k (O_String c next t inl) tt (O_String (c + 1) next t inl).
Proof.
  intros H0 Hc. apply string_count_updates; [lia|]. intros m Hin (Ho & Ht & Hn & _).
  pose proof (block_inside_inside _ _ _ Hin) as Hi. unfold increment_string_reference_count. do 2 reading. cbn zeta.
  rewrite Hn, (proj2 (Z.leb_gt _ _)) by (unfold u32_size; lia). by rewrite write_header_inside.
Qed.

Lemma decrement_updates c next t inl : 0 < c < 2 ^ 24 →
  updates (decrement_string_reference_count i) i k (O_String c next t inl) tt (O_String (c - 1) next t inl).
Proof.
  intros Hc. apply string_count_updates; [lia|]. intros m Hin (Ho & Ht & Hn & _).
  pose proof (block_inside_inside _ _ _ Hin) as Hi. unfold decrement_string_reference_count. do 2 reading. cbn zeta.
  rewrite Hn, (proj2 (Z.ltb_ge _ _)) by lia. by rewrite write_header_inside.
Qed.
End setters.

(** ** Writers of contents *)

(** As [updates], with an object of which only [P] is known. *)
Definition updates_to {A} (op : st Mapping FormatError A) (i k : Z) (o : obj) (a : A) (P : obj → Prop) : Prop :=
  ∀ m, block_inside m i k → bytes_ok m → obj_at m i k o →
    ∃ m' o', op m = (m', Ok a) ∧ changed m m' i k ∧ obj_at m' i k o' ∧ P o'.

Lemma updates_updates_to {A} (op : st Mapping FormatError A) i k o a o' :
  updates op i k o a o' → updates_to op i k o a (λ x, x = o').
Proof. intros Hu m Hin Hok Hat. destruct (Hu m Hin Hok Hat) as (m' & ? & ? & ?). by exists m', o'. Qed.

Lemma put_bytes_bytes_at m a bs : bytes_at (put_bytes m a bs) a bs.
Proof. apply put_bytes_read. Qed.

Lemma bytes_at_put_other m a bs b src :
  a + len bs <= b ∨ b + len src <= a → bytes_at m a bs → bytes_at (put_bytes m b src) a bs.
Proof. intros Hab. apply bytes_at_ext. intros d Hd. symmetry. apply put_bytes_byte_other. lia. Qed.

Lemma len_take (n : Z) (l : list Z) : 0 <= n → len (take (Z.to_nat n) l) = Z.min n (len l).
Proof. intros Hn. unfold len. rewrite length_take. lia. Qed.

Section contents.
Context {i k : Z}.

Lemma write_extent_updates next value content : all_u8 value →
  updates (extent_set_contents i value) i k (O_Extent next content)
    (Z.min (len value) (16 * 2 ^ k - 8)) (O_Extent next (take (Z.to_nat (16 * 2 ^ k - 8)) value)).
Proof.
  intros Hv m Hin Hok Hat. pose proof (block_inside_inside _ _ _ Hin) as Hi. pose proof (order_at Hin _ Hat) as Hord.
  pose proof (payload_size_at Hin) as Hps. pose proof Hin as (Hi0 & Hk & Hi1 & Hi2). destruct Hat as (Ho & Ht & Hn & _).
  change (2 ^ 28) with 268435456 in Hi2. change (container_len m) with (mapping_len m) in *.
  assert (0 < 2 ^ k) as Hp by (apply Z.pow_pos_nonneg; lia).
  set (bs := take (Z.to_nat (16 * 2 ^ k - 8)) value).
  assert (len bs = Z.min (len value) (16 * 2 ^ k - 8)) as Hbs by (unfold bs; rewrite len_take; lia).
  exists (put_bytes m (16 * i + 8) bs). split_and!.
  - unfold extent_set_contents. reading. erewrite st_bind_Ok by (unfold block_reads, reads; by rewrite Hord).
    rewrite Hps. cbn zeta.
    assert ((if 16 * 2 ^ k - 8 <? len value then take (Z.to_nat (Z.min (len value) (16 * 2 ^ k - 8))) value else value) = bs) as ->.
    { unfold bs. destruct (Z.ltb_spec (16 * 2 ^ k - 8) (len value)); [by rewrite Z.min_r by lia|].
      symmetry. apply take_ge. unfold len in *. lia. }
    unfold write_payload_from_bytes, payload_offset, offset_for_index. change MIN_ORDER_SIZE with 16.
    change HEADER_SIZE_BYTES with 8. replace (i * 16 + 8) with (16 * i + 8) by lia.
    erewrite st_bind_Ok; [by rewrite <- Hbs|].
    erewrite st_bind_Ok; [done|]. apply write_bytes_inside; unfold u64_size; lia.
  - apply changed_put_bytes; [done|by apply Forall_take|lia|lia].
  - unfold obj_at, typ, header. rewrite word_put_other by lia. split_and!; [done|done|done|lia|apply put_bytes_bytes_at].
Qed.

Lemma become_string_reference_updates :
  updates_to (become_string_reference i) i k O_Reserved tt (λ o, ∃ t, o = O_String 0 0 t []).
Proof.
  intros m Hin Hok (Ho & Ht & _). pose proof (block_inside_inside _ _ _ Hin) as Hi. pose proof Hin as (_ & Hk & _).
  assert (1 <= 2 ^ k) as Hp by (apply (Z.pow_le_mono_r 2 0 k); lia).
  eexists _, (O_String 0 0 (total_length_bits (payload m i)) []). split_and!; [| | |by eexists].
  - unfold become_string_reference. do 2 reading. cbn zeta. by rewrite write_header_inside.
  - by apply changed_put_header.
  - unfold obj_at. written. rewrite Ho. split_and!; fields; [apply Z.mod_small; lia|done|done|done|done| |done].
    change (len []) with 0. lia.
Qed.

Lemma slice_to_le_bytes n w j : 0 <= j < Z.of_nat n → slice_byte (to_le_bytes n w) j = (w / 256 ^ j) mod 256.
Proof.
  revert w j. induction n as [|n IH]; intros w j Hj; [lia|]. cbn [to_le_bytes]. unfold slice_byte.
  destruct (Z.eq_dec j 0) as [->|Hne]; [by rewrite Z.div_1_r|].
  replace (Z.to_nat j) with (S (Z.to_nat (j - 1))) by lia. cbn [nth].
  change (slice_byte (to_le_bytes n (w / 256)) (j - 1) = (w / 256 ^ j) mod 256). rewrite IH by lia.
  rewrite Z.div_div by lia. do 2 f_equal. replace j with (Z.succ (j - 1)) at 2 by lia.
  rewrite Z.pow_succ_r by lia. done.
Qed.

Lemma byte_of_word (m : Mapping) a j : bytes_ok m → 0 <= j < 8 → mapping_byte m (a + j) = (word m a / 256 ^ j) mod 256.
Proof.
  intros Hok Hj. rewrite <- (slice_to_le_bytes 8) by lia. unfold word. cbn [container_byte Mapping_container].
  assert (all_u8 (mapping_byte m <$> seqZ a 8)) as Hu.
  { apply Forall_fmap, Forall_forall. intros x _. apply Hok. }
  pose proof (to_from_le_bytes _ Hu) as Hr. rewrite length_fmap, length_seqZ in Hr. change (Z.to_nat 8) with 8%nat in Hr.
  rewrite Hr. unfold slice_byte. symmetry. apply nth_lookup_Some. rewrite list_lookup_fmap, lookup_seqZ_lt by lia.
  cbn. do 2 f_equal. lia.
Qed.

(** Setting the length of a string leaves the inlined bytes of the payload. *)
Lemma put_total_length_byte m v a : bytes_ok m → 16 * i + 12 <= a →
  mapping_byte (put_payload m i (set_total_length_bits (payload m i) v)) a = mapping_byte m a.
Proof.
  intros Hok Ha. destruct (Z.lt_ge_cases a (16 * i + 16)) as [Hlt|Hge].
  2:{ apply put_bytes_byte_other. rewrite len_to_le_bytes. lia. }
  unfold put_payload. rewrite put_bytes_byte, len_to_le_bytes.
  rewrite (proj2 (Z.leb_le _ _)), (proj2 (Z.ltb_lt _ _)) by lia. cbn [andb].
  set (j := a - (16 * i + 8)). replace a with (16 * i + 8 + j) by (unfold j; lia).
  assert (4 <= j < 8) as Hj by (unfold j; lia). clearbody j. rewrite slice_to_le_bytes by lia.
  rewrite (byte_of_word m (16 * i + 8) j) by (done || lia). change (word m (16 * i + 8)) with (payload m i).
  replace (256 ^ j) with (2 ^ (8 * j)) by (rewrite Z.pow_mul_r by lia; done).
  change 256 with (2 ^ (7 + 1)). replace 7 with (8 * j + 7 - 8 * j) by lia.
  rewrite <- !(field_spec 8) by lia. unfold set_total_length_bits. apply field_set_other; lia.
Qed.

Lemma set_total_length_string_updates c next t inl t' : is_u32 t' →
  updates (set_total_length i t') i k (O_String c next t inl) tt (O_String c next t' inl).
Proof.
  intros Hv m Hin Hok (Ho & Ht & Hc & Hn & _ & Hl & Hb). pose proof (block_inside_inside _ _ _ Hin) as Hi. eexists. split_and!.
  - unfold set_total_length. do 2 reading. by rewrite write_payload_inside.
  - by apply changed_put_payload.
  - unfold obj_at. written. split_and!; [done|done|done|done| |done|].
    + fields. by apply Z.mod_small.
    + eapply (bytes_at_ext m); [|exact Hb]. intros d Hd. symmetry. apply put_total_length_byte; [done|lia].
Qed.

Lemma from_le_bytes_app xs ys : from_le_bytes (xs ++ ys) = from_le_bytes xs + 256 ^ len xs * from_le_bytes ys.
Proof.
  induction xs as [|x xs IH]; cbn [app from_le_bytes]; [change (len []) with 0; lia|].
  rewrite IH, len_cons, Z.pow_add_r by (pose proof (len_nonneg xs); lia). lia.
Qed.

Lemma total_length_bytes m : bytes_ok m →
  total_length_bits (payload m i) = from_le_bytes (mapping_byte m <$> seqZ (16 * i + 8) 4).
Proof.
  intros Hok. unfold total_length_bits, payload, word. cbn [container_byte Mapping_container].
  rewrite field_spec, Z.div_1_r by lia. change (31 - 0 + 1) with 32.
  change 8 with (4 + 4) at 2. rewrite seqZ_app, fmap_app, from_le_bytes_app by lia.
  assert (all_u8 (mapping_byte m <$> seqZ (16 * i + 8) 4)) as Hu.
  { apply Forall_fmap, Forall_forall. intros x _. apply Hok. }
  apply from_le_bytes_range in Hu. revert Hu. unfold len. rewrite length_fmap, length_seqZ.
  change (256 ^ Z.of_nat (Z.to_nat 4)) with (2 ^ 32). intros Hu.
  rewrite (Z.mul_comm (2 ^ 32)), Z.mod_add by lia. by apply Z.mod_small.
Qed.

Lemma write_inline_updates c next t inl value : all_u8 value → len value < u32_size →
  updates (write_string_reference_inline i value) i k (O_String c next t inl)
    (Z.min (len value) (16 * 2 ^ k - 12))
    (O_String c next (len value) (take (Z.to_nat (Z.min (len value) (16 * 2 ^ k - 12))) value)).
Proof.
  intros Hv Hlen m Hin Hok Hat. pose proof (len_nonneg value) as Hv0.
  assert (as_u32 (len value) = len value) as Has by (unfold as_u32; rewrite Z.mod_small; lia).
  destruct (set_total_length_string_updates c next t inl (len value) ltac:(split; lia) m Hin Hok Hat) as (m1 & Hrun & Hc & Hat1).
  pose proof (changed_inside _ _ _ _ Hc Hin) as Hin1. pose proof (payload_size_at Hin1) as Hps.
  pose proof (order_at Hin1 _ Hat1) as Hord. pose proof Hin1 as (Hi0 & Hk & Hi1 & Hi2).
  change (2 ^ 28) with 268435456 in Hi2. change (container_len m1) with (mapping_len m1) in *.
  assert (1 <= 2 ^ k) as Hp by (apply (Z.pow_le_mono_r 2 0 k); lia).
  set (bs := take (Z.to_nat (Z.min (len value) (16 * 2 ^ k - 12))) value).
  assert (len bs = Z.min (len value) (16 * 2 ^ k - 12)) as Hbs by (unfold bs; rewrite len_take; lia).
  exists (put_bytes m1 (16 * i + 12) bs). split_and!.
  - unfold write_string_reference_inline. pose proof (block_inside_inside _ _ _ Hin) as Hi. destruct Hat as (_ & Ht & _).
    reading. rewrite Has. erewrite st_bind_Ok by exact Hrun.
    erewrite st_bind_Ok by (unfold block_reads, reads; by rewrite Hord). rewrite Hps. cbn zeta.
    change STRING_REFERENCE_TOTAL_LENGTH_BYTES with 4. replace (16 * 2 ^ k - 8 - 4) with (16 * 2 ^ k - 12) by lia. fold bs.
    unfold payload_offset, offset_for_index. change MIN_ORDER_SIZE with 16. change HEADER_SIZE_BYTES with 8.
    replace (i * 16 + 8 + 4) with (16 * i + 12) by lia. rewrite <- Hbs. apply write_bytes_inside; unfold u64_size; lia.
  - eapply changed_trans; [exact Hc|]. apply changed_put_bytes; [by destruct Hc|by apply Forall_take|lia|lia].
  - destruct Hat1 as (Ho & Ht & Hn & Hnx & Htl & _). unfold obj_at, typ, header. rewrite word_put_other by lia.
    split_and!; [done|done|done|done| |lia|apply put_bytes_bytes_at].
    rewrite <- Htl, !total_length_bytes by (try apply bytes_ok_put; try apply Forall_take; by destruct Hc).
    f_equal. apply list_fmap_ext. intros j x Hx. apply lookup_seqZ in Hx as [-> Hx]. apply put_bytes_byte_other. lia.
Qed.
End contents.

Section arrays.
Context {i k n p : Z} {en : BlockType} {f : ArrayFormat}.

Lemma numeric_array_facts : is_numeric_value en = true →
  check_array_format i en f = Ok tt ∧ array_capacity k en = Some ((order_to_size k - 8 - 8) / 8) ∧
  BlockType_from_u8 (BlockType_to_u8 en mod 2 ^ 4) = Some en.
Proof. by destruct en. Qed.

Lemma become_array_updates slots :
  0 <= n < 2 ^ 24 → 0 <= p < 2 ^ 24 → is_numeric_value en = true →
  0 <= slots < 256 → 16 + 8 * slots <= 16 * 2 ^ k →
  updates_to (become_array_value i slots f en n p) i k O_Reserved tt
    (λ o, ∃ vs, len vs = slots ∧ Forall is_u64 vs ∧ o = O_Value n p (B_Array en f vs)).
Proof.
  intros Hn Hp Hen Hs Hfit m Hin Hok Hat. destruct (numeric_array_facts Hen) as (Hcf & Hcap & Hrt).
  pose proof (block_inside_inside _ _ _ Hin) as Hi. pose proof Hin as (_ & Hk & _).
  pose proof (order_at Hin _ Hat) as Hord.
  set (vs := (λ j, word m (16 * (i + 1) + 8 * j)) <$> seqZ 0 slots).
  assert (len vs = slots) as Hvs by (unfold vs, len; rewrite length_fmap, length_seqZ; lia).
  eexists _, (O_Value n p (B_Array en f vs)). split_and!.
  - unfold become_array_value. erewrite st_bind_Ok by (unfold lift; by rewrite Hcf).
    erewrite st_bind_Ok by (unfold block_reads, reads; by rewrite Hord).
    erewrite st_bind_Ok by (unfold lift; by rewrite Hcap).
    unfold order_to_size. change MIN_ORDER_SIZE with 16. rewrite Z.shiftl_mul_pow2 by lia.
    rewrite (proj2 (Z.ltb_ge _ _)) by (apply Z.div_le_lower_bound; lia).
    erewrite st_bind_Ok by (by apply (write_value_header_run m i k)). cbn zeta.
    rewrite (proj2 (Z.leb_gt _ _)) by (unfold u8_size; lia). by rewrite write_payload_inside.
  - pose proof (changed_put_header Hin Hok (value_header k ArrayValue n p)) as Hc.
    eapply changed_trans; [exact Hc|]. apply changed_put_payload; [done|by destruct Hc].
  - apply (put_value_at m i k n p (B_Array en f vs)); [done..| |].
    + cbn [body_word]. fields. rewrite Hvs. split_and!; [done|done|by destruct f|by apply Z.mod_small].
    + intros ? ? ? [= <- <- <-]. split; [lia|]. intros j v Hj. unfold vs in Hj.
      rewrite list_lookup_fmap in Hj. destruct (seqZ 0 slots !! j) as [x|] eqn:Hx; [|done].
      apply lookup_seqZ in Hx as [-> Hx]. cbn in Hj. by injection Hj as <-.
  - exists vs. split_and!; [done| |done]. apply Forall_fmap, Forall_forall. intros j _.
    assert (all_u8 (mapping_byte m <$> seqZ (16 * (i + 1) + 8 * j) 8)) as Hu.
    { apply Forall_fmap, Forall_forall. intros x _. apply Hok. }
    apply from_le_bytes_range in Hu. revert Hu. unfold len. by rewrite length_fmap, length_seqZ.
Qed.

(** A write into the slots. *)
Lemma put_slots_at m vs a bs vs' : len vs' = len vs →
  obj_at m i k (O_Value n p (B_Array en f vs)) → 16 * (i + 1) <= a →
  (∀ j v, vs' !! j = Some v → word (put_bytes m a bs) (16 * (i + 1) + 8 * Z.of_nat j) = v) →
  obj_at (put_bytes m a bs) i k (O_Value n p (B_Array en f vs')).
Proof.
  intros Hl (Ho & Ht & Hn & Hp & Hb & Hs) Ha Hw. unfold obj_at, typ, header. rewrite word_put_other by lia.
  split_and!; [done..|]. unfold body_at, payload. rewrite word_put_other by lia. split.
  - cbn [body_word] in *. by rewrite Hl.
  - destruct Hs as [Hfit _]. split; [by rewrite Hl|done].
Qed.

Lemma array_set_slot_updates vs j v : (j < length vs)%nat →
  updates (array_set_slot en i (Z.of_nat j) v) i k (O_Value n p (B_Array en f vs)) tt
    (O_Value n p (B_Array en f (<[j := v mod 2 ^ 64]> vs))).
Proof.
  intros Hj m Hin Hok Hat. pose proof (index_after_at Hin) as Hia. pose proof Hin as (Hi0 & Hk & Hi1 & Hi2).
  change (2 ^ 28) with 268435456 in Hi2. change (container_len m) with (mapping_len m) in *.
  pose proof Hat as (_ & _ & _ & _ & _ & Hfit & Hs). unfold len in Hfit.
  exists (put_bytes m (16 * (i + 1) + 8 * Z.of_nat j) (to_le_bytes 8 v)). split_and!.
  - unfold array_set_slot, block_reads.
    erewrite st_bind_Ok by (unfold reads; by rewrite (check_array_entry_type_at Hin Hat)).
    erewrite st_bind_Ok by (unfold reads; rewrite (check_array_index_at Hin Hat) by (unfold len; lia); done).
    erewrite st_bind_Ok by (unfold reads; by rewrite (array_entry_type_size_at Hin Hat)).
    erewrite st_bind_Ok by (unfold lift; by rewrite Hia).
    unfold offset_for_index. change MIN_ORDER_SIZE with 16.
    replace ((i + 1) * 16 + Z.of_nat j * 8) with (16 * (i + 1) + 8 * Z.of_nat j) by lia.
    erewrite st_bind_Ok; [done|]. apply write_bytes_inside; rewrite ?len_to_le_bytes; unfold u64_size; lia.
  - apply changed_put_bytes; [done|apply to_le_bytes_u8|lia|rewrite len_to_le_bytes; lia].
  - apply (put_slots_at m vs); [unfold len; by rewrite length_insert|done|lia|]. intros j' v' Hj'.
    destruct (decide (j = j')) as [<-|Hne].
    + rewrite list_lookup_insert_eq in Hj' by done. injection Hj' as <-. apply word_put_same.
    + rewrite list_lookup_insert_ne in Hj' by done. rewrite <- (Hs j' v' Hj'). apply word_put_other.
      rewrite len_to_le_bytes. lia.
Qed.

Lemma word_zeros (m : Mapping) a x l : a <= x → x + 8 <= a + len l → Forall (λ b, b = 0) l →
  word (put_bytes m a l) x = 0.
Proof.
  intros Hx Hl Hz. unfold word. replace (container_byte (put_bytes m a l) <$> seqZ x 8) with (replicate 8 0); [done|].
  apply list_eq. intros j. rewrite list_lookup_fmap. destruct (decide (j < 8)%nat).
  - rewrite lookup_replicate_2, lookup_seqZ_lt by lia. cbn. rewrite put_bytes_byte.
    rewrite (proj2 (Z.leb_le _ _)), (proj2 (Z.ltb_lt _ _)) by lia. cbn [andb]. f_equal. unfold slice_byte.
    destruct (nth_in_or_default (Z.to_nat (x + Z.of_nat j - a)) l 0) as [Hin| ->]; [|done].
    symmetry. eapply Forall_forall in Hz; [exact Hz|]. by apply list_elem_of_In.
  - rewrite lookup_seqZ_ge by lia. apply lookup_replicate_None. lia.
Qed.

Lemma array_clear_updates vs start : (start <= length vs)%nat →
  updates (array_clear i (Z.of_nat start)) i k (O_Value n p (B_Array en f vs)) tt
    (O_Value n p (B_Array en f (take start vs ++ replicate (length vs - start) 0))).
Proof.
  intros Hst m Hin Hok Hat. pose proof (index_after_at Hin) as Hia. pose proof Hin as (Hi0 & Hk & Hi1 & Hi2).
  change (2 ^ 28) with 268435456 in Hi2. change (container_len m) with (mapping_len m) in *.
  pose proof Hat as (_ & _ & _ & _ & _ & Hfit & Hs). unfold len in Hfit.
  set (zs := replicate (Z.to_nat ((len vs - Z.of_nat start) * 8)) 0).
  assert (len zs = 8 * (Z.of_nat (length vs) - Z.of_nat start)) as Hzs.
  { unfold zs, len. rewrite length_replicate. lia. }
  exists (put_bytes m (16 * (i + 1) + 8 * Z.of_nat start) zs). split_and!.
  - unfold array_clear, block_reads. erewrite st_bind_Ok by (unfold reads; by rewrite (array_slots_at Hin Hat)).
    rewrite (proj2 (Z.ltb_ge _ _)) by (unfold len; lia). cbn zeta.
    erewrite st_bind_Ok by (unfold reads; by rewrite (array_entry_type_size_at Hin Hat)).
    erewrite st_bind_Ok by (unfold lift; by rewrite Hia).
    unfold offset_for_index. change MIN_ORDER_SIZE with 16.
    replace ((i + 1) * 16 + Z.of_nat start * 8) with (16 * (i + 1) + 8 * Z.of_nat start) by lia. fold zs.
    erewrite st_bind_Ok; [done|]. apply write_bytes_inside; unfold u64_size; lia.
  - apply changed_put_bytes; [done| |lia|lia]. apply Forall_replicate. done.
  - apply (put_slots_at m vs); [unfold len; rewrite length_app, length_take, length_replicate; lia|done|lia|].
    intros j v Hj. destruct (decide (j < start)%nat) as [Hlt|Hge].
    + rewrite lookup_app_l, lookup_take_lt in Hj by (rewrite ?length_take; lia). rewrite <- (Hs j v Hj).
      apply word_put_other. lia.
    + rewrite lookup_app_r in Hj by (rewrite length_take; lia). apply lookup_replicate in Hj as [-> Hj].
      rewrite length_take in Hj. apply word_zeros; [lia|lia|]. by apply Forall_replicate.
Qed.
End arrays.

(** ** The header *)

Lemma become_header_updates : updates (become_header 0) 0 0 O_Reserved 0 (O_Header 0).
Proof.
  intros m Hin Hok (Ho & Ht & _). pose proof (block_inside_inside _ _ _ Hin) as Hi. eexists. split_and!.
  - unfold become_header. reading. cbn zeta. erewrite st_bind_Ok; [done|]. unfold write.
    erewrite st_bind_Ok by (by rewrite write_header_inside). by rewrite write_payload_inside.
  - set (w := set_header_version_bits _ _). pose proof (changed_put_header Hin Hok w) as Hc.
    eapply changed_trans; [exact Hc|]. apply changed_put_payload; [done|by destruct Hc].
  - unfold obj_at. written. split_and!; fields; done.
Qed.

Definition next_generation (g : Z) : Z := if g =? u64_size - 1 then 0 else g + 1.

Lemma next_generation_even g : Z.even (next_generation g) = negb (Z.even g).
Proof.
  unfold next_generation. destruct (Z.eqb_spec g (u64_size - 1)) as [->|_]; [done|].
  rewrite Z.even_add. by destruct (Z.even g).
Qed.

Lemma land_1_even g : (Z.land g 1 =? 1) = negb (Z.even g).
Proof.
  change 1 with (Z.ones 1). rewrite Z.land_ones by lia. change (2 ^ 1) with 2. rewrite Zmod_even.
  by destruct (Z.even g).
Qed.

Section generation.
Context {i k : Z}.

(** The check of the lock and the count, whatever the header was. *)
Lemma generation_updates g b : negb (Z.even g) = b →
  updates (_ ← reads (λ m, check_type m i Header); _ ← reads (λ m, check_locked m i b); increment_generation_count i)
    i k (O_Header g) tt (O_Header (next_generation g)).
Proof.
  intros Hb m Hin Hok (Ho & Ht & Hm & Hv & Hg). pose proof (block_inside_inside _ _ _ Hin) as Hi.
  assert (0 <= g < 2 ^ 64) as Hr.
  { rewrite <- Hg. unfold header_generation_count_bits. rewrite field_spec by lia. apply Z.mod_pos_bound. lia. }
  eexists. split_and!.
  - reading. erewrite st_bind_Ok.
    2:{ unfold reads, check_locked. rewrite read_payload_inside by done. cbn. by rewrite Hg, land_1_even, Hb, Bool.eqb_reflx. }
    unfold increment_generation_count. reading. cbn zeta. rewrite Hg. by rewrite write_payload_inside.
  - by apply changed_put_payload.
  - unfold obj_at. written. split_and!; [done..|]. fold (next_generation g).
    assert (0 <= next_generation g < 2 ^ 64).
    { unfold next_generation, u64_size. destruct (Z.eqb_spec g (2 ^ 64 - 1)); lia. }
    unfold header_generation_count_bits, set_header_generation_count_bits. fields. rewrite ?field_set by lia. by apply Z.mod_small.
Qed.

Lemma lock_updates g : Z.even g = true → updates (lock_header i) i k (O_Header g) tt (O_Header (next_generation g)).
Proof. intros Hg. apply generation_updates. by rewrite Hg. Qed.

Lemma unlock_updates g : Z.even g = false → updates (unlock_header i) i k (O_Header g) tt (O_Header (next_generation g)).
Proof. intros Hg. apply generation_updates. by rewrite Hg. Qed.
End generation.
