(* ===== verification/InspectTyped.v ===== *)
(** A heap whose blocks in use hold objects ([typed]), and the rules by which the
    operations of [InspectState] act on it: allocating adds a reserved block, freeing
    removes one, and the writers of a block change its object. *)
From Stdlib Require Import ZArith Lia.
From stdpp Require Import base gmap strings list.
From S2P Require Import Prelude StateError InspectFormat InspectBlock InspectMemory.
From S2P Require Import InspectBuddy InspectHeap InspectHeapCorrect InspectHeapSafety.
From S2P Require Import InspectHeapSafety InspectState InspectObjects.
Local Open Scope Z_scope.

(** ** The bytes stay bytes *)

Definition heap_bytes_ok (h : Heap) : Prop := bytes_ok (mapping h).

Lemma keeps_on_block {A} (m : st Mapping FormatError A) :
  keeps bytes_ok m → keeps heap_bytes_ok (on_block m).
Proof. intros Hm. apply keeps_zoom. intros h Hh. apply Hm, Hh. Qed.

Lemma keeps_unwrap_heap {A} (m : st Heap Error A) :
  keeps heap_bytes_ok m → keeps heap_bytes_ok (unwrap m : st Heap Error A).
Proof. apply keeps_unwrap. Qed.

Lemma keeps_write_header i w : keeps bytes_ok (write_header i w).
Proof.
  unfold write_header. keep. intros m Hm. unfold write_bytes, write_at.
  destruct (overlap _ _ _); [|done]. cbn [fst]. apply (bytes_ok_put m); [done|]. apply Forall_take, to_le_bytes_u8.
Qed.

#[export] Hint Resolve keeps_on_block keeps_unwrap_heap keeps_write_header : keeps.

Lemma keeps_new_free i k j : keeps heap_bytes_ok (on_block (new_free i k j)).
Proof. apply keeps_on_block. unfold new_free, block_reads. keep. Qed.
Lemma keeps_set_order i k : keeps heap_bytes_ok (on_block (set_order i k)).
Proof. apply keeps_on_block. unfold set_order, block_reads. keep. Qed.
Lemma keeps_become_free i j : keeps heap_bytes_ok (on_block (become_free i j)).
Proof. apply keeps_on_block. unfold become_free, block_reads. keep. Qed.
Lemma keeps_set_free_next_index i j : keeps heap_bytes_ok (on_block (set_free_next_index i j)).
Proof. apply keeps_on_block. unfold set_free_next_index, block_reads. keep. Qed.
Lemma keeps_become_reserved i : keeps heap_bytes_ok (on_block (become_reserved i)).
Proof. apply keeps_on_block. unfold become_reserved, block_reads. keep. Qed.
Lemma keeps_reads_block {A} (f : Mapping → outcome FormatError A) : keeps heap_bytes_ok (on_block (reads f)).
Proof. apply keeps_on_block. by apply keeps_same. Qed.
#[export] Hint Resolve keeps_new_free keeps_set_order keeps_become_free keeps_set_free_next_index keeps_become_reserved keeps_reads_block : keeps.

Ltac keep_heap :=
  unfold block_reads;
  repeat first
    [ progress keep
    | apply keeps_unwrap_heap
    | apply keeps_modify; intros ? ?; assumption ].

Lemma keeps_set_free_head o i : keeps heap_bytes_ok (set_free_head o i).
Proof. unfold set_free_head. keep_heap. Qed.
#[export] Hint Resolve keeps_set_free_head : keeps.

Lemma keeps_free_head o : keeps heap_bytes_ok (free_head o).
Proof. by apply keeps_same. Qed.
#[export] Hint Resolve keeps_free_head : keeps.

Lemma keeps_remove_free_loop fuel o i n : keeps heap_bytes_ok (remove_free_loop fuel o i n).
Proof. revert n. induction fuel as [|fuel IH]; intros n; cbn [remove_free_loop]; keep_heap. Qed.
#[export] Hint Resolve keeps_remove_free_loop : keeps.

Lemma keeps_remove_free i : keeps heap_bytes_ok (remove_free i).
Proof. unfold remove_free. keep_heap. Qed.
#[export] Hint Resolve keeps_remove_free : keeps.

Lemma keeps_split_block i : keeps heap_bytes_ok (split_block i).
Proof. unfold split_block. keep_heap. Qed.
#[export] Hint Resolve keeps_split_block : keeps.

Lemma keeps_split_loop fuel i o : keeps heap_bytes_ok (split_loop fuel i o).
Proof. induction fuel as [|fuel IH]; cbn [split_loop]; keep_heap. Qed.
#[export] Hint Resolve keeps_split_loop : keeps.

Lemma keeps_grow_loop fuel a b c : keeps heap_bytes_ok (grow_loop fuel a b c).
Proof. revert b c. induction fuel as [|fuel IH]; intros b c; cbn [grow_loop]; keep_heap. Qed.
#[export] Hint Resolve keeps_grow_loop : keeps.

Lemma keeps_grow_heap n : keeps heap_bytes_ok (grow_heap n).
Proof. unfold grow_heap. keep_heap. Qed.
#[export] Hint Resolve keeps_grow_heap : keeps.

Lemma keeps_allocate_block n : keeps heap_bytes_ok (allocate_block n).
Proof. unfold allocate_block. keep_heap. Qed.

Lemma keeps_merge_buddies a b : keeps heap_bytes_ok (merge_buddies a b).
Proof. unfold merge_buddies. keep_heap. Qed.
#[export] Hint Resolve keeps_merge_buddies : keeps.

Lemma keeps_merge_loop fuel a b : keeps heap_bytes_ok (merge_loop fuel a b).
Proof. revert a b. induction fuel as [|fuel IH]; intros a b; cbn [merge_loop]; keep_heap. Qed.
#[export] Hint Resolve keeps_merge_loop : keeps.

Lemma keeps_free_block i : keeps heap_bytes_ok (free_block i).
Proof. unfold free_block. keep_heap. Qed.

(** ** Typed heaps *)

Abbreviation objects := (gmap Z (Z * obj)).

Record typed (h : Heap) (T : objects) : Prop := {
  typed_heap : heap_inv h (fst <$> T);
  typed_obj : ∀ i k o, T !! i = Some (k, o) → obj_at (mapping h) i k o;
  typed_bytes : bytes_ok (mapping h);
}.

Lemma heap_inv_block h U i k : heap_inv h U → U !! i = Some k →
  block_inside (mapping h) i k ∧ 16 * (i + 2 ^ k) <= current_size_bytes h.
Proof.
  intros (N & B & L & [Hsz HC] & HB & _ & _ & _ & <-) Hi%used_lookup.
  destruct (core_block _ _ _ _ _ HC _ _ _ Hi) as (Hk & H0 & HiN). destruct (core_len _ _ _ _ _ HC) as (_ & ? & ?).
  unfold block_inside. cbn. split_and!; lia.
Qed.

Lemma heap_inv_disjoint h U i k j k' : heap_inv h U → U !! i = Some k → U !! j = Some k' → i < j → i + 2 ^ k <= j.
Proof. intros (N & B & L & _ & HB & _ & _ & _ & <-) Hi%used_lookup Hj%used_lookup. by eapply tile_disjoint. Qed.

Lemma heap_inv_get_block h U i k : heap_inv h U → U !! i = Some k → get_block h i = Ok i.
Proof. intros (N & B & L & HC & HB & _ & _ & _ & <-) Hi%used_lookup. by eapply get_block_run. Qed.

Section typed.
Context {h : Heap} {T : objects}.
Context (HT : typed h T).

Lemma typed_lookup i k o : T !! i = Some (k, o) → (fst <$> T) !! i = Some k.
Proof using. intros Hi. by rewrite lookup_fmap, Hi. Qed.

Lemma typed_inside i k o : T !! i = Some (k, o) → block_inside (mapping h) i k.
Proof using HT. intros Hi. eapply heap_inv_block; [apply (typed_heap _ _ HT)|by eapply typed_lookup]. Qed.

Lemma typed_index i k o : T !! i = Some (k, o) → 0 <= i < 2 ^ 24.
Proof using HT.
  intros (H0 & Hk & H1 & H2)%typed_inside. change (2 ^ 28) with (16 * 2 ^ 24) in H2.
  assert (0 < 2 ^ k) by (apply Z.pow_pos_nonneg; lia). lia.
Qed.

Lemma typed_disjoint i k o j k' o' : T !! i = Some (k, o) → T !! j = Some (k', o') → i ≠ j →
  i + 2 ^ k <= j ∨ j + 2 ^ k' <= i.
Proof using HT.
  intros Hi%typed_lookup Hj%typed_lookup Hne. destruct (Z.lt_total i j) as [Hl|[|Hl]]; [left|done|right].
  - by eapply heap_inv_disjoint; [apply (typed_heap _ _ HT)|..].
  - by eapply heap_inv_disjoint; [apply (typed_heap _ _ HT)|..].
Qed.

Lemma typed_get_block i k o : T !! i = Some (k, o) → get_block h i = Ok i.
Proof using HT. intros Hi. eapply heap_inv_get_block; [apply (typed_heap _ _ HT)|by eapply typed_lookup]. Qed.

(** There are fewer blocks than units. *)
Lemma typed_fuel : Z.of_nat (size T) <= current_size_bytes h / 16 ∧ Z.of_nat (size T) <= 2 ^ 24.
Proof using HT.
  set (n := current_size_bytes h / 16).
  assert (∀ i, i ∈ dom T → i ∈ (list_to_set (seqZ 0 n) : gset Z)) as Hsub.
  { intros i [[k o] Hi]%elem_of_dom. apply elem_of_list_to_set, elem_of_seqZ.
    destruct (heap_inv_block h _ i k (typed_heap _ _ HT) (typed_lookup _ _ _ Hi)) as [(H0 & Hk & _) Hle].
    assert (1 <= 2 ^ k) by (apply (Z.pow_le_mono_r 2 0 k); lia).
    split; [done|]. unfold n. apply Z.lt_le_trans with (i + 1); [lia|].
    rewrite Z.add_0_l. apply Z.div_le_lower_bound; lia. }
  assert (Z.of_nat (size T) <= n) as Hn.
  { rewrite <- size_dom. apply subseteq_size in Hsub. rewrite size_list_to_set in Hsub by apply NoDup_seqZ.
    rewrite length_seqZ in Hsub. assert (0 <= n); [|lia]. unfold n.
    destruct (typed_heap _ _ HT) as (N & B & L & [-> HC] & _). destruct (core_len _ _ _ _ _ HC) as (? & _).
    apply Z.div_pos; lia. }
  split; [done|]. apply (Z.le_trans _ n); [done|]. unfold n.
  destruct (typed_heap _ _ HT) as (N & B & L & [-> HC] & _). destruct (core_len _ _ _ _ _ HC) as (? & ? & Hm).
  change (2 ^ 28) with (16 * 2 ^ 24) in Hm. rewrite Z.mul_comm, Z.div_mul by lia. lia.
Qed.

(** Blocks whose bytes are kept keep their objects. *)
Lemma typed_kept m' (T' : objects) i k o :
  T !! i = Some (k, o) → T' !! i = Some (k, o) → kept (fst <$> T') (mapping h) m' → obj_at m' i k o.
Proof using HT.
  intros Hi Hi' [_ Hb]. pose proof (typed_inside _ _ _ Hi) as (H0 & Hk & _).
  apply (obj_at_ext (mapping h)); [lia| |by apply (typed_obj _ _ HT)]. intros a Ha. symmetry. apply Hb.
  intros Hout. destruct (Hout i k) as [Hlt|Hge]; [by rewrite lookup_fmap, Hi'|..].
  - apply Z.lt_nge in Hlt. apply Hlt, Z.div_le_lower_bound; lia.
  - assert (a / 16 < i + 2 ^ k) by (apply Z.div_lt_upper_bound; lia). lia.
Qed.

Lemma typed_allocated h' i k : allocated (fst <$> T) h h' k i → bytes_ok (mapping h') →
  T !! i = None ∧ typed h' (<[i := (k, O_Reserved)]> T).
Proof using HT.
  intros [Hnew Hinv Ht Hkept _ _] Hok.
  assert (T !! i = None) as Hn by (rewrite lookup_fmap in Hnew; by destruct (T !! i)).
  split; [done|]. split; [by rewrite fmap_insert| |done].
  intros j k' o Hj. destruct (decide (i = j)) as [<-|Hne].
  - rewrite lookup_insert_eq in Hj. injection Hj as <- <-. split_and!; [|done|done].
    destruct Hinv as (N & B & L & [_ HC] & _ & _ & _ & _ & Hus).
    assert (B !! i = Some (k, false)) as Hi by (apply used_lookup; by rewrite Hus, lookup_insert_eq).
    by apply (core_header _ _ _ _ _ HC) in Hi as [? _].
  - rewrite lookup_insert_ne in Hj by done. by eapply typed_kept.
Qed.

Lemma typed_freed h' i : freed (fst <$> T) h h' i → bytes_ok (mapping h') → typed h' (delete i T).
Proof using HT.
  intros [Hinv Hkept _ _] Hok. split; [by rewrite fmap_delete| |done]. intros j k o Hj.
  pose proof Hj as [_ Hj']%lookup_delete_Some. eapply (typed_kept _ (delete i T)); [done|done|].
  by rewrite fmap_delete.
Qed.

Lemma typed_changed m' i k o o' : T !! i = Some (k, o) → changed (mapping h) m' i k → obj_at m' i k o' →
  typed (set_mapping m' h) (<[i := (k, o')]> T).
Proof using HT.
  intros Hi [Hlen Hb Hok] Hat. pose proof (typed_inside _ _ _ Hi) as (H0 & Hk & _).
  assert (∀ j k' o'', T !! j = Some (k', o'') → j ≠ i → obj_at m' j k' o'') as Hother.
  { intros j k' o'' Hj Hne. pose proof (typed_inside _ _ _ Hj) as (Hj0 & Hk' & _).
    apply (obj_at_ext (mapping h)); [lia| |by apply (typed_obj _ _ HT)]. intros a Ha. symmetry. apply Hb.
    destruct (typed_disjoint _ _ _ _ _ _ Hi Hj ltac:(done)); lia. }
  assert ((fst <$> <[i := (k, o')]> T) = (fst <$> T : gmap Z Z)) as Hfst.
  { rewrite fmap_insert. apply insert_id. by eapply typed_lookup. }
  split; [|intros j k' o'' Hj|done].
  - rewrite Hfst. apply heap_inv_client; [by apply (typed_heap _ _ HT)|]. split; [done| |].
    + intros a Hout. apply Hb. destruct (Hout i k) as [Hlt|Hge]; [by eapply typed_lookup|..].
      * left. pose proof (Z.div_mod a 16 ltac:(lia)). pose proof (Z.mod_pos_bound a 16 ltac:(lia)). lia.
      * right. pose proof (Z.div_mod a 16 ltac:(lia)). pose proof (Z.mod_pos_bound a 16 ltac:(lia)). lia.
    + intros j k' Hj. rewrite lookup_fmap in Hj. destruct (T !! j) as [[k'' o'']|] eqn:E; [|done]. injection Hj as ->.
      destruct (decide (j = i)) as [->|Hne].
      * rewrite Hi in E. injection E as -> ->. destruct Hat as (? & ? & _). split; [done|]. eexists. split; [done|].
        by destruct o' as [| | |? ? []| |].
      * destruct (Hother _ _ _ E Hne) as (? & ? & _). split; [done|]. eexists. split; [done|].
        by destruct o'' as [| | |? ? []| |].
  - destruct (decide (i = j)) as [<-|Hne].
    + rewrite lookup_insert_eq in Hj. by injection Hj as <- <-.
    + rewrite lookup_insert_ne in Hj by done. by apply Hother.
Qed.
End typed.

(** ** Rules *)

(** The operations of [InspectState] leave the other fields of the state: their final
    states are [set_heap h' s]. *)
Lemma set_heap_id s : set_heap (heap s) s = s.
Proof. by destruct s. Qed.

Lemma set_mapping_id h : set_mapping (mapping h) h = h.
Proof. by destruct h. Qed.

Section rules.
Context {s : InnerState} {T : objects}.
Context (HT : typed (heap s) T).

Lemma wp_allocate n (Q : Z → InnerState → Prop) R :
  0 < n →
  (∀ h' i k, T !! i = None → 0 <= k < 8 → n <= 16 * 2 ^ k → (k = 0 ∨ 16 * 2 ^ (k - 1) < n) →
     typed h' (<[i := (k, O_Reserved)]> T) → Q i (set_heap h' s)) →
  (∀ e h', typed h' T → R e (set_heap h' s)) →
  wp (on_heap (allocate_block n)) s Q R.
Proof using HT.
  intros Hn HQ HR. apply wp_zoom.
  pose proof (keeps_allocate_block n (heap s) (typed_bytes _ _ HT)) as Hok.
  pose proof (allocate_block_wp _ _ n (typed_heap _ _ HT) Hn) as Hwp. unfold wp in *.
  destruct (allocate_block n (heap s)) as [h' [i|e|]]; [| |done].
  - destruct Hwp as (k & Hk & Hle & Hmin & Hal). cbn [fst] in Hok.
    destruct (typed_allocated HT _ _ _ Hal Hok). by eapply HQ.
  - apply HR. destruct Hwp as [(_ & _ & ->)|(_ & -> & _)]; [done|]. destruct HT as [H1 H2 H3]. by split.
Qed.

Lemma wp_free i k o (Q : unit → InnerState → Prop) R :
  T !! i = Some (k, o) →
  (∀ h', typed h' (delete i T) → Q tt (set_heap h' s)) →
  wp (on_heap (free_block i)) s Q R.
Proof using HT.
  intros Hi HQ. apply wp_zoom.
  pose proof (keeps_free_block i (heap s) (typed_bytes _ _ HT)) as Hok.
  pose proof (free_block_wp _ _ i k (typed_heap _ _ HT) (typed_lookup _ _ _ Hi)) as Hwp. unfold wp in *.
  destruct (free_block i (heap s)) as [h' [[]|e|]]; [|done|done]. cbn [fst] in Hok. by apply HQ, (typed_freed HT).
Qed.

Lemma wp_update_to {A} (op : st Mapping FormatError A) i k o a P (Q : A → InnerState → Prop) R :
  T !! i = Some (k, o) → updates_to op i k o a P →
  (∀ h' o', P o' → typed h' (<[i := (k, o')]> T) → Q a (set_heap h' s)) →
  wp (on_blk op) s Q R.
Proof using HT.
  intros Hi Hu HQ. apply wp_zoom, wp_zoom.
  destruct (Hu (mapping (heap s))) as (m' & o' & Hop & Hc & Hat & HP);
    [by eapply typed_inside|by apply HT|by apply HT|].
  eapply wp_run; [exact Hop|]. eapply HQ; [exact HP|]. by eapply typed_changed.
Qed.

Lemma wp_update {A} (op : st Mapping FormatError A) i k o a o' (Q : A → InnerState → Prop) R :
  T !! i = Some (k, o) → updates op i k o a o' →
  (∀ h', typed h' (<[i := (k, o')]> T) → Q a (set_heap h' s)) →
  wp (on_blk op) s Q R.
Proof using HT.
  intros Hi Hu%updates_updates_to HQ. eapply wp_update_to; [done..|]. intros h' ? ->. by apply HQ.
Qed.

(** A reader of a block. *)
Lemma wp_blk {A} (f : Mapping → Z → outcome FormatError A) i k o a (Q : A → InnerState → Prop) R :
  T !! i = Some (k, o) → (∀ m : Mapping, block_inside m i k → obj_at m i k o → f m i = Ok a) →
  Q a s → wp (blk f i) s Q R.
Proof using HT.
  intros Hi Hf HQ. apply wp_zoom, wp_zoom. unfold block_reads.
  eapply wp_reads; [apply Hf; [by eapply typed_inside|by apply HT]|].
  by rewrite set_mapping_id, set_heap_id.
Qed.

Lemma wp_blk_get {A} (f : Mapping → Z → outcome FormatError A) i k o a (Q : A → InnerState → Prop) R :
  T !! i = Some (k, o) → (∀ m : Mapping, block_inside m i k → obj_at m i k o → f m i = Ok a) →
  Q a s → wp (blk_get f i) s Q R.
Proof using HT.
  intros Hi Hf HQ. eapply wp_reads; [|exact HQ]. unfold block_get. rewrite Hf; [done|by eapply typed_inside|by apply HT].
Qed.

Lemma wp_heap_block i k o (Q : Z → InnerState → Prop) R :
  T !! i = Some (k, o) → Q i s → wp (heap_block i) s Q R.
Proof using HT. intros Hi HQ. eapply wp_reads; [by eapply typed_get_block|done]. Qed.
End rules.
