(* ===== verification/InspectExtents.v ===== *)
(** Chains of extents and the operations that write and free them; string references, which
    are shared strings with a count of their users. *)
From Stdlib Require Import ZArith Lia.
From stdpp Require Import base gmap strings list.
From S2P Require Import Prelude StateError InspectFormat InspectBlock InspectHeap InspectState InspectMemory.
From S2P Require Import InspectObjects InspectTyped.
Local Open Scope Z_scope.

(** The chain of extents [l] from [first] holds the bytes [content]; all extents but the
    last are full. *)
Inductive extents (T : objects) : Z → list Z → list Z → Prop :=
| extents_nil : extents T 0 [] []
| extents_cons x k next c l rest :
    x ≠ 0 → T !! x = Some (k, O_Extent next c) → c ≠ [] → (rest = [] ∨ len c = 16 * 2 ^ k - 8) →
    extents T next l rest → extents T x (x :: l) (c ++ rest).

Lemma extents_agree T T' n l c : (∀ y, y ∈ l → T' !! y = T !! y) → extents T n l c → extents T' n l c.
Proof.
  intros Hag Hx. induction Hx as [|x k nx c l rest Hx0 Hx Hc Hfull Hx' IH]; [constructor|].
  econstructor; [done| |done|done|].
  - rewrite Hag by left. exact Hx.
  - apply IH. intros y Hy. apply Hag. by right.
Qed.

Lemma extents_lookup T n l c y : extents T n l c → y ∈ l → ∃ k nx d, T !! y = Some (k, O_Extent nx d).
Proof.
  induction 1 as [|x k nx c l rest Hx0 Hx Hc Hfull Hx' IH]; [by intros ?%elem_of_nil|].
  intros [->|Hy]%elem_of_cons; [by eauto|by apply IH].
Qed.

Lemma extents_head T n l c : extents T n l c → (n = 0 ∧ l = [] ∧ c = []) ∨ (n ≠ 0 ∧ l ≠ [] ∧ c ≠ []).
Proof. destruct 1; [by left|right]. split_and!; [done|done|]. by destruct c. Qed.

Lemma extents_0 T l c : extents T 0 l c → l = [] ∧ c = [].
Proof. intros [(_ & -> & ->)|(H & _)]%extents_head; [done|congruence]. Qed.

Lemma extents_subset T T' n l c : T ⊆ T' → extents T n l c → extents T' n l c.
Proof.
  intros Hsub Hx. apply (extents_agree T); [|done]. intros y Hy.
  destruct (extents_lookup _ _ _ _ _ Hx Hy) as (k & nx & d & Hl). rewrite Hl. by eapply lookup_weaken.
Qed.

Lemma block_size_pos n : 0 < block_size_for_payload n.
Proof.
  unfold block_size_for_payload. change MAX_ORDER_SIZE with 2048. change MIN_ORDER_SIZE with 16. lia.
Qed.

(** ** Writing *)

(** No value of [T'] is new. *)
Definition no_new_value (T T' : objects) : Prop :=
  ∀ y k n p b, T' !! y = Some (k, O_Value n p b) → T !! y = Some (k, O_Value n p b).

Lemma no_new_value_insert T y k o : (∀ n p b, o ≠ O_Value n p b) → no_new_value T (<[y := (k, o)]> T).
Proof. by intros Ho z k' n p b [[<- [= -> ->]]|[_ Hz]]%lookup_insert_Some; [destruct (Ho n p b)|]. Qed.

#[export] Instance no_new_value_refl : Reflexive no_new_value.
Proof. by intros T y k n p b. Qed.

#[export] Instance no_new_value_trans : Transitive no_new_value.
Proof. intros T T' T'' H H' y k n p b Hy. by apply H, H'. Qed.

Lemma write_extents_loop_wp fuel s T x k value (Q : unit → InnerState → Prop) R :
  typed (heap s) T → is_Some (T !! 0) → T !! x = Some (k, O_Reserved) → x ≠ 0 →
  value ≠ [] → all_u8 value → (length value <= fuel)%nat →
  (∀ h' T' l, typed h' T' → extents T' x l value → NoDup l → (∀ y, y ∈ l → y = x ∨ T !! y = None) →
     delete x T ⊆ T' → no_new_value T T' → Q tt (set_heap h' s)) →
  (∀ e h' T', typed h' T' → delete x T ⊆ T' → no_new_value T T' → R e (set_heap h' s)) →
  wp (write_extents_loop fuel x value) s Q R.
Proof.
  revert s T x k value. induction fuel as [|fuel IH]; intros s T x k value HT H0 Hx Hx0 Hv Hu Hf HQ HR.
  { destruct value; [done|cbn in Hf; lia]. }
  cbn [write_extents_loop]. pose proof (typed_inside HT _ _ _ Hx) as (_ & Hk & _).
  assert (1 <= 2 ^ k) as Hp by (apply (Z.pow_le_mono_r 2 0 k); lia).
  set (c := take (Z.to_nat (16 * 2 ^ k - 8)) value).
  assert (c ≠ []) as Hc.
  { unfold c. destruct value as [|b value]; [done|]. by replace (Z.to_nat (16 * 2 ^ k - 8)) with (S (Z.to_nat (16 * 2 ^ k - 9))) by lia. }
  apply wp_bind. eapply (wp_update HT); [exact Hx|by apply become_extent_updates|]. intros h1 HT1.
  apply wp_bind. eapply (wp_update (s := set_heap h1 s) HT1); [by rewrite lookup_insert_eq|by apply write_extent_updates|].
  fold c. intros h2 HT2. change (set_heap h2 (set_heap h1 s)) with (set_heap h2 s). rewrite insert_insert_eq in HT2.
  cbn zeta. set (value' := drop _ value).
  assert (c ++ value' = value ∧ (value' = [] ∨ len c = 16 * 2 ^ k - 8) ∧ (length value' < length value)%nat) as (Hcv & Hfull & Hlt).
  { unfold c, value', len in *. rewrite length_take, length_drop. destruct (Z.le_ge_cases (Z.of_nat (length value)) (16 * 2 ^ k - 8)).
    - rewrite Z.min_l, Nat2Z.id, drop_all, take_ge, app_nil_r by lia. split_and!; [done|by left|]. destruct value; cbn in *; [done|lia].
    - rewrite Z.min_r by lia. rewrite take_drop. split_and!; [done|right; lia|lia]. }
  destruct (Z.ltb_spec 0 (len value')) as [Hmore|Hdone].
  - apply wp_bind. eapply (wp_allocate (s := set_heap h2 s) HT2); [apply block_size_pos| |].
    2:{ intros e h' HT'. eapply (HR e h'); [exact HT'| |by apply no_new_value_insert]. rewrite <- (delete_insert_eq T x (k, O_Extent 0 c)).
        apply delete_subseteq. }
    intros h3 y k' Hy _ _ _ HT3. change (set_heap h3 (set_heap h2 s)) with (set_heap h3 s).
    assert (x ≠ y) as Hxy by (intros ->; by rewrite lookup_insert_eq in Hy).
    rewrite lookup_insert_ne in Hy by done.
    apply wp_bind. eapply (wp_update (s := set_heap h3 s) HT3).
    { by rewrite lookup_insert_ne, lookup_insert_eq by done. }
    { apply (set_extent_next_updates 0). eapply (typed_index HT3). by rewrite lookup_insert_eq. }
    intros h4 HT4. change (set_heap h4 (set_heap h3 s)) with (set_heap h4 s).
    rewrite insert_insert_ne, insert_insert_eq in HT4 by done.
    set (T4 := <[y := (k', O_Reserved)]> (<[x := (k, O_Extent y c)]> T)) in *.
    assert (delete x T ⊆ delete y T4) as Hsub4.
    { unfold T4. rewrite delete_insert_id by (by rewrite lookup_insert_ne).
      rewrite <- (delete_insert_eq T x (k, O_Extent y c)). apply delete_subseteq. }
    assert (no_new_value T T4) as Hnn4 by (transitivity (<[x := (k, O_Extent y c)]> T); by apply no_new_value_insert).
    eapply (IH (set_heap h4 s) T4 y k' value'); [exact HT4| |by unfold T4; rewrite lookup_insert_eq| | | |lia|..].
    + unfold T4. destruct H0 as [z Hz]. destruct (decide (y = 0)) as [->|]; [by rewrite Hz in Hy|].
      rewrite !lookup_insert_ne by done. by eexists.
    + intros ->. destruct H0 as [z Hz]. by rewrite Hz in Hy.
    + intros E. by rewrite E in Hmore.
    + unfold value'. by apply Forall_drop.
    + intros h' T' l HT' Hext Hnd Hnew Hsub Hnn. apply (HQ h' T' (x :: l) HT').
      * rewrite <- Hcv. econstructor; [done| |done|done|done].
        eapply lookup_weaken; [|exact Hsub]. unfold T4. rewrite lookup_delete_ne, lookup_insert_ne, lookup_insert_eq by done. done.
      * constructor; [|done]. intros Hin. destruct (Hnew x Hin) as [->|Hn]; [done|].
        unfold T4 in Hn. by rewrite lookup_insert_ne, lookup_insert_eq in Hn by done.
      * intros z [->|Hz]%elem_of_cons; [by left|right]. destruct (Hnew z Hz) as [->|Hn]; [done|].
        unfold T4 in Hn. destruct (decide (y = z)) as [->|]; [by rewrite lookup_insert_eq in Hn|].
        destruct (decide (x = z)) as [->|]; [by rewrite lookup_insert_ne, lookup_insert_eq in Hn by done|].
        by rewrite !lookup_insert_ne in Hn by done.
      * by transitivity (delete y T4).
      * by transitivity T4.
    + intros e h' T' HT' Hsub Hnn. apply (HR e h' T' HT'); [by transitivity (delete y T4)|by transitivity T4].
  - apply wp_ret. apply (HQ h2 (<[x := (k, O_Extent 0 c)]> T) [x] HT2).
    + assert (value' = []) as Hnil by (destruct value'; [done|rewrite len_cons in Hdone; pose proof (len_nonneg value'); lia]).
      rewrite <- Hcv, Hnil. econstructor; [done|by rewrite lookup_insert_eq|done|by left|constructor].
    + apply NoDup_singleton.
    + intros y Hy%list_elem_of_singleton. by left.
    + rewrite <- (delete_insert_eq T x (k, O_Extent 0 c)). apply delete_subseteq.
    + by apply no_new_value_insert.
Qed.

Lemma write_extents_wp s T value (Q : Z → InnerState → Prop) R :
  typed (heap s) T → is_Some (T !! 0) → all_u8 value →
  (∀ h' T' x l, typed h' T' → extents T' x l value → NoDup l → (∀ y, y ∈ l → T !! y = None) → T ⊆ T' →
     no_new_value T T' → Q x (set_heap h' s)) →
  (∀ e h' T', typed h' T' → T ⊆ T' → no_new_value T T' → R e (set_heap h' s)) →
  wp (write_extents value) s Q R.
Proof.
  intros HT H0 Hu HQ HR. unfold write_extents. destruct (Z.eqb_spec (len value) 0) as [Hl|Hl].
  { apply wp_ret. rewrite <- (set_heap_id s). destruct value; [|rewrite len_cons in Hl; pose proof (len_nonneg value); lia].
    apply (HQ _ T 0 []); [done|constructor|constructor|set_solver|done|done]. }
  apply wp_bind. eapply (wp_allocate HT); [apply block_size_pos| |].
  2:{ intros e h' HT'. by apply (HR e h' T). }
  intros h1 x k Hx _ _ _ HT1. apply wp_bind.
  assert (T ⊆ delete x (<[x := (k, O_Reserved)]> T)) as Hsub by (by rewrite delete_insert_id).
  assert (no_new_value T (<[x := (k, O_Reserved)]> T)) as Hnn by (by apply no_new_value_insert).
  eapply (write_extents_loop_wp _ (set_heap h1 s) _ x k value); [exact HT1| | | | |done|lia|..].
  - destruct H0 as [z Hz]. destruct (decide (x = 0)) as [->|]; [by rewrite lookup_insert_eq|].
    rewrite lookup_insert_ne by done. by eexists.
  - by rewrite lookup_insert_eq.
  - intros ->. destruct H0 as [z Hz]. by rewrite Hz in Hx.
  - by intros ->.
  - intros h' T' l HT' Hext Hnd Hnew Hs Hn'. apply wp_ret.
    apply (HQ h' T' x l); [done..| |by transitivity (delete x (<[x := (k, O_Reserved)]> T))|by transitivity (<[x := (k, O_Reserved)]> T)].
    intros y Hy. destruct (Hnew y Hy) as [->|Hn]; [done|]. destruct (decide (x = y)) as [->|]; [done|].
    by rewrite lookup_insert_ne in Hn.
  - intros e h' T' HT' Hs Hn'. apply (HR e h' T' HT'); [by transitivity (delete x (<[x := (k, O_Reserved)]> T))|].
    by transitivity (<[x := (k, O_Reserved)]> T).
Qed.

(** ** Freeing *)

Definition without (l : list Z) (T : objects) : objects := foldr delete T l.

Lemma lookup_without_in l T i : i ∈ l → without l T !! i = None.
Proof.
  induction l as [|x l IH]; [by intros ?%elem_of_nil|]. cbn. intros Hi.
  destruct (decide (x = i)) as [->|Hne]; [by rewrite lookup_delete_eq|].
  rewrite lookup_delete_ne by done. apply IH. by apply elem_of_cons in Hi as [->|?].
Qed.

Lemma lookup_without l T i : i ∉ l → without l T !! i = T !! i.
Proof.
  induction l as [|x l IH]; [done|]. cbn. intros [Hne Hi]%not_elem_of_cons.
  rewrite lookup_delete_ne by done. by apply IH.
Qed.

Lemma without_delete l T x : x ∉ l → without l (delete x T) = delete x (without l T).
Proof.
  intros Hx. apply map_eq. intros i. destruct (decide (i = x)) as [->|Hne].
  - by rewrite lookup_without, !lookup_delete_eq.
  - rewrite lookup_delete_ne by done. destruct (decide (i ∈ l)).
    + by rewrite !lookup_without_in.
    + by rewrite !lookup_without, lookup_delete_ne.
Qed.

Lemma free_extents_loop_wp fuel s T first l c (Q : unit → InnerState → Prop) R :
  typed (heap s) T → extents T first l c → NoDup l → (length l < fuel)%nat →
  (∀ h', typed h' (without l T) → Q tt (set_heap h' s)) →
  wp (free_extents_loop fuel first) s Q R.
Proof.
  revert s T first l c. induction fuel as [|fuel IH]; intros s T first l c HT Hx Hnd Hf HQ; [lia|].
  cbn [free_extents_loop]. change ROOT_INDEX with 0.
  destruct Hx as [|x k next d l rest Hx0 Hx _ _ Hrest].
  { change (0 =? 0) with true. apply wp_ret. rewrite <- (set_heap_id s). by apply HQ. }
  rewrite (proj2 (Z.eqb_neq _ _) Hx0). apply NoDup_cons in Hnd as [Hni Hnd].
  apply wp_bind, wp_unwrap. eapply (wp_heap_block HT); [exact Hx|].
  apply wp_bind. eapply (wp_blk HT); [exact Hx| |].
  { intros m Hin Hat. eapply next_extent_at; [done|exact Hat|left; by eexists]. }
  apply wp_bind. eapply (wp_free HT); [exact Hx|]. intros h1 HT1.
  eapply (IH (set_heap h1 s) (delete x T) next l rest); [exact HT1| |done|cbn in Hf; lia|].
  - eapply extents_agree; [|exact Hrest]. intros y Hy. rewrite lookup_delete_ne; [done|]. by intros ->.
  - intros h' HT'. apply (HQ h'). change (without (x :: l) T) with (delete x (without l T)). by rewrite <- without_delete.
Qed.

Lemma extents_fuel s T first l c : typed (heap s) T → extents T first l c → NoDup l → (length l < heap_fuel s)%nat.
Proof.
  intros HT Hx Hnd. destruct (typed_fuel HT) as [Hsz _]. unfold heap_fuel. change MIN_ORDER_SIZE with 16.
  assert (length l <= size T)%nat; [|lia].
  rewrite <- size_dom. rewrite <- (size_list_to_set (C := gset Z) l Hnd).
  apply subseteq_size. intros y Hy%elem_of_list_to_set.
  destruct (extents_lookup _ _ _ _ _ Hx Hy) as (k & nx & d & Hl). apply elem_of_dom. by eexists.
Qed.

Lemma free_extents_wp s T first l c (Q : unit → InnerState → Prop) R :
  typed (heap s) T → extents T first l c → NoDup l →
  (∀ h', typed h' (without l T) → Q tt (set_heap h' s)) →
  wp (free_extents first) s Q R.
Proof.
  intros HT Hx Hnd HQ. apply wp_bind. unfold get, wp at 1.
  eapply free_extents_loop_wp; [done..| |done]. by eapply extents_fuel.
Qed.

(** ** String references *)

(** Block [b] is a string reference with [c] users that holds [data], in part in the extents
    [l]. *)
Definition string_block (T : objects) (b c : Z) (l : list Z) (data : rstring) : Prop :=
  ∃ k next ib rest, T !! b = Some (k, O_String c next (len data) ib) ∧ extents T next l rest ∧
    data = ib ++ rest ∧ len ib = Z.min (len data) (16 * 2 ^ k - 12) ∧ NoDup l.

(** The object with [d] more users. *)
Definition add_refs (d : Z) (x : Z * obj) : Z * obj :=
  match x.2 with
  | O_String c next t ib => (x.1, O_String (c + d) next t ib)
  | _ => x
  end.

Lemma string_block_agree T T' b c l data :
  (∀ y, y ∈ b :: l → T' !! y = T !! y) → string_block T b c l data → string_block T' b c l data.
Proof.
  intros Hag (k & nx & ib & rest & Hb & Hx & Hd & Hl & Hnd). exists k, nx, ib, rest. split_and!; [|..|done|done|done].
  - rewrite Hag by left. done.
  - eapply extents_agree; [|exact Hx]. intros y Hy. apply Hag. by right.
Qed.

Lemma string_block_add_refs T b c l data d : string_block T b c l data →
  string_block (alter (add_refs d) b T) b (c + d) l data.
Proof.
  intros (k & nx & ib & rest & Hb & Hx & Hd & Hl & Hnd). exists k, nx, ib, rest. split_and!; [|..|done|done|done].
  - by rewrite lookup_alter_eq, Hb.
  - eapply extents_agree; [|exact Hx]. intros y Hy. apply lookup_alter_ne. intros ->.
    destruct (extents_lookup _ _ _ _ _ Hx Hy) as (? & ? & ? & Hy'). congruence.
Qed.

Lemma string_block_not_in T b c l data : string_block T b c l data → b ∉ l.
Proof.
  intros (k & nx & ib & rest & Hb & Hx & _) Hin.
  destruct (extents_lookup _ _ _ _ _ Hx Hin) as (? & ? & ? & Hy'). congruence.
Qed.

(** ** Creating *)

Lemma insert_subseteq_new (T T' : objects) b x : T !! b = None → T ⊆ T' → T ⊆ <[b := x]> T'.
Proof.
  intros Hb Hsub. apply map_subseteq_spec. intros j y Hj. rewrite lookup_insert_ne by (by intros ->; congruence).
  by eapply lookup_weaken.
Qed.

Lemma write_string_payload_wp s T b k t data (Q : unit → InnerState → Prop) R :
  typed (heap s) T → is_Some (T !! 0) → T !! b = Some (k, O_String 0 0 t []) → all_u8 data → len data < u32_size →
  (∀ h' T' l, typed h' T' → delete b T ⊆ T' → string_block T' b 0 l data → (∀ y, y ∈ l → T !! y = None) →
     no_new_value T T' → Q tt (set_heap h' s)) →
  (∀ e h' T', typed h' T' → delete b T ⊆ T' → no_new_value T T' → R e (set_heap h' s)) →
  wp (write_string_reference_payload b data) s Q R.
Proof.
  intros HT H0 Hb Hu Hlen HQ HR. unfold write_string_reference_payload. pose proof (typed_inside HT _ _ _ Hb) as (_ & Hk & _).
  pose proof (len_nonneg data) as Hl0. assert (1 <= 2 ^ k) as Hp by (apply (Z.pow_le_mono_r 2 0 k); lia).
  set (n := Z.min (len data) (16 * 2 ^ k - 12)). set (ib := take (Z.to_nat n) data).
  assert (len ib = n) as Hib by (unfold ib; rewrite len_take; lia).
  apply wp_bind. unfold state_inline_string_reference. apply wp_bind.
  eapply (wp_update HT); [exact Hb|by apply write_inline_updates|]. intros h1 HT1. fold n ib in HT1 |- *.
  set (T1 := <[b := (k, O_String 0 0 (len data) ib)]> T) in *.
  assert (delete b T ⊆ T1) as Hsub1 by (unfold T1; rewrite <- (delete_insert_eq T b (k, O_String 0 0 (len data) ib)); apply delete_subseteq).
  assert (T1 !! b = Some (k, O_String 0 0 (len data) ib)) as Hb1 by (unfold T1; by rewrite lookup_insert_eq).
  assert (no_new_value T T1) as Hnn1 by (by apply no_new_value_insert).
  (* the end of the operation, whatever the extents *)
  assert (∀ h2 T2 x l, typed h2 T2 → T1 ⊆ T2 → extents T2 x l (drop (Z.to_nat n) data) → NoDup l →
    (∀ y, y ∈ l → T1 !! y = None) → 0 <= x < 2 ^ 24 → no_new_value T1 T2 →
    wp (_ ← on_blk (set_extent_next_index b x);
        if u32_size <=? len data then panic else on_blk (set_total_length b (len data))) (set_heap h2 s) Q R) as Hend.
  { intros h2 T2 x l HT2 Hsub2 Hx Hnd Hnew Hx0 Hnn2. pose proof (lookup_weaken _ _ _ _ Hb1 Hsub2) as Hb2.
    apply wp_bind. eapply (wp_update (s := set_heap h2 s) HT2); [exact Hb2|by apply set_string_next_updates|]. intros h3 HT3.
    rewrite (proj2 (Z.leb_gt _ _)) by lia.
    eapply (wp_update (s := set_heap h3 s) HT3); [by rewrite lookup_insert_eq|apply set_total_length_string_updates; split; lia|].
    intros h4 HT4. rewrite insert_insert_eq in HT4. eapply (HQ h4 _ l HT4).
    - apply map_subseteq_spec. intros j y Hj. pose proof Hj as [Hne _]%lookup_delete_Some. rewrite lookup_insert_ne by done.
      eapply lookup_weaken; [|exact Hsub2]. by eapply lookup_weaken.
    - exists k, x, ib, (drop (Z.to_nat n) data). split_and!; [by rewrite lookup_insert_eq| |by unfold ib; rewrite take_drop|done|done].
      eapply extents_agree; [|exact Hx]. intros y Hy. apply lookup_insert_ne. intros <-. by rewrite Hnew in Hb1.
    - intros y Hy. specialize (Hnew y Hy). destruct (decide (b = y)) as [->|Hne]; [congruence|].
      unfold T1 in Hnew. by rewrite lookup_insert_ne in Hnew.
    - transitivity T2; [by transitivity T1|by apply no_new_value_insert]. }
  apply wp_ret. apply wp_bind. destruct (Z.ltb_spec n (len data)) as [Hmore|Hall].
  - eapply (write_extents_wp (set_heap h1 s) T1); [exact HT1| |by apply Forall_drop| |].
    + unfold T1. destruct (decide (b = 0)) as [->|]; [by rewrite lookup_insert_eq|by rewrite lookup_insert_ne].
    + intros h2 T2 x l HT2 Hx Hnd Hnew Hsub2 Hnn2. eapply Hend; [done..| |done].
      destruct (extents_head _ _ _ _ Hx) as [(-> & _)|(_ & Hl & _)]; [lia|].
      destruct Hx; [done|]. by eapply (typed_index HT2).
    + intros e h2 T2 HT2 Hsub2 Hnn2. apply (HR e h2 T2 HT2); by transitivity T1.
  - apply wp_ret. apply (Hend h1 T1 0 []); [done|done| |constructor|set_solver|lia|done].
    rewrite drop_ge; [constructor|]. unfold len in *. lia.
Qed.

Lemma create_string_reference_wp s T sr (Q : Z → InnerState → Prop) R :
  typed (heap s) T → is_Some (T !! 0) → all_u8 (data sr) → len (data sr) < u32_size →
  (∀ b, string_reference_ids s !! reference_id sr = Some b → is_Some (T !! b) ∧ Q b s) →
  (∀ h' T' b l, string_reference_ids s !! reference_id sr = None → typed h' T' → T ⊆ T' → T !! b = None →
     string_block T' b 0 l (data sr) → (∀ y, y ∈ l → T !! y = None) → no_new_value T T' →
     Q b (set_string_reference_ids <[reference_id sr := b]> (set_heap h' s))) →
  (∀ e h' T', typed h' T' → T ⊆ T' → no_new_value T T' → R e (set_heap h' s)) →
  wp (create_string_reference sr) s Q R.
Proof.
  intros HT H0 Hu Hlen Hold Hnew HR. unfold create_string_reference. apply wp_bind. unfold get, wp at 1.
  destruct (string_reference_ids s !! reference_id sr) as [b|] eqn:Hid.
  { destruct (Hold b eq_refl) as [[[k o] Hb] HQ]. by eapply (wp_heap_block HT). }
  apply wp_bind. eapply (wp_allocate HT); [apply block_size_pos| |].
  2:{ intros e h' HT'. by apply (HR e h' T). }
  intros h1 b k Hb _ _ _ HT1.
  apply wp_bind. eapply (wp_update_to (s := set_heap h1 s) HT1); [by rewrite lookup_insert_eq|apply become_string_reference_updates|].
  intros h2 ? [t ->] HT2. rewrite insert_insert_eq in HT2. apply wp_bind.
  assert (no_new_value T (<[b := (k, O_String 0 0 t [])]> T)) as Hnn by (by apply no_new_value_insert).
  eapply (write_string_payload_wp (set_heap h2 s) _ b k t); [exact HT2| |by rewrite lookup_insert_eq|done|done|..].
  - destruct H0 as [z Hz]. destruct (decide (b = 0)) as [->|]; [by rewrite lookup_insert_eq|].
    rewrite lookup_insert_ne by done. by eexists.
  - intros h' T' l HT' Hsub Hstr Hl Hn'. apply wp_bind. unfold modify, wp at 1. apply wp_ret.
    rewrite delete_insert_id in Hsub by done.
    apply (Hnew h' T' b l); [done..| |by transitivity (<[b := (k, O_String 0 0 t [])]> T)].
    intros y Hy. specialize (Hl y Hy). destruct (decide (b = y)) as [->|]; [done|]. by rewrite lookup_insert_ne in Hl.
  - intros e h' T' HT' Hsub Hn'. rewrite delete_insert_id in Hsub by done. apply (HR e h' T'); [done..|].
    by transitivity (<[b := (k, O_String 0 0 t [])]> T).
Qed.

(** ** Releasing *)

Section release.
Context `{!HashMapOrder Z Z}.

Lemma find_id (ids : gmap Z Z) id b : ids !! id = Some b → (∀ id', ids !! id' = Some b → id' = id) →
  ∃ n, list_find (λ p : Z * Z, p.2 = b) (hash_map_iter ids) = Some (n, (id, b)).
Proof.
  intros Hid Huniq. destruct (list_find_elem_of (λ p : Z * Z, p.2 = b) (hash_map_iter ids) (id, b)) as [[n [id' b']] Hf]; [|done|].
  - rewrite hash_map_iter_perm. by apply elem_of_map_to_list.
  - exists n. rewrite Hf. apply list_find_Some in Hf as (Hl & Hb & _). cbn in Hb. subst b'.
    apply list_elem_of_lookup_2 in Hl. rewrite hash_map_iter_perm in Hl. apply elem_of_map_to_list in Hl.
    by rewrite (Huniq id' Hl).
Qed.

Lemma release_string_reference_wp s T b c l data id (Q : unit → InnerState → Prop) R :
  typed (heap s) T → string_block T b c l data → 0 < c < 2 ^ 24 →
  string_reference_ids s !! id = Some b → (∀ id', string_reference_ids s !! id' = Some b → id' = id) →
  (∀ h', c ≠ 1 → typed h' (alter (add_refs (-1)) b T) → Q tt (set_heap h' s)) →
  (∀ h', c = 1 → typed h' (without l (delete b T)) → Q tt (set_string_reference_ids (delete id) (set_heap h' s))) →
  wp (release_string_reference b) s Q R.
Proof.
  intros HT (k & nx & ib & rest & Hb & Hx & Hd & Hl & Hnd) Hc Hid Huniq Hmany Hone. unfold release_string_reference.
  apply wp_bind. eapply (wp_update HT); [exact Hb|by apply decrement_updates|]. intros h1 HT1.
  assert (∀ y, y ∈ l → y ≠ b) as Hlb.
  { intros y Hy ->. destruct (extents_lookup _ _ _ _ _ Hx Hy) as (? & ? & ? & Hy'). congruence. }
  unfold maybe_free_string_reference. apply wp_bind.
  eapply (wp_blk (s := set_heap h1 s) HT1); [by rewrite lookup_insert_eq|intros m Hin Hat; by eapply string_reference_count_at|].
  destruct (Z.eqb_spec (c - 1) 0) as [Hz|Hz]; cbn [negb].
  2:{ apply wp_ret. apply Hmany; [lia|].
      replace (alter (add_refs (-1)) b T) with (<[b:=(k, O_String (c - 1) nx (len data) ib)]> T); [done|].
      apply map_eq. intros j. destruct (decide (b = j)) as [<-|Hne].
      - by rewrite lookup_insert_eq, lookup_alter_eq, Hb.
      - by rewrite lookup_insert_ne, lookup_alter_ne. }
  apply wp_bind. eapply (wp_blk (s := set_heap h1 s) HT1); [by rewrite lookup_insert_eq| |].
  { intros m Hin Hat. eapply next_extent_at; [done|exact Hat|right; by repeat eexists]. }
  apply wp_bind. eapply (wp_free (s := set_heap h1 s) HT1); [by rewrite lookup_insert_eq|]. intros h2 HT2.
  rewrite delete_insert_eq in HT2. apply wp_bind. unfold get, wp at 1.
  destruct (find_id _ _ _ Hid Huniq) as [n Hf]. cbn [string_reference_ids set_heap]. rewrite Hf.
  apply wp_bind. unfold modify, wp at 1.
  destruct (Z.eqb_spec nx 0) as [->|Hnx].
  - apply extents_0 in Hx as [-> _]. apply wp_ret. apply Hone; [lia|]. done.
  - eapply (free_extents_wp _ (delete b T) nx l rest); [exact HT2| |done|].
    + eapply extents_agree; [|exact Hx]. intros y Hy. apply lookup_delete_ne. by apply not_eq_sym, Hlb.
    + intros h' HT'. apply (Hone h'); [lia|done].
Qed.
End release.
