(* ===== verification/InspectTree.v ===== *)
(** The tree an Inspect writer keeps, as a value ([tree]: every live node and value with its
    name, parent and contents), and when the objects of a heap represent it ([wf]).  The
    lemmas show, without the program, how the steps of the operations change the tree: a
    step that counts a child or a user before or after the object that is counted leaves a
    difference in [dc] or [dn].  Then the steps themselves: a value is added, changed, moved,
    deleted or replaced by a tombstone, and the bytes of a buffer are replaced. *)
From Stdlib Require Import ZArith Lia.
From stdpp Require Import base gmap strings list.
From S2P Require Import Prelude InspectFormat InspectObjects InspectTyped InspectExtents.
Local Open Scope Z_scope.

(** ** Counting *)

Section count.
Context {A : Type}.
Implicit Types (P : A → bool) (m : gmap Z A).

Definition count P m : Z := Z.of_nat (size (filter (λ x : Z * A, P x.2 = true) m)).
Definition one (b : bool) : Z := if b then 1 else 0.

Lemma count_nonneg P m : 0 <= count P m.
Proof. unfold count. lia. Qed.

Lemma count_insert P m i a : m !! i = None → count P (<[i := a]> m) = count P m + one (P a).
Proof.
  intros Hi. unfold count, one. destruct (P a) eqn:E.
  - rewrite map_filter_insert_True by done. rewrite map_size_insert_None; [lia|].
    apply map_lookup_filter_None. by left.
  - rewrite map_filter_insert_False by (cbn; congruence). rewrite delete_id by done. lia.
Qed.

Lemma count_delete P m i a : m !! i = Some a → count P (delete i m) = count P m - one (P a).
Proof.
  intros Hi. rewrite <- (insert_delete_id m i a Hi) at 2. rewrite count_insert by apply lookup_delete_eq. lia.
Qed.

Lemma count_update P m i a b : m !! i = Some a → count P (<[i := b]> m) = count P m - one (P a) + one (P b).
Proof.
  intros Hi. rewrite <- insert_delete_eq, count_insert by apply lookup_delete_eq. by rewrite (count_delete _ _ _ a).
Qed.

Lemma count_same P m i a b : m !! i = Some a → P a = P b → count P (<[i := b]> m) = count P m.
Proof. intros Hi Hp. rewrite (count_update _ _ _ a) by done. rewrite Hp. lia. Qed.

Lemma count_alter P m i f : (∀ a, m !! i = Some a → P (f a) = P a) → count P (alter f i m) = count P m.
Proof.
  intros Hf. destruct (m !! i) as [a|] eqn:Hi.
  - replace (alter f i m) with (<[i := f a]> m); [apply (count_same _ _ _ a); [done|symmetry; by apply Hf]|].
    apply map_eq. intros j. destruct (decide (i = j)) as [<-|].
    + by rewrite lookup_insert_eq, lookup_alter_eq, Hi.
    + by rewrite lookup_insert_ne, lookup_alter_ne.
  - by rewrite alter_id by (intros x Hx; congruence).
Qed.

Lemma count_pos P m i a : m !! i = Some a → P a = true → 0 < count P m.
Proof.
  intros Hi Hp. pose proof (count_delete P m i a Hi) as Hd. rewrite Hp in Hd. unfold one in Hd.
  pose proof (count_nonneg P (delete i m)). lia.
Qed.

Lemma count_zero P m : count P m = 0 → ∀ i a, m !! i = Some a → P a = false.
Proof.
  intros Hz i a Hi. destruct (P a) eqn:E; [|done]. pose proof (count_pos _ _ _ _ Hi E). lia.
Qed.

Lemma count_none P m : (∀ i a, m !! i = Some a → P a = false) → count P m = 0.
Proof.
  intros Hn. unfold count. rewrite map_empty_filter_2; [done|]. intros i a Hi Hp.
  specialize (Hn i a Hi). cbn in Hp. congruence.
Qed.

Lemma count_le P m : count P m <= Z.of_nat (size m).
Proof. unfold count. apply inj_le, map_subseteq_size, map_filter_subseteq. Qed.
End count.

Lemma count_ext {A B} (P : A → bool) (P' : B → bool) (m : gmap Z A) (m' : gmap Z B) :
  (∀ i, from_option P' false (m' !! i) = from_option P false (m !! i)) → count P' m' = count P m.
Proof.
  intros He. unfold count. rewrite <- !size_dom. do 2 f_equal. apply set_eq. intros i. rewrite !elem_of_dom.
  unfold is_Some. setoid_rewrite map_lookup_filter_Some. cbn. specialize (He i).
  destruct (m !! i) as [a|], (m' !! i) as [b|]; cbn in He; split; intros (x & Hx & Hp); simplify_eq; eauto; congruence.
Qed.

(** ** Trees *)

Inductive aval :=
| A_Node
| A_Int (value : Z)
| A_Uint (value : Z)
| A_Double (bits : Z)
| A_Bool (value : bool)
| A_Buffer (format : PropertyFormat) (content : list Z)
| A_Array (entry : BlockType) (format : ArrayFormat) (values : list Z).

Record entry := mkEntry { e_name : rstring; e_parent : Z; e_value : aval }.

Abbreviation tree := (gmap Z entry).

Definition is_child (i : Z) (e : entry) : bool := e_parent e =? i.
Definition children (V : tree) (i : Z) : Z := count (is_child i) V.

(** Going up from [i] ends, at the root or at a deleted node. *)
Inductive rooted (V : tree) : Z → Prop :=
| rooted_out i : V !! i = None → rooted V i
| rooted_in i e : V !! i = Some e → rooted V (e_parent e) → rooted V i.

Lemma rooted_insert V i e j :
  V !! i = None → rooted V j → rooted (<[i := e]> V) i → rooted (<[i := e]> V) j.
Proof.
  intros Hi Hj Hr. induction Hj as [j Hj|j e' Hj _ IH].
  - destruct (decide (i = j)) as [<-|]; [done|]. apply rooted_out. by rewrite lookup_insert_ne.
  - destruct (decide (i = j)) as [<-|]; [done|]. eapply rooted_in; [|exact IH]. by rewrite lookup_insert_ne.
Qed.

Lemma rooted_delete V i j : rooted V j → rooted (delete i V) j.
Proof.
  induction 1 as [j Hj|j e Hj _ IH].
  - apply rooted_out. apply lookup_delete_None. by right.
  - destruct (decide (i = j)) as [<-|]; [apply rooted_out, lookup_delete_eq|].
    eapply rooted_in; [|exact IH]. by rewrite lookup_delete_ne.
Qed.

(** The same parents. *)
Lemma rooted_same V V' j : (∀ i, e_parent <$> V' !! i = e_parent <$> V !! i) → rooted V j → rooted V' j.
Proof.
  intros Hs. induction 1 as [j Hj|j e Hj _ IH]; specialize (Hs j); rewrite Hj in Hs; cbn in Hs.
  - apply rooted_out. by destruct (V' !! j).
  - destruct (V' !! j) as [e'|] eqn:Hj'; [|done]. injection Hs as Hp. eapply rooted_in; [exact Hj'|by rewrite Hp].
Qed.

Lemma rooted_no_loop V i e : rooted V i → V !! i = Some e → e_parent e ≠ i.
Proof. induction 1 as [i Hi|i e' Hi Hr IH]; intros Hi' Hp; [congruence|]. rewrite Hi in Hi'. injection Hi' as ->. rewrite Hp in *. by apply IH. Qed.

(** ** Representation *)

(** The users of a string. *)
Definition names (b : Z) (x : Z * obj) : bool :=
  match x.2 with O_Value n _ _ => n =? b | _ => false end.
Definition refs (T : objects) (b : Z) : Z := count (names b) T.

Definition can_parent (o : obj) : Prop :=
  match o with
  | O_Header _ | O_Tombstone _ | O_Value _ _ (B_Node _) => True
  | _ => False
  end.

(** What the contents of a value say, the bytes of a buffer apart. *)
Definition body_means (n : Z) (b : body) (a : aval) : Prop :=
  match b, a with
  | B_Node c, A_Node => c = n
  | B_Int v, A_Int v' => v = v'
  | B_Uint v, A_Uint v' => v = v'
  | B_Double v, A_Double v' => v = v'
  | B_Bool v, A_Bool v' => v = v'
  | B_Buffer f _ _, A_Buffer f' _ => f = f'
  | B_Array en f vs, A_Array en' f' vs' => en = en' ∧ f = f' ∧ vs = vs'
  | _, _ => False
  end.

Section representation.
Context (text : Z → rstring).
Implicit Types (T : objects) (V : tree) (X : gmap Z (list Z)).

(** Strings and chains of extents. *)
Record store_ok (ids : gmap Z Z) (T : objects) (X : gmap Z (list Z)) (dn : Z → Z) : Prop := {
  store_string : ∀ i k c nx t ib, T !! i = Some (k, O_String c nx t ib) → c = refs T i + dn i;
  store_live : ∀ i k c nx t ib, T !! i = Some (k, O_String c nx t ib) → ∃ id, ids !! id = Some i;
  store_extent : ∀ i k nx c, T !! i = Some (k, O_Extent nx c) → ∃ b l, X !! b = Some l ∧ i ∈ l;
  store_id : ∀ id b, ids !! id = Some b → ∃ c l, X !! b = Some l ∧ string_block T b c l (text id);
  store_inj : ∀ id id' b, ids !! id = Some b → ids !! id' = Some b → id = id';
  store_name : ∀ i k n p b, T !! i = Some (k, O_Value n p b) → ∃ id, ids !! id = Some n;
  store_buffer : ∀ i k n p f t e, T !! i = Some (k, O_Value n p (B_Buffer f t e)) →
    ∃ l content, X !! i = Some l ∧ extents T e l content ∧ NoDup l ∧ t = len content;
  store_owner : ∀ b l, X !! b = Some l →
    (∃ id, ids !! id = Some b) ∨ (∃ k n p f t e, T !! b = Some (k, O_Value n p (B_Buffer f t e)));
  store_disjoint : ∀ b b' l l' x, X !! b = Some l → X !! b' = Some l' → x ∈ l → x ∈ l' → b = b';
}.

(** Nodes and values. *)
Record tree_ok (T : objects) (V : tree) (dc : Z → Z) : Prop := {
  tree_header : ∃ g, T !! 0 = Some (0, O_Header g);
  tree_only_header : ∀ i k g, T !! i = Some (k, O_Header g) → i = 0;
  tree_reserved : ∀ i k, T !! i ≠ Some (k, O_Reserved);
  tree_tombstone : ∀ i k c, T !! i = Some (k, O_Tombstone c) → V !! i = None ∧ c = children V i + dc i ∧ 0 < c;
  tree_value : ∀ i k n p b, T !! i = Some (k, O_Value n p b) →
    ∃ e, V !! i = Some e ∧ p = e_parent e ∧ body_means (children V i + dc i) b (e_value e);
  tree_entry : ∀ i e, V !! i = Some e → ∃ k n b, T !! i = Some (k, O_Value n (e_parent e) b);
  tree_parent : ∀ i e, V !! i = Some e → ∃ k o, T !! e_parent e = Some (k, o) ∧ can_parent o;
  tree_rooted : ∀ i, rooted V i;
}.

(** Names and the bytes of buffers. *)
Record content_ok (ids : gmap Z Z) (T : objects) (X : gmap Z (list Z)) (V : tree) : Prop := {
  content_name : ∀ i e k n p b id, V !! i = Some e → T !! i = Some (k, O_Value n p b) →
    ids !! id = Some n → text id = e_name e;
  content_buffer : ∀ i e k n p f t x l, V !! i = Some e → T !! i = Some (k, O_Value n p (B_Buffer f t x)) →
    X !! i = Some l → ∃ content, extents T x l content ∧ e_value e = A_Buffer f content;
}.

Record wf (ids : gmap Z Z) (T : objects) (X : gmap Z (list Z)) (V : tree) (dn dc : Z → Z) : Prop := {
  wf_store : store_ok ids T X dn;
  wf_tree : tree_ok T V dc;
  wf_content : content_ok ids T X V;
}.

(** *** Steps that do not concern strings and extents *)

Definition store_view (x : Z * obj) : option (Z * obj) :=
  match x.2 with
  | O_String _ _ _ _ | O_Extent _ _ => Some x
  | O_Value n _ (B_Buffer f t e) => Some (x.1, O_Value n 0 (B_Buffer f t e))
  | O_Value n _ _ => Some (0, O_Value n 0 (B_Node 0))
  | _ => None
  end.

Definition store_same (T T' : objects) : Prop := ∀ i, T !! i ≫= store_view = T' !! i ≫= store_view.

Lemma store_same_string T T' i k c nx t ib : store_same T T' →
  T !! i = Some (k, O_String c nx t ib) → T' !! i = Some (k, O_String c nx t ib).
Proof.
  intros Hs Hi. specialize (Hs i). rewrite Hi in Hs. destruct (T' !! i) as [[k' o]|]; [|done].
  destruct o as [| | |? ? []| |]; cbn in Hs; try done; congruence.
Qed.

Lemma store_same_extent T T' i k nx c : store_same T T' →
  T !! i = Some (k, O_Extent nx c) → T' !! i = Some (k, O_Extent nx c).
Proof.
  intros Hs Hi. specialize (Hs i). rewrite Hi in Hs. destruct (T' !! i) as [[k' o]|]; [|done].
  destruct o as [| | |? ? []| |]; cbn in Hs; try done; congruence.
Qed.

Lemma store_same_value T T' i k n p b : store_same T T' →
  T !! i = Some (k, O_Value n p b) → ∃ k' p' b', T' !! i = Some (k', O_Value n p' b').
Proof.
  intros Hs Hi. specialize (Hs i). rewrite Hi in Hs. destruct (T' !! i) as [[k' o]|]; [|by destruct b].
  destruct b, o as [| | |? ? []| |]; cbn in Hs; simplify_eq; eauto.
Qed.

Lemma store_same_buffer T T' i k n p f t e : store_same T T' →
  T !! i = Some (k, O_Value n p (B_Buffer f t e)) → ∃ p', T' !! i = Some (k, O_Value n p' (B_Buffer f t e)).
Proof.
  intros Hs Hi. specialize (Hs i). rewrite Hi in Hs. destruct (T' !! i) as [[k' o]|]; [|done].
  destruct o as [| | |? ? []| |]; cbn in Hs; try done; injection Hs as -> -> -> -> ->; eauto.
Qed.

Lemma store_same_sym T T' : store_same T T' → store_same T' T.
Proof. intros Hs i. by rewrite Hs. Qed.

Lemma store_same_extents T T' n l c : store_same T T' → extents T n l c → extents T' n l c.
Proof.
  intros Hs. induction 1; [constructor|]. econstructor; [done|by eapply store_same_extent|done..].
Qed.

Lemma store_same_string_block T T' b c l d : store_same T T' → string_block T b c l d → string_block T' b c l d.
Proof.
  intros Hs (k & nx & ib & rest & Hb & Hx & ?). exists k, nx, ib, rest.
  by split; [eapply store_same_string|split; [eapply store_same_extents|]].
Qed.

Lemma names_view b x : names b x = match store_view x with Some y => names b y | None => false end.
Proof. by destruct x as [k [| | |? ? []| |]]. Qed.

Lemma store_same_refs T T' b : store_same T T' → refs T' b = refs T b.
Proof.
  intros Hs. apply count_ext. intros i. specialize (Hs i).
  destruct (T !! i) as [x|], (T' !! i) as [y|]; cbn in *; rewrite ?(names_view b x), ?(names_view b y), ?Hs; try done.
  by rewrite <- Hs.
Qed.

Lemma store_frame ids T T' X dn : store_same T T' → store_ok ids T X dn → store_ok ids T' X dn.
Proof.
  intros Hs [H1 H2 H3 H4 H5 H6 H7 H8 H9]. pose proof (store_same_sym _ _ Hs) as Hs'. split; [..|done].
  - intros i k c nx t ib Hi. rewrite (store_same_refs T T' i Hs). by eapply H1, store_same_string.
  - intros i k c nx t ib Hi. by eapply H2, store_same_string.
  - intros i k nx c Hi. by eapply H3, store_same_extent.
  - intros id b Hid. destruct (H4 id b Hid) as (c & l & Hl & Hb). exists c, l. split; [done|]. by eapply store_same_string_block.
  - done.
  - intros i k n p b Hi. destruct (store_same_value T' T _ _ _ _ _ Hs' Hi) as (k' & p' & b' & Hi'). by eapply H6.
  - intros i k n p f t e Hi. destruct (store_same_buffer T' T _ _ _ _ _ _ _ Hs' Hi) as (p' & Hi').
    destruct (H7 _ _ _ _ _ _ _ Hi') as (l & content & Hl & Hx & Hnd & Ht). exists l, content.
    split_and!; [done|by eapply store_same_extents|done|done].
  - intros b l Hb. destruct (H8 b l Hb) as [|(k & n & p & f & t & e & Hi)]; [by left|right].
    destruct (store_same_buffer T T' _ _ _ _ _ _ _ Hs Hi) as (p' & Hi'). by exists k, n, p', f, t, e.
Qed.

Lemma content_frame ids T T' X V : store_same T T' → content_ok ids T X V → content_ok ids T' X V.
Proof.
  intros Hs [H1 H2]. pose proof (store_same_sym _ _ Hs) as Hs'. split.
  - intros i e k n p b id Hi Ht. destruct (store_same_value T' T _ _ _ _ _ Hs' Ht) as (k' & p' & b' & Ht'). by eapply H1.
  - intros i e k n p f t x l Hi Ht Hl. destruct (store_same_buffer T' T _ _ _ _ _ _ _ Hs' Ht) as (p' & Ht').
    destruct (H2 _ _ _ _ _ _ _ _ _ Hi Ht' Hl) as (content & Hx & He). exists content. split; [|done].
    by eapply store_same_extents.
Qed.

(** *** Steps that do not concern nodes and values *)

Definition tree_view (x : Z * obj) : option (Z * obj) :=
  match x.2 with
  | O_Header _ => Some (x.1, O_Header 0)
  | O_Reserved | O_Tombstone _ => Some x
  | O_Value _ p (B_Buffer f _ _) => Some (x.1, O_Value 0 p (B_Buffer f 0 0))
  | O_Value _ p b => Some (x.1, O_Value 0 p b)
  | _ => None
  end.

Definition tree_same (T T' : objects) : Prop := ∀ i, T !! i ≫= tree_view = T' !! i ≫= tree_view.

Lemma tree_same_sym T T' : tree_same T T' → tree_same T' T.
Proof. intros Hs i. by rewrite Hs. Qed.

Lemma tree_same_lookup T T' i k o : tree_same T T' → T !! i = Some (k, o) →
  match o with
  | O_Header _ => ∃ g, T' !! i = Some (k, O_Header g)
  | O_Reserved | O_Tombstone _ => T' !! i = Some (k, o)
  | O_Value _ p (B_Buffer f _ _) => ∃ n t e, T' !! i = Some (k, O_Value n p (B_Buffer f t e))
  | O_Value _ p b => ∃ n, T' !! i = Some (k, O_Value n p b)
  | _ => True
  end.
Proof.
  intros Hs Hi. specialize (Hs i). rewrite Hi in Hs.
  destruct o as [| | |? ? []| |], (T' !! i) as [[k' [| | |? ? []| |]]|]; cbn in Hs; simplify_eq; eauto.
Qed.

Lemma tree_frame T T' V dc : tree_same T T' → tree_ok T V dc → tree_ok T' V dc.
Proof.
  intros Hs [H1 H2 H3 H4 H5 H6 H7 H8]. pose proof (tree_same_sym _ _ Hs) as Hs'. split.
  - destruct H1 as [g Hg]. exact (tree_same_lookup _ _ _ _ _ Hs Hg).
  - intros i k g Hi. destruct (tree_same_lookup _ _ _ _ _ Hs' Hi) as [g' Hg]. by eapply H2.
  - intros i k Hi. by eapply H3, (tree_same_lookup _ _ _ _ _ Hs' Hi).
  - intros i k c Hi. by eapply H4, (tree_same_lookup _ _ _ _ _ Hs' Hi).
  - intros i k n p b Hi. pose proof (tree_same_lookup _ _ _ _ _ Hs' Hi) as Hl.
    destruct b; (destruct Hl as (n' & t' & e' & Hl) || destruct Hl as [n' Hl]); exact (H5 _ _ _ _ _ Hl).
  - intros i e Hi. destruct (H6 i e Hi) as (k & n & b & Ht). pose proof (tree_same_lookup _ _ _ _ _ Hs Ht) as Hl.
    destruct b; (destruct Hl as (n' & t' & e' & Hl) || destruct Hl as [n' Hl]); by repeat eexists.
  - intros i e Hi. destruct (H7 i e Hi) as (k & o & Ht & Hc). pose proof (tree_same_lookup _ _ _ _ _ Hs Ht) as Hl.
    destruct o as [| | |? ? []| |]; try done; [destruct Hl as [g Hl]| |destruct Hl as [n' Hl]]; by repeat eexists.
  - done.
Qed.

(** *** Counting children *)

Definition bump (f : Z → Z) (i d : Z) : Z → Z := λ x, f x + (if decide (x = i) then d else 0).

Definition add_children (d : Z) (x : Z * obj) : Z * obj :=
  match x.2 with
  | O_Value n p (B_Node c) => (x.1, O_Value n p (B_Node (c + d)))
  | O_Tombstone c => (x.1, O_Tombstone (c + d))
  | _ => x
  end.

Lemma lookup_alter_cases (T : objects) f p i y : alter f p T !! i = Some y →
  ∃ x, T !! i = Some x ∧ ((i ≠ p ∧ y = x) ∨ (i = p ∧ y = f x)).
Proof.
  intros Hi. destruct (decide (i = p)) as [->|Hne].
  - rewrite lookup_alter_eq in Hi. destruct (T !! p) as [x|]; [|done]. injection Hi as <-. eauto.
  - rewrite lookup_alter_ne in Hi by done. eauto.
Qed.

Lemma add_children_view d x : store_view (add_children d x) = store_view x.
Proof. by destruct x as [k [| | |? ? []| |]]. Qed.

Lemma add_children_same T p d : store_same T (alter (add_children d) p T).
Proof.
  intros i. destruct (decide (i = p)) as [->|].
  - rewrite lookup_alter_eq. destruct (T !! p) as [x|]; [|done]. cbn. by rewrite add_children_view.
  - by rewrite lookup_alter_ne.
Qed.

Lemma add_children_keeps_kind T p d i k o : T !! i = Some (k, o) →
  ∃ o', alter (add_children d) p T !! i = Some (k, o') ∧ (can_parent o → can_parent o') ∧
    ∀ n q b, o = O_Value n q b → ∃ b', o' = O_Value n q b'.
Proof.
  intros Hi. destruct (decide (i = p)) as [->|Hne].
  - rewrite lookup_alter_eq, Hi. destruct o as [| | |? ? []| |]; cbn; eexists; split_and!; try done; intros; simplify_eq; eauto.
  - rewrite lookup_alter_ne by done. exists o. split_and!; [done|done|]. intros n q b ->. eauto.
Qed.

Lemma tree_add_children T V dc p d :
  tree_ok T V dc → (∀ k c, T !! p = Some (k, O_Tombstone c) → 0 < c + d) →
  tree_ok (alter (add_children d) p T) V (bump dc p d).
Proof.
  intros [H1 H2 H3 H4 H5 H6 H7 H8] Hpos. unfold bump. split; [| | | | | | |done].
  - destruct H1 as [g Hg]. destruct (decide (0 = p)) as [<-|]; [|rewrite lookup_alter_ne by done; eauto].
    rewrite lookup_alter_eq, Hg. cbn. eauto.
  - intros i k g Hi. destruct (lookup_alter_cases _ _ _ _ _ Hi) as ([k' o] & Hx & [[_ [= <- <-]]|[_ He]]); [eauto|].
    destruct o as [| | |? ? []| |]; cbn in He; simplify_eq; eauto.
  - intros i k Hi. destruct (lookup_alter_cases _ _ _ _ _ Hi) as ([k' o] & Hx & [[_ [= <- <-]]|[_ He]]); [by eapply H3|].
    destruct o as [| | |? ? []| |]; cbn in He; simplify_eq. by eapply H3.
  - intros i k c Hi. destruct (lookup_alter_cases _ _ _ _ _ Hi) as ([k' o] & Hx & [[Hne [= <- <-]]|[-> He]]).
    + rewrite decide_False by done. rewrite Z.add_0_r. eauto.
    + destruct o as [| |c'|? ? []| |]; cbn in He; simplify_eq. rewrite decide_True by done.
      destruct (H4 _ _ _ Hx) as (Hv & -> & _). specialize (Hpos _ _ Hx). split_and!; [done|lia|lia].
  - intros i k n q b Hi. destruct (lookup_alter_cases _ _ _ _ _ Hi) as ([k' o] & Hx & [[Hne [= <- <-]]|[-> He]]).
    + rewrite decide_False by done. rewrite Z.add_0_r. eauto.
    + rewrite decide_True by done. destruct o as [| |c'|? ? []| |]; cbn in He; simplify_eq;
        destruct (H5 _ _ _ _ _ Hx) as (e & He & -> & Hb); exists e; split_and!; try done.
      unfold body_means in *. destruct (e_value e); try done. lia.
  - intros i e Hi. destruct (H6 i e Hi) as (k & n & b & Ht).
    destruct (add_children_keeps_kind T p d _ _ _ Ht) as (o' & Ho & _ & Hb). destruct (Hb _ _ _ eq_refl) as [b' ->]. eauto.
  - intros i e Hi. destruct (H7 i e Hi) as (k & o & Ht & Hc).
    destruct (add_children_keeps_kind T p d _ _ _ Ht) as (o' & Ho & Hc' & _). eauto.
Qed.

Lemma wf_add_children ids T X V dn dc p d :
  wf ids T X V dn dc → (∀ k c, T !! p = Some (k, O_Tombstone c) → 0 < c + d) →
  wf ids (alter (add_children d) p T) X V dn (bump dc p d).
Proof.
  intros [Hs Ht Hc] Hpos. split.
  - by eapply store_frame; [apply add_children_same|].
  - by apply tree_add_children.
  - by eapply content_frame; [apply add_children_same|].
Qed.

(** A tombstone goes with its last child. *)
Lemma wf_drop_tombstone ids T X V dn dc p k c :
  wf ids T X V dn dc → T !! p = Some (k, O_Tombstone c) → children V p = 0 →
  wf ids (delete p T) X V dn dc.
Proof.
  intros [Hs [H1 H2 H3 H4 H5 H6 H7 H8] Hc] Hp Hz.
  assert (store_same T (delete p T)) as Hsame.
  { intros i. destruct (decide (p = i)) as [<-|]; [by rewrite lookup_delete_eq, Hp|by rewrite lookup_delete_ne]. }
  split; [by eapply store_frame| |by eapply content_frame].
  assert (∀ i y, delete p T !! i = Some y → T !! i = Some y) as Hd by (by intros i y [_ ?]%lookup_delete_Some).
  split; [| | | | | | |done].
  - destruct H1 as [g Hg]. exists g. rewrite lookup_delete_ne by (intros ->; congruence). done.
  - eauto.
  - intros i k' Hi%Hd. by eapply H3.
  - eauto.
  - eauto.
  - intros i e Hi. destruct (H6 i e Hi) as (k' & n & b & Ht). exists k', n, b. rewrite lookup_delete_ne by (intros ->; congruence). done.
  - intros i e Hi. destruct (H7 i e Hi) as (k' & o & Ht & Hcp). exists k', o. split; [|done].
    rewrite lookup_delete_ne; [done|]. intros Heq. pose proof (count_zero _ _ Hz i e Hi) as Hn.
    unfold is_child in Hn. apply Z.eqb_neq in Hn. congruence.
Qed.

(** *** Strings *)

Lemma content_weak ids T T' X V :
  (∀ i k n p b, T' !! i = Some (k, O_Value n p b) → T !! i = Some (k, O_Value n p b)) →
  (∀ i l x c, X !! i = Some l → extents T x l c → extents T' x l c) →
  content_ok ids T X V → content_ok ids T' X V.
Proof.
  intros Hv Hx [H1 H2]. split.
  - intros i e k n p b id Hi Ht%Hv. by eapply H1.
  - intros i e k n p f t x l Hi Ht%Hv Hl. destruct (H2 _ _ _ _ _ _ _ _ _ Hi Ht Hl) as (content & Hc & He). eauto.
Qed.

Lemma lookup_add_refs T b d i k o : alter (add_refs d) b T !! i = Some (k, o) →
  ∃ o', T !! i = Some (k, o') ∧
    match o with
    | O_String c nx t ib => o' = O_String (c - (if decide (i = b) then d else 0)) nx t ib
    | _ => o' = o
    end.
Proof.
  intros Hi. destruct (lookup_alter_cases _ _ _ _ _ Hi) as ([k' o'] & Hx & [[Hne [= <- <-]]|[-> He]]).
  - exists o. split; [done|]. destruct o; try done. rewrite decide_False by done. f_equal. lia.
  - destruct o' as [| | |? ? ?| |]; cbn in He; simplify_eq; eexists; split; try done.
    rewrite decide_True by done. f_equal. lia.
Qed.

Lemma add_refs_other T b d i x : T !! i = Some x → (i = b → add_refs d x = x) → alter (add_refs d) b T !! i = Some x.
Proof.
  intros Hi Hx. destruct (decide (i = b)) as [->|].
  - rewrite lookup_alter_eq, Hi. cbn. by rewrite Hx.
  - by rewrite lookup_alter_ne.
Qed.

Lemma extents_add_refs T b d n l c : extents T n l c → extents (alter (add_refs d) b T) n l c.
Proof.
  induction 1; [constructor|]. econstructor; [done| |done..]. by eapply add_refs_other.
Qed.

Lemma refs_add_refs T b d i : refs (alter (add_refs d) b T) i = refs T i.
Proof. apply count_alter. intros [k [| | |? ? []| |]]; done. Qed.

Lemma wf_add_refs ids T X V dn dc b d :
  wf ids T X V dn dc → wf ids (alter (add_refs d) b T) X V (bump dn b d) dc.
Proof.
  intros [[H1 H2 H3 H4 H5 H6 H7 H8 H9] Ht Hc].
  assert (∀ i k n p q, alter (add_refs d) b T !! i = Some (k, O_Value n p q) → T !! i = Some (k, O_Value n p q)) as Hv.
  { intros i k n p q Hi. destruct (lookup_add_refs _ _ _ _ _ _ Hi) as (o & Ho & ->). done. }
  split.
  - split; [..|done].
    + intros i k c nx t ib Hi. destruct (lookup_add_refs _ _ _ _ _ _ Hi) as (o & Ho & ->).
      rewrite refs_add_refs. unfold bump. pose proof (H1 _ _ _ _ _ _ Ho). destruct (decide (i = b)); lia.
    + intros i k c nx t ib Hi. destruct (lookup_add_refs _ _ _ _ _ _ Hi) as (o & Ho & ->). eauto.
    + intros i k nx c Hi. destruct (lookup_add_refs _ _ _ _ _ _ Hi) as (o & Ho & ->). eauto.
    + intros id b' Hid. destruct (H4 _ _ Hid) as (c & l & Hl & Hb). destruct (decide (b' = b)) as [->|Hne].
      * exists (c + d), l. split; [done|]. by apply string_block_add_refs.
      * exists c, l. split; [done|]. destruct Hb as (k & nx & ib & rest & Hb & Hx & Hrest). exists k, nx, ib, rest.
        split; [by rewrite lookup_alter_ne|]. split; [|done]. by apply extents_add_refs.
    + done.
    + intros i k n p q Hi%Hv. eauto.
    + intros i k n p f t e Hi%Hv. destruct (H7 _ _ _ _ _ _ _ Hi) as (l & content & Hl & Hx & Hrest).
      exists l, content. split; [done|]. split; [|done]. by apply extents_add_refs.
    + intros b' l Hb. destruct (H8 _ _ Hb) as [|(k & n & p & f & t & e & Hi)]; [by left|right].
      exists k, n, p, f, t, e. by eapply add_refs_other.
  - apply (tree_frame T); [|done]. intros i. destruct (decide (i = b)) as [->|].
    + rewrite lookup_alter_eq. by destruct (T !! b) as [[k [| | |? ? []| |]]|].
    + by rewrite lookup_alter_ne.
  - eapply content_weak; [exact Hv| |done]. intros i l x c _. apply extents_add_refs.
Qed.

(** The chain of an owner. *)
Lemma store_chain ids T X dn b l : store_ok ids T X dn → X !! b = Some l →
  is_Some (T !! b) ∧ NoDup l ∧ ∃ n c, extents T n l c.
Proof.
  intros [_ _ _ H4 _ _ H7 H8 _] Hl. destruct (H8 b l Hl) as [[id Hid]|(k & n & p & f & t & e & Hi)].
  - destruct (H4 _ _ Hid) as (c & l' & Hl' & (k & nx & ib & rest & Hb & Hx & _ & _ & Hnd)). simplify_eq. eauto.
  - destruct (H7 _ _ _ _ _ _ _ Hi) as (l' & content & Hl' & Hx & Hnd & _). simplify_eq. eauto.
Qed.

Lemma store_chain_extent ids T X dn b l y : store_ok ids T X dn → X !! b = Some l → y ∈ l →
  ∃ k nx c, T !! y = Some (k, O_Extent nx c).
Proof.
  intros Hs Hl Hy. destruct (store_chain _ _ _ _ _ _ Hs Hl) as (_ & _ & n & c & Hx). by eapply extents_lookup.
Qed.

(** The chain of an owner is cut off. *)
Section cut.
Context {ids : gmap Z Z} {T : objects} {X : gmap Z (list Z)} {dn : Z → Z}.
Context (Hst : store_ok ids T X dn).
Context {b : Z} {l : list Z}.
Context (Hl : X !! b = Some l).

Lemma cut_lookup i x : without l T !! i = Some x → T !! i = Some x ∧ i ∉ l.
Proof using.
  intros Hi. destruct (decide (i ∈ l)); [by rewrite lookup_without_in in Hi|]. by rewrite lookup_without in Hi.
Qed.

Lemma cut_stays i k o : T !! i = Some (k, o) → (∀ nx c, o ≠ O_Extent nx c) → without l T !! i = Some (k, o).
Proof using Hst Hl.
  intros Hi Ho. rewrite lookup_without; [done|]. intros Hin.
  destruct (store_chain_extent _ _ _ _ _ _ _ Hst Hl Hin) as (k' & nx & c & Hy). rewrite Hi in Hy. injection Hy as _ ->.
  by destruct (Ho nx c).
Qed.

Lemma cut_extents b' l' n c : X !! b' = Some l' → b' ≠ b → extents T n l' c → extents (without l T) n l' c.
Proof using Hst Hl.
  intros Hl' Hne. apply extents_agree. intros y Hy. apply lookup_without. intros Hin.
  apply Hne. by eapply (store_disjoint _ _ _ _ Hst).
Qed.

Lemma cut_cases i : without l T !! i = T !! i ∨
  (without l T !! i = None ∧ ∃ k nx c, T !! i = Some (k, O_Extent nx c)).
Proof using Hst Hl.
  destruct (decide (i ∈ l)) as [Hin|]; [right|left; by apply lookup_without].
  split; [by apply lookup_without_in|by eapply store_chain_extent].
Qed.

Lemma cut_refs x : refs (without l T) x = refs T x.
Proof using Hst Hl.
  apply count_ext. intros i. destruct (cut_cases i) as [->|(-> & k & nx & c & ->)]; done.
Qed.

Lemma cut_tree_same : tree_same T (without l T).
Proof using Hst Hl. intros i. destruct (cut_cases i) as [->|(-> & k & nx & c & ->)]; done. Qed.
End cut.

(** A string without users goes, with its extents. *)
Section drop.
Context {ids : gmap Z Z} {T : objects} {X : gmap Z (list Z)} {V : tree} {dn dc : Z → Z}.
Context (Hw : wf ids T X V dn dc).
Context {id b : Z} {l : list Z}.
Context (Hid : ids !! id = Some b) (Hl : X !! b = Some l) (Hz : refs T b = 0).
Let T' := delete b (without l T).

Lemma drop_lookup i x : T' !! i = Some x → T !! i = Some x ∧ i ≠ b.
Proof using. by intros [? [? _]%cut_lookup]%lookup_delete_Some. Qed.

Lemma drop_id id' n : ids !! id' = Some n → n ≠ b → delete id ids !! id' = Some n.
Proof using Hid. intros Hn Hnb. rewrite lookup_delete_ne; [done|]. intros ->. congruence. Qed.

Lemma drop_extents b' l' n c : X !! b' = Some l' → b' ≠ b → extents T n l' c → extents T' n l' c.
Proof using Hw Hl Hid Hz.
  intros Hl' Hne Hx. pose proof (wf_store _ _ _ _ _ _ Hw) as Hst.
  apply (extents_agree (without l T)); [|by eapply (cut_extents Hst)]. intros y Hy. apply lookup_delete_ne. intros ->.
  destruct (store_chain_extent _ _ _ _ _ _ _ Hst Hl' Hy) as (? & ? & ? & ?).
  destruct (store_id _ _ _ _ Hst _ _ Hid) as (? & ? & _ & (? & ? & ? & ? & ? & _)). congruence.
Qed.

Lemma drop_string_lookup : ∃ k c nx t ib, without l T !! b = Some (k, O_String c nx t ib).
Proof using Hw Hl Hid Hz.
  pose proof (wf_store _ _ _ _ _ _ Hw) as Hst. destruct (store_id _ _ _ _ Hst _ _ Hid) as (c & ? & _ & (k & nx & ib & ? & Hb & _)).
  eexists k, c, nx, _, ib. by apply (cut_stays Hst Hl).
Qed.

Lemma store_drop : store_ok (delete id ids) T' (delete b X) dn.
Proof using Hw Hid Hl Hz.
  destruct Hw as [Hst _ _]. pose proof Hst as [H1 H2 H3 H4 H5 H6 H7 H8 H9].
  assert (∀ i, refs T' i = refs T i) as Hrefs.
  { intros i. rewrite <- (cut_refs Hst Hl). destruct drop_string_lookup as (k & c & nx & t & ib & Hb).
    unfold T', refs. rewrite (count_delete _ _ _ _ Hb). cbn. lia. }
  split.
  - intros i k c nx t ib [Hi _]%drop_lookup. rewrite Hrefs. by eapply H1.
  - intros i k c nx t ib [Hi Hne]%drop_lookup. destruct (H2 _ _ _ _ _ _ Hi) as [id' Hid']. exists id'. by apply drop_id.
  - intros i k nx c [Hne [Hi Hni]%cut_lookup]%lookup_delete_Some. destruct (H3 _ _ _ _ Hi) as (b' & l' & Hl' & Hin).
    exists b', l'. rewrite lookup_delete_ne; [done|]. intros <-. congruence.
  - intros id' b' [Hne Hid']%lookup_delete_Some. destruct (H4 _ _ Hid') as (c & l' & Hl' & Hs).
    assert (b' ≠ b) as Hbb by (intros ->; by apply Hne, (H5 _ _ b)).
    exists c, l'. rewrite lookup_delete_ne by done. split; [done|].
    destruct Hs as (k & nx & ib & rest & Hb' & Hx & Hrest). exists k, nx, ib, rest.
    split; [|split; [by eapply drop_extents|done]]. unfold T'. rewrite lookup_delete_ne by done. by apply (cut_stays Hst Hl).
  - intros id1 id2 b' [_ ?]%lookup_delete_Some [_ ?]%lookup_delete_Some. by eapply H5.
  - intros i k n p q [Hi _]%drop_lookup. destruct (H6 _ _ _ _ _ Hi) as [id' Hid']. exists id'. apply drop_id; [done|].
    intros ->. pose proof (count_zero _ _ Hz _ _ Hi) as Hn. cbn in Hn. apply Z.eqb_neq in Hn. congruence.
  - intros i k n p f t e [Hi Hne]%drop_lookup. destruct (H7 _ _ _ _ _ _ _ Hi) as (l' & content & Hl' & Hx & Hrest).
    exists l', content. rewrite lookup_delete_ne by done. split; [done|]. split; [by eapply drop_extents|done].
  - intros b' l' [Hne Hl']%lookup_delete_Some. destruct (H8 _ _ Hl') as [[id' Hid']|(k & n & p & f & t & e & Hi)].
    + left. exists id'. by apply drop_id.
    + right. exists k, n, p, f, t, e. unfold T'. rewrite lookup_delete_ne by done. by apply (cut_stays Hst Hl).
  - intros b1 b2 l1 l2 x [_ Hl1]%lookup_delete_Some [_ Hl2]%lookup_delete_Some. by eapply H9.
Qed.

Lemma wf_drop_string : wf (delete id ids) T' (delete b X) V dn dc.
Proof using Hw Hid Hl Hz.
  split; [by apply store_drop| |]; destruct Hw as [Hst Ht Hc].
  - apply (tree_frame (without l T)); [|apply (tree_frame T); [by apply (cut_tree_same Hst Hl)|done]].
    intros i. destruct (decide (b = i)) as [<-|Hne]; [|unfold T'; by rewrite lookup_delete_ne].
    destruct drop_string_lookup as (k & c & nx & t & ib & Hb). unfold T'. by rewrite lookup_delete_eq, Hb.
  - destruct Hc as [Hc1 Hc2]. split.
    + intros i e k n p q id' Hi [Hv _]%drop_lookup [_ ?]%lookup_delete_Some. by eapply Hc1.
    + intros i e k n p f t x l' Hi [Hv Hne]%drop_lookup [_ Hl']%lookup_delete_Some.
      destruct (Hc2 _ _ _ _ _ _ _ _ _ Hi Hv Hl') as (content & Hx & He). exists content. split; [|done]. by eapply drop_extents.
Qed.
End drop.

(** [T'] is [T] with new blocks at [D], none of them a value. *)
Record grown (T T' : objects) (D : list Z) : Prop := {
  grown_sub : T ⊆ T';
  grown_new : ∀ i, i ∈ D → T !! i = None;
  grown_only : ∀ i x, T' !! i = Some x → T !! i = None → i ∈ D;
  grown_kind : ∀ i x, T' !! i = Some x → i ∈ D →
    match x.2 with O_String _ _ _ _ | O_Extent _ _ => True | _ => False end;
}.

Section grown.
Context {T T' : objects} {D : list Z}.
Context (Hg : grown T T' D).

Lemma grown_cases i x : T' !! i = Some x → T !! i = Some x ∨ i ∈ D.
Proof using Hg.
  intros Hi. destruct (T !! i) as [y|] eqn:Hy; [left|right; by eapply (grown_only _ _ _ Hg)].
  pose proof (lookup_weaken _ _ _ _ Hy (grown_sub _ _ _ Hg)). congruence.
Qed.

Lemma grown_old i k o : T' !! i = Some (k, o) →
  match o with O_String _ _ _ _ | O_Extent _ _ => True | _ => T !! i = Some (k, o) end.
Proof using Hg.
  intros Hi. destruct (grown_cases i _ Hi) as [Ho|Hin]; [by destruct o|].
  pose proof (grown_kind _ _ _ Hg i _ Hi Hin) as Hk. by destruct o.
Qed.

Lemma grown_refs b : refs T' b = refs T b.
Proof using Hg.
  apply count_ext. intros i. destruct (T' !! i) as [x|] eqn:Hi.
  - destruct (grown_cases i x Hi) as [->|Hin]; [done|]. rewrite (grown_new _ _ _ Hg) by done.
    pose proof (grown_kind _ _ _ Hg i x Hi Hin). destruct x as [k []]; done.
  - destruct (T !! i) as [y|] eqn:Hy; [|done]. by rewrite (lookup_weaken _ _ _ _ Hy (grown_sub _ _ _ Hg)) in Hi.
Qed.

Lemma grown_tree_same : tree_same T T'.
Proof using Hg.
  intros i. destruct (T' !! i) as [x|] eqn:Hi.
  - destruct (grown_cases i x Hi) as [->|Hin]; [done|]. rewrite (grown_new _ _ _ Hg) by done.
    pose proof (grown_kind _ _ _ Hg i x Hi Hin). destruct x as [k []]; done.
  - destruct (T !! i) as [y|] eqn:Hy; [|done]. by rewrite (lookup_weaken _ _ _ _ Hy (grown_sub _ _ _ Hg)) in Hi.
Qed.

Lemma grown_content ids X V : content_ok ids T X V → content_ok ids T' X V.
Proof using Hg.
  apply content_weak.
  - intros i k n p b Hi. apply (grown_old _ _ _ Hi).
  - intros i l x c _. apply extents_subset, Hg.
Qed.
End grown.

Lemma string_block_subset T T' b c l d : T ⊆ T' → string_block T b c l d → string_block T' b c l d.
Proof.
  intros Hsub (k & nx & ib & rest & Hb & Hx & Hrest). exists k, nx, ib, rest.
  split; [by eapply lookup_weaken|]. split; [by eapply extents_subset|done].
Qed.

(** A new string, used by nobody yet. *)
Lemma wf_new_string ids T X V dn dc T' id b l :
  wf ids T X V dn dc → grown T T' (b :: l) → ids !! id = None → dn b = 0 →
  string_block T' b 0 l (text id) →
  wf (<[id := b]> ids) T' (<[b := l]> X) V dn dc.
Proof.
  intros [Hst Ht Hc] Hg Hid Hdn Hnew. pose proof Hst as [H1 H2 H3 H4 H5 H6 H7 H8 H9].
  pose proof (grown_sub _ _ _ Hg) as Hsub.
  assert (T !! b = None) as Hb by (apply (grown_new _ _ _ Hg); by left).
  assert (∀ id', ids !! id' ≠ Some b) as Hfresh.
  { intros id' Hid'. destruct (H4 _ _ Hid') as (c & l' & _ & (k & nx & ib & rest & Hb' & _)). congruence. }
  assert (X !! b = None) as HXb.
  { destruct (X !! b) as [l'|] eqn:E; [|done]. destruct (store_chain _ _ _ _ _ _ Hst E) as [[? ?] _]. congruence. }
  assert (∀ id' n, ids !! id' = Some n → <[id := b]> ids !! id' = Some n) as Hids.
  { intros id' n Hn. rewrite lookup_insert_ne; [done|]. intros ->. congruence. }
  assert (∀ b' l', X !! b' = Some l' → <[b := l]> X !! b' = Some l') as HX.
  { intros b' l' Hl'. rewrite lookup_insert_ne; [done|]. intros ->. congruence. }
  assert (∃ nx rest kb tb ib, extents T' nx l rest ∧ T' !! b = Some (kb, O_String 0 nx tb ib)) as (nx0 & rest0 & kb & tb & ibb & Hx0 & Hb0).
  { destruct Hnew as (k & nx & ib & rest & Hb' & Hx & _). by eexists _, _, _, _, _. }
  split.
  - split.
    + intros i k c nx t ib Hi. rewrite (grown_refs Hg). destruct (grown_cases Hg i _ Hi) as [Ho|Hin]; [by eapply H1|].
      apply elem_of_cons in Hin as [->|Hin].
      * assert (refs T b = 0) as ->.
        { apply count_none. intros j [k' [| | |n p q| |]] Hj; try done. cbn. apply Z.eqb_neq. intros ->.
          destruct (H6 _ _ _ _ _ Hj) as [id' Hid']. by destruct (Hfresh id'). }
        rewrite Hb0 in Hi. injection Hi as <- <- <- <- <-. lia.
      * destruct (extents_lookup _ _ _ _ _ Hx0 Hin) as (? & ? & ? & ?). congruence.
    + intros i k c nx t ib Hi. destruct (grown_cases Hg i _ Hi) as [Ho|Hin].
      * destruct (H2 _ _ _ _ _ _ Ho) as [id' Hid']. exists id'. by apply Hids.
      * apply elem_of_cons in Hin as [->|Hin]; [exists id; by rewrite lookup_insert_eq|].
        destruct (extents_lookup _ _ _ _ _ Hx0 Hin) as (? & ? & ? & ?). congruence.
    + intros i k nx c Hi. destruct (grown_cases Hg i _ Hi) as [Ho|Hin].
      * destruct (H3 _ _ _ _ Ho) as (b' & l' & Hl' & Hin). exists b', l'. split; [by apply HX|done].
      * apply elem_of_cons in Hin as [->|Hin]; [congruence|]. exists b, l. by rewrite lookup_insert_eq.
    + intros id' b' Hid'. destruct (decide (id = id')) as [<-|Hne].
      * rewrite lookup_insert_eq in Hid'. injection Hid' as <-. exists 0, l. by rewrite lookup_insert_eq.
      * rewrite lookup_insert_ne in Hid' by done. destruct (H4 _ _ Hid') as (c & l' & Hl' & Hs). exists c, l'.
        split; [by apply HX|]. by eapply string_block_subset.
    + intros id1 id2 b' [[<- <-]|[_ Hi1]]%lookup_insert_Some [[<- Hb']|[_ Hi2]]%lookup_insert_Some; [done|..].
      * by destruct (Hfresh id2).
      * destruct (Hfresh id1). by rewrite Hb'.
      * by eapply H5.
    + intros i k n p q Hi. destruct (H6 _ _ _ _ _ (grown_old Hg _ _ _ Hi)) as [id' Hid']. exists id'. by apply Hids.
    + intros i k n p f t e Hi. destruct (H7 _ _ _ _ _ _ _ (grown_old Hg _ _ _ Hi)) as (l' & content & Hl' & Hx & Hrest).
      exists l', content. split; [by apply HX|]. split; [by eapply extents_subset|done].
    + intros b' l' Hl'. destruct (decide (b = b')) as [<-|Hne]; [left; exists id; by rewrite lookup_insert_eq|].
      rewrite lookup_insert_ne in Hl' by done. destruct (H8 _ _ Hl') as [[id' Hid']|(k & n & p & f & t & e & Hi)].
      * left. exists id'. by apply Hids.
      * right. exists k, n, p, f, t, e. by eapply lookup_weaken.
    + assert (∀ b' l' x, X !! b' = Some l' → x ∈ l → x ∈ l' → False) as Hdis.
      { intros b' l' x Hl' Hx Hx'. destruct (store_chain_extent _ _ _ _ _ _ _ Hst Hl' Hx') as (? & ? & ? & Hy).
        rewrite (grown_new _ _ _ Hg) in Hy; [done|by right]. }
      intros b1 b2 l1 l2 x [[<- <-]|[_ Hl1]]%lookup_insert_Some [[<- <-]|[_ Hl2]]%lookup_insert_Some Hx1 Hx2; [done|..].
      * by destruct (Hdis b2 l2 x).
      * by destruct (Hdis b1 l1 x).
      * by eapply H9.
  - apply (tree_frame T); [by apply (grown_tree_same Hg)|done].
  - apply (grown_content Hg) in Hc as [Hc1 Hc2]. split.
    + intros i e k n p q id' Hi Hv Hn. destruct (decide (id = id')) as [<-|].
      * rewrite lookup_insert_eq in Hn. injection Hn as <-. destruct (H6 _ _ _ _ _ (grown_old Hg _ _ _ Hv)) as [id' Hid'].
        by destruct (Hfresh id').
      * rewrite lookup_insert_ne in Hn by done. by eapply Hc1.
    + intros i e k n p f t x l' Hi Hv Hl'. rewrite lookup_insert_ne in Hl'; [by eapply Hc2|].
      intros ->. pose proof (grown_old Hg _ _ _ Hv). cbn in *. congruence.
Qed.
End representation.

(** ** Steps *)

Section steps.
Context (text : Z → rstring).

(** ** Facts *)

Lemma wf_children_of ids T X V dn dc i : wf text ids T X V dn dc →
  (∀ k o, T !! i = Some (k, o) → ~ can_parent o) → children V i = 0.
Proof.
  intros [_ Ht _] Hn. apply count_none. intros j e Hj. apply Z.eqb_neq. intros <-.
  destruct (tree_parent _ _ _ Ht j e Hj) as (k & o & Ho & Hc). by eapply Hn.
Qed.

Lemma wf_value ids T X V dn dc i e : wf text ids T X V dn dc → V !! i = Some e →
  ∃ k n b, T !! i = Some (k, O_Value n (e_parent e) b) ∧ body_means (children V i + dc i) b (e_value e).
Proof.
  intros [_ Ht _] Hi. destruct (tree_entry _ _ _ Ht i e Hi) as (k & n & b & Hb). exists k, n, b. split; [done|].
  destruct (tree_value _ _ _ Ht _ _ _ _ _ Hb) as (e' & He' & _ & Hm). congruence.
Qed.

(** A value has no children. *)
Lemma wf_leaf ids T X V dn dc i e : wf text ids T X V dn dc → V !! i = Some e → e_value e ≠ A_Node → children V i = 0.
Proof.
  intros Hw Hi He. apply (wf_children_of _ _ _ _ _ _ i Hw). intros k o Ho Hc.
  destruct (wf_value _ _ _ _ _ _ _ _ Hw Hi) as (k' & n & b & Hb & Hm). rewrite Ho in Hb. injection Hb as -> ->.
  destruct b; try done. by destruct (e_value e).
Qed.

Lemma children_insert V i e x : V !! i = None → children (<[i := e]> V) x = children V x + one (is_child x e).
Proof. apply count_insert. Qed.

Lemma children_delete V i e x : V !! i = Some e → children (delete i V) x = children V x - one (is_child x e).
Proof. apply count_delete. Qed.

Lemma children_update V i e e' x : V !! i = Some e → e_parent e' = e_parent e →
  children (<[i := e']> V) x = children V x.
Proof. intros Hi He. apply (count_same _ _ _ e); [done|]. unfold is_child. by rewrite He. Qed.

Definition is_buffer (b : body) : bool := match b with B_Buffer _ _ _ => true | _ => false end.
Definition is_node (b : body) : bool := match b with B_Node _ => true | _ => false end.

(** Strings and extents look the same when values that are not buffers change. *)
Lemma store_same_insert T i k n p b p' b' : T !! i = Some (k, O_Value n p b) → is_buffer b = false → is_buffer b' = false →
  store_same T (<[i := (k, O_Value n p' b')]> T).
Proof.
  intros Hi Hb Hb' j. destruct (decide (i = j)) as [<-|]; [|by rewrite lookup_insert_ne].
  rewrite lookup_insert_eq, Hi. by destruct b, b'.
Qed.

(** ** A new value *)

Section insert.
Context {ids : gmap Z Z} {T : objects} {X : gmap Z (list Z)} {V : tree} {dn dc : Z → Z}.
Context (Hw : wf text ids T X V dn dc).
Context {i k n : Z} {e : entry} {b : body}.
Context (Hi : T !! i = None).

Lemma insert_extents y l c : extents T y l c → extents (<[i := (k, O_Value n (e_parent e) b)]> T) y l c.
Proof using Hi. apply extents_subset, insert_subseteq, Hi. Qed.

Lemma store_insert_value id : ids !! id = Some n →
  (∀ f t x, b = B_Buffer f t x → t = 0 ∧ x = 0) →
  store_ok text ids (<[i := (k, O_Value n (e_parent e) b)]> T) (if is_buffer b then <[i := []]> X else X) (bump dn n (-1)).
Proof using Hw Hi.
  intros Hid Hbuf. destruct Hw as [Hst _ _]. pose proof Hst as [H1 H2 H3 H4 H5 H6 H7 H8 H9].
  set (T' := <[i := _]> T). set (X' := if is_buffer b then _ else X).
  assert (X !! i = None) as HXi.
  { destruct (X !! i) as [l|] eqn:E; [|done]. destruct (store_chain _ _ _ _ _ _ _ Hst E) as [[? ?] _]. congruence. }
  assert (∀ j l, X !! j = Some l → X' !! j = Some l) as HX.
  { intros j l Hj. unfold X'. destruct (is_buffer b); [|done]. rewrite lookup_insert_ne; [done|]. intros ->. congruence. }
  assert (∀ j l, X' !! j = Some l → X !! j = Some l ∨ (j = i ∧ l = [] ∧ is_buffer b = true)) as HX'.
  { intros j l. unfold X'. destruct (is_buffer b); [|auto]. intros [[-> ->]|[_ ?]]%lookup_insert_Some; auto. }
  assert (∀ x, refs T' x = refs T x + one (n =? x)) as Hrefs by (intros x; unfold refs, T'; by rewrite count_insert).
  split.
  - intros j k' c nx t ib [[<- [=]]|[_ Hj]]%lookup_insert_Some.
    rewrite Hrefs. unfold bump, one. pose proof (H1 _ _ _ _ _ _ Hj). destruct (Z.eqb_spec n j), (decide (j = n)); lia || congruence.
  - intros j k' c nx t ib [[<- [=]]|[_ Hj]]%lookup_insert_Some. by eapply H2.
  - intros j k' nx c [[<- [=]]|[_ Hj]]%lookup_insert_Some. destruct (H3 _ _ _ _ Hj) as (b' & l & Hl & Hin). eauto.
  - intros id' b' Hid'. destruct (H4 _ _ Hid') as (c & l & Hl & Hs). exists c, l. split; [by apply HX|].
    eapply string_block_subset; [|exact Hs]. by apply insert_subseteq.
  - done.
  - intros j k' n' p q [[<- [= <- <- <- <-]]|[_ Hj]]%lookup_insert_Some; eauto.
  - intros j k' n' p f t x [[<- [= <- <- <- Hb]]|[_ Hj]]%lookup_insert_Some.
    + exists [], []. destruct (Hbuf _ _ _ Hb) as [-> ->]. split_and!; [|constructor|constructor|done].
      unfold X'. rewrite Hb. cbn. by rewrite lookup_insert_eq.
    + destruct (H7 _ _ _ _ _ _ _ Hj) as (l & content & Hl & Hx & Hrest). exists l, content.
      split; [by apply HX|]. split; [by apply insert_extents|done].
  - intros b' l [Hl|(-> & -> & Hb)]%HX'.
    + destruct (H8 _ _ Hl) as [|(k' & n' & p & f & t & x & Hb')]; [by left|right]. exists k', n', p, f, t, x.
      unfold T'. rewrite lookup_insert_ne; [done|]. intros ->. congruence.
    + right. destruct b; try done. eexists _, _, _, _, _, _. unfold T'. by rewrite lookup_insert_eq.
  - intros b1 b2 l1 l2 x [Hl1|(_ & -> & _)]%HX' [Hl2|(_ & -> & _)]%HX' Hx1 Hx2; [by eapply H9|by apply elem_of_nil in Hx2|by apply elem_of_nil in Hx1..].
Qed.

Lemma tree_insert_value : i ≠ 0 → dc i = 0 → body_means 0 b (e_value e) →
  (∃ k' o, T !! e_parent e = Some (k', o) ∧ can_parent o) →
  tree_ok (<[i := (k, O_Value n (e_parent e) b)]> T) (<[i := e]> V) (bump dc (e_parent e) (-1)).
Proof using Hw Hi.
  intros Hi0 Hdc Hb Hp. assert (children V i = 0) as Hci.
  { apply (wf_children_of _ _ _ _ _ _ i Hw). congruence. }
  destruct Hw as [_ [H1 H2 H3 H4 H5 H6 H7 H8] _].
  assert (V !! i = None) as HVi.
  { destruct (V !! i) as [e'|] eqn:E; [|done]. destruct (H6 _ _ E) as (? & ? & ? & ?). congruence. }
  assert (e_parent e ≠ i) as Hpi by (intros E; destruct Hp as (? & ? & Hp & _); congruence).
  assert (∀ x, children (<[i := e]> V) x + bump dc (e_parent e) (-1) x = children V x + dc x) as Hch.
  { intros x. rewrite children_insert by done. unfold bump, is_child, one.
    destruct (Z.eqb_spec (e_parent e) x), (decide (x = e_parent e)); lia || congruence. }
  split.
  - destruct H1 as [g Hg]. exists g. by rewrite lookup_insert_ne.
  - intros j k' g [[<- [=]]|[_ Hj]]%lookup_insert_Some. by eapply H2.
  - intros j k' [[<- [=]]|[_ Hj]]%lookup_insert_Some. by eapply H3.
  - intros j k' c [[<- [=]]|[Hne Hj]]%lookup_insert_Some. rewrite Hch, lookup_insert_ne by done. by eapply H4.
  - intros j k' n' p q [[<- [= <- <- <- <-]]|[Hne Hj]]%lookup_insert_Some; rewrite Hch.
    + exists e. rewrite lookup_insert_eq. split_and!; [done|done|]. by rewrite Hci, Hdc.
    + rewrite lookup_insert_ne by done. by eapply H5.
  - intros j e' [[<- <-]|[Hne Hj]]%lookup_insert_Some; [exists k, n, b; by rewrite lookup_insert_eq|].
    destruct (H6 _ _ Hj) as (k' & n' & q & Hq). exists k', n', q. by rewrite lookup_insert_ne.
  - intros j e' [[<- <-]|[Hne Hj]]%lookup_insert_Some.
    + destruct Hp as (k' & o & Ho & Hc). exists k', o. by rewrite lookup_insert_ne.
    + destruct (H7 _ _ Hj) as (k' & o & Ho & Hc). exists k', o. rewrite lookup_insert_ne; [done|]. intros ->. congruence.
  - assert (rooted (<[i := e]> V) i) as Hr.
    { eapply rooted_in; [by rewrite lookup_insert_eq|]. generalize (H8 (e_parent e)). clear -HVi Hpi H7 Hi.
      revert Hpi. generalize (e_parent e) as j. intros j Hpi Hr. induction Hr as [j Hj|j e' Hj _ IH].
      - apply rooted_out. by rewrite lookup_insert_ne.
      - eapply rooted_in; [by rewrite lookup_insert_ne|]. apply IH. intros E.
        destruct (H7 _ _ Hj) as (? & ? & ? & _). congruence. }
    intros j. by apply rooted_insert.
Qed.

Lemma wf_insert_value id : i ≠ 0 → dc i = 0 → ids !! id = Some n → e_name e = text id →
  body_means 0 b (e_value e) → (∀ f t x, b = B_Buffer f t x → t = 0 ∧ x = 0 ∧ e_value e = A_Buffer f []) →
  (∃ k' o, T !! e_parent e = Some (k', o) ∧ can_parent o) →
  wf text ids (<[i := (k, O_Value n (e_parent e) b)]> T) (if is_buffer b then <[i := []]> X else X)
    (<[i := e]> V) (bump dn n (-1)) (bump dc (e_parent e) (-1)).
Proof using Hw Hi.
  intros Hi0 Hdc Hid He Hb Hbuf Hp. split; [|by apply tree_insert_value|].
  - eapply store_insert_value; [done|]. intros f t x ->. by destruct (Hbuf _ _ _ eq_refl) as (? & ? & _).
  - destruct Hw as [Hst Ht [Hc1 Hc2]].
    assert (X !! i = None) as HXi.
    { destruct (X !! i) as [l|] eqn:E; [|done]. destruct (store_chain _ _ _ _ _ _ _ Hst E) as [[? ?] _]. congruence. }
    split.
    + intros j e' k' n' p q id' Hj [[<- [= <- <- <- <-]]|[Hne Ho]]%lookup_insert_Some Hid'.
      * rewrite lookup_insert_eq in Hj. injection Hj as <-. by rewrite He, (store_inj _ _ _ _ _ Hst _ _ _ Hid' Hid).
      * rewrite lookup_insert_ne in Hj by done. by eapply Hc1.
    + intros j e' k' n' p f t x l Hj [[<- [= <- <- <- Hq]]|[Hne Ho]]%lookup_insert_Some Hl.
      * rewrite lookup_insert_eq in Hj. injection Hj as <-. destruct (Hbuf _ _ _ Hq) as (-> & -> & Hv).
        rewrite Hq in Hl. cbn in Hl. rewrite lookup_insert_eq in Hl. injection Hl as <-. exists []. split; [constructor|done].
      * rewrite lookup_insert_ne in Hj by done.
        destruct (Hc2 _ _ _ _ _ _ _ _ l Hj Ho) as (content & Hx & Hv).
        { destruct (is_buffer b); [by rewrite lookup_insert_ne in Hl|done]. }
        exists content. split; [by apply insert_extents|done].
Qed.
End insert.

(** ** A value goes *)

Section remove.
Context {ids : gmap Z Z} {T : objects} {X : gmap Z (list Z)} {V : tree} {dn dc : Z → Z}.
Context (Hw : wf text ids T X V dn dc).
Context {i k n p : Z} {b : body}.
Context (Hi : T !! i = Some (k, O_Value n p b)).
Context (HX : ∀ l, X !! i = Some l → l = []).

(** What takes the place of the value, if anything does, is not a string, an extent or a
    value. *)
Context (r : option (Z * obj)).
Context (Hr : ∀ x, r = Some x → store_view x = None).
Let T' : objects := partial_alter (λ _, r) i T.

Lemma removed_lookup j x : T' !! j = Some x → (j ≠ i ∧ T !! j = Some x) ∨ (j = i ∧ r = Some x).
Proof using. unfold T'. destruct (decide (i = j)) as [<-|]; [rewrite lookup_partial_alter_eq|rewrite lookup_partial_alter_ne by done]; auto. Qed.

Lemma removed_other j : j ≠ i → T' !! j = T !! j.
Proof using. intros Hne. unfold T'. by rewrite lookup_partial_alter_ne. Qed.

Lemma removed_extents y l c : extents T y l c → extents T' y l c.
Proof using Hi.
  intros Hx. apply (extents_agree T); [|done]. intros z Hz. apply removed_other. intros ->.
  destruct (extents_lookup _ _ _ _ _ Hx Hz) as (? & ? & ? & ?). congruence.
Qed.

Lemma removed_refs x : refs T' x = refs T x - one (n =? x).
Proof using Hi Hr.
  unfold refs. destruct r as [y|] eqn:E.
  - replace T' with (<[i := y]> T) by done.
    rewrite (count_update _ _ _ _ _ Hi). pose proof (names_view x y) as Hn. rewrite (Hr y eq_refl) in Hn. rewrite Hn. cbn. lia.
  - replace T' with (delete i T) by done. by rewrite (count_delete _ _ _ _ Hi).
Qed.

Lemma store_remove : store_ok text ids T' (delete i X) (bump dn n 1).
Proof using Hw Hi HX Hr.
  destruct Hw as [Hst _ _]. pose proof Hst as [H1 H2 H3 H4 H5 H6 H7 H8 H9].
  assert (∀ j x, T' !! j = Some x → is_Some (store_view x) → j ≠ i ∧ T !! j = Some x) as Hold.
  { intros j x [?|[-> Hx]]%removed_lookup [y Hy]; [done|]. rewrite (Hr x Hx) in Hy. done. }
  assert (∀ j l y, X !! j = Some l → y ∈ l → j ≠ i) as Hne.
  { intros j l y Hl Hy ->. apply HX in Hl as ->. by apply elem_of_nil in Hy. }
  split.
  - intros j k' c nx t ib [Hj Ht]%Hold; [|done]. rewrite removed_refs. pose proof (H1 _ _ _ _ _ _ Ht). unfold bump, one.
    destruct (Z.eqb_spec n j), (decide (j = n)); lia || congruence.
  - intros j k' c nx t ib [Hj Ht]%Hold; [|done]. by eapply H2.
  - intros j k' nx c [Hj Ht]%Hold; [|done]. destruct (H3 _ _ _ _ Ht) as (b' & l & Hl & Hin). exists b', l.
    rewrite lookup_delete_ne; [done|]. apply not_eq_sym. by eapply Hne.
  - intros id b' Hid. destruct (H4 _ _ Hid) as (c & l & Hl & (k' & nx & ib & rest & Hb & Hx & Hrest)). exists c, l.
    assert (b' ≠ i) by (intros ->; congruence). rewrite lookup_delete_ne by done. split; [done|].
    exists k', nx, ib, rest. rewrite removed_other by done. split; [done|]. split; [by apply removed_extents|done].
  - done.
  - intros j k' n' q b' [Hj Ht]%Hold; [|by destruct b']. by eapply H6.
  - intros j k' n' q f t e [Hj Ht]%Hold; [|done]. destruct (H7 _ _ _ _ _ _ _ Ht) as (l & content & Hl & Hx & Hrest).
    exists l, content. rewrite lookup_delete_ne by done. split; [done|]. split; [by apply removed_extents|done].
  - intros b' l [Hb Hl]%lookup_delete_Some. destruct (H8 _ _ Hl) as [|(k' & n' & q & f & t & e & Ht)]; [by left|right].
    exists k', n', q, f, t, e. by rewrite removed_other.
  - intros b1 b2 l1 l2 x [_ Hl1]%lookup_delete_Some [_ Hl2]%lookup_delete_Some. by eapply H9.
Qed.

Lemma content_remove : content_ok text ids T' (delete i X) (delete i V).
Proof using Hw Hi Hr.
  destruct Hw as [_ _ [Hc1 Hc2]]. split.
  - intros j e k' n' q b' id [Hne Hj]%lookup_delete_Some Ht. rewrite removed_other in Ht by done. by eapply Hc1.
  - intros j e k' n' q f t x l [Hne Hj]%lookup_delete_Some Ht [_ Hl]%lookup_delete_Some.
    rewrite removed_other in Ht by done. destruct (Hc2 _ _ _ _ _ _ _ _ _ Hj Ht Hl) as (content & Hx & He).
    exists content. split; [by apply removed_extents|done].
Qed.

(** The children that are left have their parent: it is not [i], or [r] stands for it. *)
Lemma tree_remove : p ≠ i → 
  (∀ x, r = Some x → ∃ c, x = (k, O_Tombstone c) ∧ c = children V i + dc i ∧ 0 < c) →
  (r = None → children V i = 0) →
  tree_ok T' (delete i V) (bump dc p 1).
Proof using Hw Hi Hr.
  intros Hpi Htomb Hnone. destruct Hw as [_ [H1 H2 H3 H4 H5 H6 H7 H8] _].
  destruct (H5 _ _ _ _ _ Hi) as (e & He & -> & _).
  assert (∀ x, children (delete i V) x + bump dc (e_parent e) 1 x = children V x + dc x) as Hch.
  { intros x. rewrite (children_delete _ _ _ _ He). unfold bump, is_child, one.
    destruct (Z.eqb_spec (e_parent e) x), (decide (x = e_parent e)); lia || congruence. }
  split; [| | | | | | |intros j; by apply rooted_delete].
  - destruct H1 as [g Hg]. exists g. rewrite removed_other; [done|]. intros E. rewrite E in Hg. congruence.
  - intros j k' g [[_ Hj]|[-> Hx]]%removed_lookup; [by eapply H2|]. destruct (Htomb _ Hx) as (c & [=] & _).
  - intros j k' [[_ Hj]|[-> Hx]]%removed_lookup; [by eapply H3|]. destruct (Htomb _ Hx) as (c & [=] & _).
  - intros j k' c [[Hne Hj]|[-> Hx]]%removed_lookup; rewrite Hch.
    + rewrite lookup_delete_ne by done. by eapply H4.
    + destruct (Htomb _ Hx) as (c' & [= _ <-] & Hc & Hpos). by rewrite lookup_delete_eq.
  - intros j k' n' q b' [[Hne Hj]|[-> Hx]]%removed_lookup; rewrite ?Hch.
    + rewrite lookup_delete_ne by done. by eapply H5.
    + destruct (Htomb _ Hx) as (c & [=] & _).
  - intros j e' [Hne Hj]%lookup_delete_Some. rewrite removed_other by done. by apply H6.
  - intros j e' [Hne Hj]%lookup_delete_Some. destruct (decide (e_parent e' = i)) as [Hp|Hp].
    + destruct r as [x|] eqn:E.
      * destruct (Htomb x eq_refl) as (c & -> & _). exists k, (O_Tombstone c). rewrite Hp. split; [|done].
        unfold T'. by rewrite lookup_partial_alter_eq.
      * exfalso. specialize (Hnone eq_refl). pose proof (count_zero _ _ Hnone j e' Hj) as Hf. unfold is_child in Hf.
        by apply Z.eqb_neq in Hf.
    + rewrite removed_other by done. by apply (H7 j).
Qed.
End remove.

Lemma wf_parent_ne ids T X V dn dc i k n p b : wf text ids T X V dn dc → T !! i = Some (k, O_Value n p b) → p ≠ i.
Proof.
  intros [_ Ht _] Hi. destruct (tree_value _ _ _ Ht _ _ _ _ _ Hi) as (e & He & -> & _).
  eapply rooted_no_loop; [by apply (tree_rooted _ _ _ Ht)|done].
Qed.

Lemma wf_remove_value ids T X V dn dc i k n p b :
  wf text ids T X V dn dc → T !! i = Some (k, O_Value n p b) → (∀ l, X !! i = Some l → l = []) → children V i = 0 →
  wf text ids (delete i T) (delete i X) (delete i V) (bump dn n 1) (bump dc p 1).
Proof.
  intros Hw Hi HX Hz. pose proof (wf_parent_ne _ _ _ _ _ _ _ _ _ _ _ Hw Hi) as Hp. split.
  - by apply (store_remove Hw Hi HX None).
  - by apply (tree_remove Hw Hi None).
  - by apply (content_remove Hw Hi None).
Qed.

Lemma wf_entomb ids T X V dn dc i k n p c :
  wf text ids T X V dn dc → T !! i = Some (k, O_Value n p (B_Node c)) → 0 < c →
  wf text ids (<[i := (k, O_Tombstone c)]> T) X (delete i V) (bump dn n 1) (bump dc p 1).
Proof.
  intros Hw Hi Hc. pose proof (wf_parent_ne _ _ _ _ _ _ _ _ _ _ _ Hw Hi) as Hp.
  assert (∀ x, Some (k, O_Tombstone c) = Some x → store_view x = None) as Hr by (by intros ? [= <-]).
  assert (X !! i = None) as HXi.
  { destruct (X !! i) as [l|] eqn:E; [|done]. destruct Hw as [Hst _ _].
    destruct (store_owner _ _ _ _ _ Hst _ _ E) as [[id Hid]|(? & ? & ? & ? & ? & ? & ?)]; [|congruence].
    destruct (store_id _ _ _ _ _ Hst _ _ Hid) as (? & ? & _ & (? & ? & ? & ? & ? & _)). congruence. }
  rewrite <- (delete_id X i HXi). split.
  - apply (store_remove Hw Hi); [congruence|done].
  - apply (tree_remove Hw Hi); [done|done| |done]. intros x [= <-]. exists c. split_and!; [done| |done].
    destruct Hw as [_ Ht _]. destruct (tree_value _ _ _ Ht _ _ _ _ _ Hi) as (e & _ & _ & Hm). by destruct (e_value e).
  - by apply (content_remove Hw Hi).
Qed.

(** ** A value changes *)

Section change.
Context {ids : gmap Z Z} {T : objects} {X : gmap Z (list Z)} {V : tree} {dn dc : Z → Z}.
Context (Hw : wf text ids T X V dn dc).
Context {i k n : Z} {b : body} {e : entry}.
Context (Hi : T !! i = Some (k, O_Value n (e_parent e) b)) (He : V !! i = Some e).

(** The tree after new contents [a] of the value, the parents as they were. *)
Lemma tree_change T' b' a : T' !! i = Some (k, O_Value n (e_parent e) b') →
  (∀ j, j ≠ i → tree_view <$> T' !! j = tree_view <$> T !! j ∨
     (T' !! j ≫= tree_view = None ∧ T !! j ≫= tree_view = None)) →
  is_node b = false → body_means (children V i + dc i) b' a →
  tree_ok T' (<[i := mkEntry (e_name e) (e_parent e) a]> V) dc.
Proof using Hw Hi He.
  intros Hi' Hsame Hnn Hb. set (e' := mkEntry _ _ a). destruct Hw as [_ Ht _].
  assert (tree_ok (<[i := (k, O_Value n (e_parent e) b')]> T) (<[i := e']> V) dc) as Hmid.
  { destruct Ht as [H1 H2 H3 H4 H5 H6 H7 H8].
    assert (∀ x, children (<[i := e']> V) x = children V x) as Hch by (intros x; by apply (children_update _ _ e)).
    split.
    - destruct H1 as [g Hg]. exists g. rewrite lookup_insert_ne; [done|]. intros E. rewrite E in Hi. congruence.
    - intros j k' g [[<- [=]]|[_ Hj]]%lookup_insert_Some. by eapply H2.
    - intros j k' [[<- [=]]|[_ Hj]]%lookup_insert_Some. by eapply H3.
    - intros j k' c [[<- [=]]|[Hne Hj]]%lookup_insert_Some. rewrite Hch, lookup_insert_ne by done. by eapply H4.
    - intros j k' n' p q [[<- [= <- <- <- <-]]|[Hne Hj]]%lookup_insert_Some; rewrite Hch.
      + exists e'. by rewrite lookup_insert_eq.
      + rewrite lookup_insert_ne by done. by eapply H5.
    - intros j f [[<- <-]|[Hne Hj]]%lookup_insert_Some; [exists k, n, b'; by rewrite lookup_insert_eq|].
      rewrite lookup_insert_ne by done. by apply H6.
    - assert (∀ f, e_parent f = e_parent f → ∀ k' o, T !! e_parent f = Some (k', o) → can_parent o → e_parent f ≠ i) as Hpi.
      { intros f _ k' o Ho Hc E. rewrite E, Hi in Ho. injection Ho as <- <-. by destruct b. }
      intros j f [[<- <-]|[Hne Hj]]%lookup_insert_Some.
      + destruct (H7 _ _ He) as (k' & o & Ho & Hc). exists k', o. rewrite lookup_insert_ne; [done|].
        apply not_eq_sym. by eapply (Hpi e).
      + destruct (H7 _ _ Hj) as (k' & o & Ho & Hc). exists k', o. rewrite lookup_insert_ne; [done|].
        apply not_eq_sym. by eapply (Hpi f).
    - intros j. apply (rooted_same V); [|done]. intros x. destruct (decide (i = x)) as [<-|].
      + by rewrite lookup_insert_eq, He.
      + by rewrite lookup_insert_ne. }
  eapply tree_frame; [|exact Hmid]. intros j. destruct (decide (i = j)) as [<-|Hne]; [by rewrite lookup_insert_eq, Hi'|].
  rewrite lookup_insert_ne by done. destruct (Hsame j ltac:(done)) as [Hs|[Hs Hs']]; [|congruence].
  destruct (T' !! j), (T !! j); cbn in Hs |- *; congruence.
Qed.

Lemma wf_set_value b' a : is_node b = false → is_buffer b = false → is_buffer b' = false →
  body_means (children V i + dc i) b' a →
  wf text ids (<[i := (k, O_Value n (e_parent e) b')]> T) X (<[i := mkEntry (e_name e) (e_parent e) a]> V) dn dc.
Proof using Hw Hi He.
  intros Hn Hb Hb' Hm. pose proof (store_same_insert T i k n (e_parent e) b (e_parent e) b' Hi Hb Hb') as Hs. split.
  - eapply store_frame; [exact Hs|]. apply Hw.
  - eapply tree_change; [by rewrite lookup_insert_eq| |done|done]. intros j Hj. left. by rewrite lookup_insert_ne.
  - destruct Hw as [_ _ Hc]. apply (content_frame _ _ _ _ _ _ Hs) in Hc as [Hc1 Hc2]. split.
    + intros j f k' n' q b'' id [[<- <-]|[Hne Hj]]%lookup_insert_Some Ht Hid; [|by eapply Hc1].
      exact (Hc1 _ _ _ _ _ _ _ He Ht Hid).
    + intros j f k' n' q g t x l [[<- <-]|[Hne Hj]]%lookup_insert_Some Ht Hl; [|by eapply Hc2].
      rewrite lookup_insert_eq in Ht. injection Ht as _ _ _ ->. done.
Qed.

(** A value moves to another parent. *)
Lemma wf_set_parent p' : 
  (∃ k' o, T !! p' = Some (k', o) ∧ can_parent o) →
  (∀ j, rooted (<[i := mkEntry (e_name e) p' (e_value e)]> V) j) → p' ≠ i →
  wf text ids (<[i := (k, O_Value n p' b)]> T) X (<[i := mkEntry (e_name e) p' (e_value e)]> V) dn
    (bump (bump dc (e_parent e) 1) p' (-1)).
Proof using Hw Hi He.
  intros Hp Hroot Hpi. set (e' := mkEntry _ p' _). destruct Hw as [Hst Ht Hc].
  assert (store_same T (<[i := (k, O_Value n p' b)]> T)) as Hs.
  { intros j. destruct (decide (i = j)) as [<-|]; [|by rewrite lookup_insert_ne]. rewrite lookup_insert_eq, Hi. by destruct b. }
  assert (e_parent e ≠ i) as Hei by (eapply rooted_no_loop; [by apply (tree_rooted _ _ _ Ht)|done]).
  split; [by eapply store_frame| |].
  - destruct Ht as [H1 H2 H3 H4 H5 H6 H7 H8].
    assert (∀ x, children (<[i := e']> V) x + bump (bump dc (e_parent e) 1) p' (-1) x = children V x + dc x) as Hch.
    { intros x. unfold children. rewrite (count_update _ _ _ _ _ He). unfold bump, is_child, one. cbn.
      destruct (Z.eqb_spec (e_parent e) x), (Z.eqb_spec p' x), (decide (x = e_parent e)), (decide (x = p')); lia || congruence. }
    assert (∀ j k' o, T !! j = Some (k', o) → can_parent o →
      ∃ k' o, <[i := (k, O_Value n p' b)]> T !! j = Some (k', o) ∧ can_parent o) as Hcp.
    { intros j k' o Ho Hcan. destruct (decide (i = j)) as [<-|].
      - rewrite lookup_insert_eq. rewrite Hi in Ho. injection Ho as <- <-. by destruct b; repeat eexists.
      - rewrite lookup_insert_ne by done. eauto. }
    split; [..|done].
    + destruct H1 as [g Hg]. exists g. rewrite lookup_insert_ne; [done|]. intros E. rewrite E in Hi. congruence.
    + intros j k' g [[<- [=]]|[_ Hj]]%lookup_insert_Some. by eapply H2.
    + intros j k' [[<- [=]]|[_ Hj]]%lookup_insert_Some. by eapply H3.
    + intros j k' c [[<- [=]]|[Hne Hj]]%lookup_insert_Some. rewrite Hch, lookup_insert_ne by done. by eapply H4.
    + intros j k' n' p q [[<- [= <- <- <- <-]]|[Hne Hj]]%lookup_insert_Some; rewrite Hch.
      * exists e'. rewrite lookup_insert_eq. split_and!; [done..|]. destruct (H5 _ _ _ _ _ Hi) as (f & Hf & _ & Hm). simplify_eq. done.
      * rewrite lookup_insert_ne by done. by eapply H5.
    + intros j f [[<- <-]|[Hne Hj]]%lookup_insert_Some; [exists k, n, b; by rewrite lookup_insert_eq|].
      rewrite lookup_insert_ne by done. by apply H6.
    + intros j f [[<- <-]|[Hne Hj]]%lookup_insert_Some.
      * destruct Hp as (k' & o & Ho & Hcan). by eapply Hcp.
      * destruct (H7 _ _ Hj) as (k' & o & Ho & Hcan). by eapply Hcp.
  - apply (content_frame _ _ _ _ _ _ Hs) in Hc as [Hc1 Hc2]. split.
    + intros j f k' n' q b'' id [[<- <-]|[Hne Hj]]%lookup_insert_Some Hv Hid; [|by eapply Hc1].
      exact (Hc1 _ _ _ _ _ _ _ He Hv Hid).
    + intros j f k' n' q g t x l [[<- <-]|[Hne Hj]]%lookup_insert_Some Hv Hl; [|by eapply Hc2].
      exact (Hc2 _ _ _ _ _ _ _ _ _ He Hv Hl).
Qed.
End change.

Lemma wf_set_generation ids T X V dn dc g g' : wf text ids T X V dn dc → T !! 0 = Some (0, O_Header g) →
  wf text ids (<[0 := (0, O_Header g')]> T) X V dn dc.
Proof.
  intros [Hs Ht Hc] H0.
  assert (store_same T (<[0 := (0, O_Header g')]> T)) as Hss.
  { intros j. destruct (decide (0 = j)) as [<-|]; [by rewrite lookup_insert_eq, H0|by rewrite lookup_insert_ne]. }
  split; [by eapply store_frame| |by eapply content_frame]. eapply tree_frame; [|exact Ht].
  intros j. destruct (decide (0 = j)) as [<-|]; [by rewrite lookup_insert_eq, H0|by rewrite lookup_insert_ne].
Qed.

(** The differences matter where there is something to count. *)
Lemma wf_settle ids T X V dn dc dn' dc' : wf text ids T X V dn dc →
  (∀ i k c nx t ib, T !! i = Some (k, O_String c nx t ib) → dn' i = dn i) →
  (∀ i k o, T !! i = Some (k, o) → (∀ g, o ≠ O_Header g) → dc' i = dc i) →
  wf text ids T X V dn' dc'.
Proof.
  intros [[H1 H2 H3 H4 H5 H6 H7 H8 H9] [I1 I2 I3 I4 I5 I6 I7 I8] Hct] Hn Hc. split; [|..|done].
  - split; try done. intros i k c nx t ib Hi. rewrite (Hn _ _ _ _ _ _ Hi). by eapply H1.
  - split; try done.
    + intros i k c Hi. rewrite (Hc _ _ _ Hi) by done. by eapply I4.
    + intros i k n p b Hi. rewrite (Hc _ _ _ Hi) by done. by eapply I5.
Qed.

(** ** New bytes of a buffer *)

Section buffer.
Context {ids : gmap Z Z} {T : objects} {X : gmap Z (list Z)} {V : tree} {dn dc : Z → Z}.
Context (Hw : wf text ids T X V dn dc).
Context {i k n : Z} {f : PropertyFormat} {t x : Z} {e : entry}.
Context (Hi : T !! i = Some (k, O_Value n (e_parent e) (B_Buffer f t x))) (He : V !! i = Some e).

(** [T'] holds the buffer with the chain [l'] in place of its old one. *)
Context {T' : objects} {x' : Z} {l' content : list Z}.
Context (Hi' : T' !! i = Some (k, O_Value n (e_parent e) (B_Buffer f (len content) x'))).
Context (Hx' : extents T' x' l' content) (Hnd' : NoDup l').
Context (Hother : ∀ j, j ≠ i → T' !! j = T !! j ∨
  (T' !! j = None ∧ ∃ k nx c, T !! j = Some (k, O_Extent nx c)) ∨
  (T !! j = None ∧ ∃ k nx c, T' !! j = Some (k, O_Extent nx c))).
Context (Howned : ∀ j k nx c, T' !! j = Some (k, O_Extent nx c) →
  j ∈ l' ∨ ∃ b l, b ≠ i ∧ X !! b = Some l ∧ j ∈ l).
Context (Hkept : ∀ b l y, b ≠ i → X !! b = Some l → y ∈ l → T' !! y = T !! y ∧ y ∉ l').

Lemma buffer_lookup j k' o : T' !! j = Some (k', o) → j ≠ i → (∀ nx c, o ≠ O_Extent nx c) → T !! j = Some (k', o).
Proof using Hother.
  intros Hj Hne Ho. destruct (Hother j Hne) as [<-|[[Hn _]|(_ & ? & nx & c & Hn)]]; [done|congruence|].
  rewrite Hj in Hn. injection Hn as _ ->. by destruct (Ho nx c).
Qed.

Lemma buffer_stays j k' o : T !! j = Some (k', o) → j ≠ i → (∀ nx c, o ≠ O_Extent nx c) → T' !! j = Some (k', o).
Proof using Hother.
  intros Hj Hne Ho. destruct (Hother j Hne) as [->|[(_ & ? & nx & c & Hn)|[Hn _]]]; [done| |congruence].
  rewrite Hj in Hn. injection Hn as _ ->. by destruct (Ho nx c).
Qed.

Lemma buffer_extents b l y c : b ≠ i → X !! b = Some l → extents T y l c → extents T' y l c.
Proof using Hkept. intros Hb Hl. apply extents_agree. intros z Hz. by eapply Hkept. Qed.

Lemma buffer_refs y : refs T' y = refs T y.
Proof using Hother Hi Hi'.
  apply count_ext. intros j. destruct (decide (j = i)) as [->|Hne]; [by rewrite Hi, Hi'|].
  destruct (Hother j Hne) as [->|[(-> & ? & ? & ? & ->)|(-> & ? & ? & ? & ->)]]; done.
Qed.

Lemma store_buffer_change : store_ok text ids T' (<[i := l']> X) dn.
Proof using Hw Hi Hi' Hx' Hnd' Hother Howned Hkept.
  destruct Hw as [[H1 H2 H3 H4 H5 H6 H7 H8 H9] _ _].
  assert (∀ j k' c nx t ib, T' !! j = Some (k', O_String c nx t ib) → T !! j = Some (k', O_String c nx t ib)) as Hstr.
  { intros j k' c nx t' ib Hj. apply (buffer_lookup _ _ _ Hj); [|done]. intros ->. congruence. }
  assert (∀ b l, X !! b = Some l → b ≠ i → <[i := l']> X !! b = Some l) as HX by (intros; by rewrite lookup_insert_ne).
  split.
  - intros j k' c nx t' ib Hj. rewrite buffer_refs. by eapply H1, Hstr.
  - intros j k' c nx t' ib Hj. by eapply H2, Hstr.
  - intros j k' nx c Hj. destruct (Howned _ _ _ _ Hj) as [Hin|(b & l & Hb & Hl & Hin)].
    + exists i, l'. by rewrite lookup_insert_eq.
    + exists b, l. split; [by apply HX|done].
  - intros id b Hid. destruct (H4 _ _ Hid) as (c & l & Hl & (k' & nx & ib & rest & Hb & Hx & Hrest)).
    assert (b ≠ i) as Hne by (intros ->; congruence). exists c, l. split; [by apply HX|]. exists k', nx, ib, rest.
    split; [by apply buffer_stays|]. split; [by eapply buffer_extents|done].
  - done.
  - intros j k' n' p b Hj. destruct (decide (j = i)) as [->|Hne].
    + rewrite Hi' in Hj. injection Hj as <- <- <- <-. by eapply H6.
    + by eapply H6, (buffer_lookup _ _ _ Hj).
  - intros j k' n' p f' t' y Hj. destruct (decide (j = i)) as [->|Hne].
    + rewrite Hi' in Hj. injection Hj as <- <- <- <- <- <-. exists l', content. by rewrite lookup_insert_eq.
    + destruct (H7 _ _ _ _ _ _ _ (buffer_lookup _ _ _ Hj Hne ltac:(done))) as (l & c & Hl & Hx & Hrest).
      exists l, c. split; [by apply HX|]. split; [by eapply buffer_extents|done].
  - intros b l [[<- <-]|[Hne Hl]]%lookup_insert_Some; [right; by repeat eexists|].
    destruct (H8 _ _ Hl) as [|(k' & n' & p & f' & t' & y & Hb)]; [by left|right].
    exists k', n', p, f', t', y. by apply buffer_stays.
  - intros b1 b2 l1 l2 y [[<- <-]|[Hn1 Hl1]]%lookup_insert_Some [[<- Hl2]|[Hn2 Hl2]]%lookup_insert_Some Hy1 Hy2; [done|..].
    + by destruct (Hkept b2 l2 y) as [_ ?].
    + subst l2. by destruct (Hkept b1 l1 y) as [_ ?].
    + by eapply H9.
Qed.

Lemma wf_buffer :
  wf text ids T' (<[i := l']> X) (<[i := mkEntry (e_name e) (e_parent e) (A_Buffer f content)]> V) dn dc.
Proof using Hw Hi He Hi' Hx' Hnd' Hother Howned Hkept.
  split; [by apply store_buffer_change| |].
  - eapply (tree_change Hw Hi He); [exact Hi'| |done|done]. intros j Hne.
    destruct (Hother j Hne) as [->|[(-> & ? & ? & ? & ->)|(-> & ? & ? & ? & ->)]]; [by left|by right..].
  - destruct Hw as [_ _ [Hc1 Hc2]]. split.
    + intros j e' k' n' p b id [[<- <-]|[Hne Hj]]%lookup_insert_Some Hv Hid.
      * rewrite Hi' in Hv. injection Hv as <- <- <- <-. exact (Hc1 _ _ _ _ _ _ _ He Hi Hid).
      * eapply Hc1; [exact Hj| |exact Hid]. by apply (buffer_lookup _ _ _ Hv).
    + intros j e' k' n' p f' t' y l [[<- <-]|[Hne Hj]]%lookup_insert_Some Hv Hl.
      * rewrite Hi' in Hv. injection Hv as <- <- <- <- <- <-. rewrite lookup_insert_eq in Hl. injection Hl as <-. by exists content.
      * rewrite lookup_insert_ne in Hl by done.
        destruct (Hc2 _ _ _ _ _ _ _ _ _ Hj (buffer_lookup _ _ _ Hv ltac:(done) ltac:(done)) Hl) as (c & Hx & Hval).
        exists c. split; [by eapply buffer_extents|done].
Qed.
End buffer.

Section refill.
Context {ids : gmap Z Z} {T : objects} {X : gmap Z (list Z)} {V : tree} {dn dc : Z → Z}.
Context (Hw : wf text ids T X V dn dc).
Context {i k n : Z} {f : PropertyFormat} {t x : Z} {e : entry}.
Context (Hi : T !! i = Some (k, O_Value n (e_parent e) (B_Buffer f t x))) (He : V !! i = Some e).
Context {l : list Z} (Hl : X !! i = Some l).

(** The chain is cut off, and the buffer is empty. *)
Lemma wf_empty_buffer :
  wf text ids (<[i := (k, O_Value n (e_parent e) (B_Buffer f 0 0))]> (without l T)) (<[i := []]> X)
    (<[i := mkEntry (e_name e) (e_parent e) (A_Buffer f [])]> V) dn dc.
Proof using Hw Hi He Hl.
  pose proof (wf_store _ _ _ _ _ _ _ Hw) as Hst.
  apply (wf_buffer Hw Hi He (x' := 0)); [by rewrite lookup_insert_eq|constructor|constructor|..].
  - intros j Hj. rewrite lookup_insert_ne by done. destruct (cut_cases text Hst Hl j) as [->|[-> Hx]]; [by left|right; by left].
  - intros j k' nx c Hj. right. apply lookup_insert_Some in Hj as [[_ [=]]|[Hne [Hj Hjl]%cut_lookup]].
    destruct (store_extent _ _ _ _ _ Hst _ _ _ _ Hj) as (b & l' & Hb & Hin). exists b, l'. split_and!; [|done|done].
    intros ->. congruence.
  - intros b l' y Hb Hl' Hy. destruct (store_chain_extent _ _ _ _ _ _ _ _ Hst Hl' Hy) as (ky & nx & c & Hy').
    rewrite lookup_insert_ne by (intros ->; congruence). rewrite lookup_without; [by split; [|apply not_elem_of_nil]|].
    intros Hin. apply Hb. by eapply (store_disjoint _ _ _ _ _ Hst).
Qed.
End refill.

(** A new chain for an empty buffer. *)
Lemma wf_fill_buffer ids T X V dn dc i k n f e T2 x' l' content :
  wf text ids (<[i := (k, O_Value n (e_parent e) (B_Buffer f 0 0))]> T) X V dn dc → V !! i = Some e → X !! i = Some [] →
  is_Some (T !! i) → grown T T2 l' → extents T2 x' l' content → NoDup l' →
  wf text ids (<[i := (k, O_Value n (e_parent e) (B_Buffer f (len content) x'))]> T2) (<[i := l']> X)
    (<[i := mkEntry (e_name e) (e_parent e) (A_Buffer f content)]> V) dn dc.
Proof.
  intros Hw He HX [z Hz] Hg Hx Hnd. pose proof (wf_store _ _ _ _ _ _ _ Hw) as Hst.
  assert (i ∉ l') as Hil by (intros Hin; by rewrite (grown_new _ _ _ Hg _ Hin) in Hz).
  eapply (wf_buffer Hw (lookup_insert_eq _ _ _) He); [by rewrite lookup_insert_eq| |done|..].
  - apply (extents_agree T2); [|done]. intros y Hy. apply lookup_insert_ne. by intros ->.
  - intros j Hj. rewrite !lookup_insert_ne by done. destruct (T2 !! j) as [[kj o]|] eqn:E2.
    + destruct (grown_cases Hg j _ E2) as [->|Hin]; [by left|]. right; right. rewrite (grown_new _ _ _ Hg) by done.
      destruct (extents_lookup _ _ _ _ _ Hx Hin) as (kx & nx & d & Hy). rewrite E2 in Hy. split; [done|]. by eauto.
    + left. destruct (T !! j) as [y|] eqn:E; [|done]. by rewrite (lookup_weaken _ _ _ _ E (grown_sub _ _ _ Hg)) in E2.
  - intros j k' nx c [[_ [=]]|[Hne Hj]]%lookup_insert_Some. destruct (grown_cases Hg j _ Hj) as [Ho|Hin]; [right|by left].
    destruct (store_extent _ _ _ _ _ Hst j k' nx c) as (b & l & Hb & Hin); [by rewrite lookup_insert_ne|].
    exists b, l. split_and!; [|done|done]. intros ->. rewrite HX in Hb. injection Hb as <-. by apply elem_of_nil in Hin.
  - intros b l y Hb Hl Hy. destruct (store_chain_extent _ _ _ _ _ _ _ _ Hst Hl Hy) as (ky & nx & c & Hy').
    assert (y ≠ i) as Hyi by (intros ->; by rewrite lookup_insert_eq in Hy').
    rewrite lookup_insert_ne in Hy' by done. rewrite !lookup_insert_ne by done. split.
    + rewrite Hy'. eapply lookup_weaken; [exact Hy'|apply Hg].
    + intros Hin. by rewrite (grown_new _ _ _ Hg _ Hin) in Hy'.
Qed.
End steps.
