(* ===== verification/InspectOwned.v ===== *)
(** The blocks a writer still needs ([owns]): besides them the heap may hold blocks that
    an operation that failed half way has left behind, none of them a value.  The rules of
    [InspectTyped] and [InspectExtents] in these terms. *)
From Stdlib Require Import ZArith Lia.
From stdpp Require Import base gmap strings list.
From S2P Require Import Prelude StateError InspectFormat InspectBlock InspectMemory.
From S2P Require Import InspectHeap InspectState InspectObjects InspectTyped InspectExtents InspectTree.
Local Open Scope Z_scope.

Implicit Types (T : objects).

(** [T] is what matters of [T']. *)
Record part_of T T' : Prop := {
  part_sub : T ⊆ T';
  part_values : no_new_value T T';
}.

Definition owns (h : Heap) T : Prop := ∃ T', typed h T' ∧ part_of T T'.

Lemma part_of_refl T : part_of T T.
Proof. by split. Qed.

Lemma part_of_trans T T' T'' : part_of T T' → part_of T' T'' → part_of T T''.
Proof. intros [H1 H2] [H3 H4]. split; by transitivity T'. Qed.

Lemma part_of_insert T T' i x : part_of T T' → part_of (<[i := x]> T) (<[i := x]> T').
Proof.
  intros [Hs Hv]. split; [by apply insert_mono|]. intros y k n p b [[<- ->]|[Hne Hy]]%lookup_insert_Some.
  - by rewrite lookup_insert_eq.
  - rewrite lookup_insert_ne by done. by apply Hv.
Qed.

Lemma part_of_delete T T' i : part_of T T' → part_of (delete i T) (delete i T').
Proof.
  intros [Hs Hv]. split; [by apply delete_mono|]. intros y k n p b [Hne Hy]%lookup_delete_Some.
  rewrite lookup_delete_ne by done. by apply Hv.
Qed.

Lemma part_of_without T T' l : part_of T T' → part_of (without l T) (without l T').
Proof. intros Hp. induction l as [|x l IH]; [done|]. by apply part_of_delete. Qed.

Lemma part_of_alter T T' f i : part_of T T' → is_Some (T !! i) → part_of (alter f i T) (alter f i T').
Proof.
  intros Hp [x Hx]. pose proof (lookup_weaken _ _ _ _ Hx (part_sub _ _ Hp)) as Hx'.
  assert (∀ T0, T0 !! i = Some x → alter f i T0 = <[i := f x]> T0) as Ha.
  { intros T0 H0. apply map_eq. intros j. destruct (decide (i = j)) as [<-|].
    - by rewrite lookup_alter_eq, H0, lookup_insert_eq.
    - by rewrite lookup_alter_ne, lookup_insert_ne. }
  rewrite !Ha by done. by apply part_of_insert.
Qed.

(** Blocks that are no values can be given up. *)
Lemma part_of_drop T i k o : T !! i = Some (k, o) → (∀ n p b, o ≠ O_Value n p b) → part_of (delete i T) T.
Proof.
  intros Hi Ho. split; [apply delete_subseteq|]. intros y k' n p b Hy. rewrite lookup_delete_ne; [done|].
  intros <-. rewrite Hi in Hy. injection Hy as -> ->. by destruct (Ho n p b).
Qed.

Lemma owns_part h T T' : owns h T' → part_of T T' → owns h T.
Proof. intros (T2 & HT & Hp) Hp'. exists T2. split; [done|]. by eapply part_of_trans. Qed.

(** [T] and the blocks [l] of [T']. *)
Definition join T (l : list Z) T' : objects := T ∪ filter (λ x, x.1 ∈ l) T'.

Section join.
Context {T T' : objects} {l : list Z}.
Context (Hp : part_of T T') (Hl : ∀ y, y ∈ l → T !! y = None).

Lemma join_new y : y ∈ l → join T l T' !! y = T' !! y.
Proof using Hl.
  intros Hy. unfold join. rewrite lookup_union_r by (by apply Hl). destruct (T' !! y) as [x|] eqn:E.
  - by apply map_lookup_filter_Some.
  - apply map_lookup_filter_None. by left.
Qed.

Lemma join_cases y x : join T l T' !! y = Some x → T !! y = Some x ∨ (T !! y = None ∧ y ∈ l ∧ T' !! y = Some x).
Proof using.
  unfold join. intros [?|[? (Hy & Hin)%map_lookup_filter_Some]]%lookup_union_Some_raw; auto.
Qed.

Lemma join_sub : T ⊆ join T l T'.
Proof using. apply map_union_subseteq_l. Qed.

Lemma join_part : part_of (join T l T') T'.
Proof using Hp.
  split.
  - apply map_subseteq_spec. intros y x [Hy|(_ & _ & Hy)]%join_cases; [|done]. eapply lookup_weaken; [done|apply Hp].
  - intros y k n p b Hy. eapply lookup_weaken; [by apply Hp|apply join_sub].
Qed.
End join.

(** ** Rules *)

Section rules.
Context {s : InnerState} {T : objects}.
Context (HO : owns (heap s) T).

Lemma own_index i k o : T !! i = Some (k, o) → 0 <= i < 2 ^ 24.
Proof using HO. destruct HO as (T' & HT & Hp). intros Hi. eapply (typed_index HT). eapply lookup_weaken; [done|apply Hp]. Qed.

Lemma own_inside i k o : T !! i = Some (k, o) → 0 <= k < 8.
Proof using HO.
  destruct HO as (T' & HT & Hp). intros Hi.
  destruct (typed_inside HT i k o) as (_ & ? & _); [eapply lookup_weaken; [done|apply Hp]|done].
Qed.

Lemma own_fuel : Z.of_nat (size T) <= current_size_bytes (heap s) / 16 ∧ Z.of_nat (size T) <= 2 ^ 24.
Proof using HO.
  destruct HO as (T' & HT & Hp). pose proof (typed_fuel HT). pose proof (map_subseteq_size T T' (part_sub _ _ Hp)). lia.
Qed.

Lemma own_allocate n (Q : Z → InnerState → Prop) R :
  0 < n →
  (∀ h' i k, T !! i = None → 0 <= k < 8 → n <= 16 * 2 ^ k → owns h' (<[i := (k, O_Reserved)]> T) → Q i (set_heap h' s)) →
  (∀ e h', owns h' T → R e (set_heap h' s)) →
  wp (on_heap (allocate_block n)) s Q R.
Proof using HO.
  intros Hn HQ HR. destruct HO as (T' & HT & Hp). eapply (wp_allocate HT); [done|..].
  - intros h' i k Hi Hk Hle _ HT'. apply (HQ h' i k); [|done|done|].
    + destruct (T !! i) as [x|] eqn:E; [|done]. by rewrite (lookup_weaken _ _ _ _ E (part_sub _ _ Hp)) in Hi.
    + eexists. split; [exact HT'|]. by apply part_of_insert.
  - intros e h' HT'. apply HR. by exists T'.
Qed.

Lemma own_free i k o (Q : unit → InnerState → Prop) R :
  T !! i = Some (k, o) → (∀ h', owns h' (delete i T) → Q tt (set_heap h' s)) → wp (on_heap (free_block i)) s Q R.
Proof using HO.
  intros Hi HQ. destruct HO as (T' & HT & Hp). eapply (wp_free HT); [eapply lookup_weaken; [done|apply Hp]|].
  intros h' HT'. apply HQ. eexists. split; [exact HT'|]. by apply part_of_delete.
Qed.

Lemma own_update_to {A} (op : st Mapping FormatError A) i k o a P (Q : A → InnerState → Prop) R :
  T !! i = Some (k, o) → updates_to op i k o a P →
  (∀ h' o', P o' → owns h' (<[i := (k, o')]> T) → Q a (set_heap h' s)) → wp (on_blk op) s Q R.
Proof using HO.
  intros Hi Hu HQ. destruct HO as (T' & HT & Hp). eapply (wp_update_to HT); [eapply lookup_weaken; [done|apply Hp]|done|].
  intros h' o' Ho' HT'. eapply HQ; [done|]. eexists. split; [exact HT'|]. by apply part_of_insert.
Qed.

Lemma own_update {A} (op : st Mapping FormatError A) i k o a o' (Q : A → InnerState → Prop) R :
  T !! i = Some (k, o) → updates op i k o a o' →
  (∀ h', owns h' (<[i := (k, o')]> T) → Q a (set_heap h' s)) → wp (on_blk op) s Q R.
Proof using HO.
  intros Hi Hu%updates_updates_to HQ. eapply own_update_to; [done..|]. intros h' ? ->. by apply HQ.
Qed.

(** A method of a block that is refused. *)
Lemma own_refused {A} (op : st Mapping FormatError A) i k o (Q : A → InnerState → Prop) R :
  T !! i = Some (k, o) → (∀ m : Mapping, block_inside m i k → obj_at m i k o → ∃ e, op m = (m, Err e)) →
  (∀ e, R e s) → wp (on_blk op) s Q R.
Proof using HO.
  intros Hi Hop HR. destruct HO as (T' & HT & Hp). pose proof (lookup_weaken _ _ _ _ Hi (part_sub _ _ Hp)) as Hi'.
  apply wp_zoom, wp_zoom. destruct (Hop (mapping (heap s))) as [e He]; [by eapply typed_inside|by apply HT|].
  eapply wp_throw; [exact He|]. by rewrite set_mapping_id, set_heap_id.
Qed.

Lemma own_blk {A} (f : Mapping → Z → outcome FormatError A) i k o a (Q : A → InnerState → Prop) R :
  T !! i = Some (k, o) → (∀ m : Mapping, block_inside m i k → obj_at m i k o → f m i = Ok a) →
  Q a s → wp (blk f i) s Q R.
Proof using HO.
  intros Hi Hf HQ. destruct HO as (T' & HT & Hp). eapply (wp_blk HT); [eapply lookup_weaken; [done|apply Hp]|done|done].
Qed.

Lemma own_blk_get {A} (f : Mapping → Z → outcome FormatError A) i k o a (Q : A → InnerState → Prop) R :
  T !! i = Some (k, o) → (∀ m : Mapping, block_inside m i k → obj_at m i k o → f m i = Ok a) →
  Q a s → wp (blk_get f i) s Q R.
Proof using HO.
  intros Hi Hf HQ. destruct HO as (T' & HT & Hp). eapply (wp_blk_get HT); [eapply lookup_weaken; [done|apply Hp]|done|done].
Qed.

Lemma own_heap_block i k o (Q : Z → InnerState → Prop) R :
  T !! i = Some (k, o) → Q i s → wp (heap_block i) s Q R.
Proof using HO.
  intros Hi HQ. destruct HO as (T' & HT & Hp). eapply (wp_heap_block HT); [eapply lookup_weaken; [done|apply Hp]|done].
Qed.

Lemma own_write_extents value (Q : Z → InnerState → Prop) R :
  is_Some (T !! 0) → all_u8 value →
  (∀ h' T' x l, owns h' T' → extents T' x l value → NoDup l → grown T T' l → 0 <= x < 2 ^ 24 → Q x (set_heap h' s)) →
  (∀ e h', owns h' T → R e (set_heap h' s)) →
  wp (write_extents value) s Q R.
Proof using HO.
  intros [z Hz] Hu HQ HR. destruct HO as (T1 & HT & Hp).
  eapply (write_extents_wp s T1); [done|exists z; eapply lookup_weaken; [done|apply Hp]|done|..].
  - intros h' T' x l HT' Hx Hnd Hnew Hsub Hnn.
    assert (∀ y, y ∈ l → T !! y = None) as Hl.
    { intros y Hy. specialize (Hnew y Hy). destruct (T !! y) eqn:E; [|done].
      by rewrite (lookup_weaken _ _ _ _ E (part_sub _ _ Hp)) in Hnew. }
    assert (part_of T T') as Hp' by (eapply part_of_trans; [exact Hp|by split]).
    assert (extents (join T l T') x l value) as Hx'.
    { apply (extents_agree T'); [|done]. intros y Hy. by apply (join_new Hl). }
    apply (HQ h' (join T l T') x l); [exists T'; split; [done|by apply join_part]|done|done| |].
    + split; [apply join_sub|done| |].
      * intros i y [?|(_ & ? & _)]%join_cases Hi; [congruence|done].
      * intros i y [Hi|(_ & _ & Hi)]%join_cases Hin; [by rewrite Hl in Hi|].
        destruct (extents_lookup _ _ _ _ _ Hx Hin) as (k & nx & d & Hy). rewrite Hi in Hy. by injection Hy as ->.
    + destruct Hx; [lia|]. by eapply (typed_index HT').
  - intros e h' T' HT' Hsub Hnn. apply HR. exists T'. split; [done|]. eapply part_of_trans; [exact Hp|by split].
Qed.

Lemma own_free_extents first l c (Q : unit → InnerState → Prop) R :
  extents T first l c → NoDup l → (∀ h', owns h' (without l T) → Q tt (set_heap h' s)) →
  wp (free_extents first) s Q R.
Proof using HO.
  intros Hx Hnd HQ. destruct HO as (T' & HT & Hp). eapply (free_extents_wp s T' first l c); [done| |done|].
  - eapply extents_subset; [apply Hp|done].
  - intros h' HT'. apply HQ. eexists. split; [exact HT'|]. by apply part_of_without.
Qed.

Lemma own_create_string sr (Q : Z → InnerState → Prop) R :
  is_Some (T !! 0) → all_u8 (data sr) → len (data sr) < u32_size →
  (∀ b, string_reference_ids s !! reference_id sr = Some b → is_Some (T !! b) ∧ Q b s) →
  (∀ h' T' b l, string_reference_ids s !! reference_id sr = None → owns h' T' → grown T T' (b :: l) →
     string_block T' b 0 l (data sr) →
     Q b (set_string_reference_ids <[reference_id sr := b]> (set_heap h' s))) →
  (∀ e h', owns h' T → R e (set_heap h' s)) →
  wp (create_string_reference sr) s Q R.
Proof using HO.
  intros [z Hz] Hu Hlen Hold Hnew HR. destruct HO as (T1 & HT & Hp).
  eapply (create_string_reference_wp s T1); [done|exists z; eapply lookup_weaken; [done|apply Hp]|done|done|..].
  - intros b Hb. destruct (Hold b Hb) as [[y Hy] HQ]. split; [exists y; eapply lookup_weaken; [done|apply Hp]|done].
  - intros h' T' b l Hid HT' Hsub Hb Hstr Hl Hnn.
    assert (∀ y, y ∈ b :: l → T !! y = None) as Hbl.
    { intros y Hy. destruct (T !! y) as [x|] eqn:E; [|done]. apply (lookup_weaken _ T1) in E; [|apply Hp].
      apply elem_of_cons in Hy as [->|Hy]; [congruence|]. by rewrite Hl in E. }
    assert (part_of T T') as Hp' by (eapply part_of_trans; [exact Hp|by split]).
    apply (Hnew h' (join T (b :: l) T') b l); [done|exists T'; split; [done|by apply join_part]| |].
    + split; [apply join_sub|done| |].
      * intros i y [?|(_ & ? & _)]%join_cases Hi; [congruence|done].
      * intros i y [Hi|(_ & _ & Hi)]%join_cases Hin; [by rewrite Hbl in Hi|].
        destruct Hstr as (k & nx & ib & rest & Hb' & Hx & _). apply elem_of_cons in Hin as [->|Hin].
        { rewrite Hi in Hb'. by injection Hb' as ->. }
        destruct (extents_lookup _ _ _ _ _ Hx Hin) as (k' & nx' & d & Hy). rewrite Hi in Hy. by injection Hy as ->.
    + apply (string_block_agree T'); [|done]. intros y Hy. by apply (join_new Hbl).
  - intros e h' T' HT' Hsub Hnn. apply HR. exists T'. split; [done|]. eapply part_of_trans; [exact Hp|by split].
Qed.

Lemma own_release_string `{!HashMapOrder Z Z} b c l data id (Q : unit → InnerState → Prop) R :
  string_block T b c l data → 0 < c < 2 ^ 24 →
  string_reference_ids s !! id = Some b → (∀ id', string_reference_ids s !! id' = Some b → id' = id) →
  (∀ h', c ≠ 1 → owns h' (alter (add_refs (-1)) b T) → Q tt (set_heap h' s)) →
  (∀ h', c = 1 → owns h' (delete b (without l T)) → Q tt (set_string_reference_ids (delete id) (set_heap h' s))) →
  wp (release_string_reference b) s Q R.
Proof using HO.
  intros Hs Hc Hid Huniq Hmany Hone. destruct HO as (T' & HT & Hp).
  eapply (release_string_reference_wp s T' b c l data id); [done| |done|done|done|..].
  - eapply string_block_subset; [apply Hp|done].
  - intros h' Hc1 HT'. apply Hmany; [done|]. eexists. split; [exact HT'|]. apply part_of_alter; [done|].
    destruct Hs as (? & ? & ? & ? & ? & _). by eexists.
  - intros h' Hc1 HT'. apply Hone; [done|]. eexists. split; [exact HT'|].
    rewrite without_delete by (by eapply string_block_not_in). by apply part_of_delete, part_of_without.
Qed.
End rules.
