(* ===== verification/InspectValues.v ===== *)
(** Making and deleting the blocks of values: the parent that counts them, the name they
    share, and the block itself. *)
From Stdlib Require Import ZArith Lia.
From stdpp Require Import base gmap strings list.
From S2P Require Import Prelude StateError InspectFormat InspectBlock InspectMemory.
From S2P Require Import InspectHeap InspectState InspectObjects InspectTyped InspectExtents.
From S2P Require Import InspectTree InspectOwned.
Local Open Scope Z_scope.

Implicit Types (T : objects) (V : tree) (X : gmap Z (list Z)).

(** No difference. *)
Definition zero : Z → Z := λ _, 0.

(** The state with another heap and other string references. *)
Definition with_store (h : Heap) (ids : gmap Z Z) (s : InnerState) : InnerState :=
  mkInnerState h (next_unique_link_id s) (transaction_count s) ids (callbacks s) (next_string_reference_id s).

Lemma with_store_id s : with_store (heap s) (string_reference_ids s) s = s.
Proof. by destruct s. Qed.

Lemma alter_known {A} (m : gmap Z A) f i x : m !! i = Some x → alter f i m = <[i := f x]> m.
Proof.
  intros Hi. apply map_eq. intros j. destruct (decide (i = j)) as [<-|].
  - by rewrite lookup_alter_eq, Hi, lookup_insert_eq.
  - by rewrite lookup_alter_ne, lookup_insert_ne.
Qed.

Lemma alter_insert_other {A} (m : gmap Z A) f i j x : i ≠ j → alter f j (<[i := x]> m) = <[i := x]> (alter f j m).
Proof.
  intros Hne. apply map_eq. intros y. destruct (decide (i = y)) as [<-|].
  - by rewrite lookup_alter_ne, !lookup_insert_eq by done.
  - destruct (decide (j = y)) as [<-|].
    + by rewrite lookup_alter_eq, !lookup_insert_ne, lookup_alter_eq by done.
    + by rewrite lookup_alter_ne, !lookup_insert_ne, lookup_alter_ne by done.
Qed.

(** ** The count of a parent *)

Definition parent_count (o : obj) : option Z :=
  match o with
  | O_Tombstone c | O_Value _ _ (B_Node c) => Some c
  | _ => None
  end.

Section parent.
Context {s : InnerState} {T : objects}.
Context (HO : owns (heap s) T).
Context {p k : Z} {o : obj}.
Context (Hp : T !! p = Some (k, o)).

Lemma child_count_wp c (Q : Z → InnerState → Prop) R : parent_count o = Some c → Q c s → wp (blk child_count p) s Q R.
Proof using HO Hp.
  intros Hc HQ. eapply (own_blk HO); [exact Hp| |exact HQ]. intros m Hin Hat. apply (child_count_at Hin _ c Hat).
  destruct o as [| | |? ? []| |]; simplify_eq/=; [by left|right; by repeat eexists].
Qed.

Lemma set_child_count_wp c d (Q : unit → InnerState → Prop) R :
  parent_count o = Some c → 0 <= c + d < 2 ^ 64 →
  (∀ h', owns h' (alter (add_children d) p T) → Q tt (set_heap h' s)) →
  wp (on_blk (set_child_count p (c + d))) s Q R.
Proof using HO Hp.
  intros Hc Hd HQ. rewrite (alter_known T _ p _ Hp) in HQ.
  destruct o as [| | |n q []| |]; simplify_eq/=; (eapply (own_update HO); [exact Hp| |exact HQ]).
  - by apply set_child_count_tombstone_updates.
  - by apply set_child_count_node_updates.
Qed.

Lemma adopt_value_wp (Q : unit → InnerState → Prop) R :
  (∀ c, parent_count o = Some c → 0 <= c <= 2 ^ 24) →
  (∀ h', can_parent o → owns h' (alter (add_children 1) p T) → Q tt (set_heap h' s)) →
  (∀ e, ~ can_parent o → R e s) → wp (adopt_value p) s Q R.
Proof using HO Hp.
  intros Hbound HQ HR. unfold adopt_value. apply wp_bind. eapply (own_heap_block HO); [exact Hp|].
  apply wp_bind. eapply (own_blk_get HO); [exact Hp|intros m Hin Hat; by apply (block_type_at Hin)|].
  assert (∀ c, parent_count o = Some c → can_parent o →
    wp (count ← unwrap (blk child_count p); count ← lift (count_up count); on_blk (set_child_count p count)) s Q R) as Hcount.
  { intros c Hc Hcan. specialize (Hbound c Hc). change (2 ^ 24) with 16777216 in Hbound.
    apply wp_bind, wp_unwrap. eapply child_count_wp; [exact Hc|]. apply wp_bind.
    eapply wp_lift; [unfold count_up; by rewrite (proj2 (Z.ltb_lt _ _)) by (unfold u64_size; lia)|].
    eapply set_child_count_wp; [exact Hc|lia|]. intros h'. by apply HQ. }
  destruct o as [g| | |n q []| |] eqn:Eo; cbn [obj_type body_type];
    try (by apply HR; intros ?); try (by eapply Hcount).
  apply wp_ret. rewrite <- (set_heap_id s). apply HQ; [done|].
  by rewrite (alter_known T _ p _ Hp), insert_id.
Qed.

Lemma disown_value_wp c (Q : unit → InnerState → Prop) R :
  parent_count o = Some c → 0 < c <= 2 ^ 24 →
  (∀ h', o = O_Tombstone 1 → owns h' (delete p T) → Q tt (set_heap h' s)) →
  (∀ h', o ≠ O_Tombstone 1 → owns h' (alter (add_children (-1)) p T) → Q tt (set_heap h' s)) →
  wp (disown_value p) s Q R.
Proof using HO Hp.
  intros Hc Hb Hlast Hmore. change (2 ^ 24) with 16777216 in Hb. unfold disown_value.
  apply wp_bind, wp_unwrap. eapply (own_heap_block HO); [exact Hp|].
  apply wp_bind, wp_unwrap. eapply child_count_wp; [exact Hc|]. apply wp_bind.
  eapply wp_lift; [unfold count_down; by rewrite (proj2 (Z.ltb_lt _ _)) by lia|].
  apply wp_bind. eapply (own_blk_get HO); [exact Hp|intros m Hin Hat; by apply (block_type_at Hin)|].
  destruct (bool_decide (obj_type o = Tombstone) && (c - 1 =? 0)) eqn:E.
  - apply andb_true_iff in E as [Ht%bool_decide_eq_true Hz%Z.eqb_eq]. assert (o = O_Tombstone 1) as Ho.
    { destruct o as [| | |? ? []| |]; simplify_eq/=. f_equal. lia. }
    apply wp_unwrap. eapply (own_free HO); [exact Hp|]. intros h'. by apply Hlast.
  - apply wp_unwrap. eapply (set_child_count_wp c (-1)); [exact Hc|lia|]. intros h' HO'. apply Hmore; [|done].
    intros ->. by simplify_eq/=.
Qed.
End parent.

Section values.
Context (text : Z → rstring) `{!HashMapOrder Z Z}.

(** ** Bounds *)

Lemma children_bound ids T X V dn dc p : wf text ids T X V dn dc → children V p <= Z.of_nat (size T).
Proof.
  intros [_ Ht _]. transitivity (Z.of_nat (size V)); [apply count_le|]. apply inj_le.
  rewrite <- !size_dom. apply subseteq_size. intros i [e Hi]%elem_of_dom.
  destruct (tree_entry _ _ _ Ht i e Hi) as (k & n & b & Hb). apply elem_of_dom. by eexists.
Qed.

(** The header and the string itself are no users of it. *)
Lemma refs_bound ids T X V dn dc b k c nx t ib :
  wf text ids T X V dn dc → T !! b = Some (k, O_String c nx t ib) → refs T b + 2 <= Z.of_nat (size T).
Proof.
  intros [_ Ht _] Hb. destruct (tree_header _ _ _ Ht) as [g Hg]. assert (b ≠ 0) as Hb0 by (intros ->; congruence).
  assert (delete b T !! 0 = Some (0, O_Header g)) as Hg' by (by rewrite lookup_delete_ne).
  assert (refs T b = count (names b) (delete 0 (delete b T))) as ->.
  { unfold refs. rewrite (count_delete _ _ _ _ Hg'), (count_delete _ _ _ _ Hb). cbn. lia. }
  pose proof (count_le (names b) (delete 0 (delete b T))) as Hle.
  rewrite map_size_delete_Some in Hle by (by eexists). rewrite map_size_delete_Some in Hle by (by eexists).
  assert (size T ≠ 0%nat) by (intros Hz%map_size_empty_inv; by rewrite Hz, lookup_empty in Hb).
  assert (size (delete b T) ≠ 0%nat) as Hs by (intros Hz%map_size_empty_inv; by rewrite Hz, lookup_empty in Hg').
  rewrite map_size_delete_Some in Hs by (by eexists). lia.
Qed.

Lemma parent_count_of ids T X V dn dc p k o c : wf text ids T X V dn dc → T !! p = Some (k, o) → parent_count o = Some c →
  c = children V p + dc p.
Proof.
  intros [_ Ht _] Hp Hc. destruct o as [| |c'|n q []| |]; simplify_eq/=.
  - by destruct (tree_tombstone _ _ _ Ht _ _ _ Hp) as (_ & ? & _).
  - destruct (tree_value _ _ _ Ht _ _ _ _ _ Hp) as (e & _ & _ & Hm). by destruct (e_value e).
Qed.

(** ** Giving up a name *)

(** A block that is not a string or an extent. *)
Definition unstored (x : option (Z * obj)) : Prop :=
  match x with
  | Some (_, O_String _ _ _ _) | Some (_, O_Extent _ _) => False
  | _ => True
  end.

(** Only strings and extents differ. *)
Definition same_unstored T T' : Prop := ∀ y, unstored (T !! y) → T' !! y = T !! y.

Lemma without_insert l T i x : i ∉ l → without l (<[i := x]> T) = <[i := x]> (without l T).
Proof.
  intros Hi. apply map_eq. intros j. destruct (decide (i = j)) as [<-|Hne].
  - by rewrite lookup_without, !lookup_insert_eq.
  - rewrite lookup_insert_ne by done. destruct (decide (j ∈ l)); [by rewrite !lookup_without_in|].
    by rewrite !lookup_without, lookup_insert_ne.
Qed.

Lemma release_name_wp s T X V dc i x b id (Q : unit → InnerState → Prop) R :
  owns (heap s) (<[i := x]> T) → wf text (string_reference_ids s) T X V (bump zero b 1) dc →
  string_reference_ids s !! id = Some b → unstored (T !! i) →
  (∀ h' ids' T' X', owns h' (<[i := x]> T') → wf text ids' T' X' V zero dc → same_unstored T T' →
     Q tt (with_store h' ids' s)) →
  wp (release_string_reference b) s Q R.
Proof.
  intros HO Hw Hid Hi HQ. pose proof (wf_store _ _ _ _ _ _ _ Hw) as Hst.
  destruct (store_id _ _ _ _ _ Hst _ _ Hid) as (c & l & Hl & Hs).
  pose proof Hs as (k & nx & ib & rest & Hb & Hx & _).
  assert (i ∉ b :: l) as Hbl.
  { intros [->|Hin]%elem_of_cons; [by rewrite Hb in Hi|].
    destruct (extents_lookup _ _ _ _ _ Hx Hin) as (? & ? & ? & Hy). by rewrite Hy in Hi. }
  apply not_elem_of_cons in Hbl as [Hib Hil].
  assert (string_block (<[i := x]> T) b c l (text id)) as Hs'.
  { apply (string_block_agree T); [|done]. intros y Hy. apply lookup_insert_ne. intros ->.
    apply elem_of_cons in Hy as [->|?]; done. }
  pose proof (store_string _ _ _ _ _ Hst _ _ _ _ _ _ Hb) as Hc. unfold bump, zero in Hc. rewrite decide_True in Hc by done.
  assert (0 < c < 2 ^ 24) as Hcb.
  { pose proof (refs_bound _ _ _ _ _ _ _ _ _ _ _ _ Hw Hb). destruct (own_fuel HO) as [_ Hsz].
    assert (size T <= size (<[i := x]> T))%nat by (rewrite map_size_insert; destruct (T !! i); cbn; lia).
    pose proof (count_nonneg (names b) T). unfold refs in *. lia. }
  eapply (own_release_string HO); [exact Hs'|done|exact Hid| | |].
  - intros id' Hid'. by apply (store_inj _ _ _ _ _ Hst id' id b).
  - intros h' Hc1 HO'. rewrite alter_insert_other in HO' by done.
    apply (HQ h' (string_reference_ids s) _ X HO').
    + eapply wf_settle; [apply (wf_add_refs _ _ _ _ _ _ _ b (-1) Hw)| |done].
      intros j ? ? ? ? ? _. unfold bump, zero. destruct (decide (j = b)); lia.
    + intros y Hy. rewrite lookup_alter_ne; [done|]. intros <-. by rewrite Hb in Hy.
  - intros h' Hc1 HO'. rewrite without_insert, delete_insert_ne in HO' by done.
    apply (HQ h' (delete id (string_reference_ids s)) _ (delete b X) HO').
    + eapply wf_settle; [apply (wf_drop_string _ Hw Hid Hl); lia| |done].
      intros j ? ? ? ? ? [Hne _]%lookup_delete_Some. unfold bump, zero. rewrite decide_False by done. lia.
    + intros y Hy. rewrite lookup_delete_ne by (intros <-; by rewrite Hb in Hy). apply lookup_without. intros Hin.
      destruct (extents_lookup _ _ _ _ _ Hx Hin) as (? & ? & ? & Hy'). by rewrite Hy' in Hy.
Qed.

(** ** A new value *)

(** A string reference stands for its text, which is a Rust string that fits. *)
Record named (sr : StringRef) : Prop := {
  named_text : data sr = text (reference_id sr);
  named_u8 : all_u8 (data sr);
  named_len : len (data sr) < u32_size;
}.

Section allocate.
Context {g : Z} {V : tree} {p size : Z} {name : StringRef}.

(** What is left: block [i] reserved, one more user of the name [n], one more child of [p]. *)
Definition value_reserved (r : Z * Z) (h : Heap) (ids : gmap Z Z) : Prop :=
  ∃ T X k kp o, owns h (<[r.1 := (k, O_Reserved)]> T) ∧ T !! r.1 = None ∧
    wf text ids T X V (bump zero r.2 1) (bump zero p 1) ∧ ids !! reference_id name = Some r.2 ∧
    T !! p = Some (kp, o) ∧ can_parent o ∧ size <= 16 * 2 ^ k ∧ T !! 0 = Some (0, O_Header g).

(** Nothing has changed but blocks that no one needs. *)
Definition still (h : Heap) (ids : gmap Z Z) : Prop :=
  ∃ T X, owns h T ∧ wf text ids T X V zero zero ∧ T !! 0 = Some (0, O_Header g).

(** The name is known, as block [b]. *)
Lemma adopt_named_wp s T X i k b (Q : Z * Z → InnerState → Prop) R :
  owns (heap s) (<[i := (k, O_Reserved)]> T) → T !! i = None →
  wf text (string_reference_ids s) T X V zero zero → string_reference_ids s !! reference_id name = Some b →
  is_Some (T !! p) → size <= 16 * 2 ^ k → T !! 0 = Some (0, O_Header g) →
  (∀ h' ids', value_reserved (i, b) h' ids' → Q (i, b) (with_store h' ids' s)) →
  (∀ e h' ids', still h' ids' → R e (with_store h' ids' s)) →
  wp (_ ← on_blk (increment_string_reference_count b);
      result ← attempt (adopt_value p);
      match result with
      | inl _ => mret (i, b)
      | inr err =>
        _ ← release_string_reference b;
        _ ← on_heap (free_block i);
        throw err
      end) s Q R.
Proof.
  intros HO Hi Hw Hid [x Hp] Hk Hg HQ HR. pose proof (wf_store _ _ _ _ _ _ _ Hw) as Hst.
  destruct (store_id _ _ _ _ _ Hst _ _ Hid) as (c & l & Hl & (kb & nx & ib & rest & Hb & Hx & _)).
  assert (i ≠ b) as Hib by (intros ->; congruence). assert (i ≠ p) as Hip by (intros ->; congruence).
  assert (<[i := (k, O_Reserved)]> T !! b = Some (kb, O_String c nx (len (text (reference_id name))) ib)) as Hb'
    by (by rewrite lookup_insert_ne).
  assert (0 <= c ∧ c + 1 < 2 ^ 24) as [Hc0 Hc1].
  { pose proof (store_string _ _ _ _ _ Hst _ _ _ _ _ _ Hb) as Hc. unfold zero in Hc.
    pose proof (refs_bound _ _ _ _ _ _ _ _ _ _ _ _ Hw Hb). destruct (own_fuel HO) as [_ Hsz].
    rewrite map_size_insert_None in Hsz by done. pose proof (count_nonneg (names b) T). unfold refs in *. lia. }
  apply wp_bind. eapply (own_update HO); [exact Hb'|by apply increment_updates|]. intros h1 HO1.
  set (T1 := alter (add_refs 1) b T).
  assert (owns h1 (<[i := (k, O_Reserved)]> T1)) as HO1'.
  { unfold T1. rewrite (alter_known T _ b _ Hb), insert_insert_ne by done. exact HO1. }
  assert (wf text (string_reference_ids s) T1 X V (bump zero b 1) zero) as Hw1 by (by apply wf_add_refs).
  assert (∃ kp o, T1 !! p = Some (kp, o)) as (kp & o & Hp1).
  { unfold T1. destruct (decide (b = p)) as [->|]; [rewrite lookup_alter_eq, Hp|rewrite lookup_alter_ne, Hp by done]; cbn.
    - destruct (add_refs 1 x) as [kp o]. by exists kp, o.
    - destruct x as [kp o]. by exists kp, o. }
  assert (T1 !! 0 = Some (0, O_Header g)) as Hg1 by (unfold T1; rewrite lookup_alter_ne; [done|intros ->; congruence]).
  assert (T1 !! i = None) as Hi1 by (unfold T1; by rewrite lookup_alter_ne, Hi).
  apply wp_bind, wp_attempt.
  eapply (adopt_value_wp (s := set_heap h1 s) HO1'); [by rewrite lookup_insert_ne| | |].
  - intros cc Hcc. rewrite (parent_count_of _ _ _ _ _ _ _ _ _ _ Hw1 Hp1 Hcc). unfold zero.
    pose proof (children_bound _ _ _ _ _ _ p Hw1). destruct (own_fuel (s := set_heap h1 s) HO1') as [_ Hsz].
    rewrite map_size_insert_None in Hsz by done. pose proof (count_nonneg (is_child p) V). unfold children in *. lia.
  - intros h2 Hcan HO2. apply wp_ret. rewrite alter_insert_other in HO2 by done.
    apply (HQ h2 (string_reference_ids s)). exists (alter (add_children 1) p T1), X, k, kp.
    destruct (add_children_keeps_kind T1 p 1 _ _ _ Hp1) as (o' & Ho' & Hcan' & _). exists o'. cbn [fst snd].
    split_and!; [done|by rewrite lookup_alter_ne| |done|done|by apply Hcan'|done|].
    2:{ destruct (decide (p = 0)) as [->|]; [by rewrite lookup_alter_eq, Hg1|by rewrite lookup_alter_ne]. }
    apply (wf_add_children _ _ _ _ _ _ _ _ _ Hw1). intros k' c' Hc'.
    destruct (tree_tombstone _ _ _ (wf_tree _ _ _ _ _ _ _ Hw1) _ _ _ Hc') as (_ & _ & ?). lia.
  - intros e _. apply wp_bind.
    eapply (release_name_wp (set_heap h1 s) T1 X V zero); [exact HO1'|exact Hw1|exact Hid|by rewrite Hi1|].
    intros h2 ids2 T2 X2 HO2 Hw2 Hsame. apply wp_bind.
    eapply (own_free (s := with_store h2 ids2 (set_heap h1 s)) HO2); [by rewrite lookup_insert_eq|]. intros h3 HO3.
    rewrite delete_insert_id in HO3 by (rewrite Hsame; [done|by rewrite Hi1]).
    apply (HR e h3 ids2). exists T2, X2. split_and!; [done|done|]. rewrite Hsame by (by rewrite Hg1). done.
Qed.

Lemma allocate_reserved_value_wp s T X (Q : Z * Z → InnerState → Prop) R :
  owns (heap s) T → wf text (string_reference_ids s) T X V zero zero → named name → is_Some (T !! p) → 0 < size →
  T !! 0 = Some (0, O_Header g) →
  (∀ r h' ids', value_reserved r h' ids' → Q r (with_store h' ids' s)) →
  (∀ e h' ids', still h' ids' → R e (with_store h' ids' s)) →
  wp (allocate_reserved_value name p size) s Q R.
Proof.
  intros HO Hw [Htext Hu8 Hlen] Hp Hsize Hg HQ HR. unfold allocate_reserved_value.
  apply wp_bind. eapply (own_allocate HO); [done| |].
  2:{ intros e h' HO'. apply (HR e h' (string_reference_ids s)). by exists T, X. }
  intros h1 i k Hi Hk Hle HO1.
  assert (i ≠ 0) as Hi0 by (intros ->; congruence).
  apply wp_bind, wp_attempt. eapply (own_create_string (s := set_heap h1 s) HO1); [|done|done|..].
  - rewrite lookup_insert_ne by done. by eexists.
  - intros b Hb. cbn [string_reference_ids set_heap] in Hb. split.
    { destruct (store_id _ _ _ _ _ (wf_store _ _ _ _ _ _ _ Hw) _ _ Hb) as (c & l & _ & (kb & ? & ? & ? & Hbb & _)).
      destruct (decide (i = b)) as [->|]; [by rewrite lookup_insert_eq|rewrite lookup_insert_ne by done; by eexists]. }
    apply (adopt_named_wp (set_heap h1 s) T X i k b _ _ HO1 Hi Hw Hb Hp Hle Hg); [intros h' ids'; apply HQ|intros e h' ids'; apply HR].
  - intros h2 T2 b l Hid HO2 Hg2 Hs. cbn [string_reference_ids set_heap] in Hid |- *.
    set (T2' := delete i T2).
    assert (i ∉ b :: l) as Hbl.
    { intros Hin. pose proof (grown_new _ _ _ Hg2 i Hin) as E. by rewrite lookup_insert_eq in E. }
    assert (T2 !! i = Some (k, O_Reserved)) as Hi2.
    { eapply lookup_weaken; [|by apply (grown_sub _ _ _ Hg2)]. by rewrite lookup_insert_eq. }
    assert (T2 = <[i := (k, O_Reserved)]> T2') as HT2 by (unfold T2'; by rewrite insert_delete_id).
    assert (T2' !! i = None) as Hi2' by (unfold T2'; by rewrite lookup_delete_eq).
    assert (grown T T2' (b :: l)) as Hg'.
    { destruct Hg2 as [G1 G2 G3 G4]. split.
      - apply map_subseteq_spec. intros y x Hy. unfold T2'. assert (i ≠ y) by (intros ->; congruence).
        rewrite lookup_delete_ne by done. eapply lookup_weaken; [|exact G1]. by rewrite lookup_insert_ne.
      - intros y Hy. specialize (G2 y Hy). rewrite lookup_insert_ne in G2; [done|]. by intros ->.
      - intros y x [Hne Hy]%lookup_delete_Some Hn. eapply G3; [exact Hy|]. by rewrite lookup_insert_ne.
      - intros y x [Hne Hy]%lookup_delete_Some Hin. by apply (G4 y). }
    assert (string_block T2' b 0 l (data name)) as Hs'.
    { apply (string_block_agree T2); [|done]. intros y Hy. apply lookup_delete_ne. by intros ->. }
    rewrite Htext in Hs'.
    assert (wf text (<[reference_id name := b]> (string_reference_ids s)) T2' (<[b := l]> X) V zero zero) as Hw2
      by (by eapply wf_new_string).
    eapply (adopt_named_wp (with_store h2 (<[reference_id name := b]> (string_reference_ids s)) s) T2' (<[b := l]> X) i k b);
      [by rewrite <- HT2|done|done|apply lookup_insert_eq| |done|eapply lookup_weaken; [exact Hg|apply Hg']|intros h' ids'; apply HQ|intros e h' ids'; apply HR].
    destruct Hp as [x Hp]. exists x. eapply lookup_weaken; [exact Hp|apply Hg'].
  - intros e h2 HO2. apply wp_bind. eapply (own_free (s := set_heap h2 s) HO2); [by rewrite lookup_insert_eq|].
    intros h3 HO3. rewrite delete_insert_id in HO3 by done.
    apply (HR e h3 (string_reference_ids s)). by exists T, X.
Qed.
End allocate.

(** ** A value goes *)

(** Its parent has one child less. *)
Lemma disown_child_wp s T X V dn i x p kp o (Q : unit → InnerState → Prop) R :
  owns (heap s) (<[i := x]> T) → wf text (string_reference_ids s) T X V dn (bump zero p 1) →
  i ≠ p → p ≠ 0 → T !! p = Some (kp, o) → can_parent o →
  (∀ h' T', owns h' (<[i := x]> T') → wf text (string_reference_ids s) T' X V dn zero → (∀ y, y ≠ p → T' !! y = T !! y) →
     Q tt (set_heap h' s)) →
  wp (disown_value p) s Q R.
Proof.
  intros HO Hw Hip Hp0 Hp Hcan HQ. pose proof (wf_tree _ _ _ _ _ _ _ Hw) as Ht.
  assert (∃ c, parent_count o = Some c) as [c Hc].
  { destruct o as [g| |c|? ? []| |]; try done; [|by eexists..]. by rewrite (tree_only_header _ _ _ Ht _ _ _ Hp) in Hp0. }
  pose proof (parent_count_of _ _ _ _ _ _ _ _ _ _ Hw Hp Hc) as Hcc. unfold bump, zero in Hcc. rewrite decide_True in Hcc by done.
  pose proof (count_nonneg (is_child p) V) as H0. fold (children V p) in H0.
  eapply (disown_value_wp HO); [by rewrite lookup_insert_ne|exact Hc| | |].
  - pose proof (children_bound _ _ _ _ _ _ p Hw). destruct (own_fuel HO) as [_ Hsz].
    assert (children V p < Z.of_nat (size (<[i := x]> T))) as Hlt; [|lia].
    apply Z.lt_le_trans with (Z.of_nat (size T)); [|rewrite map_size_insert; destruct (T !! i); cbn; lia].
    destruct (tree_header _ _ _ Ht) as [g Hg]. assert (children V p <= Z.of_nat (size (delete 0 T))) as Hle.
    { apply Z.le_trans with (Z.of_nat (size V)); [apply count_le|]. apply inj_le. rewrite <- !size_dom.
      apply subseteq_size. intros y [e Hy]%elem_of_dom. destruct (tree_entry _ _ _ Ht y e Hy) as (ky & ny & by_ & Hb).
      apply elem_of_dom. exists (ky, O_Value ny (e_parent e) by_). rewrite lookup_delete_ne; [done|]. intros <-. congruence. }
    rewrite map_size_delete_Some in Hle by (by eexists).
    assert (size T ≠ 0%nat) by (intros Hz%map_size_empty_inv; by rewrite Hz, lookup_empty in Hg). lia.
  - intros h' -> HO'. injection Hc as <-. rewrite delete_insert_ne in HO' by done.
    apply (HQ h' (delete p T) HO'); [|intros y Hy; by rewrite lookup_delete_ne].
    eapply wf_settle; [eapply (wf_drop_tombstone _ _ _ _ _ _ _ _ _ _ Hw Hp); lia|done|].
    intros j ? ? [Hne _]%lookup_delete_Some _. unfold bump, zero. by rewrite decide_False.
  - intros h' Hlast HO'. rewrite alter_insert_other in HO' by done.
    apply (HQ h' (alter (add_children (-1)) p T) HO'); [|intros y Hy; by rewrite lookup_alter_ne].
    eapply wf_settle; [apply (wf_add_children _ _ _ _ _ _ _ p (-1) Hw)|done|].
    + intros k' c' Hc'. rewrite Hp in Hc'. injection Hc' as -> ->. injection Hc as ->.
      assert (c ≠ 1) by (by intros ->). lia.
    + intros j ? ? _ _. unfold bump, zero. destruct (decide (j = p)); lia.
Qed.

(** The tree is without the value already; its block is still there, or to become a
    tombstone. *)
Lemma delete_value_wp s T X V g i k n p b id (Q : unit → InnerState → Prop) R :
  owns (heap s) (<[i := (k, O_Value n p b)]> T) →
  wf text (string_reference_ids s) T X V (bump zero n 1) (bump zero p 1) →
  string_reference_ids s !! id = Some n → i ≠ p → (∃ kp o, T !! p = Some (kp, o) ∧ can_parent o) →
  (T !! i = None ∧ (∀ c, b = B_Node c → c = 0) ∨ ∃ c, b = B_Node c ∧ c ≠ 0 ∧ T !! i = Some (k, O_Tombstone c)) →
  T !! 0 = Some (0, O_Header g) →
  (∀ h' ids', still (g := g) (V := V) h' ids' → Q tt (with_store h' ids' s)) →
  wp (delete_value i) s Q R.
Proof.
  intros HO Hw Hid Hip (kp & o & Hp & Hcan) Hi Hg HQ. unfold delete_value.
  assert (unstored (T !! i)) as Hun by (by destruct Hi as [[-> _]|(c & _ & _ & ->)]).
  apply wp_bind. eapply (own_blk HO); [by rewrite lookup_insert_eq|intros m Hin Hat; by eapply parent_index_at|].
  (* after the parent *)
  assert (∀ h1 T1, owns h1 (<[i := (k, O_Value n p b)]> T1) → wf text (string_reference_ids s) T1 X V (bump zero n 1) zero →
    T1 !! i = T !! i → T1 !! 0 = Some (0, O_Header g) →
    wp (name_index ← blk name_index i;
        name ← unwrap (heap_block name_index);
        t ← blk_get block_type name;
        _ ← match t with
            | StringReference => release_string_reference name
            | _ => unwrap (on_heap (free_block name))
            end;
        t ← blk_get block_type i;
        keep ← (if bool_decide (t = NodeValue) then count ← blk child_count i; mret (negb (count =? 0)) else mret false);
        if keep : bool then on_blk (become_tombstone i) else on_heap (free_block i)) (set_heap h1 s) Q R) as Hrest.
  { intros h1 T1 HO1 Hw1 Hi1 Hg1. apply wp_bind.
    eapply (own_blk (s := set_heap h1 s) HO1); [by rewrite lookup_insert_eq|intros m Hin Hat; by eapply name_index_at|].
    destruct (store_id _ _ _ _ _ (wf_store _ _ _ _ _ _ _ Hw1) _ _ Hid) as (c & l & Hl & (kb & nx & ib & rest & Hb & _)).
    assert (i ≠ n) as Hin' by (intros ->; by rewrite <- Hi1, Hb in Hun).
    apply wp_bind, wp_unwrap. eapply (own_heap_block (s := set_heap h1 s) HO1); [by rewrite lookup_insert_ne|].
    apply wp_bind. eapply (own_blk_get (s := set_heap h1 s) HO1);
      [by rewrite lookup_insert_ne|intros m Hin Hat; by apply (block_type_at Hin)|]. cbn [obj_type].
    apply wp_bind. eapply (release_name_wp (set_heap h1 s)); [exact HO1|exact Hw1|exact Hid|by rewrite Hi1|].
    intros h2 ids2 T2 X2 HO2 Hw2 Hsame. assert (T2 !! i = T !! i) as Hi2 by (rewrite Hsame; by rewrite Hi1).
    assert (T2 !! 0 = Some (0, O_Header g)) as Hg2 by (rewrite Hsame; by rewrite Hg1).
    apply wp_bind. eapply (own_blk_get (s := with_store h2 ids2 (set_heap h1 s)) HO2);
      [by rewrite lookup_insert_eq|intros m Hin Hat; by apply (block_type_at Hin)|]. cbn [obj_type].
    assert (T !! i = None → wp (on_heap (free_block i)) (with_store h2 ids2 (set_heap h1 s)) Q R) as Hfree.
    { intros Hn. eapply (own_free (s := with_store h2 ids2 (set_heap h1 s)) HO2); [by rewrite lookup_insert_eq|].
      intros h3 HO3. rewrite delete_insert_id in HO3 by congruence. apply (HQ h3 ids2). by exists T2, X2. }
    apply wp_bind. destruct (bool_decide (body_type b = NodeValue)) eqn:Eb.
    - apply bool_decide_eq_true in Eb. destruct b as [cc| | | | | | |]; try done.
      apply wp_bind. eapply (child_count_wp (s := with_store h2 ids2 (set_heap h1 s)) HO2); [by rewrite lookup_insert_eq|done|].
      apply wp_ret. destruct (Z.eqb_spec cc 0) as [->|Hcc]; cbn [negb].
      + destruct Hi as [[Hn _]|(c' & [= <-] & ? & _)]; [by apply Hfree|done].
      + destruct Hi as [[_ Hc]|(c' & [= <-] & _ & Htomb)]; [by specialize (Hc _ eq_refl)|].
        eapply (own_update (s := with_store h2 ids2 (set_heap h1 s)) HO2); [by rewrite lookup_insert_eq|apply become_tombstone_updates|].
        intros h3 HO3. rewrite insert_insert_eq, insert_id in HO3 by congruence. apply (HQ h3 ids2). by exists T2, X2.
    - apply bool_decide_eq_false in Eb. apply wp_ret. destruct Hi as [[Hn _]|(c' & -> & _)]; [by apply Hfree|done]. }
  apply wp_bind. change ROOT_INDEX with 0. destruct (Z.eqb_spec p 0) as [->|Hp0]; cbn [negb].
  - apply wp_ret. rewrite <- (set_heap_id s). apply (Hrest (heap s) T HO); [|done|done].
    eapply wf_settle; [exact Hw|done|]. intros j ? ? Hj Hnh. unfold bump, zero. destruct (decide (j = 0)) as [->|]; [|done].
    rewrite Hg in Hj. injection Hj as <- <-. by destruct (Hnh g).
  - eapply (disown_child_wp s T X V (bump zero n 1) i); [exact HO|exact Hw|done|done|exact Hp|done|].
    intros h' T' HO' Hw' Hi'. apply (Hrest h' T'); [done|done|by apply Hi'|by rewrite Hi'].
Qed.
End values.
