(* ===== verification/InspectOperations.v ===== *)
(** The operations of a writer on a state that represents a tree: making values, setting
    the bytes of a buffer, deleting values and moving them. *)
From Stdlib Require Import ZArith Lia.
From stdpp Require Import base gmap strings list.
From S2P Require Import Prelude StateError InspectFormat InspectBlock InspectHeap InspectState InspectMemory.
From S2P Require Import InspectObjects InspectTyped InspectExtents InspectTree InspectOwned.
From S2P Require Import InspectValues.
Local Open Scope Z_scope.

Implicit Types (T : objects) (V : tree) (X : gmap Z (list Z)).

Section operations.
Context (text : Z → rstring) `{!HashMapOrder Z Z}.

(** The store of the state represents [V], under a header with generation [g]. *)
Definition stored (g : Z) V (h : Heap) (ids : gmap Z Z) : Prop := still text (g := g) (V := V) h ids.

(** ** New values *)

Lemma become_wp s g V p size name r op (made : body → aval → Prop) (Q : unit → InnerState → Prop) R :
  value_reserved text (g := g) (V := V) (p := p) (size := size) (name := name) r (heap s) (string_reference_ids s) →
  data name = text (reference_id name) →
  (∀ k, 0 <= r.2 < 2 ^ 24 → 0 <= p < 2 ^ 24 → size <= 16 * 2 ^ k →
     updates_to op r.1 k O_Reserved tt (λ o, ∃ b a, o = O_Value r.2 p b ∧ made b a)) →
  (∀ b a, made b a → body_means 0 b a ∧ ∀ f t x, b = B_Buffer f t x → t = 0 ∧ x = 0 ∧ a = A_Buffer f []) →
  (∀ h' T X k b a, owns h' T →
     wf text (string_reference_ids s) T X (<[r.1 := mkEntry (data name) p a]> V) zero zero →
     T !! 0 = Some (0, O_Header g) → T !! r.1 = Some (k, O_Value r.2 p b) → made b a → V !! r.1 = None → r.1 ≠ 0 →
     Q tt (set_heap h' s)) →
  wp (on_blk op) s Q R.
Proof.
  destruct r as [i n]. intros (T & X & k & kp & o & HO & Hi & Hw & Hid & Hp & Hcan & Hk & Hg) Htext Hop Hmade HQ.
  cbn [fst snd] in *. assert (i ≠ p) as Hip by (intros ->; congruence). assert (i ≠ 0) as Hi0 by (intros ->; congruence).
  destruct (store_id _ _ _ _ _ (wf_store _ _ _ _ _ _ _ Hw) _ _ Hid) as (c & l & _ & (kb & nx & ib & rest & Hb & _)).
  assert (i ≠ n) as Hin by (intros ->; congruence).
  eapply (own_update_to HO); [by rewrite lookup_insert_eq|apply Hop; [|..|done]|].
  { eapply (own_index HO). by rewrite lookup_insert_ne. }
  { eapply (own_index HO). by rewrite lookup_insert_ne. }
  intros h' ? (b & a & -> & Hba) HO'. rewrite insert_insert_eq in HO'. destruct (Hmade b a Hba) as [Hm Hbuf].
  assert (V !! i = None) as HVi.
  { destruct (V !! i) as [e|] eqn:E; [|done].
    destruct (tree_entry _ _ _ (wf_tree _ _ _ _ _ _ _ Hw) i e E) as (? & ? & ? & ?). congruence. }
  eapply (HQ h' _ _ k b a HO'); [|by rewrite lookup_insert_ne|by rewrite lookup_insert_eq|done|done|done].
  eapply wf_settle.
  - apply (wf_insert_value _ Hw (e := mkEntry (data name) p a) Hi (reference_id name)); try done.
    + unfold bump, zero. by rewrite decide_False.
    + cbn. eauto.
  - intros j ? ? ? ? ? _. unfold bump, zero. destruct (decide (j = n)); lia.
  - intros j ? ? _ _. unfold bump, zero. cbn. destruct (decide (j = p)); lia.
Qed.

(** An operation that reserves a value and fills it in. *)
Lemma create_wp s g T X V name p size (become : Z → Z → st Mapping FormatError unit) (made : body → aval → Prop)
    (Q : Z → InnerState → Prop) R :
  owns (heap s) T → wf text (string_reference_ids s) T X V zero zero → T !! 0 = Some (0, O_Header g) →
  named text name → is_Some (T !! p) → 0 < size →
  (∀ i n k, 0 <= n < 2 ^ 24 → 0 <= p < 2 ^ 24 → size <= 16 * 2 ^ k →
     updates_to (become i n) i k O_Reserved tt (λ o, ∃ b a, o = O_Value n p b ∧ made b a)) →
  (∀ b a, made b a → body_means 0 b a ∧ is_buffer b = false) →
  (∀ i a b h ids, made b a → V !! i = None → i ≠ 0 → stored g (<[i := mkEntry (data name) p a]> V) h ids →
     Q i (with_store h ids s)) →
  (∀ e h ids, stored g V h ids → R e (with_store h ids s)) →
  wp ('(block, name_block) ← allocate_reserved_value name p size; _ ← on_blk (become block name_block); mret block) s Q R.
Proof.
  intros HO Hw Hg Hn Hp Hsize Hop Hmade HQ HR. apply wp_bind.
  eapply (allocate_reserved_value_wp text (name := name) s T X); [exact HO|exact Hw|done|done|done|exact Hg| |exact HR].
  intros [i n] h ids Hr. apply wp_bind.
  eapply (become_wp (with_store h ids s) g V p size name (i, n) _ made); [exact Hr|apply Hn|intros k; apply Hop| |].
  - intros b a Hba. destruct (Hmade b a Hba) as [? Hb]. split; [done|]. by intros f t x ->.
  - cbn [fst snd]. intros h' T' X' k b a HO' Hw' Hg' Hi' Hba HVi Hi0. apply wp_ret.
    apply (HQ i a b h' ids Hba HVi Hi0). by exists T', X'.
Qed.

(** ** Buffers *)

Lemma inner_set_property_value_wp s g T X V i k n f t x e l value (Q : unit → InnerState → Prop) R :
  owns (heap s) T → wf text (string_reference_ids s) T X V zero zero → T !! 0 = Some (0, O_Header g) →
  T !! i = Some (k, O_Value n (e_parent e) (B_Buffer f t x)) → V !! i = Some e → X !! i = Some l →
  all_u8 value → len value < u32_size →
  (∀ h ids, stored g (<[i := mkEntry (e_name e) (e_parent e) (A_Buffer f value)]> V) h ids →
     Q tt (with_store h ids s)) →
  (∀ err h, owns h (without l T) → R err (set_heap h s)) →
  wp (inner_set_property_value i value) s Q R.
Proof.
  intros HO Hw Hg Hi He Hl Hu Hlen HQ HR. pose proof (wf_store _ _ _ _ _ _ _ Hw) as Hst. unfold inner_set_property_value.
  apply wp_bind. eapply (own_blk HO); [exact Hi|intros m Hin Hat; by eapply property_extent_index_at|].
  destruct (store_buffer _ _ _ _ _ Hst _ _ _ _ _ _ _ Hi) as (l' & content & Hl' & Hx & Hnd & _).
  rewrite Hl in Hl'. injection Hl' as <-.
  apply wp_bind. eapply (own_free_extents HO); [exact Hx|done|]. intros h1 HO1.
  set (T1 := without l T) in *.
  assert (T1 !! 0 = Some (0, O_Header g)) as Hg1 by (by apply (cut_stays text Hst Hl)).
  assert (T1 !! i = Some (k, O_Value n (e_parent e) (B_Buffer f t x))) as Hi1 by (by apply (cut_stays text Hst Hl)).
  apply wp_bind. eapply (own_write_extents (s := set_heap h1 s) HO1); [by eexists|done| |].
  2:{ intros err h2 HO2. by apply (HR err h2). }
  intros h2 T2 x' l2 HO2 Hx2 Hnd2 Hg2 Hx0. rewrite (proj2 (Z.leb_gt _ _)) by done.
  pose proof (lookup_weaken _ _ _ _ Hi1 (grown_sub _ _ _ Hg2)) as Hi2. pose proof (len_nonneg value) as Hl0.
  apply wp_bind. eapply (own_update (s := set_heap h2 s) HO2); [exact Hi2|by apply set_total_length_buffer_updates|].
  intros h3 HO3. eapply (own_update (s := set_heap h3 s) HO3); [by rewrite lookup_insert_eq| |].
  { apply set_property_extent_index_updates. change (2 ^ 24) with 16777216 in Hx0. change (2 ^ 28) with 268435456. lia. }
  intros h4 HO4. rewrite insert_insert_eq in HO4. apply (HQ h4 (string_reference_ids s)). eexists _, _.
  assert (i ≠ 0) as Hi0 by (intros ->; congruence).
  split_and!; [exact HO4| |rewrite lookup_insert_ne by done; eapply lookup_weaken; [exact Hg1|apply Hg2]].
  pose proof (wf_empty_buffer text Hw Hi He Hl) as Hw1. fold T1 in Hw1.
  pose proof (wf_fill_buffer text _ T1 _ _ zero zero i k n f (mkEntry (e_name e) (e_parent e) (A_Buffer f [])) T2 x' l2 value Hw1
    (lookup_insert_eq _ _ _) (lookup_insert_eq _ _ _) ltac:(by eexists) Hg2 Hx2 Hnd2) as Hw2.
  cbn [e_name e_parent] in Hw2. rewrite !insert_insert_eq in Hw2. exact Hw2.
Qed.

(** ** Deleting *)

(** Only strings and buffers own extents. *)
Lemma no_chain ids T X V dn dc i k n p b : wf text ids T X V dn dc →
  T !! i = Some (k, O_Value n p b) → is_buffer b = false → X !! i = None.
Proof.
  intros [Hst _ _] Hi Hb. destruct (X !! i) as [l|] eqn:E; [|done].
  destruct (store_owner _ _ _ _ _ Hst _ _ E) as [[id Hid]|(? & ? & ? & ? & ? & ? & Hi')].
  - destruct (store_id _ _ _ _ _ Hst _ _ Hid) as (? & ? & _ & (? & ? & ? & ? & ? & _)). congruence.
  - rewrite Hi in Hi'. injection Hi' as _ _ _ ->. done.
Qed.

Section deletion.
Context {s : InnerState} {g : Z} {T : objects} {X : gmap Z (list Z)} {V : tree} {i k n : Z} {b : body} {e : entry}.
Context (HO : owns (heap s) T).
Context (Hw : wf text (string_reference_ids s) T X V zero zero).
Context (Hg : T !! 0 = Some (0, O_Header g)).
Context (Hi : T !! i = Some (k, O_Value n (e_parent e) b)) (He : V !! i = Some e).

Lemma value_facts : i ≠ e_parent e ∧ i ≠ 0 ∧ (∃ id, string_reference_ids s !! id = Some n) ∧
  ∃ kp o, T !! e_parent e = Some (kp, o) ∧ can_parent o.
Proof using Hw Hg Hi He.
  split_and!.
  - apply not_eq_sym. by eapply wf_parent_ne.
  - intros ->. congruence.
  - by eapply (store_name _ _ _ _ _ (wf_store _ _ _ _ _ _ _ Hw)).
  - by eapply (tree_parent _ _ _ (wf_tree _ _ _ _ _ _ _ Hw)).
Qed.

(** The block goes, from a heap in which its contents may have gone already. *)
Lemma delete_block_wp T0 X0 V0 s0 b0 (Q : unit → InnerState → Prop) R :
  string_reference_ids s0 = string_reference_ids s →
  wf text (string_reference_ids s) T0 X0 V0 zero zero → T0 !! i = Some (k, O_Value n (e_parent e) b0) →
  T0 !! 0 = Some (0, O_Header g) → (∃ kp o, T0 !! e_parent e = Some (kp, o) ∧ can_parent o) →
  (∀ l, X0 !! i = Some l → l = []) → children V0 i = 0 →
  owns (heap s0) (<[i := (k, O_Value n (e_parent e) b)]> T0) →
  (∀ c, b = B_Node c → c = 0) →
  (∀ h ids, stored g (delete i V0) h ids → Q tt (with_store h ids s0)) →
  wp (delete_value i) s0 Q R.
Proof using Hw Hg Hi He.
  intros Hs Hw0 Hi0 Hg0 (kp & o & Hp & Hcan) HX Hz HO0 Hb HQ. destruct value_facts as (Hip & Hi00 & [id Hid] & _).
  pose proof (wf_remove_value text _ _ _ _ _ _ _ _ _ _ _ Hw0 Hi0 HX Hz) as Hw1.
  assert (<[i := (k, O_Value n (e_parent e) b)]> T0 = <[i := (k, O_Value n (e_parent e) b)]> (delete i T0)) as E
    by (by rewrite insert_delete_eq).
  rewrite E in HO0. eapply (delete_value_wp text s0 (delete i T0) (delete i X0) (delete i V0) g i k n (e_parent e) b id);
    [exact HO0|by rewrite Hs|by rewrite Hs|done| | |by rewrite lookup_delete_ne|exact HQ].
  - exists kp, o. by rewrite lookup_delete_ne.
  - left. by rewrite lookup_delete_eq.
Qed.

Lemma delete_wp (Q : unit → InnerState → Prop) R : is_buffer b = false →
  (∀ h ids, stored g (delete i V) h ids → Q tt (with_store h ids s)) →
  wp (delete_value i) s Q R.
Proof using HO Hw Hg Hi He.
  intros Hbuf HQ. destruct value_facts as (Hip & Hi0 & [id Hid] & Hpar).
  assert ((∀ c, b = B_Node c → c = 0) ∧ children V i = 0 ∨ ∃ c, b = B_Node c ∧ 0 < c) as [[Hc Hz]|(c & -> & Hc)].
  { destruct (wf_value text _ _ _ _ _ _ _ _ Hw He) as (k' & n' & b' & Hi' & Hm). rewrite Hi in Hi'.
    injection Hi' as <- <- <-. pose proof (count_nonneg (is_child i) V) as H0. fold (children V i) in H0. unfold zero in Hm.
    destruct b as [c| | | | | | |] eqn:Eb.
    - destruct (e_value e); try done. cbn in Hm. destruct (decide (c = 0)) as [->|]; [left|right].
      + split; [by intros ? [= ->]|lia].
      + exists c. split; [done|lia].
    - left. split; [done|]. eapply (wf_leaf text); [exact Hw|exact He|]. intros E. by rewrite E in Hm.
    - left. split; [done|]. eapply (wf_leaf text); [exact Hw|exact He|]. intros E. by rewrite E in Hm.
    - left. split; [done|]. eapply (wf_leaf text); [exact Hw|exact He|]. intros E. by rewrite E in Hm.
    - left. split; [done|]. eapply (wf_leaf text); [exact Hw|exact He|]. intros E. by rewrite E in Hm.
    - done.
    - left. split; [done|]. eapply (wf_leaf text); [exact Hw|exact He|]. intros E. by rewrite E in Hm.
    - by destruct (e_value e). }
  - apply (delete_block_wp T X V s b); [done|exact Hw|exact Hi|exact Hg|done| |done|by rewrite insert_id|done|exact HQ].
    intros l Hl. by rewrite (no_chain _ _ _ _ _ _ _ _ _ _ _ Hw Hi Hbuf) in Hl.
  - pose proof (wf_entomb text _ _ _ _ _ _ _ _ _ _ _ Hw Hi Hc) as Hw1.
    eapply (delete_value_wp text s (<[i := (k, O_Tombstone c)]> T) X (delete i V) g i k n (e_parent e) (B_Node c) id);
      [by rewrite insert_insert_eq, insert_id|exact Hw1|exact Hid|done| | |by rewrite lookup_insert_ne|exact HQ].
    + destruct Hpar as (kp & o & Hp & Hcan). exists kp, o. by rewrite lookup_insert_ne.
    + right. exists c. rewrite lookup_insert_eq. split_and!; [done|lia|done].
Qed.

Lemma free_property_wp f t x (Q : unit → InnerState → Prop) R : b = B_Buffer f t x →
  (∀ h ids, stored g (delete i V) h ids → Q tt (with_store h ids s)) →
  wp (free_property i) s Q R.
Proof using HO Hw Hg Hi He.
  intros Hb HQ. destruct value_facts as (Hip & Hi0 & [id Hid] & (kp & o & Hp & Hcan)). pose proof (wf_store _ _ _ _ _ _ _ Hw) as Hst.
  pose proof Hi as Hib. rewrite Hb in Hib. unfold free_property. apply wp_bind. eapply (own_heap_block HO); [exact Hi|].
  apply wp_bind. eapply (own_blk HO); [exact Hib|intros m Hin Hat; by eapply property_extent_index_at|].
  destruct (store_buffer _ _ _ _ _ Hst _ _ _ _ _ _ _ Hib) as (l & content & Hl & Hx & Hnd & _).
  apply wp_bind. eapply (own_free_extents HO); [exact Hx|done|]. intros h1 HO1.
  assert (children V i = 0) as Hz.
  { destruct (wf_value text _ _ _ _ _ _ _ _ Hw He) as (k' & n' & b' & Hi' & Hm). rewrite Hib in Hi'. injection Hi' as <- <- <-.
    eapply (wf_leaf text); [exact Hw|exact He|]. intros E. by rewrite E in Hm. }
  pose proof (wf_empty_buffer text Hw Hib He Hl) as Hw1.
  eapply (delete_block_wp _ _ _ (set_heap h1 s) _); [done|exact Hw1|by rewrite lookup_insert_eq| | | | | | |].
  - rewrite lookup_insert_ne by done. by apply (cut_stays text Hst Hl).
  - exists kp, o. rewrite lookup_insert_ne by done. split; [|done]. apply (cut_stays text Hst Hl); [done|]. intros ? ? ->. done.
  - intros l' Hl'. rewrite lookup_insert_eq in Hl'. by injection Hl' as <-.
  - rewrite (children_update V i e); done.
  - rewrite insert_insert_eq, Hb, insert_id; [exact HO1|]. by apply (cut_stays text Hst Hl).
  - by rewrite Hb.
  - intros h ids. rewrite delete_insert_eq. apply HQ.
Qed.
End deletion.
End operations.

(** ** Moving a value *)

(** ** Going up *)

(** [l] is [j] and the values above it. *)
Inductive climb V : Z → list Z → Prop :=
| climb_out j : V !! j = None → climb V j []
| climb_in j e l : V !! j = Some e → climb V (e_parent e) l → climb V j (j :: l).

Lemma rooted_climb V j : rooted V j → ∃ l, climb V j l.
Proof. induction 1 as [j Hj|j e Hj _ [l Hl]]; eexists; [by apply climb_out|by eapply climb_in]. Qed.

Lemma climb_unique V j l l' : climb V j l → climb V j l' → l = l'.
Proof.
  intros Hl. revert l'. induction Hl as [j Hj|j e l Hj _ IH]; intros l' Hl'; inversion Hl'; simplify_eq; [done|].
  f_equal. by apply IH.
Qed.

Lemma climb_above V j l y : climb V j l → y ∈ l → is_Some (V !! y) ∧ ∃ l', climb V y l' ∧ (length l' <= length l)%nat.
Proof.
  induction 1 as [j Hj|j e l Hj Hl IH]; [by intros ?%elem_of_nil|].
  intros [->|Hy]%elem_of_cons; [split; [by eexists|]; exists (j :: l); split; [by eapply climb_in|done]|].
  destruct (IH Hy) as (? & l' & Hl' & Hle). split; [done|]. exists l'. split; [done|cbn; lia].
Qed.

Lemma climb_NoDup V j l : climb V j l → NoDup l.
Proof.
  induction 1 as [j Hj|j e l Hj Hl IH]; [constructor|]. constructor; [|done]. intros Hin.
  destruct (climb_above _ _ _ _ Hl Hin) as (_ & l' & Hl' & Hle).
  rewrite (climb_unique _ _ _ _ Hl' (climb_in _ _ _ _ Hj Hl)) in Hle. cbn in Hle. lia.
Qed.

Lemma climb_length V j l : climb V j l → (length l <= size V)%nat.
Proof.
  intros Hl. rewrite <- size_dom, <- (size_list_to_set (C := gset Z) l) by (by eapply climb_NoDup).
  apply subseteq_size. intros y Hy%elem_of_list_to_set. apply elem_of_dom. by eapply climb_above.
Qed.

(** [j] hangs below the root, and not below [i]. *)
Inductive hangs V (i : Z) : Z → Prop :=
| hangs_root : hangs V i 0
| hangs_up j e : j ≠ i → V !! j = Some e → hangs V i (e_parent e) → hangs V i j.

(** Below such a [j], the value [i] can be put without a loop. *)
Lemma hangs_rooted V i j e : V !! 0 = None → V !! i = Some e → (∀ y, rooted V y) → hangs V i j →
  ∀ y, rooted (<[i := mkEntry (e_name e) j (e_value e)]> V) y.
Proof.
  intros H0 Hi Hr Hj. set (V' := <[i := _]> V).
  assert (i ≠ 0) as Hi0 by (intros ->; congruence).
  assert (∀ y, hangs V i y → rooted V' y) as Hh.
  { induction 1 as [|y f Hne Hy _ IH].
    - apply rooted_out. unfold V'. by rewrite lookup_insert_ne.
    - eapply rooted_in; [|exact IH]. unfold V'. by rewrite lookup_insert_ne. }
  assert (rooted V' i) as Hri by (eapply rooted_in; [unfold V'; by rewrite lookup_insert_eq|cbn; by apply Hh]).
  intros y. induction (Hr y) as [y Hy|y f Hy _ IH]; destruct (decide (i = y)) as [<-|]; try done.
  - apply rooted_out. unfold V'. by rewrite lookup_insert_ne.
  - eapply rooted_in; [|exact IH]. unfold V'. by rewrite lookup_insert_ne.
Qed.

Section reparent.
Context (text : Z → rstring) `{!HashMapOrder Z Z}.

Lemma wf_root ids T X V dn dc : wf text ids T X V dn dc → V !! 0 = None.
Proof.
  intros [_ Ht _]. destruct (V !! 0) as [e|] eqn:E; [|done]. destruct (tree_header _ _ _ Ht) as [g Hg].
  destruct (tree_entry _ _ _ Ht _ _ E) as (? & ? & ? & ?). congruence.
Qed.

Lemma check_lineage_loop_wp fuel s T X V i j l (Q : unit → InnerState → Prop) R :
  owns (heap s) T → wf text (string_reference_ids s) T X V zero zero → climb V j l → is_Some (T !! j) →
  (length l < fuel)%nat → (hangs V i j → Q tt s) → (∀ e, ~ hangs V i j → R e s) →
  wp (check_lineage_loop fuel i j) s Q R.
Proof.
  intros HO Hw. revert j l. induction fuel as [|fuel IH]; intros j l Hl [[k o] Hj] Hf HQ HR; [lia|].
  cbn [check_lineage_loop]. change ROOT_INDEX with 0.
  destruct (Z.eqb_spec j 0) as [->|Hj0]; [apply wp_ret, HQ, hangs_root|].
  destruct (Z.eqb_spec j i) as [->|Hji].
  { eapply wp_throw; [done|]. apply HR. inversion 1; congruence. }
  apply wp_bind. eapply (own_heap_block HO); [exact Hj|]. apply wp_bind.
  destruct (V !! j) as [e|] eqn:HV.
  - destruct (tree_entry _ _ _ (wf_tree _ _ _ _ _ _ _ Hw) _ _ HV) as (k' & n & b & Hj'). rewrite Hj in Hj'. injection Hj' as <- ->.
    eapply (own_blk HO); [exact Hj|intros m Hin Hat; by eapply parent_index_at|].
    destruct (tree_parent _ _ _ (wf_tree _ _ _ _ _ _ _ Hw) _ _ HV) as (kp & op & Hp & _).
    inversion Hl; simplify_eq. cbn in Hf. eapply IH; [done|by eexists|lia| |].
    + intros Hh. apply HQ. by eapply hangs_up.
    + intros err Hn. apply HR. inversion 1; simplify_eq.
  - eapply (own_refused HO); [exact Hj| |intros err; apply HR; inversion 1; congruence].
    intros m Hin Hat. unfold block_reads, reads, parent_index, check_any_value. rewrite (block_type_at Hin o Hat). cbn.
    assert (is_any_value (obj_type o) = false) as ->; [|by eexists].
    destruct o as [| | |n p b| |]; try done. destruct (tree_value _ _ _ (wf_tree _ _ _ _ _ _ _ Hw) _ _ _ _ _ Hj) as (e & He & _). congruence.
Qed.

Lemma check_lineage_wp s T X V i j (Q : unit → InnerState → Prop) R :
  owns (heap s) T → wf text (string_reference_ids s) T X V zero zero → i ≠ 0 → is_Some (T !! j) →
  (hangs V i j → Q tt s) → (∀ e, ~ hangs V i j → R e s) →
  wp (check_lineage i j) s Q R.
Proof.
  intros HO Hw Hi0 Hj HQ HR. unfold check_lineage. change ROOT_INDEX with 0. rewrite (proj2 (Z.eqb_neq _ _)) by done.
  apply wp_bind. unfold get, wp at 1.
  destruct (rooted_climb V j) as [l Hl]; [apply (tree_rooted _ _ _ (wf_tree _ _ _ _ _ _ _ Hw))|].
  eapply check_lineage_loop_wp; [exact HO|exact Hw|exact Hl|exact Hj| |exact HQ|exact HR].
  pose proof (climb_length _ _ _ Hl). destruct (own_fuel HO) as [Hsz _]. unfold heap_fuel. change MIN_ORDER_SIZE with 16.
  assert (size V <= size T)%nat; [|lia]. rewrite <- !size_dom. apply subseteq_size. intros y [e Hy]%elem_of_dom.
  destruct (tree_entry _ _ _ (wf_tree _ _ _ _ _ _ _ Hw) y e Hy) as (k & n & b & Hb). apply elem_of_dom. by eexists.
Qed.

(** The old parent loses a child; a tombstone that has lost its last one is left behind. *)
Definition lose_child (p : Z) T : objects :=
  match T !! p with
  | Some (_, O_Tombstone 1) => delete p T
  | _ => alter (add_children (-1)) p T
  end.

Lemma lose_child_other p T y : y ≠ p → lose_child p T !! y = T !! y.
Proof.
  intros Hy. unfold lose_child. destruct (T !! p) as [[k o]|]; [|by rewrite lookup_alter_ne].
  destruct o as [| |[|[]|]| | |]; rewrite ?lookup_alter_ne, ?lookup_delete_ne by done; done.
Qed.

Lemma lose_child_part p T k o : T !! p = Some (k, o) → part_of (lose_child p T) (alter (add_children (-1)) p T).
Proof.
  intros Hp. unfold lose_child. rewrite Hp. assert (∀ c, o = O_Tombstone c → c = 1 →
    part_of (delete p T) (alter (add_children (-1)) p T)) as Hdrop.
  { intros c -> ->. rewrite (alter_known T _ p _ Hp). cbn.
    rewrite <- (delete_insert_eq T p (k, O_Tombstone 0)). eapply part_of_drop; [by rewrite lookup_insert_eq|done]. }
  destruct o as [| |[|[]|]| | |]; try apply part_of_refl. by eapply Hdrop.
Qed.

Lemma wf_lose_child ids T X V dc p k o : wf text ids T X V zero (bump dc p 1) → dc p = 0 ∨ dc p = -1 →
  T !! p = Some (k, o) → (∀ c, o = O_Tombstone c → dc p = 0) →
  wf text ids (lose_child p T) X V zero dc.
Proof.
  intros Hw Hdc Hp Ho. unfold lose_child. rewrite Hp.
  assert (∀ x, bump (bump dc p 1) p (-1) x = dc x) as Hb by (intros x; unfold bump; destruct (decide (x = p)); lia).
  assert ((∀ k' c, T !! p = Some (k', O_Tombstone c) → 0 < c + -1) → wf text ids (alter (add_children (-1)) p T) X V zero dc) as Hmore.
  { intros Hpos. eapply wf_settle; [apply (wf_add_children _ _ _ _ _ _ _ p (-1) Hw Hpos)|done|]. intros j ? ? _ _. by rewrite Hb. }
  assert (∀ c, o = O_Tombstone c → c = children V p + 1 ∧ 0 < c) as Hc.
  { intros c ->. destruct (tree_tombstone _ _ _ (wf_tree _ _ _ _ _ _ _ Hw) _ _ _ Hp) as (_ & Hc & ?).
    unfold bump in Hc. rewrite decide_True, (Ho _ eq_refl) in Hc by done. lia. }
  destruct (decide (o = O_Tombstone 1)) as [->|Hne].
  - destruct (Hc 1 eq_refl) as [Hc1 _]. eapply wf_settle; [apply (wf_drop_tombstone _ _ _ _ _ _ _ _ _ _ Hw Hp); lia|done|].
    intros j ? ? [Hj _]%lookup_delete_Some _. unfold bump. rewrite decide_False by done. lia.
  - assert (wf text ids (alter (add_children (-1)) p T) X V zero dc) as Hw'.
    { apply Hmore. intros k' c Hc'. rewrite Hp in Hc'. injection Hc' as -> ->. destruct (Hc c eq_refl).
      assert (c ≠ 1) by (by intros ->). lia. }
    by destruct o as [| |[|[]|]| | |].
Qed.

Lemma lose_child_insert p T i x : i ≠ p → lose_child p (<[i := x]> T) = <[i := x]> (lose_child p T).
Proof.
  intros Hne. unfold lose_child. rewrite lookup_insert_ne by done. destruct (T !! p) as [[k o]|]; [|by apply alter_insert_other].
  destruct o as [| |[|[]|]| | |]; try (by apply alter_insert_other). by apply delete_insert_ne.
Qed.

(** The count of the new parent. *)
Lemma gain_child_wp s T X V p (Q : unit → InnerState → Prop) R :
  owns (heap s) T → wf text (string_reference_ids s) T X V zero (bump zero p (-1)) →
  (p = 0 ∨ ∃ k n q c, T !! p = Some (k, O_Value n q (B_Node c))) → 0 < children V p →
  (∀ h' T', owns h' T' → wf text (string_reference_ids s) T' X V zero zero → (∀ y, y ≠ p ∨ p = 0 → T' !! y = T !! y) →
     Q tt (set_heap h' s)) →
  wp (if negb (p =? ROOT_INDEX) then
        new_parent_block ← heap_block p;
        child_count ← blk child_count new_parent_block;
        child_count ← lift (count_up child_count);
        on_blk (set_child_count new_parent_block child_count)
      else mret tt) s Q R.
Proof.
  intros HO Hw Hp Hpos HQ. change ROOT_INDEX with 0. destruct (Z.eqb_spec p 0) as [->|Hp0]; cbn [negb].
  - apply wp_ret. rewrite <- (set_heap_id s). apply (HQ (heap s) T); [done| |done].
    eapply wf_settle; [exact Hw|done|]. intros j ? ? Hj Hnh. unfold bump, zero. destruct (decide (j = 0)) as [->|]; [|done].
    destruct (tree_header _ _ _ (wf_tree _ _ _ _ _ _ _ Hw)) as [g Hg]. rewrite Hg in Hj. injection Hj as <- <-. by destruct (Hnh g).
  - destruct Hp as [?|(k & n & q & c & Hp)]; [done|].
    pose proof (parent_count_of _ _ _ _ _ _ _ _ _ _ _ Hw Hp eq_refl) as Hc. unfold bump, zero in Hc. rewrite decide_True in Hc by done.
    pose proof (children_bound _ _ _ _ _ _ _ p Hw) as Hle. destruct (own_fuel HO) as [_ Hsz]. change (2 ^ 24) with 16777216 in Hsz.
    apply wp_bind. eapply (own_heap_block HO); [exact Hp|].
    apply wp_bind. eapply (child_count_wp HO Hp); [done|]. apply wp_bind.
    eapply wp_lift; [unfold count_up; by rewrite (proj2 (Z.ltb_lt _ _)) by (unfold u64_size; lia)|].
    eapply (set_child_count_wp HO Hp c 1); [done|lia|]. intros h' HO'. apply (HQ h' _ HO').
    + eapply wf_settle; [apply (wf_add_children _ _ _ _ _ _ _ p 1 Hw)|done|].
      * intros k' c' Hc'. congruence.
      * intros j ? ? _ _. unfold bump, zero. destruct (decide (j = p)); lia.
    + intros y [Hy|Hy]; [by rewrite lookup_alter_ne|done].
Qed.

(** The count of the old one. *)
Lemma leave_parent_wp s T p k o c (Q : unit → InnerState → Prop) R :
  owns (heap s) T → T !! p = Some (k, o) → p = 0 ∨ parent_count o = Some c ∧ 0 < c <= 2 ^ 24 →
  (∀ h', owns h' (if p =? 0 then T else lose_child p T) → Q tt (set_heap h' s)) →
  wp (if negb (p =? ROOT_INDEX) then
        original_parent_block ← heap_block p;
        child_count ← blk child_count original_parent_block;
        child_count ← lift (count_down child_count);
        on_blk (set_child_count original_parent_block child_count)
      else mret tt) s Q R.
Proof.
  intros HO Hp Hc HQ. change ROOT_INDEX with 0. destruct (Z.eqb_spec p 0) as [->|Hp0]; cbn [negb].
  - apply wp_ret. rewrite <- (set_heap_id s). by apply HQ.
  - destruct Hc as [?|[Hc Hb]]; [done|]. change (2 ^ 24) with 16777216 in Hb.
    apply wp_bind. eapply (own_heap_block HO); [exact Hp|].
    apply wp_bind. eapply (child_count_wp HO Hp); [done|]. apply wp_bind.
    eapply wp_lift; [unfold count_down; by rewrite (proj2 (Z.ltb_lt _ _)) by lia|].
    eapply (set_child_count_wp HO Hp c (-1)); [done|lia|]. intros h' HO'. apply HQ.
    eapply owns_part; [exact HO'|]. by eapply lose_child_part.
Qed.

Lemma reparent_wp s g T X V i k n b e p (Q : unit → InnerState → Prop) R :
  owns (heap s) T → wf text (string_reference_ids s) T X V zero zero → T !! 0 = Some (0, O_Header g) →
  T !! i = Some (k, O_Value n (e_parent e) b) → V !! i = Some e →
  (p = 0 ∨ ∃ e', V !! p = Some e' ∧ e_value e' = A_Node) →
  (∀ h ids, hangs V i p → stored text g (<[i := mkEntry (e_name e) p (e_value e)]> V) h ids → Q tt (with_store h ids s)) →
  (∀ err, ~ hangs V i p → R err s) →
  wp (reparent i p) s Q R.
Proof.
  intros HO Hw Hg Hi He Hp HQ HR. destruct (value_facts _ Hw Hg Hi He) as (Hip & Hi0 & _ & (kq & oq & Hq & Hcan)).
  pose proof (wf_tree _ _ _ _ _ _ _ Hw) as Ht.
  assert (∃ kp op, T !! p = Some (kp, op) ∧ can_parent op ∧ (p = 0 ∨ ∃ n' q c, op = O_Value n' q (B_Node c))) as (kp & op & Hp' & Hcanp & Hnode).
  { destruct Hp as [->|(e' & He' & Hv)]; [exists 0, (O_Header g); split_and!; [done|done|by left]|].
    destruct (wf_value text _ _ _ _ _ _ _ _ Hw He') as (k' & n' & b' & Hb' & Hm). rewrite Hv in Hm. destruct b'; try done.
    eexists k', _. split_and!; [exact Hb'|done|right; eauto]. }
  unfold reparent. apply wp_bind. eapply check_lineage_wp; [exact HO|exact Hw|done|by eexists| |exact HR]. intros Hh.
  assert (p ≠ i) as Hpi by (intros ->; inversion Hh; congruence).
  apply wp_bind. eapply (own_heap_block HO); [exact Hi|].
  apply wp_bind. eapply (own_blk HO); [exact Hi|intros m Hin Hat; by eapply parent_index_at|]. set (q := e_parent e) in *.
  assert (∃ c, q = 0 ∨ parent_count oq = Some c ∧ 0 < c <= 2 ^ 24) as [c Hc].
  { destruct (decide (q = 0)) as [->|Hq0]; [exists 0; by left|].
    assert (∃ c, parent_count oq = Some c) as [c Hc].
    { destruct oq as [g'| |c|? ? []| |]; try done; [|by eexists..]. by rewrite (tree_only_header _ _ _ Ht _ _ _ Hq) in Hq0. }
    exists c. right. split; [done|]. rewrite (parent_count_of _ _ _ _ _ _ _ _ _ _ _ Hw Hq Hc). unfold zero.
    assert (0 < children V q) by (eapply count_pos; [exact He|]; apply Z.eqb_refl).
    pose proof (children_bound _ _ _ _ _ _ _ q Hw). destruct (own_fuel HO) as [_ Hsz]. lia. }
  apply wp_bind. eapply leave_parent_wp; [exact HO|exact Hq|exact Hc|]. intros h1 HO1.
  set (T1 := if q =? 0 then T else lose_child q T) in *.
  assert (∀ y, y ≠ q → T1 !! y = T !! y) as HT1.
  { intros y Hy. unfold T1. destruct (q =? 0); [done|]. by apply lose_child_other. }
  set (V' := <[i := mkEntry (e_name e) p (e_value e)]> V).
  assert (∀ y, rooted V' y) as Hr by (by apply hangs_rooted; [by eapply wf_root| |apply (tree_rooted _ _ _ Ht)|]).
  pose proof (wf_set_parent text Hw Hi He p ltac:(eauto) Hr Hpi) as Hw0. fold q V' in Hw0.
  assert (wf text (string_reference_ids s) (<[i := (k, O_Value n p b)]> T1) X V' zero (bump zero p (-1))) as Hw1.
  { unfold T1. destruct (Z.eqb_spec q 0) as [Hq0|Hq0].
    - eapply wf_settle; [exact Hw0|done|]. intros j kj oj Hj Hnh. unfold bump, zero. destruct (decide (j = q)) as [->|]; [|lia].
      rewrite Hq0, lookup_insert_ne, Hg in Hj by done. injection Hj as <- <-. by destruct (Hnh g).
    - rewrite <- lose_child_insert by done. eapply wf_lose_child; [|..|by rewrite lookup_insert_ne|].
      + eapply wf_settle; [exact Hw0|done|]. intros j ? ? _ _. unfold bump, zero. destruct (decide (j = p)), (decide (j = q)); lia.
      + unfold bump, zero. destruct (decide (q = p)); [by right|by left].
      + intros c' ->. unfold bump, zero. rewrite decide_False; [done|]. intros E. rewrite E in Hq.
        destruct Hnode as [Hp0|(? & ? & ? & ->)]; congruence. }
  assert (T1 !! i = Some (k, O_Value n q b)) as Hi1 by (by rewrite HT1).
  apply wp_bind. eapply (own_update (s := set_heap h1 s) HO1); [exact Hi1|apply set_parent_updates|].
  { eapply (own_index HO). exact Hp'. }
  intros h2 HO2. assert (∃ k0 o0, T1 !! p = Some (k0, o0) ∧ (p = 0 ∨ ∃ n' q c, o0 = O_Value n' q (B_Node c))) as (k0 & o0 & Hp1 & Hn0).
  { destruct (decide (p = q)) as [E|]; [|rewrite HT1 by done; eauto]. unfold T1. rewrite <- E.
    destruct (Z.eqb_spec p 0) as [Hp0|Hp0]; [eauto|]. destruct Hnode as [?|(n' & q' & c' & ->)]; [done|].
    unfold lose_child. rewrite Hp', lookup_alter_eq, Hp'. cbn. eexists _, _. split; [done|right; eauto]. }
  eapply (gain_child_wp (set_heap h2 s) (<[i := (k, O_Value n p b)]> T1) X V'); [exact HO2|exact Hw1| | |].
  - destruct Hn0 as [?|(n' & q' & c' & ->)]; [by left|right]. exists k0, n', q', c'. by rewrite lookup_insert_ne.
  - eapply (count_pos _ _ i); [unfold V'; by rewrite lookup_insert_eq|]. apply Z.eqb_refl.
  - intros h3 T3 HO3 Hw3 Hsame. apply (HQ h3 (string_reference_ids s)); [done|]. exists T3, X. split_and!; [done|done|].
    assert (0 ≠ p ∨ p = 0) as Hor by lia. rewrite Hsame, lookup_insert_ne by done. unfold T1.
    destruct (Z.eqb_spec q 0); [done|]. by rewrite lose_child_other.
Qed.
End reparent.
