(* ===== verification/InspectWriter.v ===== *)
(** A writer of Inspect data refines a tree of named values: the commands of the interface
    ([command], [exec]), what each of them does to the tree ([effect]), when it may fail
    ([refused]), and the proof that the bytes of the heap follow. *)
From Stdlib Require Import ZArith Lia.
From stdpp Require Import base gmap strings list.
From S2P Require Import Prelude StateError InspectFormat InspectBlock InspectMemory.
From S2P Require Import InspectHeap InspectHeapCorrect InspectState InspectObjects InspectTyped InspectExtents.
From S2P Require Import InspectExtents InspectTree InspectOwned InspectValues InspectOperations.
Local Open Scope Z_scope.

Implicit Types (T : objects) (V : tree) (X : gmap Z (list Z)).

(** ** Commands *)

(** The types of metrics and of the slots of arrays. *)
Inductive metric := M_Int | M_Uint | M_Double.

Inductive command :=
| CreateNode (name : StringRef) (parent : Z)
| CreateBool (name : StringRef) (value : bool) (parent : Z)
| CreateMetric (m : metric) (name : StringRef) (value parent : Z)
| CreateArray (m : metric) (name : StringRef) (slots : Z) (format : ArrayFormat) (parent : Z)
| CreateProperty (name : StringRef) (value : list Z) (format : PropertyFormat) (parent : Z)
| SetBool (index : Z) (value : bool)
| SetMetric (m : metric) (index value : Z)
| AddMetric (m : metric) (index value : Z)
| SubtractMetric (m : metric) (index value : Z)
| GetMetric (m : metric) (index : Z)
| SetSlot (m : metric) (index slot value : Z)
| AddSlot (m : metric) (index slot value : Z)
| SubtractSlot (m : metric) (index slot value : Z)
| ClearArray (index start : Z)
| SetProperty (index : Z) (value : list Z)
| FreeValue (index : Z)
| FreeProperty (index : Z)
| Reparent (index parent : Z)
| BeginTransaction
| EndTransaction.

Section exec.
Context `{!HashMapOrder Z Z, !FloatNaN}.

(** The result of a command that makes a value or reads one, and of the others. *)
Definition returning (op : st InnerState Error Z) : st InnerState Error (option Z) := i ← op; mret (Some i).
Definition silent (op : st InnerState Error unit) : st InnerState Error (option Z) := _ ← op; mret None.

Definition exec (c : command) : st InnerState Error (option Z) :=
  match c with
  | CreateNode name parent => locked (returning (create_node name parent))
  | CreateBool name value parent => locked (returning (create_bool name value parent))
  | CreateMetric M_Int name value parent => locked (returning (create_int_metric name value parent))
  | CreateMetric M_Uint name value parent => locked (returning (create_uint_metric name value parent))
  | CreateMetric M_Double name value parent => locked (returning (create_double_metric name value parent))
  | CreateArray M_Int name slots format parent => locked (returning (create_int_array name slots format parent))
  | CreateArray M_Uint name slots format parent => locked (returning (create_uint_array name slots format parent))
  | CreateArray M_Double name slots format parent => locked (returning (create_double_array name slots format parent))
  | CreateProperty name value format parent => locked (returning (create_property name value format parent))
  | SetBool index value => locked (silent (set_bool index value))
  | SetMetric M_Int index value => locked (silent (set_int_metric index value))
  | SetMetric M_Uint index value => locked (silent (set_uint_metric index value))
  | SetMetric M_Double index value => locked (silent (set_double_metric index value))
  | AddMetric M_Int index value => locked (silent (add_int_metric index value))
  | AddMetric M_Uint index value => locked (silent (add_uint_metric index value))
  | AddMetric M_Double index value => locked (silent (add_double_metric index value))
  | SubtractMetric M_Int index value => locked (silent (subtract_int_metric index value))
  | SubtractMetric M_Uint index value => locked (silent (subtract_uint_metric index value))
  | SubtractMetric M_Double index value => locked (silent (subtract_double_metric index value))
  | GetMetric M_Int index => locked (returning (get_int_metric index))
  | GetMetric M_Uint index => locked (returning (get_uint_metric index))
  | GetMetric M_Double index => locked (returning (get_double_metric index))
  | SetSlot M_Int index slot value => locked (silent (set_array_int_slot index slot value))
  | SetSlot M_Uint index slot value => locked (silent (set_array_uint_slot index slot value))
  | SetSlot M_Double index slot value => locked (silent (set_array_double_slot index slot value))
  | AddSlot M_Int index slot value => locked (silent (add_array_int_slot index slot value))
  | AddSlot M_Uint index slot value => locked (silent (add_array_uint_slot index slot value))
  | AddSlot M_Double index slot value => locked (silent (add_array_double_slot index slot value))
  | SubtractSlot M_Int index slot value => locked (silent (subtract_array_int_slot index slot value))
  | SubtractSlot M_Uint index slot value => locked (silent (subtract_array_uint_slot index slot value))
  | SubtractSlot M_Double index slot value => locked (silent (subtract_array_double_slot index slot value))
  | ClearArray index start => locked (silent (clear_array index start))
  | SetProperty index value => locked (silent (set_property index value))
  | FreeValue index => locked (silent (free_value index))
  | FreeProperty index => locked (silent (free_property index))
  | Reparent index parent => locked (silent (reparent index parent))
  | BeginTransaction => silent begin_transaction
  | EndTransaction => silent end_transaction
  end.
End exec.

(** ** The tree *)

Definition metric_type (m : metric) : BlockType :=
  match m with M_Int => IntValue | M_Uint => UintValue | M_Double => DoubleValue end.

(** The value of a metric, and the numbers that are ones: a double is its 64 bits. *)
Definition metric_aval (m : metric) (v : Z) : aval :=
  match m with M_Int => A_Int v | M_Uint => A_Uint v | M_Double => A_Double v end.
Definition metric_ok (m : metric) (v : Z) : Prop :=
  match m with M_Int => i64_min <= v <= i64_max | M_Uint => is_u64 v | M_Double => True end.
Definition metric_norm (m : metric) (v : Z) : Z :=
  match m with M_Double => v mod 2 ^ 64 | _ => v end.

Definition metric_add `{!FloatNaN} (m : metric) : Z → Z → Z :=
  match m with M_Int => safe_add_i64 | M_Uint => safe_add_u64 | M_Double => safe_add_f64 end.
Definition metric_sub `{!FloatNaN} (m : metric) : Z → Z → Z :=
  match m with M_Int => safe_sub_i64 | M_Uint => safe_sub_u64 | M_Double => safe_sub_f64 end.

(** The number in the 64 bits of a slot. *)
Definition slot_read (m : metric) (w : Z) : Z :=
  match m with M_Int => as_i64 w | _ => w end.

Definition created V (name : StringRef) (p : Z) (P : aval → Prop) (r : option Z) V' : Prop :=
  ∃ i a, r = Some i ∧ i ≠ 0 ∧ V !! i = None ∧ P a ∧ V' = <[i := mkEntry (data name) p a]> V.

Definition revalued V (i : Z) (F : aval → aval → Prop) (r : option Z) V' : Prop :=
  r = None ∧ ∃ e a, V !! i = Some e ∧ F (e_value e) a ∧ V' = <[i := mkEntry (e_name e) (e_parent e) a]> V.

(** A slot changes from [w] to [f w]. *)
Definition slot_changed (m : metric) (j : Z) (f : Z → Z) (a a' : aval) : Prop :=
  ∃ format vs w, a = A_Array (metric_type m) format vs ∧ 0 <= j ∧ vs !! Z.to_nat j = Some w ∧
    a' = A_Array (metric_type m) format (<[Z.to_nat j := f w mod 2 ^ 64]> vs).

(** What a command that returns [r] has done. *)
Definition effect `{!FloatNaN} V (c : command) (r : option Z) V' : Prop :=
  match c with
  | CreateNode name p => created V name p (λ a, a = A_Node) r V'
  | CreateBool name v p => created V name p (λ a, a = A_Bool v) r V'
  | CreateMetric m name v p => created V name p (λ a, a = metric_aval m (metric_norm m v)) r V'
  | CreateArray m name slots format p =>
    created V name p (λ a, ∃ vs, len vs = slots ∧ Forall is_u64 vs ∧ a = A_Array (metric_type m) format vs) r V'
  | CreateProperty name v f p => created V name p (λ a, a = A_Buffer f v) r V'
  | SetBool i v => revalued V i (λ a a', ∃ w, a = A_Bool w ∧ a' = A_Bool v) r V'
  | SetMetric m i v => revalued V i (λ a a', ∃ w, a = metric_aval m w ∧ a' = metric_aval m (metric_norm m v)) r V'
  | AddMetric m i v =>
    revalued V i (λ a a', ∃ w, a = metric_aval m w ∧ a' = metric_aval m (metric_norm m (metric_add m w v))) r V'
  | SubtractMetric m i v =>
    revalued V i (λ a a', ∃ w, a = metric_aval m w ∧ a' = metric_aval m (metric_norm m (metric_sub m w v))) r V'
  | GetMetric m i => V' = V ∧ ∃ e w, V !! i = Some e ∧ e_value e = metric_aval m w ∧ r = Some w
  | SetSlot m i j v => revalued V i (slot_changed m j (λ _, v)) r V'
  | AddSlot m i j v => revalued V i (slot_changed m j (λ w, metric_add m (slot_read m w) v)) r V'
  | SubtractSlot m i j v => revalued V i (slot_changed m j (λ w, metric_sub m (slot_read m w) v)) r V'
  | ClearArray i start =>
    revalued V i (λ a a', ∃ en f vs, a = A_Array en f vs ∧
      a' = A_Array en f (take (Z.to_nat start) vs ++ replicate (length vs - Z.to_nat start) 0)) r V'
  | SetProperty i v => revalued V i (λ a a', ∃ f c, a = A_Buffer f c ∧ a' = A_Buffer f v) r V'
  | FreeValue i => r = None ∧ V' = delete i V
  | FreeProperty i => r = None ∧ ∃ e f v, V !! i = Some e ∧ e_value e = A_Buffer f v ∧ V' = delete i V
  | Reparent i p =>
    r = None ∧ hangs V i p ∧ ∃ e, V !! i = Some e ∧ V' = <[i := mkEntry (e_name e) p (e_value e)]> V
  | BeginTransaction | EndTransaction => r = None ∧ V' = V
  end.

(** When a command fails: a value of another type or another slot is asked for, or a move
    would make a loop or move the root; where memory is needed, there may be none. *)
Definition refused V (c : command) : Prop :=
  match c with
  | CreateNode _ _ | CreateBool _ _ _ | CreateMetric _ _ _ _ | CreateArray _ _ _ _ _ | CreateProperty _ _ _ _
  | SetProperty _ _ => True
  | SetBool i _ => ∀ e v, V !! i = Some e → e_value e ≠ A_Bool v
  | SetMetric m i _ | AddMetric m i _ | SubtractMetric m i _ | GetMetric m i =>
    ∀ e v, V !! i = Some e → e_value e ≠ metric_aval m v
  | SetSlot m i j _ | AddSlot m i j _ | SubtractSlot m i j _ =>
    ∀ e f vs, V !! i = Some e → e_value e = A_Array (metric_type m) f vs → len vs <= j
  | ClearArray i _ => ∀ e en f vs, V !! i = Some e → e_value e ≠ A_Array en f vs
  | FreeProperty i => ∀ e f v, V !! i = Some e → e_value e ≠ A_Buffer f v
  | Reparent i p => i = 0 ∨ ~ hangs V i p
  | FreeValue _ | BeginTransaction | EndTransaction => False
  end.

(** A failure of these may leave a buffer without its bytes. *)
Definition writes_buffer (c : command) : bool :=
  match c with
  | CreateProperty _ _ _ _ | SetProperty _ _ => true
  | _ => false
  end.

(** The transactions that are open after it. *)
Definition depth (c : command) (n : Z) : Z :=
  match c with
  | BeginTransaction => n + 1
  | EndTransaction => n - 1
  | _ => n
  end.

Section writer.
Context (text : Z → rstring) `{!HashMapOrder Z Z, !FloatNaN}.

(** What the callers of a command see to: the indices are those of live values, the parent
    of a new value or of one that moves is a live node or the root, numbers are in the
    range of their types, strings are bytes and of a size that fits, [free_value] is not
    used for a buffer, and a transaction that ends has begun ([n] of them are open). *)
Definition node_or_root V (p : Z) : Prop := p = 0 ∨ ∃ e, V !! p = Some e ∧ e_value e = A_Node.
Definition live_or_root V (p : Z) : Prop := p = 0 ∨ is_Some (V !! p).
Definition bytes_fit (v : list Z) : Prop := all_u8 v ∧ len v < u32_size.

(** The size of the block of an array is a [usize]. *)
Definition slots_fit (slots : Z) : Prop := 0 <= slots ∧ slots * 8 + MIN_ORDER_SIZE < u64_size.

Definition allowed (n : Z) V (c : command) : Prop :=
  match c with
  | CreateNode name p | CreateBool name _ p => named text name ∧ live_or_root V p
  | CreateMetric m name v p => named text name ∧ live_or_root V p ∧ metric_ok m v
  | CreateArray m name slots _ p => named text name ∧ live_or_root V p ∧ slots_fit slots
  | CreateProperty name v _ p => named text name ∧ live_or_root V p ∧ bytes_fit v
  | SetBool i _ | GetMetric _ i | FreeProperty i => is_Some (V !! i)
  | SetMetric m i v | AddMetric m i v | SubtractMetric m i v => is_Some (V !! i) ∧ metric_ok m v
  | SetSlot _ i j _ | AddSlot _ i j _ | SubtractSlot _ i j _ => is_Some (V !! i) ∧ 0 <= j
  | ClearArray i start => is_Some (V !! i) ∧ 0 <= start ∧
      ∀ e en f vs, V !! i = Some e → e_value e = A_Array en f vs → start <= len vs
  | SetProperty i v => is_Some (V !! i) ∧ bytes_fit v
  | FreeValue i => ∃ e, V !! i = Some e ∧ ∀ f v, e_value e ≠ A_Buffer f v
  | Reparent i p => live_or_root V i ∧ node_or_root V p
  | BeginTransaction => True
  | EndTransaction => 0 < n
  end.

(** The state represents the tree, with [n] open transactions; its header is locked while
    there are any. *)
Definition represents (n : Z) (s : InnerState) V : Prop :=
  transaction_count s = n ∧ 0 <= n ∧
  ∃ g, Z.even g = (n =? 0) ∧ stored text g V (heap s) (string_reference_ids s).

(** The heap is sound, and its header still locks it. *)
Definition sound (n : Z) (s : InnerState) : Prop :=
  transaction_count s = n ∧ 0 <= n ∧
  ∃ g T, Z.even g = (n =? 0) ∧ owns (heap s) T ∧ T !! 0 = Some (0, O_Header g).

(** ** Locking *)

Lemma header_wp (op : st Mapping FormatError unit) s g T (Q : unit → InnerState → Prop) R :
  owns (heap s) T → T !! 0 = Some (0, O_Header g) →
  updates op 0 0 (O_Header g) tt (O_Header (next_generation g)) →
  (∀ h, owns h (<[0 := (0, O_Header (next_generation g))]> T) → Q tt (set_heap h s)) →
  wp (on_blk op) s Q R.
Proof using. intros HO Hg Hop HQ. by eapply (own_update HO). Qed.

Lemma stored_generation ids T X V g h : wf text ids T X V zero zero → T !! 0 = Some (0, O_Header g) →
  owns h (<[0 := (0, O_Header (next_generation g))]> T) → stored text (next_generation g) V h ids.
Proof using.
  intros Hw Hg HO. eexists _, X. split_and!; [exact HO|by eapply wf_set_generation|by rewrite lookup_insert_eq].
Qed.

(** What an operation does to the store that represents [V]: when it returns [a] it
    represents a tree with [Q a]; it fails only if [E], and leaves [V], or, if [brk], at
    least the header. *)
Definition meets {A} (op : st InnerState Error A) V (Q : A → tree → Prop) (E : Prop) (brk : bool) : Prop :=
  ∀ s g T X, owns (heap s) T → wf text (string_reference_ids s) T X V zero zero → T !! 0 = Some (0, O_Header g) →
    wp op s
      (λ a s1, ∃ h ids V', s1 = with_store h ids s ∧ Q a V' ∧ stored text g V' h ids)
      (λ _ s1, ∃ h ids, s1 = with_store h ids s ∧ E ∧
         if brk then ∃ T', owns h T' ∧ T' !! 0 = Some (0, O_Header g) else stored text g V h ids).

Lemma locked_wp {A} (op : st InnerState Error A) n s V (Q : A → tree → Prop) (E : Prop) (brk : bool) :
  represents n s V → meets op V Q E brk →
  wp (locked op) s (λ a s', ∃ V', Q a V' ∧ represents n s' V')
    (λ _ s', E ∧ if brk then sound n s' else represents n s' V).
Proof using.
  intros (<- & Htc & g & Hev & T & X & HO & Hw & Hg) Hop. unfold locked.
  (* the operation and the end of the lock, from the state with the lock taken *)
  assert (∀ h0 g0 T0, owns h0 T0 → wf text (string_reference_ids s) T0 X V zero zero → T0 !! 0 = Some (0, O_Header g0) →
    Z.even g0 = false →
    wp (r ← attempt op; _ ← drop_guard; match r with inl a => mret a | inr e => throw e end) (set_heap h0 s)
      (λ a s', ∃ V', Q a V' ∧ represents (transaction_count s) s' V')
      (λ _ s', E ∧ if brk then sound (transaction_count s) s' else represents (transaction_count s) s' V)) as Hrest.
  { intros h0 g0 T0 HO0 Hw0 Hg0 Hodd. apply wp_bind, wp_attempt.
    assert (∀ s1 T1 (P : unit → InnerState → Prop) R, transaction_count s1 = transaction_count s →
      owns (heap s1) T1 → T1 !! 0 = Some (0, O_Header g0) →
      (∀ h g1 T2, Z.even g1 = (transaction_count s =? 0) → owns h T2 → T2 = <[0 := (0, O_Header g1)]> T1 →
         P tt (set_heap h s1)) → wp drop_guard s1 P R) as Hdrop.
    { intros s1 T1 P R Ht1 HO1 Hg1 HP. unfold drop_guard. apply wp_bind. unfold get, wp at 1. rewrite Ht1.
      destruct (transaction_count s =? 0) eqn:Etc.
      - apply wp_bind, wp_attempt. eapply (header_wp _ s1); [exact HO1|exact Hg1|by apply unlock_updates|].
        intros h HOh. apply wp_ret. eapply HP; [|exact HOh|done]. by rewrite next_generation_even, Hodd.
      - apply wp_ret. rewrite <- (set_heap_id s1). eapply (HP _ g0 T1); [done|done|by rewrite insert_id]. }
    eapply wp_mono; [by apply (Hop (set_heap h0 s) g0 T0 X)|..].
    - intros a s1 (h1 & ids1 & V' & -> & HQ & (T1 & X1 & HO1 & Hw1 & Hg1)). cbn beta. apply wp_bind.
      eapply (Hdrop (with_store h1 ids1 (set_heap h0 s)) T1); [done|exact HO1|exact Hg1|].
      intros h2 g2 T2 Hev2 HO2 ->. apply wp_ret. exists V'. split; [done|]. split_and!; [done|done|]. exists g2. split; [done|].
      eexists _, X1. split_and!; [exact HO2|by eapply wf_set_generation|by rewrite lookup_insert_eq].
    - intros err s1 (h1 & ids1 & -> & HE & Hb). cbn beta. apply wp_bind. destruct brk.
      + destruct Hb as (T1 & HO1 & Hg1). eapply (Hdrop (with_store h1 ids1 (set_heap h0 s)) T1); [done|exact HO1|exact Hg1|].
        intros h2 g2 T2 Hev2 HO2 ->. eapply wp_throw; [done|]. split; [done|]. split_and!; [done|done|]. exists g2. eexists.
        split_and!; [done|exact HO2|by rewrite lookup_insert_eq].
      + destruct Hb as (T1 & X1 & HO1 & Hw1 & Hg1).
        eapply (Hdrop (with_store h1 ids1 (set_heap h0 s)) T1); [done|exact HO1|exact Hg1|].
        intros h2 g2 T2 Hev2 HO2 ->. eapply wp_throw; [done|]. split; [done|]. split_and!; [done|done|]. exists g2. split; [done|].
        eexists _, X1. split_and!; [exact HO2|by eapply wf_set_generation|by rewrite lookup_insert_eq]. }
  apply wp_bind. unfold lock_guard. apply wp_bind. unfold get, wp at 1. destruct (transaction_count s =? 0) eqn:Etc.
  - eapply (header_wp _ s); [exact HO|exact Hg|by apply lock_updates|]. intros h HOh.
    eapply Hrest; [exact HOh|by eapply wf_set_generation|by rewrite lookup_insert_eq|]. by rewrite next_generation_even, Hev.
  - apply wp_ret. rewrite <- (set_heap_id s). by eapply Hrest.
Qed.
End writer.
