(* ===== verification/InspectCommands.v ===== *)
(** Every command of the interface does what [effect] says, or is [refused]. *)
From Stdlib Require Import ZArith Lia.
From stdpp Require Import base gmap strings list.
From S2P Require Import Prelude StateError InspectFormat InspectBlock InspectMemory.
From S2P Require Import InspectHeap InspectState InspectObjects InspectTyped InspectExtents.
From S2P Require Import InspectExtents InspectTree InspectOwned InspectValues InspectOperations.
From S2P Require Import InspectOperations InspectWriter.
Local Open Scope Z_scope.

Implicit Types (T : objects) (V : tree) (X : gmap Z (list Z)).

(** ** The accessors of the three types *)

Definition metric_body (m : metric) (v : Z) : body :=
  match m with M_Int => B_Int v | M_Uint => B_Uint v | M_Double => B_Double v end.
Definition metric_become (m : metric) : Z → Z → Z → Z → st Mapping FormatError unit :=
  match m with M_Int => become_int_value | M_Uint => become_uint_value | M_Double => become_double_value end.
Definition metric_set (m : metric) : Z → Z → st Mapping FormatError unit :=
  match m with M_Int => set_int_value | M_Uint => set_uint_value | M_Double => set_double_value end.
Definition metric_get (m : metric) : Mapping → Z → outcome FormatError Z :=
  match m with M_Int => int_value | M_Uint => uint_value | M_Double => double_value end.
Definition slot_get (m : metric) : Mapping → Z → Z → outcome FormatError Z :=
  match m with M_Int => array_get_int_slot | M_Uint => array_get_uint_slot | M_Double => array_get_double_slot end.

Lemma metric_become_updates m v i n p k : metric_ok m v → 0 <= n < 2 ^ 24 → 0 <= p < 2 ^ 24 →
  updates (metric_become m i v n p) i k O_Reserved tt (O_Value n p (metric_body m (metric_norm m v))).
Proof.
  intros Hv Hn Hp. destruct m; cbn in Hv |- *.
  - apply (become_int_updates Hn Hp). unfold i64_min, i64_max in Hv. lia.
  - by apply (become_uint_updates Hn Hp).
  - by apply (become_double_updates Hn Hp).
Qed.

Lemma metric_set_updates m w v i n p k : metric_ok m v →
  updates (metric_set m i v) i k (O_Value n p (metric_body m w)) tt (O_Value n p (metric_body m (metric_norm m v))).
Proof.
  intros Hv. destruct m; cbn in Hv |- *.
  - apply set_int_updates. unfold i64_min, i64_max in Hv. lia.
  - by apply set_uint_updates.
  - apply set_double_updates.
Qed.

Lemma metric_get_at m w (c : Mapping) i n p k : block_inside c i k → obj_at c i k (O_Value n p (metric_body m w)) →
  metric_get m c i = Ok w.
Proof. intros Hin Hat. destruct m; [eapply int_value_at|eapply uint_value_at|eapply double_value_at]; done. Qed.

(** Blocks of another type are refused. *)
Lemma metric_set_other m v (c : Mapping) i n p b k : block_inside c i k → obj_at c i k (O_Value n p b) →
  body_type b ≠ metric_type m → ∃ e, metric_set m i v c = (c, Err e).
Proof.
  intros Hin (_ & Ht & _) Hne. destruct (check_type_other Hin (body_type b) (metric_type m) Ht Hne) as [e He]. exists e.
  destruct m; cbn [metric_set metric_type] in *; [unfold set_int_value|unfold set_uint_value|unfold set_double_value];
    (erewrite st_bind_Err; [done|]); unfold reads; by rewrite He.
Qed.

Lemma metric_get_other m (c : Mapping) i n p b k : block_inside c i k → obj_at c i k (O_Value n p b) →
  body_type b ≠ metric_type m → ∃ e, metric_get m c i = Err e.
Proof.
  intros Hin (_ & Ht & _) Hne. destruct (check_type_other Hin (body_type b) (metric_type m) Ht Hne) as [e He]. exists e.
  destruct m; cbn in *; [unfold int_value|unfold uint_value|unfold double_value]; by rewrite He.
Qed.

Lemma metric_cases m n b a : body_means n b a →
  (∃ w, b = metric_body m w ∧ a = metric_aval m w) ∨ (body_type b ≠ metric_type m ∧ ∀ w, a ≠ metric_aval m w).
Proof. destruct m, b, a; cbn; try done; intros; subst; try (by left; eexists); right; split; done. Qed.

Lemma metric_add_ok `{!FloatNaN} m w v : metric_ok m (metric_add m w v).
Proof.
  destruct m; cbn; [| |done].
  - unfold safe_add_i64, checked_i64, i64_min, i64_max. case_match eqn:E; unfold default, id; lia.
  - unfold is_u64, safe_add_u64, checked_u64, u64_size. case_match eqn:E; unfold default, id; lia.
Qed.

Lemma metric_sub_ok `{!FloatNaN} m w v : metric_ok m (metric_sub m w v).
Proof.
  destruct m; cbn; [| |done].
  - unfold safe_sub_i64, checked_i64, i64_min, i64_max. case_match eqn:E; unfold default, id; lia.
  - unfold is_u64, safe_sub_u64, checked_u64, u64_size. case_match eqn:E; unfold default, id; lia.
Qed.

(** ** Slots *)

Lemma slot_cases m n b a : body_means n b a →
  (∃ f vs, b = B_Array (metric_type m) f vs ∧ a = A_Array (metric_type m) f vs) ∨
  ((∀ f vs, b ≠ B_Array (metric_type m) f vs) ∧ ∀ f vs, a ≠ A_Array (metric_type m) f vs).
Proof.
  destruct b, a; cbn; try done; intros H; try (by right; split; intros; discriminate).
  destruct H as (-> & -> & ->). destruct (decide (entry0 = metric_type m)) as [->|Hne].
  - left. by eexists _, _.
  - right. split; intros f vs [= E]; done.
Qed.

(** The check of the entry type of an array, or of another block. *)
Lemma check_entry_other m (c : Mapping) i n p b k : block_inside c i k → obj_at c i k (O_Value n p b) →
  (∀ f vs, b ≠ B_Array (metric_type m) f vs) → ∃ e, check_array_entry_type c i (metric_type m) = Err e.
Proof.
  intros Hin Hat Hb. unfold check_array_entry_type. destruct (decide (body_type b = ArrayValue)) as [Ha|Hne].
  - destruct b as [| | | | | |en f vs|]; try done. rewrite (array_entry_type_at Hin Hat). cbn.
    rewrite bool_decide_false by (intros ->; by destruct (Hb f vs)). by eexists.
  - destruct Hat as (_ & Ht & _). destruct (check_type_other Hin (body_type b) ArrayValue Ht Hne) as [e He].
    exists e. unfold array_entry_type. by rewrite He.
Qed.

Lemma check_index_out (c : Mapping) i n p en f vs k j : block_inside c i k → obj_at c i k (O_Value n p (B_Array en f vs)) →
  len vs <= j → ∃ e, check_array_index c i j = Err e.
Proof.
  intros Hin Hat Hj. unfold check_array_index. rewrite (array_slots_at Hin Hat). cbn.
  rewrite (proj2 (Z.leb_le _ _)) by done. by eexists.
Qed.

(** A slot that is not there. *)
Definition no_slot (m : metric) (j : Z) (b : body) : Prop :=
  (∀ f vs, b ≠ B_Array (metric_type m) f vs) ∨ ∃ f vs, b = B_Array (metric_type m) f vs ∧ len vs <= j.

Lemma slot_checks_fail m j (c : Mapping) i n p b k : block_inside c i k → obj_at c i k (O_Value n p b) → no_slot m j b →
  (∃ e, check_array_entry_type c i (metric_type m) = Err e) ∨
  (check_array_entry_type c i (metric_type m) = Ok tt ∧ ∃ e, check_array_index c i j = Err e).
Proof.
  intros Hin Hat [Hb|(f & vs & -> & Hj)]; [left; by eapply check_entry_other|right].
  split; [by eapply check_array_entry_type_at|by eapply check_index_out].
Qed.

Lemma slot_set_other m j v (c : Mapping) i n p b k : block_inside c i k → obj_at c i k (O_Value n p b) → no_slot m j b →
  ∃ e, array_set_slot (metric_type m) i j v c = (c, Err e).
Proof.
  intros Hin Hat Hn. destruct (slot_checks_fail m j c i n p b k Hin Hat Hn) as [[e He]|[Hok [e He]]]; exists e; unfold array_set_slot.
  - erewrite st_bind_Err; [done|]. unfold reads. by rewrite He.
  - erewrite st_bind_Ok by (unfold reads; by rewrite Hok). erewrite st_bind_Err; [done|]. unfold reads. by rewrite He.
Qed.

Lemma slot_get_other m j (c : Mapping) i n p b k : block_inside c i k → obj_at c i k (O_Value n p b) → no_slot m j b →
  ∃ e, slot_get m c i j = Err e.
Proof.
  intros Hin Hat Hn. assert (∃ e, array_get_slot (metric_type m) c i j = Err e) as [e He].
  { unfold array_get_slot. destruct (slot_checks_fail m j c i n p b k Hin Hat Hn) as [[e ->]|[-> [e ->]]]; by exists e. }
  exists e. destruct m; cbn in *; [unfold array_get_int_slot; by rewrite He|done|done].
Qed.

Lemma slot_get_at m j w (c : Mapping) i n p f vs k : block_inside c i k →
  obj_at c i k (O_Value n p (B_Array (metric_type m) f vs)) → vs !! j = Some w →
  slot_get m c i (Z.of_nat j) = Ok (slot_read m w).
Proof.
  intros Hin Hat Hj. pose proof (array_get_slot_at Hin Hat j w Hj) as Hg.
  destruct m; cbn in *; [unfold array_get_int_slot; by rewrite Hg|done|done].
Qed.

Section commands.
Context (text : Z → rstring) `{!HashMapOrder Z Z, !FloatNaN}.

(** ** Results *)

Lemma meets_returning op V (Q : option Z → tree → Prop) E brk :
  meets text op V (λ i, Q (Some i)) E brk → meets text (returning op) V Q E brk.
Proof using.
  intros Hop s g T X HO Hw Hg. apply wp_bind. eapply wp_mono; [by eapply Hop| |done].
  intros i s1 (h & ids & V' & -> & HQ & Hs). apply wp_ret. by exists h, ids, V'.
Qed.

Lemma meets_silent op V (Q : option Z → tree → Prop) E brk :
  meets text op V (λ _, Q None) E brk → meets text (silent op) V Q E brk.
Proof using.
  intros Hop s g T X HO Hw Hg. apply wp_bind. eapply wp_mono; [by eapply Hop| |done].
  intros [] s1 (h & ids & V' & -> & HQ & Hs). apply wp_ret. by exists h, ids, V'.
Qed.

(** ** Making *)

Lemma parent_block ids T X V g p : wf text ids T X V zero zero → T !! 0 = Some (0, O_Header g) → live_or_root V p →
  is_Some (T !! p).
Proof using.
  intros Hw Hg [->|[e He]]; [by eexists|].
  destruct (tree_entry _ _ _ (wf_tree _ _ _ _ _ _ _ Hw) p e He) as (k & n & b & Hb). by eexists.
Qed.

(** The operations that reserve a block and fill it in. *)
Lemma create_meets V name p size (become : Z → Z → st Mapping FormatError unit) (made : body → aval → Prop) :
  named text name → live_or_root V p → 0 < size →
  (∀ i n k, 0 <= n < 2 ^ 24 → 0 <= p < 2 ^ 24 → size <= 16 * 2 ^ k →
     updates_to (become i n) i k O_Reserved tt (λ o, ∃ b a, o = O_Value n p b ∧ made b a)) →
  (∀ b a, made b a → body_means 0 b a ∧ is_buffer b = false) →
  meets text ('(block, name_block) ← allocate_reserved_value name p size;
              _ ← on_blk (become block name_block); mret block) V
    (λ i, created V name p (λ a, ∃ b, made b a) (Some i)) True false.
Proof using.
  intros Hn Hp Hs Hop Hmade s g T X HO Hw Hg.
  eapply (create_wp text s g T X V name p size become made); [exact HO|exact Hw|exact Hg|done| |done|done|done|..].
  - by eapply parent_block.
  - intros i a b h ids Hba HVi Hi0 Hst. exists h, ids. eexists. split_and!; [done| |exact Hst]. exists i, a.
    split_and!; [done|done|done|by exists b|done].
  - intros e h ids Hst. by exists h, ids.
Qed.

Lemma created_imp V name p (P P' : aval → Prop) r V' : (∀ a, P a → P' a) → created V name p P r V' → created V name p P' r V'.
Proof using. intros HP (i & a & Hr & Hi & HV & Ha & HV'). exists i, a. split_and!; auto. Qed.

Lemma meets_imp {A} (op : st InnerState Error A) V (Q Q' : A → tree → Prop) (E E' : Prop) brk :
  (∀ a V', Q a V' → Q' a V') → (E → E') → meets text op V Q E brk → meets text op V Q' E' brk.
Proof using.
  intros HQ HE Hop s g T X HO Hw Hg. eapply wp_mono; [by eapply Hop|..].
  - intros a s1 (h & ids & V' & -> & Ha & Hs). exists h, ids, V'. split_and!; auto.
  - intros e s1 (h & ids & -> & He & Hs). exists h, ids. split_and!; auto.
Qed.

(** One value that is always the same. *)
Lemma create_one_meets V name p (become : Z → Z → st Mapping FormatError unit) b a :
  named text name → live_or_root V p →
  (∀ i n k, 0 <= n < 2 ^ 24 → 0 <= p < 2 ^ 24 → updates (become i n) i k O_Reserved tt (O_Value n p b)) →
  body_means 0 b a → is_buffer b = false →
  meets text ('(block, name_block) ← allocate_reserved_value name p MIN_ORDER_SIZE;
              _ ← on_blk (become block name_block); mret block) V
    (λ i, created V name p (λ x, x = a) (Some i)) True false.
Proof using.
  intros Hn Hp Hop Hm Hb. eapply meets_imp; [|done|eapply (create_meets V name p _ become (λ b' a', b' = b ∧ a' = a)); try done].
  - intros i V'. apply created_imp. by intros ? (? & _ & ->).
  - intros i n k Hn' Hp' _. intros m Hin Hok Hat. destruct (Hop i n k Hn' Hp' m Hin Hok Hat) as (m' & Hrun & Hc & Hat').
    exists m', (O_Value n p b). split_and!; [done..|]. by exists b, a.
  - by intros ? ? [-> ->].
Qed.

Lemma create_node_meets V name p : named text name → live_or_root V p →
  meets text (create_node name p) V (λ i, created V name p (λ a, a = A_Node) (Some i)) True false.
Proof using.
  intros Hn Hp. apply (create_one_meets V name p (λ i n, become_node i n p) (B_Node 0)); try done.
  intros i n k Hn' Hp'. by apply (become_node_updates Hn' Hp').
Qed.

Lemma create_bool_meets V name v p : named text name → live_or_root V p →
  meets text (create_bool name v p) V (λ i, created V name p (λ a, a = A_Bool v) (Some i)) True false.
Proof using.
  intros Hn Hp. apply (create_one_meets V name p (λ i n, become_bool_value i v n p) (B_Bool v)); try done.
  intros i n k Hn' Hp'. by apply (become_bool_updates Hn' Hp').
Qed.

Lemma create_metric_meets m V name v p : named text name → live_or_root V p → metric_ok m v →
  meets text (create_metric (metric_become m) name v p) V
    (λ i, created V name p (λ a, a = metric_aval m (metric_norm m v)) (Some i)) True false.
Proof using.
  intros Hn Hp Hv. apply (create_one_meets V name p (λ i n, metric_become m i v n p) (metric_body m (metric_norm m v))); try done.
  - intros i n k Hn' Hp'. by apply metric_become_updates.
  - by destruct m.
  - by destruct m.
Qed.

(** The size of the block does not overflow. *)
Lemma create_array_fits t name slots f p : slots_fit slots →
  create_array t name slots f p =
    if MAX_ORDER_SIZE <? slots * 8 + MIN_ORDER_SIZE then throw (BlockSizeTooBig (slots * 8 + MIN_ORDER_SIZE))
    else
      '(block, name_block) ← allocate_reserved_value name p (slots * 8 + MIN_ORDER_SIZE);
      _ ← on_blk (become_array_value block slots f t name_block p);
      mret block.
Proof using.
  intros [Hs Hfits]. unfold create_array. pose proof (eq_refl : MIN_ORDER_SIZE = 16).
  rewrite (checked_u64_fits (slots * 8)) by lia. cbn [arith]. lazymatch goal with |- (lift (Ok ?x) ≫= ?f) = ?m => change (f x = m) end.
  cbv beta. by rewrite (checked_u64_fits (slots * 8 + MIN_ORDER_SIZE)) by lia.
Qed.

Lemma create_array_meets m V name slots f p : named text name → live_or_root V p → slots_fit slots →
  meets text (create_array (metric_type m) name slots f p) V
    (λ i, created V name p (λ a, ∃ vs, len vs = slots ∧ Forall is_u64 vs ∧ a = A_Array (metric_type m) f vs) (Some i)) True false.
Proof using.
  intros Hn Hp Hs. rewrite create_array_fits by done. destruct Hs as [Hs _]. change MAX_ORDER_SIZE with 2048. change MIN_ORDER_SIZE with 16.
  destruct (Z.ltb_spec 2048 (slots * 8 + 16)) as [Hbig|Hfit].
  { intros s g T X HO Hw Hg. eapply wp_throw; [done|]. exists (heap s), (string_reference_ids s). rewrite with_store_id.
    split_and!; [done|done|]. by exists T, X. }
  eapply meets_imp; [|done|eapply (create_meets V name p _ (λ i n, become_array_value i slots f (metric_type m) n p)
    (λ b a, ∃ vs, len vs = slots ∧ Forall is_u64 vs ∧ b = B_Array (metric_type m) f vs ∧ a = A_Array (metric_type m) f vs)); try done].
  - intros i V'. apply created_imp. intros a (b & vs & ? & ? & _ & ?). by exists vs.
  - lia.
  - intros i n k Hn' Hp' Hk m' Hin Hok Hat.
    destruct (become_array_updates (i := i) (k := k) (f := f) (en := metric_type m) slots Hn' Hp' ltac:(by destruct m) ltac:(lia) ltac:(lia)
      m' Hin Hok Hat) as (m'' & o & Hrun & Hc & Hat' & (vs & Hlen & Hu & ->)).
    eexists m'', _. split_and!; [done|done|exact Hat'|]. eexists _, _. split; [done|]. by exists vs.
  - intros b a (vs & _ & _ & -> & ->). done.
Qed.

(** ** Buffers *)

Lemma stored_header g V h ids : stored text g V h ids → ∃ T, owns h T ∧ T !! 0 = Some (0, O_Header g).
Proof using. intros (T & X & HO & _ & Hg). by exists T. Qed.

Lemma create_property_meets V name v f p : named text name → live_or_root V p → bytes_fit v →
  meets text (create_property name v f p) V (λ i, created V name p (λ a, a = A_Buffer f v) (Some i)) True true.
Proof using.
  intros Hn Hp [Hu Hlen] s g T X HO Hw Hg. unfold create_property. apply wp_bind.
  eapply (allocate_reserved_value_wp text (name := name) s T X); [exact HO|exact Hw|done|by eapply parent_block|done|exact Hg| |].
  2:{ intros e h ids Hst. exists h, ids. split_and!; [done|done|]. by eapply stored_header. }
  intros [i n] h ids Hr. apply wp_bind.
  eapply (become_wp text (with_store h ids s) g V p _ name (i, n) _ (λ b a, b = B_Buffer f 0 0 ∧ a = A_Buffer f []));
    [exact Hr|apply Hn| | |].
  { intros k Hn' Hp' _ m Hin Hok Hat. destruct (become_property_updates (i := i) (k := k) Hn' Hp' f m Hin Hok Hat) as (m' & Hrun & Hc & Hat').
    exists m'. eexists. split_and!; [done|done|exact Hat'|by eexists _, _]. }
  { intros b a [-> ->]. split; [done|]. by intros ? ? ? [= <- <- <-]. }
  cbn [fst snd]. intros h1 T1 X1 k b a HO1 Hw1 Hg1 Hi1 [-> ->] HVi Hi0. apply wp_bind, wp_attempt.
  destruct (store_buffer _ _ _ _ _ (wf_store _ _ _ _ _ _ _ Hw1) _ _ _ _ _ _ _ Hi1) as (l & content & Hl & _).
  eapply (inner_set_property_value_wp text (set_heap h1 (with_store h ids s)) g T1 X1 _ i k n f 0 0
    (mkEntry (data name) p (A_Buffer f [])) l v); [exact HO1|exact Hw1|exact Hg1|exact Hi1|by rewrite lookup_insert_eq|exact Hl|done|done|..].
  - intros h2 ids2 Hst. apply wp_ret. exists h2, ids2. eexists. split_and!; [done| |exact Hst].
    cbn [e_name e_parent]. rewrite insert_insert_eq. exists i, (A_Buffer f v). by split_and!.
  - intros err h2 HO2. pose proof (wf_store _ _ _ _ _ _ _ Hw1) as Hst.
    destruct (store_name _ _ _ _ _ Hst _ _ _ _ _ Hi1) as [id Hid].
    destruct (store_id _ _ _ _ _ Hst _ _ Hid) as (c & ln & _ & (kn & nx & ib & rest & Hnb & _)).
    assert (i ≠ n) as Hin by (intros ->; congruence).
    assert (n ≠ 0) as Hn0 by (intros ->; congruence).
    apply wp_bind, wp_unwrap. eapply (own_free (s := set_heap h2 (with_store h ids s)) HO2).
    { apply (cut_stays text Hst Hl); [exact Hi1|done]. }
    intros h3 HO3. apply wp_bind, wp_unwrap. eapply (own_free (s := set_heap h3 (with_store h ids s)) HO3).
    { rewrite lookup_delete_ne by done. apply (cut_stays text Hst Hl); [exact Hnb|done]. }
    intros h4 HO4. eapply wp_throw; [done|]. exists h4, ids. split_and!; [done|done|]. eexists. split; [exact HO4|].
    rewrite !lookup_delete_ne by done. by apply (cut_stays text Hst Hl).
Qed.

(** The block of a value. *)
Lemma value_block ids T X V i : wf text ids T X V zero zero → is_Some (V !! i) →
  ∃ e k n b, V !! i = Some e ∧ T !! i = Some (k, O_Value n (e_parent e) b) ∧ body_means (children V i) b (e_value e).
Proof using.
  intros Hw [e He]. destruct (wf_value text _ _ _ _ _ _ _ _ Hw He) as (k & n & b & Hi & Hm).
  exists e, k, n, b. unfold zero in Hm. by rewrite Z.add_0_r in Hm.
Qed.

(** The state is as it was. *)
Lemma unchanged s g T X V : owns (heap s) T → wf text (string_reference_ids s) T X V zero zero → T !! 0 = Some (0, O_Header g) →
  stored text g V (heap s) (string_reference_ids s).
Proof using. intros HO Hw Hg. by exists T, X. Qed.

Lemma set_property_meets V i v : is_Some (V !! i) → bytes_fit v →
  meets text (set_property i v) V
    (λ _, revalued V i (λ a a', ∃ f c, a = A_Buffer f c ∧ a' = A_Buffer f v) None) True true.
Proof using.
  intros Hi [Hu Hlen] s g T X HO Hw Hg. destruct (value_block _ _ _ _ _ Hw Hi) as (e & k & n & b & He & Hb & Hm).
  unfold set_property. apply wp_bind. eapply (own_heap_block HO); [exact Hb|].
  destruct b as [| | | | |f t x| |] eqn:Eb.
  6:{ destruct (e_value e) as [| | | | |f' c|] eqn:Ev; try done. cbn in Hm. subst f'.
      destruct (store_buffer _ _ _ _ _ (wf_store _ _ _ _ _ _ _ Hw) _ _ _ _ _ _ _ Hb) as (l & content & Hl & _).
      eapply (inner_set_property_value_wp text s g T X V i k n f t x e l v); [done..| |].
      - intros h ids Hst. exists h, ids. eexists. split_and!; [done| |exact Hst]. split; [done|]. exists e. eexists.
        split_and!; [done| |done]. rewrite Ev. by exists f, c.
      - intros err h HO'. exists h, (string_reference_ids s). split_and!; [done|done|]. eexists. split; [exact HO'|].
        by apply (cut_stays text (wf_store _ _ _ _ _ _ _ Hw) Hl). }
  all: unfold inner_set_property_value; apply wp_bind; eapply (own_refused HO); [exact Hb| |].
  all: try (intros err; exists (heap s), (string_reference_ids s); rewrite with_store_id; split_and!; [done|done|]; by exists T).
  all: intros m Hin (_ & Ht & _); unfold block_reads, reads, property_extent_index;
    destruct (check_type_other Hin _ BufferValue Ht) as [err ->]; [done|by eexists].
Qed.

(** ** Changing values in place *)

Lemma stored_value s g T X V i k n b b' e a h :
  wf text (string_reference_ids s) T X V zero zero → T !! 0 = Some (0, O_Header g) → V !! i = Some e →
  T !! i = Some (k, O_Value n (e_parent e) b) → is_node b = false → is_buffer b = false → is_buffer b' = false →
  body_means (children V i) b' a → owns h (<[i := (k, O_Value n (e_parent e) b')]> T) →
  stored text g (<[i := mkEntry (e_name e) (e_parent e) a]> V) h (string_reference_ids s).
Proof using.
  intros Hw Hg He Hi Hn Hb Hb' Hm HO. assert (i ≠ 0) by (intros ->; congruence). eexists _, X.
  split_and!; [exact HO| |by rewrite lookup_insert_ne]. apply (wf_set_value text Hw Hi He); try done.
  unfold zero. by rewrite Z.add_0_r.
Qed.

(** A reader, then a writer, of a value: the ways they can go. *)
Lemma revalue_meets V i (op : st InnerState Error unit) (F : aval → aval → Prop) (E : Prop) : is_Some (V !! i) →
  (∀ s T X e k n b, owns (heap s) T → wf text (string_reference_ids s) T X V zero zero → V !! i = Some e →
     T !! i = Some (k, O_Value n (e_parent e) b) → body_means (children V i) b (e_value e) →
     wp op s
       (λ _ s1, ∃ h b' a, s1 = set_heap h s ∧ owns h (<[i := (k, O_Value n (e_parent e) b')]> T) ∧ is_node b = false ∧
          is_buffer b = false ∧ is_buffer b' = false ∧ body_means (children V i) b' a ∧ F (e_value e) a)
       (λ _ s1, s1 = s ∧ E)) →
  meets text op V (λ _, revalued V i F None) E false.
Proof using.
  intros Hi Hop s g T X HO Hw Hg. destruct (value_block _ _ _ _ _ Hw Hi) as (e & k & n & b & He & Hb & Hm).
  eapply wp_mono; [by eapply Hop| |].
  - intros [] s1 (h & b' & a & -> & HO' & Hn & Hbuf & Hbuf' & Hm' & HF). exists h, (string_reference_ids s). eexists.
    split_and!; [done| |by eapply stored_value]. split; [done|]. by exists e, a.
  - intros err s1 [-> HE]. exists (heap s), (string_reference_ids s). rewrite with_store_id. split_and!; [done|done|]. by exists T, X.
Qed.

Lemma metric_body_flags m w : is_node (metric_body m w) = false ∧ is_buffer (metric_body m w) = false.
Proof using. by destruct m. Qed.

(** Set, add and subtract. *)
Lemma metric_meets m V i (f : Z → Z) (op : st InnerState Error unit) : is_Some (V !! i) →
  (∀ s T k n p w (Q : unit → InnerState → Prop) R, owns (heap s) T → T !! i = Some (k, O_Value n p (metric_body m w)) →
     (∀ h, owns h (<[i := (k, O_Value n p (metric_body m (metric_norm m (f w))))]> T) → Q tt (set_heap h s)) → wp op s Q R) →
  (∀ s T k n p b (Q : unit → InnerState → Prop) R, owns (heap s) T → T !! i = Some (k, O_Value n p b) →
     body_type b ≠ metric_type m → (∀ e, R e s) → wp op s Q R) →
  meets text op V
    (λ _, revalued V i (λ a a', ∃ w, a = metric_aval m w ∧ a' = metric_aval m (metric_norm m (f w))) None)
    (∀ e v, V !! i = Some e → e_value e ≠ metric_aval m v) false.
Proof using.
  intros Hi Hok Hno. apply revalue_meets; [done|]. intros s T X e k n b HO Hw He Hb Hm.
  destruct (metric_cases m _ _ _ Hm) as [(w & -> & Ha)|[Hne Ha]].
  - eapply Hok; [exact HO|exact Hb|]. intros h HO'. exists h. eexists _, _. split_and!; [done|exact HO'|apply metric_body_flags..| |].
    + instantiate (1 := metric_aval m (metric_norm m (f w))). by destruct m.
    + by exists w.
  - eapply Hno; [exact HO|exact Hb|done|]. intros err. split; [done|]. intros e' v He'. rewrite He in He'. injection He' as <-. apply Ha.
Qed.

Lemma set_metric_meets m V i v : is_Some (V !! i) → metric_ok m v →
  meets text (set_metric (metric_set m) i v) V
    (λ _, revalued V i (λ a a', ∃ w, a = metric_aval m w ∧ a' = metric_aval m (metric_norm m v)) None)
    (∀ e v, V !! i = Some e → e_value e ≠ metric_aval m v) false.
Proof using.
  intros Hi Hv. apply (metric_meets m V i (λ _, v)); [done|..].
  - intros s T k n p w Q R HO Hb HQ. apply wp_bind. eapply (own_heap_block HO); [exact Hb|].
    eapply (own_update HO); [exact Hb|by apply metric_set_updates|exact HQ].
  - intros s T k n p b Q R HO Hb Hne HR. apply wp_bind. eapply (own_heap_block HO); [exact Hb|].
    eapply (own_refused HO); [exact Hb| |exact HR]. intros c Hin Hat. by eapply metric_set_other.
Qed.

(** The shape of [add_metric] and [subtract_metric]. *)
Lemma change_metric_meets m V i (f : Z → Z) : is_Some (V !! i) → (∀ w, metric_ok m (f w)) →
  meets text (block ← heap_block i; current_value ← blk (metric_get m) block; on_blk (metric_set m block (f current_value))) V
    (λ _, revalued V i (λ a a', ∃ w, a = metric_aval m w ∧ a' = metric_aval m (metric_norm m (f w))) None)
    (∀ e v, V !! i = Some e → e_value e ≠ metric_aval m v) false.
Proof using.
  intros Hi Hf. apply metric_meets; [done|..].
  - intros s T k n p w Q R HO Hb HQ. apply wp_bind. eapply (own_heap_block HO); [exact Hb|].
    apply wp_bind. eapply (own_blk HO); [exact Hb|intros c Hin Hat; by eapply metric_get_at|].
    eapply (own_update HO); [exact Hb|by apply metric_set_updates|exact HQ].
  - intros s T k n p b Q R HO Hb Hne HR. apply wp_bind. eapply (own_heap_block HO); [exact Hb|].
    apply wp_bind. eapply (own_refused HO); [exact Hb| |exact HR]. intros c Hin Hat.
    destruct (metric_get_other m c i n p b k Hin Hat Hne) as [e He]. exists e. unfold block_reads, reads. by rewrite He.
Qed.

Lemma get_metric_meets m V i : is_Some (V !! i) →
  meets text (get_metric (metric_get m) i) V
    (λ r V', V' = V ∧ ∃ e w, V !! i = Some e ∧ e_value e = metric_aval m w ∧ Some r = Some w)
    (∀ e v, V !! i = Some e → e_value e ≠ metric_aval m v) false.
Proof using.
  intros Hi s g T X HO Hw Hg. destruct (value_block _ _ _ _ _ Hw Hi) as (e & k & n & b & He & Hb & Hm).
  apply wp_bind. eapply (own_heap_block HO); [exact Hb|]. destruct (metric_cases m _ _ _ Hm) as [(w & -> & Ha)|[Hne Ha]].
  - eapply (own_blk HO); [exact Hb|intros c Hin Hat; by eapply metric_get_at|].
    exists (heap s), (string_reference_ids s), V. rewrite with_store_id. split_and!; [done|done|by exists e, w|by exists T, X].
  - eapply (own_refused HO); [exact Hb| |].
    + intros c Hin Hat. destruct (metric_get_other m c i n (e_parent e) b k Hin Hat Hne) as [err Herr]. exists err.
      unfold block_reads, reads. by rewrite Herr.
    + intros err. exists (heap s), (string_reference_ids s). rewrite with_store_id. split_and!; [done| |by exists T, X].
      intros e' v He'. rewrite He in He'. injection He' as <-. apply Ha.
Qed.

Lemma set_bool_meets V i v : is_Some (V !! i) →
  meets text (set_bool i v) V (λ _, revalued V i (λ a a', ∃ w, a = A_Bool w ∧ a' = A_Bool v) None)
    (∀ e v, V !! i = Some e → e_value e ≠ A_Bool v) false.
Proof using.
  intros Hi. apply revalue_meets; [done|]. intros s T X e k n b HO Hw He Hb Hm.
  apply wp_bind. eapply (own_heap_block HO); [exact Hb|]. destruct (decide (body_type b = BoolValue)) as [Ht|Hne].
  - destruct b as [| | | |w| | |]; try done. eapply (own_update HO); [exact Hb|apply set_bool_updates|].
    intros h HO'. exists h, (B_Bool v), (A_Bool v). split_and!; try done. exists w. by destruct (e_value e); simplify_eq/=.
  - eapply (own_refused HO); [exact Hb| |].
    + intros c Hin (_ & Ht & _). destruct (check_type_other Hin _ BoolValue Ht Hne) as [err Herr]. exists err.
      unfold set_bool_value. erewrite st_bind_Err; [done|]. unfold reads. by rewrite Herr.
    + intros err. split; [done|]. intros e' w He' Ha. rewrite He in He'. injection He' as <-. rewrite Ha in Hm. by destruct b.
Qed.

(** ** Arrays *)

Lemma array_set_at m i j v k n p f vs w : 0 <= j → vs !! Z.to_nat j = Some w →
  updates (array_set_slot (metric_type m) i j v) i k (O_Value n p (B_Array (metric_type m) f vs)) tt
    (O_Value n p (B_Array (metric_type m) f (<[Z.to_nat j := v mod 2 ^ 64]> vs))).
Proof using.
  intros Hj Hw. pose proof (lookup_lt_Some _ _ _ Hw). rewrite <- (Z2Nat.id j Hj) at 1. by apply array_set_slot_updates.
Qed.

Lemma array_clear_at i start k n p en f vs : 0 <= start <= len vs →
  updates (array_clear i start) i k (O_Value n p (B_Array en f vs)) tt
    (O_Value n p (B_Array en f (take (Z.to_nat start) vs ++ replicate (length vs - Z.to_nat start) 0))).
Proof using.
  unfold len. intros Hs. rewrite <- (Z2Nat.id start) at 1 by lia. apply array_clear_updates. lia.
Qed.

(** Set, add and subtract in a slot. *)
Lemma slot_meets m V i j (f : Z → Z) (op : st InnerState Error unit) : is_Some (V !! i) → 0 <= j →
  (∀ s T k n p fm vs w (Q : unit → InnerState → Prop) R, owns (heap s) T →
     T !! i = Some (k, O_Value n p (B_Array (metric_type m) fm vs)) → vs !! Z.to_nat j = Some w →
     (∀ h, owns h (<[i := (k, O_Value n p (B_Array (metric_type m) fm (<[Z.to_nat j := f w mod 2 ^ 64]> vs)))]> T) →
        Q tt (set_heap h s)) → wp op s Q R) →
  (∀ s T k n p b (Q : unit → InnerState → Prop) R, owns (heap s) T → T !! i = Some (k, O_Value n p b) →
     no_slot m j b → (∀ e, R e s) → wp op s Q R) →
  meets text op V (λ _, revalued V i (slot_changed m j f) None)
    (∀ e f vs, V !! i = Some e → e_value e = A_Array (metric_type m) f vs → len vs <= j) false.
Proof using.
  intros Hi Hj Hok Hno. apply revalue_meets; [done|]. intros s T X e k n b HO Hw He Hb Hm.
  assert (no_slot m j b → (∀ f vs, e_value e = A_Array (metric_type m) f vs → len vs <= j) → wp op s
    (λ _ s1, ∃ h b' a, s1 = set_heap h s ∧ owns h (<[i := (k, O_Value n (e_parent e) b')]> T) ∧ is_node b = false ∧
       is_buffer b = false ∧ is_buffer b' = false ∧ body_means (children V i) b' a ∧ slot_changed m j f (e_value e) a)
    (λ _ s1, s1 = s ∧ ∀ e f vs, V !! i = Some e → e_value e = A_Array (metric_type m) f vs → len vs <= j)) as Hfail.
  { intros Hns Hle. eapply Hno; [exact HO|exact Hb|done|]. intros err. split; [done|].
    intros e' f' vs He'. rewrite He in He'. injection He' as <-. apply Hle. }
  destruct (slot_cases m _ _ _ Hm) as [(fm & vs & -> & Ha)|[Hne Ha]].
  - destruct (vs !! Z.to_nat j) as [w|] eqn:Hw'.
    + eapply Hok; [exact HO|exact Hb|exact Hw'|]. intros h HO'. exists h. eexists _, _. split_and!; [done|exact HO'|done..| |].
      * instantiate (1 := A_Array (metric_type m) fm (<[Z.to_nat j := f w mod 2 ^ 64]> vs)). done.
      * exists fm, vs, w. by rewrite Ha.
    + apply lookup_ge_None in Hw'. assert (len vs <= j) by (unfold len; lia). apply Hfail.
      * right. by exists fm, vs.
      * intros f' vs' E. rewrite Ha in E. by injection E as <- <-.
  - apply Hfail; [by left|]. intros f' vs' E. by destruct (Ha f' vs').
Qed.

Lemma set_slot_meets m V i j v : is_Some (V !! i) → 0 <= j →
  meets text (set_array_slot (array_set_slot (metric_type m)) i j v) V (λ _, revalued V i (slot_changed m j (λ _, v)) None)
    (∀ e f vs, V !! i = Some e → e_value e = A_Array (metric_type m) f vs → len vs <= j) false.
Proof using.
  intros Hi Hj. apply slot_meets; [done|done|..].
  - intros s T k n p fm vs w Q R HO Hb Hw HQ. apply wp_bind. eapply (own_heap_block HO); [exact Hb|].
    eapply (own_update HO); [exact Hb|by eapply array_set_at|exact HQ].
  - intros s T k n p b Q R HO Hb Hns HR. apply wp_bind. eapply (own_heap_block HO); [exact Hb|].
    eapply (own_refused HO); [exact Hb| |exact HR]. intros c Hin Hat. by eapply slot_set_other.
Qed.

Lemma change_slot_meets m V i j (f : Z → Z) : is_Some (V !! i) → 0 <= j →
  meets text (block ← heap_block i; previous_value ← blk (λ c i, slot_get m c i j) block;
              on_blk (array_set_slot (metric_type m) block j (f previous_value))) V
    (λ _, revalued V i (slot_changed m j (λ w, f (slot_read m w))) None)
    (∀ e f vs, V !! i = Some e → e_value e = A_Array (metric_type m) f vs → len vs <= j) false.
Proof using.
  intros Hi Hj. apply slot_meets; [done|done|..].
  - intros s T k n p fm vs w Q R HO Hb Hw HQ. apply wp_bind. eapply (own_heap_block HO); [exact Hb|].
    apply wp_bind. eapply (own_blk HO); [exact Hb| |].
    { intros c Hin Hat. cbn beta. rewrite <- (Z2Nat.id j Hj). by eapply slot_get_at. }
    eapply (own_update HO); [exact Hb|by eapply array_set_at|exact HQ].
  - intros s T k n p b Q R HO Hb Hns HR. apply wp_bind. eapply (own_heap_block HO); [exact Hb|].
    apply wp_bind. eapply (own_refused HO); [exact Hb| |exact HR]. intros c Hin Hat.
    destruct (slot_get_other m j c i n p b k Hin Hat Hns) as [e He]. exists e. unfold block_reads, reads. by rewrite He.
Qed.

Lemma clear_array_meets V i start : is_Some (V !! i) → 0 <= start →
  (∀ e en f vs, V !! i = Some e → e_value e = A_Array en f vs → start <= len vs) →
  meets text (clear_array i start) V
    (λ _, revalued V i (λ a a', ∃ en f vs, a = A_Array en f vs ∧
       a' = A_Array en f (take (Z.to_nat start) vs ++ replicate (length vs - Z.to_nat start) 0)) None)
    (∀ e en f vs, V !! i = Some e → e_value e ≠ A_Array en f vs) false.
Proof using.
  intros Hi Hs Hle. apply revalue_meets; [done|]. intros s T X e k n b HO Hw He Hb Hm.
  apply wp_bind. eapply (own_heap_block HO); [exact Hb|]. destruct (decide (body_type b = ArrayValue)) as [Ht|Hne].
  - destruct b as [| | | | | |en f vs|]; try done. destruct (e_value e) as [| | | | | |en' f' vs'] eqn:Ev; try done.
    destruct Hm as (<- & <- & <-). specialize (Hle e en f vs He Ev).
    eapply (own_update HO); [exact Hb|by apply array_clear_at|].
    intros h HO'. exists h. eexists _, _. split_and!; [done|exact HO'|done..| |].
    + instantiate (1 := A_Array en f (take (Z.to_nat start) vs ++ replicate (length vs - Z.to_nat start) 0)). done.
    + by exists en, f, vs.
  - eapply (own_refused HO); [exact Hb| |].
    + intros c Hin (_ & Ht & _). destruct (check_type_other Hin _ ArrayValue Ht Hne) as [err Herr]. exists err.
      unfold array_clear. erewrite st_bind_Err; [done|]. unfold block_reads, reads, array_slots. by rewrite Herr.
    + intros err. split; [done|]. intros e' en f vs He' Ha. rewrite He in He'. injection He' as <-. rewrite Ha in Hm. by destruct b.
Qed.

(** ** Deleting and moving *)

Lemma free_value_meets V i e : V !! i = Some e → (∀ f v, e_value e ≠ A_Buffer f v) →
  meets text (free_value i) V (λ _ V', None = @None Z ∧ V' = delete i V) False false.
Proof using.
  intros He Hnb s g T X HO Hw Hg. destruct (value_block _ _ _ _ i Hw ltac:(by eexists)) as (e' & k & n & b & He' & Hb & Hm).
  rewrite He in He'. injection He' as <-. unfold free_value. apply wp_bind. eapply (own_heap_block HO); [exact Hb|].
  apply wp_unwrap. eapply (delete_wp text HO Hw Hg Hb He).
  - destruct b; try done. destruct (e_value e) eqn:Ev; try done. by destruct (Hnb format0 content).
  - intros h ids Hst. exists h, ids, (delete i V). by split_and!.
Qed.

Lemma free_property_meets V i : is_Some (V !! i) →
  meets text (free_property i) V
    (λ _ V', None = @None Z ∧ ∃ e f v, V !! i = Some e ∧ e_value e = A_Buffer f v ∧ V' = delete i V)
    (∀ e f v, V !! i = Some e → e_value e ≠ A_Buffer f v) false.
Proof using.
  intros Hi s g T X HO Hw Hg. destruct (value_block _ _ _ _ _ Hw Hi) as (e & k & n & b & He & Hb & Hm).
  destruct (decide (body_type b = BufferValue)) as [Ht|Hne].
  - destruct b as [| | | | |f t x| |]; try done. eapply (free_property_wp text HO Hw Hg Hb He); [done|].
    intros h ids Hst. exists h, ids, (delete i V). split_and!; [done|done| |done].
    destruct (e_value e) as [| | | | |f' v|] eqn:Ev; try done. by exists e, f', v.
  - unfold free_property. apply wp_bind. eapply (own_heap_block HO); [exact Hb|].
    apply wp_bind. eapply (own_refused HO); [exact Hb| |].
    + intros c Hin (_ & Ht & _). destruct (check_type_other Hin _ BufferValue Ht Hne) as [err Herr]. exists err.
      unfold block_reads, reads, property_extent_index. by rewrite Herr.
    + intros err. exists (heap s), (string_reference_ids s). rewrite with_store_id. split_and!; [done| |by exists T, X].
      intros e' f v He' Ha. rewrite He in He'. injection He' as <-. rewrite Ha in Hm. by destruct b.
Qed.

Lemma reparent_meets V i p : live_or_root V i → node_or_root V p →
  meets text (reparent i p) V
    (λ _ V', None = @None Z ∧ hangs V i p ∧ ∃ e, V !! i = Some e ∧ V' = <[i := mkEntry (e_name e) p (e_value e)]> V)
    (i = 0 ∨ ~ hangs V i p) false.
Proof using.
  intros Hi Hp s g T X HO Hw Hg.
  assert (∀ E : Prop, E → ∃ h ids, s = with_store h ids s ∧ E ∧ stored text g V h ids) as Hsame.
  { intros E HE. exists (heap s), (string_reference_ids s). rewrite with_store_id. split_and!; [done|done|]. by exists T, X. }
  destruct Hi as [->|Hi]; [eapply wp_throw; [done|apply Hsame; by left]|].
  destruct (value_block _ _ _ _ _ Hw Hi) as (e & k & n & b & He & Hb & Hm).
  eapply (reparent_wp text s g T X V i k n b e p); [exact HO|exact Hw|exact Hg|exact Hb|exact He|exact Hp|..].
  - intros h ids Hh Hst. exists h, ids. eexists. split_and!; [done|done|done|by exists e|exact Hst].
  - intros err Hn. apply Hsame. by right.
Qed.

(** ** Transactions *)

Lemma check_locked_at (c : Mapping) g b k : block_inside c 0 k → obj_at c 0 k (O_Header g) → negb (Z.even g) = b →
  check_locked c 0 b = Ok tt.
Proof using.
  intros Hin (_ & _ & _ & _ & Hgen) Hb. unfold check_locked. rewrite read_payload_inside by (by eapply block_inside_inside).
  cbn. by rewrite Hgen, land_1_even, Hb, Bool.eqb_reflx.
Qed.

Lemma check_locked_wp s T g b (Q : unit → InnerState → Prop) R : owns (heap s) T → T !! 0 = Some (0, O_Header g) →
  negb (Z.even g) = b → Q tt s →
  wp (unwrap (on_blk (reads (λ m, check_locked m HEADER_INDEX b))) : st InnerState Error unit) s Q R.
Proof using.
  intros HO Hg Hb HQ. apply wp_unwrap. eapply (own_blk HO (λ m i, check_locked m i b)); [exact Hg| |exact HQ].
  intros m Hin Hat. by eapply check_locked_at.
Qed.

Lemma begin_transaction_wp n s V : represents text n s V →
  wp begin_transaction s (λ _ s', represents text (n + 1) s' V) (λ _ _, False).
Proof using.
  intros (<- & Htc & g & Hev & T & X & HO & Hw & Hg). unfold begin_transaction. apply wp_bind. unfold get, wp at 1. apply wp_bind.
  assert (∀ h g', stored text g' V h (string_reference_ids s) → Z.even g' = false →
    wp (modify (set_transaction_count (transaction_count s + 1)) : st InnerState Error unit) (set_heap h s)
      (λ _ s', represents text (transaction_count s + 1) s' V) (λ _ _, False)) as Hend.
  { intros h g' Hst Hodd. unfold modify, wp. split_and!; [done|lia|]. exists g'.
    rewrite (proj2 (Z.eqb_neq _ _)) by lia. by split. }
  destruct (transaction_count s =? 0) eqn:Etc.
  - apply wp_bind. eapply check_locked_wp; [exact HO|exact Hg|by rewrite Hev|]. apply wp_unwrap.
    eapply header_wp; [exact HO|exact Hg|by apply lock_updates|]. intros h HO'. eapply Hend; [by eapply stored_generation|].
    by rewrite next_generation_even, Hev.
  - apply wp_ret. rewrite <- (set_heap_id s). eapply Hend; [by exists T, X|done].
Qed.

Lemma end_transaction_wp n s V : represents text n s V → 0 < n →
  wp end_transaction s (λ _ s', represents text (n - 1) s' V) (λ _ _, False).
Proof using.
  intros (<- & Htc & g & Hev & T & X & HO & Hw & Hg) Hpos. unfold end_transaction. apply wp_bind. unfold get, wp at 1.
  rewrite (proj2 (Z.ltb_ge _ _)) by lia. rewrite (proj2 (Z.eqb_neq _ _)) in Hev by lia.
  apply wp_bind. unfold modify, wp at 1. destruct (Z.eqb_spec (transaction_count s - 1) 0) as [Hz|Hz].
  - set (s1 := set_transaction_count _ s).
    apply wp_bind. eapply (check_locked_wp s1); [exact HO|exact Hg|by rewrite Hev|]. apply wp_unwrap.
    eapply (header_wp _ s1); [exact HO|exact Hg|by apply unlock_updates|]. intros h HO'. split_and!; [done|lia|].
    exists (next_generation g). split; [|by eapply stored_generation]. by rewrite next_generation_even, Hev, Hz.
  - apply wp_ret. split_and!; [done|lia|]. exists g. split; [|by exists T, X]. by rewrite (proj2 (Z.eqb_neq _ _)).
Qed.

(** ** All commands *)

Lemma exec_wp n s V c : represents text n s V → allowed text n V c →
  wp (exec c) s (λ r s', ∃ V', effect V c r V' ∧ represents text (depth c n) s' V')
    (λ _ s', refused V c ∧ if writes_buffer c then sound n s' else represents text n s' V).
Proof using.
  intros Hr Ha. destruct c; cbn [allowed effect refused exec depth] in *; try (destruct_and?).
  - eapply locked_wp; [done|]. apply meets_returning. by apply create_node_meets.
  - eapply locked_wp; [done|]. apply meets_returning. by apply create_bool_meets.
  - destruct m; (eapply locked_wp; [done|]; apply meets_returning).
    + by apply (create_metric_meets M_Int).
    + by apply (create_metric_meets M_Uint).
    + by apply (create_metric_meets M_Double).
  - destruct m; (eapply locked_wp; [done|]; apply meets_returning).
    + by apply (create_array_meets M_Int).
    + by apply (create_array_meets M_Uint).
    + by apply (create_array_meets M_Double).
  - eapply locked_wp; [done|]. apply meets_returning. by apply create_property_meets.
  - eapply locked_wp; [done|]. apply meets_silent. by apply set_bool_meets.
  - destruct m; (eapply locked_wp; [done|]; apply meets_silent).
    + by apply (set_metric_meets M_Int).
    + by apply (set_metric_meets M_Uint).
    + by apply (set_metric_meets M_Double).
  - destruct m; (eapply locked_wp; [done|]; apply meets_silent).
    + by apply (change_metric_meets M_Int V index (λ w, metric_add M_Int w value)); [|intros w; apply metric_add_ok].
    + by apply (change_metric_meets M_Uint V index (λ w, metric_add M_Uint w value)); [|intros w; apply metric_add_ok].
    + by apply (change_metric_meets M_Double V index (λ w, metric_add M_Double w value)).
  - destruct m; (eapply locked_wp; [done|]; apply meets_silent).
    + by apply (change_metric_meets M_Int V index (λ w, metric_sub M_Int w value)); [|intros w; apply metric_sub_ok].
    + by apply (change_metric_meets M_Uint V index (λ w, metric_sub M_Uint w value)); [|intros w; apply metric_sub_ok].
    + by apply (change_metric_meets M_Double V index (λ w, metric_sub M_Double w value)).
  - destruct m; (eapply locked_wp; [done|]; apply meets_returning).
    + by apply (get_metric_meets M_Int).
    + by apply (get_metric_meets M_Uint).
    + by apply (get_metric_meets M_Double).
  - destruct m; (eapply locked_wp; [done|]; apply meets_silent).
    + by apply (set_slot_meets M_Int).
    + by apply (set_slot_meets M_Uint).
    + by apply (set_slot_meets M_Double).
  - destruct m; (eapply locked_wp; [done|]; apply meets_silent).
    + by apply (change_slot_meets M_Int V index slot (λ w, metric_add M_Int w value)).
    + by apply (change_slot_meets M_Uint V index slot (λ w, metric_add M_Uint w value)).
    + by apply (change_slot_meets M_Double V index slot (λ w, metric_add M_Double w value)).
  - destruct m; (eapply locked_wp; [done|]; apply meets_silent).
    + by apply (change_slot_meets M_Int V index slot (λ w, metric_sub M_Int w value)).
    + by apply (change_slot_meets M_Uint V index slot (λ w, metric_sub M_Uint w value)).
    + by apply (change_slot_meets M_Double V index slot (λ w, metric_sub M_Double w value)).
  - eapply locked_wp; [done|]. apply meets_silent. by apply clear_array_meets.
  - eapply locked_wp; [done|]. apply meets_silent. by apply set_property_meets.
  - destruct Ha as (e & He & Hnb). eapply locked_wp; [done|]. apply meets_silent. by eapply free_value_meets.
  - eapply locked_wp; [done|]. apply meets_silent. by apply free_property_meets.
  - eapply locked_wp; [done|]. apply meets_silent. by apply reparent_meets.
  - apply wp_bind. eapply wp_mono; [by apply begin_transaction_wp| |done]. intros [] s' Hs. apply wp_ret. by exists V.
  - apply wp_bind. eapply wp_mono; [by apply end_transaction_wp| |done]. intros [] s' Hs. apply wp_ret. by exists V.
Qed.
End commands.
