(* ===== verification/InspectClient.v ===== *)
(** Programs that use a writer, and the tree they see. *)
From Stdlib Require Import ZArith Lia.
From stdpp Require Import base gmap strings list.
From S2P Require Import Prelude StateError InspectFormat InspectBlock InspectMemory.
From S2P Require Import InspectBuddy InspectHeap InspectHeapCorrect InspectHeapSafety.
From S2P Require Import InspectState InspectObjects InspectTyped InspectExtents.
From S2P Require Import InspectTree InspectOwned InspectValues InspectOperations.
From S2P Require Import InspectWriter InspectCommands.
Local Open Scope Z_scope.

Implicit Types (T : objects) (V : tree) (X : gmap Z (list Z)).

(** ** The first block *)

(** A new heap offers its first block. *)
Lemma new_heads m h : 4096 <= mapping_len m <= 2 ^ 28 → new m = (h, Ok tt) → free_head_per_order h = replicate 8 0.
Proof.
  intros Hm Hnew. assert (wp (λ _ : Heap, new m) h (λ _ h, free_head_per_order h = replicate 8 0) (λ _ _, True)) as Hwp;
    [|unfold wp in Hwp; by rewrite Hnew in Hwp].
  change (2 ^ 28) with 268435456 in Hm. unfold new.
  change (wp (grow_heap PAGE_SIZE_BYTES) (mkHeap m 0 (replicate 8 0) 0 0 0) (λ _ h, free_head_per_order h = replicate 8 0) (λ _ _, True)).
  change PAGE_SIZE_BYTES with 4096. apply wp_bind. unfold get, wp at 1. cbn [mapping]. rewrite (proj2 (Z.ltb_ge _ _)) by lia.
  apply wp_bind. eapply wp_lift; [by apply (index_for_offset_run 0)|].
  apply wp_bind. eapply wp_free_head; [done|done|]. rewrite Z.min_r by lia.
  apply wp_bind. eapply wp_lift; [by apply (index_for_offset_run 256)|].
  change (S (Z.to_nat 256)) with (S (S 255)).
  apply wp_bind, (grow_loop_wp _ 0 0 255); [lia|done|unfold inside, u64_size; cbn; lia..|].
  apply wp_bind, wp_set_free_head; [done|done|]. unfold modify, wp. done.
Qed.

Lemma first_block_wp h : heap_inv h ∅ → free_head_per_order h = replicate 8 0 →
  wp (allocate_block 16) h (λ i h', i = 0 ∧ allocated ∅ h h' 0 0) (λ _ _, False).
Proof.
  intros (N & B & L & HC & HB & Hco & HN & H256 & HU) Hh. apply wp_bind. eapply wp_lift; [done|].
  change (NUM_ORDERS <=? 0) with false. cbn iota. change NUM_ORDERS with 8.
  apply wp_bind. destruct (find_order_run HC HB HN (seqZ 0 (8 - 0))) as [Hf|[Hf Hno]].
  { intros k' Hk'%elem_of_seqZ. lia. }
  - destruct Hf as (k' & i & Hf & Hk'%elem_of_seqZ & Hhd & Hi).
    eapply wp_reads; [exact Hf|]. apply wp_bind, wp_ret.
    assert (i = 0) as ->. { rewrite Hh in Hhd. by apply (lookup_replicate 8 0) in Hhd as [-> _]. }
    apply (take_block_wp h N B L 0 k' k' 0); try done; [lia..|]. rewrite HU. done.
  - exfalso. destruct (tile_cover _ _ HB 0) as (i & k & f & Hi & _); [lia|].
    destruct (tile_ok _ _ HB _ _ _ Hi) as (Hk & _). destruct f; [apply (Hno k i); [apply elem_of_seqZ; lia|done]|].
    apply used_lookup in Hi. by rewrite HU, lookup_empty in Hi.
Qed.

Section clients.
Context (text : Z → rstring) `{!HashMapOrder Z Z, !FloatNaN}.

(** The header alone is the empty tree. *)
Lemma wf_start : wf text ∅ {[0 := (0, O_Header 0)]} ∅ ∅ zero zero.
Proof using.
  assert (∀ (j : Z) x, ({[0 := (0, O_Header 0)]} : objects) !! j = Some x → j = 0 ∧ x = (0, O_Header 0)) as Hl
    by (by intros j x [<- <-]%lookup_singleton_Some).
  split; split; try (by intros; simplify_map_eq); try (intros; edestruct Hl as [? ?]; [eassumption|]; simplify_eq; done).
  - exists 0. by rewrite lookup_singleton_eq.
  - intros i k Hi. by destruct (Hl _ _ Hi).
  - intros i. by apply rooted_out.
Qed.

Lemma State_create_wp m h id : 4096 <= mapping_len m <= 2 ^ 28 → bytes_ok m → new m = (h, Ok tt) →
  wp (State_create id) h (λ s _, represents text 0 s ∅) (λ _ _, False).
Proof using.
  intros Hm Hok Hnew. destruct (heap_inv_new m Hm) as (h' & Hnew' & Hinv & _). rewrite Hnew in Hnew'. injection Hnew' as <-.
  assert (heap_bytes_ok h) as Hb.
  { pose proof (keeps_grow_heap PAGE_SIZE_BYTES (mkHeap m 0 (replicate (Z.to_nat NUM_ORDERS) 0) 0 0 0) Hok) as Hk.
    change (grow_heap PAGE_SIZE_BYTES (mkHeap m 0 (replicate (Z.to_nat NUM_ORDERS) 0) 0 0 0)) with (new m) in Hk.
    by rewrite Hnew in Hk. }
  unfold State_create. apply wp_bind.
  pose proof (first_block_wp h Hinv (new_heads m h Hm Hnew)) as Hal. pose proof (keeps_allocate_block 16 h Hb) as Hb1.
  unfold wp in Hal. unfold wp at 1. destruct (allocate_block 16 h) as [h1 [i|e|]]; [|done|done]. destruct Hal as [-> Hal].
  assert (typed h ∅) as HT by (split; [by rewrite fmap_empty|done|done]).
  assert (typed h1 {[0 := (0, O_Reserved)]}) as HT1.
  { rewrite <- insert_empty. eapply (typed_allocated HT); [|exact Hb1]. by rewrite fmap_empty. }
  apply wp_bind, wp_zoom.
  destruct (become_header_updates (mapping h1)) as (m2 & Hrun & Hc & Hat);
    [eapply (typed_inside HT1); by rewrite lookup_singleton_eq|apply HT1|apply HT1; by rewrite lookup_singleton_eq|].
  eapply wp_run; [exact Hrun|]. apply wp_bind. unfold get, wp at 1. apply wp_ret. split_and!; [done|done|].
  exists 0. split; [done|]. exists {[0 := (0, O_Header 0)]}, ∅. split_and!; [|apply wf_start|by rewrite lookup_singleton_eq].
  exists {[0 := (0, O_Header 0)]}. split; [|apply part_of_refl].
  rewrite <- (insert_singleton_eq 0 (0, O_Header 0) (0, O_Reserved)).
  eapply (typed_changed HT1); [by rewrite lookup_singleton_eq|exact Hc|exact Hat].
Qed.

(** ** A new inspector *)

(** [Inspector::new_root]: a VMO of a whole number of pages, mapped by the kernel
    ([allocate]), with a heap and a header. *)
Definition new_root (allocate : Z → Z + Mapping) (next_id max_size : Z) : outcome Error InnerState :=
  let size := Z.max MINIMUM_VMO_SIZE_BYTES max_size in
  size ← (if size mod MINIMUM_VMO_SIZE_BYTES =? 0 then Ok size
          else let size := (1 + size / MINIMUM_VMO_SIZE_BYTES) * MINIMUM_VMO_SIZE_BYTES in
               if size <? u64_size then Ok size else Panic);
  match allocate size with
  | inl status => Err (AllocateVmo status)
  | inr mapping =>
    let '(heap, r) := new mapping in
    _ ← map_err CreateHeap r;
    map_err CreateState (State_create next_id heap).2
  end.

Lemma new_root_represents allocate next_id max_size : max_size <= 2 ^ 28 →
  (∀ size m, allocate size = inr m → mapping_len m = size ∧ bytes_ok m) →
  (∃ s, new_root allocate next_id max_size = Ok s ∧ represents text 0 s ∅) ∨
  (∃ size status, allocate size = inl status ∧ new_root allocate next_id max_size = Err (AllocateVmo status)).
Proof using.
  intros Hmax Ha. unfold new_root. change MINIMUM_VMO_SIZE_BYTES with 4096. change (2 ^ 28) with 268435456 in Hmax.
  set (size0 := Z.max 4096 max_size). set (r := if size0 mod 4096 =? 0 then _ else _).
  assert (∃ size, r = Ok size ∧ 4096 <= size <= 268435456) as (size & -> & Hsize).
  { unfold r. pose proof (Z.div_mod size0 4096 ltac:(lia)) as Hd. pose proof (Z.mod_pos_bound size0 4096 ltac:(lia)).
    destruct (Z.eqb_spec (size0 mod 4096) 0); [exists size0; split; [done|lia]|].
    assert (size0 / 4096 < 65536) by (apply Z.div_lt_upper_bound; lia). cbn zeta.
    rewrite (proj2 (Z.ltb_lt _ _)) by (unfold u64_size; lia). eexists. split; [done|]. lia. }
  cbn [mbind outcome_bind]. destruct (allocate size) as [status|m] eqn:Eal; [right; by exists size, status|left].
  destruct (Ha _ _ Eal) as [Hlen Hok]. destruct (heap_inv_new m) as (h & Hnew & _); [change (2 ^ 28) with 268435456; lia|].
  rewrite Hnew. cbn [map_err mbind outcome_bind].
  pose proof (State_create_wp m h next_id ltac:(change (2 ^ 28) with 268435456; lia) Hok Hnew) as Hwp. unfold wp in Hwp.
  destruct (State_create next_id h) as [h' [s|e|]]; [|done|done]. by exists s.
Qed.

(** ** Programs *)

(** A program that gives commands and goes on with their results, or after a failure. *)
Inductive client :=
| Done
| Do (c : command) (next : option Z → client) (otherwise : client).

(** It gives up when the bytes of a buffer could not be written. *)
Fixpoint run (p : client) : st InnerState Error unit :=
  match p with
  | Done => mret tt
  | Do c next otherwise =>
    r ← attempt (exec c);
    match r with
    | inl r => run (next r)
    | inr e => if writes_buffer c then throw e else run otherwise
    end
  end.

(** The same program on a tree: it always gives commands that are allowed. *)
Fixpoint proper (p : client) (n : Z) V : Prop :=
  match p with
  | Done => True
  | Do c next otherwise =>
    allowed text n V c ∧
    (∀ r V', effect V c r V' → proper (next r) (depth c n) V') ∧
    (writes_buffer c = false → refused V c → proper otherwise n V)
  end.

(** The trees in which it can end. *)
Inductive plays : client → Z → tree → Z → tree → Prop :=
| plays_done n V : plays Done n V n V
| plays_next c next otherwise n V r V1 n' V' :
    effect V c r V1 → plays (next r) (depth c n) V1 n' V' → plays (Do c next otherwise) n V n' V'
| plays_otherwise c next otherwise n V n' V' :
    refused V c → plays otherwise n V n' V' → plays (Do c next otherwise) n V n' V'.

Lemma run_wp p n s V : represents text n s V → proper p n V →
  wp (run p) s (λ _ s', ∃ n' V', plays p n V n' V' ∧ represents text n' s' V') (λ _ s', ∃ n', sound n' s').
Proof using.
  revert n s V. induction p as [|c next IHn otherwise IHo]; intros n s V Hr Hp; cbn [run].
  { apply wp_ret. exists n, V. split; [constructor|done]. }
  destruct Hp as (Ha & Hn & Ho). apply wp_bind, wp_attempt. eapply wp_mono; [by apply exec_wp|..].
  - intros r s' (V' & He & Hr'). eapply wp_mono; [apply (IHn r _ _ _ Hr'), Hn, He| |done].
    intros _ s'' (n' & V'' & Hpl & Hr''). exists n', V''. split; [by eapply plays_next|done].
  - intros e s' [Href Hs]. destruct (writes_buffer c); [eapply wp_throw; [done|by exists n]|].
    eapply wp_mono; [apply (IHo _ _ _ Hs), Ho; done| |done].
    intros _ s'' (n' & V'' & Hpl & Hr''). exists n', V''. split; [by eapply plays_otherwise|done].
Qed.
End clients.
