(* ===== verification/InspectReadTree.v ===== *)
(** What a reader makes of each block of a store: names, buffers, numbers and arrays come
    back as they were written.  Then the tree it builds from the blocks it has scanned: the
    hierarchy that a store's tree shows ([shows]), and the proof that [reduce] builds it.  A
    node reaches its parent once all of its child nodes have reached it, and nodes below
    deleted nodes are dropped. *)
From Stdlib Require Import ZArith Lia.
From stdpp Require Import base gmap strings list sorting.
From S2P Require Import Prelude StateError InspectFormat InspectBlock InspectHeap InspectState InspectReader.
From S2P Require Import InspectMemory InspectObjects InspectTyped InspectExtents InspectTree InspectValues.
From S2P Require Import InspectOperations.
Local Open Scope Z_scope.

Implicit Types (T : objects) (V : tree) (X : gmap Z (list Z)).

(** ** What a tree shows *)

(** An entry of an array of [i64] is stored in its 64 bits. *)
Definition array_property `{!FloatNaN} (name : rstring) (en : BlockType) (f : ArrayFormat) (vs : list Z) : outcome ReaderError Property :=
  match en with
  | IntValue => content ← ArrayContent_new arith_i64 (as_i64 <$> vs) f; Ok (Property_IntArray name content)
  | UintValue => content ← ArrayContent_new arith_u64 vs f; Ok (Property_UintArray name content)
  | DoubleValue => content ← ArrayContent_new arith_f64 vs f; Ok (Property_DoubleArray name content)
  | t => Err (UnexpectedArrayEntryFormat t)
  end.

(** The property an entry is to a reader; a node is none.  Histograms can be malformed. *)
Definition property_of `{!FloatNaN} (e : entry) : outcome ReaderError (option Property) :=
  match e_value e with
  | A_Node => Ok None
  | A_Int v => Ok (Some (Property_Int (e_name e) v))
  | A_Uint v => Ok (Some (Property_Uint (e_name e) v))
  | A_Double v => Ok (Some (Property_Double (e_name e) v))
  | A_Bool v => Ok (Some (Property_Bool (e_name e) v))
  | A_Buffer PF_String c => Ok (Some (Property_String (e_name e) (from_utf8_lossy c)))
  | A_Buffer PF_Bytes c => Ok (Some (Property_Bytes (e_name e) c))
  | A_Array en f vs => p ← array_property (e_name e) en f vs; Ok (Some p)
  end.

Lemma property_of_node `{!FloatNaN} e : property_of e = Ok None → e_value e = A_Node.
Proof.
  unfold property_of. destruct (e_value e) as [| | | | |[]|]; try done. by intros (q & _ & ?)%bind_Ok_iff.
Qed.

(** ** Reading *)

(** The buffer holds the objects. *)
Definition seen (b : BackingBuffer) T : Prop :=
  ∀ i k o, T !! i = Some (k, o) → block_inside b i k ∧ obj_at b i k o.

Section reading.
Context `{!FloatNaN} {b : BackingBuffer} {T : objects}.
Context (Hs : seen b T).

Lemma get_block_seen i k o : T !! i = Some (k, o) → snapshot_get_block b i = Some i.
Proof using Hs.
  intros Hi. destruct (Hs i k o Hi) as [(H0 & Hk & Hle & _) _]. assert (0 < 2 ^ k) by (apply Z.pow_pos_nonneg; lia).
  unfold snapshot_get_block, offset_for_index. change MIN_ORDER_SIZE with 16. change (container_len b) with (buffer_len b) in Hle.
  by rewrite (proj2 (Z.ltb_lt _ _)) by lia.
Qed.

Lemma take_app_len {A} (l l' : list A) : take (Z.to_nat (len l)) (l ++ l') = l.
Proof using. unfold len. by rewrite Nat2Z.id, take_app_length. Qed.

Lemma read_extents_loop_seen fuel x l c buffer : extents T x l c → (length l < fuel)%nat →
  read_extents_loop b fuel (len (buffer ++ c)) x buffer = Ok (buffer ++ c).
Proof using Hs.
  revert x l c buffer. induction fuel as [|fuel IH]; intros x l c buffer Hx Hf; [lia|]. cbn [read_extents_loop].
  destruct Hx as [|x k next d l rest Hx0 Hx Hd Hfull Hrest]; [by rewrite app_nil_r|].
  rewrite (proj2 (Z.eqb_neq _ _)) by done. cbn [orb]. rewrite app_assoc.
  assert (0 < len d) as Hd0 by (destruct d; [done|]; rewrite len_cons; pose proof (len_nonneg d); lia).
  pose proof (len_nonneg rest) as Hr0. rewrite (proj2 (Z.leb_gt _ _)) by (rewrite !len_app; lia).
  rewrite (get_block_seen _ _ _ Hx). cbn [ok_or mbind outcome_bind]. destruct (Hs _ _ _ Hx) as [Hin Hat].
  destruct (extent_contents_at Hin _ _ Hat) as (pad & Hc & Hlen). rewrite Hc. cbn [fmt_err map_err mbind outcome_bind].
  rewrite (next_extent_at Hin _ next Hat) by (left; by eexists). cbn [fmt_err map_err mbind outcome_bind].
  assert (take (Z.to_nat (Z.min (len ((buffer ++ d) ++ rest) - len buffer) (len (d ++ pad)))) (d ++ pad) = d) as Htake.
  { destruct Hfull as [->|Hfull].
    - rewrite app_nil_r, len_app. replace (Z.min (len buffer + len d - len buffer) (len (d ++ pad))) with (len d); [apply take_app_len|].
      rewrite len_app. pose proof (len_nonneg pad). lia.
    - rewrite len_app in Hlen. assert (len pad = 0) as Hp by lia. destruct pad; [|rewrite len_cons in Hp; pose proof (len_nonneg pad); lia].
      rewrite app_nil_r, !len_app. rewrite Z.min_r by lia. unfold len. by rewrite Nat2Z.id, take_ge. }
  rewrite Htake. apply (IH next l rest (buffer ++ d)); [done|cbn in Hf; lia].
Qed.

Lemma extents_length x l c : extents T x l c → (length l <= length c)%nat.
Proof using. induction 1 as [|x k next d l rest _ _ Hd _ _ IH]; [done|]. rewrite length_app. destruct d; [done|]. cbn. lia. Qed.

Lemma extents_unique x l c l' c' : extents T x l c → extents T x l' c' → c = c'.
Proof using.
  intros Hx. revert l' c'. induction Hx as [|x k next d l rest Hx0 Hx Hd Hf _ IH]; intros l' c' Hx'.
  - by destruct (extents_0 _ _ _ Hx') as [_ ->].
  - destruct Hx' as [|x k' next' d' l' rest' _ Hx' _ _ Hrest']; [done|]. rewrite Hx in Hx'. injection Hx' as <- <- <-.
    by rewrite (IH _ _ Hrest').
Qed.

Lemma read_extents_seen x l c : extents T x l c → read_extents b (len c) x = Ok c.
Proof using Hs.
  intros Hx. unfold read_extents. pose proof (extents_length _ _ _ Hx) as Hl.
  rewrite (read_extents_loop_seen _ x l c []) by (done || unfold len; lia). cbn [mbind outcome_bind app].
  rewrite Z.sub_diag. by rewrite app_nil_r.
Qed.

Lemma parse_name_seen n c l d : string_block T n c l d → utf8_valid d = true → parse_name b n = Ok d.
Proof using Hs.
  intros (k & nx & ib & rest & Hn & Hx & Hd & Hl & _) Hu. destruct (Hs _ _ _ Hn) as [Hin Hat].
  unfold parse_name, get_name. rewrite (get_block_seen _ _ _ Hn), (block_type_at Hin _ Hat). cbn [obj_type infallible mbind outcome_bind].
  unfold load_string_reference. rewrite (inline_string_reference_at Hin _ _ _ _ Hat Hl). cbn [ok_opt mbind outcome_bind].
  rewrite (total_length_at Hin _ (len d) Hat) by (right; by repeat eexists). cbn [ok_opt mbind outcome_bind].
  rewrite Hd, len_app. pose proof (len_nonneg rest) as Hr. destruct (Z.eqb_spec (len ib) (len ib + len rest)) as [He|He].
  - assert (rest = []) as -> by (destruct rest; [done|]; rewrite len_cons in He; pose proof (len_nonneg rest); lia).
    rewrite app_nil_r in Hd |- *. unfold string_from_utf8. rewrite <- Hd, Hu. done.
  - rewrite (next_extent_at Hin _ nx Hat) by (right; by repeat eexists). cbn [ok_opt mbind outcome_bind].
    rewrite (proj2 (Z.ltb_ge _ _)) by lia. replace (len ib + len rest - len ib) with (len rest) by lia.
    rewrite (read_extents_seen _ _ _ Hx). cbn [ok_opt mbind outcome_bind]. unfold string_from_utf8. rewrite <- Hd, Hu. done.
Qed.

(** ** Slots *)

Lemma slot_values_seen {A} (get : Z → outcome FormatError A) (f : Z → A) vs :
  (∀ j v, vs !! j = Some v → get (Z.of_nat j) = Ok (f v)) → slot_values get (len vs) = Ok (f <$> vs).
Proof using.
  intros Hg. unfold slot_values. apply try_map_Ok, Forall2_fmap_r, Forall2_same_length_lookup_2.
  - rewrite length_seqZ. unfold len. lia.
  - intros j x v Hx Hv. apply lookup_seqZ in Hx as [-> _]. rewrite Z.add_0_l. by rewrite (Hg j v Hv).
Qed.

Lemma numeric_array_seen A get (f : Z → Z) i k n p en fm vs : T !! i = Some (k, O_Value n p (B_Array en fm vs)) →
  (∀ j v, vs !! j = Some v → get b i (Z.of_nat j) = Ok (f v)) →
  numeric_array b A get i (len vs) = ArrayContent_new A (f <$> vs) fm.
Proof using Hs.
  intros Hi Hg. destruct (Hs _ _ _ Hi) as [Hin Hat]. unfold numeric_array. rewrite (slot_values_seen (get b i) f vs Hg).
  cbn [mbind outcome_bind]. by rewrite (array_format_at Hin Hat).
Qed.
End reading.

(** ** The blocks of values *)

Section values.
Context (text : Z → rstring) `{!FloatNaN}.
Context (Htext : ∀ id, utf8_valid (text id) = true).
Context {b : BackingBuffer} {ids : gmap Z Z} {T : objects} {X : gmap Z (list Z)} {V : tree}.
Context (Hs : seen b T) (Hw : wf text ids T X V zero zero).
Context {i k n : Z} {bd : body} {e : entry}.
Context (Hi : T !! i = Some (k, O_Value n (e_parent e) bd)) (He : V !! i = Some e).

Lemma entry_name : parse_name b n = Ok (e_name e).
Proof using Hs Hw Hi He Htext.
  pose proof (wf_store _ _ _ _ _ _ _ Hw) as Hst. destruct (store_name _ _ _ _ _ Hst _ _ _ _ _ Hi) as [id Hid].
  rewrite <- (content_name _ _ _ _ _ (wf_content _ _ _ _ _ _ _ Hw) _ _ _ _ _ _ _ He Hi Hid).
  destruct (store_id _ _ _ _ _ Hst _ _ Hid) as (c & l & _ & Hb). by eapply (parse_name_seen Hs).
Qed.

Lemma entry_body : body_means (children V i) bd (e_value e).
Proof using Hw Hi He.
  destruct (wf_value text _ _ _ _ _ _ _ _ Hw He) as (k' & n' & b' & Hi' & Hm). rewrite Hi in Hi'. injection Hi' as <- <- <-.
  unfold zero in Hm. by rewrite Z.add_0_r in Hm.
Qed.

(** What the scan does with it. *)
Definition scan_entry (j : Z) (x : entry) (nodes : parsed_nodes) : parsed_nodes :=
  match property_of x with
  | Ok None => update_node (e_parent x) count_child (update_node j (initialize (e_name x) (e_parent x)) nodes)
  | Ok (Some p) => update_node (e_parent x) (on_hierarchy (push_property p)) nodes
  | _ => nodes
  end.

Lemma scan_node_seen nodes : e_value e = A_Node → scan_block b i nodes = Ok (scan_entry i e nodes).
Proof using Hs Hw Hi He Htext.
  intros Hv. pose proof entry_body as Hm. pose proof entry_name as Hn. rewrite Hv in Hm. destruct bd as [c| | | | | | |] eqn:Eb; try done.
  destruct (Hs _ _ _ Hi) as [Hin Hat]. unfold scan_block. rewrite (block_type_or_at Hin _ Hat). cbn [obj_type body_type fmt_err map_err mbind outcome_bind].
  assert (i ≠ 0) as Hi0.
  { intros E. destruct (tree_header _ _ _ (wf_tree _ _ _ _ _ _ _ Hw)) as [g Hg]. rewrite E in Hi. congruence. }
  rewrite (proj2 (Z.eqb_neq _ _)) by done. cbn [andb]. unfold parse_node.
  rewrite (name_index_at Hin _ _ _ Hat). cbn [fmt_err map_err mbind outcome_bind]. rewrite Hn. cbn [mbind outcome_bind].
  rewrite (parent_index_at Hin _ _ _ Hat). cbn [fmt_err map_err mbind outcome_bind].
  rewrite (proj2 (Z.eqb_neq _ _)); [cbn [negb]; unfold scan_entry, property_of; by rewrite Hv|].
  by eapply wf_parent_ne.
Qed.

(** The steps that the parsers of properties share. *)
Ltac start_parse Hin Hat Hn :=
  rewrite (name_index_at Hin _ _ _ Hat); cbn [fmt_err map_err mbind outcome_bind]; rewrite Hn;
  cbn [mbind outcome_bind]; rewrite (parent_index_at Hin _ _ _ Hat); cbn [fmt_err map_err mbind outcome_bind].

Lemma parse_numeric_seen p nodes : property_of e = Ok (Some p) → is_numeric_value (body_type bd) = true →
  parse_numeric_property b i nodes = Ok (update_node (e_parent e) (on_hierarchy (push_property p)) nodes).
Proof using Hs Hw Hi He Htext.
  intros Hp Ht. pose proof entry_body as Hm. pose proof entry_name as Hn. destruct (Hs _ _ _ Hi) as [Hin Hat].
  unfold parse_numeric_property. start_parse Hin Hat Hn. rewrite (block_type_at Hin _ Hat). cbn [obj_type infallible mbind outcome_bind].
  unfold property_of in Hp. destruct bd, (e_value e); try done; cbn in Hm; subst; injection Hp as <-; cbn [body_type].
  - by rewrite (int_value_at Hin _ _ _ Hat).
  - by rewrite (uint_value_at Hin _ _ _ Hat).
  - by rewrite (double_value_at Hin _ _ _ Hat).
Qed.

Lemma parse_bool_seen p nodes : property_of e = Ok (Some p) → body_type bd = BoolValue →
  parse_bool_property b i nodes = Ok (update_node (e_parent e) (on_hierarchy (push_property p)) nodes).
Proof using Hs Hw Hi He Htext.
  intros Hp Ht. pose proof entry_body as Hm. pose proof entry_name as Hn. destruct (Hs _ _ _ Hi) as [Hin Hat].
  unfold parse_bool_property. start_parse Hin Hat Hn. rewrite (block_type_at Hin _ Hat). cbn [obj_type infallible mbind outcome_bind].
  unfold property_of in Hp. destruct bd, (e_value e); try done; cbn in Hm; subst; injection Hp as <-; cbn [body_type].
  by rewrite (bool_value_at Hin _ _ _ Hat).
Qed.

Lemma parse_property_seen p nodes : property_of e = Ok (Some p) → body_type bd = BufferValue →
  parse_property b i nodes = Ok (update_node (e_parent e) (on_hierarchy (push_property p)) nodes).
Proof using Hs Hw Hi He Htext.
  intros Hp Ht. pose proof entry_name as Hn. destruct (Hs _ _ _ Hi) as [Hin Hat].
  unfold parse_property. start_parse Hin Hat Hn. destruct bd as [| | | | |f t x| |]; try done.
  pose proof (wf_store _ _ _ _ _ _ _ Hw) as Hst. pose proof (wf_content _ _ _ _ _ _ _ Hw) as Hco.
  destruct (store_buffer _ _ _ _ _ Hst _ _ _ _ _ _ _ Hi) as (l & content & HX & Hx & _ & ->).
  destruct (content_buffer _ _ _ _ _ Hco _ _ _ _ _ _ _ _ _ He Hi HX) as (content' & Hx' & Hv).
  pose proof (extents_unique _ _ _ _ _ Hx Hx') as <-.
  rewrite (total_length_at Hin _ (len content) Hat) by (left; by repeat eexists). cbn [fmt_err map_err mbind outcome_bind].
  rewrite (property_extent_index_at Hin _ _ _ _ _ Hat). cbn [fmt_err map_err mbind outcome_bind].
  rewrite (read_extents_seen Hs _ _ _ Hx). cbn [mbind outcome_bind].
  rewrite (property_format_at Hin _ _ _ _ _ Hat). cbn [fmt_err map_err mbind outcome_bind].
  unfold property_of in Hp. rewrite Hv in Hp. destruct f; by injection Hp as <-.
Qed.

Lemma array_capacity_seen en fm vs : bd = B_Array en fm vs →
  ∃ c, array_capacity k en = Some c ∧ len vs <= c.
Proof using Hs Hi.
  intros E. destruct (Hs _ _ _ Hi) as [Hin Hat]. rewrite E in Hat. unfold array_capacity. rewrite (array_element_size_at Hat).
  eexists. split; [done|]. destruct Hat as (_ & _ & _ & _ & _ & Hsl & _). destruct Hin as (_ & Hk & _).
  unfold order_to_size, HEADER_SIZE_BYTES, ARRAY_PAYLOAD_METADATA_SIZE_BYTES. change MIN_ORDER_SIZE with 16.
  rewrite Z.shiftl_mul_pow2 by lia. apply Z.div_le_lower_bound; lia.
Qed.

Lemma parse_array_seen en fm vs nodes : e_value e = A_Array en fm vs →
  parse_array_property b i nodes =
    (p ← array_property (e_name e) en fm vs; Ok (update_node (e_parent e) (on_hierarchy (push_property p)) nodes)).
Proof using Hs Hw Hi He Htext.
  intros Hv. pose proof entry_body as Hm. pose proof entry_name as Hn. destruct (Hs _ _ _ Hi) as [Hin Hat].
  unfold parse_array_property. start_parse Hin Hat Hn. pose proof array_capacity_seen as Hcap.
  rewrite Hv in Hm. pose proof Hi as Hi'. destruct bd as [| | | | | |en' fm' vs'|]; try done. destruct Hm as (-> & -> & ->).
  destruct (Hcap _ _ _ eq_refl) as (c & Hc & Hle).
  rewrite (array_slots_at Hin Hat), (order_at Hin _ Hat), (array_entry_type_at Hin Hat).
  cbn [fmt_err map_err infallible mbind outcome_bind]. rewrite Hc. cbn [mbind outcome_bind].
  rewrite (proj2 (Z.ltb_ge _ _)) by lia. pose proof (λ j v, array_get_slot_at (vs := vs) Hin Hat j v) as Hget.
  assert (is_numeric_value en = true) as Hen by apply Hat. unfold array_property. destruct en; try done.
  - erewrite (numeric_array_seen Hs arith_i64 array_get_int_slot as_i64) by
      (done || intros j v Hj; unfold array_get_int_slot; by rewrite (Hget _ _ Hj)). done.
  - erewrite (numeric_array_seen Hs arith_u64 array_get_uint_slot id), list_fmap_id by
      (done || intros j v Hj; unfold array_get_uint_slot; by rewrite (Hget _ _ Hj)). done.
  - erewrite (numeric_array_seen Hs arith_f64 array_get_double_slot id), list_fmap_id by
      (done || intros j v Hj; unfold array_get_double_slot; by rewrite (Hget _ _ Hj)). done.
Qed.

Lemma scan_value_seen nodes : scan_block b i nodes = (_ ← property_of e; Ok (scan_entry i e nodes)).
Proof using Hs Hw Hi He Htext.
  assert (i ≠ 0) as Hi0.
  { destruct (tree_header _ _ _ (wf_tree _ _ _ _ _ _ _ Hw)) as [g Hg]. intros E. pose proof Hi as Hi'. rewrite E in Hi'. congruence. }
  pose proof entry_body as Hm. destruct (Hs _ _ _ Hi) as [Hin Hat].
  assert (∀ p, property_of e = Ok (Some p) → body_type bd ≠ ArrayValue → scan_block b i nodes = Ok (scan_entry i e nodes)) as Hother.
  { intros p Hp Ha. unfold scan_entry. rewrite Hp. unfold scan_block. rewrite (block_type_or_at Hin _ Hat).
    cbn [obj_type fmt_err map_err mbind outcome_bind]. rewrite (proj2 (Z.eqb_neq _ _)) by done. cbn [andb].
    destruct (body_type bd) eqn:Et;
      try (by apply parse_numeric_seen; [|rewrite Et]); try (by apply parse_bool_seen); try (by apply parse_property_seen);
      unfold property_of in Hp; by destruct bd, (e_value e). }
  destruct (e_value e) as [|v|v|v|v|f v|en fm vs] eqn:Hv; try (unfold property_of at 1; rewrite Hv; cbn [mbind outcome_bind]).
  1: by apply scan_node_seen.
  1-5: try destruct f; eapply Hother; first [unfold property_of; rewrite Hv; reflexivity|by destruct bd].
  unfold scan_block, scan_entry, property_of. rewrite Hv, (block_type_or_at Hin _ Hat).
  cbn [obj_type fmt_err map_err mbind outcome_bind]. rewrite (proj2 (Z.eqb_neq _ _)) by done. cbn [andb].
  replace (body_type bd) with ArrayValue by (by destruct bd). rewrite (parse_array_seen en fm vs nodes Hv).
  by destruct (array_property _ _ _ _).
Qed.
End values.

(** Blocks that hold no value are passed over. *)
Lemma scan_other_seen `{!FloatNaN} b T i k o nodes : seen b T → T !! i = Some (k, o) → (∀ n p bd, o ≠ O_Value n p bd) →
  (i = 0 → ∃ g, o = O_Header g) → scan_block b i nodes = Ok nodes.
Proof.
  intros Hs Hi Ho Hh. destruct (Hs _ _ _ Hi) as [Hin Hat]. unfold scan_block. rewrite (block_type_or_at Hin _ Hat).
  cbn [fmt_err map_err mbind outcome_bind]. destruct (Z.eqb_spec i 0) as [E|E].
  - by destruct (Hh E) as [g ->].
  - cbn [andb]. destruct o; try done. by destruct (Ho name parent b0).
Qed.

Lemma scan_free_seen `{!FloatNaN} b i nodes : inside b i → typ b i = Some Free → i ≠ 0 → scan_block b i nodes = Ok nodes.
Proof.
  intros Hin Ht Hi. unfold scan_block, block_type_or. rewrite read_header_inside by done. cbn [mbind outcome_bind].
  unfold typ in Ht. rewrite Ht. cbn [fmt_err map_err mbind outcome_bind]. by rewrite (proj2 (Z.eqb_neq _ _)).
Qed.

(** ** The tree a reader builds *)

Implicit Types (es : list (Z * entry)).

(** ** The hierarchy of a tree *)

Definition is_node (e : entry) : bool := match e_value e with A_Node => true | _ => false end.

(** The values of a tree, in the order of their blocks. *)
Definition sorted_entries V : list (Z * entry) :=
  omap (λ j, pair j <$> V !! j) (merge_sort Z.le (elements (dom V))).

Definition property_in `{!FloatNaN} (i : Z) (x : Z * entry) : option Property :=
  if e_parent x.2 =? i then match property_of x.2 with Ok p => p | _ => None end else None.

Definition properties `{!FloatNaN} V (i : Z) : list Property := omap (property_in i) (sorted_entries V).

(** The nodes below [i]. *)
Definition kids V (i : Z) : gset Z := dom (filter (λ x : Z * entry, is_child i x.2 && is_node x.2 = true) V).

(** The name and the parent of the node [i]. *)
Definition own V (i : Z) : option (rstring * Z) :=
  match V !! i with
  | Some e => if is_node e then Some (e_name e, e_parent e) else None
  | None => if i =? 0 then Some (str "root", 0) else None
  end.

(** The node [i] and what is below it, children in any order. *)
Inductive shows `{!FloatNaN} V : Z → PartialNodeHierarchy → Prop :=
| shows_node i name p js hs :
    own V i = Some (name, p) → js ≡ₚ elements (kids V i) → Forall2 (shows V) js hs →
    shows V i (mkHierarchy name (properties V i) hs []).

Lemma elem_of_kids V i j : j ∈ kids V i ↔ ∃ e, V !! j = Some e ∧ e_parent e = i ∧ is_node e = true.
Proof.
  unfold kids. rewrite elem_of_dom. unfold is_Some. setoid_rewrite map_lookup_filter_Some. cbn. unfold is_child.
  setoid_rewrite andb_true_iff. by setoid_rewrite Z.eqb_eq.
Qed.

(** ** What the scan leaves *)

Section scanned.
Context `{!FloatNaN}.

Definition own_in es (i : Z) : option (rstring * Z) :=
  match last (omap (λ x : Z * entry, if (x.1 =? i) && is_node x.2 then Some (e_name x.2, e_parent x.2) else None) es) with
  | Some x => Some x
  | None => if i =? 0 then Some (str "root", 0) else None
  end.

Definition kid_count es (i : Z) : Z :=
  Z.of_nat (length (filter (λ x : Z * entry, is_child i x.2 && is_node x.2 = true) es)).

(** The node [i] of the scan of [es]. *)
Definition scanned (o : option (rstring * Z)) (ps : list Property) (n : Z) : ScannedNode :=
  mkScannedNode (mkHierarchy (from_option fst [] o) ps [] []) n (from_option snd 0 o) (bool_decide (is_Some o)).

Lemma update_node_lookup j f nodes i :
  default ScannedNode_new (update_node j f nodes !! i) =
  (if j =? i then f else id) (default ScannedNode_new (nodes !! i)).
Proof.
  unfold update_node, parsed_nodes in *. destruct (Z.eqb_spec j i) as [<-|]; [by rewrite lookup_insert_eq|by rewrite lookup_insert_ne].
Qed.

Lemma own_in_snoc es x i :
  own_in (es ++ [x]) i = if (x.1 =? i) && is_node x.2 then Some (e_name x.2, e_parent x.2) else own_in es i.
Proof.
  unfold own_in. rewrite omap_app. cbn. destruct (_ && _); [by rewrite last_snoc|by rewrite app_nil_r].
Qed.

Lemma kid_count_snoc es x i :
  kid_count (es ++ [x]) i = kid_count es i + one (is_child i x.2 && is_node x.2).
Proof.
  unfold kid_count. rewrite filter_app, length_app. rewrite filter_cons, filter_nil. unfold one.
  case_decide as E; [rewrite E|destruct (_ && _); [done|]]; cbn; lia.
Qed.

Lemma property_of_is_node e p : property_of e = Ok p → is_node e = bool_decide (p = None).
Proof.
  unfold property_of, is_node. destruct (e_value e) as [| | | | |[]|]; try (by intros [= <-]).
  by intros (q & _ & [= <-])%bind_Ok_iff.
Qed.

Lemma scan_entries_lookup es i : Forall (λ x, ∃ p, property_of x.2 = Ok p) es →
  default ScannedNode_new (foldl (λ nodes x, scan_entry x.1 x.2 nodes) ScanResult_new es !! i) =
  scanned (own_in es i) (omap (property_in i) es) (kid_count es i).
Proof.
  induction es as [|[j e] es IH] using rev_ind; intros Hes.
  - unfold ScanResult_new, own_in, parsed_nodes. cbn. destruct (Z.eqb_spec i 0) as [->|]; [done|]. by rewrite lookup_singleton_ne.
  - apply Forall_app in Hes as [Hes [p Hp]%Forall_singleton]. specialize (IH Hes). cbn in Hp.
    rewrite foldl_app. cbn [foldl fst snd]. set (nodes := foldl _ _ es) in *. clearbody nodes. rewrite own_in_snoc, omap_app, kid_count_snoc. cbn [fst snd].
    pose proof (property_of_is_node _ _ Hp) as Hn. unfold scan_entry. rewrite Hp, Hn. clear Hn.
    unfold property_in at 2, is_child. cbn [fst snd omap list_omap]. rewrite Hp. destruct p as [p|]; cbn [bool_decide].
    + rewrite update_node_lookup, IH, !andb_false_r. cbn. unfold scanned, on_hierarchy, push_property.
      destruct (e_parent e =? i); cbn; f_equal; by rewrite ?app_nil_r, ?Z.add_0_r.
    + rewrite !update_node_lookup, IH, !andb_true_r. unfold scanned, count_child, initialize, hierarchy_set_name.
      destruct (e_parent e =? i), (j =? i); cbn; f_equal; by rewrite ?app_nil_r, ?Z.add_0_r.
Qed.

Lemma exists_snoc {A} (P : A → Prop) l y : (∃ x, x ∈ l ++ [y] ∧ P x) ↔ (∃ x, x ∈ l ∧ P x) ∨ P y.
Proof.
  setoid_rewrite elem_of_app. setoid_rewrite list_elem_of_singleton. split.
  - intros (x & [Hx| ->] & HP); [left; by exists x|by right].
  - intros [(x & Hx & HP)|HP]; [exists x; by auto|exists y; by auto].
Qed.

Lemma scan_entries_known es i : Forall (λ x, ∃ p, property_of x.2 = Ok p) es →
  is_Some (foldl (λ nodes x, scan_entry x.1 x.2 nodes) ScanResult_new es !! i) ↔
  is_Some (own_in es i) ∨ ∃ x, x ∈ es ∧ e_parent x.2 = i.
Proof.
  induction es as [|[j e] es IH] using rev_ind; intros Hes.
  - unfold ScanResult_new, own_in, parsed_nodes. cbn. destruct (Z.eqb_spec i 0) as [->|].
    + rewrite lookup_singleton_eq. split; [left|]; by eexists.
    + rewrite lookup_singleton_ne by done. split; [by intros [??]|]. intros [[]|(x & []%elem_of_nil & _)]; done.
  - apply Forall_app in Hes as [Hes [p Hp]%Forall_singleton]. specialize (IH Hes). cbn in Hp.
    rewrite foldl_app. cbn [foldl fst snd]. set (nodes := foldl _ _ es) in *. clearbody nodes. rewrite own_in_snoc. cbn [fst snd].
    rewrite exists_snoc. cbn [fst snd].
    pose proof (property_of_is_node _ _ Hp) as Hn. unfold scan_entry. rewrite Hp, Hn. clear Hn. unfold update_node, parsed_nodes in *. destruct p as [p|].
    + rewrite bool_decide_false, andb_false_r, lookup_insert_is_Some, IH by done. destruct (decide (e_parent e = i)); tauto.
    + rewrite bool_decide_true, andb_true_r, !lookup_insert_is_Some, IH by done.
      destruct (Z.eqb_spec j i); [|destruct (decide (e_parent e = i)); tauto]. split; [left; by eexists|].
      intros _. destruct (decide (e_parent e = i)); by auto.
Qed.
End scanned.

(** ** The nodes of a tree *)

Section entries.
Context `{!FloatNaN} (V : tree).

Lemma elem_of_sorted_entries j e : (j, e) ∈ sorted_entries V ↔ V !! j = Some e.
Proof using.
  unfold sorted_entries. rewrite list_elem_of_omap. setoid_rewrite merge_sort_Permutation. setoid_rewrite elem_of_elements.
  setoid_rewrite elem_of_dom. split.
  - intros (x & _ & Hx). destruct (V !! x) as [f|] eqn:E; [|done]. cbn in Hx. by injection Hx as <- <-.
  - intros He. exists j. rewrite He. split; [by eexists|done].
Qed.

Lemma NoDup_omap_pair (l : list Z) : NoDup l → NoDup (omap (λ j, pair j <$> V !! j) l).*1.
Proof using.
  induction 1 as [|j l Hj _ IH]; [constructor|]. cbn. destruct (V !! j) as [e|]; [|done]. cbn. constructor; [|done].
  intros ((j' & e') & -> & (x & Hx & Hj')%list_elem_of_omap)%list_elem_of_fmap. destruct (V !! x); [|done]. cbn in Hj'.
  by injection Hj' as -> _.
Qed.

Lemma NoDup_sorted_entries : NoDup (sorted_entries V).*1.
Proof using. apply NoDup_omap_pair. rewrite merge_sort_Permutation. apply NoDup_elements. Qed.

Lemma kid_count_sorted i : kid_count (sorted_entries V) i = Z.of_nat (size (kids V i)).
Proof using.
  unfold kid_count, size, set_size. f_equal. cbn. rewrite <- (length_fmap fst). apply Permutation_length, NoDup_Permutation.
  - eapply sublist_NoDup; [apply NoDup_sorted_entries|]. apply fmap_sublist, sublist_filter.
  - apply NoDup_elements.
  - intros j. rewrite elem_of_elements, elem_of_kids, list_elem_of_fmap. setoid_rewrite list_elem_of_filter. split.
    + intros ([j' e] & -> & [Hc Hn]%andb_true_iff & He%elem_of_sorted_entries). exists e. cbn in *.
      split_and!; [done|by apply Z.eqb_eq|done].
    + intros (e & He & Hp & Hn). exists (j, e). split_and!; [done| |by apply elem_of_sorted_entries].
      cbn. unfold is_child. by rewrite (proj2 (Z.eqb_eq _ _) Hp), Hn.
Qed.

Lemma last_only {A} (l : list A) x : (∀ y, y ∈ l → y = x) → x ∈ l → last l = Some x.
Proof using.
  intros Hl Hx. destruct (last l) as [y|] eqn:E; [by rewrite (Hl y); [|apply last_Some_elem_of]|].
  apply last_None in E as ->. by apply elem_of_nil in Hx.
Qed.

Lemma own_in_sorted i : V !! 0 = None → own_in (sorted_entries V) i = own V i.
Proof using.
  intros H0.
  unfold own_in, own. set (l := omap _ _).
  assert (∀ y, y ∈ l ↔ ∃ e, V !! i = Some e ∧ is_node e = true ∧ y = (e_name e, e_parent e)) as Hl.
  { intros y. unfold l. rewrite list_elem_of_omap. split.
    - intros ([j e] & He%elem_of_sorted_entries & Hy). cbn in Hy. destruct (Z.eqb_spec j i) as [<-|]; [|done].
      cbn in Hy. destruct (is_node e) eqn:En; [|done]. injection Hy as <-. by exists e.
    - intros (e & He%elem_of_sorted_entries & Hn & ->). exists (i, e). split; [done|]. cbn. by rewrite Z.eqb_refl, Hn. }
  destruct (V !! i) as [e|] eqn:E; [destruct (is_node e) eqn:En|].
  - rewrite (last_only l (e_name e, e_parent e)); [done| |apply Hl; by exists e].
    intros y (e' & He' & _ & ->)%Hl. by injection He' as <-.
  - destruct (last l) as [y|] eqn:Ey; [apply last_Some_elem_of, Hl in Ey as (e' & He' & Hn & _); injection He' as <-; congruence|].
    destruct (Z.eqb_spec i 0) as [->|]; [congruence|done].
  - destruct (last l) as [y|] eqn:Ey; [apply last_Some_elem_of, Hl in Ey as (e' & He' & _); done|done].
Qed.
End entries.

(** ** From the scanned nodes to the hierarchy *)

(** ** The split *)

Definition ready (x : Z * ScannedNode) : bool := is_initialized x.2 && is_complete x.2.

Lemma split_nodes_root l c P U h : split_nodes l c P U = inl h → ∃ n, (0, n) ∈ l ∧ ready (0, n) = true ∧ h = partial_hierarchy n.
Proof.
  revert c P U. induction l as [|[i n] l IH]; intros c P U; [done|]. cbn [split_nodes].
  assert (∀ c P U, split_nodes l c P U = inl h → ∃ n', (0, n') ∈ (i, n) :: l ∧ ready (0, n') = true ∧ h = partial_hierarchy n') as IH'.
  { intros c' P' U' (n' & Hn' & ?)%IH. exists n'. split; [by apply elem_of_cons; right|done]. }
  destruct (is_initialized n) eqn:E1; cbn [negb]; [|apply IH']. destruct (is_complete n) eqn:E2; [|apply IH'].
  destruct (Z.eqb_spec i 0) as [->|]; [|apply IH']. intros [= <-]. exists n.
  split; [by apply elem_of_cons; left|]. unfold ready. cbn. by rewrite E1, E2.
Qed.

Record split (l : list (Z * ScannedNode)) (c : list ScannedNode) (P : parsed_nodes) (U : gset Z) : Prop := {
  split_complete : c = (reverse (filter (λ x, ready x = true) l)).*2;
  split_pending : ∀ i n, P !! i = Some n ↔ (i, n) ∈ l ∧ is_initialized n = true ∧ is_complete n = false;
  split_uninitialized : ∀ i, i ∈ U ↔ ∃ n, (i, n) ∈ l ∧ is_initialized n = false;
  split_root : ∀ n, (0, n) ∈ l → ready (0, n) = false;
}.

Lemma fst_snoc_fresh {A} (l : list (Z * A)) i n n' : NoDup (l ++ [(i, n)]).*1 → (i, n') ∉ l.
Proof.
  rewrite fmap_app, NoDup_app. intros (_ & Hd & _) Hin. apply (Hd i); [by apply (list_elem_of_fmap_2 fst _ (i, n'))|by left].
Qed.

Lemma split_nodes_from l0 l c P U c' P' U' :
  NoDup (l0 ++ l).*1 → split l0 c P U → split_nodes l c P U = inr (c', P', U') → split (l0 ++ l) c' P' U'.
Proof.
  revert l0 c P U. induction l as [|[i n] l IH]; intros l0 c P U Hnd Hs.
  - intros [= <- <- <-]. by rewrite app_nil_r.
  - cbn [split_nodes]. rewrite cons_middle, app_assoc in Hnd |- *.
    assert (∀ n', (i, n') ∉ l0) as Hi.
    { intros n'. apply (fst_snoc_fresh _ _ n). rewrite fmap_app in Hnd. by apply NoDup_app in Hnd as [? _]. }
    destruct Hs as [Hc HP HU Hr].
    assert (∀ j n', (j, n') ∈ l0 ++ [(i, n)] ↔ (j, n') ∈ l0 ∨ (j = i ∧ n' = n)) as Hel.
    { intros j n'. rewrite elem_of_app, list_elem_of_singleton. split; [intros [?|[= -> ->]]|intros [?|[-> ->]]]; auto. }
    assert (∀ b, ready (i, n) = b → filter (λ x, ready x = true) (l0 ++ [(i, n)]) =
              filter (λ x, ready x = true) l0 ++ if b then [(i, n)] else []) as Hf.
    { intros b <-. rewrite filter_app, filter_cons, filter_nil. case_decide as E; [by rewrite E|by destruct (ready _)]. }
    unfold parsed_nodes in *. destruct (is_initialized n) eqn:E1; cbn [negb].
    + destruct (is_complete n) eqn:E2.
      * destruct (Z.eqb_spec i 0) as [|Hi0]; [done|]. apply IH; [done|]. split.
        -- rewrite (Hf true) by (unfold ready; cbn; by rewrite E1, E2). by rewrite reverse_snoc, Hc.
        -- intros j n'. rewrite HP, Hel. naive_solver congruence.
        -- intros j. rewrite HU. setoid_rewrite Hel. naive_solver congruence.
        -- intros n' [Hn'|[? _]]%Hel; [by apply Hr|congruence].
      * apply IH; [done|]. split.
        -- rewrite (Hf false) by (unfold ready; cbn; by rewrite E1, E2). by rewrite app_nil_r.
        -- intros j n'. unfold parsed_nodes. rewrite lookup_insert_Some, HP, Hel. naive_solver.
        -- intros j. rewrite HU. setoid_rewrite Hel. naive_solver congruence.
        -- intros n' [Hn'|[_ ->]]%Hel; [by apply Hr|]. unfold ready. cbn. by rewrite E2, andb_false_r.
    + apply IH; [done|]. split.
      * rewrite (Hf false) by (unfold ready; cbn; by rewrite E1). by rewrite app_nil_r.
      * intros j n'. rewrite HP, Hel. naive_solver congruence.
      * intros j. rewrite elem_of_union, elem_of_singleton, HU. setoid_rewrite Hel. naive_solver.
      * intros n' [Hn'|[_ ->]]%Hel; [by apply Hr|]. unfold ready. cbn. by rewrite E1.
Qed.

(** ** The loop *)

Section loop.
Context `{!FloatNaN} (V : tree).

(** The node [i] when the children [js] have reached it. *)
Definition filled (i : Z) (js : list Z) (n : ScannedNode) : Prop :=
  ∃ name p hs, own V i = Some (name, p) ∧ Forall2 (shows V) js hs ∧ NoDup js ∧
    n = mkScannedNode (mkHierarchy name (properties V i) hs []) (Z.of_nat (size (kids V i))) p true.

(** The nodes on the stack, the ones that wait for children, and those that have reached
    their parents. *)
Record reducing (ks : list (Z * ScannedNode)) (P : gmap Z ScannedNode) (D : gset Z) : Prop := {
  red_stack : ∀ i n, (i, n) ∈ ks → i ≠ 0 ∧ i ∉ D ∧ kids V i ⊆ D ∧ ∃ js, js ≡ₚ elements (kids V i) ∧ filled i js n;
  red_NoDup : NoDup ks.*1;
  red_pending : ∀ i n, P !! i = Some n → i ∉ D ∧ i ∉ ks.*1 ∧ ~ kids V i ⊆ D ∧
    ∃ js, (∀ j, j ∈ js ↔ j ∈ kids V i ∧ j ∈ D) ∧ filled i js n;
  red_done : ∀ i, i ∈ D → i ≠ 0 ∧ is_Some (own V i) ∧ kids V i ⊆ D;
  red_all : ∀ i, is_Some (own V i) → i ∈ ks.*1 ∨ is_Some (P !! i) ∨ i ∈ D;
}.

Lemma own_kid i name p : i ≠ 0 → own V i = Some (name, p) → i ∈ kids V p.
Proof.
  intros Hi Ho. unfold own in Ho. apply elem_of_kids. destruct (V !! i) as [e|].
  - exists e. destruct (is_node e); [|done]. by injection Ho as _ <-.
  - by rewrite (proj2 (Z.eqb_neq _ _)) in Ho.
Qed.

Lemma kid_parent i p q : i ∈ kids V p → i ∈ kids V q → p = q.
Proof. intros (e & He & <- & _)%elem_of_kids (e' & He' & <- & _)%elem_of_kids. congruence. Qed.

Lemma kid_owned i p : V !! 0 = None → i ∈ kids V p → i ≠ 0 ∧ ∃ name, own V i = Some (name, p).
Proof.
  intros H0 (e & He & Hp & Hn)%elem_of_kids. split; [congruence|]. exists (e_name e). unfold own. by rewrite He, Hn, Hp.
Qed.

(** Something is on the stack until the root is complete: below a node that waits there
    would be another one, ever deeper. *)
Lemma reducing_stack ks P D : V !! 0 = None → (∀ i, rooted V i) → reducing ks P D → ks ≠ [].
Proof.
  intros H0 Hrooted HR ->. assert (∀ m i l, climb V i l → (size V < length l + m)%nat → P !! i = None) as Hno.
  { induction m as [|m IH]; intros i l Hl Hm; [pose proof (climb_length _ _ _ Hl); lia|].
    destruct (P !! i) as [n|] eqn:E; [|done]. destruct (red_pending _ _ _ HR _ _ E) as (_ & _ & Hsub & _).
    destruct Hsub. intros j Hj. destruct (kid_owned _ _ H0 Hj) as [_ [name Ho]].
    destruct (red_all _ _ _ HR j) as [?%elem_of_nil|[[n' Hp]|HD]]; [by eexists|done| |done].
    apply elem_of_kids in Hj as (e & He & <- & _).
    rewrite (IH j (j :: l)) in Hp; [done|by eapply climb_in|cbn; lia]. }
  destruct (rooted_climb V 0 (Hrooted 0)) as [l Hl].
  destruct (red_all _ _ _ HR 0) as [?%elem_of_nil|[[n Hn]|HD]].
  - unfold own. rewrite H0. by eexists.
  - done.
  - rewrite (Hno (S (size V)) 0 l Hl) in Hn by lia. done.
  - by destruct (red_done _ _ _ HR _ HD).
Qed.

Lemma filled_shows i js n : filled i js n → js ≡ₚ elements (kids V i) → shows V i (partial_hierarchy n).
Proof. intros (name & p & hs & Ho & Hf & _ & ->) Hp. by eapply shows_node. Qed.

Lemma filled_push i js n j h : filled i js n → shows V j h → j ∉ js →
  filled i (js ++ [j]) (on_hierarchy (push_child h) n).
Proof.
  intros (name & p & hs & Ho & Hf & Hnd & ->) Hh Hj. exists name, p, (hs ++ [h]). split_and!; [done| | |done].
  - by apply Forall2_app; [|constructor].
  - apply NoDup_app. split_and!; [done| |apply NoDup_singleton]. intros x Hx ->%list_elem_of_singleton. done.
Qed.

Lemma all_kids i js (D : gset Z) : NoDup js → (∀ j, j ∈ js ↔ j ∈ kids V i ∧ j ∈ D) → kids V i ⊆ D → js ≡ₚ elements (kids V i).
Proof. intros Hnd Hjs Hs. apply NoDup_Permutation; [done|apply NoDup_elements|]. intros j. rewrite elem_of_elements, Hjs. set_solver. Qed.

Lemma filled_complete i js n (D : gset Z) : filled i js n → (∀ j, j ∈ js ↔ j ∈ kids V i ∧ j ∈ D) →
  is_complete n = bool_decide (kids V i ⊆ D).
Proof.
  intros (name & p & hs & _ & Hf & Hnd & ->) Hjs. unfold is_complete. cbn. unfold len.
  rewrite <- (Forall2_length _ _ _ Hf). destruct (decide (kids V i ⊆ D)) as [Hs|Hs].
  - rewrite bool_decide_true by done. apply Z.eqb_eq. by rewrite (all_kids i js D).
  - rewrite bool_decide_false by done. apply Z.eqb_neq. intros He. apply Hs.
    assert (list_to_set js = kids V i) as <-; [|set_solver].
    apply set_subseteq_size_eq; [set_solver|]. rewrite size_list_to_set by done. lia.
Qed.

Section pop.
Context {i : Z} {n : ScannedNode} {ks : list (Z * ScannedNode)} {P : gmap Z ScannedNode} {D : gset Z}.
Context (HR : reducing ((i, n) :: ks) P D).

Lemma pop_shows : shows V i (partial_hierarchy n).
Proof. destruct (red_stack _ _ _ HR i n) as (_ & _ & _ & js & Hjs & Hf); [by left|]. by eapply filled_shows. Qed.

Lemma pop_own : i ≠ 0 ∧ i ∉ D ∧ ∃ name, own V i = Some (name, node_parent_index n).
Proof.
  destruct (red_stack _ _ _ HR i n) as (Hi & HD & _ & js & _ & name & p & hs & Ho & _ & _ & ->); [by left|]. eauto.
Qed.

Lemma pop_stack j m : (j, m) ∈ ks →
  j ≠ i ∧ j ≠ 0 ∧ j ∉ {[i]} ∪ D ∧ kids V j ⊆ {[i]} ∪ D ∧ ∃ js, js ≡ₚ elements (kids V j) ∧ filled j js m.
Proof.
  intros Hj. destruct (red_stack _ _ _ HR j m) as (? & ? & ? & ?); [by right|].
  pose proof (red_NoDup _ _ _ HR) as [Hi _]%NoDup_cons.
  assert (j ≠ i) by (intros ->; apply Hi; by apply (list_elem_of_fmap_2 fst _ (i, m))).
  split_and!; [done|done|set_solver|set_solver|done].
Qed.

Lemma pop_pending q m : q ≠ node_parent_index n → P !! q = Some m → q ∉ {[i]} ∪ D ∧ q ∉ ks.*1 ∧ ~ kids V q ⊆ {[i]} ∪ D ∧
  ∃ js, (∀ j, j ∈ js ↔ j ∈ kids V q ∧ j ∈ {[i]} ∪ D) ∧ filled q js m.
Proof.
  intros Hq Hm. destruct (red_pending _ _ _ HR q m Hm) as (HD & Hks & Hsub & js & Hjs & Hf).
  apply not_elem_of_cons in Hks as [Hqi Hks]. destruct pop_own as (Hi & _ & name & Ho).
  assert (i ∉ kids V q) as Hiq by (intros Hiq; apply Hq; eapply kid_parent; [exact Hiq|by eapply own_kid]).
  split_and!; [set_solver|done|set_solver|]. exists js. split; [|done]. intros j. rewrite Hjs. set_solver.
Qed.

Lemma pop_done j : j ∈ {[i]} ∪ D → j ≠ 0 ∧ is_Some (own V j) ∧ kids V j ⊆ {[i]} ∪ D.
Proof.
  intros [->%elem_of_singleton|Hj]%elem_of_union.
  - destruct pop_own as (Hi & _ & name & Ho). destruct (red_stack _ _ _ HR i n) as (_ & _ & Hk & _); [by left|].
    split_and!; [done|by eexists|set_solver].
  - destruct (red_done _ _ _ HR j Hj) as (? & ? & ?). split_and!; [done|done|set_solver].
Qed.

Lemma pop_all j : is_Some (own V j) → j ∈ ks.*1 ∨ is_Some (P !! j) ∨ j ∈ {[i]} ∪ D.
Proof.
  intros Hj. destruct (red_all _ _ _ HR j Hj) as [[->|Hk]%elem_of_cons|[?|?]]; cbn; [set_solver|by left|by right; left|set_solver].
Qed.

(** The parent has been deleted. *)
Lemma reducing_drop : own V (node_parent_index n) = None → reducing ks P ({[i]} ∪ D).
Proof.
  intros Hp. split.
  - intros j m Hj. by destruct (pop_stack j m Hj) as [_ ?].
  - by pose proof (red_NoDup _ _ _ HR) as [_ ?]%NoDup_cons.
  - intros q m Hm. apply pop_pending; [|done]. intros ->.
    destruct (red_pending _ _ _ HR _ m Hm) as (_ & _ & _ & js & _ & name & p & hs & Ho & _). congruence.
  - apply pop_done.
  - apply pop_all.
Qed.

(** The parent waits. *)
Lemma pop_parent : is_Some (own V (node_parent_index n)) → is_Some (P !! node_parent_index n).
Proof.
  destruct pop_own as (Hi & HD & name & Ho). pose proof (own_kid _ _ _ Hi Ho) as Hk.
  intros [[[q m] [E Hin]]%list_elem_of_fmap|[?|Hd]]%(red_all _ _ _ HR); [|done|].
  - cbn in E. subst q. destruct (red_stack _ _ _ HR _ m Hin) as (_ & _ & Hs & _). set_solver.
  - destruct (red_done _ _ _ HR _ Hd) as (_ & _ & Hs). set_solver.
Qed.

Context {m : ScannedNode} (Hm : P !! node_parent_index n = Some m).

Abbreviation fed := (on_hierarchy (push_child (partial_hierarchy n)) m).

Lemma pop_filled : ∃ js, (∀ j, j ∈ js ↔ j ∈ kids V (node_parent_index n) ∧ j ∈ {[i]} ∪ D) ∧
  NoDup js ∧ filled (node_parent_index n) js fed.
Proof.
  destruct (red_pending _ _ _ HR _ m Hm) as (_ & _ & _ & js & Hjs & Hf). destruct pop_own as (Hi & HD & name & Ho).
  pose proof (own_kid _ _ _ Hi Ho) as Hk.
  assert (filled (node_parent_index n) (js ++ [i]) fed) as Hf'.
  { apply filled_push; [done|apply pop_shows|]. rewrite Hjs. tauto. }
  exists (js ++ [i]). split; [|split; [by destruct Hf' as (? & ? & ? & ? & ? & ? & ?)|done]].
  intros j. rewrite elem_of_app, Hjs. set_solver.
Qed.

Lemma reducing_complete : is_complete fed = true → node_parent_index n ≠ 0 →
  reducing ((node_parent_index n, fed) :: ks) (delete (node_parent_index n) P) ({[i]} ∪ D).
Proof.
  intros Hc Hp. destruct pop_filled as (js & Hjs & Hnd & Hf).
  rewrite (filled_complete _ _ _ _ Hf Hjs) in Hc. apply bool_decide_eq_true in Hc.
  destruct (red_pending _ _ _ HR _ m Hm) as (HpD & [Hpi Hpk]%not_elem_of_cons & _). cbn in Hpi. split.
  - intros j x [[= -> ->]|Hj]%elem_of_cons; [|by destruct (pop_stack j x Hj) as [_ ?]].
    split_and!; [done|set_solver|done|]. exists js. split; [by eapply all_kids|done].
  - cbn. apply NoDup_cons. split; [done|]. by pose proof (red_NoDup _ _ _ HR) as [_ ?]%NoDup_cons.
  - intros q x [Hq Hx]%lookup_delete_Some. destruct (pop_pending q x (not_eq_sym Hq) Hx) as (? & ? & ? & ?).
    split_and!; [done|by apply not_elem_of_cons|done|done].
  - apply pop_done.
  - intros j [Hk|[[x Hx]|Hd]]%pop_all; cbn; rewrite elem_of_cons; [by auto| |by auto].
    destruct (decide (j = node_parent_index n)); [by auto|]. right. left. exists x. by apply lookup_delete_Some.
Qed.

Lemma reducing_wait : is_complete fed = false →
  reducing ks (<[node_parent_index n := fed]> P) ({[i]} ∪ D).
Proof.
  intros Hc. destruct pop_filled as (js & Hjs & Hnd & Hf).
  rewrite (filled_complete _ _ _ _ Hf Hjs) in Hc. apply bool_decide_eq_false in Hc.
  destruct (red_pending _ _ _ HR _ m Hm) as (HpD & [Hpi Hpk]%not_elem_of_cons & _). cbn in Hpi. split.
  - intros j x Hj. by destruct (pop_stack j x Hj) as [_ ?].
  - by pose proof (red_NoDup _ _ _ HR) as [_ ?]%NoDup_cons.
  - intros q x [[<- <-]|[Hq Hx]]%lookup_insert_Some; [|by apply pop_pending].
    split_and!; [set_solver|done|done|]. by exists js.
  - apply pop_done.
  - intros j [Hk|[Hx|Hd]]%pop_all; [by auto| |by auto]. right. left. rewrite lookup_insert_is_Some'. by right.
Qed.

Lemma reducing_root : is_complete fed = true → node_parent_index n = 0 → shows V 0 (partial_hierarchy fed).
Proof.
  intros Hc Hp. destruct pop_filled as (js & Hjs & Hnd & Hf).
  rewrite (filled_complete _ _ _ _ Hf Hjs) in Hc. apply bool_decide_eq_true in Hc.
  rewrite Hp in *. eapply filled_shows; [done|by eapply all_kids].
Qed.
End pop.

Section run.
Context (nodes : gmap Z ScannedNode).
Context (H0 : V !! 0 = None) (Hrooted : ∀ i, rooted V i).
Context (Hnodes : ∀ i n, nodes !! i = Some n → n = scanned (own V i) (properties V i) (Z.of_nat (size (kids V i)))).
Context (Hknown : ∀ i, is_Some (nodes !! i) ↔ is_Some (own V i) ∨ ∃ j e, V !! j = Some e ∧ e_parent e = i).

Lemma root_owned : own V 0 = Some (str "root", 0).
Proof using H0. unfold own. by rewrite H0. Qed.

(** Each round brings one node to its parent, so that one round per node is enough. *)
Lemma reduce_loop_shows fuel ks P U D :
  reducing ks P D → (∀ i, i ∈ U → own V i = None) → (∀ i, is_Some (nodes !! i) → own V i = None → i ∈ U) →
  (size nodes <= fuel + size D)%nat → ∃ h, reduce_loop fuel ks.*2 P U = Ok h ∧ shows V 0 h.
Proof using H0 Hrooted Hnodes Hknown.
  intros HR HU HU'. revert ks P D HR. induction fuel as [|fuel IH]; intros ks P D HR Hf.
  { assert (D ∪ {[0]} ⊆ dom nodes) as Hsub%subseteq_size.
    { intros i [Hi| ->%elem_of_singleton]%elem_of_union; apply elem_of_dom, Hknown; left.
      - by apply (red_done _ _ _ HR).
      - rewrite root_owned. by eexists. }
    rewrite size_union, size_singleton, size_dom in Hsub; [lia|].
    intros i Hi ->%elem_of_singleton. by destruct (red_done _ _ _ HR _ Hi). }
  destruct ks as [|[i n] ks]; [by destruct (reducing_stack _ _ _ H0 Hrooted HR)|]. cbn [reduce_loop fmap list_fmap snd].
  destruct (pop_own HR) as (Hi & HD & name & Ho).
  assert (size ({[i]} ∪ D) = S (size D)) as Hsize by (rewrite size_union, size_singleton by set_solver; lia).
  case_bool_decide as Hp.
  { apply (IH ks P ({[i]} ∪ D)); [by apply (reducing_drop HR), HU|lia]. }
  assert (is_Some (own V (node_parent_index n))) as Hown.
  { destruct (own V (node_parent_index n)) eqn:E; [by eexists|]. destruct Hp. apply HU'; [|done]. apply Hknown. right.
    apply (own_kid _ _ _ Hi), elem_of_kids in Ho as (e & He & Hpe & _). by exists i, e. }
  destruct (pop_parent HR Hown) as [m Hm]. unfold parsed_nodes. rewrite Hm. destruct (is_complete _) eqn:Hc.
  - destruct (Z.eqb_spec (node_parent_index n) 0) as [Hp0|Hp0].
    + eexists. split; [done|]. by eapply reducing_root.
    + apply (IH ((node_parent_index n, _) :: ks) _ ({[i]} ∪ D)); [by apply reducing_complete|lia].
  - apply (IH ks _ ({[i]} ∪ D)); [by apply reducing_wait|lia].
Qed.

(** Before any child has reached its parent. *)
Lemma scanned_filled i n : nodes !! i = Some n → is_initialized n = true → filled i [] n.
Proof using Hnodes.
  intros Hn. rewrite (Hnodes _ _ Hn). cbn. destruct (own V i) as [[name p]|] eqn:Ho; cbn; [|done]. intros _.
  exists name, p, []. split_and!; [done|constructor|constructor|done].
Qed.

Lemma scanned_complete i n : nodes !! i = Some n → is_complete n = bool_decide (kids V i = ∅).
Proof using Hnodes.
  intros Hn. rewrite (Hnodes _ _ Hn). unfold is_complete. cbn. destruct (decide (kids V i = ∅)) as [->|Hne].
  - done.
  - rewrite bool_decide_false by done. apply Z.eqb_neq. change (0 ≠ Z.of_nat (size (kids V i))). assert (size (kids V i) ≠ 0%nat); [|lia].
    intros E. apply Hne. apply leibniz_equiv. by apply size_empty_inv.
Qed.

Lemma elem_of_btree_iter i n : (i, n) ∈ btree_iter nodes ↔ nodes !! i = Some n.
Proof using. unfold btree_iter, parsed_nodes. by rewrite merge_sort_Permutation, elem_of_map_to_list. Qed.

Lemma NoDup_btree_iter : NoDup (btree_iter nodes).*1.
Proof using. unfold btree_iter, parsed_nodes. rewrite merge_sort_Permutation. apply NoDup_fst_map_to_list. Qed.

Lemma reduce_start c P U : split (btree_iter nodes) c P U →
  reducing (reverse (filter (λ x, ready x = true) (btree_iter nodes))) P ∅.
Proof using H0 Hrooted Hnodes Hknown.
  intros Hs. set (ks := reverse _).
  assert (∀ i n, (i, n) ∈ ks ↔ nodes !! i = Some n ∧ ready (i, n) = true) as Hks.
  { intros i n. unfold ks. rewrite elem_of_reverse, list_elem_of_filter, elem_of_btree_iter. tauto. }
  assert (∀ i n, P !! i = Some n ↔ nodes !! i = Some n ∧ is_initialized n = true ∧ is_complete n = false) as HP.
  { intros i n. rewrite <- elem_of_btree_iter. apply (split_pending _ _ _ _ Hs). }
  split.
  - intros i n Hin. pose proof Hin as [Hn [Hi Hc]%andb_true_iff]%Hks. cbn in Hi, Hc. split_and!; [|set_solver|..].
    + intros ->. pose proof (split_root _ _ _ _ Hs n (proj2 (elem_of_btree_iter _ _) Hn)) as Hr.
      apply Hks in Hin as [_ Hin]. congruence.
    + rewrite (scanned_complete _ _ Hn) in Hc. apply bool_decide_eq_true in Hc. by rewrite Hc.
    + rewrite (scanned_complete _ _ Hn) in Hc. apply bool_decide_eq_true in Hc. exists [].
      split; [by rewrite Hc, elements_empty|by apply scanned_filled].
  - unfold ks. rewrite fmap_reverse, reverse_Permutation. eapply sublist_NoDup; [apply NoDup_btree_iter|].
    apply fmap_sublist, sublist_filter.
  - intros i n (Hn & Hi & Hc)%HP. split_and!; [set_solver| | |].
    + intros ([j n'] & -> & [Hn' [_ Hc']%andb_true_iff]%Hks)%list_elem_of_fmap. cbn in *. congruence.
    + rewrite (scanned_complete _ _ Hn) in Hc. apply bool_decide_eq_false in Hc. intros Hsub. apply Hc. set_solver.
    + exists []. split; [set_solver|by apply scanned_filled].
  - set_solver.
  - intros i Hi. destruct (proj2 (Hknown i) (or_introl Hi)) as [n Hn].
    assert (is_initialized n = true) as Hin by (rewrite (Hnodes _ _ Hn); by apply bool_decide_eq_true).
    destruct (is_complete n) eqn:Hc; [left|right; left; exists n; by apply HP].
    apply list_elem_of_fmap. exists (i, n). split; [done|]. apply Hks. split; [done|]. unfold ready. cbn. by rewrite Hin, Hc.
Qed.

Lemma reduce_shows : ∃ h, reduce nodes = Ok h ∧ shows V 0 h.
Proof using H0 Hrooted Hnodes Hknown.
  unfold reduce. destruct (split_nodes _ _ _ _) as [h|[[c P] U]] eqn:Hs.
  - apply split_nodes_root in Hs as (n & Hn%elem_of_btree_iter & [Hi Hc]%andb_true_iff & ->). eexists. split; [done|].
    cbn in Hi, Hc. rewrite (scanned_complete _ _ Hn) in Hc. apply bool_decide_eq_true in Hc.
    eapply filled_shows; [by apply scanned_filled|]. by rewrite Hc, elements_empty.
  - apply (split_nodes_from []) in Hs; [|apply NoDup_btree_iter|].
    + cbn [app] in Hs. rewrite (split_complete _ _ _ _ Hs). apply (reduce_loop_shows _ _ _ _ ∅); [by eapply reduce_start| | |etrans; [apply Nat.le_succ_diag_r|apply Nat.le_add_r]].
      * intros i (n & Hn%elem_of_btree_iter & Hi)%(split_uninitialized _ _ _ _ Hs). rewrite (Hnodes _ _ Hn) in Hi. cbn in Hi.
        destruct (own V i); [done|done].
      * intros i [n Hn] Ho. apply (split_uninitialized _ _ _ _ Hs). exists n. rewrite elem_of_btree_iter. split; [done|].
        rewrite (Hnodes _ _ Hn), Ho. done.
    + split; [done|set_solver|set_solver|]. by intros n ?%elem_of_nil.
Qed.
End run.
End loop.
