(* ===== verification/InspectContract.v ===== *)
(** What the Inspect library promises: a program that uses a writer builds a tree, a reader
    of the bytes finds that tree, and values keep their types. *)
From Stdlib Require Import ZArith Lia.
From stdpp Require Import base gmap strings list sorting.
From S2P Require Import Prelude StateError InspectFormat InspectBlock InspectHeap InspectState InspectReader.
From S2P Require Import InspectMemory InspectBuddy InspectHeapCorrect InspectHeapSafety InspectScan.
From S2P Require Import InspectSnapshot InspectObjects InspectTyped InspectExtents InspectTree.
From S2P Require Import InspectOwned InspectValues InspectOperations InspectWriter InspectCommands.
From S2P Require Import InspectClient InspectReadTree.
Local Open Scope Z_scope.

Implicit Types (T : objects) (V : tree) (X : gmap Z (list Z)).

(** ** Folds *)

Lemma try_fold_ext {E A S} (f g : S → A → outcome E S) l s :
  (∀ s x, x ∈ l → f s x = g s x) → try_fold f s l = try_fold g s l.
Proof.
  revert s. induction l as [|x l IH]; intros s Hf; [done|]. cbn. rewrite Hf by (by left). destruct (g s x); cbn; [|done|done].
  apply IH. intros s' y Hy. apply Hf. by right.
Qed.

Lemma try_map_each {E A B} (f : A → outcome E B) l l' : try_map f l = Ok l' → Forall (λ x, ∃ y, f x = Ok y) l.
Proof. intros H%try_map_Ok. eapply Forall2_Forall_l; [exact H|]. apply Forall_true. intros y x Hx. by exists y. Qed.

Section scans.
Context `{!FloatNaN}.

Definition scan_index V (nodes : parsed_nodes) (i : Z) : outcome ReaderError parsed_nodes :=
  match V !! i with Some e => _ ← property_of e; Ok (scan_entry i e nodes) | None => Ok nodes end.

(** What the values are to a reader, or the first, in the order of the blocks, that it
    cannot read. *)
Definition shown V : outcome ReaderError (list (option Property)) :=
  try_map (λ x, property_of x.2) (sorted_entries V).

(** A scan stops at the first value that cannot be read. *)
Lemma scan_index_fold V l nodes : try_fold (scan_index V) nodes l =
  let es := omap (λ j, pair j <$> V !! j) l in
  _ ← try_map (λ x, property_of x.2) es; Ok (foldl (λ nodes x, scan_entry x.1 x.2 nodes) nodes es).
Proof using.
  revert nodes. induction l as [|i l IH]; intros nodes; [done|]. cbn [try_fold omap list_omap].
  change (scan_index V nodes i) with
    (match V !! i with Some e => _ ← property_of e; Ok (scan_entry i e nodes) | None => Ok nodes end).
  destruct (V !! i) as [e|]; cbn [fmap option_fmap option_map try_map snd foldl fst]; [|exact (IH nodes)].
  destruct (property_of e); cbn [mbind outcome_bind]; [|done|done]. rewrite IH. cbn zeta. by destruct (try_map _ _).
Qed.
End scans.

(** The scan visits the values in the order of their blocks. *)
Lemma sorted_omap V l : StronglySorted Z.lt l → (∀ i, is_Some (V !! i) → i ∈ l) →
  omap (λ j, pair j <$> V !! j) l = sorted_entries V.
Proof.
  intros Hsort Hl. unfold sorted_entries.
  assert (filter (λ i, is_Some (V !! i)) l = merge_sort Z.le (elements (dom V))) as <-.
  { apply (Sorted_unique Z.le).
    - apply StronglySorted_Sorted. clear Hl. induction Hsort as [|i l Hsort IH Hi]; [constructor|].
      rewrite filter_cons. case_decide; [|done]. constructor; [done|]. apply Forall_forall.
      intros j [_ Hj]%list_elem_of_filter. rewrite Forall_forall in Hi. specialize (Hi j Hj). lia.
    - apply Sorted_merge_sort, _.
    - rewrite merge_sort_Permutation. apply NoDup_Permutation.
      + apply NoDup_filter. clear Hl. induction Hsort as [|i l Hsort IH Hi]; constructor; [|done].
        rewrite Forall_forall in Hi. intros Hin%Hi. lia.
      + apply NoDup_elements.
      + intros i. rewrite list_elem_of_filter, elem_of_elements, elem_of_dom. split; [by intros [? _]|]. intros Hi. by auto. }
  clear Hsort Hl. induction l as [|i l IH]; [done|]. rewrite filter_cons. cbn [omap list_omap]. case_decide as E.
  - cbn [omap list_omap]. by rewrite <- IH.
  - apply eq_None_not_Some in E as ->. cbn. exact IH.
Qed.

(** ** The bytes *)

Section bytes.
Context (text : Z → rstring) `{!FloatNaN}.
Context (Htext : ∀ id, utf8_valid (text id) = true).
Context {h : Heap} {ids : gmap Z Z} {T T' : objects} {X : gmap Z (list Z)} {V : tree} {g : Z} {bs : list Z}.
Context (HT : typed h T') (Hp : part_of T T') (Hw : wf text ids T X V zero zero).
Context (Hg : T !! 0 = Some (0, O_Header g)) (Hb : bytes h = Ok bs).

Lemma bytes_seen : seen (Vector_buffer bs) T'.
Proof using HT Hb.
  intros i k o Hi. pose proof (typed_heap _ _ HT) as Hinv.
  destruct (heap_inv_block h _ i k Hinv (typed_lookup _ _ _ Hi)) as [(H0 & Hk & H1 & H2) H3].
  destruct Hinv as (N & B & L & HC & _). pose proof (heap_bytes_copy _ _ _ _ _ HC Hb) as [Hlen Hbyte].
  destruct HC as [Hsz HC]. rewrite Hsz in H3. destruct (core_len _ _ _ _ _ HC) as (_ & ? & ?). split.
  - unfold block_inside. change (container_len (Vector_buffer bs)) with (buffer_len (Vector_buffer bs)). rewrite Hlen.
    split_and!; lia.
  - eapply (obj_at_ext (mapping h)); [lia| |by apply (typed_obj _ _ HT)]. intros a Ha. symmetry. apply Hbyte. lia.
Qed.

Lemma header_seen : T' !! 0 = Some (0, O_Header g).
Proof using Hp Hg. eapply lookup_weaken; [exact Hg|apply Hp]. Qed.

Lemma snapshot_generation_seen : snapshot_generation_count bs = Ok (if Z.even g then Some g else None).
Proof using HT Hp Hg Hb.
  destruct (bytes_seen 0 0 _ header_seen) as [(_ & _ & Hlen & _) (_ & Ht & Hm & Hv & Hgen)].
  change (16 * 1 <= len bs) in Hlen. rewrite snapshot_generation_run. rewrite (proj2 (Z.leb_le _ _)) by lia.
  assert (∀ d, 0 <= d < 16 → slice_byte (take 16 bs) d = slice_byte bs d) as Htake.
  { intros d Hd. unfold slice_byte. rewrite !nth_lookup, lookup_take_lt by lia. done. }
  assert (header (take 16 bs) 0 = header (Vector_buffer bs) 0 ∧ payload (take 16 bs) 0 = payload (Vector_buffer bs) 0) as [Hh Hpl].
  { split; apply word_ext; intros d Hd; apply Htake; lia. }
  unfold readable_header, typ in *. rewrite Hh, Hpl, Ht, Hm, Hv, Hgen, <- Z.negb_even. by destruct (Z.even g).
Qed.

Lemma snapshot_seen : Z.even g = true → Snapshot_try_from_bytes bs = Ok (Vector_buffer bs).
Proof using HT Hp Hg Hb. intros He. unfold Snapshot_try_from_bytes. by rewrite snapshot_generation_seen, He. Qed.

Lemma snapshot_locked : Z.even g = false → Snapshot_try_from_bytes bs = Err MissingHeaderOrLocked.
Proof using HT Hp Hg Hb. intros He. unfold Snapshot_try_from_bytes. by rewrite snapshot_generation_seen, He. Qed.

Lemma scan_block_seen B N L i nodes : hcore h N B L → tiles N B → used B = fst <$> T' → is_Some (B !! i) →
  scan_block (Vector_buffer bs) i nodes = scan_index V nodes i.
Proof using HT Hp Hw Hg Hb Htext.
  intros HC HB HU [[k free] Hi]. pose proof (heap_bytes_copy _ _ _ _ _ HC Hb) as Hcopy. unfold scan_index.
  assert (∀ e, V !! i = Some e → ∃ k n b, T !! i = Some (k, O_Value n (e_parent e) b)) as HV
    by apply (tree_entry _ _ _ (wf_tree _ _ _ _ _ _ _ Hw)).
  destruct free.
  - assert (T' !! i = None) as Hi'.
    { destruct (T' !! i) as [[k' o]|] eqn:E; [|done].
      assert (used B !! i = Some k') as Hu by (by rewrite HU, lookup_fmap, E). apply used_lookup in Hu. congruence. }
    assert (V !! i = None) as ->.
    { destruct (V !! i) as [e|] eqn:E; [|done]. destruct (HV e eq_refl) as (k' & n & b & Hv).
      by rewrite (lookup_weaken _ _ _ _ Hv (part_sub _ _ Hp)) in Hi'. }
    destruct (copy_block HC HB Hcopy i k true Hi) as (_ & _ & Hin & Hh & _). apply scan_free_seen; [done| |].
    + unfold typ. rewrite Hh. by apply (core_free (proj2 HC) i k).
    + intros ->. by rewrite header_seen in Hi'.
  - apply used_lookup in Hi. rewrite HU, lookup_fmap in Hi. destruct (T' !! i) as [[k' o]|] eqn:Hi'; [|done].
    destruct (V !! i) as [e|] eqn:E.
    + destruct (HV e eq_refl) as (k1 & n & b & Hv). 
      eapply (scan_value_seen text Htext (T := T)); [|exact Hw|exact Hv|exact E].
      intros j kj oj Hj. apply bytes_seen. eapply lookup_weaken; [exact Hj|apply Hp].
    + eapply scan_other_seen; [apply bytes_seen|exact Hi'| |].
      * intros n p b ->. apply (part_values _ _ Hp) in Hi'.
        destruct (tree_value _ _ _ (wf_tree _ _ _ _ _ _ _ Hw) _ _ _ _ _ Hi') as (e & He & _). congruence.
      * intros ->. rewrite header_seen in Hi'. injection Hi' as <- <-. by eexists.
Qed.

Lemma scan_blocks_seen : scan_blocks (Vector_buffer bs) =
  (_ ← shown V; Ok (foldl (λ nodes x, scan_entry x.1 x.2 nodes) ScanResult_new (sorted_entries V))).
Proof using HT Hp Hw Hg Hb Htext.
  destruct (typed_heap _ _ HT) as (N & B & L & HC & HB & _ & HN & _ & HU).
  pose proof (heap_bytes_copy _ _ _ _ _ HC Hb) as Hcopy.
  destruct (scan_blocks_list HC HB Hcopy HN) as (l & Hs & Hsort & Hl). unfold scan_blocks.
  rewrite (scan_loop_fold _ _ l) by exact Hs. erewrite (try_fold_ext _ (scan_index V)).
  - rewrite scan_index_fold, sorted_omap; [done|done|]. intros i [e He]. apply Hl.
    destruct (tree_entry _ _ _ (wf_tree _ _ _ _ _ _ _ Hw) _ _ He) as (k & n & b & Hi).
    exists (k, false). apply used_lookup. rewrite HU, lookup_fmap. by rewrite (lookup_weaken _ _ _ _ Hi (part_sub _ _ Hp)).
  - intros nodes i Hi%Hl. by eapply scan_block_seen.
Qed.

(** A reader shows the tree, or fails like the first value that it cannot read. *)
Lemma read_bytes_shows : Z.even g = true →
  match shown V with
  | Ok _ => ∃ H, read_bytes_hierarchy bs = Ok H ∧ shows V 0 H
  | Err e => read_bytes_hierarchy bs = Err e
  | Panic => read_bytes_hierarchy bs = Panic
  end.
Proof using HT Hp Hw Hg Hb Htext.
  intros He. unfold read_bytes_hierarchy, read_snapshot. rewrite (snapshot_seen He). cbn [mbind outcome_bind].
  rewrite scan_blocks_seen. destruct (shown V) as [ps|err|] eqn:Hshown; cbn [mbind outcome_bind]; [|done|done].
  assert (Forall (λ x, ∃ p, property_of x.2 = Ok p) (sorted_entries V)) as Hes by (by eapply try_map_each).
  assert (V !! 0 = None) as H0 by (by eapply wf_root).
  apply reduce_shows; [done|apply (tree_rooted _ _ _ (wf_tree _ _ _ _ _ _ _ Hw))| |].
  - intros i n Hn. pose proof (scan_entries_lookup _ i Hes) as Hi. unfold parsed_nodes in *. rewrite Hn in Hi.
    rewrite own_in_sorted, kid_count_sorted in Hi by done. exact Hi.
  - intros i. pose proof (scan_entries_known _ i Hes) as Hi. rewrite own_in_sorted in Hi by done. rewrite Hi.
    split; (intros [?|Hx]; [by left|right]).
    + destruct Hx as ([j e] & Hx%elem_of_sorted_entries & Hpe). by exists j, e.
    + destruct Hx as (j & e & Hx%elem_of_sorted_entries & Hpe). by exists (j, e).
Qed.
End bytes.

(** ** Reading back *)

Lemma represents_bytes text n s V : represents text n s V → ∃ bs, bytes (heap s) = Ok bs.
Proof.
  intros (_ & _ & g & _ & T & X & (T' & HT & _) & _). destruct (typed_heap _ _ HT) as (N & B & L & [Hsz HC] & _).
  destruct (core_len _ _ _ _ _ HC) as (? & ? & ?). change (2 ^ 28) with 268435456 in *. unfold bytes. rewrite Hsz.
  rewrite read_at_inside by (unfold u64_size; lia). by eexists.
Qed.

Lemma read_back `{!FloatNaN} text s V bs : (∀ id, utf8_valid (text id) = true) → represents text 0 s V →
  bytes (heap s) = Ok bs →
  match shown V with
  | Ok _ => ∃ H, read_bytes_hierarchy bs = Ok H ∧ shows V 0 H
  | Err e => read_bytes_hierarchy bs = Err e
  | Panic => read_bytes_hierarchy bs = Panic
  end.
Proof.
  intros Ht (_ & _ & g & He & T & X & (T' & HT & Hp) & Hw & Hg) Hb. by eapply (read_bytes_shows text).
Qed.

Lemma read_locked `{!FloatNaN} text n s V bs : n ≠ 0 → represents text n s V → bytes (heap s) = Ok bs →
  read_bytes_hierarchy bs = Err MissingHeaderOrLocked.
Proof.
  intros Hn (_ & _ & g & He & T & X & (T' & HT & Hp) & Hw & Hg) Hb. unfold read_bytes_hierarchy.
  rewrite (snapshot_locked HT Hp Hg Hb); [done|]. rewrite He. by apply Z.eqb_neq.
Qed.

(** ** Types *)

(** The type of a value, and of the entries of an array. *)
Definition value_type (a : aval) : BlockType * option BlockType :=
  match a with
  | A_Node => (NodeValue, None)
  | A_Int _ => (IntValue, None)
  | A_Uint _ => (UintValue, None)
  | A_Double _ => (DoubleValue, None)
  | A_Bool _ => (BoolValue, None)
  | A_Buffer _ _ => (BufferValue, None)
  | A_Array en _ _ => (ArrayValue, Some en)
  end.

(** Whether the command is one for values like [a]. *)
Definition takes (c : command) (a : aval) : bool :=
  match c with
  | SetBool _ _ => bool_decide (value_type a = (BoolValue, None))
  | SetMetric m _ _ | AddMetric m _ _ | SubtractMetric m _ _ | GetMetric m _ =>
    bool_decide (value_type a = (metric_type m, None))
  | SetSlot m _ _ _ | AddSlot m _ _ _ | SubtractSlot m _ _ _ =>
    bool_decide (value_type a = (ArrayValue, Some (metric_type m)))
  | ClearArray _ _ => bool_decide ((value_type a).1 = ArrayValue)
  | SetProperty _ _ | FreeProperty _ => bool_decide (value_type a = (BufferValue, None))
  | _ => true
  end.

(** The value a command is for. *)
Definition subject (c : command) : option Z :=
  match c with
  | SetBool i _ | SetMetric _ i _ | AddMetric _ i _ | SubtractMetric _ i _ | GetMetric _ i
  | SetSlot _ i _ _ | AddSlot _ i _ _ | SubtractSlot _ i _ _ | ClearArray i _ | SetProperty i _
  | FreeValue i | FreeProperty i | Reparent i _ => Some i
  | _ => None
  end.

Lemma metric_aval_type m v : value_type (metric_aval m v) = (metric_type m, None).
Proof. by destruct m. Qed.

(** Takes an effect apart, and rewrites with the values it names. *)
Ltac effects He :=
  cbn in He; unfold created, revalued, slot_changed in He;
  repeat match goal with
  | H : _ ∧ _ |- _ => destruct H
  | H : ∃ _, _ |- _ => destruct H
  end; subst;
  repeat match goal with
  | H : <[_ := _]> _ !! _ = Some _ |- _ => apply lookup_insert_Some in H as [[<- <-]|[? ?]]
  | H : delete _ _ !! _ = Some _ |- _ => apply lookup_delete_Some in H as [? ?]
  end; simplify_eq; cbn;
  repeat match goal with
  | H : e_value _ = _ |- _ => rewrite H
  end; rewrite ?metric_aval_type.

(** A command succeeds only on a value of its type. *)
Lemma effect_takes `{!FloatNaN} V c r V' i e : effect V c r V' → subject c = Some i → V !! i = Some e → takes c (e_value e) = true.
Proof.
  intros He Hs Hi. destruct c; try done; injection Hs as <-; effects He; try done; by apply bool_decide_eq_true.
Qed.

(** No command changes the type of a value. *)
Lemma effect_types `{!FloatNaN} V c r V' i e e' : effect V c r V' → V !! i = Some e → V' !! i = Some e' →
  value_type (e_value e') = value_type (e_value e).
Proof. intros He Hi Hi'. destruct c; effects He; done. Qed.

(** ** A sample *)

#[local] Instance sample_order : HashMapOrder Z Z := key_order_map Z Z.
#[local] Existing Instance quiet_nan.

Definition sample_allocate (size : Z) : Z + Mapping := inr (mkMapping size ∅).

Lemma sample_allocated size m : sample_allocate size = inr m → mapping_len m = size ∧ bytes_ok m.
Proof. intros [= <-]. split; [done|]. intros a. unfold mapping_byte. cbn. by rewrite lookup_empty. Qed.

Definition sample_text (id : Z) : rstring := if id =? 1 then str "node" else str "n".
Definition sample_name (id : Z) : StringRef := mkStringRef (sample_text id) id.

Lemma sample_named id : named sample_text (sample_name id).
Proof. split; [done|..]; cbn; unfold sample_text; destruct (id =? 1); by apply (bool_decide_unpack _). Qed.

Lemma sample_utf8 id : utf8_valid (sample_text id) = true.
Proof. unfold sample_text. by destruct (id =? 1). Qed.

(** A node with a number. *)
Definition sample_client : client :=
  Do (CreateNode (sample_name 1) 0)
    (λ r, match r with
          | Some i => Do (CreateMetric M_Int (sample_name 2) 7 i) (λ _, Done) Done
          | None => Done
          end) Done.

Lemma sample_proper : proper sample_text sample_client 0 ∅.
Proof.
  split; [split; [apply sample_named|by left]|]. split; [|done]. intros r V' (i & a & -> & _ & _ & -> & ->).
  split; [|by split]. split_and!; [apply sample_named|right; rewrite lookup_insert_eq; by eexists|by cbn].
Qed.

Lemma sample_started : ∃ s, new_root sample_allocate 0 4096 = Ok s.
Proof.
  destruct (new_root_represents sample_text sample_allocate 0 4096) as [(s & Hs & _)|(size & st & ? & _)];
    [lia|apply sample_allocated|exists s; exact Hs|discriminate].
Qed.

(** Whether the program runs to its end. *)
Definition ends {A} (p : st InnerState Error A) (P : A → InnerState → bool) : bool :=
  match new_root sample_allocate 0 4096 with
  | Ok s => match p s with (s', Ok a) => P a s' | _ => false end
  | _ => false
  end.

Lemma ends_run {A} (p : st InnerState Error A) P : ends p P = true →
  ∃ s s' a, new_root sample_allocate 0 4096 = Ok s ∧ p s = (s', Ok a) ∧ P a s' = true.
Proof.
  unfold ends. intros H. destruct (new_root _ _ _) as [s|e|]; [|done|done].
  destruct (p s) as [s' [a|e|]] eqn:Hp; [|done|done]. by exists s, s', a.
Qed.

(** ** The theorems *)



(** The bytes of the state can be read. *)
Definition read_state `{!FloatNaN} (s : InnerState) : outcome ReaderError PartialNodeHierarchy :=
  match bytes (heap s) with
  | Ok bs => read_bytes_hierarchy bs
  | _ => Panic
  end.


(** The sample makes no array, and opens no transaction. *)
Lemma sample_plays n V : plays sample_client 0 ∅ n V → n = 0 ∧ ∃ ps, shown V = Ok ps.
Proof.
  assert (∀ V, (∀ i e, V !! i = Some e → e_value e = A_Node ∨ e_value e = A_Int 7) → ∃ ps, shown V = Ok ps) as Hshown.
  { intros W HW. unfold shown. assert (Forall (λ x : Z * entry, e_value x.2 = A_Node ∨ e_value x.2 = A_Int 7) (sorted_entries W)) as Hall.
    { apply Forall_forall. intros [i e] Hi%elem_of_sorted_entries. by eapply HW. }
    induction Hall as [|[i e] l He Hl [ps IH]]; [by eexists|]. cbn [snd] in He.
    assert (∃ p, property_of e = Ok p) as [p Hp] by (unfold property_of; destruct He as [-> | ->]; by eexists).
    cbn [try_map snd]. rewrite Hp, IH. by eexists. }
  intros H. inversion H as [|c nx ot n0 V0 r V1 n' V' Hc Hnext|c nx ot n0 V0 n' V' _ Hot]; subst; clear H.
  - destruct Hc as (i & a & -> & _ & _ & -> & ->). cbn in Hnext.
    inversion Hnext as [|c nx ot n0 V0 r V1 n' V' Hc Hrest|c nx ot n0 V0 n' V' _ Hrest]; subst; clear Hnext; inversion Hrest; subst; (split; [done|]);
      apply Hshown; intros j e.
    + destruct Hc as (i' & a & _ & _ & _ & -> & ->).
      intros [[_ <-]|[_ [[_ <-]|[_ ?]]%lookup_insert_Some]]%lookup_insert_Some; [by right|by left|done].
    + intros [[_ <-]|[_ ?]]%lookup_insert_Some; [by left|done].
  - inversion Hot; subst. split; [done|]. apply Hshown. by intros j e ?.
Qed.


(** C9: Values are typed: a command for another type than that of its value fails, and
    leaves the tree as it was unless it writes a buffer; no command changes the type of a
    value. *)
Theorem commands_are_typed `{!HashMapOrder Z Z, !FloatNaN} text n s V c s' r :
  represents text n s V → allowed text n V c → exec c s = (s', r) →
  (∀ i e, subject c = Some i → V !! i = Some e → takes c (e_value e) = false →
     ∃ err, r = Err err ∧ (writes_buffer c = false → represents text n s' V)) ∧
  (∀ a, r = Ok a → ∃ V', represents text (depth c n) s' V' ∧
     ∀ i e e', V !! i = Some e → V' !! i = Some e' → value_type (e_value e') = value_type (e_value e)).
Proof.
  intros Hr Ha Hx. pose proof (exec_wp text n s V c Hr Ha) as Hwp. unfold wp in Hwp. rewrite Hx in Hwp.
  destruct r as [a|err|]; [|destruct Hwp as [_ Hs]|done]; split.
  - intros i e Hsub Hi Ht. destruct Hwp as (V' & He & _). by rewrite (effect_takes _ _ _ _ _ _ He Hsub Hi) in Ht.
  - intros a' [= <-]. destruct Hwp as (V' & He & HV'). exists V'. split; [done|]. intros i e e'. by eapply effect_types.
  - intros i e _ _ _. exists err. split; [done|]. intros Hb. by rewrite Hb in Hs.
  - done.
Qed.

(** A boolean at block 1 is not set as a number. *)
Lemma commands_are_typed_witness : ∃ s V s' r, represents sample_text 0 s V ∧
  exec (SetMetric M_Int 1 7) s = (s', r) ∧ ∃ err, r = Err err ∧ represents sample_text 0 s' V.
Proof.
  destruct (ends_run (exec (CreateBool (sample_name 1) true 0)) (λ r _, bool_decide (r = Some 1)))
    as (s & s' & r & Hs & Hrun & Hr%bool_decide_eq_true); [by vm_compute|].
  destruct (new_root_represents sample_text sample_allocate 0 4096) as [(s0 & Hs0 & Hr0)|(? & ? & Hno & _)];
    [lia|exact sample_allocated| |discriminate Hno].
  assert (s0 = s) as -> by (rewrite Hs in Hs0; injection Hs0; auto). clear Hs Hs0.
  destruct (wp_Ok _ _ _ _ _ _ (exec_wp sample_text 0 s ∅ (CreateBool (sample_name 1) true 0) Hr0 (conj (sample_named 1) (or_introl eq_refl))) Hrun)
    as (V & (i & a & Hi & _ & _ & -> & ->) & HV). clear Hrun.
  assert (i = 1) as -> by congruence.
  destruct (exec (SetMetric M_Int 1 7) s') as [s'' r'] eqn:Hset.
  exists s', (<[1 := mkEntry (data (sample_name 1)) 0 (A_Bool true)]> ∅), s'', r'. split; [exact HV|]. split; [exact Hset|].
  destruct (commands_are_typed sample_text 0 s' _ (SetMetric M_Int 1 7) s'' r' HV) as [Hty _]; [|exact Hset|].
  - split; [|by cbn]. rewrite lookup_insert_eq. by eexists.
  - destruct (Hty 1 _ eq_refl (lookup_insert_eq _ _ _) eq_refl) as (err & He & Hrep). exists err. split; [exact He|]. by apply Hrep.
Defined.

(** C40: The sums and differences of metrics: within their type they are exact, and unsigned
    ones stop at its bounds.  Signed ones do not: a sum below the smallest number becomes the
    largest one, and a difference above the largest number becomes the smallest one. *)
Theorem metric_arithmetic a b :
  (is_u64 a → is_u64 b → safe_add_u64 a b = Z.min (a + b) (u64_size - 1) ∧ safe_sub_u64 a b = Z.max (a - b) 0) ∧
  (i64_min <= a + b <= i64_max → safe_add_i64 a b = a + b) ∧
  (i64_min <= a - b <= i64_max → safe_sub_i64 a b = a - b) ∧
  (a + b < i64_min → safe_add_i64 a b = i64_max) ∧
  (i64_max < a - b → safe_sub_i64 a b = i64_min).
Proof.
  unfold safe_add_u64, safe_sub_u64, safe_add_i64, safe_sub_i64, checked_u64, checked_i64, is_u64, i64_min, i64_max, u64_size.
  split_and!; intros; repeat case_match; cbn; lia.
Qed.

Lemma metric_arithmetic_witness : safe_add_i64 i64_min (-1) = i64_max.
Proof. destruct (metric_arithmetic i64_min (-1)) as (_ & _ & _ & H & _). apply H. by vm_compute. Defined.
