(* ===== verification/InspectTypes.v ===== *)
(** The handles that programs hold
    ([src/lib/diagnostics/inspect/rust/src/writer/types]): nodes and properties share a
    reference to a block of the writer state, which is freed when the last strong one is
    dropped; a node keeps the values recorded in it.  A program is a sequence of calls on
    variables that own handles.  The references that a call takes and gives back while no
    other code runs do not appear. *)
From Stdlib Require Import ZArith Lia.
From stdpp Require Import base gmap strings list.
From S2P Require Import Prelude StateError InspectFormat InspectHeap InspectState InspectWriter.
Local Open Scope Z_scope.

#[export] Instance metric_eq_dec : EqDecision metric.
Proof. solve_decision. Defined.

(** ** References *)

(** [InnerNodeType], [InnerValueType] and [InnerPropertyType]: how the block is freed. *)
Inductive InnerKind := InnerNodeType | InnerValueType | InnerPropertyType.

(** The types of handles: [Node], the numeric properties, [BoolProperty], the string and
    bytes properties and the arrays. *)
Inductive HandleType :=
| T_Node
| T_Metric (m : metric)
| T_Bool
| T_Buffer (f : PropertyFormat)
| T_Array (m : metric).

#[export] Instance HandleType_eq_dec : EqDecision HandleType.
Proof. solve_decision. Defined.

Definition inner_kind (t : HandleType) : InnerKind :=
  match t with
  | T_Node => InnerNodeType
  | T_Buffer _ => InnerPropertyType
  | T_Metric _ | T_Bool | T_Array _ => InnerValueType
  end.

Inductive Inner := I_None | I_Weak (r : Z) | I_Strong (r : Z).

Record Handle := mkHandle { h_type : HandleType; h_inner : Inner }.

(** [new_no_op] and [Default]. *)
Definition no_op (t : HandleType) : Handle := mkHandle t I_None.

(** [InnerRef], with the strong count of its [Arc]; [recorded] is the [ValueList] of a node. *)
Record InnerRef := mkInnerRef {
  strong_count : nat;
  ref_kind : InnerKind;
  ref_block : Z;
  recorded : list Handle;
}.

(** What a program sees: the writer state, the references that exist, and its variables.
    [w_failed] remembers that a command has failed to write the bytes of a buffer. *)
Record World := mkWorld {
  w_state : InnerState;
  w_refs : gmap Z InnerRef;
  w_next : Z;
  w_vars : gmap Z Handle;
  w_failed : bool;
}.

Definition set_refs (refs : gmap Z InnerRef) (w : World) : World :=
  mkWorld (w_state w) refs (w_next w) (w_vars w) (w_failed w).
Definition set_vars (vars : gmap Z Handle) (w : World) : World :=
  mkWorld (w_state w) (w_refs w) (w_next w) vars (w_failed w).

(** A new [InnerRef] in its first [Arc]. *)
Definition add_ref (kind : InnerKind) (block : Z) (w : World) : World :=
  mkWorld (w_state w) (<[w_next w := mkInnerRef 1 kind block []]> (w_refs w)) (w_next w + 1) (w_vars w) (w_failed w).

Definition set_strong (n : nat) (ir : InnerRef) : InnerRef :=
  mkInnerRef n (ref_kind ir) (ref_block ir) (recorded ir).
Definition push_recorded (x : Handle) (ir : InnerRef) : InnerRef :=
  mkInnerRef (strong_count ir) (ref_kind ir) (ref_block ir) (recorded ir ++ [x]).

Definition is_error {E A} (r : outcome E A) : bool := match r with Ok _ => false | _ => true end.

(** Each element in turn. *)
Fixpoint each {S E A} (f : A → st S E unit) (l : list A) : st S E unit :=
  match l with
  | [] => mret tt
  | x :: l => _ ← f x; each f l
  end.

Section handles.
Context `{!HashMapOrder Z Z, !FloatNaN}.

(** [state.try_lock().and_then(..)]. *)
Definition lock_exec (c : command) : st World Error (option Z) := λ w,
  let '(s, r) := exec c (w_state w) in
  (mkWorld s (w_refs w) (w_next w) (w_vars w) (w_failed w || (writes_buffer c && is_error r)), r).

(** [Inner::inner_ref]: a weak reference is upgraded if it still can be. *)
Definition inner_ref (h : Handle) : st World Error (option (Z * InnerRef)) := λ w,
  (w, Ok (match h_inner h with
          | I_None => None
          | I_Weak r | I_Strong r => pair r <$> w_refs w !! r
          end)).

(** [Inner::is_valid]. *)
Definition is_valid (h : Handle) (w : World) : bool :=
  match h_inner h with
  | I_None => false
  | I_Weak r => bool_decide (is_Some (w_refs w !! r))
  | I_Strong _ => true
  end.

(** [Inner::clone_weak]. *)
Definition clone_weak (h : Handle) : Handle :=
  mkHandle (h_type h) (match h_inner h with I_None => I_None | I_Weak r | I_Strong r => I_Weak r end).

(** [InspectTypeInternal::new]. *)
Definition new_handle (t : HandleType) (block : Z) : st World Error Handle :=
  w ← get;
  _ ← modify (add_ref (inner_kind t) block);
  mret (mkHandle t (I_Strong (w_next w))).

(** [InnerType::free] of the three kinds; what names the kind in the error is only seen in
    the message of a panic. *)
Definition free_ref (kind : InnerKind) (block : Z) : st World Error unit :=
  match kind with
  | InnerNodeType =>
    if block =? ROOT_INDEX then mret tt else _ ← lock_exec (FreeValue block); mret tt
  | InnerValueType => _ ← lock_exec (FreeValue block); mret tt
  | InnerPropertyType => _ ← lock_exec (FreeProperty block); mret tt
  end.

(** Dropping the handle, given how an [Arc] is dropped. *)
Definition drop_inner (drop_arc : Z → st World Error unit) (h : Handle) : st World Error unit :=
  match h_inner h with
  | I_Strong r => drop_arc r
  | _ => mret tt
  end.

(** Dropping an [Arc<InnerRef>]: the last one runs [InnerRef::drop] and then drops the
    recorded values. *)
Fixpoint drop_arc (fuel : nat) (r : Z) : st World Error unit :=
  match fuel with
  | O => panic
  | S fuel =>
    w ← get;
    match w_refs w !! r with
    | None => panic
    | Some ir =>
      match strong_count ir with
      | S (S n) => modify (set_refs (<[r := set_strong (S n) ir]> (w_refs w)))
      | _ =>
        _ ← modify (set_refs (delete r (w_refs w)));
        _ ← unwrap (free_ref (ref_kind ir) (ref_block ir));
        each (drop_inner (drop_arc fuel)) (recorded ir)
      end
    end
  end.

Definition drop_handle (h : Handle) : st World Error unit :=
  w ← get; drop_inner (drop_arc (S (size (w_refs w)))) h.

(** ** Nodes *)

(** The functions of [Node] that create a value below it; an error gives a handle that
    does nothing. *)
Definition create (t : HandleType) (node : Handle) (c : Z → command) : st World Error Handle :=
  ir ← inner_ref node;
  match ir with
  | None => mret (no_op t)
  | Some (_, ir) =>
    r ← attempt (lock_exec (c (ref_block ir)));
    match r with
    | inl (Some block) => new_handle t block
    | _ => mret (no_op t)
    end
  end.

Definition create_child (node : Handle) (name : StringRef) := create T_Node node (CreateNode name).
Definition create_int (node : Handle) (name : StringRef) (v : Z) :=
  create (T_Metric M_Int) node (CreateMetric M_Int name v).
Definition create_uint (node : Handle) (name : StringRef) (v : Z) :=
  create (T_Metric M_Uint) node (CreateMetric M_Uint name v).
Definition create_double (node : Handle) (name : StringRef) (v : Z) :=
  create (T_Metric M_Double) node (CreateMetric M_Double name v).
Definition create_bool_property (node : Handle) (name : StringRef) (v : bool) :=
  create T_Bool node (CreateBool name v).
Definition create_string (node : Handle) (name : StringRef) (v : list Z) :=
  create (T_Buffer PF_String) node (CreateProperty name v PF_String).
Definition create_bytes (node : Handle) (name : StringRef) (v : list Z) :=
  create (T_Buffer PF_Bytes) node (CreateProperty name v PF_Bytes).
Definition create_int_array_internal (node : Handle) (name : StringRef) (slots : Z) (f : ArrayFormat) :=
  create (T_Array M_Int) node (CreateArray M_Int name slots f).
Definition create_uint_array_internal (node : Handle) (name : StringRef) (slots : Z) (f : ArrayFormat) :=
  create (T_Array M_Uint) node (CreateArray M_Uint name slots f).
Definition create_double_array_internal (node : Handle) (name : StringRef) (slots : Z) (f : ArrayFormat) :=
  create (T_Array M_Double) node (CreateArray M_Double name slots f).

(** [Node::record] and [ValueList::record]; a node that is gone drops the value. *)
Definition record (node x : Handle) : st World Error unit :=
  ir ← inner_ref node;
  match ir with
  | Some (r, ir) => modify (λ w, set_refs (<[r := push_recorded x ir]> (w_refs w)) w)
  | None => drop_handle x
  end.

(** [Node::adopt] and [InspectTypeReparentable::reparent], for values of one VMO. *)
Definition adopt (node child : Handle) : st World Error unit :=
  child_ref ← inner_ref child;
  new_parent ← inner_ref node;
  match child_ref, new_parent with
  | Some (_, c), Some (_, p) => _ ← lock_exec (Reparent (ref_block c) (ref_block p)); mret tt
  | _, _ => mret tt
  end.

(** [Node::atomic_update]: the reference is kept while [update_fn] runs. *)
Definition atomic_update (node : Handle) (update_fn : st World Error unit) : st World Error unit :=
  ir ← inner_ref node;
  match ir with
  | None => update_fn
  | Some (r, ir) =>
    _ ← modify (λ w, set_refs (<[r := set_strong (S (strong_count ir)) ir]> (w_refs w)) w);
    _ ← unwrap (lock_exec BeginTransaction);
    result ← update_fn;
    _ ← unwrap (lock_exec EndTransaction);
    w ← get;
    _ ← drop_arc (S (size (w_refs w))) r;
    mret result
  end.

(** [Node::new_root]. *)
Definition new_root_node : st World Error Handle := new_handle T_Node ROOT_INDEX.

(** ** Properties *)

(** The methods of properties that return nothing: errors are logged. *)
Definition set_with (x : Handle) (c : Z → command) : st World Error unit :=
  ir ← inner_ref x;
  match ir with
  | None => mret tt
  | Some (_, ir) => _ ← attempt (F := Error) (lock_exec (c (ref_block ir))); mret tt
  end.

(** [NumericProperty::get]. *)
Definition get_with (x : Handle) (c : Z → command) : st World Error (option Z) :=
  ir ← inner_ref x;
  match ir with
  | None => throw (NoOp (str "Property"))
  | Some (_, ir) => lock_exec (c (ref_block ir))
  end.

Definition property_set (m : metric) (x : Handle) (v : Z) := set_with x (λ i, SetMetric m i v).
Definition property_add (m : metric) (x : Handle) (v : Z) := set_with x (λ i, AddMetric m i v).
Definition property_subtract (m : metric) (x : Handle) (v : Z) := set_with x (λ i, SubtractMetric m i v).
Definition property_get (m : metric) (x : Handle) := get_with x (GetMetric m).
Definition bool_set (x : Handle) (v : bool) := set_with x (λ i, SetBool i v).
Definition buffer_set (x : Handle) (v : list Z) := set_with x (λ i, SetProperty i v).
Definition array_set (m : metric) (x : Handle) (j v : Z) := set_with x (λ i, SetSlot m i j v).
Definition array_add (m : metric) (x : Handle) (j v : Z) := set_with x (λ i, AddSlot m i j v).
Definition array_subtract (m : metric) (x : Handle) (j v : Z) := set_with x (λ i, SubtractSlot m i j v).
Definition array_clear_all (x : Handle) := set_with x (λ i, ClearArray i 0).

(** ** Programs *)

(** What a node can make. *)
Inductive creation :=
| New_Node
| New_Metric (m : metric) (v : Z)
| New_Bool (v : bool)
| New_Buffer (f : PropertyFormat) (v : list Z)
| New_Array (m : metric) (slots : Z) (f : ArrayFormat).

Definition creation_type (c : creation) : HandleType :=
  match c with
  | New_Node => T_Node
  | New_Metric m _ => T_Metric m
  | New_Bool _ => T_Bool
  | New_Buffer f _ => T_Buffer f
  | New_Array m _ _ => T_Array m
  end.

Definition make (node : Handle) (name : StringRef) (c : creation) : st World Error Handle :=
  match c with
  | New_Node => create_child node name
  | New_Metric M_Int v => create_int node name v
  | New_Metric M_Uint v => create_uint node name v
  | New_Metric M_Double v => create_double node name v
  | New_Bool v => create_bool_property node name v
  | New_Buffer PF_String v => create_string node name v
  | New_Buffer PF_Bytes v => create_bytes node name v
  | New_Array M_Int slots f => create_int_array_internal node name slots f
  | New_Array M_Uint slots f => create_uint_array_internal node name slots f
  | New_Array M_Double slots f => create_double_array_internal node name slots f
  end.

(** What can be done to a property. *)
Inductive update :=
| U_Set (m : metric) (v : Z)
| U_Add (m : metric) (v : Z)
| U_Subtract (m : metric) (v : Z)
| U_SetBool (v : bool)
| U_SetBuffer (f : PropertyFormat) (v : list Z)
| U_SetSlot (m : metric) (j v : Z)
| U_AddSlot (m : metric) (j v : Z)
| U_SubtractSlot (m : metric) (j v : Z)
| U_Clear (m : metric).

Definition update_type (u : update) : HandleType :=
  match u with
  | U_Set m _ | U_Add m _ | U_Subtract m _ => T_Metric m
  | U_SetBool _ => T_Bool
  | U_SetBuffer f _ => T_Buffer f
  | U_SetSlot m _ _ | U_AddSlot m _ _ | U_SubtractSlot m _ _ | U_Clear m => T_Array m
  end.

Definition apply_update (x : Handle) (u : update) : st World Error unit :=
  match u with
  | U_Set m v => property_set m x v
  | U_Add m v => property_add m x v
  | U_Subtract m v => property_subtract m x v
  | U_SetBool v => bool_set x v
  | U_SetBuffer _ v => buffer_set x v
  | U_SetSlot m j v => array_set m x j v
  | U_AddSlot m j v => array_add m x j v
  | U_SubtractSlot m j v => array_subtract m x j v
  | U_Clear _ => array_clear_all x
  end.

(** Calls on variables. *)
Inductive program :=
| Finish
| Make (dst node : Z) (name : StringRef) (c : creation) (rest : program)
| Apply (x : Z) (u : update) (rest : program)
| CloneWeak (dst x : Z) (rest : program)
| RecordIn (node x : Z) (rest : program)
| DropVar (x : Z) (rest : program)
| Adopt (node x : Z) (rest : program)
| Atomic (node : Z) (body rest : program).

Fixpoint append (p q : program) : program :=
  match p with
  | Finish => q
  | Make dst node name c rest => Make dst node name c (append rest q)
  | Apply x u rest => Apply x u (append rest q)
  | CloneWeak dst x rest => CloneWeak dst x (append rest q)
  | RecordIn node x rest => RecordIn node x (append rest q)
  | DropVar x rest => DropVar x (append rest q)
  | Adopt node x rest => Adopt node x (append rest q)
  | Atomic node body rest => Atomic node body (append rest q)
  end.

(** [record_int] and its siblings: the new value passes through the variable [x]. *)
Definition record_value (x node : Z) (name : StringRef) (c : creation) (rest : program) : program :=
  Make x node name c (RecordIn node x rest).

(** [Node::record_child]; [initialize] finds the child in the variable [x]. *)
Definition record_child (x node : Z) (name : StringRef) (initialize rest : program) : program :=
  Atomic node (Make x node name New_Node (append initialize (RecordIn node x Finish))) rest.

(** A variable that holds nothing reads as a default value. *)
Definition var (x : Z) : st World Error Handle := λ w, (w, Ok (default (no_op T_Node) (w_vars w !! x))).

(** Moving a handle out of a variable, and into one, which drops what it held. *)
Definition take_var (x : Z) : st World Error Handle :=
  h ← var x; _ ← modify (λ w, set_vars (delete x (w_vars w)) w); mret h.
Definition assign (x : Z) (h : Handle) : st World Error unit :=
  old ← take_var x;
  _ ← drop_handle old;
  modify (λ w, set_vars (<[x := h]> (w_vars w)) w).

Fixpoint run_program (p : program) : st World Error unit :=
  match p with
  | Finish => mret tt
  | Make dst node name c rest =>
    node ← var node; h ← make node name c; _ ← assign dst h; run_program rest
  | Apply x u rest => x ← var x; _ ← apply_update x u; run_program rest
  | CloneWeak dst x rest => x ← var x; _ ← assign dst (clone_weak x); run_program rest
  | RecordIn node x rest => x ← take_var x; node ← var node; _ ← record node x; run_program rest
  | DropVar x rest => x ← take_var x; _ ← drop_handle x; run_program rest
  | Adopt node x rest =>
    node ← var node; x ← var x; _ ← attempt (F := Error) (adopt node x); run_program rest
  | Atomic node body rest =>
    node ← var node; _ ← atomic_update node (run_program body); run_program rest
  end.
End handles.

(** ** Types of programs *)

(** The variables that own a handle after the program, with their types; [None] where the
    compiler rejects it.  What [atomic_update] borrows cannot be moved in its body. *)
Fixpoint check (borrowed : gset Z) (p : program) (G : gmap Z HandleType) : option (gmap Z HandleType) :=
  match p with
  | Finish => Some G
  | Make dst node name c rest =>
    if bool_decide (G !! node = Some T_Node ∧ dst ∉ borrowed) then
      check borrowed rest (<[dst := creation_type c]> G)
    else None
  | Apply x u rest => if bool_decide (G !! x = Some (update_type u)) then check borrowed rest G else None
  | CloneWeak dst x rest =>
    if bool_decide (G !! x = Some T_Node ∧ dst ∉ borrowed) then check borrowed rest (<[dst := T_Node]> G) else None
  | RecordIn node x rest =>
    if bool_decide (G !! node = Some T_Node ∧ is_Some (G !! x) ∧ node ≠ x ∧ x ∉ borrowed) then
      check borrowed rest (delete x G)
    else None
  | DropVar x rest =>
    if bool_decide (is_Some (G !! x) ∧ x ∉ borrowed) then check borrowed rest (delete x G) else None
  | Adopt node x rest =>
    if bool_decide (G !! node = Some T_Node ∧ is_Some (G !! x)) then check borrowed rest G else None
  | Atomic node body rest =>
    if bool_decide (G !! node = Some T_Node) then
      G ← check ({[node]} ∪ borrowed) body G; check borrowed rest G
    else None
  end.

(** Numbers are in the range of their types, bytes are bytes and fit. *)
Definition creation_ok (c : creation) : Prop :=
  match c with
  | New_Metric m v => metric_ok m v
  | New_Buffer _ v => bytes_fit v
  | New_Array _ slots _ => slots_fit slots
  | _ => True
  end.

Definition update_ok (u : update) : Prop :=
  match u with
  | U_Set m v | U_Add m v | U_Subtract m v => metric_ok m v
  | U_SetBuffer _ v => bytes_fit v
  | U_SetSlot _ j _ | U_AddSlot _ j _ | U_SubtractSlot _ j _ => 0 <= j
  | _ => True
  end.

(** A program with the root of a new inspector in variable 0. *)
Definition start_world (s : InnerState) : World := mkWorld s ∅ 0 ∅ false.

Definition run_inspector `{!HashMapOrder Z Z, !FloatNaN} (p : program) : st World Error unit :=
  root ← new_root_node; _ ← assign 0 root; run_program p.
