(* ===== verification/InspectHandles.v ===== *)
(** Handles are safe: in a program that the compiler accepts, every handle that is not a
    no-op refers to a live value of its type, a value is in the tree as long as something
    holds its reference, and dropping a handle does not panic, as long as the bytes of every
    buffer could be written. *)
From Stdlib Require Import ZArith Lia.
From stdpp Require Import base gmap strings list.
From S2P Require Import Prelude StateError InspectFormat InspectHeap InspectState InspectReader InspectObjects InspectTree InspectValues InspectOperations.
From S2P Require Import InspectWriter InspectCommands InspectClient InspectContract InspectTypes.
Local Open Scope Z_scope.

Implicit Types (V : tree) (refs : gmap Z InnerRef) (A : list Handle) (holds : list Z).

(** ** Occurrences *)

Definition occ (r : Z) (l : list Z) : nat := length (filter (λ x, x = r) l).

Lemma occ_app r l l' : occ r (l ++ l') = (occ r l + occ r l')%nat.
Proof. unfold occ. by rewrite filter_app, length_app. Qed.

Lemma occ_cons r x l : occ r (x :: l) = ((if decide (x = r) then 1 else 0) + occ r l)%nat.
Proof. unfold occ. rewrite filter_cons. by case_decide. Qed.

#[export] Instance occ_Permutation r : Proper (Permutation ==> eq) (occ r).
Proof. intros l l' Hl. unfold occ. by rewrite Hl. Qed.

Lemma occ_pos r l : r ∈ l → (0 < occ r l)%nat.
Proof. induction 1 as [|? ? ? _ IH]; rewrite occ_cons; [rewrite decide_True by done|]; lia. Qed.

Lemma occ_elem r l : (0 < occ r l)%nat → r ∈ l.
Proof.
  induction l as [|x l IH]; [cbn; lia|]. rewrite occ_cons, elem_of_cons. case_decide; [by left|]. right. apply IH. lia.
Qed.

(** The references that handles keep alive. *)
Definition strong (h : Handle) : option Z := match h_inner h with I_Strong r => Some r | _ => None end.
Definition strongs A : list Z := omap strong A.

#[export] Instance strongs_Permutation : Proper (Permutation ==> Permutation) strongs.
Proof. intros l l' Hl. unfold strongs. by rewrite Hl. Qed.

Lemma strongs_app A A' : strongs (A ++ A') = strongs A ++ strongs A'.
Proof. apply omap_app. Qed.

(** ** The invariant *)

Definition type_of (t : HandleType) : BlockType * option BlockType :=
  match t with
  | T_Node => (NodeValue, None)
  | T_Metric m => (metric_type m, None)
  | T_Bool => (BoolValue, None)
  | T_Buffer _ => (BufferValue, None)
  | T_Array m => (ArrayValue, Some (metric_type m))
  end.

(** The reference is to the root, or to a value of the type. *)
Definition ref_typed V (ir : InnerRef) (t : HandleType) : Prop :=
  ref_kind ir = inner_kind t ∧
  ((t = T_Node ∧ ref_block ir = 0) ∨ ∃ e, V !! ref_block ir = Some e ∧ value_type (e_value e) = type_of t).

Definition handle_ok refs (next : Z) V (h : Handle) : Prop :=
  match h_inner h with
  | I_None => True
  | I_Weak r => r < next ∧ ∀ ir, refs !! r = Some ir → ref_typed V ir (h_type h)
  | I_Strong r => ∃ ir, refs !! r = Some ir ∧ ref_typed V ir (h_type h)
  end.

(** [A] are all the handles there are, and [holds] the references that running calls keep. *)
Record core refs (next : Z) V A holds : Prop := {
  core_fresh : ∀ r, is_Some (refs !! r) → r < next;
  core_count : ∀ r ir, refs !! r = Some ir → strong_count ir = occ r (strongs A ++ holds) ∧ (0 < strong_count ir)%nat;
  core_typed : ∀ r ir, refs !! r = Some ir → ∃ t, ref_typed V ir t;
  core_once : ∀ r r' ir ir', refs !! r = Some ir → refs !! r' = Some ir' → ref_block ir = ref_block ir' → r = r';
  core_value : ∀ i e, V !! i = Some e → ∃ r ir, refs !! r = Some ir ∧ ref_block ir = i;
  core_handle : ∀ h, h ∈ A → handle_ok refs next V h;
  core_hold : ∀ r, r ∈ holds → is_Some (refs !! r);
  core_root : V !! 0 = None;
}.

(** The handles in variables and in the lists of nodes. *)
Definition stored_handles (vars : gmap Z Handle) refs : list Handle :=
  (map_to_list vars).*2 ++ (map_to_list refs ≫= λ x, recorded x.2).

Section invariant.
Context (text : Z → rstring).

Definition inv (w : World) (n : Z) V (hand : list Handle) holds : Prop :=
  represents text n (w_state w) V ∧ core (w_refs w) (w_next w) V (stored_handles (w_vars w) (w_refs w) ++ hand) holds.
End invariant.

Lemma core_Permutation refs next V A A' holds : A ≡ₚ A' → core refs next V A holds → core refs next V A' holds.
Proof.
  intros Hp [H1 H2 H3 H4 H5 H6 H7 H8]. split; try done.
  - intros r ir Hr. rewrite <- Hp. by apply H2.
  - intros h. rewrite <- Hp. apply H6.
Qed.

Lemma stored_take_var vars refs x h : vars !! x = Some h → stored_handles vars refs ≡ₚ h :: stored_handles (delete x vars) refs.
Proof. intros Hx. unfold stored_handles. by rewrite <- (map_to_list_delete vars x h Hx). Qed.

Lemma stored_put_var vars refs x h : vars !! x = None → stored_handles (<[x := h]> vars) refs ≡ₚ h :: stored_handles vars refs.
Proof. intros Hx. unfold stored_handles. by rewrite map_to_list_insert. Qed.

Lemma stored_put_ref vars refs r ir : refs !! r = None →
  stored_handles vars (<[r := ir]> refs) ≡ₚ recorded ir ++ stored_handles vars refs.
Proof. intros Hr. unfold stored_handles. rewrite map_to_list_insert by done. cbn. apply Permutation_app_swap_app. Qed.

Lemma stored_take_ref vars refs r ir : refs !! r = Some ir →
  stored_handles vars refs ≡ₚ recorded ir ++ stored_handles vars (delete r refs).
Proof.
  intros Hr. rewrite <- (insert_delete_id refs r ir Hr) at 1. apply stored_put_ref, lookup_delete_eq.
Qed.

Lemma stored_set_ref vars refs r ir ir' l : refs !! r = Some ir → recorded ir' = recorded ir ++ l →
  stored_handles vars (<[r := ir']> refs) ≡ₚ l ++ stored_handles vars refs.
Proof.
  intros Hr Hl. rewrite (stored_take_ref vars refs r ir Hr), <- (insert_delete_eq refs), stored_put_ref by apply lookup_delete_eq.
  rewrite Hl. by rewrite (Permutation_app_comm (recorded ir) l), <- app_assoc.
Qed.

(** ** The tree changes *)

Section core.
Context {refs : gmap Z InnerRef} {next : Z} {V : tree} {A : list Handle} {holds : list Z}.
Context (Hc : core refs next V A holds).

Lemma ref_typed_mono V' ir t : (∀ i e, V !! i = Some e → ∃ e', V' !! i = Some e' ∧ value_type (e_value e') = value_type (e_value e)) →
  ref_typed V ir t → ref_typed V' ir t.
Proof using.
  intros HV [Hk [H0|(e & He & Ht)]]; split; try done; [by left|right].
  destruct (HV _ _ He) as (e' & He' & Ht'). exists e'. split; [done|congruence].
Qed.

(** Values keep their types, and none come or go. *)
Lemma core_retyped V' : (∀ i e, V !! i = Some e → ∃ e', V' !! i = Some e' ∧ value_type (e_value e') = value_type (e_value e)) →
  (∀ i, is_Some (V' !! i) → is_Some (V !! i)) → core refs next V' A holds.
Proof using Hc.
  intros HV HV'. destruct Hc as [H1 H2 H3 H4 H5 H6 H7 H8]. split; try done.
  - intros r ir Hr. destruct (H3 r ir Hr) as [t Ht]. exists t. by eapply ref_typed_mono.
  - intros i e He. destruct (HV' i) as [e0 He0]; [by eexists|]. by eapply H5.
  - intros h Hh. specialize (H6 h Hh). unfold handle_ok in *. destruct (h_inner h); [done|..].
    + destruct H6 as [Hlt Hty]. split; [done|]. intros ir Hir. eapply ref_typed_mono; [done|by apply Hty].
    + destruct H6 as (ir & Hir & Hty). exists ir. split; [done|]. by eapply ref_typed_mono.
  - destruct (V' !! 0) eqn:E; [|done]. destruct (HV' 0) as [e0 He0]; [by eexists|]. congruence.
Qed.

(** A reference changes, but not what it refers to. *)
Lemma core_set_ref r ir ir' A' holds' : refs !! r = Some ir → ref_kind ir' = ref_kind ir → ref_block ir' = ref_block ir →
  strong_count ir' = occ r (strongs A' ++ holds') → (0 < strong_count ir')%nat →
  (∀ r', r' ≠ r → occ r' (strongs A' ++ holds') = occ r' (strongs A ++ holds)) →
  (∀ h, h ∈ A' → h ∈ A) → (∀ r', r' ∈ holds' → r' = r ∨ r' ∈ holds) →
  core (<[r := ir']> refs) next V A' holds'.
Proof using Hc.
  intros Hr Hk Hb Hs Hs0 Hocc HA Hh. destruct Hc as [H1 H2 H3 H4 H5 H6 H7 H8].
  assert (∀ r' x, <[r := ir']> refs !! r' = Some x → ∃ y, refs !! r' = Some y ∧ ref_kind x = ref_kind y ∧ ref_block x = ref_block y) as Hold.
  { intros r' x [[<- <-]|[Hne Hx]]%lookup_insert_Some; [by exists ir|by exists x]. }
  assert (∀ x y t, ref_kind x = ref_kind y → ref_block x = ref_block y → ref_typed V y t → ref_typed V x t) as Hty.
  { intros x y t Hxk Hxb [? ?]. split; [congruence|by rewrite Hxb]. }
  split; try done.
  - intros r' [x Hx]. destruct (Hold _ _ Hx) as (y & Hy & _). apply H1. by eexists.
  - intros r' x [[<- <-]|[Hne Hx]]%lookup_insert_Some; [done|]. rewrite Hocc by done. by apply H2.
  - intros r' x Hx. destruct (Hold _ _ Hx) as (y & Hy & ? & ?). destruct (H3 _ _ Hy) as [t Ht]. exists t. by eapply Hty.
  - intros r1 r2 x1 x2 Hx1 Hx2 E. destruct (Hold _ _ Hx1) as (y1 & Hy1 & _ & ?). destruct (Hold _ _ Hx2) as (y2 & Hy2 & _ & ?).
    eapply H4; [exact Hy1|exact Hy2|congruence].
  - intros i e He. destruct (H5 i e He) as (r' & x & Hx & Hxb). destruct (decide (r' = r)) as [->|].
    + exists r, ir'. rewrite lookup_insert_eq. split; [done|congruence].
    + exists r', x. by rewrite lookup_insert_ne.
  - intros h Hin%HA. specialize (H6 h Hin). unfold handle_ok in *. destruct (h_inner h) as [|r'|r']; [done|..].
    + destruct H6 as [Hlt Hw]. split; [done|]. intros x Hx. destruct (Hold _ _ Hx) as (y & Hy & ? & ?). eapply Hty; [done|done|by apply Hw].
    + destruct H6 as (y & Hy & Ht). destruct (decide (r' = r)) as [->|].
      * exists ir'. rewrite lookup_insert_eq. split; [done|]. rewrite Hr in Hy. injection Hy as <-. by eapply Hty.
      * exists y. by rewrite lookup_insert_ne.
  - intros r' [->|Hin]%Hh; [rewrite lookup_insert_eq; by eexists|]. apply lookup_insert_is_Some'. right. by apply H7.
Qed.

(** A value comes with the first handle to it. *)
Lemma core_new i e t : i ≠ 0 → V !! i = None → value_type (e_value e) = type_of t →
  core (<[next := mkInnerRef 1 (inner_kind t) i []]> refs) (next + 1) (<[i := e]> V) (mkHandle t (I_Strong next) :: A) holds.
Proof using Hc.
  intros Hi0 Hi Ht. destruct Hc as [H1 H2 H3 H4 H5 H6 H7 H8].
  assert (refs !! next = None) as Hn by (apply eq_None_not_Some; intros Hx%H1; lia).
  assert (∀ h, h ∈ A → strong h ≠ Some next) as HA.
  { intros h Hh Hs. specialize (H6 h Hh). unfold strong, handle_ok in *. destruct (h_inner h); try done. injection Hs as ->.
    destruct H6 as (ir & Hir & _). congruence. }
  assert (occ next (strongs A ++ holds) = 0%nat) as Hocc.
  { destruct (occ next (strongs A ++ holds)) eqn:E; [done|]. assert (next ∈ strongs A ++ holds) as [Hin|Hin%H7]%elem_of_app by (apply occ_elem; lia).
    - apply list_elem_of_omap in Hin as (h & Hh & Hs). by destruct (HA h Hh).
    - rewrite Hn in Hin. by destruct Hin. }
  assert (∀ ir t', ref_typed V ir t' → ref_typed (<[i := e]> V) ir t') as Hty.
  { intros ir t'. apply ref_typed_mono. intros j e' He'. exists e'. rewrite lookup_insert_ne by congruence. done. }
  assert (∀ r ir, refs !! r = Some ir → ref_block ir ≠ i) as Hb.
  { intros r ir Hr E. destruct (H3 r ir Hr) as (t' & _ & [[_ ?]|(e' & He' & _)]); congruence. }
  split.
  - intros r [x [[<- <-]|[Hne Hx]]%lookup_insert_Some]; [lia|]. specialize (H1 r ltac:(by eexists)). lia.
  - intros r ir. change (strongs (mkHandle t (I_Strong next) :: A)) with (next :: strongs A). cbn [app]. rewrite occ_cons.
    intros [[<- <-]|[Hne Hx]]%lookup_insert_Some.
    + rewrite decide_True, Hocc by done. cbn. lia.
    + rewrite decide_False by done. by apply H2.
  - intros r ir [[<- <-]|[Hne Hx]]%lookup_insert_Some.
    + exists t. split; [done|]. right. exists e. by rewrite lookup_insert_eq.
    + destruct (H3 r ir Hx) as [t' Ht']. exists t'. by apply Hty.
  - intros r r' ir ir' [[<- <-]|[Hne Hx]]%lookup_insert_Some [[<- <-]|[Hne' Hx']]%lookup_insert_Some E; [done|..].
    + by destruct (Hb _ _ Hx').
    + by destruct (Hb _ _ Hx).
    + by eapply H4.
  - intros j e' [[<- <-]|[Hne He']]%lookup_insert_Some; [eexists next, _; by rewrite lookup_insert_eq|].
    destruct (H5 j e' He') as (r & ir & Hr & Hrb). exists r, ir. rewrite lookup_insert_ne by congruence. done.
  - intros h [->|Hh]%elem_of_cons.
    + cbn. eexists. rewrite lookup_insert_eq. split; [done|]. split; [done|]. right. exists e. by rewrite lookup_insert_eq.
    + specialize (H6 h Hh). unfold handle_ok in *. destruct (h_inner h) as [|r|r]; [done|..].
      * destruct H6 as [Hlt Hw]. split; [lia|]. intros ir [[<- _]|[_ Hx]]%lookup_insert_Some; [lia|]. by apply Hty, Hw.
      * destruct H6 as (ir & Hir & Htyp). exists ir. rewrite lookup_insert_ne by congruence. split; [done|by apply Hty].
  - intros r Hr%H7. apply lookup_insert_is_Some'. by right.
  - by rewrite lookup_insert_ne.
Qed.
End core.

Section drop.
Context {refs : gmap Z InnerRef} {next : Z} {V : tree} {A : list Handle} {holds : list Z}.

(** A handle is dropped: until its reference is given back, it is held. *)
Lemma core_to_hold h r : strong h = Some r → core refs next V (h :: A) holds → core refs next V A (r :: holds).
Proof using.
  intros Hs [H1 H2 H3 H4 H5 H6 H7 H8]. split; try done.
  - intros r' ir Hr. rewrite <- Permutation_middle. destruct (H2 r' ir Hr) as [-> ?]. split; [|done].
    unfold strongs. cbn. by rewrite Hs.
  - intros h' Hh. apply H6. by right.
  - intros r' [->|Hin]%elem_of_cons; [|by apply H7]. specialize (H6 h ltac:(by left)). unfold handle_ok, strong in *.
    destruct (h_inner h); try done. injection Hs as ->. destruct H6 as (ir & Hir & _). by eexists.
Qed.

Lemma core_drop h : strong h = None → core refs next V (h :: A) holds → core refs next V A holds.
Proof using.
  intros Hs [H1 H2 H3 H4 H5 H6 H7 H8]. split; try done.
  - intros r' ir Hr. destruct (H2 r' ir Hr) as [-> ?]. split; [|done]. unfold strongs. cbn. by rewrite Hs.
  - intros h' Hh. apply H6. by right.
Qed.

Lemma core_learn h : strong h = None → handle_ok refs next V h → core refs next V A holds → core refs next V (h :: A) holds.
Proof using.
  intros Hs Hh [H1 H2 H3 H4 H5 H6 H7 H8]. split; try done.
  - intros r' ir Hr. destruct (H2 r' ir Hr) as [-> ?]. split; [|done]. unfold strongs. cbn. by rewrite Hs.
  - intros h' [->|Hin]%elem_of_cons; [done|]. by apply H6.
Qed.

(** The last reference to a value goes, and the value with it. *)
Lemma core_delete r ir : refs !! r = Some ir → strong_count ir = 1%nat → core refs next V A (r :: holds) →
  core (delete r refs) next (delete (ref_block ir) V) A holds.
Proof using.
  intros Hr Hs [H1 H2 H3 H4 H5 H6 H7 H8]. destruct (H2 r ir Hr) as [Hocc _].
  rewrite Hs, <- Permutation_middle, occ_cons, decide_True in Hocc by done.
  assert (r ∉ strongs A ++ holds) as Hno by (intros Hin%occ_pos; lia). rewrite elem_of_app in Hno.
  assert (∀ r' ir' t, refs !! r' = Some ir' → r' ≠ r → ref_typed V ir' t → ref_typed (delete (ref_block ir) V) ir' t) as Hty.
  { intros r' ir' t Hr' Hne [Hk [Ht|(e & He & Ht)]]; split; try done; [by left|right]. exists e. split; [|done].
    rewrite lookup_delete_ne; [done|]. intros E. apply Hne. by eapply H4. }
  split.
  - intros r' [x [_ Hx]%lookup_delete_Some]. apply H1. by eexists.
  - intros r' x [Hne Hx]%lookup_delete_Some. destruct (H2 r' x Hx) as [-> ?]. split; [|done].
    rewrite <- Permutation_middle, occ_cons, decide_False by done. done.
  - intros r' x [Hne Hx]%lookup_delete_Some. destruct (H3 r' x Hx) as [t Ht]. exists t. by eapply Hty.
  - intros r1 r2 x1 x2 [_ Hx1]%lookup_delete_Some [_ Hx2]%lookup_delete_Some. by eapply H4.
  - intros i e [Hne He]%lookup_delete_Some. destruct (H5 i e He) as (r' & x & Hx & Hxb). exists r', x.
    rewrite lookup_delete_ne by congruence. done.
  - intros h Hh. specialize (H6 h Hh). unfold handle_ok in *. destruct (h_inner h) as [|r'|r'] eqn:Eh; [done|..].
    + destruct H6 as [Hlt Hw]. split; [done|]. intros x [Hne Hx]%lookup_delete_Some. eapply Hty; [done|done|by apply Hw].
    + destruct H6 as (x & Hx & Ht). assert (r' ≠ r) as Hne.
      { intros ->. apply Hno. left. apply list_elem_of_omap. exists h. unfold strong. by rewrite Eh. }
      exists x. rewrite lookup_delete_ne by done. split; [done|]. by eapply Hty.
  - intros r' Hin. rewrite lookup_delete_ne; [by apply H7; right|]. intros ->. tauto.
  - apply lookup_delete_None. by right.
Qed.
End drop.

(** ** Until the write of a buffer fails *)

Definition failed (w : World) : Prop := w_failed w = true.

Definition wpf {C} (m : st World Error C) (w : World) (Q : C → World → Prop) (R : Error → World → Prop) : Prop :=
  failed (m w).1 ∨ wp m w Q R.

Lemma wpf_bind {C D} (m : st World Error C) (f : C → st World Error D) w Q R :
  (∀ a, keeps failed (f a)) → wpf m w (λ a w', wpf (f a) w' Q R) R → wpf (m ≫= f) w Q R.
Proof.
  intros Hf. unfold wpf, wp, mbind, st_bind. destruct (m w) as [w' [a|e|]]; cbn; [|done|done].
  intros [H|H]; [left; by apply Hf|exact H].
Qed.

Lemma wpf_wp {C} (m : st World Error C) w Q R : wp m w Q R → wpf m w Q R.
Proof. by right. Qed.

(** A step that is known. *)
Lemma wpf_step {C D} (m : st World Error C) (f : C → st World Error D) w w' a Q R :
  m w = (w', Ok a) → wpf (f a) w' Q R → wpf (m ≫= f) w Q R.
Proof. intros Hm. unfold wpf, wp, mbind, st_bind. by rewrite Hm. Qed.

Lemma wpf_mono {C} (m : st World Error C) w (Q Q' : C → World → Prop) (R R' : Error → World → Prop) :
  wpf m w Q R → (∀ a w', Q a w' → Q' a w') → (∀ e w', R e w' → R' e w') → wpf m w Q' R'.
Proof. intros [H|H] HQ HR; [by left|right]. by eapply wp_mono. Qed.

Lemma wpf_unwrap {C} (m : st World Error C) w Q R : wpf m w Q (λ _ _, False) → wpf (unwrap m) w Q R.
Proof. intros [H|H]; [left|right; by apply wp_unwrap]. unfold unwrap. by destruct (m w) as [w' []]. Qed.

Lemma wpf_attempt {C} (m : st World Error C) w (Q : C + Error → World → Prop) (R : Error → World → Prop) :
  wpf m w (λ a, Q (inl a)) (λ e, Q (inr e)) → wpf (attempt m) w Q R.
Proof. intros [H|H]; [left|right; by apply wp_attempt]. unfold attempt. by destruct (m w) as [w' []]. Qed.

Section keeps.
Context `{!HashMapOrder Z Z, !FloatNaN}.

Lemma keeps_lock_exec c : keeps failed (lock_exec c).
Proof. intros w Hw. unfold lock_exec, failed in *. destruct (exec c (w_state w)) as [s r]. cbn. by rewrite Hw. Qed.

Lemma keeps_inner_ref h : keeps failed (inner_ref h).
Proof. by intros w Hw. Qed.

Lemma keeps_var x : keeps failed (var x).
Proof. by intros w Hw. Qed.

Lemma keeps_set (f : World → World) : (∀ w, w_failed (f w) = w_failed w) → keeps failed (modify f : st World Error unit).
Proof. intros Hf. apply keeps_modify. intros w Hw. unfold failed. by rewrite Hf. Qed.

Hint Resolve keeps_lock_exec keeps_inner_ref keeps_var : keeps.
Hint Extern 1 (keeps failed (modify _)) => by apply keeps_set : keeps.

Lemma failed_unwrap {C} (m : st World Error C) : keeps failed m → keeps failed (unwrap m : st World Error C).
Proof. apply keeps_unwrap. Qed.

Lemma failed_attempt {C} (m : st World Error C) : keeps failed m → keeps failed (attempt m : st World Error (C + Error)).
Proof. apply keeps_attempt. Qed.
Hint Resolve failed_unwrap failed_attempt : keeps.

Lemma keeps_free_ref k i : keeps failed (free_ref k i).
Proof. unfold free_ref. keep. Qed.
Hint Resolve keeps_free_ref : keeps.

Lemma keeps_each (f : Handle → st World Error unit) l : (∀ h, keeps failed (f h)) → keeps failed (each f l).
Proof. intros Hf. induction l as [|h l IH]; cbn [each]; [by apply keeps_same|]. by apply keeps_bind. Qed.

Lemma keeps_drop_inner d h : (∀ r, keeps failed (d r)) → keeps failed (drop_inner d h).
Proof. intros Hd. unfold drop_inner. destruct (h_inner h); [by apply keeps_same..|done]. Qed.

Lemma keeps_drop_arc fuel r : keeps failed (drop_arc fuel r).
Proof.
  revert r. induction fuel as [|fuel IH]; intros r; cbn [drop_arc]; [by apply keeps_same|]. keep.
  all: apply keeps_each; intros h; by apply keeps_drop_inner.
Qed.
Hint Resolve keeps_drop_arc : keeps.

Lemma keeps_drop_handle h : keeps failed (drop_handle h).
Proof. unfold drop_handle. apply keeps_bind; [by apply keeps_same|]. intros w. apply keeps_drop_inner. intros r. apply keeps_drop_arc. Qed.
Hint Resolve keeps_drop_handle : keeps.

Lemma keeps_new_handle t i : keeps failed (new_handle t i).
Proof. unfold new_handle. keep. Qed.
Hint Resolve keeps_new_handle : keeps.

Lemma keeps_create t node c : keeps failed (create t node c).
Proof. unfold create. keep. Qed.

Lemma keeps_make node name c : keeps failed (make node name c).
Proof. destruct c as [|[]| |[]|[]]; apply keeps_create. Qed.

Lemma keeps_set_with x c : keeps failed (set_with x c).
Proof. unfold set_with. keep. Qed.

Lemma keeps_apply_update x u : keeps failed (apply_update x u).
Proof. destruct u; apply keeps_set_with. Qed.

Lemma keeps_take_var x : keeps failed (take_var x).
Proof. unfold take_var. keep. Qed.
Hint Resolve keeps_make keeps_apply_update keeps_take_var : keeps.

Lemma keeps_assign x h : keeps failed (assign x h).
Proof. unfold assign. keep. Qed.

Lemma keeps_record node x : keeps failed (record node x).
Proof. unfold record. keep. Qed.

Lemma keeps_adopt node x : keeps failed (adopt node x).
Proof.
  unfold adopt. apply keeps_bind; [apply keeps_inner_ref|intros a]. apply keeps_bind; [apply keeps_inner_ref|intros b].
  destruct a as [[? ?]|], b as [[? ?]|]; keep.
Qed.
Hint Resolve keeps_assign keeps_record keeps_adopt : keeps.

Lemma keeps_atomic_update node f : keeps failed f → keeps failed (atomic_update node f).
Proof. intros Hf. unfold atomic_update. keep. Qed.

Lemma keeps_run_program p : keeps failed (run_program p).
Proof. induction p; cbn [run_program]; keep. by apply keeps_atomic_update. Qed.
End keeps.
#[export] Hint Resolve keeps_lock_exec keeps_inner_ref keeps_var keeps_free_ref keeps_drop_arc keeps_drop_handle
  keeps_new_handle keeps_make keeps_apply_update keeps_take_var keeps_assign keeps_record keeps_adopt keeps_run_program : keeps.
#[export] Hint Extern 1 (keeps failed (modify _)) => by apply keeps_set : keeps.
#[export] Hint Resolve failed_unwrap failed_attempt : keeps.

(** ** Calls *)

Definition with_state (s : InnerState) (w : World) : World := mkWorld s (w_refs w) (w_next w) (w_vars w) (w_failed w).

Section operations.
Context (text : Z → rstring) `{!HashMapOrder Z Z, !FloatNaN}.

Lemma lock_exec_wpf c w n V : represents text n (w_state w) V → allowed text n V c →
  wpf (lock_exec c) w
    (λ r w', ∃ s V', w' = with_state s w ∧ effect V c r V' ∧ represents text (depth c n) s V')
    (λ _ w', ∃ s, w' = with_state s w ∧ refused V c ∧ represents text n s V).
Proof using.
  intros Hr Ha. pose proof (exec_wp text n _ V c Hr Ha) as Hwp. unfold wpf, wp, lock_exec, failed in *.
  destruct (exec c (w_state w)) as [s [r|e|]]; [| |done]; cbn.
  - right. destruct Hwp as (V' & He & HV'). exists s, V'. rewrite andb_false_r, orb_false_r. done.
  - destruct Hwp as [Href Hs]. rewrite andb_true_r. destruct (writes_buffer c); [left; apply orb_true_r|right].
    exists s. by rewrite orb_false_r.
Qed.

Lemma inner_ref_run h w V : handle_ok (w_refs w) (w_next w) V h →
  ∃ o, inner_ref h w = (w, Ok o) ∧
    match o with
    | None => strong h = None
    | Some (r, ir) => w_refs w !! r = Some ir ∧ ref_typed V ir (h_type h)
    end.
Proof using.
  unfold handle_ok, inner_ref, strong. destruct (h_inner h) as [|r|r]; [by eexists| |].
  - intros [_ Hty]. eexists. split; [done|]. destruct (w_refs w !! r) as [ir|] eqn:E; cbn; [|done]. by split; [|apply Hty].
  - intros (ir & Hir & Hty). eexists. split; [done|]. by rewrite Hir.
Qed.

(** Freeing what a reference refers to. *)
Lemma free_ref_wpf ir t w n V : represents text n (w_state w) V → ref_typed V ir t → V !! 0 = None →
  wpf (unwrap (free_ref (ref_kind ir) (ref_block ir))) w
    (λ _ w', ∃ s, w' = with_state s w ∧ represents text n s (delete (ref_block ir) V)) (λ _ _, False).
Proof using.
  intros Hr [Hk Hty] H0. apply wpf_unwrap.
  assert (∀ c, subject c = Some (ref_block ir) → (∀ e, V !! ref_block ir = Some e → allowed text n V c ∧ ~ refused V c) →
    is_Some (V !! ref_block ir) → depth c n = n → (∀ r V', effect V c r V' → V' = delete (ref_block ir) V) →
    wpf (_ ← lock_exec c; mret tt) w (λ _ w', ∃ s, w' = with_state s w ∧ represents text n s (delete (ref_block ir) V)) (λ _ _, False)) as Hfree.
  { intros c _ Ha [e He] Hd Heff. destruct (Ha e He) as [Hal Hnr]. apply wpf_bind; [intros; keep|].
    eapply wpf_mono; [by apply (lock_exec_wpf c w n V)|..].
    - intros r w' (s & V' & -> & Hef & HV'). apply wpf_wp, wp_ret. exists s. split; [done|]. rewrite Hd in HV'. by rewrite <- (Heff _ _ Hef).
    - intros ? w' (s & _ & Href & _). done. }
  unfold free_ref. rewrite Hk. change ROOT_INDEX with 0. destruct Hty as [[-> Hb]|(e & He & Ht)].
  - cbn. rewrite Hb. cbn. apply wpf_wp, wp_ret. exists (w_state w). rewrite delete_id by done. split; [by destruct w|done].
  - assert (ref_block ir ≠ 0) as Hb0 by congruence.
    assert (∀ r V', effect V (FreeProperty (ref_block ir)) r V' → V' = delete (ref_block ir) V) as HefP by (by intros r V' (_ & ? & ? & ? & _ & _ & ->)).
    assert (∀ r V', effect V (FreeValue (ref_block ir)) r V' → V' = delete (ref_block ir) V) as HefV by (by intros r V' [_ ->]).
    destruct t as [|m| |f|m]; cbn [inner_kind type_of] in *.
    + rewrite (proj2 (Z.eqb_neq _ _)) by done. eapply Hfree; [done| |by eexists|done|done].
      intros e' He'. split; [|by intros []]. exists e'. split; [done|]. intros f v E. rewrite He in He'. injection He' as <-. by rewrite E in Ht.
    + eapply Hfree; [done| |by eexists|done|done].
      intros e' He'. split; [|by intros []]. exists e'. split; [done|]. intros f v E. rewrite He in He'. injection He' as <-. rewrite E in Ht. by destruct m.
    + eapply Hfree; [done| |by eexists|done|done].
      intros e' He'. split; [|by intros []]. exists e'. split; [done|]. intros f v E. rewrite He in He'. injection He' as <-. by rewrite E in Ht.
    + eapply Hfree; [done| |by eexists|done|done].
      intros e' He'. split; [by eexists|]. intros Href. destruct (e_value e) as [| | | | |f' v|] eqn:E; try done. by apply (Href e f' v).
    + eapply Hfree; [done| |by eexists|done|done].
      intros e' He'. split; [|by intros []]. exists e'. split; [done|]. intros f v E. rewrite He in He'. injection He' as <-. by rewrite E in Ht.
Qed.

(** What dropping leaves. *)
Definition dropped (w : World) n (hand : list Handle) holds (w' : World) : Prop :=
  (∃ V, inv text w' n V hand holds) ∧ w_vars w' = w_vars w ∧ (size (w_refs w') <= size (w_refs w))%nat.

Lemma dropped_trans w w' w'' n hand hand' holds holds' :
  dropped w n hand' holds' w' → dropped w' n hand holds w'' → dropped w n hand holds w''.
Proof using. intros (_ & Hv & Hs) (HV & Hv' & Hs'). split_and!; [done|congruence|lia]. Qed.

Section each.
Context {fuel : nat}.
Context (IH : ∀ r w n V hand holds, inv text w n V hand (r :: holds) → (size (w_refs w) <= fuel)%nat →
  wpf (drop_arc fuel r) w (λ _ w', dropped w n hand holds w') (λ _ _, False)).

Lemma drop_inner_wpf h w n V hand holds : inv text w n V (h :: hand) holds → (size (w_refs w) <= fuel)%nat →
  wpf (drop_inner (drop_arc fuel) h) w (λ _ w', dropped w n hand holds w') (λ _ _, False).
Proof using IH.
  intros [Hr Hc] Hf. unfold drop_inner. apply (core_Permutation _ _ _ _ (h :: stored_handles (w_vars w) (w_refs w) ++ hand)) in Hc;
    [|by rewrite Permutation_middle].
  destruct (h_inner h) as [|r|r] eqn:Eh.
  - apply wpf_wp, wp_ret. split_and!; [|done|done]. exists V. split; [done|]. eapply core_drop; [|exact Hc]. unfold strong. by rewrite Eh.
  - apply wpf_wp, wp_ret. split_and!; [|done|done]. exists V. split; [done|]. eapply core_drop; [|exact Hc]. unfold strong. by rewrite Eh.
  - eapply IH; [|done]. split; [exact Hr|]. eapply core_to_hold; [|exact Hc]. unfold strong. by rewrite Eh.
Qed.

Lemma each_wpf l w n V hand holds : inv text w n V (l ++ hand) holds → (size (w_refs w) <= fuel)%nat →
  wpf (each (drop_inner (drop_arc fuel)) l) w (λ _ w', dropped w n hand holds w') (λ _ _, False).
Proof using IH.
  revert w V. induction l as [|h l IHl]; intros w V Hi Hf; cbn [each].
  - apply wpf_wp, wp_ret. split_and!; [by exists V|done|done].
  - apply wpf_bind; [intros _; apply keeps_each; intros h'; apply keeps_drop_inner; intros r; apply keeps_drop_arc|].
    eapply wpf_mono; [by eapply (drop_inner_wpf h w n V (l ++ hand) holds)| |done].
    intros [] w' Hd. destruct Hd as ([V' Hi'] & Hv & Hs). eapply wpf_mono; [eapply (IHl w' V' Hi'); lia| |done].
    intros [] w'' (HV & Hv' & Hs'). split_and!; [done|congruence|lia].
Qed.
End each.

Lemma drop_arc_wpf fuel r w n V hand holds : inv text w n V hand (r :: holds) → (size (w_refs w) <= fuel)%nat →
  wpf (drop_arc fuel r) w (λ _ w', dropped w n hand holds w') (λ _ _, False).
Proof using.
  revert r w n V hand holds. induction fuel as [|fuel IH]; intros r w n V hand holds [Hr Hc] Hf.
  { destruct (core_hold _ _ _ _ _ Hc r) as [ir Hir]; [by left|]. assert (w_refs w = ∅) as E by (apply map_size_empty_inv; lia).
    rewrite E in Hir. done. }
  cbn [drop_arc]. eapply wpf_step; [done|]. destruct (core_hold _ _ _ _ _ Hc r) as [ir Hir]; [by left|]. rewrite Hir.
  destruct (core_count _ _ _ _ _ Hc _ _ Hir) as [Hocc Hpos]. destruct (core_typed _ _ _ _ _ Hc _ _ Hir) as [t Hty].
  pose proof (core_root _ _ _ _ _ Hc) as H0. rewrite <- Permutation_middle, occ_cons, decide_True in Hocc by done.
  destruct (strong_count ir) as [|[|m]] eqn:Es; [lia|..].
  - pose proof (core_delete r ir Hir Es Hc) as Hc'.
    eapply wpf_step; [done|]. apply wpf_bind; [intros _; apply keeps_each; intros h'; apply keeps_drop_inner; intros r'; apply keeps_drop_arc|].
    eapply wpf_mono; [by eapply (free_ref_wpf ir t (set_refs (delete r (w_refs w)) w) n V)| |done].
    intros [] w' (s & -> & Hs).
    assert (size (delete r (w_refs w)) = pred (size (w_refs w))) as Hsz by (apply map_size_delete_Some; by eexists).
    assert (size (delete r (w_refs w)) <= fuel)%nat as Hf' by lia.
    eapply wpf_mono; [eapply (each_wpf IH _ _ n (delete (ref_block ir) V) hand holds); [|exact Hf']| |done].
    + split; [exact Hs|]. cbn. eapply core_Permutation; [|exact Hc'].
      by rewrite (stored_take_ref _ _ _ _ Hir), <- app_assoc, Permutation_app_swap_app.
    + intros [] w' (HV & Hv & Hsz'). cbn in Hv, Hsz'. split_and!; [done|done|lia].
  - apply wpf_wp. unfold modify, wp. split_and!; [|done|].
    + exists V. split; [exact Hr|]. cbn. eapply core_Permutation; [|eapply (core_set_ref Hc r ir _ (stored_handles (w_vars w) (w_refs w) ++ hand) holds)].
      * by rewrite (stored_set_ref _ _ r ir _ []) by (done || cbn; by rewrite app_nil_r).
      * done.
      * done.
      * done.
      * cbn. lia.
      * cbn. lia.
      * intros r' Hne. rewrite <- Permutation_middle, occ_cons, decide_False by done. done.
      * done.
      * intros r' Hin. right. by right.
    + cbn. rewrite map_size_insert_Some by (by eexists). done.
Qed.

Lemma drop_handle_wpf h w n V hand holds : inv text w n V (h :: hand) holds →
  wpf (drop_handle h) w (λ _ w', dropped w n hand holds w') (λ _ _, False).
Proof using.
  intros Hi. unfold drop_handle. eapply wpf_step; [done|]. eapply drop_inner_wpf; [|exact Hi|lia].
  intros r w' n' V' hand' holds' Hi' Hf'. by eapply drop_arc_wpf.
Qed.

Lemma inv_handle w n V hand holds x h : inv text w n V hand holds → w_vars w !! x = Some h →
  handle_ok (w_refs w) (w_next w) V h.
Proof using.
  intros [_ Hc] Hx. apply (core_handle _ _ _ _ _ Hc). rewrite (stored_take_var _ _ _ _ Hx). by left.
Qed.

Lemma clone_weak_ok w n V hand holds h : inv text w n V hand holds → handle_ok (w_refs w) (w_next w) V h →
  handle_ok (w_refs w) (w_next w) V (clone_weak h).
Proof using.
  intros [_ Hc]. unfold handle_ok, clone_weak. cbn. destruct (h_inner h) as [|r|r]; [done|done|]. intros (ir & Hir & Ht).
  split; [apply (core_fresh _ _ _ _ _ Hc); by eexists|]. intros ir' Hir'. rewrite Hir in Hir'. by injection Hir' as <-.
Qed.

(** A handle moves out of a variable. *)
Lemma take_var_run x w n V hand holds : inv text w n V hand holds →
  ∃ w', take_var x w = (w', Ok (default (no_op T_Node) (w_vars w !! x))) ∧ w_vars w' = delete x (w_vars w) ∧
    inv text w' n V (default (no_op T_Node) (w_vars w !! x) :: hand) holds.
Proof using.
  intros [Hr Hc]. eexists. split; [done|]. split; [done|]. split; [exact Hr|]. cbn.
  destruct (w_vars w !! x) as [h|] eqn:E; cbn.
  - eapply core_Permutation; [|exact Hc]. by rewrite (stored_take_var _ _ _ _ E), <- Permutation_middle.
  - rewrite delete_id by done. eapply core_Permutation; [apply Permutation_middle|]. by apply core_learn.
Qed.

Lemma assign_wpf x h w n V hand holds : inv text w n V (h :: hand) holds →
  wpf (assign x h) w (λ _ w', (∃ V', inv text w' n V' hand holds) ∧ w_vars w' = <[x := h]> (w_vars w)) (λ _ _, False).
Proof using.
  intros Hi. unfold assign. destruct (take_var_run x w n V (h :: hand) holds Hi) as (w1 & Ht & Hv1 & Hi1).
  eapply wpf_step; [exact Ht|]. apply wpf_bind; [intros; keep|].
  eapply wpf_mono; [by eapply drop_handle_wpf| |done]. intros [] w2 ([V2 [Hr2 Hc2]] & Hv2 & _).
  apply wpf_wp. unfold modify, wp. cbn. rewrite Hv2, Hv1, insert_delete_eq. split; [|done]. exists V2. split; [exact Hr2|]. cbn.
  rewrite Hv2, Hv1 in Hc2. eapply core_Permutation; [|exact Hc2].
  rewrite <- (insert_delete_eq (w_vars w)), stored_put_var by apply lookup_delete_eq. by rewrite <- Permutation_middle.
Qed.

(** ** Creating *)

Lemma create_wpf t node c w n V hand holds :
  inv text w n V hand holds → handle_ok (w_refs w) (w_next w) V node → h_type node = T_Node →
  (∀ p, live_or_root V p → allowed text n V (c p) ∧ depth (c p) n = n) →
  (∀ p r V', effect V (c p) r V' → ∃ i e, r = Some i ∧ i ≠ 0 ∧ V !! i = None ∧ V' = <[i := e]> V ∧ value_type (e_value e) = type_of t) →
  wpf (create t node c) w (λ h w', (∃ V', inv text w' n V' (h :: hand) holds) ∧ h_type h = t ∧ w_vars w' = w_vars w) (λ _ _, False).
Proof using.
  intros [Hr Hc] Hh Ht Ha He. unfold create. destruct (inner_ref_run node w V Hh) as (o & Ho & Hcase). eapply wpf_step; [exact Ho|].
  assert (∀ w', w_refs w' = w_refs w → w_next w' = w_next w → w_vars w' = w_vars w → represents text n (w_state w') V →
    wpf (mret (no_op t)) w' (λ h w'', (∃ V', inv text w'' n V' (h :: hand) holds) ∧ h_type h = t ∧ w_vars w'' = w_vars w) (λ _ _, False)) as Hnone.
  { intros w' E1 E2 E3 Hr'. apply wpf_wp, wp_ret. split_and!; [|done|done]. exists V. split; [done|]. rewrite E1, E2, E3.
    eapply core_Permutation; [apply Permutation_middle|]. by apply core_learn. }
  destruct o as [[r ir]|]; [|by apply Hnone]. destruct Hcase as [Hir Hty]. rewrite Ht in Hty.
  destruct (Ha (ref_block ir)) as [Hal Hd]; [destruct Hty as [_ [[_ ?]|(e & He' & _)]]; [by left|right; by eexists]|].
  apply wpf_bind; [intros; keep|]. apply wpf_attempt. eapply wpf_mono; [by apply (lock_exec_wpf _ _ n V)|..].
  - intros r' w' (s & V' & -> & Hef & HV'). destruct (He _ _ _ Hef) as (i & e & -> & Hi0 & Hi & -> & Hte). rewrite Hd in HV'.
    unfold new_handle. eapply wpf_step; [done|]. eapply wpf_step; [done|]. apply wpf_wp, wp_ret. split_and!; [|done|done].
    exists (<[i := e]> V). split; [exact HV'|]. cbn. eapply core_Permutation; [|by eapply (core_new Hc i e t)].
    rewrite stored_put_ref; [cbn; apply Permutation_middle|]. apply eq_None_not_Some. intros Hx%(core_fresh _ _ _ _ _ Hc). lia.
  - intros err w' (s & -> & _ & Hs). by apply Hnone.
Qed.

Lemma make_wpf node name c w n V hand holds :
  inv text w n V hand holds → handle_ok (w_refs w) (w_next w) V node → h_type node = T_Node →
  named text name → creation_ok c →
  wpf (make node name c) w (λ h w', (∃ V', inv text w' n V' (h :: hand) holds) ∧ h_type h = creation_type c ∧ w_vars w' = w_vars w) (λ _ _, False).
Proof using.
  intros Hi Hh Ht Hn Hok.
  assert (∀ p P r V' t, created V name p P r V' → (∀ a, P a → value_type a = type_of t) →
    ∃ i e, r = Some i ∧ i ≠ 0 ∧ V !! i = None ∧ V' = <[i := e]> V ∧ value_type (e_value e) = type_of t) as Hcr.
  { intros p P r V' t (i & a & -> & Hi0 & Hi' & HP & ->) Hty. eexists i, _. split_and!; [done|done|done|done|]. by apply Hty. }
  destruct c as [|[] v|v|[] v|[] slots f]; eapply create_wpf; try done;
    try (intros p Hp; split; [|done]; split_and!; done); intros p r V' He; eapply Hcr; try exact He; cbn; try (by intros a ->);
    intros a (vs & _ & _ & ->); done.
Qed.

(** ** Using *)

(** A command that neither makes nor frees a value. *)
Definition steady (c : command) : bool :=
  match c with
  | CreateNode _ _ | CreateBool _ _ _ | CreateMetric _ _ _ _ | CreateArray _ _ _ _ _ | CreateProperty _ _ _ _
  | FreeValue _ | FreeProperty _ => false
  | _ => true
  end.

Lemma effect_same_values V c r V' : steady c = true → effect V c r V' → ∀ i, is_Some (V' !! i) ↔ is_Some (V !! i).
Proof using.
  intros Hc He i. destruct c; try done; cbn in He; unfold revalued in He;
    repeat match goal with
    | H : _ ∧ _ |- _ => destruct H
    | H : ∃ _, _ |- _ => destruct H
    end; subst; try done;
    rewrite lookup_insert_is_Some; (split; [intros [<-|[_ Hi]]; [by eexists|done]|intros Hi; destruct (decide (index = i)); auto]).
Qed.

Lemma inv_effect w n V hand holds s c r V' : steady c = true → inv text w n V hand holds → effect V c r V' → represents text (depth c n) s V' →
  inv text (with_state s w) (depth c n) V' hand holds.
Proof using.
  intros Hc [_ Hco] He Hs. split; [exact Hs|]. cbn. pose proof (effect_same_values _ _ _ _ Hc He) as Hd.
  apply (core_retyped Hco); [|intros i; apply Hd]. intros i e Hi. destruct (proj2 (Hd i)) as [e' He']; [by eexists|].
  exists e'. split; [done|]. by eapply effect_types.
Qed.

(** Whatever comes of it, a steady command keeps the invariant. *)
Lemma steady_wpf c w n V hand holds : inv text w n V hand holds → steady c = true → allowed text n V c → depth c n = n →
  wpf (attempt (lock_exec c) : st World Error _) w
    (λ _ w', (∃ V', inv text w' n V' hand holds) ∧ w_vars w' = w_vars w) (λ _ _, False).
Proof using.
  intros Hi Hc Ha Hd. apply wpf_attempt. eapply wpf_mono; [by apply (lock_exec_wpf c w n V); [apply Hi|]|..].
  - intros r w' (s & V' & -> & He & Hs). split; [|done]. exists V'. rewrite <- Hd. by eapply inv_effect.
  - intros e w' (s & -> & _ & Hs). split; [|done]. exists V. split; [exact Hs|apply Hi].
Qed.

Lemma set_with_wpf x c w n V hand holds t :
  inv text w n V hand holds → handle_ok (w_refs w) (w_next w) V x → h_type x = t → t ≠ T_Node →
  (∀ i e, V !! i = Some e → value_type (e_value e) = type_of t → steady (c i) = true ∧ allowed text n V (c i) ∧ depth (c i) n = n) →
  wpf (set_with x c) w (λ _ w', (∃ V', inv text w' n V' hand holds) ∧ w_vars w' = w_vars w) (λ _ _, False).
Proof using.
  intros Hi Hh Ht Hne Hc. unfold set_with. destruct (inner_ref_run x w V Hh) as (o & Ho & Hcase). eapply wpf_step; [exact Ho|].
  destruct o as [[r ir]|]; [|apply wpf_wp, wp_ret; split; [by exists V|done]].
  destruct Hcase as [_ [_ [[? _]|(e & He & Hte)]]]; [congruence|]. rewrite Ht in Hte. destruct (Hc _ _ He Hte) as (H1 & H2 & H3).
  apply wpf_bind; [intros; keep|]. eapply wpf_mono; [by apply (steady_wpf _ w n V hand holds)| |done].
  intros a w' Hw. apply wpf_wp, wp_ret. exact Hw.
Qed.

Lemma apply_update_wpf x u w n V hand holds :
  inv text w n V hand holds → handle_ok (w_refs w) (w_next w) V x → h_type x = update_type u → update_ok u →
  wpf (apply_update x u) w (λ _ w', (∃ V', inv text w' n V' hand holds) ∧ w_vars w' = w_vars w) (λ _ _, False).
Proof using.
  intros Hi Hh Ht Hok. destruct u; eapply set_with_wpf; try done; intros i e He Hte; (split_and!; [done| |done]);
    try (by eexists); try (split; [by eexists|done]). split_and!; [by eexists|done|]. intros e' en f vs _ _. apply len_nonneg.
Qed.

Lemma record_wpf node x w n V hand holds :
  inv text w n V (x :: hand) holds → handle_ok (w_refs w) (w_next w) V node →
  wpf (record node x) w (λ _ w', (∃ V', inv text w' n V' hand holds) ∧ w_vars w' = w_vars w) (λ _ _, False).
Proof using.
  intros Hi Hh. unfold record. destruct (inner_ref_run node w V Hh) as (o & Ho & Hcase). eapply wpf_step; [exact Ho|].
  destruct o as [[r ir]|].
  - destruct Hcase as [Hir _]. apply wpf_wp. unfold modify, wp. split; [|done]. exists V. destruct Hi as [Hr Hc]. split; [exact Hr|]. cbn.
    destruct (core_count _ _ _ _ _ Hc _ _ Hir) as [Hocc Hpos].
    eapply core_Permutation; [|by eapply (core_set_ref Hc r ir (push_recorded x ir) (stored_handles (w_vars w) (w_refs w) ++ x :: hand) holds); auto].
    rewrite (stored_set_ref _ _ r ir _ [x]) by done. by rewrite <- Permutation_middle.
  - eapply wpf_mono; [by eapply drop_handle_wpf| |done]. by intros [] w' (HV & Hv & _).
Qed.

Lemma adopt_wpf node x w n V hand holds :
  inv text w n V hand holds → handle_ok (w_refs w) (w_next w) V node → h_type node = T_Node → handle_ok (w_refs w) (w_next w) V x →
  wpf (attempt (adopt node x) : st World Error _) w
    (λ _ w', (∃ V', inv text w' n V' hand holds) ∧ w_vars w' = w_vars w) (λ _ _, False).
Proof using.
  intros Hi Hh Ht Hx. apply wpf_attempt. unfold adopt.
  destruct (inner_ref_run x w V Hx) as (o & Ho & Hcase). eapply wpf_step; [exact Ho|].
  destruct (inner_ref_run node w V Hh) as (o' & Ho' & Hcase'). eapply wpf_step; [exact Ho'|].
  destruct o as [[r ir]|], o' as [[r' ir']|]; try (apply wpf_wp, wp_ret; split; [by exists V|done]).
  destruct Hcase as [_ [_ Hc]]. destruct Hcase' as [_ Hp]. rewrite Ht in Hp. apply wpf_bind; [intros; keep|].
  assert (allowed text n V (Reparent (ref_block ir) (ref_block ir'))) as Ha.
  { split; [destruct Hc as [[_ ?]|(e & He & _)]; [by left|right; by eexists]|].
    destruct Hp as [_ [[_ ?]|(e & He & Hte)]]; [by left|right; exists e; split; [done|]]. by destruct (e_value e). }
  eapply wpf_mono; [by apply (lock_exec_wpf _ w n V); [apply Hi|]|..].
  - intros a w' (s & V' & -> & He & Hs). apply wpf_wp, wp_ret. split; [|done]. exists V'. by eapply (inv_effect _ n _ _ _ _ (Reparent _ _)).
  - intros e w' (s & -> & _ & Hs). split; [|done]. exists V. split; [exact Hs|apply Hi].
Qed.

(** ** Transactions *)

Lemma transaction_wpf c w n V hand holds : inv text w n V hand holds → c = BeginTransaction ∨ c = EndTransaction → allowed text n V c →
  wpf (unwrap (lock_exec c)) w (λ _ w', (∃ V', inv text w' (depth c n) V' hand holds) ∧ w_vars w' = w_vars w) (λ _ _, False).
Proof using.
  intros Hi Hc Ha. apply wpf_unwrap. eapply wpf_mono; [by apply (lock_exec_wpf c w n V); [apply Hi|]|..].
  - intros r w' (s & V' & -> & He & Hs). split; [|done]. exists V'. eapply inv_effect; [by destruct Hc as [->| ->]|exact Hi|exact He|exact Hs].
  - intros e w' (s & _ & Href & _). by destruct Hc as [->| ->].
Qed.

Lemma hold_inv r ir w n V hand holds : inv text w n V hand holds → w_refs w !! r = Some ir →
  inv text (set_refs (<[r := set_strong (S (strong_count ir)) ir]> (w_refs w)) w) n V hand (r :: holds).
Proof using.
  intros [Hr Hc] Hir. split; [exact Hr|]. cbn. destruct (core_count _ _ _ _ _ Hc _ _ Hir) as [Hocc Hpos].
  eapply core_Permutation; [|eapply (core_set_ref Hc r ir _ (stored_handles (w_vars w) (w_refs w) ++ hand) (r :: holds) Hir)].
  - by rewrite (stored_set_ref _ _ r ir _ []) by (done || cbn; by rewrite app_nil_r).
  - done.
  - done.
  - cbn. rewrite <- Permutation_middle, occ_cons, decide_True by done. lia.
  - cbn. lia.
  - intros r' Hne. by rewrite <- Permutation_middle, occ_cons, decide_False by done.
  - done.
  - intros r' [->|?]%elem_of_cons; [by left|by right].
Qed.

Lemma atomic_update_wpf node f w n V hand holds (P : World → Prop) :
  inv text w n V hand holds → handle_ok (w_refs w) (w_next w) V node → keeps failed f →
  (∀ w' n' V' holds', inv text w' n' V' hand holds' → w_vars w' = w_vars w →
     wpf f w' (λ _ w'', (∃ V'', inv text w'' n' V'' hand holds') ∧ P w'') (λ _ _, False)) →
  (∀ w' w'', P w' → w_vars w'' = w_vars w' → P w'') →
  wpf (atomic_update node f) w (λ _ w', (∃ V', inv text w' n V' hand holds) ∧ P w') (λ _ _, False).
Proof using.
  intros Hi Hh Hk Hf HP. unfold atomic_update. destruct (inner_ref_run node w V Hh) as (o & Ho & Hcase). eapply wpf_step; [exact Ho|].
  destruct o as [[r ir]|]; [|by eapply Hf]. destruct Hcase as [Hir _]. eapply wpf_step; [done|].
  apply wpf_bind; [intros; keep|]. eapply wpf_mono; [eapply (transaction_wpf BeginTransaction); [by eapply hold_inv|by left|done]| |done].
  intros a w1 ([V1 Hi1] & Hv1). apply wpf_bind; [intros; keep|]. eapply wpf_mono; [by eapply Hf| |done].
  intros [] w2 ([V2 Hi2] & HP2). apply wpf_bind; [intros; keep|]. cbn [depth] in Hi2.
  eapply wpf_mono; [eapply (transaction_wpf EndTransaction); [exact Hi2|by right|]| |done].
  { destruct Hi as [(_ & ? & _) _]. cbn. lia. }
  intros b w3 ([V3 Hi3] & Hv3). cbn [depth] in Hi3. rewrite Z.add_simpl_r in Hi3. eapply wpf_step; [done|].
  apply wpf_bind; [intros; keep|]. eapply wpf_mono; [eapply (drop_arc_wpf _ r w3 n V3 hand holds Hi3); lia| |done].
  intros [] w4 (HV & Hv4 & _). apply wpf_wp, wp_ret. split; [done|]. eapply HP; [|exact Hv4]. by eapply HP.
Qed.

(** ** Programs *)

(** The names and values of a program. *)
Fixpoint program_ok (p : program) : Prop :=
  match p with
  | Finish => True
  | Make _ _ name c rest => named text name ∧ creation_ok c ∧ program_ok rest
  | Apply _ u rest => update_ok u ∧ program_ok rest
  | CloneWeak _ _ rest | RecordIn _ _ rest | DropVar _ rest | Adopt _ _ rest => program_ok rest
  | Atomic _ body rest => program_ok body ∧ program_ok rest
  end.

(** The variables hold handles of their types. *)
Definition typed_vars (G : gmap Z HandleType) (vars : gmap Z Handle) : Prop :=
  ∀ x t, G !! x = Some t → ∃ h, vars !! x = Some h ∧ h_type h = t.

Lemma typed_vars_insert G vars x h : typed_vars G vars → typed_vars (<[x := h_type h]> G) (<[x := h]> vars).
Proof using.
  intros HG y t [[<- <-]|[Hne Hy]]%lookup_insert_Some; [exists h; by rewrite lookup_insert_eq|].
  rewrite lookup_insert_ne by done. by apply HG.
Qed.

Lemma typed_vars_delete G vars x : typed_vars G vars → typed_vars (delete x G) (delete x vars).
Proof using. intros HG y t [Hne Hy]%lookup_delete_Some. rewrite lookup_delete_ne by done. by apply HG. Qed.

Lemma var_run G x t w n V hand holds : inv text w n V hand holds → typed_vars G (w_vars w) → G !! x = Some t →
  ∃ h, var x w = (w, Ok h) ∧ w_vars w !! x = Some h ∧ h_type h = t ∧ handle_ok (w_refs w) (w_next w) V h.
Proof using.
  intros Hi HG Hx. destruct (HG x t Hx) as (h & Hh & Ht). exists h. unfold var. rewrite Hh.
  split_and!; [done|done|done|]. by eapply inv_handle.
Qed.

Definition good n holds (G : gmap Z HandleType) (w : World) : Prop :=
  (∃ V, inv text w n V [] holds) ∧ typed_vars G (w_vars w).

Lemma run_program_wpf p borrowed G G' w n holds : check borrowed p G = Some G' → program_ok p → good n holds G w →
  wpf (run_program p) w (λ _ w', good n holds G' w') (λ _ _, False).
Proof using.
  revert borrowed G G' w n holds.
  induction p as [|dst node name c p IH|x u p IH|dst x p IH|node x p IH|x p IH|node x p IH|node body IHb p IH];
    intros borrowed G G' w n holds Hck Hok ([V Hi] & HG); cbn [run_program check program_ok] in *.
  - injection Hck as <-. apply wpf_wp, wp_ret. split; [by exists V|done].
  - case_bool_decide as E; [|done]. destruct E as [Hn _], Hok as (Hname & Hc & Hok).
    destruct (var_run G node T_Node w n V [] holds Hi HG Hn) as (h & Hv & _ & Ht & Hh). eapply wpf_step; [exact Hv|].
    apply wpf_bind; [intros; keep|]. eapply wpf_mono; [by eapply (make_wpf h name c)| |done].
    intros h' w1 ([V1 Hi1] & Ht1 & Hv1). apply wpf_bind; [intros; keep|]. eapply wpf_mono; [by eapply (assign_wpf dst h')| |done].
    intros [] w2 ([V2 Hi2] & Hv2). eapply IH; [exact Hck|done|]. split; [by exists V2|]. rewrite Hv2, Hv1, <- Ht1.
    by apply typed_vars_insert.
  - case_bool_decide as Hx; [|done]. destruct Hok as [Hu Hok].
    destruct (var_run G x _ w n V [] holds Hi HG Hx) as (h & Hv & _ & Ht & Hh). eapply wpf_step; [exact Hv|].
    apply wpf_bind; [intros; keep|]. eapply wpf_mono; [by eapply (apply_update_wpf h u)| |done].
    intros [] w1 ([V1 Hi1] & Hv1). eapply IH; [exact Hck|done|]. split; [by exists V1|by rewrite Hv1].
  - case_bool_decide as E; [|done]. destruct E as [Hx _].
    destruct (var_run G x T_Node w n V [] holds Hi HG Hx) as (h & Hv & _ & Ht & Hh). eapply wpf_step; [exact Hv|].
    assert (inv text w n V [clone_weak h] holds) as Hi'.
    { destruct Hi as [Hr Hc]. split; [done|]. eapply core_Permutation; [apply Permutation_middle|].
      apply core_learn; [|by eapply clone_weak_ok|done]. unfold strong, clone_weak. cbn. by destruct (h_inner h). }
    apply wpf_bind; [intros; keep|]. eapply wpf_mono; [by eapply (assign_wpf dst)| |done].
    intros [] w2 ([V2 Hi2] & Hv2). eapply IH; [exact Hck|done|]. split; [by exists V2|]. rewrite Hv2.
    change T_Node with (h_type (mkHandle T_Node I_None)). rewrite <- Ht at 1. by apply (typed_vars_insert G _ dst (clone_weak h)).
  - case_bool_decide as E; [|done]. destruct E as (Hn & Hx & Hne & _).
    destruct (take_var_run x w n V [] holds Hi) as (w1 & Ht & Hv1 & Hi1). eapply wpf_step; [exact Ht|].
    assert (typed_vars (delete x G) (w_vars w1)) as HG1 by (rewrite Hv1; by apply typed_vars_delete).
    destruct (var_run (delete x G) node T_Node w1 n V _ holds Hi1 HG1) as (h & Hv & _ & _ & Hh); [by rewrite lookup_delete_ne|].
    eapply wpf_step; [exact Hv|]. apply wpf_bind; [intros; keep|]. eapply wpf_mono; [by eapply (record_wpf h)| |done].
    intros [] w2 ([V2 Hi2] & Hv2). eapply IH; [exact Hck|done|]. split; [by exists V2|by rewrite Hv2].
  - case_bool_decide as E; [|done]. destruct (take_var_run x w n V [] holds Hi) as (w1 & Ht & Hv1 & Hi1). eapply wpf_step; [exact Ht|].
    apply wpf_bind; [intros; keep|]. eapply wpf_mono; [by eapply drop_handle_wpf| |done].
    intros [] w2 ([V2 Hi2] & Hv2 & _). eapply IH; [exact Hck|done|]. split; [by exists V2|]. rewrite Hv2, Hv1. by apply typed_vars_delete.
  - case_bool_decide as E; [|done]. destruct E as [Hn [t Hx]].
    destruct (var_run G node T_Node w n V [] holds Hi HG Hn) as (h & Hv & _ & Ht & Hh). eapply wpf_step; [exact Hv|].
    destruct (var_run G x t w n V [] holds Hi HG Hx) as (h' & Hv' & _ & _ & Hh'). eapply wpf_step; [exact Hv'|].
    apply wpf_bind; [intros; keep|]. eapply wpf_mono; [by eapply (adopt_wpf h h')| |done].
    intros a w1 ([V1 Hi1] & Hv1). eapply IH; [exact Hck|done|]. split; [by exists V1|by rewrite Hv1].
  - case_bool_decide as Hn; [|done]. destruct Hok as [Hokb Hok]. apply bind_Some in Hck as (G1 & Hckb & Hck).
    destruct (var_run G node T_Node w n V [] holds Hi HG Hn) as (h & Hv & _ & _ & Hh). eapply wpf_step; [exact Hv|].
    apply wpf_bind; [intros; keep|].
    eapply wpf_mono; [eapply (atomic_update_wpf h _ w n V [] holds (λ w', typed_vars G1 (w_vars w')) Hi Hh)| |done].
    + apply keeps_run_program.
    + intros w' n' V' holds' Hi' Hv'. eapply IHb; [exact Hckb|done|]. split; [by exists V'|by rewrite Hv'].
    + intros w' w'' HP E. by rewrite E.
    + intros [] w1 Hg. by eapply IH.
Qed.
End operations.

(** ** From the start *)

(** The handle keeps block [i] alive. *)
Definition refers (w : World) (h : Handle) (i : Z) : Prop :=
  ∃ r ir, strong h = Some r ∧ w_refs w !! r = Some ir ∧ ref_block ir = i.

(** All handles: those in variables and those that nodes have recorded. *)
Definition handles (w : World) : list Handle := stored_handles (w_vars w) (w_refs w).

Section start.
Context (text : Z → rstring) `{!HashMapOrder Z Z, !FloatNaN}.

Lemma start_inv s : represents text 0 s ∅ →
  ∃ w h, new_root_node (start_world s) = (w, Ok h) ∧ h_type h = T_Node ∧ w_vars w = ∅ ∧ inv text w 0 ∅ [h] [].
Proof using.
  intros Hr. eexists _, _. split; [done|]. split; [done|]. split; [done|]. split; [exact Hr|].
  assert (∀ (r : Z) ir, ({[0 := mkInnerRef 1 InnerNodeType 0 []]} : gmap Z InnerRef) !! r = Some ir → r = 0 ∧ ir = mkInnerRef 1 InnerNodeType 0 []) as Hl
    by (by intros r ir [<- <-]%lookup_singleton_Some).
  assert (ref_typed ∅ (mkInnerRef 1 InnerNodeType 0 []) T_Node) as Ht by (split; [done|by left]).
  cbn. rewrite insert_empty. split.
  - intros r [ir [-> _]%Hl]. lia.
  - intros r ir [-> ->]%Hl. split; [by vm_compute|cbn; lia].
  - intros r ir [-> ->]%Hl. by exists T_Node.
  - by intros r r' ir ir' [-> _]%Hl [-> _]%Hl.
  - done.
  - intros h Hh%list_elem_of_In. vm_compute in Hh. destruct Hh as [<-|[]]. eexists. split; [apply lookup_singleton_eq|done].
  - by intros r ?%elem_of_nil.
  - done.
Qed.

Lemma run_inspector_wpf p G s : represents text 0 s ∅ → check ∅ p {[0 := T_Node]} = Some G → program_ok text p →
  wpf (run_inspector p) (start_world s) (λ _ w', good text 0 [] G w') (λ _ _, False).
Proof using.
  intros Hr Hck Hok. destruct (start_inv s Hr) as (w & h & Hrun & Ht & Hv & Hi). unfold run_inspector.
  eapply wpf_step; [exact Hrun|]. apply wpf_bind; [intros; keep|]. eapply wpf_mono; [by eapply assign_wpf| |done].
  intros [] w1 ([V1 Hi1] & Hv1). eapply run_program_wpf; [exact Hck|done|]. split; [by exists V1|].
  rewrite Hv1, Hv. intros x t [<- <-]%lookup_singleton_Some. exists h. by rewrite lookup_insert_eq.
Qed.

Lemma good_handles G w : good text 0 [] G w → ∃ V, represents text 0 (w_state w) V ∧ typed_vars G (w_vars w) ∧
  (∀ i, is_Some (V !! i) → ∃ h, h ∈ handles w ∧ refers w h i) ∧
  (∀ h i, h ∈ handles w → refers w h i → (i = 0 ∧ h_type h = T_Node) ∨
     ∃ e, V !! i = Some e ∧ value_type (e_value e) = type_of (h_type h)).
Proof using.
  intros [[V [Hr Hc]] HG]. exists V. rewrite app_nil_r in Hc. split_and!; [done|done|..].
  - intros i [e He]. destruct (core_value _ _ _ _ _ Hc _ _ He) as (r & ir & Hir & Hb).
    destruct (core_count _ _ _ _ _ Hc _ _ Hir) as [Hocc Hpos]. rewrite app_nil_r in Hocc.
    assert (r ∈ strongs (handles w)) as (h & Hh & Hs)%list_elem_of_omap by (apply occ_elem; unfold handles; lia).
    exists h. split; [done|]. by exists r, ir.
  - intros h i Hh (r & ir & Hs & Hir & Hb). pose proof (core_handle _ _ _ _ _ Hc h Hh) as Hok. unfold handle_ok, strong in *.
    destruct (h_inner h); try done. injection Hs as ->. destruct Hok as (ir' & Hir' & _ & Hty). rewrite Hir in Hir'. injection Hir' as <-.
    rewrite Hb in Hty. tauto.
Qed.
End start.

(** C5: A program that the compiler accepts, with a new inspector of at most 2^28 bytes and
    arrays of fewer than 2^61 - 2 slots, does not panic, not even where handles are dropped,
    unless the bytes of a buffer could not be written.  A value is in the tree exactly while
    a variable or a recorded value keeps a handle to it, and has the type of the handle. *)
Theorem handles_are_safe `{!HashMapOrder Z Z, !FloatNaN} text allocate next_id max_size s p G w r :
  max_size <= 2 ^ 28 → (∀ size m, allocate size = inr m → mapping_len m = size ∧ bytes_ok m) →
  new_root allocate next_id max_size = Ok s →
  check ∅ p {[0 := T_Node]} = Some G → program_ok text p → run_inspector p (start_world s) = (w, r) →
  w_failed w = true ∨
  (r = Ok tt ∧ ∃ V, represents text 0 (w_state w) V ∧ typed_vars G (w_vars w) ∧
    (∀ i, is_Some (V !! i) → ∃ h, h ∈ handles w ∧ refers w h i) ∧
    (∀ h i, h ∈ handles w → refers w h i → (i = 0 ∧ h_type h = T_Node) ∨
       ∃ e, V !! i = Some e ∧ value_type (e_value e) = type_of (h_type h))).
Proof.
  intros Hmax Ha Hs Hck Hok Hrun.
  destruct (new_root_represents text allocate next_id max_size Hmax Ha) as [(s0 & Hs0 & Hr)|(? & ? & _ & ?)]; [|congruence].
  rewrite Hs in Hs0. injection Hs0 as <-. pose proof (run_inspector_wpf text p G s Hr Hck Hok) as Hwp.
  unfold wpf, wp in Hwp. rewrite Hrun in Hwp. destruct Hwp as [Hf|Hg]; [by left|right]. destruct r as [[]|e|]; [|done|done].
  split; [done|]. by apply good_handles.
Qed.

#[local] Existing Instance sample_order.
#[local] Existing Instance quiet_nan.

(** A child that has recorded a number and is kept by the root, a node that is dropped with
    what it has recorded, and an array below the root. *)
Definition sample_program : program :=
  record_child 1 0 (sample_name 1) (record_value 2 1 (sample_name 2) (New_Metric M_Int 7) Finish)
    (Make 1 0 (sample_name 1) New_Node (record_value 2 1 (sample_name 2) (New_Bool true)
      (Make 3 0 (sample_name 2) (New_Array M_Uint 4 AF_Default)
        (Atomic 0 (Apply 3 (U_AddSlot M_Uint 1 5) Finish) (DropVar 1 Finish))))).

Lemma sample_succeeds :
  match new_root sample_allocate 0 4096 with Ok s => w_failed (run_inspector sample_program (start_world s)).1 | _ => true end = false.
Proof. by vm_compute. Qed.

Lemma handles_are_safe_witness : ∃ s w r, new_root sample_allocate 0 4096 = Ok s ∧
  run_inspector sample_program (start_world s) = (w, r) ∧ r = Ok tt.
Proof.
  destruct sample_started as [s Hs]. pose proof sample_succeeds as Hgood. rewrite Hs in Hgood.
  destruct (run_inspector sample_program (start_world s)) as [w r] eqn:Hrun.
  exists s, w, r. split; [exact Hs|]. split; [exact Hrun|].
  destruct (handles_are_safe sample_text sample_allocate 0 4096 s sample_program
    (<[3 := T_Array M_Uint]> {[0 := T_Node]}) w r) as [Hf|[Hok _]];
    [lia|exact sample_allocated|exact Hs|by vm_compute| |exact Hrun|exfalso; cbn [fst] in Hgood; congruence|exact Hok].
  clear. cbn. split_and!; try exact (sample_named _); by cbn.
Defined.
