(* ===== verification/InspectHistogram.v ===== *)
(** The histograms of the writer
    ([src/lib/diagnostics/inspect/rust/src/writer/types], the files of linear and
    exponential histograms of integers, unsigned integers and doubles): arrays whose first
    slots hold the parameters; a value is counted in the slot of its bucket.  The theorem
    relates them to the buckets that a reader computes. *)
From Stdlib Require Import ZArith Lia SpecFloat.
From stdpp Require Import base gmap strings list.
From S2P Require Import Prelude StateError InspectFormat InspectBlock InspectHeap InspectState InspectReader InspectObjects InspectTree InspectValues.
From S2P Require Import InspectWriter InspectCommands InspectClient InspectReadTree InspectContract InspectTypes InspectHandles.
Local Open Scope Z_scope.

(** ** The histograms *)

Definition LINEAR_HISTOGRAM_EXTRA_SLOTS : Z := 4.
Definition EXPONENTIAL_HISTOGRAM_EXTRA_SLOTS : Z := 5.

(** [LinearHistogramParams] and [ExponentialHistogramParams], without the number of buckets. *)
Inductive shape :=
| Linear (floor step_size : Z)
| Exponential (floor initial_step step_multiplier : Z).

(** The fields of the histogram properties; [slots] counts the parameters too. *)
Record Histogram := mkHistogram { hist_array : Handle; hist_shape : shape; hist_slots : Z }.

Definition extra_slots (sh : shape) : Z :=
  match sh with
  | Linear _ _ => LINEAR_HISTOGRAM_EXTRA_SLOTS
  | Exponential _ _ _ => EXPONENTIAL_HISTOGRAM_EXTRA_SLOTS
  end.

Definition array_format (sh : shape) : ArrayFormat :=
  match sh with
  | Linear _ _ => LinearHistogram
  | Exponential _ _ _ => ExponentialHistogram
  end.

(** Arithmetic and comparison of the three types of numbers. *)
Definition arith_of `{!FloatNaN} (m : metric) : Arith :=
  match m with M_Int => arith_i64 | M_Uint => arith_u64 | M_Double => arith_f64 end.

Definition at_least (m : metric) (value floor : Z) : bool :=
  match m with
  | M_Double => SFleb (f64_of_bits floor) (f64_of_bits value)
  | _ => floor <=? value
  end.

(** [count as i64], [as u64] and [as f64], which is always a number. *)
Definition count_as (m : metric) (count : Z) : Z :=
  match m with
  | M_Int => as_i64 count
  | M_Uint => count
  | M_Double => f64_to_bits 0 (binary_normalize 53 1024 count 0 false)
  end.

Section histograms.
Context `{!HashMapOrder Z Z, !FloatNaN}.

(** The loop of [get_index] in a linear histogram. *)
Fixpoint linear_index (m : metric) (value step_size slots : Z) (fuel : nat) (current_floor index : Z) :
    outcome Error Z :=
  match fuel with
  | O => Panic
  | S fuel =>
    if at_least m value current_floor && (index <? slots - 1) then
      current_floor ← arith (arith_add (arith_of m) current_floor step_size);
      linear_index m value step_size slots fuel current_floor (index + 1)
    else Ok index
  end.

(** The same in an exponential one. *)
Fixpoint exponential_index (m : metric) (value floor step_multiplier slots : Z) (fuel : nat)
    (current_floor offset index : Z) : outcome Error Z :=
  match fuel with
  | O => Panic
  | S fuel =>
    if at_least m value current_floor && (index <? slots - 1) then
      current_floor ← arith (arith_add (arith_of m) floor offset);
      offset ← arith (arith_mul (arith_of m) offset step_multiplier);
      exponential_index m value floor step_multiplier slots fuel current_floor offset (index + 1)
    else Ok index
  end.

(** [get_index]; the loop runs at most once per slot. *)
Definition bucket_index (m : metric) (h : Histogram) (value : Z) : outcome Error Z :=
  let fuel := Z.to_nat (hist_slots h) in
  match hist_shape h with
  | Linear floor step_size =>
    linear_index m value step_size (hist_slots h) fuel floor (LINEAR_HISTOGRAM_EXTRA_SLOTS - 2)
  | Exponential floor initial_step step_multiplier =>
    exponential_index m value floor step_multiplier (hist_slots h) fuel floor initial_step
      (EXPONENTIAL_HISTOGRAM_EXTRA_SLOTS - 2)
  end.

(** [create_int_array_internal] and its siblings. *)
Definition create_array_internal (m : metric) (node : Handle) (name : StringRef) (slots : Z) (f : ArrayFormat) :
    st World Error Handle :=
  match m with
  | M_Int => create_int_array_internal node name slots f
  | M_Uint => create_uint_array_internal node name slots f
  | M_Double => create_double_array_internal node name slots f
  end.

(** The parameters in the first slots. *)
Definition set_params (m : metric) (array : Handle) (sh : shape) : st World Error unit :=
  match sh with
  | Linear floor step_size =>
    _ ← array_set m array 0 floor; array_set m array 1 step_size
  | Exponential floor initial_step step_multiplier =>
    _ ← array_set m array 0 floor;
    _ ← array_set m array 1 initial_step;
    array_set m array 2 step_multiplier
  end.

(** [new]. *)
Definition histogram_new (m : metric) (node : Handle) (name : StringRef) (sh : shape) (buckets : Z) :
    st World Error Histogram :=
  slots ← lift (arith (checked_u64 (buckets + extra_slots sh)));
  array ← create_array_internal m node name slots (array_format sh);
  _ ← set_params m array sh;
  mret (mkHistogram array sh slots).

Definition insert_multiple (m : metric) (h : Histogram) (value count : Z) : st World Error unit :=
  index ← lift (bucket_index m h value);
  array_add m (hist_array h) index (count_as m count).

Definition insert_one (m : metric) (h : Histogram) (value : Z) : st World Error unit :=
  insert_multiple m h value 1.

(** [clear] keeps the parameters. *)
Definition histogram_clear (h : Histogram) : st World Error unit :=
  set_with (hist_array h) (λ i, ClearArray i (extra_slots (hist_shape h) - 2)).

(** What a program does with a histogram. *)
Inductive hist_op :=
| H_Insert (value : Z)
| H_InsertMultiple (value count : Z)
| H_Clear.

Definition hist_do (m : metric) (h : Histogram) (op : hist_op) : st World Error unit :=
  match op with
  | H_Insert value => insert_one m h value
  | H_InsertMultiple value count => insert_multiple m h value count
  | H_Clear => histogram_clear h
  end.
End histograms.

(** ** The bounds of buckets *)

Section buckets.
Context `{!FloatNaN}.

(** The [k]th bound of the buckets, and the bounds of bucket [k] of [n + 2]. *)
Definition bound (sh : shape) (k : nat) : Z :=
  match sh with
  | Linear floor step_size => floor + Z.of_nat k * step_size
  | Exponential floor initial_step step_multiplier =>
    match k with
    | O => floor
    | S k => floor + initial_step * step_multiplier ^ Z.of_nat k
    end
  end.

Definition bucket_of (m : metric) (sh : shape) (n : nat) (k : nat) (count : Z) : Bucket :=
  mkBucket (match k with O => arith_min (arith_of m) | S k => bound sh k end)
    (if (k =? S n)%nat then arith_max (arith_of m) else bound sh k) count.

(** Everything [insert] and the reader compute can be represented. *)
Definition fits (m : metric) (sh : shape) (n : nat) : Prop :=
  match sh with
  | Linear floor step_size =>
    metric_ok m floor ∧ 0 <= step_size ∧ metric_ok m step_size ∧ metric_ok m (floor + (Z.of_nat n + 1) * step_size)
  | Exponential floor initial_step step_multiplier =>
    metric_ok m floor ∧ 0 <= initial_step ∧ 1 <= step_multiplier ∧ metric_ok m step_multiplier ∧
    metric_ok m (floor + initial_step * step_multiplier ^ Z.of_nat n) ∧
    metric_ok m (initial_step * step_multiplier ^ (Z.of_nat n + 1))
  end.

(** The value belongs to the bucket; the last one has no ceiling. *)
Definition in_bucket (last : bool) (b : Bucket) (v : Z) : bool :=
  (bucket_floor b <=? v) && ((v <? bucket_ceiling b) || last).

Lemma bound_mono m sh n j k : fits m sh n → (j <= k)%nat → bound sh j <= bound sh k.
Proof.
  intros Hf Hjk. destruct sh as [floor step|floor step mult]; cbn in *; [destruct Hf as (_ & ? & _); nia|].
  destruct Hf as (_ & Hs & Hm & _). destruct j as [|j], k as [|k]; [lia| |lia|].
  - assert (0 < mult ^ Z.of_nat k) by (apply Z.pow_pos_nonneg; lia). nia.
  - assert (mult ^ Z.of_nat j <= mult ^ Z.of_nat k) by (apply Z.pow_le_mono_r; lia). nia.
Qed.

(** The arithmetic of integers is exact in the range. *)
Lemma arith_add_ok m a b : m ≠ M_Double → metric_ok m (a + b) → arith_add (arith_of m) a b = Some (a + b).
Proof.
  intros Hm Hok. destruct m; [| |done]; cbn in *; unfold checked_i64, checked_u64, is_u64 in *.
  - by rewrite (proj2 (Z.leb_le _ _)), (proj2 (Z.leb_le _ _)) by lia.
  - by rewrite (proj2 (Z.leb_le _ _)), (proj2 (Z.ltb_lt _ _)) by lia.
Qed.
Lemma arith_mul_ok m a b : m ≠ M_Double → metric_ok m (a * b) → arith_mul (arith_of m) a b = Some (a * b).
Proof.
  intros Hm Hok. destruct m; [| |done]; cbn in *; unfold checked_i64, checked_u64, is_u64 in *.
  - by rewrite (proj2 (Z.leb_le _ _)), (proj2 (Z.leb_le _ _)) by lia.
  - by rewrite (proj2 (Z.leb_le _ _)), (proj2 (Z.ltb_lt _ _)) by lia.
Qed.

Lemma metric_ok_between m a b c : metric_ok m a → metric_ok m c → a <= b <= c → metric_ok m b.
Proof. destruct m; cbn; unfold is_u64; [lia|lia|done]. Qed.

Lemma bound_ok m sh n k : fits m sh n → (k <= S n)%nat → metric_ok m (bound sh k).
Proof.
  intros Hf Hk. eapply (metric_ok_between m (bound sh 0) _ (bound sh (S n))); [..|split; by eapply bound_mono; [exact Hf|lia]].
  - destruct sh; cbn [bound fits] in *; [|apply Hf]. replace (floor + Z.of_nat 0 * step_size) with floor by lia. apply Hf.
  - destruct sh as [floor step|floor step mult]; cbn [bound fits] in *; [|apply Hf]. replace (Z.of_nat (S n)) with (Z.of_nat n + 1) by lia. apply Hf.
Qed.

(** The offsets of an exponential histogram. *)
Lemma offset_ok m floor step mult n k : fits m (Exponential floor step mult) n → (k <= S n)%nat →
  metric_ok m (step * mult ^ Z.of_nat k).
Proof.
  intros (Hfl & Hs & Hm & Hmm & _ & Hmax) Hk. assert (0 < mult ^ Z.of_nat k) by (apply Z.pow_pos_nonneg; lia).
  assert (mult ^ Z.of_nat k <= mult ^ (Z.of_nat n + 1)) by (apply Z.pow_le_mono_r; lia).
  eapply (metric_ok_between m 0); [|exact Hmax|nia]. destruct m; cbn; by apply (bool_decide_unpack _).
Qed.

(** ** The index *)

(** Bucket [k] is the one of the value. *)
Definition chosen (sh : shape) (n : nat) (value : Z) (k : nat) : Prop :=
  (k <= S n)%nat ∧ (∀ j, (j < k)%nat → bound sh j <= value) ∧ ((k <= n)%nat → value < bound sh k).

Lemma at_least_int m value floor : m ≠ M_Double → at_least m value floor = (floor <=? value).
Proof. by destruct m. Qed.

Lemma linear_index_spec m value floor step n fuel k base : m ≠ M_Double → fits m (Linear floor step) n →
  (k <= S n)%nat → (S n - k < fuel)%nat → (∀ j, (j < k)%nat → bound (Linear floor step) j <= value) →
  ∃ k', chosen (Linear floor step) n value k' ∧
    linear_index m value step (base + Z.of_nat n + 2) fuel (bound (Linear floor step) k) (base + Z.of_nat k) = Ok (base + Z.of_nat k').
Proof.
  intros Hm Hf. revert k. induction fuel as [|fuel IH]; intros k Hk Hfuel Hlow; [lia|]. cbn [linear_index].
  rewrite at_least_int by done. destruct (bound _ k <=? value) eqn:Hv; cbn [andb].
  - apply Z.leb_le in Hv. destruct (Z.ltb_spec (base + Z.of_nat k) (base + Z.of_nat n + 2 - 1)).
    + rewrite arith_add_ok; [|done|].
      2:{ pose proof (bound_ok m _ n (S k) Hf) as Hb. cbn [bound] in Hb |- *. replace (_ + step) with (floor + Z.of_nat (S k) * step) by lia. apply Hb. lia. }
      cbn [arith mbind outcome_bind]. destruct (IH (S k)) as (k' & Hc & Hr); [lia|lia| |].
      { intros j Hj. destruct (decide (j = k)) as [->|]; [done|apply Hlow; lia]. }
      exists k'. split; [done|]. rewrite <- Hr. cbn [bound]. f_equal; lia.
    + exists k. split; [|done]. split_and!; [lia|done|lia].
  - apply Z.leb_gt in Hv. exists k. split; [|done]. split_and!; [lia|done|done].
Qed.

Lemma exponential_index_spec m value floor step mult n fuel k base : m ≠ M_Double → fits m (Exponential floor step mult) n →
  (k <= S n)%nat → (S n - k < fuel)%nat → (∀ j, (j < k)%nat → bound (Exponential floor step mult) j <= value) →
  ∃ k', chosen (Exponential floor step mult) n value k' ∧
    exponential_index m value floor mult (base + Z.of_nat n + 2) fuel (bound (Exponential floor step mult) k)
      (step * mult ^ Z.of_nat k) (base + Z.of_nat k) = Ok (base + Z.of_nat k').
Proof.
  intros Hm Hf. revert k. induction fuel as [|fuel IH]; intros k Hk Hfuel Hlow; [lia|]. cbn [exponential_index].
  rewrite at_least_int by done. destruct (bound _ k <=? value) eqn:Hv; cbn [andb].
  - apply Z.leb_le in Hv. destruct (Z.ltb_spec (base + Z.of_nat k) (base + Z.of_nat n + 2 - 1)).
    + rewrite arith_add_ok; [|done|apply (bound_ok m _ n (S k) Hf); lia]. cbn [arith mbind outcome_bind].
      assert (step * mult ^ Z.of_nat k * mult = step * mult ^ Z.of_nat (S k)) as Hoff by (rewrite Nat2Z.inj_succ, Z.pow_succ_r by lia; ring).
      rewrite arith_mul_ok, Hoff; [|done|rewrite Hoff; apply (offset_ok m floor step mult n); [done|lia]].
      cbn [arith mbind outcome_bind]. destruct (IH (S k)) as (k' & Hc & Hr); [lia|lia| |].
      { intros j Hj. destruct (decide (j = k)) as [->|]; [done|apply Hlow; lia]. }
      exists k'. split; [done|]. rewrite <- Hr. cbn [bound]. f_equal; lia.
    + exists k. split; [|done]. split_and!; [lia|done|lia].
  - apply Z.leb_gt in Hv. exists k. split; [|done]. split_and!; [lia|done|done].
Qed.

Lemma bucket_index_spec m x sh n value : m ≠ M_Double → fits m sh n →
  ∃ k, chosen sh n value k ∧ bucket_index m (mkHistogram x sh (Z.of_nat n + extra_slots sh)) value = Ok (extra_slots sh - 2 + Z.of_nat k).
Proof.
  intros Hm Hf. unfold bucket_index. cbn [hist_shape hist_slots]. destruct sh as [floor step|floor step mult]; cbn [extra_slots].
  - change LINEAR_HISTOGRAM_EXTRA_SLOTS with 4.
    destruct (linear_index_spec m value floor step n (Z.to_nat (Z.of_nat n + 4)) 0 2) as (k & Hc & Hr); [done|done|lia|lia|lia|].
    exists k. split; [done|]. cbn [bound] in Hr. change (4 - 2) with 2. rewrite <- Hr. f_equal; lia.
  - change EXPONENTIAL_HISTOGRAM_EXTRA_SLOTS with 5.
    destruct (exponential_index_spec m value floor step mult n (Z.to_nat (Z.of_nat n + 5)) 0 3) as (k & Hc & Hr); [done|done|lia|lia|lia|].
    exists k. split; [done|]. cbn [bound] in Hr. change (5 - 2) with 3. rewrite <- Hr. f_equal; lia.
Qed.

(** ** What a reader computes *)

Definition params (sh : shape) : list Z :=
  match sh with
  | Linear floor step_size => [floor; step_size]
  | Exponential floor initial_step step_multiplier => [floor; initial_step; step_multiplier]
  end.

Definition inner_bucket (sh : shape) (k j : nat) (count : Z) : Bucket :=
  mkBucket (bound sh (k + j)) (bound sh (S (k + j))) count.

Lemma imap_inner sh k c counts :
  imap (inner_bucket sh k) (c :: counts) = mkBucket (bound sh k) (bound sh (S k)) c :: imap (inner_bucket sh (S k)) counts.
Proof.
  rewrite imap_cons. unfold inner_bucket at 1. rewrite Nat.add_0_r. f_equal. apply imap_ext. intros i x _. unfold inner_bucket, compose.
  by rewrite <- plus_n_Sm.
Qed.

Lemma linear_buckets_spec m floor step n counts k : m ≠ M_Double → fits m (Linear floor step) n →
  (k + length counts <= S n)%nat →
  linear_buckets (arith_of m) (bound (Linear floor step) k) step counts =
    Ok (imap (inner_bucket (Linear floor step) k) counts, bound (Linear floor step) (k + length counts)).
Proof.
  intros Hm Hf. revert k. induction counts as [|c counts IH]; intros k Hk; [by rewrite Nat.add_0_r|]. rewrite imap_inner.
  cbn [linear_buckets length] in *.
  assert (bound (Linear floor step) k + step = bound (Linear floor step) (S k)) as Hs by (cbn [bound]; lia).
  rewrite arith_add_ok, Hs; [|done|rewrite Hs; apply (bound_ok m _ n); [done|lia]]. cbn [arith mbind outcome_bind].
  rewrite (IH (S k)) by lia. cbn. by rewrite <- plus_n_Sm.
Qed.

Lemma exponential_buckets_spec m floor step mult n counts k : m ≠ M_Double → fits m (Exponential floor step mult) n →
  (k + length counts <= S n)%nat →
  exponential_buckets (arith_of m) floor mult (step * mult ^ Z.of_nat k) (bound (Exponential floor step mult) k) counts =
    Ok (imap (inner_bucket (Exponential floor step mult) k) counts, bound (Exponential floor step mult) (k + length counts)).
Proof.
  intros Hm Hf. revert k. induction counts as [|c counts IH]; intros k Hk; [by rewrite Nat.add_0_r|]. rewrite imap_inner.
  cbn [exponential_buckets length] in *.
  rewrite arith_add_ok; [|done|apply (bound_ok m _ n (S k) Hf); lia]. cbn [arith mbind outcome_bind].
  assert (step * mult ^ Z.of_nat k * mult = step * mult ^ Z.of_nat (S k)) as Hoff by (rewrite Nat2Z.inj_succ, Z.pow_succ_r by lia; ring).
  rewrite arith_mul_ok, Hoff; [|done|rewrite Hoff; apply (offset_ok m floor step mult n); [done|lia]]. cbn [arith mbind outcome_bind].
  change (floor + step * mult ^ Z.of_nat k) with (bound (Exponential floor step mult) (S k)).
  rewrite (IH (S k)) by lia. cbn [mbind outcome_bind]. by rewrite <- plus_n_Sm.
Qed.

(** The buckets between the first and the last. *)
Lemma imap_buckets m sh n u mid o : length mid = n →
  imap (bucket_of m sh n) (u :: mid ++ [o]) =
    mkBucket (arith_min (arith_of m)) (bound sh 0) u :: imap (inner_bucket sh 0) mid ++ [mkBucket (bound sh n) (arith_max (arith_of m)) o].
Proof.
  intros <-. rewrite imap_cons, imap_app. cbn. unfold compose, bucket_of at 1 3. rewrite Nat.add_0_r. cbn. rewrite Nat.eqb_refl. f_equal. f_equal.
  apply imap_ext. intros i x Hi%lookup_lt_Some. unfold bucket_of, inner_bucket. cbn. by rewrite (proj2 (Nat.eqb_neq _ _)) by lia.
Qed.

Lemma index_last {E A} (l : list A) (x : A) : Prelude.index (E := E) (l ++ [x]) (len (l ++ [x]) - 1) = Ok x.
Proof.
  unfold Prelude.index, len. rewrite length_app. cbn [length]. rewrite (proj2 (Z.leb_le _ _)) by lia.
  replace (Z.to_nat _) with (length l) by lia. by rewrite lookup_app_r, Nat.sub_diag by lia.
Qed.

(** Takes the elements whose indices are numbers. *)
Ltac indexed :=
  repeat match goal with
  | |- context [Prelude.index ?l ?i ≫= ?f] =>
    let x := eval cbv in (l !! Z.to_nat i) in
    match x with Some ?x => change (Prelude.index l i ≫= f) with (f x); cbv beta end
  end.

Lemma content_spec m sh n counts : m ≠ M_Double → fits m sh n → (1 <= n)%nat → length counts = S (S n) →
  ArrayContent_new (arith_of m) (params sh ++ counts) (array_format sh) = Ok (Buckets (imap (bucket_of m sh n) counts)).
Proof.
  intros Hm Hf Hn Hlen. destruct counts as [|u counts]; [done|].
  destruct (List.exists_last (l := counts)) as (mid & o & ->); [intros ->; cbn in Hlen; lia|].
  assert (length mid = n) as Hmid by (cbn in Hlen; rewrite length_app in Hlen; cbn in Hlen; lia).
  rewrite (imap_buckets m sh n u mid o Hmid). destruct sh as [floor step|floor step mult]; cbn [params array_format ArrayContent_new app].
  - unfold buckets_for_linear_hist. pose proof (index_last (E := ReaderError) (floor :: step :: u :: mid) o) as Hlast.
    cbn [app] in Hlast. rewrite Hlast. rewrite (proj2 (Z.ltb_ge _ _)) by (unfold len; cbn [length]; rewrite length_app; cbn [length]; lia).
    indexed.
    change (drop 3 _) with (mid ++ [o]). cbn [mbind outcome_bind].
    replace (length (floor :: step :: u :: mid ++ [o]) - 4)%nat with (length mid) by (cbn [length]; rewrite length_app; cbn [length]; lia).
    rewrite take_app_length.
    pose proof (linear_buckets_spec m floor step n mid 0 Hm Hf) as Hb. rewrite Hmid in Hb. cbn [bound Nat.add] in Hb |- *.
    replace (floor + Z.of_nat 0 * step) with floor in * by lia. rewrite Hb by lia. done.
  - unfold buckets_for_exp_hist. pose proof (index_last (E := ReaderError) (floor :: step :: mult :: u :: mid) o) as Hlast.
    cbn [app] in Hlast. rewrite Hlast. rewrite (proj2 (Z.ltb_ge _ _)) by (unfold len; cbn [length]; rewrite length_app; cbn [length]; lia).
    indexed.
    change (drop 4 _) with (mid ++ [o]). cbn [mbind outcome_bind].
    replace (length (floor :: step :: mult :: u :: mid ++ [o]) - 5)%nat with (length mid) by (cbn [length]; rewrite length_app; cbn [length]; lia).
    rewrite take_app_length.
    pose proof (exponential_buckets_spec m floor step mult n mid 0 Hm Hf) as Hb. rewrite Hmid in Hb. cbn [Nat.add] in Hb.
    change (Z.of_nat 0) with 0 in Hb. rewrite Z.pow_0_r, Z.mul_1_r in Hb. change (bound _ 0) with floor in Hb.
    rewrite Hb by lia. done.
Qed.

(** ** Counting *)

(** The value is counted in its bucket, or all counts are cleared. *)
Definition count_in (m : metric) (sh : shape) (n : nat) (counts : list Z) (value count : Z) : list Z :=
  imap (λ k c, if in_bucket (k =? S n)%nat (bucket_of m sh n k c) value then metric_add m c (count_as m count) else c) counts.

Definition hist_step (m : metric) (sh : shape) (n : nat) (counts : list Z) (op : hist_op) : list Z :=
  match op with
  | H_Insert value => count_in m sh n counts value 1
  | H_InsertMultiple value count => count_in m sh n counts value count
  | H_Clear => replicate (length counts) 0
  end.

Definition op_ok (m : metric) (op : hist_op) : Prop :=
  match op with
  | H_Insert value => metric_ok m value
  | H_InsertMultiple value count => metric_ok m value ∧ is_u64 count
  | H_Clear => True
  end.

Lemma length_count_in m sh n counts v c : length (count_in m sh n counts v c) = length counts.
Proof using. apply length_imap. Qed.

Lemma length_hist_step m sh n counts op : length (hist_step m sh n counts op) = length counts.
Proof using. destruct op; [apply length_count_in..|apply length_replicate]. Qed.

(** The chosen bucket is the only one. *)
Lemma in_bucket_chosen m sh n v k j c : m ≠ M_Double → fits m sh n → metric_ok m v → chosen sh n v k → (j <= S n)%nat →
  in_bucket (j =? S n)%nat (bucket_of m sh n j c) v = (j =? k)%nat.
Proof.
  intros Hm Hf Hv (Hk & Hlow & Hup) Hj. unfold in_bucket, bucket_of. cbn [bucket_floor bucket_ceiling].
  assert (∀ i, (k <= i)%nat → (k <= n)%nat → v < bound sh i) as Habove.
  { intros i Hi Hkn. pose proof (bound_mono m sh n k i Hf Hi). specialize (Hup Hkn). lia. }
  assert (arith_min (arith_of m) <= v) as Hmin by (destruct m; cbn in *; unfold is_u64 in *; [lia|lia|done]).
  destruct (lt_eq_lt_dec j k) as [[Hlt| ->]|Hgt].
  - rewrite (proj2 (Nat.eqb_neq j k)), (proj2 (Nat.eqb_neq j (S n))) by lia. apply andb_false_intro2.
    rewrite orb_false_r. apply Z.ltb_ge. by apply Hlow.
  - rewrite Nat.eqb_refl. apply andb_true_intro. split.
    + apply Z.leb_le. destruct k as [|k]; [done|]. apply Hlow. lia.
    + destruct (Nat.eqb_spec k (S n)); [by rewrite orb_true_r|]. rewrite orb_false_r. apply Z.ltb_lt. apply Hup. lia.
  - rewrite (proj2 (Nat.eqb_neq j k)) by lia. apply andb_false_intro1. apply Z.leb_gt. destruct j as [|j]; [lia|].
    apply Habove; lia.
Qed.

Lemma count_in_chosen m sh n counts v k c count : m ≠ M_Double → fits m sh n → metric_ok m v → chosen sh n v k →
  length counts = S (S n) → counts !! k = Some c →
  count_in m sh n counts v count = <[k := metric_add m c (count_as m count)]> counts.
Proof using.
  intros Hm Hf Hv Hc Hlen Hk. apply list_eq_same_length with (S (S n)); [by rewrite length_insert|by rewrite length_count_in|].
  intros j x y Hj. unfold count_in. rewrite list_lookup_imap. intros (z & Hz & ->)%fmap_Some.
  rewrite (in_bucket_chosen m sh n v k j z Hm Hf Hv Hc) by lia. destruct (Nat.eqb_spec j k) as [->|Hne].
  - rewrite list_lookup_insert_eq by lia. intros [= <-]. by rewrite Hk in Hz; injection Hz as <-.
  - rewrite list_lookup_insert_ne by done. rewrite Hz. by intros [= <-].
Qed.

(** Every value belongs to exactly one bucket. *)
Lemma one_bucket m sh n v : m ≠ M_Double → fits m sh n → metric_ok m v →
  ∃ k, (k <= S n)%nat ∧ ∀ j c, (j <= S n)%nat → in_bucket (j =? S n)%nat (bucket_of m sh n j c) v = (j =? k)%nat.
Proof using.
  intros Hm Hf Hv. destruct (bucket_index_spec m (no_op (T_Array m)) sh n v Hm Hf) as (k & Hc & _).
  exists k. split; [apply Hc|]. intros j c Hj. by eapply in_bucket_chosen.
Qed.

(** ** Slots *)

Lemma slot_read_mod m v : m ≠ M_Double → metric_ok m v → slot_read m (v mod 2 ^ 64) = v.
Proof.
  intros Hm Hok. destruct m; [| |done]; cbn [slot_read metric_ok] in *.
  - unfold as_i64, u64_size. unfold i64_min, i64_max in Hok. destruct (Z.ltb_spec (v mod 2 ^ 64) (2 ^ 63)) as [Hl|Hl].
    + destruct (decide (0 <= v)); [rewrite Z.mod_small; lia|]. exfalso. rewrite <- (Z_mod_plus_full v 1), Z.mod_small in Hl; lia.
    + destruct (decide (0 <= v)); [rewrite Z.mod_small in Hl; lia|]. rewrite <- (Z_mod_plus_full v 1), Z.mod_small; lia.
  - apply Z.mod_small. unfold is_u64, u64_size in Hok. lia.
Qed.

End buckets.

(** ** The writer *)

Section counting.
Context (text : Z → rstring) `{!HashMapOrder Z Z, !FloatNaN}.

Lemma lock_exec_wp c w d V : represents text d (w_state w) V → allowed text d V c → writes_buffer c = false →
  wp (lock_exec c) w
    (λ r w', ∃ s V', w' = with_state s w ∧ effect V c r V' ∧ represents text (depth c d) s V')
    (λ _ w', ∃ s, w' = with_state s w ∧ refused V c ∧ represents text d s V).
Proof using.
  intros Hr Ha Hb. pose proof (exec_wp text d _ V c Hr Ha) as Hwp. unfold wp, lock_exec in *. rewrite Hb in *.
  destruct (exec c (w_state w)) as [s [r|e|]]; [| |done]; cbn; rewrite orb_false_r.
  - destruct Hwp as (V' & He & HV'). by exists s, V'.
  - destruct Hwp as [Href Hs]. by exists s.
Qed.

(** A command on the value of a strong handle that cannot fail. *)
Lemma set_with_strong x c r ir w d V : h_inner x = I_Strong r → w_refs w !! r = Some ir →
  represents text d (w_state w) V → allowed text d V (c (ref_block ir)) → writes_buffer (c (ref_block ir)) = false →
  ~ refused V (c (ref_block ir)) → depth (c (ref_block ir)) d = d →
  wp (set_with x c) w (λ _ w', ∃ s V' o, w' = with_state s w ∧ effect V (c (ref_block ir)) o V' ∧ represents text d s V') (λ _ _, False).
Proof using.
  intros Hx Hir Hr Ha Hb Hno Hd. unfold set_with. apply wp_bind. unfold inner_ref, wp at 1. rewrite Hx, Hir. cbn.
  apply wp_bind, wp_attempt. eapply wp_mono; [by apply (lock_exec_wp _ w d V)|..].
  - intros o w' (s & V' & -> & He & HV'). apply wp_ret. rewrite Hd in HV'. by exists s, V', o.
  - intros e w' (s & _ & Href & _). done.
Qed.

Lemma set_with_no_op t c w : set_with (no_op t) c w = (w, Ok tt).
Proof using. done. Qed.

(** The histogram is the array [i] of the tree, with these counts. *)
Definition hist_at (w : World) (V : tree) (m : metric) (h : Histogram) (i : Z) (name : rstring) (p : Z) (counts : list Z) : Prop :=
  ∃ r ir vs, h_inner (hist_array h) = I_Strong r ∧ w_refs w !! r = Some ir ∧ ref_block ir = i ∧
    V !! i = Some (mkEntry name p (A_Array (metric_type m) (array_format (hist_shape h)) vs)) ∧
    slot_read m <$> vs = params (hist_shape h) ++ counts.

(** Changing a slot of an array. *)
Lemma slot_wp m (c : Z → command) F j x r ir w d V nm p f vs u :
  (∀ i o V', effect V (c i) o V' = revalued V i (slot_changed m j F) o V') →
  (∀ i, allowed text d V (c i) = (is_Some (V !! i) ∧ 0 <= j)) →
  (∀ i, refused V (c i) = ∀ e f vs, V !! i = Some e → e_value e = A_Array (metric_type m) f vs → len vs <= j) →
  (∀ i, writes_buffer (c i) = false ∧ depth (c i) d = d) →
  h_inner x = I_Strong r → w_refs w !! r = Some ir → represents text d (w_state w) V →
  V !! ref_block ir = Some (mkEntry nm p (A_Array (metric_type m) f vs)) → 0 <= j → vs !! Z.to_nat j = Some u →
  wp (set_with x c) w (λ _ w', ∃ s, w' = with_state s w ∧
    represents text d s (<[ref_block ir := mkEntry nm p (A_Array (metric_type m) f (<[Z.to_nat j := F u mod 2 ^ 64]> vs))]> V)) (λ _ _, False).
Proof using.
  intros Heff Hall Href Hbd Hx Hir Hr Hi Hj Hu. destruct (Hbd (ref_block ir)) as [Hb Hd].
  eapply wp_mono; [eapply (set_with_strong x c r ir w d V); try done|..].
  - rewrite Hall. split; [by eexists|done].
  - rewrite Href. intros Hno. specialize (Hno _ f vs Hi eq_refl). apply lookup_lt_Some in Hu. unfold len in Hno. lia.
  - intros [] w' (s & V' & o & -> & He & HV'). rewrite Heff in He. destruct He as (_ & e & a & He & (f' & vs' & u' & Ha & _ & Hu' & ->) & ->).
    rewrite Hi in He. injection He as <-. cbn in Ha. injection Ha as <- <-. rewrite Hu in Hu'. injection Hu' as <-. by exists s.
  - done.
Qed.

Lemma array_set_wp m j v x r ir w d V nm p f vs : h_inner x = I_Strong r → w_refs w !! r = Some ir →
  represents text d (w_state w) V → V !! ref_block ir = Some (mkEntry nm p (A_Array (metric_type m) f vs)) → 0 <= j < len vs →
  wp (array_set m x j v) w (λ _ w', ∃ s, w' = with_state s w ∧
    represents text d s (<[ref_block ir := mkEntry nm p (A_Array (metric_type m) f (<[Z.to_nat j := v mod 2 ^ 64]> vs))]> V)) (λ _ _, False).
Proof using.
  intros Hx Hir Hr Hi Hj. destruct (lookup_lt_is_Some_2 vs (Z.to_nat j)) as [u Hu]; [unfold len in Hj; lia|].
  eapply (slot_wp m (λ i, SetSlot m i j v) (λ _, v)); try done. lia.
Qed.

Lemma array_add_wp m j v x r ir w d V nm p f vs u : h_inner x = I_Strong r → w_refs w !! r = Some ir →
  represents text d (w_state w) V → V !! ref_block ir = Some (mkEntry nm p (A_Array (metric_type m) f vs)) →
  0 <= j → vs !! Z.to_nat j = Some u →
  wp (array_add m x j v) w (λ _ w', ∃ s, w' = with_state s w ∧
    represents text d s (<[ref_block ir := mkEntry nm p (A_Array (metric_type m) f
      (<[Z.to_nat j := metric_add m (slot_read m u) v mod 2 ^ 64]> vs))]> V)) (λ _ _, False).
Proof using.
  intros Hx Hir Hr Hi Hj Hu. by eapply (slot_wp m (λ i, AddSlot m i j v) (λ u, metric_add m (slot_read m u) v)).
Qed.

Lemma params_length sh : Z.of_nat (length (params sh)) = extra_slots sh - 2.
Proof using. by destruct sh. Qed.

(** A value is counted in its bucket. *)
Lemma insert_multiple_wp m h i nm p n counts v count w d V : m ≠ M_Double → fits m (hist_shape h) n → metric_ok m v →
  hist_slots h = Z.of_nat n + extra_slots (hist_shape h) → length counts = S (S n) → represents text d (w_state w) V →
  hist_at w V m h i nm p counts →
  wp (insert_multiple m h v count) w (λ _ w', ∃ e, represents text d (w_state w') (<[i := e]> V) ∧
    hist_at w' (<[i := e]> V) m h i nm p (count_in m (hist_shape h) n counts v count)) (λ _ _, False).
Proof using.
  intros Hm Hf Hv Hslots Hlen Hr (r & ir & vs & Hx & Hir & Hb & Hi & Hvs). set (sh := hist_shape h) in *.
  destruct (bucket_index_spec m (hist_array h) sh n v Hm Hf) as (k & Hc & Hidx).
  assert (mkHistogram (hist_array h) sh (Z.of_nat n + extra_slots sh) = h) as Hh by (rewrite <- Hslots; by destruct h).
  rewrite Hh in Hidx. unfold insert_multiple. apply wp_bind. eapply wp_lift; [exact Hidx|].
  destruct (lookup_lt_is_Some_2 counts k) as [c Hk]; [destruct Hc; lia|].
  rewrite (count_in_chosen m sh n counts v k c count) by done.
  assert ((slot_read m <$> vs) !! (length (params sh) + k)%nat = Some c) as Hl.
  { rewrite Hvs, lookup_app_r, <- Hk by lia. f_equal. lia. }
  rewrite list_lookup_fmap in Hl. apply fmap_Some in Hl as (u & Hu & Hcu). pose proof (params_length sh) as Hp. rewrite <- Hp.
  rewrite <- Hb in Hi. eapply wp_mono; [eapply (array_add_wp m _ _ _ r ir w d V nm p (array_format sh) vs u); try done; [lia|]| |done].
  { by replace (Z.to_nat _) with (length (params sh) + k)%nat by lia. }
  intros [] w' (s & -> & Hs). rewrite <- Hb. eexists. split; [exact Hs|]. exists r, ir.
  eexists. split_and!; [done|done|done|by rewrite lookup_insert_eq|].
  rewrite list_fmap_insert, Hvs, <- Hcu, slot_read_mod by (done || apply metric_add_ok).
  replace (Z.to_nat _) with (length (params sh) + k)%nat by lia. by rewrite insert_app_r.
Qed.

(** ** New histograms *)

(** Setting the slots of an array, one after the other. *)
Fixpoint set_slots (m : metric) (x : Handle) (j : Z) (vals : list Z) : st World Error unit :=
  match vals with
  | [] => mret tt
  | v :: vals => _ ← array_set m x j v; set_slots m x (j + 1) vals
  end.

Lemma set_slots_wp m x r ir d nm p f vals pre vs w V : m ≠ M_Double → Forall (metric_ok m) vals →
  h_inner x = I_Strong r → w_refs w !! r = Some ir → represents text d (w_state w) V →
  V !! ref_block ir = Some (mkEntry nm p (A_Array (metric_type m) f (pre ++ vs))) → (length vals <= length vs)%nat →
  wp (set_slots m x (len pre) vals) w (λ _ w', ∃ s vs', w' = with_state s w ∧
    represents text d s (<[ref_block ir := mkEntry nm p (A_Array (metric_type m) f (pre ++ vs'))]> V) ∧
    slot_read m <$> vs' = vals ++ drop (length vals) (slot_read m <$> vs)) (λ _ _, False).
Proof using.
  intros Hm Hok Hx. revert pre vs w V. induction Hok as [|v vals Hv Hok IH]; intros pre vs w V Hir Hr Hi Hlen; cbn [set_slots].
  - apply wp_ret. exists (w_state w), vs. split; [by destruct w|]. by rewrite (insert_id V _ _ Hi).
  - destruct vs as [|u vs]; [cbn in Hlen; lia|]. cbn in Hlen. apply wp_bind. pose proof (len_nonneg pre).
    eapply wp_mono; [eapply (array_set_wp m (len pre) v x r ir w d V nm p f); try done| |done].
    { rewrite len_app, len_cons. pose proof (len_nonneg vs). lia. }
    intros [] w1 (s1 & -> & Hr1). unfold len in Hr1. rewrite Nat2Z.id, insert_app_r_alt, Nat.sub_diag in Hr1 by lia. cbn [insert list_insert] in Hr1.
    specialize (IH (pre ++ [v mod 2 ^ 64]) vs (with_state s1 w) (<[ref_block ir := mkEntry nm p (A_Array (metric_type m) f (pre ++ v mod 2 ^ 64 :: vs))]> V)).
    rewrite len_app in IH. eapply wp_mono; [apply IH; [done|exact Hr1|by rewrite lookup_insert_eq, <- app_assoc|lia]| |done].
    intros [] w2 (s2 & vs2 & -> & Hr2 & Hvs2). exists s2, (v mod 2 ^ 64 :: vs2). split; [done|].
    rewrite insert_insert_eq, <- app_assoc in Hr2. split; [exact Hr2|]. cbn. by rewrite slot_read_mod, Hvs2.
Qed.

Lemma set_params_slots m x sh w : set_params m x sh w = set_slots m x 0 (params sh) w.
Proof using.
  destruct sh; cbn [set_params params set_slots]; change (0 + 1) with 1; change (1 + 1) with 2; unfold mbind, st_bind;
    repeat match goal with
    | |- context [array_set ?m ?x ?j ?v ?w] => destruct (array_set m x j v w) as [? [[]|?|]]; try reflexivity
    end.
Qed.

Lemma params_ok m sh n : fits m sh n → Forall (metric_ok m) (params sh).
Proof using.
  intros Hf. pose proof (offset_ok m) as Hoff. destruct sh as [floor step|floor step mult].
  - destruct Hf as (? & _ & ? & _). by repeat constructor.
  - specialize (Hoff floor step mult n 0%nat Hf). change (Z.of_nat 0) with 0 in Hoff. rewrite Z.pow_0_r, Z.mul_1_r in Hoff.
    destruct Hf as (? & _ & _ & ? & _). repeat constructor; [done|apply Hoff; lia|done].
Qed.

Lemma create_array_internal_create m node name slots f :
  create_array_internal m node name slots f = create (T_Array m) node (CreateArray m name slots f).
Proof using. by destruct m. Qed.

(** The array is new, or the handle does nothing. *)
Lemma create_array_wp m node name slots f r ir w d V : h_inner node = I_Strong r → w_refs w !! r = Some ir →
  represents text d (w_state w) V → live_or_root V (ref_block ir) → named text name → slots_fit slots →
  wp (create_array_internal m node name slots f) w
    (λ x w', (x = no_op (T_Array m) ∧ represents text d (w_state w') V) ∨
       ∃ r' ir' vs, h_inner x = I_Strong r' ∧ w_refs w' !! r' = Some ir' ∧ V !! ref_block ir' = None ∧ len vs = slots ∧
         represents text d (w_state w') (<[ref_block ir' := mkEntry (data name) (ref_block ir) (A_Array (metric_type m) f vs)]> V))
    (λ _ _, False).
Proof using.
  intros Hx Hir Hr Hl Hn Hs. rewrite create_array_internal_create. unfold create. apply wp_bind. unfold inner_ref, wp at 1.
  rewrite Hx, Hir. cbn. apply wp_bind, wp_attempt. eapply wp_mono; [by apply (lock_exec_wp _ w d V)|..].
  - intros o w' (s & V' & -> & (i & a & -> & _ & Hi & (vs & Hvs & _ & ->) & ->) & HV'). unfold wp, new_handle. cbn. right.
    exists (w_next w). eexists _, vs. cbn. rewrite lookup_insert_eq. by split_and!.
  - intros e w' (s & -> & _ & Hs'). apply wp_ret. by left.
Qed.

Lemma hist_clear_wp m h i nm p counts w d V : represents text d (w_state w) V → hist_at w V m h i nm p counts →
  wp (histogram_clear h) w (λ _ w', ∃ e, represents text d (w_state w') (<[i := e]> V) ∧
    hist_at w' (<[i := e]> V) m h i nm p (replicate (length counts) 0)) (λ _ _, False).
Proof using.
  intros Hr (r & ir & vs & Hx & Hir & <- & Hi & Hvs). unfold histogram_clear. pose proof (params_length (hist_shape h)) as Hp.
  assert (length vs = length (params (hist_shape h)) + length counts)%nat as Hlen by (by rewrite <- length_app, <- Hvs, length_fmap).
  eapply wp_mono; [eapply (set_with_strong _ _ r ir w d V); try done|..].
  - split_and!; [by eexists|lia|]. intros e en f vs' He Ha. rewrite Hi in He. injection He as <-. injection Ha as <- <- <-. unfold len. lia.
  - intros Hno. by eapply Hno.
  - intros [] w' (s & V' & o & -> & (_ & e & a & He & (en & f & vs' & Ha & ->) & ->) & HV'). rewrite Hi in He. injection He as <-.
    injection Ha as <- <- <-. eexists. split; [exact HV'|]. exists r, ir. eexists. split_and!; [done|done|done|by rewrite lookup_insert_eq|].
    rewrite fmap_app, fmap_take, Hvs, fmap_replicate, <- Hp, Nat2Z.id, take_app_length. f_equal.
    replace (length vs - _)%nat with (length counts) by lia. by destruct m.
  - done.
Qed.

Lemma hist_do_wp m h i nm p n counts op w d V : m ≠ M_Double → fits m (hist_shape h) n → op_ok m op →
  hist_slots h = Z.of_nat n + extra_slots (hist_shape h) → length counts = S (S n) → represents text d (w_state w) V →
  hist_at w V m h i nm p counts →
  wp (hist_do m h op) w (λ _ w', ∃ e, represents text d (w_state w') (<[i := e]> V) ∧
    hist_at w' (<[i := e]> V) m h i nm p (hist_step m (hist_shape h) n counts op)) (λ _ _, False).
Proof using.
  intros Hm Hf Hop Hslots Hlen Hr Hh. destruct op as [v|v c|]; cbn [hist_do hist_step].
  - by apply (insert_multiple_wp m h i nm p n counts v _ w d V).
  - destruct Hop. by apply (insert_multiple_wp m h i nm p n counts v _ w d V).
  - by apply hist_clear_wp.
Qed.

Lemma hist_ops_wp m h i nm p n ops counts w d V : m ≠ M_Double → fits m (hist_shape h) n → Forall (op_ok m) ops →
  hist_slots h = Z.of_nat n + extra_slots (hist_shape h) → length counts = S (S n) → represents text d (w_state w) V →
  hist_at w V m h i nm p counts →
  wp (each (hist_do m h) ops) w (λ _ w', ∃ e, represents text d (w_state w') (<[i := e]> V) ∧
    hist_at w' (<[i := e]> V) m h i nm p (foldl (hist_step m (hist_shape h) n) counts ops)) (λ _ _, False).
Proof using.
  intros Hm Hf Hops. revert counts w V. induction Hops as [|op ops Hop Hops IH]; intros counts w V Hslots Hlen Hr Hh; cbn [each foldl].
  - apply wp_ret. pose proof Hh as (r & ir & vs & _ & _ & _ & Hi & _). eexists. by rewrite (insert_id V i _ Hi).
  - apply wp_bind. eapply wp_mono; [by eapply (hist_do_wp m h i nm p n counts op w d V)| |done].
    intros [] w1 (e1 & Hr1 & Hh1).
    eapply wp_mono; [eapply (IH (hist_step m (hist_shape h) n counts op) w1 (<[i := e1]> V)); [done|by rewrite length_hist_step|done|done]| |done].
    intros [] w2 (e2 & Hr2 & Hh2). exists e2. by rewrite insert_insert_eq in Hr2, Hh2.
Qed.

(** A histogram that could not be made does nothing. *)
Lemma hist_ops_no_op m sh n ops w : m ≠ M_Double → fits m sh n →
  each (hist_do m (mkHistogram (no_op (T_Array m)) sh (Z.of_nat n + extra_slots sh))) ops w = (w, Ok tt).
Proof using.
  intros Hm Hf. induction ops as [|op ops IH]; [done|]. cbn [each].
  assert (hist_do m (mkHistogram (no_op (T_Array m)) sh (Z.of_nat n + extra_slots sh)) op w = (w, Ok tt)) as Hop.
  { destruct op as [v|v c|]; cbn [hist_do]; [| |done];
      destruct (bucket_index_spec m (no_op (T_Array m)) sh n v Hm Hf) as (k & _ & Hk);
      unfold insert_one, insert_multiple, mbind, st_bind, lift; by rewrite Hk. }
  unfold mbind at 1, st_bind at 1. rewrite Hop. exact IH.
Qed.

(** A new histogram has its parameters, and the counts that the memory holds. *)
Lemma histogram_new_wp m node name sh n r ir w d V : m ≠ M_Double → fits m sh n →
  slots_fit (Z.of_nat n + extra_slots sh) → h_inner node = I_Strong r → w_refs w !! r = Some ir →
  represents text d (w_state w) V → live_or_root V (ref_block ir) → named text name →
  wp (histogram_new m node name sh (Z.of_nat n)) w
    (λ h w', hist_shape h = sh ∧ hist_slots h = Z.of_nat n + extra_slots sh ∧
      ((hist_array h = no_op (T_Array m) ∧ represents text d (w_state w') V) ∨
       ∃ i e counts, V !! i = None ∧ length counts = S (S n) ∧ represents text d (w_state w') (<[i := e]> V) ∧
         hist_at w' (<[i := e]> V) m h i (data name) (ref_block ir) counts))
    (λ _ _, False).
Proof using.
  intros Hm Hf Hslots Hx Hir Hr Hl Hn. pose proof (params_length sh) as Hp. pose proof Hslots as [Hs0 Hs1].
  change MIN_ORDER_SIZE with 16 in Hs1. unfold histogram_new. apply wp_bind. eapply wp_lift; [by rewrite checked_u64_fits by lia|].
  apply wp_bind. eapply wp_mono; [by eapply (create_array_wp m node name _ _ r ir w d V); try done| |done].
  intros x w1 [[-> Hr1]|(r1 & ir1 & vs & Hx1 & Hir1 & Hfresh & Hvs & Hr1)]; cbn beta.
  - apply wp_bind. eapply wp_run; [by destruct sh|]. apply wp_ret. split; [done|]. split; [done|]. by left.
  - apply wp_bind. unfold wp at 1. rewrite set_params_slots. fold (wp (S := World) (E := Error) (A := unit)).
    eapply wp_mono; [eapply (set_slots_wp m x r1 ir1 d (data name) (ref_block ir) (array_format sh) (params sh) [] vs w1); try done| |done].
    + by eapply params_ok.
    + by rewrite lookup_insert_eq.
    + unfold len in Hvs. lia.
    + intros [] w2 (s2 & vs2 & -> & Hr2 & Hvs2). cbn [app] in Hr2. rewrite insert_insert_eq in Hr2. apply wp_ret.
      split; [done|]. split; [done|]. right. eexists (ref_block ir1), _, _. split; [done|]. split; [|split; [exact Hr2|]].
      2:{ exists r1, ir1, vs2. split_and!; try done. by rewrite lookup_insert_eq. }
      rewrite length_drop, length_fmap. unfold len in Hvs. lia.
Qed.
End counting.

(** The property that a reader makes of an array. *)
Definition array_of (m : metric) (name : rstring) (content : ArrayContent) : Property :=
  match m with
  | M_Int => Property_IntArray name content
  | M_Uint => Property_UintArray name content
  | M_Double => Property_DoubleArray name content
  end.

Lemma property_of_array `{!FloatNaN} m name p f vs content : ArrayContent_new (arith_of m) (slot_read m <$> vs) f = Ok content →
  property_of (mkEntry name p (A_Array (metric_type m) f vs)) = Ok (Some (array_of m name content)).
Proof.
  intros Hc. unfold property_of. cbn [e_value e_name]. destruct m; cbn [metric_type array_property arith_of slot_read array_of] in *.
  - change (slot_read M_Int) with as_i64 in Hc. by rewrite Hc.
  - change (slot_read M_Uint) with (@id Z) in Hc. rewrite list_fmap_id in Hc. by rewrite Hc.
  - change (slot_read M_Double) with (@id Z) in Hc. rewrite list_fmap_id in Hc. by rewrite Hc.
Qed.


#[local] Existing Instance sample_order.
#[local] Existing Instance quiet_nan.

