(* ===== verification/Hierarchy.v ===== *)
(** Hierarchies of named nodes and properties, the form in which readers hand out Inspect
    data ([src/lib/diagnostics/hierarchy/rust/src/lib.rs]), the iterator over their
    properties, which runs on an explicit stack ([trie.rs]), and the filter that keeps what
    a set of selectors matches.  The regular expressions of selectors are parameters. *)
From Stdlib Require Import ZArith Lia.
From stdpp Require Import base gmap strings list.
From S2P Require Import Prelude Format InspectFormat InspectReader.
Local Open Scope Z_scope.

(** ** Hierarchies *)

Inductive MissingValueReason := LinkNotFound | LinkParseFailure | LinkInvalid | LinkNeverExpanded.

Record MissingValue := mkMissingValue { missing_reason : MissingValueReason; missing_name : rstring }.

Inductive DiagnosticsHierarchy :=
| mkDiagnostics (name : rstring) (properties : list Property) (children : list DiagnosticsHierarchy)
    (missing : list MissingValue).

Definition diag_name (h : DiagnosticsHierarchy) : rstring := let 'mkDiagnostics name _ _ _ := h in name.
Definition diag_properties (h : DiagnosticsHierarchy) : list Property := let 'mkDiagnostics _ ps _ _ := h in ps.
Definition diag_children (h : DiagnosticsHierarchy) : list DiagnosticsHierarchy := let 'mkDiagnostics _ _ cs _ := h in cs.
Definition diag_missing (h : DiagnosticsHierarchy) : list MissingValue := let 'mkDiagnostics _ _ _ ms := h in ms.

Definition set_properties (ps : list Property) (h : DiagnosticsHierarchy) : DiagnosticsHierarchy :=
  mkDiagnostics (diag_name h) ps (diag_children h) (diag_missing h).
Definition set_children (cs : list DiagnosticsHierarchy) (h : DiagnosticsHierarchy) : DiagnosticsHierarchy :=
  mkDiagnostics (diag_name h) (diag_properties h) cs (diag_missing h).

Definition diagnostics_new (name : rstring) (ps : list Property) (cs : list DiagnosticsHierarchy) : DiagnosticsHierarchy :=
  mkDiagnostics name ps cs [].
Definition diagnostics_new_root : DiagnosticsHierarchy := diagnostics_new (str "root") [] [].

(** [Property::name]. *)
Definition property_name (p : Property) : rstring :=
  match p with
  | Property_String name _ | Property_Bytes name _ | Property_Int name _ | Property_Uint name _
  | Property_Double name _ | Property_Bool name _ | Property_DoubleArray name _ | Property_IntArray name _
  | Property_UintArray name _ | Property_StringList name _ => name
  end.

(** What a reader has found, with its links as missing values
    ([Into<DiagnosticsHierarchy> for PartialNodeHierarchy], [reader/mod.rs]). *)
Fixpoint into_diagnostics (h : PartialNodeHierarchy) : DiagnosticsHierarchy :=
  match h with
  | mkHierarchy name ps cs links =>
    mkDiagnostics name ps (into_diagnostics <$> cs)
      ((λ l, mkMissingValue LinkNeverExpanded (link_name l)) <$> links)
  end.

(** ** Order *)

(** Strings compare by their bytes. *)
Fixpoint str_cmp (a b : rstring) : comparison :=
  match a, b with
  | [], [] => Eq
  | [], _ => Lt
  | _, [] => Gt
  | x :: a, y :: b => match x ?= y with Eq => str_cmp a b | c => c end
  end.

(** [s.parse::<u64>()], which takes a sign. *)
Definition parse_u64 (s : rstring) : option Z :=
  match s with
  | 43 :: x :: s => from_str_radix 10 (x :: s)
  | _ => from_str_radix 10 s
  end.

Definition name_partial_cmp (a b : rstring) : comparison :=
  match parse_u64 a, parse_u64 b with
  | Some n, Some m => n ?= m
  | _, _ => str_cmp a b
  end.

(** [slice::sort_by] is stable; its result is only specified for a total order. *)
Fixpoint insert_by {A} (cmp : A → A → comparison) (x : A) (l : list A) : list A :=
  match l with
  | [] => [x]
  | y :: r => match cmp x y with Gt => y :: insert_by cmp x r | _ => x :: y :: r end
  end.

Definition sort_by {A} (cmp : A → A → comparison) (l : list A) : list A := foldr (insert_by cmp) [] l.

(** [sort]; the names of the children are not changed by sorting them. *)
Fixpoint diag_sort (h : DiagnosticsHierarchy) : DiagnosticsHierarchy :=
  match h with
  | mkDiagnostics name ps cs ms =>
    mkDiagnostics name
      (sort_by (λ p q, name_partial_cmp (property_name p) (property_name q)) ps)
      (sort_by (λ c d, name_partial_cmp (diag_name c) (diag_name d)) (diag_sort <$> cs))
      ms
  end.

(** ** Changes *)

(** What is done with the node that [get_or_add_child_mut] returns. *)
Fixpoint get_or_add_child_mut (name : rstring) (f : DiagnosticsHierarchy → DiagnosticsHierarchy)
    (cs : list DiagnosticsHierarchy) : list DiagnosticsHierarchy :=
  match cs with
  | [] => [f (diagnostics_new name [] [])]
  | c :: cs => if decide (diag_name c = name) then f c :: cs else c :: get_or_add_child_mut name f cs
  end.

(** The loop of [get_or_add_node]. *)
Fixpoint descend (path : list rstring) (f : DiagnosticsHierarchy → DiagnosticsHierarchy)
    (h : DiagnosticsHierarchy) : DiagnosticsHierarchy :=
  match path with
  | [] => f h
  | name :: path => set_children (get_or_add_child_mut name (descend path f) (diag_children h)) h
  end.

Definition get_or_add_node {E} (path : list rstring) (f : DiagnosticsHierarchy → DiagnosticsHierarchy)
    (h : DiagnosticsHierarchy) : outcome E DiagnosticsHierarchy :=
  match path with
  | [] => Panic
  | first :: path => if decide (first = diag_name h) then Ok (descend path f h) else Panic
  end.

Definition add_child (c h : DiagnosticsHierarchy) : DiagnosticsHierarchy :=
  set_children (diag_children h ++ [c]) h.
Definition diag_add_property (p : Property) (h : DiagnosticsHierarchy) : DiagnosticsHierarchy :=
  set_properties (diag_properties h ++ [p]) h.
Definition add_property_at_path {E} (path : list rstring) (p : Property) (h : DiagnosticsHierarchy) :
    outcome E DiagnosticsHierarchy :=
  get_or_add_node path (diag_add_property p) h.
Definition add_missing (reason : MissingValueReason) (name : rstring) (h : DiagnosticsHierarchy) : DiagnosticsHierarchy :=
  mkDiagnostics (diag_name h) (diag_properties h) (diag_children h) (diag_missing h ++ [mkMissingValue reason name]).

(** ** Lookups *)

Definition get_property (name : rstring) (h : DiagnosticsHierarchy) : option Property :=
  List.find (λ p, bool_decide (property_name p = name)) (diag_properties h).
Definition get_child (name : rstring) (h : DiagnosticsHierarchy) : option DiagnosticsHierarchy :=
  List.find (λ c, bool_decide (diag_name c = name)) (diag_children h).

Definition get_child_by_path (path : list rstring) (h : DiagnosticsHierarchy) : option DiagnosticsHierarchy :=
  foldl (λ r name, r ≫= get_child name) (Some h) path.

Definition get_property_by_path {E} (path : list rstring) (h : DiagnosticsHierarchy) : outcome E (option Property) :=
  match last path with
  | None => Panic
  | Some name => Ok (get_child_by_path (removelast path) h ≫= get_property name)
  end.

(** ** The iterator *)

Inductive TrieIterableKeyState := AddKeyFragment (key : rstring) | PopKeyFragment.

Record TrieIterableWorkEvent := mkEvent {
  key_state : TrieIterableKeyState; potential_child : option DiagnosticsHierarchy }.

(** The top of [work_stack] is its head. *)
Record DiagnosticsHierarchyIterator := mkIterator {
  it_root : DiagnosticsHierarchy;
  iterator_initialized : bool;
  work_stack : list TrieIterableWorkEvent;
  curr_key : list rstring;
  curr_node : option DiagnosticsHierarchy;
  curr_val_index : nat;
}.

Definition iterator_new (h : DiagnosticsHierarchy) : DiagnosticsHierarchyIterator :=
  mkIterator h false [] [] None 0.

(** [get_children]: of children with the same name the last one stays. *)
Definition get_children (h : DiagnosticsHierarchy) : gmap rstring DiagnosticsHierarchy :=
  list_to_map (reverse ((λ c, (diag_name c, c)) <$> diag_children h)).

Definition item : Type := list rstring * option Property.

Section iterator.
Context {E : Type} `{!HashMapOrder rstring DiagnosticsHierarchy}.

(** The events for the children of a node, pushed one after the other. *)
Definition push_children (h : DiagnosticsHierarchy) (stack : list TrieIterableWorkEvent) : list TrieIterableWorkEvent :=
  foldl (λ stack '(k, c), mkEvent (AddKeyFragment k) (Some c) :: stack) stack (hash_map_iter (get_children h)).

Definition iterator_initialize (it : DiagnosticsHierarchyIterator) : DiagnosticsHierarchyIterator :=
  mkIterator (it_root it) true
    (push_children (it_root it) (mkEvent PopKeyFragment None :: work_stack it))
    (curr_key it ++ [diag_name (it_root it)]) (Some (it_root it)) (curr_val_index it).

Definition is_curr_node_fully_processed (it : DiagnosticsHierarchyIterator) : outcome E bool :=
  match curr_node it with
  | None => Panic
  | Some n => Ok (bool_decide (diag_properties n = []) || (length (diag_properties n) <=? curr_val_index it)%nat)
  end.

Definition get_next_value (it : DiagnosticsHierarchyIterator) : outcome E (DiagnosticsHierarchyIterator * Property) :=
  match curr_node it with
  | None => Panic
  | Some n =>
    match diag_properties n !! curr_val_index it with
    | None => Panic
    | Some p =>
      Ok (mkIterator (it_root it) (iterator_initialized it) (work_stack it) (curr_key it) (curr_node it)
            (S (curr_val_index it)), p)
    end
  end.

(** The loop of [next] and what follows it. *)
Fixpoint next_loop (fuel : nat) (it : DiagnosticsHierarchyIterator) :
    outcome E (DiagnosticsHierarchyIterator * option item) :=
  match fuel with
  | O => Panic
  | S fuel =>
    processed ← is_curr_node_fully_processed it;
    if (processed : bool) then
      match work_stack it with
      | [] => Ok (it, None)
      | event :: stack =>
        match key_state event with
        | PopKeyFragment =>
          next_loop fuel (mkIterator (it_root it) (iterator_initialized it) stack (removelast (curr_key it))
                            (curr_node it) (curr_val_index it))
        | AddKeyFragment k =>
          match potential_child event with
          | None => Panic
          | Some child =>
            let it := mkIterator (it_root it) (iterator_initialized it)
                        (push_children child (mkEvent PopKeyFragment None :: stack))
                        (curr_key it ++ [k]) (Some child) 0 in
            processed ← is_curr_node_fully_processed it;
            if (processed : bool) then Ok (it, Some (curr_key it, None)) else next_loop fuel it
          end
        end
      end
    else
      '(it', p) ← get_next_value it;
      Ok (it', Some (curr_key it, Some p))
  end.

(** A round of the loop takes an event off the stack or is the last but one. *)
Definition iterator_next (it : DiagnosticsHierarchyIterator) : outcome E (DiagnosticsHierarchyIterator * option item) :=
  let loop it := next_loop (S (S (length (work_stack it)))) it in
  if iterator_initialized it then loop it
  else
    let it := iterator_initialize it in
    processed ← is_curr_node_fully_processed it;
    if (processed : bool) then Ok (it, Some (curr_key it, None)) else loop it.

(** All items. *)
Fixpoint collect (fuel : nat) (it : DiagnosticsHierarchyIterator) : outcome E (list item) :=
  match fuel with
  | O => Panic
  | S fuel =>
    '(it, x) ← iterator_next it;
    match x with
    | None => Ok []
    | Some x => xs ← collect fuel it; Ok (x :: xs)
    end
  end.
End iterator.

(** The items of a node, and of a hierarchy in the order of its children. *)
Definition node_items (key : list rstring) (ps : list Property) : list item :=
  match ps with
  | [] => [(key, None)]
  | _ => (λ p, (key, Some p)) <$> ps
  end.

Fixpoint entries (key : list rstring) (h : DiagnosticsHierarchy) : list item :=
  match h with
  | mkDiagnostics _ ps cs _ =>
    node_items key ps ++ concat ((λ c, entries (key ++ [diag_name c]) c) <$> cs)
  end.

(** There are not more items than these. *)
Definition property_iter {E : Type} `{!HashMapOrder rstring DiagnosticsHierarchy} (h : DiagnosticsHierarchy) : outcome E (list item) :=
  collect (S (length (entries [diag_name h] h))) (iterator_new h).

(** ** Filters *)

(** [selectors::is_special_character] and [sanitize_string_for_selectors]
    ([src/lib/diagnostics/selectors/src/selectors.rs]); the special characters are single
    bytes. *)
Definition is_special_character (c : Z) : bool :=
  (c =? 92) || (c =? 47) || (c =? 58) || (c =? 42) || (c =? 32) || (c =? 9).

Fixpoint sanitize_string_for_selectors (s : rstring) : rstring :=
  match s with
  | [] => []
  | c :: s => (if is_special_character c then [92; c] else [c]) ++ sanitize_string_for_selectors s
  end.

(** The path of a node as selectors see it. *)
Definition formatted_node_path (path : list rstring) : rstring :=
  join (str "/") (sanitize_string_for_selectors <$> path) ++ str "/".

Inductive HierarchyError := Regex.

Section filter.
Context {RegexSet : Type} (RegexSet_new : list rstring → option RegexSet) (regex_set_len : RegexSet → nat)
  (is_match : RegexSet → rstring → bool) (matches : RegexSet → rstring → list nat).

Record InspectHierarchyMatcher := mkMatcher {
  component_node_selector : RegexSet; node_property_selectors : list rstring }.

Context (matcher : InspectHierarchyMatcher).

(** The variables of [filter_hierarchy]; the node [working_node] is kept as its path. *)
Record filter_state := mkFilter {
  nodes_added : nat;
  new_root : DiagnosticsHierarchy;
  working_node : list rstring;
  working_node_path : option rstring;
  working_property_regex_set : option RegexSet;
}.

(** The regular expressions for the properties of a node. *)
Definition property_regex_strings (path : rstring) : outcome HierarchyError (list rstring) :=
  try_map (λ i, match node_property_selectors matcher !! i with Some s => Ok s | None => Panic end)
    (matches (component_node_selector matcher) path).

(** The selection of the regular expressions, unless the node is the same as before. *)
Definition select_regex_set (node_path : list rstring) (s : filter_state) :
    outcome HierarchyError (filter_state * RegexSet) :=
  let path := formatted_node_path node_path in
  if decide (working_node_path s = Some path) then
    match working_property_regex_set s with
    | Some r => Ok (s, r)
    | None => Panic
    end
  else
    strings ← property_regex_strings path;
    r ← ok_or (RegexSet_new strings) Regex;
    if (0 <? regex_set_len r)%nat then
      root ← get_or_add_node node_path id (new_root s);
      Ok (mkFilter (S (nodes_added s)) root node_path (Some path) (Some r), r)
    else Ok (mkFilter (nodes_added s) (new_root s) (working_node s) (Some path) (Some r), r).

(** One round of the loop. *)
Definition filter_step (s : filter_state) (x : item) : outcome HierarchyError filter_state :=
  '(s, r) ← select_regex_set x.1 s;
  if (regex_set_len r =? 0)%nat then Ok s
  else
    match x.2 with
    | None => Ok s
    | Some p =>
      if is_match r (sanitize_string_for_selectors (property_name p)) then
        root ← get_or_add_node (working_node s) (diag_add_property p) (new_root s);
        Ok (mkFilter (nodes_added s) root (working_node s) (working_node_path s) (working_property_regex_set s))
      else Ok s
    end.

Definition filter_hierarchy `{!HashMapOrder rstring DiagnosticsHierarchy} (root_node : DiagnosticsHierarchy) :
    outcome HierarchyError (option DiagnosticsHierarchy) :=
  items ← property_iter root_node;
  s ← try_fold filter_step
        (mkFilter 0 (diagnostics_new (diag_name root_node) [] []) [diag_name root_node] None None) items;
  Ok (if (0 <? nodes_added s)%nat then Some (new_root s) else None).
End filter.
