(* ===== verification/HierarchyCorrect.v ===== *)
(** What the iterator over a hierarchy visits and what a filter keeps; how far the order of
    names is one. *)
From Stdlib Require Import ZArith Lia.
From stdpp Require Import base gmap strings list.
From S2P Require Import Prelude Format InspectFormat InspectReader Hierarchy.
Local Open Scope Z_scope.

Section hierarchy_ind.
Context (P : DiagnosticsHierarchy → Prop).
Context (HP : ∀ name ps cs ms, Forall P cs → P (mkDiagnostics name ps cs ms)).

Fixpoint hierarchy_ind (h : DiagnosticsHierarchy) : P h :=
  match h with
  | mkDiagnostics name ps cs ms =>
    HP name ps cs ms
      ((fix go cs : Forall P cs :=
          match cs with
          | [] => List.Forall_nil P
          | c :: cs => @List.Forall_cons _ P c cs (hierarchy_ind c) (go cs)
          end) cs)
  end.
End hierarchy_ind.

(** ** The iterator *)

(** Siblings have different names, everywhere. *)
Fixpoint distinct (h : DiagnosticsHierarchy) : Prop :=
  match h with
  | mkDiagnostics _ _ cs _ =>
    NoDup (diag_name <$> cs) ∧ foldr (λ c P, distinct c ∧ P) True cs
  end.

Lemma distinct_Forall cs : foldr (λ c P, distinct c ∧ P) True cs ↔ Forall distinct cs.
Proof. induction cs as [|c cs IH]; cbn; [done|]. by rewrite IH, Forall_cons. Qed.

Lemma list_to_map_submseteq {A} (l : list (rstring * A)) : map_to_list (list_to_map l : gmap rstring A) ⊆+ l.
Proof.
  induction l as [|[k x] l IH]; [by rewrite list_to_map_nil, map_to_list_empty|]. rewrite list_to_map_cons. rewrite <- insert_delete_eq.
  rewrite map_to_list_insert by apply lookup_delete_eq. apply submseteq_skip. etrans; [|exact IH].
  apply map_to_list_submseteq, delete_subseteq.
Qed.

Section iteration.
Context `{!HashMapOrder rstring DiagnosticsHierarchy}.

(** The children in the order in which they are visited. *)
Definition kids (h : DiagnosticsHierarchy) : list (rstring * DiagnosticsHierarchy) :=
  reverse (hash_map_iter (get_children h)).

Definition named_children (h : DiagnosticsHierarchy) : list (rstring * DiagnosticsHierarchy) :=
  (λ c, (diag_name c, c)) <$> diag_children h.

Lemma kids_submseteq h : kids h ⊆+ named_children h.
Proof.
  unfold kids. rewrite reverse_Permutation, hash_map_iter_perm. unfold get_children.
  etrans; [apply list_to_map_submseteq|]. by rewrite reverse_Permutation.
Qed.

Lemma kids_Permutation h : NoDup (diag_name <$> diag_children h) → kids h ≡ₚ named_children h.
Proof.
  intros Hnd. unfold kids. rewrite reverse_Permutation, hash_map_iter_perm. unfold get_children.
  rewrite map_to_list_to_map; [by rewrite reverse_Permutation|].
  rewrite fmap_reverse, reverse_Permutation, <- list_fmap_compose. done.
Qed.

(** What the subtree of a node gives, in the order of the iterator. *)
Inductive visits (key : list rstring) (h : DiagnosticsHierarchy) : list item → Prop :=
| visits_node ls : Forall2 (λ c l, visits (key ++ [c.1]) c.2 l) (kids h) ls →
    visits key h (node_items key (diag_properties h) ++ concat ls).

(** What is left of a stack. *)
Inductive pending : list rstring → list TrieIterableWorkEvent → list item → Prop :=
| pending_nil key : pending key [] []
| pending_pop key stack l : pending (removelast key) stack l →
    pending key (mkEvent PopKeyFragment None :: stack) l
| pending_add key k c stack l l' : visits (key ++ [k]) c l → pending key stack l' →
    pending key (mkEvent (AddKeyFragment k) (Some c) :: stack) (l ++ l').

Lemma push_children_kids h stack :
  push_children h stack = ((λ c, mkEvent (AddKeyFragment c.1) (Some c.2)) <$> kids h) ++ stack.
Proof.
  unfold push_children, kids. rewrite fmap_reverse. revert stack.
  induction (hash_map_iter (get_children h)) as [|[k c] l IH]; intros stack; [done|]. cbn [foldl]. rewrite IH, fmap_cons, reverse_cons. by rewrite <- app_assoc.
Qed.

Lemma pending_children key cs ls stack l' : Forall2 (λ c l, visits (key ++ [c.1]) c.2 l) cs ls → pending key stack l' →
  pending key (((λ c, mkEvent (AddKeyFragment c.1) (Some c.2)) <$> cs) ++ stack) (concat ls ++ l').
Proof. intros Hcs Hst. induction Hcs as [|c l cs ls Hc Hcs IH]; [done|]. cbn. rewrite <- app_assoc. by constructor. Qed.

(** The iterator is going to give these items. *)
Definition todo (it : DiagnosticsHierarchyIterator) (l : list item) : Prop :=
  ∃ n rest, iterator_initialized it = true ∧ curr_node it = Some n ∧
    l = ((λ p, (curr_key it, Some p)) <$> drop (curr_val_index it) (diag_properties n)) ++ rest ∧
    pending (curr_key it) (work_stack it) rest.

Lemma processed_spec {E} it n : curr_node it = Some n →
  is_curr_node_fully_processed (E := E) it = Ok (bool_decide (drop (curr_val_index it) (diag_properties n) = [])).
Proof.
  intros Hn. unfold is_curr_node_fully_processed. rewrite Hn. f_equal. apply eq_bool_prop_intro.
  rewrite bool_decide_spec, orb_True, bool_decide_spec. split.
  - intros [->|Hl%Is_true_true%Nat.leb_le]; [by rewrite drop_nil|by apply drop_ge].
  - intros Hd. right. apply Is_true_true, Nat.leb_le. apply (f_equal length) in Hd. rewrite length_drop in Hd. cbn in Hd. lia.
Qed.

(** A value of the current node. *)
Lemma next_value {E} fuel it n p ps rest : iterator_initialized it = true → curr_node it = Some n →
  drop (curr_val_index it) (diag_properties n) = p :: ps → pending (curr_key it) (work_stack it) rest →
  ∃ it', next_loop (E := E) (S fuel) it = Ok (it', Some (curr_key it, Some p)) ∧
    todo it' (((λ p, (curr_key it, Some p)) <$> ps) ++ rest).
Proof.
  intros Hinit Hn Hd Hst. cbn [next_loop]. rewrite (processed_spec it n Hn), bool_decide_eq_false_2 by (by rewrite Hd).
  cbn [mbind outcome_bind]. unfold get_next_value. rewrite Hn.
  assert (diag_properties n !! curr_val_index it = Some p) as ->
    by (rewrite <- (Nat.add_0_r (curr_val_index it)), <- lookup_drop, Hd; done).
  cbn. eexists. split; [done|]. exists n, rest. split_and!; [done|done| |done]. cbn. f_equal. f_equal.
  rewrite <- Nat.add_1_r, <- drop_drop, Hd. done.
Qed.

Lemma next_loop_spec {E} fuel it l : todo it l → (S (length (work_stack it)) < fuel)%nat →
  match l with
  | [] => ∃ it', next_loop (E := E) fuel it = Ok (it', None)
  | x :: l => ∃ it', next_loop (E := E) fuel it = Ok (it', Some x) ∧ todo it' l
  end.
Proof.
  intros (n & rest & Hinit & Hn & -> & Hst) Hfuel. destruct fuel as [|fuel]; [lia|].
  destruct (drop (curr_val_index it) (diag_properties n)) as [|p ps] eqn:Hd; [|by apply next_value with n].
  cbn [fmap list_fmap app].
  revert fuel Hfuel. remember (curr_key it) as key eqn:Hk. remember (work_stack it) as stack eqn:Hs.
  revert it Hinit Hn Hd Hk Hs. induction Hst as [key|key stack l Hst IH|key k c stack l l' Hc Hst IH];
    intros it Hinit Hn Hd Hk Hs fuel Hfuel; cbn [next_loop];
    rewrite (processed_spec it n Hn), bool_decide_eq_true_2 by done; cbn [mbind outcome_bind]; rewrite <- Hs; cbn [key_state potential_child].
  - by exists it.
  - destruct fuel as [|fuel]; [lia|]. cbn in Hfuel. rewrite <- Hk. by apply IH; [..|lia].
  - set (it' := mkIterator _ _ _ _ _ _). destruct Hc as [ls Hls].
    assert (pending (curr_key it') (work_stack it') (concat ls ++ l')) as Hpend.
    { cbn. rewrite push_children_kids, <- Hk. apply pending_children; [done|]. constructor. by rewrite removelast_last. }
    rewrite (processed_spec it' c eq_refl). cbn [curr_val_index it' drop]. rewrite drop_0. cbn [mbind outcome_bind].
    destruct (diag_properties c) as [|p ps] eqn:Hp.
    + rewrite bool_decide_eq_true_2 by done. cbn. exists it'. rewrite <- Hk. split; [done|]. exists c, (concat ls ++ l').
      split_and!; [exact Hinit|done| |exact Hpend]. cbn. by rewrite Hp.
    + rewrite bool_decide_eq_false_2 by done. destruct fuel as [|fuel]; [cbn in Hfuel; lia|].
      destruct (next_value (E := E) fuel it' c p ps (concat ls ++ l') Hinit eq_refl) as (it2 & Hrun & Htodo); [by rewrite drop_0|exact Hpend|].
      exists it2. cbn [node_items fmap list_fmap app]. rewrite Hrun. cbn [curr_key it']. rewrite <- Hk. split; [done|].
      cbn [curr_key it'] in Htodo. rewrite <- Hk in Htodo. by rewrite <- app_assoc.
Qed.

Lemma collect_spec {E} fuel it l : todo it l → (length l < fuel)%nat → collect (E := E) fuel it = Ok l.
Proof.
  revert it l. induction fuel as [|fuel IH]; intros it l Htodo Hfuel; [lia|]. cbn [collect]. unfold iterator_next.
  pose proof Htodo as (_ & _ & Hinit & _). rewrite Hinit.
  pose proof (next_loop_spec (E := E) (S (S (length (work_stack it)))) it l Htodo ltac:(lia)) as Hnext.
  destruct l as [|x l]; [by destruct Hnext as (it' & ->)|]. destruct Hnext as (it' & -> & Htodo'). cbn [mbind outcome_bind].
  cbn in Hfuel. rewrite (IH it' l Htodo') by lia. done.
Qed.

(** From the first call on. *)
Lemma collect_start {E} h l fuel : visits [diag_name h] h l → (length l < fuel)%nat →
  collect (E := E) fuel (iterator_new h) = Ok l.
Proof.
  intros [ls Hls] Hfuel. destruct fuel as [|fuel]; [lia|]. cbn [collect]. unfold iterator_next. cbn [iterator_initialized iterator_new].
  set (it := iterator_initialize (iterator_new h)).
  assert (pending (curr_key it) (work_stack it) (concat ls)) as Hpend.
  { cbn. rewrite push_children_kids, <- (app_nil_r (concat ls)). apply pending_children; [done|]. repeat constructor. }
  rewrite (processed_spec it h eq_refl). cbn [curr_val_index it iterator_initialize iterator_new mbind outcome_bind]. rewrite drop_0.
  destruct (diag_properties h) as [|p ps] eqn:Hp; cbn [node_items] in *.
  - rewrite bool_decide_eq_true_2 by done. cbn [mbind outcome_bind]. rewrite (collect_spec fuel it (concat ls)); [done| |cbn in Hfuel; lia].
    exists h, (concat ls). split_and!; [done|done| |exact Hpend]. cbn. by rewrite Hp.
  - rewrite bool_decide_eq_false_2 by done.
    destruct (next_value (E := E) (S (length (work_stack it))) it h p ps (concat ls) eq_refl eq_refl) as (it2 & -> & Htodo);
      [by rewrite <- Hp|exact Hpend|].
    cbn [mbind outcome_bind]. cbn in Hfuel. rewrite (collect_spec fuel it2 _ Htodo) by (cbn; lia). done.
Qed.

(** ** What is visited *)

Lemma concat_submseteq {A B} (f : A → list B) (l k : list A) : l ⊆+ k → concat (f <$> l) ⊆+ concat (f <$> k).
Proof.
  induction 1 as [|x l k _ IH|x y l|x l k _ IH|l k m _ IH1 _ IH2]; cbn; [done|by apply submseteq_app| | |by etrans].
  - rewrite !app_assoc. apply submseteq_app; [|done]. by rewrite (Permutation_app_comm (f y)).
  - etrans; [exact IH|]. apply submseteq_inserts_l. done.
Qed.

(** The nodes of a hierarchy: their paths and their properties. *)
Definition node_entry : Type := list rstring * list Property.

Fixpoint nodes_of (key : list rstring) (h : DiagnosticsHierarchy) : list node_entry :=
  match h with
  | mkDiagnostics _ ps cs _ => (key, ps) :: concat ((λ c, nodes_of (key ++ [diag_name c]) c) <$> cs)
  end.

Definition items_of (ns : list node_entry) : list item := concat ((λ n, node_items n.1 n.2) <$> ns).

Lemma items_of_app ns ms : items_of (ns ++ ms) = items_of ns ++ items_of ms.
Proof. unfold items_of. by rewrite fmap_app, concat_app. Qed.

Lemma items_of_cons n ns : items_of (n :: ns) = node_items n.1 n.2 ++ items_of ns.
Proof. done. Qed.
Lemma items_of_concat nss : items_of (concat nss) = concat (items_of <$> nss).
Proof. induction nss as [|ns nss IH]; [done|]. rewrite fmap_cons. cbn [concat]. by rewrite items_of_app, IH. Qed.

Lemma nodes_named key h :
  nodes_of key h = (key, diag_properties h) :: concat ((λ c, nodes_of (key ++ [c.1]) c.2) <$> named_children h).
Proof. destruct h as [name ps cs ms]. cbn. f_equal. f_equal. by rewrite <- list_fmap_compose. Qed.

Lemma entries_nodes h key : entries key h = items_of (nodes_of key h).
Proof.
  revert key. induction h as [name ps cs ms IH] using hierarchy_ind. intros key. cbn [entries nodes_of].
  rewrite items_of_cons, items_of_concat, <- list_fmap_compose. cbn. f_equal. f_equal. apply list_fmap_ext.
  intros i c Hc. rewrite Forall_forall in IH. by apply (IH c), list_elem_of_lookup_2 with i.
Qed.

Lemma visits_exist h key : ∃ ns, visits key h (items_of ns) ∧ ns ⊆+ nodes_of key h ∧ (distinct h → ns ≡ₚ nodes_of key h).
Proof.
  revert key. induction h as [name ps cs ms IH] using hierarchy_ind. intros key.
  set (h := mkDiagnostics name ps cs ms).
  assert (∃ nss, Forall2 (λ c l, visits (key ++ [c.1]) c.2 l) (kids h) (items_of <$> nss) ∧
    concat nss ⊆+ concat ((λ c, nodes_of (key ++ [c.1]) c.2) <$> kids h) ∧
    (Forall distinct cs → concat nss ≡ₚ concat ((λ c, nodes_of (key ++ [c.1]) c.2) <$> kids h))) as (nss & Hls & Hsub & Hperm).
  { assert (Forall (λ c, c.2 ∈ cs) (kids h)) as Hk.
    { apply Forall_forall. intros c Hc. eapply elem_of_submseteq in Hc; [|apply kids_submseteq].
      apply list_elem_of_fmap in Hc as (d & -> & Hd). done. }
    induction Hk as [|[k c] l Hc Hk IHk]; [exists []; split_and!; [constructor|done|done]|].
    destruct IHk as (nss & Hls & Hsub & Hperm). rewrite Forall_forall in IH. destruct (IH c Hc (key ++ [k])) as (ns1 & Hl1 & Hs1 & Hp1).
    exists (ns1 :: nss). split_and!; [by constructor|by cbn; apply submseteq_app|]. intros Hd. cbn. rewrite Hperm by done.
    rewrite Hp1; [done|]. rewrite Forall_forall in Hd. by apply Hd. }
  exists ((key, ps) :: concat nss). rewrite (nodes_named key h). split_and!.
  - rewrite items_of_cons, items_of_concat. by apply (visits_node key h).
  - apply submseteq_skip. etrans; [exact Hsub|]. by apply concat_submseteq, kids_submseteq.
  - intros [Hnd Hd%distinct_Forall]. apply Permutation_skip. rewrite Hperm by done. by rewrite (kids_Permutation h).
Qed.

Lemma property_iter_nodes {E} h : ∃ ns, property_iter (E := E) h = Ok (items_of ns) ∧
  ns ⊆+ nodes_of [diag_name h] h ∧ (distinct h → ns ≡ₚ nodes_of [diag_name h] h).
Proof.
  destruct (visits_exist h [diag_name h]) as (ns & Hl & Hsub & Hperm). exists ns. split_and!; [|done|done].
  apply collect_start; [done|]. rewrite entries_nodes. pose proof (submseteq_length _ _ (concat_submseteq (λ n, node_items n.1 n.2) _ _ Hsub)).
  unfold items_of. lia.
Qed.
End iteration.

(** ** Paths *)

Lemma get_child_by_path_cons k p h : get_child_by_path (k :: p) h = get_child k h ≫= get_child_by_path p.
Proof.
  unfold get_child_by_path. cbn. destruct (get_child k h) as [c|]; cbn; [done|]. by induction p.
Qed.

(** The properties of the node at a path below the root. *)
Definition props_at (p : list rstring) (h : DiagnosticsHierarchy) : option (list Property) :=
  diag_properties <$> get_child_by_path p h.

Lemma props_at_nil h : props_at [] h = Some (diag_properties h).
Proof. done. Qed.
Lemma props_at_cons k p h : props_at (k :: p) h = get_child k h ≫= props_at p.
Proof. unfold props_at. rewrite get_child_by_path_cons. by destruct (get_child k h). Qed.

Lemma get_child_Some k h c : distinct h → get_child k h = Some c ↔ c ∈ diag_children h ∧ diag_name c = k.
Proof.
  destruct h as [name ps cs ms]. intros [Hnd _]. unfold get_child. cbn. split.
  - intros [Hc Hk%bool_decide_eq_true]%List.find_some. by apply list_elem_of_In in Hc.
  - intros [Hc <-]. induction cs as [|d cs IH]; [by apply elem_of_nil in Hc|]. cbn in *. apply NoDup_cons in Hnd as [Hnin Hnd].
    apply elem_of_cons in Hc as [<-|Hc]; [by rewrite bool_decide_eq_true_2|]. rewrite bool_decide_eq_false_2; [by apply IH|].
    intros E. apply Hnin. rewrite E. by apply list_elem_of_fmap_2.
Qed.

Lemma distinct_child h c : distinct h → c ∈ diag_children h → distinct c.
Proof. destruct h as [name ps cs ms]. intros [_ Hd%distinct_Forall] Hc. rewrite Forall_forall in Hd. by apply Hd. Qed.

Lemma elem_of_nodes h key n : distinct h → n ∈ nodes_of key h ↔ ∃ p, n.1 = key ++ p ∧ props_at p h = Some n.2.
Proof.
  revert key. induction h as [name ps cs ms IH] using hierarchy_ind. intros key Hd. cbn [nodes_of].
  rewrite elem_of_cons, list_elem_of_In, List.in_concat. setoid_rewrite <- list_elem_of_In. split.
  - intros [->|(ns & Hns & Hn)]; [exists []; by rewrite app_nil_r|]. apply list_elem_of_fmap in Hns as (c & -> & Hc).
    rewrite Forall_forall in IH. apply (IH c Hc) in Hn as (p & Hkey & Hp); [|by eapply (distinct_child _ c Hd)].
    exists (diag_name c :: p). rewrite Hkey, <- app_assoc. split; [done|]. rewrite props_at_cons.
    by rewrite (proj2 (get_child_Some _ _ c Hd)).
  - intros ([|k p] & Hkey & Hp).
    + left. rewrite app_nil_r in Hkey. cbn in Hp. destruct n. cbn in *. congruence.
    + right. rewrite props_at_cons in Hp. apply bind_Some in Hp as (c & [Hc <-]%get_child_Some & Hp); [|done].
      eexists. split; [by apply list_elem_of_fmap_2|]. rewrite Forall_forall in IH. apply (IH c Hc); [by eapply (distinct_child _ c Hd)|].
      exists p. by rewrite <- app_assoc.
Qed.

Lemma nodes_prefix h key n : n ∈ nodes_of key h → key `prefix_of` n.1.
Proof.
  revert key. induction h as [name ps cs ms IH] using hierarchy_ind. intros key. cbn [nodes_of].
  rewrite elem_of_cons, list_elem_of_In, List.in_concat. setoid_rewrite <- list_elem_of_In.
  intros [->|(ns & Hns & Hn)]; [done|]. apply list_elem_of_fmap in Hns as (c & -> & Hc). rewrite Forall_forall in IH.
  apply (IH c Hc) in Hn. etrans; [|exact Hn]. by apply prefix_app_r.
Qed.

Lemma nodes_NoDup h key : distinct h → NoDup (nodes_of key h).*1.
Proof.
  revert key. induction h as [name ps cs ms IH] using hierarchy_ind. intros key Hd. pose proof Hd as [Hnd _]. cbn [nodes_of].
  assert ((concat ((λ c, nodes_of (key ++ [diag_name c]) c) <$> cs)).*1 = cs ≫= λ c, (nodes_of (key ++ [diag_name c]) c).*1) as Heq.
  { clear. induction cs as [|c cs IH]; [done|]. rewrite fmap_cons. cbn [concat]. rewrite fmap_app, IH. done. }
  assert (∀ c x, x ∈ (nodes_of (key ++ [diag_name c]) c).*1 → ∃ q, x = key ++ diag_name c :: q) as Hpre.
  { intros c x (n & -> & Hn)%list_elem_of_fmap. apply nodes_prefix in Hn as [q ->]. exists q. by rewrite <- app_assoc. }
  rewrite fmap_cons, Heq. constructor.
  - intros (c & Hx & Hc)%list_elem_of_bind. apply Hpre in Hx as [q Hq]. apply (f_equal length) in Hq. rewrite length_app in Hq. cbn in Hq. lia.
  - apply NoDup_bind; [|intros c Hc; rewrite Forall_forall in IH; apply (IH c Hc); by eapply (distinct_child _ c Hd)|by eapply NoDup_fmap_1].
    intros c1 c2 x Hc1 Hc2 [q1 ->]%Hpre [q2 Hq]%Hpre. apply app_inv_head in Hq. injection Hq as Hname _.
    assert (get_child (diag_name c1) (mkDiagnostics name ps cs ms) = Some c1) as E1 by (by apply get_child_Some).
    assert (get_child (diag_name c1) (mkDiagnostics name ps cs ms) = Some c2) as E2 by (by apply get_child_Some).
    congruence.
Qed.

(** ** Adding properties *)

Definition add_all (qs : list Property) (h : DiagnosticsHierarchy) : DiagnosticsHierarchy :=
  set_properties (diag_properties h ++ qs) h.

Lemma add_all_nil h : add_all [] h = h.
Proof. destruct h. unfold add_all, set_properties. cbn. by rewrite app_nil_r. Qed.

Lemma descend_name q f h : (∀ c, diag_name (f c) = diag_name c) → diag_name (descend q f h) = diag_name h.
Proof. intros Hf. destruct q; cbn; [apply Hf|by destruct h]. Qed.

Lemma descend_ext q f g h : (∀ c, f c = g c) → descend q f h = descend q g h.
Proof.
  intros Hfg. revert h. induction q as [|k q IH]; intros h; cbn; [apply Hfg|]. f_equal.
  induction (diag_children h) as [|c cs IHc]; cbn; [by rewrite IH|]. case_decide; [by rewrite IH|by rewrite IHc].
Qed.

Lemma descend_descend q f g h : (∀ c, diag_name (f c) = diag_name c) →
  descend q g (descend q f h) = descend q (g ∘ f) h.
Proof.
  intros Hf. revert h. induction q as [|k q IH]; intros h; cbn; [done|]. unfold set_children. cbn. f_equal.
  induction (diag_children h) as [|c cs IHc]; cbn.
  - rewrite decide_True; [by rewrite IH|]. by rewrite descend_name.
  - case_decide as Hc; cbn; [rewrite decide_True; [by rewrite IH|by rewrite descend_name]|].
    rewrite decide_False by done. by rewrite IHc.
Qed.

Lemma get_child_get_or_add k j g h : (∀ c, diag_name (g c) = diag_name c) →
  get_child j (set_children (get_or_add_child_mut k g (diag_children h)) h) =
    if decide (j = k) then Some (g (default (diagnostics_new k [] []) (get_child k h))) else get_child j h.
Proof.
  intros Hg. unfold get_child. destruct h as [name ps cs ms]. cbn. induction cs as [|c cs IH]; cbn.
  - rewrite Hg. cbn. case_decide as Hj; [by rewrite bool_decide_eq_true_2|by rewrite bool_decide_eq_false_2].
  - destruct (decide (diag_name c = k)) as [Hc|Hc]; cbn.
    + rewrite Hg, Hc. case_decide as Hj; [by rewrite !bool_decide_eq_true_2|]. by rewrite !(bool_decide_eq_false_2 (k = j)) by done.
    + rewrite (bool_decide_eq_false_2 (diag_name c = k)) by done.
      destruct (decide (diag_name c = j)) as [Hcj|Hcj]; [|by rewrite (bool_decide_eq_false_2 (diag_name c = j))].
      rewrite (bool_decide_eq_true_2 (diag_name c = j)) by done. by rewrite decide_False by congruence.
Qed.

(** What adding properties at a path does to every node. *)
Lemma props_at_descend q qs p h : props_at p (descend q (add_all qs) h) =
  if decide (p = q) then Some (default [] (props_at p h) ++ qs)
  else if decide (p `prefix_of` q) then Some (default [] (props_at p h)) else props_at p h.
Proof.
  revert p h. induction q as [|k q IH]; intros p h; cbn [descend].
  - destruct p as [|j p]; [done|]. rewrite decide_False by done. rewrite decide_False by (by intros ?%prefix_nil_inv). by rewrite !props_at_cons.
  - destruct p as [|j p].
    + rewrite decide_False, decide_True by (done || apply prefix_nil). done.
    + rewrite !props_at_cons. rewrite get_child_get_or_add by (intros; by apply descend_name).
      destruct (decide (j = k)) as [->|Hj].
      * cbn [mbind option_bind]. rewrite IH.
        assert (default [] (props_at p (default (diagnostics_new k [] []) (get_child k h))) = default [] (get_child k h ≫= props_at p)) as ->.
        { destruct (get_child k h) as [c|]; [done|]. cbn. destruct p as [|j p]; [done|]. by rewrite props_at_cons. }
        destruct (decide (p = q)) as [->|Hpq]; [by rewrite decide_True|]. rewrite (decide_False (P := k :: p = k :: q)) by congruence.
        destruct (decide (p `prefix_of` q)) as [Hpre|Hpre]; [by rewrite decide_True by (by apply prefix_cons)|].
        rewrite decide_False by (by intros ?%prefix_cons_inv_2). destruct (get_child k h) as [c|]; [done|]. cbn.
        destruct p as [|j p]; [by destruct Hpre; apply prefix_nil|]. by rewrite props_at_cons.
      * rewrite decide_False by congruence. rewrite decide_False; [done|]. by intros ?%prefix_cons_inv_1.
Qed.

(** ** Paths of selectors *)

Lemma sanitize_inj a b x y :
  sanitize_string_for_selectors a ++ 47 :: x = sanitize_string_for_selectors b ++ 47 :: y → a = b ∧ x = y.
Proof.
  revert b. induction a as [|c a IH]; intros [|d b]; cbn [sanitize_string_for_selectors app].
  - by intros [= ->].
  - destruct (is_special_character d) eqn:Hd; intros [= Hd47 ?]. by subst.
  - destruct (is_special_character c) eqn:Hc; intros [= Hc47 ?]. by subst.
  - destruct (is_special_character c) eqn:Hc, (is_special_character d) eqn:Hd; cbn [app]; intros [= Hcd Heq].
    + destruct (IH _ Heq) as [-> ->]. by subst.
    + by subst.
    + by subst.
    + destruct (IH _ Heq) as [-> ->]. by subst.
Qed.

Lemma formatted_concat k p :
  formatted_node_path (k :: p) = concat ((λ s, sanitize_string_for_selectors s ++ [47]) <$> k :: p).
Proof.
  unfold formatted_node_path. change (str "/") with [47]. revert k. induction p as [|j p IH]; intros k; [cbn; by rewrite app_nil_r|].
  rewrite (fmap_cons _ k), (fmap_cons _ k). cbn [concat]. rewrite <- (IH j). rewrite fmap_cons. cbn [join]. by rewrite <- !app_assoc.
Qed.

Lemma formatted_inj k p k' p' : formatted_node_path (k :: p) = formatted_node_path (k' :: p') → k :: p = k' :: p'.
Proof.
  rewrite !formatted_concat. revert k k' p'. induction p as [|j p IH]; intros k k' p'; rewrite !fmap_cons; cbn [concat];
    rewrite <- !app_assoc; cbn [app]; intros [-> Heq]%sanitize_inj; destruct p' as [|j' p']; try done.
  - rewrite fmap_cons in Heq. cbn in Heq. by destruct (sanitize_string_for_selectors j').
  - cbn in Heq. by destruct (sanitize_string_for_selectors j).
  - f_equal. apply IH. rewrite !fmap_cons in *. cbn [concat] in *. rewrite <- !app_assoc in *. exact Heq.
Qed.

(** ** The filter *)

Section filtering.
Context {RegexSet : Type} (RegexSet_new : list rstring → option RegexSet) (regex_set_len : RegexSet → nat)
  (is_match : RegexSet → rstring → bool) (matches : RegexSet → rstring → list nat)
  (matcher : InspectHierarchyMatcher (RegexSet := RegexSet)).

(** What is known of regular expressions: the length of a set, and that the indices that a
    set gives are those of selectors. *)
Definition regex_set_law : Prop :=
  (∀ l r, RegexSet_new l = Some r → regex_set_len r = length l) ∧
  (∀ path i, i ∈ matches (component_node_selector matcher) path → (i < length (node_property_selectors matcher))%nat).

(** The selectors of properties that apply to a node, and the properties that they keep. *)
Definition selectors_at (path : list rstring) : list rstring :=
  omap (λ i, node_property_selectors matcher !! i) (matches (component_node_selector matcher) (formatted_node_path path)).

Definition kept (path : list rstring) (ps : list Property) : list Property :=
  match RegexSet_new (selectors_at path) with
  | Some r => filter (λ p, is_match r (sanitize_string_for_selectors (property_name p)) = true) ps
  | None => []
  end.

Context (Hlaw : regex_set_law).

Notation step := (filter_step RegexSet_new regex_set_len is_match matches matcher).

Lemma property_regex_strings_spec path : property_regex_strings matches matcher (formatted_node_path path) = Ok (selectors_at path).
Proof using Hlaw.
  unfold property_regex_strings, selectors_at. destruct Hlaw as [_ Hidx]. specialize (Hidx (formatted_node_path path)).
  induction (matches _ _) as [|i l IH]; [done|]. cbn [try_map omap list_omap].
  destruct (lookup_lt_is_Some_2 (node_property_selectors matcher) i) as [s Hs]; [apply Hidx; left|]. rewrite Hs. cbn [mbind outcome_bind].
  rewrite IH; [done|]. intros j Hj. apply Hidx. by right.
Qed.

Lemma get_or_add_node_descend {E} k q f h : diag_name h = k → get_or_add_node (E := E) (k :: q) f h = Ok (descend q f h).
Proof using. intros <-. cbn. by rewrite decide_True. Qed.

Lemma add_all_add q a p h : descend q (diag_add_property p) (descend q (add_all a) h) = descend q (add_all (a ++ [p])) h.
Proof using.
  rewrite descend_descend by done. apply descend_ext. intros c. unfold add_all, diag_add_property, set_properties. cbn. by rewrite <- app_assoc.
Qed.

(** A round after the selection. *)
Definition keep_item (r : RegexSet) (x : option Property) (s : filter_state (RegexSet := RegexSet)) :
    outcome HierarchyError filter_state :=
  if (regex_set_len r =? 0)%nat then Ok s
  else
    match x with
    | None => Ok s
    | Some p =>
      if is_match r (sanitize_string_for_selectors (property_name p)) then
        root ← get_or_add_node (working_node s) (diag_add_property p) (new_root s);
        Ok (mkFilter (nodes_added s) root (working_node s) (working_node_path s) (working_property_regex_set s))
      else Ok s
    end.

Lemma step_selects key x s : step s (key, x) =
  '(s', r) ← select_regex_set RegexSet_new regex_set_len matches matcher key s; keep_item r x s'.
Proof using. done. Qed.

Lemma step_same key r x s : working_node_path s = Some (formatted_node_path key) → working_property_regex_set s = Some r →
  step s (key, x) = keep_item r x s.
Proof using. intros Hp Hr. rewrite step_selects. unfold select_regex_set. by rewrite decide_True, Hr. Qed.

(** The properties of a node whose regular expressions have been selected. *)
Lemma filter_properties k q r ps added a h path :
  diag_name h = k → path = formatted_node_path (k :: q) → regex_set_len r ≠ 0%nat →
  try_fold step (mkFilter added (descend q (add_all a) h) (k :: q) (Some path) (Some r)) ((λ p, (k :: q, Some p)) <$> ps) =
    Ok (mkFilter added
          (descend q (add_all (a ++ filter (λ p, is_match r (sanitize_string_for_selectors (property_name p)) = true) ps)) h)
          (k :: q) (Some path) (Some r)).
Proof using.
  intros Hn -> Hr. revert a. induction ps as [|p ps IH]; intros a; [by rewrite filter_nil, app_nil_r|].
  rewrite fmap_cons. cbn [try_fold]. rewrite (step_same (k :: q) r) by done. unfold keep_item.
  rewrite (proj2 (Nat.eqb_neq _ _)) by done. rewrite filter_cons.
  destruct (is_match r (sanitize_string_for_selectors (property_name p))) eqn:Hm.
  - cbn [working_node new_root nodes_added working_node_path working_property_regex_set].
    rewrite get_or_add_node_descend by (by rewrite descend_name). cbn [mbind outcome_bind]. rewrite add_all_add, IH.
    rewrite decide_True by done. by rewrite <- app_assoc.
  - rewrite decide_False by done. cbn [mbind outcome_bind]. apply IH.
Qed.

(** Nothing is kept of a node without selectors. *)
Lemma filter_skips k q r ps added h wn path : path = formatted_node_path (k :: q) → regex_set_len r = 0%nat →
  let s := mkFilter added h wn (Some path) (Some r) in
  try_fold step s ((λ p, (k :: q, Some p)) <$> ps) = Ok s.
Proof using.
  intros -> Hr s. induction ps as [|p ps IH]; [done|]. rewrite fmap_cons. cbn [try_fold].
  rewrite (step_same (k :: q) r) by done. unfold keep_item. rewrite (proj2 (Nat.eqb_eq _ _)) by done. exact IH.
Qed.

(** A node, from a state in which another node was the last one. *)
Lemma filter_node k q ps s : diag_name (new_root s) = k → working_node_path s ≠ Some (formatted_node_path (k :: q)) →
  try_fold step s (node_items (k :: q) ps) =
    match RegexSet_new (selectors_at (k :: q)) with
    | None => Err Regex
    | Some r =>
      Ok (if decide (selectors_at (k :: q) = []) then
            mkFilter (nodes_added s) (new_root s) (working_node s) (Some (formatted_node_path (k :: q))) (Some r)
          else
            mkFilter (S (nodes_added s)) (descend q (add_all (kept (k :: q) ps)) (new_root s)) (k :: q)
              (Some (formatted_node_path (k :: q))) (Some r))
    end.
Proof using Hlaw.
  intros Hn Hw.
  assert (select_regex_set RegexSet_new regex_set_len matches matcher (k :: q) s =
    match RegexSet_new (selectors_at (k :: q)) with
    | None => Err Regex
    | Some r =>
      Ok (if decide (selectors_at (k :: q) = []) then
            mkFilter (nodes_added s) (new_root s) (working_node s) (Some (formatted_node_path (k :: q))) (Some r)
          else
            mkFilter (S (nodes_added s)) (descend q (add_all []) (new_root s)) (k :: q)
              (Some (formatted_node_path (k :: q))) (Some r), r)
    end) as Hsel.
  { unfold select_regex_set. rewrite decide_False by done. rewrite property_regex_strings_spec. cbn [mbind outcome_bind].
    destruct (RegexSet_new (selectors_at (k :: q))) as [r|] eqn:Hr; [|done]. cbn [ok_or mbind outcome_bind].
    rewrite (proj1 Hlaw _ _ Hr). destruct (selectors_at (k :: q)) as [|x xs]; [done|]. cbn [length Nat.ltb Nat.leb].
    rewrite get_or_add_node_descend by done. cbn [mbind outcome_bind]. do 3 f_equal. apply descend_ext. intros c. by rewrite add_all_nil. }
  destruct ps as [|p ps]; cbn [node_items].
  - cbn [try_fold]. unfold kept. rewrite step_selects, Hsel. destruct (RegexSet_new (selectors_at (k :: q))) as [r|] eqn:Hr; [|done].
    cbn [mbind outcome_bind]. rewrite filter_nil. unfold keep_item. by destruct (regex_set_len r =? 0)%nat.
  - rewrite fmap_cons. cbn [try_fold]. unfold kept. rewrite step_selects, Hsel.
    destruct (RegexSet_new (selectors_at (k :: q))) as [r|] eqn:Hr; [|done]. cbn [mbind outcome_bind]. unfold keep_item.
    rewrite (proj1 Hlaw _ _ Hr). destruct (decide (selectors_at (k :: q) = [])) as [Hs|Hs].
    + rewrite Hs. cbn [length Nat.eqb mbind outcome_bind]. by apply filter_skips; [|rewrite (proj1 Hlaw _ _ Hr), Hs].
    + assert (length (selectors_at (k :: q)) ≠ 0%nat) as Hl by (by intros ?%nil_length_inv).
      rewrite (proj2 (Nat.eqb_neq _ _)) by done. rewrite filter_cons. cbn [working_node new_root nodes_added working_node_path working_property_regex_set].
      destruct (is_match r (sanitize_string_for_selectors (property_name p))) eqn:Hm.
      * rewrite get_or_add_node_descend by (by rewrite descend_name). cbn [mbind outcome_bind]. rewrite add_all_add.
        rewrite filter_properties; [|done|done|by rewrite (proj1 Hlaw _ _ Hr)]. by rewrite decide_True.
      * cbn [mbind outcome_bind]. rewrite filter_properties; [|done|done|by rewrite (proj1 Hlaw _ _ Hr)]. by rewrite decide_False.
Qed.

(** ** All nodes *)

(** The node has selectors, and what it brings. *)
Definition selected (n : node_entry) : Prop := selectors_at n.1 ≠ [].
Definition below (p : list rstring) (n : node_entry) : Prop := selected n ∧ p `prefix_of` tail n.1.
Definition brings (p : list rstring) (n : node_entry) : list Property :=
  if decide (selectors_at n.1 = []) then [] else if decide (p = tail n.1) then kept n.1 n.2 else [].

#[local] Instance selected_dec n : Decision (selected n).
Proof using. unfold selected. apply _. Defined.
#[local] Instance below_dec p n : Decision (below p n).
Proof using. unfold below. apply _. Defined.

Definition place (h : DiagnosticsHierarchy) (n : node_entry) : DiagnosticsHierarchy :=
  if decide (selectors_at n.1 = []) then h else descend (tail n.1) (add_all (kept n.1 n.2)) h.

Lemma place_name h n : diag_name (place h n) = diag_name h.
Proof using. unfold place. case_decide; [done|by rewrite descend_name]. Qed.

Lemma props_at_place p h n : props_at p (place h n) =
  if decide (below p n) then Some (default [] (props_at p h) ++ brings p n) else props_at p h.
Proof using.
  unfold place, below, brings, selected. destruct (decide (selectors_at n.1 = [])) as [Hs|Hs]; [by rewrite decide_False by tauto|].
  rewrite props_at_descend. destruct (decide (p = tail n.1)) as [->|Hp]; [by rewrite decide_True|].
  rewrite app_nil_r. destruct (decide (p `prefix_of` tail n.1)); [by rewrite decide_True|by rewrite decide_False by tauto].
Qed.

Lemma brings_nil p n : ~ below p n → brings p n = [].
Proof using.
  unfold brings, below, selected. intros Hb. destruct (decide (selectors_at n.1 = [])); [done|].
  destruct (decide (p = tail n.1)) as [->|]; [|done]. by destruct Hb.
Qed.

Lemma brings_other p n : p ≠ tail n.1 → brings p n = [].
Proof using. intros Hp. unfold brings. destruct (decide (selectors_at n.1 = [])); [done|]. by rewrite decide_False. Qed.

(** A node brings its properties to its own path only. *)
Lemma concat_brings ns k p ps : NoDup ns.*1 → Forall (λ n, head n.1 = Some k) ns → (k :: p, ps) ∈ ns →
  selectors_at (k :: p) ≠ [] → concat (brings p <$> ns) = kept (k :: p) ps.
Proof using.
  intros Hnd Hk Hin Hs. induction ns as [|n ns IH]; [by apply elem_of_nil in Hin|]. cbn in Hnd.
  apply NoDup_cons in Hnd as [Hnin Hnd]. apply Forall_cons in Hk as [Hkn Hk]. rewrite fmap_cons. cbn [concat].
  assert (∀ m, m ∈ ns → n.1 = k :: p ∨ m.1 = k :: p → (n.1 = k :: p → p ≠ tail m.1) ∧ (m.1 = k :: p → p ≠ tail n.1)) as Hother.
  { intros m Hm Hor. assert (n.1 ≠ m.1) as Hne by (intros E; apply Hnin; rewrite E; by apply list_elem_of_fmap_2).
    rewrite Forall_forall in Hk. specialize (Hk m Hm). destruct (n.1), (m.1); cbn in *; split; congruence. }
  apply elem_of_cons in Hin as [<-|Hin].
  - unfold brings at 1. cbn [fst snd tail]. rewrite decide_False, decide_True by done.
    assert (concat (brings p <$> ns) = []) as ->; [|apply app_nil_r]. apply concat_nil_Forall, Forall_fmap, Forall_forall. intros m Hm.
    apply brings_other. by apply (Hother m Hm); [left|].
  - rewrite (brings_other p n); [by apply IH|]. by apply (Hother _ Hin); [right|].
Qed.

Lemma props_at_places p ns h : props_at p (foldl place h ns) =
  if decide (Exists (below p) ns) then Some (default [] (props_at p h) ++ concat (brings p <$> ns)) else props_at p h.
Proof using.
  revert h. induction ns as [|n ns IH]; intros h; [rewrite decide_False; [done|by intros ?%Exists_nil]|].
  cbn [foldl]. rewrite IH, props_at_place, fmap_cons. cbn [concat]. destruct (decide (below p n)) as [Hb|Hb].
  - rewrite (decide_True (P := Exists (below p) (n :: ns))) by (by left). cbn [from_option id]. case_decide as Hns; [by rewrite <- app_assoc|].
    f_equal. f_equal. rewrite <- (app_nil_r (brings p n)) at 1. f_equal. symmetry. apply concat_nil_Forall, Forall_fmap, Forall_forall.
    intros m Hm. apply brings_nil. intros Hb'. apply Hns, Exists_exists. by exists m.
  - rewrite (brings_nil p n Hb). cbn [app]. destruct (decide (Exists (below p) ns)); [by rewrite decide_True by (by right)|].
    rewrite decide_False; [done|]. by intros [?|?]%Exists_cons.
Qed.

Lemma filter_nodes k ns s : NoDup ns.*1 → Forall (λ n, head n.1 = Some k) ns → diag_name (new_root s) = k →
  Forall (λ n, working_node_path s ≠ Some (formatted_node_path n.1)) ns →
  (∃ n, n ∈ ns ∧ RegexSet_new (selectors_at n.1) = None ∧ try_fold step s (items_of ns) = Err Regex) ∨
  (∃ s', try_fold step s (items_of ns) = Ok s' ∧ new_root s' = foldl place (new_root s) ns ∧
     nodes_added s' = (nodes_added s + length (filter selected ns))%nat).
Proof using Hlaw.
  revert s. induction ns as [|[key ps] ns IH]; intros s Hnd Hk Hn Hw; [right; exists s; by rewrite filter_nil, Nat.add_0_r|].
  apply NoDup_cons in Hnd as [Hnin Hnd]. apply Forall_cons in Hk as [Hkey Hk], Hw as [Hwn Hw]. cbn in Hkey, Hwn, Hnin.
  destruct key as [|k' q]; [done|]. injection Hkey as ->. rewrite items_of_cons, try_fold_app. cbn [fst snd].
  rewrite (filter_node k q ps s Hn Hwn). destruct (RegexSet_new (selectors_at (k :: q))) as [r|] eqn:Hr;
    [|left; exists (k :: q, ps); split_and!; [by left|done|done]]. cbn [mbind outcome_bind].
  assert (∀ added wn s1, s1 = mkFilter added (place (new_root s) (k :: q, ps)) wn (Some (formatted_node_path (k :: q))) (Some r) →
    (∃ n, n ∈ ns ∧ RegexSet_new (selectors_at n.1) = None ∧ try_fold step s1 (items_of ns) = Err Regex) ∨
    (∃ s', try_fold step s1 (items_of ns) = Ok s' ∧ new_root s' = foldl place (place (new_root s) (k :: q, ps)) ns ∧
       nodes_added s' = (added + length (filter selected ns))%nat)) as Hrest.
  { intros added wn s1 ->. apply IH; [done|done|by cbn; rewrite place_name|]. rewrite Forall_forall in Hk |- *. intros n Hnn. cbn. intros [= Heq].
    specialize (Hk n Hnn). destruct n as [[|j q'] ps']; [done|]. injection Hk as ->. cbn in Heq. apply formatted_inj in Heq.
    apply Hnin. apply list_elem_of_fmap. exists (k :: q', ps'). by rewrite Heq. }
  cbn [foldl]. rewrite filter_cons. destruct (decide (selectors_at (k :: q) = [])) as [Hs|Hs].
  - assert (place (new_root s) (k :: q, ps) = new_root s) as Hpl by (unfold place; cbn [fst]; by rewrite decide_True). rewrite Hpl in *.
    rewrite decide_False by (intros Hx; by apply Hx). destruct (Hrest (nodes_added s) (working_node s) _ eq_refl) as [(n & ? & ? & ?)|?];
      [left; exists n; split_and!; [by right|done|done]|by right].
  - assert (place (new_root s) (k :: q, ps) = descend q (add_all (kept (k :: q) ps)) (new_root s)) as Hpl
      by (unfold place; cbn [fst snd tail]; by rewrite decide_False). rewrite Hpl in *.
    rewrite decide_True by done. destruct (Hrest (S (nodes_added s)) (k :: q) _ eq_refl) as [(n & ? & ? & ?)|(s' & Hs' & Hroot & Hadd)];
      [left; exists n; split_and!; [by right|done|done]|right]. exists s'. split_and!; [done|done|]. rewrite Hadd. cbn [length]. by rewrite Nat.add_succ_r.
Qed.
End filtering.

(** ** What hierarchies promise *)

(** C24: The iterator over a hierarchy ends without a panic, and gives the properties of its
    nodes node by node, each node with its path from the root; no node twice, and if
    siblings have different names every node. *)
Theorem iterator_visits_nodes `{!HashMapOrder rstring DiagnosticsHierarchy} h :
  ∃ ns, property_iter (E := HierarchyError) h = Ok (concat ((λ n, node_items n.1 n.2) <$> ns)) ∧
    ns ⊆+ nodes_of [diag_name h] h ∧ (distinct h → ns ≡ₚ nodes_of [diag_name h] h).
Proof. apply property_iter_nodes. Qed.

Lemma nodes_of_path h p ps : distinct h → (diag_name h :: p, ps) ∈ nodes_of [diag_name h] h ↔ props_at p h = Some ps.
Proof.
  intros Hd. rewrite elem_of_nodes by done. cbn. split; [|by exists p]. intros (q & Hq & Hps). by injection Hq as ->.
Qed.

Lemma props_at_Some p h ps : props_at p h = Some ps ↔ ∃ n, get_child_by_path p h = Some n ∧ diag_properties n = ps.
Proof. unfold props_at. rewrite fmap_Some. naive_solver. Qed.

(** Regular expressions are not part of the model. *)
Section filter_correct.
Context {RegexSet : Type} (RegexSet_new : list rstring → option RegexSet) (regex_set_len : RegexSet → nat)
  (is_match : RegexSet → rstring → bool) (matches : RegexSet → rstring → list nat)
  (matcher : InspectHierarchyMatcher (RegexSet := RegexSet)) `{!HashMapOrder rstring DiagnosticsHierarchy}.

Lemma filter_places h : regex_set_law RegexSet_new regex_set_len matches matcher → distinct h →
  ∃ ns, ns ≡ₚ nodes_of [diag_name h] h ∧
    ((∃ n, n ∈ ns ∧ RegexSet_new (selectors_at matches matcher n.1) = None ∧
        filter_hierarchy RegexSet_new regex_set_len is_match matches matcher h = Err Regex) ∨
     filter_hierarchy RegexSet_new regex_set_len is_match matches matcher h =
       Ok (if (0 <? length (filter (λ n, selectors_at matches matcher n.1 ≠ []) ns))%nat then
             Some (foldl (place RegexSet_new is_match matches matcher) (diagnostics_new (diag_name h) [] []) ns)
           else None)).
Proof using.
  intros Hlaw Hd. destruct (property_iter_nodes (E := HierarchyError) h) as (ns & Hit & _ & Hperm). specialize (Hperm Hd).
  exists ns. split; [done|]. unfold filter_hierarchy. rewrite Hit. cbn [mbind outcome_bind].
  edestruct (filter_nodes RegexSet_new regex_set_len is_match matches matcher Hlaw (diag_name h) ns) as [(n & Hn & Hnone & ->)|(s' & -> & Hroot & Hadd)];
    [..|left; by exists n|right; cbn [mbind outcome_bind]; by rewrite Hroot, Hadd]; [| |done|by apply Forall_forall].
  - rewrite Hperm. by apply nodes_NoDup.
  - rewrite Hperm. apply Forall_forall. intros n Hn. apply nodes_prefix in Hn as [q ->]. done.
Qed.
End filter_correct.

Lemma props_at_new p name : props_at p (diagnostics_new name [] []) = if decide (p = []) then Some [] else None.
Proof. destruct p as [|k p]; [done|]. by rewrite props_at_cons. Qed.

Lemma props_at_prefix p q h : is_Some (props_at (p ++ q) h) → is_Some (props_at p h).
Proof.
  revert h. induction p as [|k p IH]; intros h; [by intros; eexists|]. cbn [app]. rewrite !props_at_cons.
  destruct (get_child k h); cbn; [apply IH|by intros []].
Qed.

Section placed.
Context {RegexSet : Type} (RegexSet_new : list rstring → option RegexSet)
  (is_match : RegexSet → rstring → bool) (matches : RegexSet → rstring → list nat)
  (matcher : InspectHierarchyMatcher (RegexSet := RegexSet)) (h : DiagnosticsHierarchy) (ns : list node_entry).
Context (Hd : distinct h) (Hperm : ns ≡ₚ nodes_of [diag_name h] h).

Definition placed : DiagnosticsHierarchy :=
  foldl (place RegexSet_new is_match matches matcher) (diagnostics_new (diag_name h) [] []) ns.

Lemma nodes_listed p ps : (diag_name h :: p, ps) ∈ ns ↔ props_at p h = Some ps.
Proof using Hd Hperm. rewrite Hperm. by apply nodes_of_path. Qed.

Lemma nodes_heads : Forall (λ n : node_entry, head n.1 = Some (diag_name h)) ns.
Proof using Hperm. rewrite Hperm. apply Forall_forall. intros n Hn. apply nodes_prefix in Hn as [q ->]. done. Qed.

Lemma node_cons n : n ∈ ns → n = (diag_name h :: tail n.1, n.2).
Proof using Hperm.
  intros Hn. pose proof nodes_heads as Hh. rewrite Forall_forall in Hh. specialize (Hh n Hn). destruct n as [[|j q] ps]; [done|].
  by injection Hh as ->.
Qed.

(** What is selected is kept. *)
Lemma placed_selected p ps : props_at p h = Some ps → selectors_at matches matcher (diag_name h :: p) ≠ [] →
  props_at p placed = Some (kept RegexSet_new is_match matches matcher (diag_name h :: p) ps).
Proof using Hd Hperm.
  intros Hp Hs. apply nodes_listed in Hp. unfold placed. rewrite props_at_places, decide_True.
  - rewrite props_at_new. f_equal. erewrite concat_brings; [|rewrite Hperm; by apply nodes_NoDup|apply nodes_heads|exact Hp|done]. by case_decide.
  - apply Exists_exists. by exists (diag_name h :: p, ps).
Qed.

(** Nothing else is there but the way to it. *)
Lemma placed_only p ps : props_at p placed = Some ps →
  (p = [] ∨ ∃ q, is_Some (props_at (p ++ q) h) ∧ selectors_at matches matcher (diag_name h :: p ++ q) ≠ []) ∧
  (selectors_at matches matcher (diag_name h :: p) = [] → ps = []).
Proof using Hd Hperm.
  unfold placed. rewrite props_at_places, props_at_new. case_decide as Hex.
  - intros [= <-]. split.
    + right. apply Exists_exists in Hex as (n & Hn & Hs & [q Hq]). exists q. pose proof (node_cons n Hn) as En. rewrite Hq in En.
      unfold selected in Hs. rewrite En in Hs. split; [|exact Hs]. exists n.2. apply nodes_listed. by rewrite <- En.
    + intros Hnil. assert (concat (brings RegexSet_new is_match matches matcher p <$> ns) = []) as ->; [|by case_decide].
      apply concat_nil_Forall, Forall_fmap, Forall_forall. intros n Hn. cbn. pose proof (node_cons n Hn) as En.
      unfold brings. destruct (decide (p = tail n.1)) as [->|]; [|by case_decide]. rewrite En in *. cbn [fst tail] in *. by rewrite decide_True.
  - case_decide as Hp; [|done]. intros [= <-]. split; [by left|done].
Qed.
End placed.

(** C13: The filter keeps of a hierarchy whose siblings have different names the nodes that a
    selector matches and their ancestors, and of the selected nodes exactly the properties
    that a selector for the node matches, in their order; if no node is selected there is
    no result, and the only error is a set of regular expressions that cannot be made. *)
Theorem filter_hierarchy_correct {RegexSet : Type} `{!HashMapOrder rstring DiagnosticsHierarchy}
    (RegexSet_new : list rstring → option RegexSet) regex_set_len is_match matches matcher h :
  regex_set_law RegexSet_new regex_set_len matches matcher → distinct h →
  let filtered := filter_hierarchy RegexSet_new regex_set_len is_match matches matcher h in
  let selectors p := selectors_at matches matcher (diag_name h :: p) in
  (∃ p n, get_child_by_path p h = Some n ∧ RegexSet_new (selectors p) = None ∧ filtered = Err Regex) ∨
  (filtered = Ok None ∧ ∀ p n, get_child_by_path p h = Some n → selectors p = []) ∨
  (∃ h', filtered = Ok (Some h') ∧
     (∀ p n, get_child_by_path p h = Some n → selectors p ≠ [] → ∃ n', get_child_by_path p h' = Some n' ∧
        diag_properties n' = kept RegexSet_new is_match matches matcher (diag_name h :: p) (diag_properties n)) ∧
     (∀ p n', get_child_by_path p h' = Some n' →
        (p = [] ∨ ∃ q n, get_child_by_path (p ++ q) h = Some n ∧ selectors (p ++ q) ≠ []) ∧
        (selectors p = [] → diag_properties n' = []))).
Proof.
  intros Hlaw Hd filtered selectors. destruct (filter_places RegexSet_new regex_set_len is_match matches matcher h Hlaw Hd) as (ns & Hperm & Hcase).
  assert (∀ p n, get_child_by_path p h = Some n → (diag_name h :: p, diag_properties n) ∈ ns) as Hin.
  { intros p n Hn. apply (nodes_listed h ns Hd Hperm), props_at_Some. by exists n. }
  destruct Hcase as [(n & Hn & Hnone & Herr)|Hok].
  - left. pose proof (node_cons h ns Hperm n Hn) as En. rewrite En in Hn, Hnone. apply (nodes_listed h ns Hd Hperm), props_at_Some in Hn as (m & Hm & _).
    by exists (tail n.1), m.
  - right. destruct (0 <? length (filter (λ n, selectors_at matches matcher n.1 ≠ []) ns))%nat eqn:Hlen.
    + right. eexists. split; [exact Hok|]. split.
      * intros p n Hn Hs. apply props_at_Some, placed_selected; [done|done|apply props_at_Some; by exists n|done].
      * intros p n' Hn'. destruct (placed_only RegexSet_new is_match matches matcher h ns Hd Hperm p (diag_properties n')) as [Hpre Hnil];
          [apply props_at_Some; by exists n'|]. split; [|done]. destruct Hpre as [->|(q & [ps (n & Hn & _)%props_at_Some] & Hs)]; [by left|right].
        by exists q, n.
    + left. split; [exact Hok|]. intros p n Hn. destruct (decide (selectors p = [])) as [?|Hs]; [done|exfalso].
      apply Nat.ltb_ge, Nat.le_0_r, nil_length_inv in Hlen. by eapply (filter_nil_not_elem_of _ _ (diag_name h :: p, diag_properties n) Hlen); [exact Hs|apply Hin].
Qed.

(** Regular expressions without special characters. *)
Definition literal_matches (r : list rstring) (s : rstring) : list nat :=
  filter (λ i, r !! i = Some s) (seq 0 (length r)).
Definition literal_is_match (r : list rstring) (s : rstring) : bool := bool_decide (s ∈ r).
Definition sample_matcher : InspectHierarchyMatcher (RegexSet := list rstring) :=
  mkMatcher [str "root/a/"; str "root/a/b/"] [str "x"; str "z"].
Definition sample_hierarchy : DiagnosticsHierarchy :=
  diagnostics_new (str "root") [Property_Int (str "x") 0]
    [diagnostics_new (str "c") [Property_Int (str "x") 1] [];
     diagnostics_new (str "a") [Property_Int (str "x") 2; Property_Int (str "y") 3]
       [diagnostics_new (str "b") [Property_Int (str "y") 4] []]].

Lemma sample_law : regex_set_law Some length literal_matches sample_matcher.
Proof.
  split; [by intros l r [= ->]|]. intros path i Hi. unfold literal_matches in Hi. apply list_elem_of_filter in Hi as [_ Hi%elem_of_seq].
  cbn in *. lia.
Qed.

#[local] Instance sample_hash_order : HashMapOrder rstring DiagnosticsHierarchy := key_order_map rstring DiagnosticsHierarchy.

Lemma filter_hierarchy_correct_witness :
  ∃ h' n', filter_hierarchy Some length literal_is_match literal_matches sample_matcher sample_hierarchy = Ok (Some h') ∧
    get_child_by_path [str "a"] h' = Some n' ∧ diag_properties n' = [Property_Int (str "x") 2].
Proof.
  destruct (filter_hierarchy_correct Some length literal_is_match literal_matches sample_matcher sample_hierarchy)
    as [(p & n & _ & Hno & _)|[[Hno _]|(h' & Hok & Hsel & _)]]; [exact sample_law| |discriminate Hno|vm_compute in Hno; discriminate Hno|].
  - cbn. repeat constructor; by apply (bool_decide_unpack _); vm_compute.
  - destruct (Hsel [str "a"] _ eq_refl) as (n' & Hn' & Hps); [by vm_compute|]. exists h', n'. split; [exact Hok|]. split; [exact Hn'|].
    rewrite Hps. by vm_compute.
Defined.

(** ** The order of names *)

Lemma str_cmp_trans a b c : str_cmp a b ≠ Gt → str_cmp b c ≠ Gt → str_cmp a c ≠ Gt.
Proof.
  revert b c. induction a as [|x a IH]; intros [|y b] [|z c]; cbn; try done.
  destruct (Z.compare_spec x y), (Z.compare_spec y z), (Z.compare_spec x z); try done; subst; try lia. apply IH.
Qed.

(** C39: Names that are all numbers, or all not numbers, are ordered, but the comparison by
    which the properties and children of a node are sorted is not an order on all names: 2
    is before 10, 10 before 1a, and 1a before 2. *)
Theorem names_not_ordered :
  (∀ a b c, (is_Some (parse_u64 a) ↔ is_Some (parse_u64 b)) → (is_Some (parse_u64 b) ↔ is_Some (parse_u64 c)) →
     name_partial_cmp a b ≠ Gt → name_partial_cmp b c ≠ Gt → name_partial_cmp a c ≠ Gt) ∧
  name_partial_cmp (str "2") (str "10") = Lt ∧ name_partial_cmp (str "10") (str "1a") = Lt ∧
  name_partial_cmp (str "1a") (str "2") = Lt.
Proof.
  split; [|by vm_compute]. intros a b c Hab Hbc. unfold name_partial_cmp.
  destruct (parse_u64 a) as [x|], (parse_u64 b) as [y|], (parse_u64 c) as [z|]; try by (exfalso; rewrite <- ?not_eq_None_Some in *; naive_solver).
  - destruct (Z.compare_spec x y), (Z.compare_spec y z), (Z.compare_spec x z); try done; lia.
  - apply str_cmp_trans.
Qed.
